(* ===== verification/_CoqProject ===== *)
-Q . S2P
Prelude.v
Env.v
Transaction.v
Value.v
Delta.v
Call.v
Sequence.v
Best.v
Records.v
Coverage.v
CoverageInspector.v
ChainApi.v
Chain.v
Sampling.v
CallCodec.v
MaxCorpus.v
ShrinkEngine.v
MaxShrinker.v
TestSequence.v
Stop.v
TestBroken.v
TestShrinker.v
Paths.v
Limiter.v
Rpc.v
Batch.v
Backend.v
ForkDB.v
Specs.v
Database.v
Literal.v
Rvg.v
HarnessId.v
TestCorpus.v
Compare.v
Stats.v
Threads.v
TestFuzzer.v
MaxFuzzer.v
TestCommand.v
MaxCommand.v
SolcOutput.v
Linker.v
Harness.v
SourceMap.v
BytecodeIndex.v
CoverageReport.v
MappingSlots.v
StorageType.v
StorageNames.v
TraceInspector.v
TraceContext.v
TraceDecode.v
TraceDisplay.v
Graphs.v
SolcAst.v
Parts.v
SymbolIndex.v
References.v
Refers.v
SourceText.v
CompiledTarget.v
SourceInspector.v
Tables.v
ExternalFunctions.v
LayoutInspector.v
Remappings.v
Imports.v
SourceResolver.v
CompileCache.v
SolcDriver.v
Fetch.v
RunFiles.v
Commands.v
CheatState.v
CheatFork.v
CheatCalls.v
CheatInspector.v
