(* ===== verification/Prelude.v ===== *)
(** * Ripfuzz: a verification library

    Ripfuzz is a fuzzer for smart contracts. A harness contract is deployed on
    an in-process chain; workers draw call sequences, run them, merge the
    coverage they collect into a shared map, keep the interesting sequences in
    a corpus, and shrink what they find. [ripfuzz test] looks for broken
    invariants, reverts and panics; [ripfuzz max] maximizes the [value()] of
    the harness. A chain may be forked from live networks through a caching,
    batching and rate-limited JSON-RPC backend; cheatcodes let a harness change
    the environment it runs in; traces, coverage reports and statistics say
    what happened; inspectors show what a compiled contract is made of.

    This library models that program as pure functions and step relations
    written after the Rust sources, and proves the properties that make its
    parts correct. Paths below are under [src/src/].

    ** How code becomes definitions

    - [anyhow::Result] is [Res] with a third case for a panic, so that a
      theorem can say that a call does not panic; a method with [&mut self]
      that may fail is [M S A], a state monad whose state survives the error.
    - [u64], [u128], [usize] and [U256] are [Z] with [wrap w], [sat_add64] and
      the like written where the code wraps or saturates; a [Vec] read out of
      range is [Panic] ([vec_index], [vec_remove]); a map is a [gmap] where
      the order is not observable and a list where it is. A [HashMap] whose
      order can be seen is walked in an order that is a parameter.
    - Threads are programs of atomic actions ([Threads]) or step relations; a
      run of the relation is an interleaving.
    - Code that is not of this repository is a class or a parameter: the random
      generator ([FastRand], with the ranges it documents as [FastRandLaws]),
      the ABI codec ([Abi], [AbiLaws]), the interpreter ([Engine]), the Keccak
      hash, the text forms of numbers and bytes, the hard fork tables, the HTTP
      transport, the compiler process and the file system. A class of laws
      states documented behaviour only, and each theorem that uses one has a
      witness at a concrete instance.

    ** Fuel

    Loops are structural over the data they read where that is possible; the
    visitors of syntax trees are structural on the tree. Elsewhere:

    - retries of a batch: the bound the code has
      ([Batch.dispatch_batch_spec]);
    - a draw by weight: the walk is over the entries, and its fallback is
      never used ([MaxCorpus.random_base_proportional]);
    - workers: the budget of runs, split as the code splits it; a campaign of
      the tester uses all of it unless its deadline passes or it finds
      something ([TestFuzzer.fuzz_completes]); every schedule ends
      ([MaxFuzzer.max_fuzz_terminates], [TestShrinker.test_shrink_terminates]);
    - walks of graphs ([Graphs]): the number of nodes that can be reached, each
      visited once; the walk of the imports ([SourceResolver.resolve]) the
      number of files;
    - the parents of a slot ([MappingSlots]): the number of hashes seen, which
      the insertion cannot exceed; walks of a chain: the number of slots, with
      exhaustion shown to be an endless loop of the code;
    - parsing a type, decoding a code, trimming a prefix: the length of the
      text, of which each step takes at least one character;
    - the values of a mapping in a storage layout: the number of types, its
      exhaustion being an endless loop of the code;
    - recursion that the code bounds by its stack only ([Linker],
      [StorageNames], [TraceDecode]): the stack, its exhaustion being an
      overflow; the theorems say how much is enough.

    ** Shared layers

    - [Prelude]: the two monads, machine integers, vectors, [min_by_key],
      hexadecimal and decimal text, and the tactics [inv_ok] and friends.
    - [Env]: the classes of foreign code. [Paths], [Compare], [Threads],
      [Graphs]: paths, sorting, worker threads, walks of graphs.

    ** The maximizer ([maxer/])

    - [Value], [Delta], [Best], [Records] ([value.rs], [delta.rs], [best.rs],
      [records.rs]): a delta is the exact signed difference of two 256-bit
      values; the best value never drops; the records are the extrema of the
      deltas seen.
    - [Call], [Sequence] ([call.rs], [sequence.rs]): random arguments have the
      types of their parameters; mutations of a sequence.
    - [Sampling], [CallCodec], [MaxCorpus] ([corpus.rs]): admission and
      eviction never panic, respect the limit and never lose the best value;
      sampling is proportional to the weights; saving and loading round trip;
      replay is sound. The two corpora share sampling and the codec of calls.
    - [ShrinkEngine], [MaxShrinker] ([shrinker.rs]): workers over one shared
      candidate and one budget; whatever the interleaving the result still
      reaches the target value.
    - [MaxFuzzer] ([fuzzer.rs]): the workers; the best they return was measured
      on a state its calls lead to, the corpus stays coherent.
    - [MaxCommand] ([cli/max.rs]): corpus, replay, workers and shrinking put
      together; what the command returns is real from end to end.

    ** The tester ([tester/])

    - [TestSequence], [Stop], [TestBroken] ([corpus/call.rs],
      [corpus/sequence.rs], [stop.rs], [broken_invariant.rs]): sequences,
      the identity and the text of stop findings, and the bounded collection
      of findings.
    - [TestShrinker] ([shrinker.rs]): the engine above applied to findings;
      what is shrunk still reproduces the same finding, and shrinking ends.
    - [Literal], [Rvg] ([corpus/literal.rs], [corpus/rvg.rs]): literals of the
      sources at exactly the widths they fit, and random values made from them
      that always have their type; the bytes of a random fixed-bytes value past
      its size are random too.
    - [TestCorpus] ([corpus/mod.rs]): sampling, eviction, saving, loading and
      replay; [Stats] ([stats.rs]): counters that are exact while they fit.
    - [TestFuzzer] ([fuzzer.rs]): the workers; every finding was shown by its
      calls, snapshots are coherent, a campaign runs its whole budget unless
      its deadline passes or it finds something.
    - [TestCommand] ([cli/test.rs]): corpus, replay, workers and shrinking put
      together; what the command reports is real from end to end.
    - [Harness], [HarnessId] ([harness.rs] of both, [executor/script.rs],
      [cli/harness_id.rs]): which contracts are accepted, and how they are
      named on the command line.
    - [RunFiles] ([cli/run_id.rs], [evm/trace/writer.rs],
      [evm/coverage/writer.rs], the reporter of [broken_invariant.rs]): the
      names of the files of a run and the traced re-run of a finding.
    - [Commands] ([cli/exec.rs] and the first steps of [cli/test.rs] and
      [cli/max.rs]): deployment and setup as an interface that [Chain]
      implements; a command that goes on deployed and set up its harness, and
      the one file a script writes is the trace of its last call.

    ** The chain ([evm/])

    - [Transaction] ([chain/transaction.rs], [result.rs],
      [chain/broken_invariant.rs]).
    - [Coverage], [CoverageInspector] ([coverage/]): merging an execution adds
      exactly its features and is interesting exactly when a runtime contract
      brought a new one; after any sequence of interpreter hooks the collected
      coverage is well formed.
    - [SourceMap], [BytecodeIndex], [CoverageReport] ([coverage/reporter.rs],
      [coverage/source_map.rs]): source maps are read back whatever their
      writer abbreviated, the index finds what a plain search finds, and a line
      that starts no function is hit exactly when it is executable, is not the
      first of a contract and a counted code is mapped to it.
    - [ChainApi], [Chain] ([chain/]): the interface [ChainOps] that corpora,
      fuzzers and shrinkers are proved against, and the implementation of it,
      with deployment of libraries and setup; [Linker] ([chain/linker.rs]): no
      placeholder of a library is left.
    - [Specs] ([specs/]): the specification in force at a time is monotone.
    - [Database] ([database.rs]): the forks of a multi-fork database, and the
      accounts that travel from one to another: exactly the local ones, the
      deployer and the cheatcode address.
    - [CheatState], [CheatFork], [CheatCalls], [CheatInspector]
      ([cheatcode/]): what each cheatcode changes and answers, the fork
      cheatcode with its journal, and the pranks, which reach the calls they
      are meant for and no other.
    - [MappingSlots], [StorageType], [StorageNames], [TraceInspector],
      [TraceContext], [TraceDecode], [TraceDisplay] ([trace/]): the hooks build
      exactly the frames of an execution; a slot whose keys were hashed is named
      by its mapping and keys, when the layout could be read; a compact trace
      has the lines of all its frames and logs. The keys are true for any hash:
      no theorem assumes that Keccak has no collisions.

    ** The RPC backend ([evm/forkdb/])

    - [Limiter] ([limiter.rs]): the packed token bucket lets through less than
      its capacity, one token and the refill of a window, and its sleeps are
      exact.
    - [Rpc] ([request.rs], [response.rs], [error.rs], [config.rs]): requests
      and their cache keys, which are injective.
    - [Batch], [Backend] ([backend.rs]): one batch, its retries and its
      answers; then the shared cache and pending batch under any interleaving
      of threads, when a waiting thread returns, the disk cache, and the
      counters.
    - [ForkDB] ([db.rs]): reads of accounts and storage at the pinned block.

    ** Compiling ([compilers/solc/], [dependencies/], [config.rs])

    - [SolcOutput], [SolcDriver] ([mod.rs], [installer.rs]): the output of the
      compiler and the chain from a harness file to it, with its artifacts.
    - [Remappings] ([remappings.rs], [config.rs]), [Imports], [SourceResolver]
      ([source.rs]): what a text imports, where an import is looked up, and the
      walk that collects exactly the files the target needs, for sources with
      each directive on lines of their own.
    - [CompileCache] ([exec.rs], [input.rs]): an input is compiled once; two
      compilations share an entry exactly when their inputs agree or their
      digests collide.
    - [Fetch] ([dependencies/fetch.rs]): installing a dependency changes
      nothing outside its directories.

    ** Inspectors ([inspectors/])

    - [SolcAst], [SymbolIndex], [References], [SourceText], [CompiledTarget],
      [SourceInspector] ([function_source.rs], [compile.rs]): the report on a
      function lists once what its declaration and those reached from it name,
      but for three parts of a tree that the walk leaves out. [Parts] and
      [Refers] hold the specification on the syntax tree and the proof that the
      walk agrees with it. [Tables], [ExternalFunctions]
      ([external_functions.rs]), [LayoutInspector] ([storage_layout.rs]).

    ** Groups of theorems

    End to end: [TestCommand.test_reports_real], [MaxCommand.max_best_real].
    Interleavings: the fuzzers, the shrinkers, [Backend], [Limiter].
    Refinement of a plain specification: [Coverage], [Delta], [Graphs] and the
    inspectors, [SourceResolver], [TraceInspector], [BytecodeIndex].
    Round trips: corpora, source maps, types, stop findings, harness names.
    Bounds: [Stats], [Limiter]. Errors: [CheatFork], [Fetch], [Batch].
    Termination: the fuzzers, the shrinkers, [Batch], [MappingSlots].
    Liveness: [TestFuzzer.fuzz_completes], [Backend.waiter_returns].

    ** Not modelled

    - Code of others: the interpreter, the compiler process, the ABI library,
      the analysis of unknown codes, the readers and writers of JSON and TOML;
      they are parameters.
    - I/O without a state of the program: the HTTP client
      ([forkdb/transport.rs]), the logger, the parsing of arguments, the
      downloads of the installer, the templates of [cli/init.rs]; recording a
      dependency in the settings edits the text through a library.
    - Construction of an interpreter for a chain ([chain/empty.rs]), which sets
      constants of the interpreter library; [chain/fork.rs] holds tests only.
    - Builder methods that only set a field, log lines, floating-point
      percentages and durations.
    - The first and the last steps of the commands and the other commands
      ([inspect], [compile], [fetch], [init]): they call in order the parts
      above and print. *)
From stdpp Require Export base numbers strings gmap fin_maps list.
From Stdlib Require Export Ascii.
From Stdlib Require String.

Declare Scope rip_scope.
Delimit Scope rip_scope with rip.
Global Open Scope Z_scope.

Create HintDb rip.

(** ** Fallible computations

    [anyhow::Result] carries an error message; a Rust panic (index out of
    range, empty range handed to the random number generator) ends the thread.
    The two are told apart because a caller that handles [Err] with [?] or a
    match never sees a panic. *)
Inductive Res (A : Type) : Type :=
| Ok (a : A)
| Err (msg : string)
| Panic (msg : string).
Arguments Ok {A} a.
Arguments Err {A} msg.
Arguments Panic {A} msg.

#[export] Instance Res_ret : MRet Res := fun A a => Ok a.
#[export] Instance Res_bind : MBind Res := fun A B f r =>
  match r with Ok a => f a | Err e => Err e | Panic p => Panic p end.
#[export] Instance Res_fmap : FMap Res := fun A B f r =>
  match r with Ok a => Ok (f a) | Err e => Err e | Panic p => Panic p end.

(** [ensure!(cond, msg)] *)
Definition ensure (c : bool) (msg : string) : Res unit :=
  if c then Ok () else Err msg.

(** [option.context(msg)?] *)
Definition context {A} (o : option A) (msg : string) : Res A :=
  match o with Some a => Ok a | None => Err msg end.

(** [result.context(msg)?]: the cause is replaced by the outer message, the
    form in which the program prints it. *)
Definition with_context {A} (msg : string) (r : Res A) : Res A :=
  match r with Err _ => Err msg | _ => r end.

Definition is_ok {A} (r : Res A) : bool :=
  match r with Ok _ => true | _ => false end.

Definition ok {A} (r : Res A) : option A :=
  match r with Ok a => Some a | _ => None end.

(** Computations over a state that survives an error: a Rust function that
    takes [&mut S] leaves behind what it wrote before it failed. *)
Definition M (S A : Type) : Type := S -> Res A * S.

#[export] Instance M_ret S : MRet (M S) := fun A a s => (Ok a, s).
#[export] Instance M_bind S : MBind (M S) := fun A B f m s =>
  match m s with
  | (Ok a, s') => f a s'
  | (Err e, s') => (Err e, s')
  | (Panic p, s') => (Panic p, s')
  end.

Definition lift {S A} (r : Res A) : M S A := fun s => (r, s).

(** [(0..n).map(|_| m).collect::<Result<Vec<_>>>()]: stops at the first error. *)
Fixpoint repeatM {S A} (n : nat) (m : M S A) : M S (list A) :=
  match n with
  | O => mret []
  | Datatypes.S n' => x ← m; xs ← repeatM n' m; mret (x :: xs)
  end.

(** [iter.map(f).collect::<Result<Vec<_>>>()] *)
Section Traversals.
Context {S A B : Type}.

Section Stateful.
Variable f : A -> M S B.
Fixpoint mapMM (l : list A) : M S (list B) :=
  match l with
  | [] => mret []
  | a :: l' => x ← f a; xs ← mapMM l'; mret (x :: xs)
  end.
End Stateful.

Section Pure.
Variable f : A -> Res B.
Fixpoint mapRes (l : list A) : Res (list B) :=
  match l with
  | [] => Ok []
  | a :: l' => x ← f a; xs ← mapRes l'; mret (x :: xs)
  end.
End Pure.
End Traversals.

Section Monad_lemmas.
Context {S A B : Type}.
Implicit Types (m : M S A) (k : A -> M S B).

Lemma M_bind_Ok m k s b s' :
  (m ≫= k) s = (Ok b, s') <-> exists a s1, m s = (Ok a, s1) /\ k a s1 = (Ok b, s').
Proof.
  unfold mbind, M_bind. destruct (m s) as [[a|e|p] s1]; split.
  - intros H. exists a, s1. auto.
  - intros (a' & s2 & Heq & H). by simplify_eq.
  - done.
  - naive_solver.
  - done.
  - naive_solver.
Qed.

Lemma M_bind_run m k s a s1 : m s = (Ok a, s1) -> (m ≫= k) s = k a s1.
Proof. intros Hm. unfold mbind, M_bind. by rewrite Hm. Qed.

Lemma Res_bind_Ok (r : Res A) (f : A -> Res B) b :
  (r ≫= f) = Ok b <-> exists a, r = Ok a /\ f a = Ok b.
Proof. unfold mbind, Res_bind. destruct r; naive_solver. Qed.

Lemma context_Ok (o : option A) msg a : context o msg = Ok a <-> o = Some a.
Proof. unfold context. destruct o; naive_solver. Qed.

Lemma M_ret_Ok (a a' : A) (s s' : S) :
  (mret a : M S A) s = (Ok a', s') <-> a = a' /\ s = s'.
Proof. unfold mret, M_ret. naive_solver. Qed.

Lemma mapRes_Ok (f : A -> Res B) l ys :
  mapRes f l = Ok ys <-> Forall2 (fun x y => f x = Ok y) l ys.
Proof.
  revert ys. induction l as [|x l IH]; intros ys; simpl.
  - split; [intros [= <-]; constructor | by intros ->%Forall2_nil_inv_l].
  - unfold mbind, Res_bind. split.
    + destruct (f x) as [y| |] eqn:Hx; [|done..].
      destruct (mapRes f l) as [zs| |]; [|done..].
      intros [= <-]. constructor; [done|]. by apply IH.
    + intros (y & zs & Hx & Hl & ->)%Forall2_cons_inv_l.
      rewrite Hx. apply IH in Hl. by rewrite Hl.
Qed.
End Monad_lemmas.

Lemma repeatM_Ok {S A} (P : A -> Prop) (m : M S A) n s xs s' :
  (forall s a s', m s = (Ok a, s') -> P a) ->
  repeatM n m s = (Ok xs, s') -> length xs = n /\ Forall P xs.
Proof.
  intros HP. revert s xs s'.
  induction n as [|n IH]; intros s xs s'; simpl.
  - intros [<- <-]%M_ret_Ok. by split.
  - intros (x & s1 & Hx & Hrest)%M_bind_Ok.
    apply M_bind_Ok in Hrest as (xs' & s2 & Hxs & [<- <-]%M_ret_Ok).
    destruct (IH _ _ _ Hxs) as [Hl HF]. split; [simpl; lia|].
    constructor; eauto.
Qed.

Lemma mapMM_Ok {S A B} (P : A -> B -> Prop) (f : A -> M S B) l s ys s' :
  (forall x s y s', x ∈ l -> f x s = (Ok y, s') -> P x y) ->
  mapMM f l s = (Ok ys, s') -> Forall2 P l ys.
Proof.
  revert s ys s'. induction l as [|x l IH]; intros s ys s' HP; simpl.
  - intros [<- <-]%M_ret_Ok. constructor.
  - intros (y & s1 & Hy & Hrest)%M_bind_Ok.
    apply M_bind_Ok in Hrest as (ys' & s2 & Hys & [<- <-]%M_ret_Ok).
    constructor.
    + eapply HP; [|exact Hy]. set_solver.
    + eapply IH; [|exact Hys]. intros. eapply HP; [|done]. set_solver.
Qed.

(** Inversion of a monadic run that succeeded. *)
Ltac inv_ok :=
  repeat match goal with
  | H : (_ ≫= _) _ = (Ok _, _) |- _ => apply M_bind_Ok in H as (? & ? & ? & ?)
  | H : (_ ≫= _) = Ok _ |- _ => apply Res_bind_Ok in H as (? & ? & ?)
  | H : mret _ _ = (Ok _, _) |- _ => apply M_ret_Ok in H as [? ?]
  | H : mret _ = Ok _ |- _ => injection H as H
  | H : Ok _ = Ok _ |- _ => injection H as H
  | H : lift _ _ = (Ok _, _) |- _ => unfold lift in H
  | H : Err _ = Ok _ |- _ => discriminate H
  | H : Panic _ = Ok _ |- _ => discriminate H
  end; simplify_eq.

(** ** [Iterator::find] *)
Lemma find_app {A} (P : A -> bool) l1 l2 : find P (l1 ++ l2) = match find P l1 with Some x => Some x | None => find P l2 end.
Proof. induction l1 as [|x l1 IH]; cbn; [done|]. by destruct (P x). Qed.

Lemma find_map {A B} (f : A -> B) (P : B -> bool) l : find P (f <$> l) = f <$> find (P ∘ f) l.
Proof. induction l as [|x l IH]; cbn; [done|]. by destruct (P (f x)). Qed.

Lemma find_filter {A} (p q : A -> bool) l :
  find (fun x => p x && q x) l = find q (filter (fun x => p x = true) l).
Proof.
  induction l as [|x l IH]; [done|]. rewrite filter_cons. simpl. destruct (p x) eqn:Ep; simpl.
  - by destruct (q x).
  - done.
Qed.

(** ** Machine integers

    Rust integers are [Z] with their width written out. [usize] is 64 bits. *)
Definition u32_max : Z := 2 ^ 32 - 1.
Definition u64_max : Z := 2 ^ 64 - 1.
Definition u256_max : Z := 2 ^ 256 - 1.

Definition wrap (bits z : Z) : Z := z mod 2 ^ bits.

(** [AtomicU64::fetch_add] and [u64::wrapping_add]. *)
Definition add64 (a b : Z) : Z := wrap 64 (a + b).

(** [u64::saturating_add], [u64::saturating_mul], [saturating_sub] *)
Definition sat_add64 (a b : Z) : Z := Z.min u64_max (a + b).
Definition sat_mul64 (a b : Z) : Z := Z.min u64_max (a * b).
Definition sat_sub (a b : Z) : Z := Z.max 0 (a - b).

(** [bit_len]: the position of the highest set bit plus one, 0 for 0. *)
Definition bit_len (z : Z) : Z := if z =? 0 then 0 else Z.log2 z + 1.

Definition in_u64 (z : Z) : Prop := 0 <= z <= u64_max.
Definition in_u256 (z : Z) : Prop := 0 <= z <= u256_max.

Lemma sat_add64_mono a b c d : a <= c -> b <= d -> sat_add64 a b <= sat_add64 c d.
Proof. unfold sat_add64. lia. Qed.

Lemma sat_add64_range a b : 0 <= a -> 0 <= b -> in_u64 (sat_add64 a b).
Proof. unfold sat_add64, in_u64, u64_max. lia. Qed.

Lemma sat_add64_exact a b : a + b <= u64_max -> sat_add64 a b = a + b.
Proof. unfold sat_add64. lia. Qed.

Lemma wrap_small bits z : 0 <= z < 2 ^ bits -> wrap bits z = z.
Proof. intros. unfold wrap. by apply Z.mod_small. Qed.

Lemma wrap_range bits z : 0 <= bits -> 0 <= wrap bits z < 2 ^ bits.
Proof. intros. unfold wrap. apply Z.mod_pos_bound. lia. Qed.

Lemma bit_len_bound bits z : 0 <= bits -> 0 <= z < 2 ^ bits -> 0 <= bit_len z <= bits.
Proof.
  intros Hb Hz. unfold bit_len. destruct (Z.eqb_spec z 0) as [->|Hnz]; [lia|].
  pose proof (Z.log2_nonneg z).
  assert (Z.log2 z < bits) by (apply Z.log2_lt_pow2; lia). lia.
Qed.

Lemma bit_len_mono a b : 0 <= a <= b -> bit_len a <= bit_len b.
Proof.
  intros Hab. unfold bit_len.
  destruct (Z.eqb_spec a 0), (Z.eqb_spec b 0); try lia.
  - pose proof (Z.log2_nonneg b). lia.
  - pose proof (Z.log2_le_mono a b). lia.
Qed.

#[export] Hint Resolve sat_add64_range wrap_range : rip.

(** ** Iterator idioms

    [min_by_key] returns the first least element, [max_by_key] the last
    greatest one, as the Rust iterators do. [ltb] is the strict order of the
    keys. *)
Section Extrema.
Context {A K : Type} (ltb : K -> K -> bool) (key : A -> K).

Definition min_by_key (l : list A) : option A :=
  match l with
  | [] => None
  | x :: l' => Some (fold_left (fun b y => if ltb (key y) (key b) then y else b) l' x)
  end.

Definition max_by_key (l : list A) : option A :=
  match l with
  | [] => None
  | x :: l' => Some (fold_left (fun b y => if ltb (key y) (key b) then b else y) l' x)
  end.

Lemma min_by_key_elem l x : min_by_key l = Some x -> x ∈ l.
Proof.
  destruct l as [|a l]; [done|]. intros [= <-].
  revert a. induction l as [|b l IH]; intros a; simpl; [set_solver|].
  destruct (ltb _ _); specialize (IH a) as H1; specialize (IH b) as H2; set_solver.
Qed.

Lemma max_by_key_elem l x : max_by_key l = Some x -> x ∈ l.
Proof.
  destruct l as [|a l]; [done|]. intros [= <-].
  revert a. induction l as [|b l IH]; intros a; simpl; [set_solver|].
  destruct (ltb _ _); specialize (IH a) as H1; specialize (IH b) as H2; set_solver.
Qed.

Lemma min_by_key_None l : min_by_key l = None <-> l = [].
Proof. destruct l; simpl; split; congruence. Qed.

Lemma max_by_key_None l : max_by_key l = None <-> l = [].
Proof. destruct l; simpl; split; congruence. Qed.

Context (ltb_asym : forall a b, ltb a b = true -> ltb b a = false).
Context (ltb_neg_trans :
  forall a b c, ltb b a = false -> ltb c b = false -> ltb c a = false).

Lemma fold_min_least l a :
  let m := fold_left (fun b y => if ltb (key y) (key b) then y else b) l a in
  ltb (key a) (key m) = false /\ Forall (fun y => ltb (key y) (key m) = false) l.
Proof.
  assert (Hirr : forall k, ltb k k = false).
  { intros k. destruct (ltb k k) eqn:E; [|done]. by rewrite (ltb_asym _ _ E) in E. }
  revert a. induction l as [|b l IH]; intros a; simpl; [auto|].
  destruct (ltb (key b) (key a)) eqn:E; destruct (IH (if ltb (key b) (key a) then b else a))
    as [H1 H2]; rewrite E in H1, H2.
  - split; [|by constructor]. apply (ltb_neg_trans _ (key b)); auto.
  - split; [done|]. constructor; [|done]. apply (ltb_neg_trans _ (key a)); auto.
Qed.

Lemma min_by_key_least l x y :
  min_by_key l = Some x -> y ∈ l -> ltb (key y) (key x) = false.
Proof.
  destruct l as [|a l]; [done|]. intros [= <-] Hy.
  destruct (fold_min_least l a) as [H1 H2]. rewrite Forall_forall in H2.
  apply elem_of_cons in Hy as [->|Hy]; [done|]. exact (H2 _ Hy).
Qed.

Lemma fold_max_greatest l a :
  let m := fold_left (fun b y => if ltb (key y) (key b) then b else y) l a in
  ltb (key m) (key a) = false /\ Forall (fun y => ltb (key m) (key y) = false) l.
Proof.
  assert (Hirr : forall k, ltb k k = false).
  { intros k. destruct (ltb k k) eqn:E; [|done]. by rewrite (ltb_asym _ _ E) in E. }
  revert a. induction l as [|b l IH]; intros a; simpl; [auto|].
  destruct (ltb (key b) (key a)) eqn:E; destruct (IH (if ltb (key b) (key a) then a else b))
    as [H1 H2]; rewrite E in H1, H2.
  - split; [done|]. constructor; [|done]. apply (ltb_neg_trans _ (key a)); auto.
  - split; [|by constructor]. apply (ltb_neg_trans _ (key b)); auto.
Qed.

Lemma max_by_key_greatest l x y :
  max_by_key l = Some x -> y ∈ l -> ltb (key x) (key y) = false.
Proof.
  destruct l as [|a l]; [done|]. intros [= <-] Hy.
  destruct (fold_max_greatest l a) as [H1 H2]. rewrite Forall_forall in H2.
  apply elem_of_cons in Hy as [->|Hy]; [done|]. exact (H2 _ Hy).
Qed.
End Extrema.

(** The lexicographic order on pairs of integers. *)
Definition pair_ltb (p q : Z * Z) : bool :=
  (p.1 <? q.1) || ((p.1 =? q.1) && (p.2 <? q.2)).

Lemma pair_ltb_asym p q : pair_ltb p q = true -> pair_ltb q p = false.
Proof. unfold pair_ltb. destruct p, q; simpl. lia. Qed.

Lemma pair_ltb_neg_trans p q r :
  pair_ltb q p = false -> pair_ltb r q = false -> pair_ltb r p = false.
Proof. unfold pair_ltb. destruct p, q, r; simpl. lia. Qed.

Lemma Z_ltb_asym (a b : Z) : (a <? b) = true -> (b <? a) = false.
Proof. lia. Qed.

Lemma Z_ltb_neg_trans (a b c : Z) :
  (b <? a) = false -> (c <? b) = false -> (c <? a) = false.
Proof. lia. Qed.

#[export] Hint Resolve pair_ltb_asym pair_ltb_neg_trans Z_ltb_asym Z_ltb_neg_trans : rip.

(** [iter.enumerate()] *)
Definition enumerate {A} (l : list A) : list (nat * A) := imap pair l.

Lemma elem_of_enumerate {A} (l : list A) i x : (i, x) ∈ enumerate l <-> l !! i = Some x.
Proof.
  unfold enumerate. rewrite elem_of_lookup_imap. split.
  - by intros (j & y & [= -> ->] & ?).
  - intros H. by exists i, x.
Qed.

(** [Vec::remove(i)], [v[i]], [Vec::drain(a..b)]: out of range they panic. *)
Definition vec_remove {A} (l : list A) (i : nat) : Res (list A) :=
  if bool_decide (i < length l)%nat then Ok (delete i l) else Panic "removal index out of range".

Definition vec_index {A} (l : list A) (i : nat) : Res A :=
  match l !! i with Some x => Ok x | None => Panic "index out of bounds" end.

Definition vec_drain {A} (l : list A) (a b : nat) : Res (list A) :=
  if bool_decide (a <= b <= length l)%nat then Ok (take a l ++ drop b l)
  else Panic "range out of bounds".

Lemma vec_remove_Ok {A} (l : list A) i l' :
  vec_remove l i = Ok l' <-> (i < length l)%nat /\ l' = delete i l.
Proof. unfold vec_remove. case_bool_decide; naive_solver. Qed.

Lemma vec_drain_Ok {A} (l : list A) a b l' :
  vec_drain l a b = Ok l' <-> (a <= b <= length l)%nat /\ l' = take a l ++ drop b l.
Proof. unfold vec_drain. case_bool_decide; naive_solver. Qed.

(** Deleting the entry at [i] keeps every other entry. *)
Lemma elem_of_delete_ne {A} (l : list A) (i : nat) x y :
  l !! i = Some y -> x ∈ l -> x <> y -> x ∈ delete i l.
Proof.
  intros Hi Hx Hne. apply list_elem_of_lookup in Hx as [j Hj].
  assert (i <> j) by congruence. apply list_elem_of_lookup.
  destruct (decide (j < i)%nat).
  - exists j. by rewrite list_lookup_delete_lt.
  - exists (j - 1)%nat. rewrite list_lookup_delete_ge by lia.
    replace (S (j - 1)) with j by lia. done.
Qed.

Lemma elem_of_delete_sub {A} (l : list A) (i : nat) x : x ∈ delete i l -> x ∈ l.
Proof.
  rewrite delete_take_drop. intros [H|H]%elem_of_app.
  - by apply elem_of_take in H as (j & ? & _); eapply list_elem_of_lookup_2.
  - apply list_elem_of_lookup in H as [j Hj]. rewrite lookup_drop in Hj. by eapply list_elem_of_lookup_2.
Qed.

(** ** Sums of integers *)
Definition zsum (l : list Z) : Z := foldr Z.add 0 l.

Lemma zsum_app l1 l2 : zsum (l1 ++ l2) = zsum l1 + zsum l2.
Proof. induction l1; simpl; lia. Qed.

Lemma zsum_nonneg l : Forall (fun z => 0 <= z) l -> 0 <= zsum l.
Proof. induction 1; simpl; lia. Qed.

(** ** Inserting pairs into a map one after the other *)
Lemma foldl_insert_dom {K A} `{Countable K} (ps : list (K * A)) (m : gmap K A) k :
  k ∈ dom (foldl (fun m p => <[p.1 := p.2]> m) m ps) <-> k ∈ ps.*1 \/ k ∈ dom m.
Proof.
  revert m. induction ps as [|p ps IH]; intros m; simpl; [set_solver|].
  rewrite IH, dom_insert_L. set_solver.
Qed.

Lemma foldl_insert_nodup {K A} `{Countable K} (ps : list (K * A)) (m : gmap K A) :
  NoDup ps.*1 -> foldl (fun m p => <[p.1 := p.2]> m) m ps = list_to_map ps ∪ m.
Proof.
  revert m. induction ps as [|[k v] ps IH]; intros m; simpl; [by rewrite (left_id_L ∅ (∪))|].
  intros [Hk Hnd]%NoDup_cons. rewrite IH by done.
  apply map_eq. intros k'. destruct (decide (k' = k)) as [->|Hne].
  - rewrite lookup_union_r by (by apply not_elem_of_list_to_map_1).
    rewrite lookup_insert_eq. symmetry. apply lookup_union_Some_l. by rewrite lookup_insert_eq.
  - rewrite <- insert_union_l, lookup_insert_ne by done.
    destruct ((list_to_map ps : gmap K A) !! k') eqn:E.
    + erewrite !lookup_union_Some_l by done. done.
    + rewrite !lookup_union_r by done. by rewrite lookup_insert_ne.
Qed.
(** ** Strings *)

(** [str::strip_prefix], [str::starts_with] *)
Fixpoint strip_prefix (p s : string) : option string :=
  match p, s with
  | EmptyString, _ => Some s
  | String a p', String b s' => if Ascii.eqb a b then strip_prefix p' s' else None
  | String _ _, EmptyString => None
  end.

Definition starts_with (p s : string) : bool :=
  match strip_prefix p s with Some _ => true | None => false end.

Lemma strip_prefix_app p s : strip_prefix p (p +:+ s) = Some s.
Proof. induction p as [|a p IH]; simpl; [done|]. by rewrite Ascii.eqb_refl. Qed.

Lemma strip_prefix_Some p s t : strip_prefix p s = Some t <-> s = p +:+ t.
Proof.
  split; [|intros ->; apply strip_prefix_app].
  revert s. induction p as [|a p IH]; intros [|b s]; simpl; try naive_solver.
  destruct (Ascii.eqb_spec a b) as [->|]; [|done]. intros ->%IH. done.
Qed.

Lemma starts_with_app p s : starts_with p (p +:+ s) = true.
Proof. unfold starts_with. by rewrite strip_prefix_app. Qed.

Lemma string_app_inj p s t : p +:+ s = p +:+ t -> s = t.
Proof. intros H. pose proof (strip_prefix_app p s) as Hs. rewrite H, strip_prefix_app in Hs. naive_solver. Qed.

(** [str::contains] *)
Fixpoint contains (needle s : string) : bool :=
  starts_with needle s ||
  match s with EmptyString => false | String _ s' => contains needle s' end.

(** A property of every character. *)
Fixpoint str_all (P : ascii -> bool) (s : string) : bool :=
  match s with EmptyString => true | String a s' => P a && str_all P s' end.

Lemma str_all_app P s t : str_all P (s +:+ t) = str_all P s && str_all P t.
Proof. induction s as [|a s IH]; simpl; [done|]. by rewrite IH, andb_assoc. Qed.

(** Splitting at a separator that the first parts do not hold. *)
Lemma separator_inj P c a b s t :
  str_all P a -> str_all P b -> P c = false ->
  a +:+ String c s = b +:+ String c t -> a = b /\ s = t.
Proof.
  intros Ha Hb Hc. revert b Hb. induction a as [|x a IH]; intros [|y b] Hb; simpl in *.
  - by intros [= ->].
  - intros [= -> _]. rewrite Hc in Hb. done.
  - intros [= -> _]. rewrite Hc in Ha. done.
  - intros [= -> Heq]. apply andb_prop_elim in Ha as [_ Ha]. apply andb_prop_elim in Hb as [_ Hb].
    destruct (IH Ha b Hb Heq) as [-> ->]. done.
Qed.

(** ** The text of unsigned integers: [{}] and [{:x}] *)
Definition digit_char (d : Z) : ascii :=
  nth (Z.to_nat d) ["0"; "1"; "2"; "3"; "4"; "5"; "6"; "7"; "8"; "9";
                    "a"; "b"; "c"; "d"; "e"; "f"]%char "0"%char.

Definition char_digit (a : ascii) : Z :=
  let n := Z.of_nat (nat_of_ascii a) in if n <? 58 then n - 48 else n - 87.

Definition is_digit (a : ascii) : bool :=
  let n := Z.of_nat (nat_of_ascii a) in
  ((48 <=? n) && (n <=? 57)) || ((97 <=? n) && (n <=? 102)).

Fixpoint digits_go (base : Z) (fuel : nat) (n : Z) (acc : string) : string :=
  match fuel with
  | O => acc
  | S fuel' =>
      let acc' := String (digit_char (n mod base)) acc in
      if n <? base then acc' else digits_go base fuel' (n / base) acc'
  end.

(** 64 digits are enough for a [u64] in any base. *)
Definition fmt_dec (n : Z) : string := digits_go 10 64 n "".
Definition fmt_hex (n : Z) : string := digits_go 16 64 n "".

Arguments fmt_dec : simpl never.
Arguments fmt_hex : simpl never.

Fixpoint read_digits (base v : Z) (s : string) : Z :=
  match s with EmptyString => v | String a s' => read_digits base (v * base + char_digit a) s' end.

Lemma digit_char_ok d : 0 <= d < 16 -> char_digit (digit_char d) = d /\ is_digit (digit_char d) = true.
Proof.
  intros Hd.
  assert (Hall : forallb (fun k => (char_digit (digit_char (Z.of_nat k)) =? Z.of_nat k)
    && is_digit (digit_char (Z.of_nat k))) (seq 0 16) = true) by reflexivity.
  rewrite forallb_forall in Hall. specialize (Hall (Z.to_nat d) ltac:(apply in_seq; lia)).
  rewrite Z2Nat.id in Hall by lia. apply andb_true_iff in Hall as [H1 H2]. split; [lia|done].
Qed.

Lemma digits_go_read base fuel n acc :
  2 <= base <= 16 -> (0 < fuel)%nat -> 0 <= n < base ^ Z.of_nat fuel ->
  read_digits base 0 (digits_go base fuel n acc) = read_digits base n acc.
Proof.
  intros Hb. revert n acc. induction fuel as [|fuel IH]; intros n acc Hf Hn; [lia|].
  pose proof (Z.mod_pos_bound n base ltac:(lia)) as Hm.
  destruct (digit_char_ok (n mod base)) as [Hd _]; [lia|]. simpl.
  destruct (n <? base) eqn:E.
  - simpl. rewrite Hd. rewrite Z.mod_small by lia. done.
  - rewrite Nat2Z.inj_succ, Z.pow_succ_r in Hn by lia.
    destruct (decide (fuel = O)) as [->|]; [simpl in Hn; lia|].
    rewrite IH.
    + simpl. rewrite Hd. f_equal. pose proof (Z.div_mod n base). lia.
    + lia.
    + split; [apply Z.div_pos; lia|]. apply Z.div_lt_upper_bound; lia.
Qed.

Lemma digits_go_digits base fuel n acc :
  2 <= base <= 16 -> str_all is_digit acc -> str_all is_digit (digits_go base fuel n acc).
Proof.
  intros Hb. revert n acc. induction fuel as [|fuel IH]; intros n acc Ha; simpl; [done|].
  pose proof (Z.mod_pos_bound n base ltac:(lia)) as Hm.
  destruct (digit_char_ok (n mod base)) as [_ Hd]; [lia|].
  assert (Is_true (str_all is_digit (String (digit_char (n mod base)) acc))) by (simpl; rewrite Hd; done).
  destruct (n <? base); [done|]. by apply IH.
Qed.

Lemma digits_go_acc base fuel n acc : acc <> "" -> digits_go base fuel n acc <> "".
Proof.
  revert n acc. induction fuel as [|fuel IH]; intros n acc Ha; simpl; [done|].
  destruct (n <? base); [done|]. by apply IH.
Qed.

Lemma digits_go_nonempty base fuel n acc : (0 < fuel)%nat -> digits_go base fuel n acc <> "".
Proof.
  destruct fuel; [lia|]. intros _. simpl. destruct (n <? base); [done|]. by apply digits_go_acc.
Qed.

Lemma fmt_inj base n m :
  2 <= base <= 16 -> in_u64 n -> in_u64 m ->
  digits_go base 64 n "" = digits_go base 64 m "" -> n = m.
Proof.
  unfold in_u64, u64_max. intros Hb Hn Hm Heq.
  assert (2 ^ 64 <= base ^ Z.of_nat 64) by (apply (Z.pow_le_mono_l 2 base (Z.of_nat 64)); lia).
  pose proof (digits_go_read base 64 n "" Hb ltac:(lia) ltac:(lia)) as H1.
  pose proof (digits_go_read base 64 m "" Hb ltac:(lia) ltac:(lia)) as H2.
  rewrite Heq, H2 in H1. cbn [read_digits] in H1. done.
Qed.

Lemma fmt_dec_inj n m : in_u64 n -> in_u64 m -> fmt_dec n = fmt_dec m -> n = m.
Proof. intros Hn Hm Heq. refine (fmt_inj 10 n m _ Hn Hm Heq). lia. Qed.

Lemma fmt_hex_inj n m : in_u64 n -> in_u64 m -> fmt_hex n = fmt_hex m -> n = m.
Proof. intros Hn Hm Heq. refine (fmt_inj 16 n m _ Hn Hm Heq). lia. Qed.

Lemma fmt_dec_digits n : str_all is_digit (fmt_dec n).
Proof. apply (digits_go_digits 10 64 n ""); [lia|done]. Qed.

Lemma fmt_hex_digits n : str_all is_digit (fmt_hex n).
Proof. apply (digits_go_digits 16 64 n ""); [lia|done]. Qed.
