(* ===== verification/Env.v ===== *)
(** * Env: the code around the program

    The data types of the libraries the program calls (alloy's ABI types, the
    [fastrand] generator, the hex and decimal text of a [U256]) and, as type
    classes, the operations of those libraries. The program's own definitions
    take an instance as an argument. Laws that the theorems rely on are
    separate classes and state the documented behaviour of each library. *)
From S2P Require Import Prelude.

(** ** Plain data

    A byte is a [Z] in [0, 256), an address a [Z] of 160 bits, a word a [Z] of
    256 bits. *)
Definition Bytes : Type := list Z.
Definition Address : Type := Z.
Definition U256 : Type := Z.
Definition Selector : Type := list Z.

Definition byte_ok (b : Z) : Prop := 0 <= b < 256.
Definition address_max : Z := 2 ^ 160 - 1.

(** The [n] big-endian bytes of a number, and back. *)
Fixpoint be_bytes (n : nat) (u : Z) : Bytes :=
  match n with O => [] | S n' => be_bytes n' (u / 256) ++ [u mod 256] end.
Definition be_number (bs : Bytes) : Z := foldl (fun acc b => acc * 256 + b) 0 bs.

Lemma be_bytes_length n u : length (be_bytes n u) = n.
Proof. revert u. induction n as [|n IH]; intros u; simpl; [done|]. rewrite length_app, IH. simpl. lia. Qed.

Lemma be_bytes_ok n u : Forall byte_ok (be_bytes n u).
Proof.
  revert u. induction n as [|n IH]; intros u; simpl; [constructor|].
  apply Forall_app. split; [apply IH|]. constructor; [|constructor]. unfold byte_ok.
  apply Z.mod_pos_bound. lia.
Qed.

Lemma be_number_snoc bs b : be_number (bs ++ [b]) = be_number bs * 256 + b.
Proof. unfold be_number. by rewrite foldl_snoc. Qed.

Lemma be_number_bytes n u : 0 <= u < 256 ^ Z.of_nat n -> be_number (be_bytes n u) = u.
Proof.
  revert u. induction n as [|n IH]; intros u Hu; simpl.
  - simpl in Hu. change (256 ^ 0) with 1 in Hu. unfold be_number; simpl. lia.
  - rewrite be_number_snoc. rewrite Nat2Z.inj_succ, Z.pow_succ_r in Hu by lia.
    rewrite IH; [pose proof (Z.div_mod u 256); lia|].
    split; [apply Z.div_pos; lia|]. apply Z.div_lt_upper_bound; lia.
Qed.

Lemma be_number_range bs : Forall byte_ok bs -> 0 <= be_number bs < 256 ^ Z.of_nat (length bs).
Proof.
  induction bs as [|b bs IH] using rev_ind; [unfold be_number; simpl; lia|].
  intros [Hbs [Hb _]%Forall_cons]%Forall_app. specialize (IH Hbs). unfold byte_ok in Hb.
  rewrite be_number_snoc, length_app, Nat2Z.inj_add, Z.pow_add_r by lia. simpl (length [b]).
  change (256 ^ Z.of_nat 1) with 256. nia.
Qed.

#[export] Instance Bytes_eq_dec : EqDecision Bytes.
Proof. unfold Bytes. apply _. Defined.
#[export] Instance Bytes_countable : Countable Bytes.
Proof. unfold Bytes. apply _. Defined.
#[export] Instance Selector_eq_dec : EqDecision Selector.
Proof. unfold Selector. apply _. Defined.
#[export] Instance Selector_countable : Countable Selector.
Proof. unfold Selector. apply _. Defined.

(** ** alloy's dynamic ABI types and values *)
Inductive DynSolType : Type :=
| TBool
| TInt (bits : Z)
| TUint (bits : Z)
| TFixedBytes (size : nat)
| TAddress
| TFunction
| TBytes
| TString
| TArray (ty : DynSolType)
| TFixedArray (ty : DynSolType) (len : nat)
| TTuple (tys : list DynSolType).

(** [VInt] holds the signed number; [VFixedBytes] the full 32-byte word, as
    [DynSolValue::FixedBytes(word, size)] does. *)
Inductive DynSolValue : Type :=
| VBool (b : bool)
| VInt (i : Z) (bits : Z)
| VUint (u : U256) (bits : Z)
| VFixedBytes (word : Bytes) (size : nat)
| VAddress (a : Address)
| VFunction (f : Bytes)
| VBytes (bs : Bytes)
| VString (s : string)
| VArray (vs : list DynSolValue)
| VFixedArray (vs : list DynSolValue)
| VTuple (vs : list DynSolValue).

(** [I256::from_raw]: the two's complement reading of a 256-bit word. *)
Definition I256_from_raw (u : U256) : Z := if u <? 2 ^ 255 then u else u - 2 ^ 256.

(** An ABI parameter and function, with the public fields the program reads. *)
Inductive Param : Type :=
| mkParam (param_name : string) (ty : string) (components : list Param).

Definition param_name (p : Param) : string := let '(mkParam n _ _) := p in n.
Definition param_ty (p : Param) : string := let '(mkParam _ t _) := p in t.

Inductive StateMutability : Type := Pure | View | NonPayable | Payable.

Record Function : Type := mkFunction {
  fn_name : string;
  fn_inputs : list Param;
  fn_outputs : list Param;
  fn_mutability : StateMutability;
}.

(** ** The ABI library *)
Class Abi : Type := {
  (** [Function::signature], [Function::selector] *)
  signature : Function -> string;
  selector : Function -> Selector;
  (** [Param::resolve] *)
  resolve : Param -> Res DynSolType;
  (** [DynSolValue::abi_encode_params], [JsonAbiExt::abi_decode_input],
      [DynSolType::abi_decode] *)
  abi_encode_params : DynSolValue -> Bytes;
  abi_decode_input : Function -> Bytes -> Res (list DynSolValue);
  abi_decode : DynSolType -> Bytes -> Res DynSolValue;
}.

(** The laws of the ABI library: a selector is four bytes, and decoding what
    was encoded for a function gives the arguments back. [args_for] is the
    relation between a function and the argument lists of its type. *)
Class AbiLaws `{Abi} : Type := {
  args_for : Function -> list DynSolValue -> Prop;
  selector_len : forall f, length (selector f) = 4%nat;
  decode_encode : forall f args, args_for f args ->
    abi_decode_input f (abi_encode_params (VTuple args)) = Ok args;
}.

(** ** The text of integers and bytes: [U256]'s [Display] and [FromStr], and
    the hex crate. *)
Class Text : Type := {
  u256_to_string : U256 -> string;
  u256_parse : string -> Res U256;
  hex_encode : Bytes -> string;
  hex_decode : string -> Res Bytes;
}.

Class TextLaws `{Text} : Type := {
  u256_parse_to_string : forall u, in_u256 u -> u256_parse (u256_to_string u) = Ok u;
  hex_encode_length : forall bs, String.length (hex_encode bs) = (2 * length bs)%nat;
  hex_decode_encode : forall bs, Forall byte_ok bs -> hex_decode (hex_encode bs) = Ok bs;
  (** the encoding uses the digits 0-9 and a-f only *)
  hex_encode_digits : forall bs, Forall byte_ok bs -> str_all is_digit (hex_encode bs);
}.

(** The [x] of an [0x] prefix never occurs in an encoding. *)
Lemma hex_encode_no_x `{TextLaws} bs :
  Forall byte_ok bs -> "x"%char ∉ String.list_ascii_of_string (hex_encode bs).
Proof.
  intros Hb. pose proof (hex_encode_digits bs Hb) as Hd. revert Hd. generalize (hex_encode bs). intros s.
  induction s as [|a s IH]; [set_solver|]. cbn [str_all String.list_ascii_of_string].
  intros [Ha Hs]%andb_prop_elim. apply not_elem_of_cons. split; [by intros <-|auto].
Qed.

(** [keccak256] of a text's bytes, and [Bytes::from_str]. *)
Class Keccak : Type := { keccak256 : string -> Bytes }.
Class BytesText : Type := { bytes_parse : string -> Res Bytes }.

(** ** The random number generator

    [rng_range lo hi] draws from the inclusive range; [rng_fill n] fills a
    buffer of [n] bytes. *)
Class FastRand (R : Type) : Type := {
  rng_range : Z -> Z -> R -> Z * R;
  rng_bool : R -> bool * R;
  rng_fill : nat -> R -> Bytes * R;
  rng_alphanumeric : R -> Ascii.ascii * R;
  rng_alphabetic : R -> Ascii.ascii * R;
  rng_with_seed : Z -> R;
}.

Class FastRandLaws (R : Type) `{FastRand R} : Prop := {
  rng_range_bounds : forall lo hi r, lo <= hi -> lo <= (rng_range lo hi r).1 <= hi;
  rng_fill_length : forall n r, length (rng_fill n r).1 = n;
  rng_fill_bytes : forall n r, Forall byte_ok (rng_fill n r).1;
}.

Section Draws.
Context {R : Type} `{FastRand R}.

(** [rng.usize(lo..=hi)], [rng.u32(lo..hi)] and the like: an empty range
    panics. *)
Definition draw (lo hi : Z) : M R Z := fun r =>
  if lo <=? hi then let '(z, r') := rng_range lo hi r in (Ok z, r')
  else (Panic "empty range", r).

(** [rng.usize(..n)], [rng.u64(..n)] *)
Definition draw_below (n : Z) : M R Z := draw 0 (n - 1).

(** [&items[rng.usize(..items.len())]] *)
Definition draw_item {A} (items : list A) : M R A :=
  i ← draw_below (Z.of_nat (length items)); lift (vec_index items (Z.to_nat i)).

Definition draw_bool : M R bool := fun r => let '(b, r') := rng_bool r in (Ok b, r').
Definition draw_fill (n : nat) : M R Bytes := fun r => let '(b, r') := rng_fill n r in (Ok b, r').
Definition draw_alphanumeric : M R Ascii.ascii :=
  fun r => let '(c, r') := rng_alphanumeric r in (Ok c, r').
Definition draw_alphabetic : M R Ascii.ascii :=
  fun r => let '(c, r') := rng_alphabetic r in (Ok c, r').

Context `{!FastRandLaws R}.

Lemma draw_Ok lo hi r z r' : draw lo hi r = (Ok z, r') -> lo <= z <= hi.
Proof.
  unfold draw. destruct (Z.leb_spec lo hi) as [Hle|]; [|done].
  pose proof (rng_range_bounds lo hi r Hle). destruct (rng_range lo hi r). naive_solver.
Qed.

Lemma draw_total lo hi r : lo <= hi -> exists z r', draw lo hi r = (Ok z, r').
Proof.
  intros. unfold draw. rewrite (proj2 (Z.leb_le lo hi)) by done.
  destruct (rng_range lo hi r). eauto.
Qed.

Lemma draw_below_Ok n r z r' : draw_below n r = (Ok z, r') -> 0 <= z < n.
Proof. intros ?%draw_Ok. lia. Qed.

Lemma draw_item_Ok {A} (items : list A) r x r' :
  draw_item items r = (Ok x, r') -> x ∈ items.
Proof.
  unfold draw_item. intros Hr. inv_ok. unfold vec_index in *.
  destruct (items !! _) eqn:E; simplify_eq. by eapply list_elem_of_lookup_2.
Qed.

Lemma draw_item_total {A} (items : list A) r :
  items <> [] -> exists x r', draw_item items r = (Ok x, r').
Proof.
  intros Hne. unfold draw_item, draw_below.
  assert (0 < length items)%nat by (destruct items; simpl; [done|lia]).
  destruct (draw_total 0 (Z.of_nat (length items) - 1) r) as (z & r' & Hz); [lia|].
  pose proof (draw_Ok _ _ _ _ _ Hz).
  destruct (lookup_lt_is_Some_2 items (Z.to_nat z)) as [x Hx]; [lia|].
  exists x, r'. apply M_bind_Ok. exists z, r'. split; [done|].
  unfold lift, vec_index. by rewrite Hx.
Qed.

Lemma draw_fill_Ok n r bs r' :
  draw_fill n r = (Ok bs, r') -> length bs = n /\ Forall byte_ok bs.
Proof.
  unfold draw_fill. pose proof (rng_fill_length n r). pose proof (rng_fill_bytes n r).
  destruct (rng_fill n r). naive_solver.
Qed.
End Draws.

(** ** Instances used by the witnesses

    A generator whose state is a counter, and a small ABI that encodes only
    tuples of [uint256] values as 32 big-endian bytes each. *)
Module Toy.
Definition cycle (lo hi : Z) (r : Z) : Z * Z := (lo + r mod (hi - lo + 1), r + 1).

#[export] Instance rng : FastRand Z := {
  rng_range := cycle;
  rng_bool r := (Z.odd r, r + 1);
  rng_fill n r := (repeat (r mod 256) n, r + 1);
  rng_alphanumeric r := ("a"%char, r + 1);
  rng_alphabetic r := ("a"%char, r + 1);
  rng_with_seed s := s;
}.

#[export] Instance rng_laws : FastRandLaws Z.
Proof.
  split; simpl.
  - intros lo hi r Hle. pose proof (Z.mod_pos_bound r (hi - lo + 1)). lia.
  - intros n r. apply repeat_length.
  - intros n r. apply Forall_forall. intros b Hb.
    apply list_elem_of_In, repeat_spec in Hb as ->. unfold byte_ok.
    apply Z.mod_pos_bound. lia.
Defined.

(** Binary digits, least significant first, for the text of integers. *)
Fixpoint pos_digits (p : positive) : string :=
  match p with
  | xH => "1"
  | xO p' => String "0" (pos_digits p')
  | xI p' => String "1" (pos_digits p')
  end.

Fixpoint digits_value (s : string) : Z :=
  match s with
  | EmptyString => 0
  | String a s' => (if Ascii.eqb a "1" then 1 else 0) + 2 * digits_value s'
  end.

Lemma digits_value_pos p : digits_value (pos_digits p) = Z.pos p.
Proof. induction p; simpl; lia. Qed.

Definition hex_digit (n : Z) : Ascii.ascii :=
  nth (Z.to_nat n) ["0"; "1"; "2"; "3"; "4"; "5"; "6"; "7"; "8"; "9";
                    "a"; "b"; "c"; "d"; "e"; "f"]%char "0"%char.
Definition hex_value (a : Ascii.ascii) : Z :=
  let n := Z.of_nat (Ascii.nat_of_ascii a) in if n <? 58 then n - 48 else n - 87.

Fixpoint encode (bs : Bytes) : string :=
  match bs with
  | [] => ""
  | b :: bs' => String (hex_digit (b / 16)) (String (hex_digit (b mod 16)) (encode bs'))
  end.

Fixpoint decode (s : string) : Res Bytes :=
  match s with
  | EmptyString => Ok []
  | String _ EmptyString => Err "odd length"
  | String a (String b s') => bs ← decode s'; mret ((16 * hex_value a + hex_value b) :: bs)
  end.

Lemma hex_value_digit n : 0 <= n < 16 -> hex_value (hex_digit n) = n /\ is_digit (hex_digit n) = true.
Proof.
  intros Hn.
  assert (Hall : forallb (fun k => (hex_value (hex_digit (Z.of_nat k)) =? Z.of_nat k)
    && is_digit (hex_digit (Z.of_nat k))) (seq 0 16) = true) by reflexivity.
  rewrite forallb_forall in Hall. specialize (Hall (Z.to_nat n) ltac:(apply in_seq; lia)).
  rewrite Z2Nat.id in Hall by lia. apply andb_true_iff in Hall as [H1 H2]. split; [lia|done].
Qed.

#[export] Instance text : Text := {
  u256_to_string u := match u with Z.pos p => pos_digits p | _ => "" end;
  u256_parse s := Ok (digits_value s);
  hex_encode := encode;
  hex_decode := decode;
}.

#[export] Instance text_laws : TextLaws.
Proof.
  split; simpl.
  - intros [|p|p] Hu; simpl; [done|by rewrite digits_value_pos|unfold in_u256 in Hu; lia].
  - induction bs as [|b bs IH]; simpl; [done|]. rewrite IH. lia.
  - induction bs as [|b bs IH]; intros Hb; [done|]. apply Forall_cons in Hb as [Hb Hbs].
    cbn [encode decode]. rewrite IH by done. simpl. unfold byte_ok in Hb.
    destruct (hex_value_digit (b / 16)) as [-> _]; [split; [apply Z.div_pos; lia|];
      apply Z.div_lt_upper_bound; lia|].
    destruct (hex_value_digit (b mod 16)) as [-> _]; [apply Z.mod_pos_bound; lia|].
    do 2 f_equal. pose proof (Z.div_mod b 16). lia.
  - induction bs as [|b bs IH]; simpl; intros Hb; [done|].
    apply Forall_cons in Hb as [Hb Hbs]. unfold byte_ok in Hb.
    destruct (hex_value_digit (b / 16)) as [_ H1]; [split; [apply Z.div_pos; lia|];
      apply Z.div_lt_upper_bound; lia|].
    destruct (hex_value_digit (b mod 16)) as [_ H2]; [apply Z.mod_pos_bound; lia|].
    rewrite H1, H2. by apply IH.
Defined.

(** Functions without arguments, told apart by their names. *)
#[export] Instance abi : Abi := {
  signature f := fn_name f +:+ "()";
  selector _ := [1; 2; 3; 4];
  resolve _ := Ok (TUint 256);
  abi_encode_params _ := [];
  abi_decode_input _ _ := Ok [];
  abi_decode _ _ := Ok (VUint 7 256);
}.

#[export] Instance abi_laws : AbiLaws.
Proof.
  refine {| args_for _ args := args = [] |}; [done|by intros f args ->].
Defined.
End Toy.
