(* ===== verification/Transaction.v ===== *)
(** * Transaction: transactions, their results and broken-invariant reports

    Models [evm/chain/transaction.rs], [evm/result.rs],
    [evm/chain/broken_invariant.rs] and the [RpcStats] counters of
    [evm/forkdb/backend.rs]. *)
From S2P Require Import Prelude.
From S2P Require Import Env.

(** ** RPC counters *)
Record RpcStats : Type := mkRpcStats {
  hits : Z;
  misses : Z;
  (** a [Duration] in nanoseconds *)
  wait : Z;
}.

(** [Duration::MAX] in nanoseconds. *)
Definition duration_max : Z := u64_max * 1000000000 + 999999999.

Definition rpc_default : RpcStats := mkRpcStats 0 0 0.

Definition rpc_saturating_add (a b : RpcStats) : RpcStats :=
  mkRpcStats (sat_add64 (hits a) (hits b)) (sat_add64 (misses a) (misses b))
    (Z.min duration_max (wait a + wait b)).

Definition rpc_saturating_sub (a b : RpcStats) : RpcStats :=
  mkRpcStats (sat_sub (hits a) (hits b)) (sat_sub (misses a) (misses b))
    (sat_sub (wait a) (wait b)).

(** ** Transactions *)
Record Transaction : Type := mkTransaction {
  caller : Address;
  target : Address;
  calldata : Bytes;
  tx_value : U256;
  gas_limit : Z;
}.

Definition DEFAULT_DEPLOYER : Address := 0xd93a248535ef447440e7d63a2aff6c3e75b235c7.

Definition Transaction_new (t : Address) : Transaction :=
  mkTransaction DEFAULT_DEPLOYER t [] 0 u64_max.

Definition with_calldata (tx : Transaction) (d : Bytes) : Transaction :=
  mkTransaction (caller tx) (target tx) d (tx_value tx) (gas_limit tx).

Definition with_caller (tx : Transaction) (c : Address) : Transaction :=
  mkTransaction c (target tx) (calldata tx) (tx_value tx) (gas_limit tx).

Definition with_value (tx : Transaction) (v : U256) : Transaction :=
  mkTransaction (caller tx) (target tx) (calldata tx) v (gas_limit tx).

Definition with_gas_limit (tx : Transaction) (g : Z) : Transaction :=
  mkTransaction (caller tx) (target tx) (calldata tx) (tx_value tx) g.

(** ** Results *)
Record Log : Type := mkLog { log_address : Address; log_topics : list U256; log_data : Bytes }.

(** revm's [Output] and [ExecutionResult]. *)
Inductive Output : Type :=
| OutCall (b : Bytes)
| OutCreate (b : Bytes) (addr : option Address).

Inductive ExecutionResult : Type :=
| Success (gas : Z) (logs : list Log) (output : Output)
| Revert (gas : Z) (logs : list Log) (output : Bytes)
| Halt (gas : Z) (logs : list Log).

Record TransactionResult : Type := mkResult {
  success : bool;
  gas_used : Z;
  output : option Bytes;
  logs : list Log;
  created_address : option Address;
  elapsed : Z;
  rpc : RpcStats;
}.

Definition result_from (r : ExecutionResult) : TransactionResult :=
  match r with
  | Success gas logs out =>
      let '(o, addr) :=
        match out with
        | OutCall b => (Some b, None)
        | OutCreate b addr => (Some b, addr)
        end in
      mkResult true gas o logs addr 0 rpc_default
  | Revert gas logs out => mkResult false gas (Some out) logs None 0 rpc_default
  | Halt gas logs => mkResult false gas None logs None 0 rpc_default
  end.

(** ** Broken invariants *)
Record BrokenInvariant : Type := mkBroken { bi_id : string; bi_description : string }.

#[export] Instance BrokenInvariant_eq_dec : EqDecision BrokenInvariant.
Proof. solve_decision. Defined.

(** The [sol!]-generated decoder of [BrokenInvariantError(string,string)]. *)
Class BrokenInvariantError : Type := {
  SELECTOR : Selector;
  bie_decode : Bytes -> option (string * string);
}.

Section BrokenInvariants.
Context `{BrokenInvariantError}.

Definition from_revert (out : Bytes) : option BrokenInvariant :=
  if (length out <? 4)%nat || negb (bool_decide (take 4 out = SELECTOR)) then None
  else match bie_decode out with
       | None => None
       | Some (id, description) =>
           if bool_decide (id = EmptyString) then None else Some (mkBroken id description)
       end.

Definition broken_invariant (r : TransactionResult) : option BrokenInvariant :=
  if success r then None
  else match output r with
       | None => None
       | Some out => from_revert out
       end.

(** A report has an id, and only a failed transaction with the error's
    selector in its output carries one. *)
Lemma broken_invariant_Some r bi :
  broken_invariant r = Some bi ->
  success r = false /\ bi_id bi <> EmptyString /\
  exists out, output r = Some out /\ (4 <= length out)%nat /\ take 4 out = SELECTOR.
Proof.
  unfold broken_invariant, from_revert. destruct (success r); [done|].
  destruct (output r) as [out|]; [|done].
  destruct (Nat.ltb_spec (length out) 4); [done|]. simpl.
  case_bool_decide as Hsel; [|done]. simpl.
  destruct (bie_decode out) as [[id d]|]; [|done]. case_bool_decide; [done|].
  intros [= <-]. eauto 10.
Qed.

Lemma broken_invariant_halt gas logs : broken_invariant (result_from (Halt gas logs)) = None.
Proof. done. Qed.

Lemma broken_invariant_success gas logs out :
  broken_invariant (result_from (Success gas logs out)) = None.
Proof. by destruct out. Qed.
End BrokenInvariants.
