(* ===== verification/Value.v ===== *)
(** * Value: measured harness values

    Models [maxer/value.rs]. A value is the [uint256] decoded from the
    [value()] call. *)
From S2P Require Import Prelude.
From S2P Require Import Env.
From S2P Require Import Transaction.

Record Value : Type := new { get : U256 }.

#[export] Instance Value_eq_dec : EqDecision Value.
Proof. solve_decision. Defined.

(** The derived [Ord] of the newtype. *)
Definition value_ltb (a b : Value) : bool := get a <? get b.

Section Decode.
Context `{Abi}.

Definition decode (result : TransactionResult) : Res Value :=
  _ ← ensure (success result) "value call reverted";
  out ← context (output result) "value call returned no output";
  decoded ← with_context "value call output is not `uint256`" (abi_decode (TUint 256) out);
  match decoded with
  | VUint v bits =>
      if bits =? 256 then mret (new v) else Err "value call output is not `uint256`"
  | _ => Err "value call output is not `uint256`"
  end.

(** Decoding never panics on a library that does not, and succeeds on exactly
    the successful results whose output is a [uint256]. *)
Lemma decode_Ok result v :
  decode result = Ok v <->
  success result = true /\
  exists out, output result = Some out /\ abi_decode (TUint 256) out = Ok (VUint (get v) 256).
Proof.
  unfold decode, ensure, context, with_context, mbind, Res_bind. split.
  - destruct (success result); [|done]. destruct (output result) as [out|]; [|done].
    destruct (abi_decode _ out) as [[]| |] eqn:E; try done.
    destruct (Z.eqb_spec bits 256) as [->|]; [|done]. intros [= <-]. eauto.
  - intros (-> & out & -> & ->). simpl. by destruct v.
Qed.
End Decode.
