(* ===== verification/Delta.v ===== *)
(** * Delta: signed changes in the harness value

    Models [maxer/delta.rs]: a sign and a [uint256] magnitude, so that every
    difference of two [uint256] values is representable. The abstract
    specification is the mathematical integer [to_Z]. *)
From S2P Require Import Prelude.
From S2P Require Import Env.
From S2P Require Import Transaction.
From S2P Require Import Value.

Record Delta : Type := mkDelta { negative : bool; magnitude : U256 }.

#[export] Instance Delta_eq_dec : EqDecision Delta.
Proof. solve_decision. Defined.

(** A zero magnitude is normalised to a non-negative zero. *)
Definition new (neg : bool) (m : U256) : Delta :=
  if m =? 0 then mkDelta false m else mkDelta neg m.

(** [U256] subtraction wraps; the guard makes the wrap unreachable, which
    [between_exact] proves. *)
Definition between (before after : Value) : Delta :=
  if get before <=? get after then new false (wrap 256 (get after - get before))
  else new true (wrap 256 (get before - get after)).

Definition zero : Delta := new false 0.

Definition is_zero (d : Delta) : bool := magnitude d =? 0.
Definition is_negative (d : Delta) : bool := negative d.
Definition is_positive (d : Delta) : bool := negb (negative d) && negb (magnitude d =? 0).

Definition activity (d : Delta) : Z :=
  if is_zero d then 0 else sat_mul64 (sat_add64 (bit_len (magnitude d)) 1) 8.

(** [Ord::cmp] *)
Definition cmp (a b : Delta) : comparison :=
  match negative a, negative b with
  | true, false => Lt
  | false, true => Gt
  | true, true => Z.compare (magnitude b) (magnitude a)
  | false, false => Z.compare (magnitude a) (magnitude b)
  end.

Definition ltb (a b : Delta) : bool := match cmp a b with Lt => true | _ => false end.

(** [Display] *)
Definition display `{Text} (d : Delta) : string :=
  if is_zero d then "0"
  else if negative d then "-" +:+ u256_to_string (magnitude d)
  else "+" +:+ u256_to_string (magnitude d).

(** ** Specification *)
Definition to_Z (d : Delta) : Z := if negative d then - magnitude d else magnitude d.

(** The well-formed deltas, the ones [new] and [between] build. *)
Definition wf (d : Delta) : Prop :=
  in_u256 (magnitude d) /\ (negative d = true -> magnitude d <> 0).

Lemma new_wf neg m : in_u256 m -> wf (new neg m).
Proof. intros Hm. unfold wf, new. destruct (Z.eqb_spec m 0); by simpl. Qed.

Lemma new_to_Z neg m : to_Z (new neg m) = if neg then - m else m.
Proof. unfold new, to_Z. destruct (Z.eqb_spec m 0) as [->|]; by destruct neg. Qed.

Lemma between_unwrapped before after :
  in_u256 (get before) -> in_u256 (get after) ->
  between before after =
    if get before <=? get after then new false (get after - get before)
    else new true (get before - get after).
Proof.
  unfold in_u256, u256_max, between. intros Hb Ha.
  destruct (Z.leb_spec (get before) (get after)); (rewrite wrap_small; [done|lia]).
Qed.

Lemma between_wf before after :
  in_u256 (get before) -> in_u256 (get after) -> wf (between before after).
Proof.
  intros Hb Ha. rewrite between_unwrapped by done. unfold in_u256 in *.
  destruct (Z.leb_spec (get before) (get after)); apply new_wf; unfold in_u256; lia.
Qed.

#[export] Hint Resolve new_wf between_wf : rip.

Lemma between_to_Z before after :
  in_u256 (get before) -> in_u256 (get after) ->
  to_Z (between before after) = get after - get before.
Proof.
  intros Hb Ha. rewrite between_unwrapped by done.
  destruct (Z.leb_spec (get before) (get after)); rewrite new_to_Z; lia.
Qed.

Lemma to_Z_inj a b : wf a -> wf b -> to_Z a = to_Z b -> a = b.
Proof.
  destruct a as [[] ma], b as [[] mb]; unfold wf, to_Z, in_u256; simpl;
    intros [? Ha] [? Hb] ?; try specialize (Ha eq_refl); try specialize (Hb eq_refl);
    try lia; f_equal; lia.
Qed.

Lemma cmp_to_Z a b : wf a -> wf b -> cmp a b = Z.compare (to_Z a) (to_Z b).
Proof.
  destruct a as [[] ma], b as [[] mb]; unfold wf, to_Z, cmp, in_u256; simpl;
    intros [? Ha] [? Hb]; try specialize (Ha eq_refl); try specialize (Hb eq_refl).
  - by rewrite Z.compare_opp.
  - symmetry. apply Z.compare_lt_iff. lia.
  - symmetry. apply Z.compare_gt_iff. lia.
  - done.
Qed.

Lemma ltb_to_Z a b : wf a -> wf b -> ltb a b = (to_Z a <? to_Z b).
Proof. intros. unfold ltb. rewrite cmp_to_Z by done. by rewrite Z.ltb_compare. Qed.

Lemma is_positive_to_Z d : wf d -> is_positive d = (0 <? to_Z d).
Proof.
  destruct d as [[] m]; unfold wf, is_positive, to_Z, in_u256; simpl; intros [? Hd];
    try specialize (Hd eq_refl); lia.
Qed.

Lemma is_negative_to_Z d : wf d -> is_negative d = (to_Z d <? 0).
Proof.
  destruct d as [[] m]; unfold wf, is_negative, to_Z, in_u256; simpl; intros [? Hd];
    try specialize (Hd eq_refl); lia.
Qed.

Lemma is_zero_to_Z d : wf d -> is_zero d = (to_Z d =? 0).
Proof. destruct d as [[] m]; unfold wf, is_zero, to_Z; simpl; intros [? Hd]; lia. Qed.

Lemma activity_le d : wf d -> 0 <= activity d <= 2056.
Proof.
  intros [Hm _]. unfold activity. destruct (is_zero d); [lia|].
  pose proof (bit_len_bound 256 (magnitude d)) as Hb.
  unfold in_u256, u256_max in Hm. unfold sat_mul64, sat_add64, u64_max. lia.
Qed.

Lemma activity_zero d : wf d -> activity d = 0 <-> to_Z d = 0.
Proof.
  intros Hwf. pose proof Hwf as [Hm _]. unfold activity. rewrite is_zero_to_Z by done.
  destruct (Z.eqb_spec (to_Z d) 0); [done|].
  pose proof (bit_len_bound 256 (magnitude d)) as Hb.
  unfold in_u256, u256_max in Hm. unfold sat_mul64, sat_add64, u64_max. lia.
Qed.

(** A larger move has at least the activity of a smaller one. *)
Lemma activity_mono a b :
  wf a -> wf b -> Z.abs (to_Z a) <= Z.abs (to_Z b) -> activity a <= activity b.
Proof.
  intros Ha Hb Hab. unfold activity. rewrite !is_zero_to_Z by done.
  destruct Ha as [Ha _], Hb as [Hb _]. unfold in_u256 in *.
  pose proof (bit_len_mono (magnitude a) (magnitude b)) as Hm.
  pose proof (bit_len_bound 256 (magnitude b)) as Hbb.
  assert (magnitude a <= magnitude b) by (unfold to_Z in Hab; repeat case_match; lia).
  unfold u256_max in *. unfold sat_mul64, sat_add64, u64_max.
  destruct (Z.eqb_spec (to_Z a) 0), (Z.eqb_spec (to_Z b) 0); lia.
Qed.

(** ** Properties *)

(** the delta between two values is their exact signed difference, with no
    wrap at either end of [uint256], never a negative zero, antisymmetric, and
    ordered by [Ord] as the signed integers are. *)
Theorem delta_is_signed_difference a b c d :
  in_u256 (get a) -> in_u256 (get b) -> in_u256 (get c) -> in_u256 (get d) ->
  to_Z (between a b) = get b - get a /\
  wf (between a b) /\
  to_Z (between b a) = - to_Z (between a b) /\
  cmp (between a b) (between c d) = Z.compare (get b - get a) (get d - get c).
Proof.
  intros Ha Hb Hc Hd. rewrite cmp_to_Z, !between_to_Z by auto with rip.
  split; [done|]. split; [by apply between_wf|]. split; [lia|done].
Qed.

(** the sampling weight of a delta is zero exactly for an unchanged value,
    at most 2056 (no saturation is reached), and grows with the magnitude. *)
Theorem delta_activity_bounds a b :
  wf a -> wf b ->
  (activity a = 0 <-> to_Z a = 0) /\ 0 <= activity a <= 2056 /\
  (Z.abs (to_Z a) <= Z.abs (to_Z b) -> activity a <= activity b).
Proof.
  intros Ha Hb. split; [by apply activity_zero|]. split; [by apply activity_le|].
  by apply activity_mono.
Qed.

(** ** Witnesses *)
Lemma delta_is_signed_difference_witness :
  to_Z (between (Value.new 5008) (Value.new 923)) = -4085 /\
  cmp (between (Value.new 5008) (Value.new 923)) (between (Value.new 0) (Value.new u256_max)) = Lt.
Proof.
  destruct (delta_is_signed_difference (Value.new 5008) (Value.new 923) (Value.new 0)
    (Value.new u256_max)) as (H & _ & _ & Hc); [unfold in_u256, u256_max; simpl; lia..|].
  split; [exact H|exact Hc].
Defined.

Lemma delta_activity_bounds_witness :
  activity (new true u256_max) <= 2056 /\ activity (new true 1) <= activity (new false 3).
Proof.
  assert (H1 : wf (new true u256_max)) by (apply new_wf; unfold in_u256, u256_max; lia).
  assert (H2 : wf (new true 1)) by (apply new_wf; unfold in_u256, u256_max; lia).
  assert (H3 : wf (new false 3)) by (apply new_wf; unfold in_u256, u256_max; lia).
  split.
  - exact (proj2 (proj1 (proj2 (delta_activity_bounds _ _ H1 H1)))).
  - apply (proj2 (proj2 (delta_activity_bounds _ _ H2 H3))). vm_compute. discriminate.
Defined.
