(* ===== verification/Call.v ===== *)
(** * Call: single harness calls of the maximizer

    Models [maxer/call.rs]: a call pairs a handler function with arguments
    drawn for its ABI types and encodes to calldata. *)
From S2P Require Import Prelude.
From S2P Require Import Env.
From S2P Require Import Transaction.

Definition MAX_BYTES_LEN : Z := 32.
Definition MAX_STRING_LEN : Z := 16.
Definition MAX_ARRAY_LEN : Z := 4.
Definition BOUNDARY_PROBABILITY : Z := 8.
Definition BOUNDARY_COUNT : Z := 6.

Record Call : Type := new { function : Function; args : DynSolValue }.

Section Random.
Context {R : Type} `{FastRand R}.

(** [(U256::from(1) << bits) - 1]: the shift drops bits beyond 256 and the
    subtraction wraps. *)
Definition uint_mask (bits : Z) : U256 :=
  wrap 256 (wrap 256 (Z.shiftl 1 bits) - 1).

Definition boundary_uint (bits : Z) : M R U256 :=
  let max := if 256 <=? bits then u256_max else uint_mask bits in
  let candidates := [0; 1; 2; max; Z.shiftr max 1; 10000000000000000000] in
  i ← draw_below BOUNDARY_COUNT;
  c ← lift (vec_index candidates (Z.to_nat i));
  mret (Z.land c max).

Definition random_uint (bits : Z) : M R U256 :=
  roll ← draw_below BOUNDARY_PROBABILITY;
  if roll =? 0 then boundary_uint bits
  else
    lo ← draw 0 (2 ^ 128 - 1);
    hi ← draw 0 (2 ^ 128 - 1);
    let value := Z.lor (wrap 256 (Z.shiftl hi 128)) lo in
    if 256 <=? bits then mret value else mret (Z.land value (uint_mask bits)).

(** A [FixedBytes] size above 32 is out of range of the word's slice. *)
Fixpoint random_value (ty : DynSolType) : M R DynSolValue :=
  match ty with
  | TBool => b ← draw_bool; mret (VBool b)
  | TInt bits => u ← random_uint 256; mret (VInt (I256_from_raw u) bits)
  | TUint bits => u ← random_uint bits; mret (VUint u bits)
  | TFixedBytes size =>
      if (32 <? size)%nat then lift (Panic "range end index out of range")
      else bs ← draw_fill size; mret (VFixedBytes (bs ++ repeat 0 (32 - size)) size)
  | TAddress => bs ← draw_fill 20; mret (VAddress (foldl (fun acc b => acc * 256 + b) 0 bs))
  | TFunction => lift (Err "random arguments for `function` parameters are not supported")
  | TBytes =>
      len ← draw 0 MAX_BYTES_LEN; bs ← draw_fill (Z.to_nat len); mret (VBytes bs)
  | TString =>
      len ← draw 0 MAX_STRING_LEN;
      cs ← repeatM (Z.to_nat len) draw_alphanumeric;
      mret (VString (String.string_of_list_ascii cs))
  | TArray ty' =>
      len ← draw 0 MAX_ARRAY_LEN;
      vs ← repeatM (Z.to_nat len) (random_value ty'); mret (VArray vs)
  | TFixedArray ty' len => vs ← repeatM len (random_value ty'); mret (VFixedArray vs)
  | TTuple tys => vs ← mapMM random_value tys; mret (VTuple vs)
  end.

(** [random_values(rng, ty, len)] *)
Definition random_values (ty : DynSolType) (len : nat) : M R (list DynSolValue) :=
  repeatM len (random_value ty).

Context `{Abi}.

Definition random (f : Function) : M R Call :=
  inputs ← mapMM (fun input =>
    ty ← lift (with_context "failed to resolve type" (resolve input));
    random_value ty) (fn_inputs f);
  mret (new f (VTuple inputs)).
End Random.

Section Encoding.
Context `{Abi}.

Definition call_signature (c : Call) : string := signature (function c).
Definition call_selector (c : Call) : Selector := selector (function c).

Definition call_calldata (c : Call) : Bytes :=
  selector (function c) ++ abi_encode_params (args c).

Definition transaction (c : Call) (tgt clr : Address) : Transaction :=
  with_calldata (with_caller (Transaction_new tgt) clr) (call_calldata c).

Lemma call_calldata_selector `{!AbiLaws} c : take 4 (call_calldata c) = call_selector c.
Proof. unfold call_calldata. rewrite <- (selector_len (function c)). apply take_app_length. Qed.
End Encoding.

(** ** Types of generated values

    [typed ty v] holds when [v] has the shape of [ty]; [in_range v] adds that
    every number fits its declared width, which the ABI encoder needs for the
    contract to receive the value the fuzzer recorded. *)
Fixpoint typed (ty : DynSolType) (v : DynSolValue) {struct ty} : Prop :=
  match ty, v with
  | TBool, VBool _ => True
  | TInt bits, VInt i bits' => bits' = bits /\ - 2 ^ 255 <= i < 2 ^ 255
  | TUint bits, VUint u bits' => bits' = bits /\ in_u256 u /\ u < 2 ^ bits
  | TFixedBytes n, VFixedBytes w n' =>
      n' = n /\ length w = 32%nat /\ Forall byte_ok w /\ Forall (eq 0) (drop n w)
  | TAddress, VAddress a => 0 <= a <= address_max
  | TBytes, VBytes bs => Forall byte_ok bs /\ Z.of_nat (length bs) <= MAX_BYTES_LEN
  | TString, VString s => Z.of_nat (String.length s) <= MAX_STRING_LEN
  | TArray ty', VArray vs =>
      Z.of_nat (length vs) <= MAX_ARRAY_LEN /\ Forall (typed ty') vs
  | TFixedArray ty' n, VFixedArray vs => length vs = n /\ Forall (typed ty') vs
  | TTuple tys, VTuple vs =>
      (fix go tys vs := match tys, vs with
       | [], [] => True
       | t :: tys', v :: vs' => typed t v /\ go tys' vs'
       | _, _ => False
       end) tys vs
  | _, _ => False
  end.

(** The types a Solidity ABI can hold: integer widths are 8 to 256. *)
Fixpoint wf_type (ty : DynSolType) : Prop :=
  match ty with
  | TInt bits | TUint bits => 8 <= bits <= 256
  | TFixedBytes n => (1 <= n <= 32)%nat
  | TArray ty' | TFixedArray ty' _ => wf_type ty'
  | TTuple tys => (fix go tys := match tys with [] => True | t :: tys' => wf_type t /\ go tys' end) tys
  | _ => True
  end.

Lemma DynSolType_ind' (P : DynSolType -> Prop) :
  P TBool -> (forall b, P (TInt b)) -> (forall b, P (TUint b)) -> (forall n, P (TFixedBytes n)) ->
  P TAddress -> P TFunction -> P TBytes -> P TString ->
  (forall t, P t -> P (TArray t)) -> (forall t n, P t -> P (TFixedArray t n)) ->
  (forall ts, Forall P ts -> P (TTuple ts)) ->
  forall t, P t.
Proof.
  intros Hb Hi Hu Hf Ha Hfn Hby Hs Harr Hfa Htup. fix IH 1.
  intros [|b|b|n| | | | |t|t n|ts];
    [exact Hb|exact (Hi b)|exact (Hu b)|exact (Hf n)|exact Ha|exact Hfn|exact Hby|exact Hs
    |exact (Harr t (IH t))|exact (Hfa t n (IH t))|].
  apply Htup. induction ts as [|t ts IHts]; constructor; [exact (IH t)|exact IHts].
Qed.

Lemma typed_tuple ts vs : typed (TTuple ts) (VTuple vs) <-> Forall2 typed ts vs.
Proof.
  simpl. revert vs. induction ts as [|t ts IH]; intros [|v vs]; split; try done.
  - intros H. inversion H.
  - intros H. inversion H.
  - intros [??]. constructor; [done|]. by apply IH.
  - intros H. inversion H; subst. split; [done|]. by apply IH.
Qed.

Lemma wf_type_tuple ts : wf_type (TTuple ts) <-> Forall wf_type ts.
Proof.
  simpl. induction ts as [|t ts IH]; split; try done.
  - intros [??]. constructor; [done|]. by apply IH.
  - intros H. inversion H; subst. split; [done|]. by apply IH.
Qed.

(** Types the generator supports: every type without a [function] in it. *)
Fixpoint no_function (ty : DynSolType) : Prop :=
  match ty with
  | TFunction => False
  | TArray ty' | TFixedArray ty' _ => no_function ty'
  | TTuple tys =>
      (fix go tys := match tys with [] => True | t :: tys' => no_function t /\ go tys' end) tys
  | _ => True
  end.

Lemma no_function_tuple ts : no_function (TTuple ts) <-> Forall no_function ts.
Proof.
  simpl. induction ts as [|t ts IH]; split; try done.
  - intros [??]. constructor; [done|]. by apply IH.
  - intros H. inversion H; subst. split; [done|]. by apply IH.
Qed.

Section Range.
Context {R : Type} `{FastRandLaws R}.

Lemma uint_mask_eq bits : 0 <= bits < 256 -> uint_mask bits = Z.ones bits.
Proof.
  intros Hb. unfold uint_mask. rewrite Z.shiftl_1_l, Z.ones_equiv.
  assert (2 ^ bits < 2 ^ 256) by (apply Z.pow_lt_mono_r; lia).
  assert (0 < 2 ^ bits) by (apply Z.pow_pos_nonneg; lia).
  rewrite (wrap_small 256 (2 ^ bits)) by lia. rewrite wrap_small; lia.
Qed.

Lemma land_mask_range bits z : 0 <= bits < 256 -> 0 <= Z.land z (uint_mask bits) < 2 ^ bits.
Proof.
  intros Hb. rewrite uint_mask_eq, Z.land_ones by lia. apply Z.mod_pos_bound.
  apply Z.pow_pos_nonneg; lia.
Qed.

Lemma land_u256_max_range z : 0 <= Z.land z u256_max < 2 ^ 256.
Proof.
  replace u256_max with (Z.ones 256) by reflexivity. rewrite Z.land_ones by lia.
  apply Z.mod_pos_bound. lia.
Qed.

Lemma boundary_uint_Ok bits r u r' :
  0 <= bits <= 256 -> boundary_uint bits r = (Ok u, r') -> 0 <= u < 2 ^ bits.
Proof.
  intros Hb Hr. unfold boundary_uint in Hr. inv_ok.
  destruct (Z.leb_spec 256 bits).
  - replace bits with 256 by lia. apply land_u256_max_range.
  - apply land_mask_range. lia.
Qed.

Lemma lor_u128_range lo hi :
  0 <= lo < 2 ^ 128 -> 0 <= hi < 2 ^ 128 ->
  0 <= Z.lor (wrap 256 (Z.shiftl hi 128)) lo < 2 ^ 256.
Proof.
  intros Hlo Hhi. rewrite Z.shiftl_mul_pow2, wrap_small by lia.
  assert (0 <= Z.lor (hi * 2 ^ 128) lo) by (apply Z.lor_nonneg; lia). split; [done|].
  destruct (Z.eq_dec (Z.lor (hi * 2 ^ 128) lo) 0) as [->|]; [lia|].
  apply Z.log2_lt_pow2; [lia|]. rewrite Z.log2_lor by lia.
  apply Z.max_lub_lt.
  - destruct (Z.eq_dec hi 0) as [->|]; [by vm_compute|]. apply Z.log2_lt_pow2; lia.
  - destruct (Z.eq_dec lo 0) as [->|]; [by vm_compute|].
    apply Z.log2_lt_pow2; [lia|]. apply Z.lt_trans with (2 ^ 128); [lia|].
    apply Z.pow_lt_mono_r; lia.
Qed.

Lemma random_uint_Ok bits r u r' :
  0 <= bits <= 256 -> random_uint bits r = (Ok u, r') -> 0 <= u < 2 ^ bits.
Proof.
  intros Hb Hr. unfold random_uint in Hr. inv_ok. case_match; [by eapply boundary_uint_Ok|].
  inv_ok. repeat match goal with H : draw _ _ _ = _ |- _ => apply draw_Ok in H end.
  destruct (Z.leb_spec 256 bits); inv_ok.
  - replace bits with 256 by lia. apply lor_u128_range; lia.
  - apply land_mask_range. lia.
Qed.

Lemma address_of_bytes_range bs :
  Forall byte_ok bs ->
  0 <= foldl (fun acc b => acc * 256 + b) 0 bs < 256 ^ Z.of_nat (length bs).
Proof.
  induction bs as [|b bs IH] using rev_ind; [simpl; lia|].
  intros [Hbs [Hb _]%Forall_cons]%Forall_app. specialize (IH Hbs). unfold byte_ok in Hb.
  rewrite foldl_snoc, length_app, Nat2Z.inj_add, Z.pow_add_r by lia. simpl (length [b]).
  change (256 ^ Z.of_nat 1) with 256. nia.
Qed.

Lemma I256_from_raw_range u : 0 <= u < 2 ^ 256 -> - 2 ^ 255 <= I256_from_raw u < 2 ^ 255.
Proof. unfold I256_from_raw. intros. destruct (Z.ltb_spec u (2 ^ 255)); lia. Qed.

Ltac draw_facts :=
  repeat match goal with
  | H : draw _ _ _ = (Ok _, _) |- _ => apply draw_Ok in H
  | H : draw_fill _ _ = (Ok _, _) |- _ => apply draw_fill_Ok in H as [? ?]
  end.

Lemma string_of_list_ascii_length cs :
  String.length (String.string_of_list_ascii cs) = length cs.
Proof. induction cs; simpl; congruence. Qed.

Lemma fixed_bytes_typed size bs :
  (size <= 32)%nat -> length bs = size -> Forall byte_ok bs ->
  typed (TFixedBytes size) (VFixedBytes (bs ++ repeat 0 (32 - size)) size).
Proof.
  intros Hs Hl Hb. simpl. split; [done|]. rewrite length_app, repeat_length, Hl.
  split; [lia|]. split.
  - apply Forall_app. split; [done|]. apply Forall_forall. intros b Hin.
    apply list_elem_of_In, repeat_spec in Hin as ->. unfold byte_ok. lia.
  - subst size. rewrite drop_app_length. apply Forall_forall. intros b Hin.
    by apply list_elem_of_In, repeat_spec in Hin as ->.
Qed.

Lemma random_value_typed_aux ty : forall r v r',
  wf_type ty -> random_value ty r = (Ok v, r') -> typed ty v.
Proof.
  induction ty using DynSolType_ind'; intros r v r' Hwf Hr; cbn [random_value] in Hr;
    try (inv_ok; draw_facts; done).
  - inv_ok. match goal with H : random_uint _ _ = _ |- _ => apply random_uint_Ok in H; [|lia] end.
    split; [done|]. by apply I256_from_raw_range.
  - inv_ok. simpl in Hwf.
    match goal with H : random_uint _ _ = _ |- _ => apply random_uint_Ok in H; [|lia] end.
    assert (2 ^ b <= 2 ^ 256) by (apply Z.pow_le_mono_r; lia).
    simpl. unfold in_u256, u256_max. lia.
  - destruct (Nat.ltb_spec 32 n); [done|]. inv_ok. draw_facts. by apply fixed_bytes_typed.
  - inv_ok. draw_facts.
    match goal with H : Forall byte_ok _ |- _ => apply address_of_bytes_range in H end.
    simpl. unfold address_max. replace (2 ^ 160) with (256 ^ Z.of_nat 20) by reflexivity.
    match goal with H : length _ = _ |- _ => rewrite H in * end. lia.
  - inv_ok. draw_facts. simpl. unfold MAX_BYTES_LEN in *. split; [done|]. lia.
  - inv_ok. draw_facts.
    match goal with H : repeatM _ _ _ = _ |- _ =>
      apply (repeatM_Ok (fun _ => True)) in H as [? _]; [|done] end.
    simpl. rewrite string_of_list_ascii_length. unfold MAX_STRING_LEN in *. lia.
  - inv_ok. draw_facts.
    match goal with H : repeatM _ _ _ = _ |- _ =>
      apply (repeatM_Ok (typed ty)) in H as [? ?]; [|by intros; eapply IHty] end.
    simpl. unfold MAX_ARRAY_LEN in *. split; [lia|done].
  - inv_ok.
    match goal with H : repeatM _ _ _ = _ |- _ =>
      apply (repeatM_Ok (typed ty)) in H as [? ?]; [|by intros; eapply IHty] end.
    done.
  - inv_ok. apply typed_tuple. apply wf_type_tuple in Hwf.
    match goal with H : mapMM _ _ _ = _ |- _ => eapply mapMM_Ok; [|exact H] end.
    intros t s y s' Ht Hy. rewrite Forall_forall in *. eauto.
Qed.

(** Every step of a run returns: no error, no panic. *)
Lemma repeatM_total {A} (m : M R A) n :
  (forall r, exists a r', m r = (Ok a, r')) -> forall r, exists l r', repeatM n m r = (Ok l, r').
Proof.
  intros Hm. induction n as [|n IH]; intros r; simpl; [by eexists _, _|].
  destruct (Hm r) as (a & r1 & Ha), (IH r1) as (l & r2 & Hl).
  exists (a :: l), r2. unfold mbind, M_bind. by rewrite Ha, Hl.
Qed.

Lemma mapMM_total {A B} (f : A -> M R B) l :
  (forall x, x ∈ l -> forall r, exists y r', f x r = (Ok y, r')) ->
  forall r, exists ys r', mapMM f l r = (Ok ys, r').
Proof.
  induction l as [|x l IH]; intros Hf r; simpl; [by eexists _, _|].
  destruct (Hf x ltac:(set_solver) r) as (y & r1 & Hy).
  destruct (IH ltac:(set_solver) r1) as (ys & r2 & Hys).
  exists (y :: ys), r2. unfold mbind, M_bind. by rewrite Hy, Hys.
Qed.

Lemma random_uint_total bits r : exists u r', random_uint bits r = (Ok u, r').
Proof.
  unfold random_uint, draw_below, BOUNDARY_PROBABILITY.
  destruct (draw_total 0 (8 - 1) r) as (roll & r1 & Hroll); [lia|].
  unfold mbind, M_bind at 1. rewrite Hroll. case_match.
  - unfold boundary_uint, draw_below, BOUNDARY_COUNT.
    destruct (draw_total 0 (6 - 1) r1) as (i & r2 & Hi); [lia|].
    unfold mbind, M_bind. rewrite Hi. apply draw_Ok in Hi. unfold lift, vec_index.
    destruct (lookup_lt_is_Some_2
      [0; 1; 2; if 256 <=? bits then u256_max else uint_mask bits;
       Z.shiftr (if 256 <=? bits then u256_max else uint_mask bits) 1;
       10000000000000000000] (Z.to_nat i)) as [c Hc]; [simpl; lia|].
    rewrite Hc. by eexists _, _.
  - destruct (draw_total 0 (2 ^ 128 - 1) r1) as (lo & r2 & Hlo); [lia|].
    destruct (draw_total 0 (2 ^ 128 - 1) r2) as (hi & r3 & Hhi); [lia|].
    unfold mbind, M_bind. rewrite Hlo, Hhi. case_match; by eexists _, _.
Qed.

Lemma random_value_total_aux ty : forall r,
  wf_type ty -> no_function ty -> exists v r', random_value ty r = (Ok v, r').
Proof.
  induction ty using DynSolType_ind'; intros r Hwf Hnf; cbn [random_value]; try done.
  - unfold draw_bool, mbind, M_bind. destruct (rng_bool r). by eexists _, _.
  - destruct (random_uint_total 256 r) as (u & r1 & Hu). unfold mbind, M_bind.
    rewrite Hu. by eexists _, _.
  - destruct (random_uint_total b r) as (u & r1 & Hu). unfold mbind, M_bind.
    rewrite Hu. by eexists _, _.
  - simpl in Hwf. destruct (Nat.ltb_spec 32 n); [lia|].
    unfold draw_fill, mbind, M_bind. destruct (rng_fill n r). by eexists _, _.
  - unfold draw_fill, mbind, M_bind. destruct (rng_fill 20 r). by eexists _, _.
  - destruct (draw_total 0 MAX_BYTES_LEN r) as (len & r1 & Hlen); [unfold MAX_BYTES_LEN; lia|].
    unfold draw_fill, mbind, M_bind. rewrite Hlen. destruct (rng_fill _ r1). by eexists _, _.
  - destruct (draw_total 0 MAX_STRING_LEN r) as (len & r1 & Hlen); [unfold MAX_STRING_LEN; lia|].
    destruct (repeatM_total draw_alphanumeric (Z.to_nat len)) with (r := r1) as (cs & r2 & Hcs).
    { intros r0. unfold draw_alphanumeric. destruct (rng_alphanumeric r0). eauto. }
    unfold mbind, M_bind. rewrite Hlen, Hcs. by eexists _, _.
  - destruct (draw_total 0 MAX_ARRAY_LEN r) as (len & r1 & Hlen); [unfold MAX_ARRAY_LEN; lia|].
    destruct (repeatM_total (random_value ty) (Z.to_nat len)) with (r := r1) as (vs & r2 & Hvs).
    { intros r0. by apply IHty. }
    unfold mbind, M_bind. rewrite Hlen, Hvs. by eexists _, _.
  - destruct (repeatM_total (random_value ty) n) with (r := r) as (vs & r2 & Hvs).
    { intros r0. by apply IHty. }
    unfold mbind, M_bind. rewrite Hvs. by eexists _, _.
  - apply wf_type_tuple in Hwf. apply no_function_tuple in Hnf.
    rewrite Forall_forall in *.
    destruct (mapMM_total random_value ts) with (r := r) as (vs & r2 & Hvs); [auto|].
    unfold mbind, M_bind. rewrite Hvs. by eexists _, _.
Qed.
End Range.

(** ** Calls of a function *)
Section Calls.
Context {R : Type} `{FastRandLaws R} `{Abi}.

(** The parameter resolves to a Solidity type. *)
Definition resolves_wf (p : Param) : Prop := exists ty, resolve p = Ok ty /\ wf_type ty.

(** The parameter resolves to a type the generator supports. *)
Definition supported (p : Param) : Prop :=
  exists ty, resolve p = Ok ty /\ wf_type ty /\ no_function ty.

Definition arg_ok (p : Param) (v : DynSolValue) : Prop :=
  exists ty, resolve p = Ok ty /\ typed ty v.

Lemma random_call_Ok f r c r' :
  Forall resolves_wf (fn_inputs f) -> random f r = (Ok c, r') ->
  function c = f /\ exists vs, args c = VTuple vs /\ Forall2 arg_ok (fn_inputs f) vs.
Proof.
  intros Hwf Hr. unfold random in Hr. inv_ok. split; [done|]. eexists. split; [done|].
  eapply mapMM_Ok; [|eassumption]. intros p s v s' Hp Hv. cbv beta in Hv.
  rewrite Forall_forall in Hwf. destruct (Hwf p Hp) as (ty & Hty & Hw).
  rewrite Hty in Hv. simpl in Hv. exists ty. split; [done|].
  unfold lift, mbind, M_bind in Hv. by eapply random_value_typed_aux.
Qed.

Lemma random_total_aux f r :
  Forall supported (fn_inputs f) -> exists c r', random f r = (Ok c, r').
Proof.
  intros Hs. unfold random.
  destruct (mapMM_total (fun input =>
    ty ← lift (with_context "failed to resolve type" (resolve input)); random_value ty)
    (fn_inputs f)) with (r := r) as (vs & r1 & Hvs).
  { intros p Hp r0. rewrite Forall_forall in Hs. destruct (Hs p Hp) as (ty & Hty & Hw & Hn).
    rewrite Hty. unfold lift, mbind, M_bind. simpl. by apply random_value_total_aux. }
  rewrite (M_bind_run _ _ _ _ _ Hvs). by eexists _, _.
Qed.
End Calls.

(** ** Properties *)
Section Properties.
Context {R : Type} `{FastRandLaws R} `{Abi}.

(** a random call of a function whose parameters resolve to supported
    Solidity types is always produced (no error, no panic), calls that
    function, and gives every parameter a value of its type: unsigned integers
    fit their width, fixed bytes are zero beyond their size, dynamic values
    respect their length limits. *)
Theorem random_call_typed f r :
  Forall supported (fn_inputs f) ->
  exists c r', random f r = (Ok c, r') /\ function c = f /\
    exists vs, args c = VTuple vs /\ Forall2 arg_ok (fn_inputs f) vs.
Proof.
  intros Hs. destruct (random_total_aux f r Hs) as (c & r' & Hc). exists c, r'.
  split; [done|]. eapply random_call_Ok; [|exact Hc].
  eapply Forall_impl; [exact Hs|]. intros p (ty & ? & ? & _). by exists ty.
Qed.
End Properties.

(** ** Witnesses *)
Import Toy.

Definition deposit : Function :=
  mkFunction "deposit" [mkParam "amount" "uint256" []] [] NonPayable.

Lemma random_call_typed_witness :
  exists c r', random deposit 8 = (Ok c, r') /\ function c = deposit.
Proof.
  destruct (random_call_typed deposit 8) as (c & r' & H & Hf & _).
  - repeat constructor. exists (TUint 256). split; [reflexivity|]. simpl. lia.
  - exists c, r'. split; [exact H|exact Hf].
Defined.

(** the width of a signed parameter is ignored: the generator draws a full
    256-bit word for every [intN], so an [int8] argument can lie outside
    [-128, 127]. *)
Theorem random_int_ignores_width :
  exists r i r', random_value (TInt 8) r = (Ok (VInt i 8), r') /\ ~ (- 2 ^ 7 <= i < 2 ^ 7).
Proof. exists 1000. eexists _, _. split; [vm_compute; reflexivity|]. lia. Qed.
