(* ===== verification/Sequence.v ===== *)
(** * Sequence: the fuzzed unit of the maximizer

    Models [maxer/sequence.rs]. *)
From S2P Require Import Prelude.
From S2P Require Import Env.
From S2P Require Import Transaction.
From S2P Require Import Call.

Record Sequence : Type := new { calls : list Call.Call }.

Definition empty : Sequence := new [].

Section Generation.
Context {R : Type} `{FastRand R} `{Abi}.

Definition random (handlers : list Function) (max_calls : Z) : M R Sequence :=
  _ ← lift (ensure (negb (bool_decide (handlers = [])))
      "no handler functions to generate calls from");
  len ← draw 1 (Z.max max_calls 1);
  cs ← repeatM (Z.to_nat len) (f ← draw_item handlers; Call.random f);
  mret (new cs).
End Generation.

Definition len (s : Sequence) : nat := length (calls s).
Definition is_empty (s : Sequence) : bool := bool_decide (len s = 0%nat).

Definition transactions `{Abi} (s : Sequence) (tgt clr : Address) : list Transaction :=
  map (fun c => Call.transaction c tgt clr) (calls s).

(** [without(range)]: [Vec::drain] panics on a range that is not inside. *)
Definition without (s : Sequence) (a b : nat) : Res Sequence :=
  cs ← vec_drain (calls s) a b; mret (new cs).

Definition prefix (s : Sequence) (n : nat) : Sequence :=
  new (take (Nat.min n (len s)) (calls s)).

(** [Display] *)
Definition display `{Abi} (s : Sequence) : string :=
  String.concat ", " (map Call.call_signature (calls s)).

Lemma prefix_len s n : len (prefix s n) = Nat.min n (len s).
Proof. unfold len, prefix. simpl. rewrite length_take. unfold len. lia. Qed.

Lemma prefix_prefix_of s n : calls (prefix s n) `prefix_of` calls s.
Proof. unfold prefix. simpl. exists (drop (Nat.min n (len s)) (calls s)). by rewrite take_drop. Qed.

Lemma prefix_all s n : (len s <= n)%nat -> prefix s n = s.
Proof.
  intros Hn. unfold prefix. rewrite Nat.min_r by done. unfold len.
  rewrite firstn_all. by destruct s.
Qed.

Lemma without_Ok s a b s' :
  without s a b = Ok s' ->
  (a <= b <= len s)%nat /\ len s' = (len s - (b - a))%nat /\ calls s' `sublist_of` calls s.
Proof.
  unfold without. intros H. inv_ok. apply vec_drain_Ok in H as [Hab ->].
  split; [done|]. unfold len in *. simpl. rewrite length_app, length_take, length_drop.
  split; [lia|]. rewrite <- (take_drop a (calls s)) at 3. apply sublist_app; [done|].
  replace b with (a + (b - a))%nat by lia. rewrite <- drop_drop. apply sublist_drop.
Qed.

Lemma without_total s a b :
  (a <= b <= len s)%nat -> exists s', without s a b = Ok s'.
Proof. intros Hab. unfold without, vec_drain. rewrite bool_decide_true by done. by eexists. Qed.

Lemma transactions_length `{Abi} s t c : length (transactions s t c) = len s.
Proof. apply length_map. Qed.

Lemma is_empty_spec s : is_empty s = true <-> s = empty.
Proof.
  unfold is_empty, len. rewrite bool_decide_eq_true. destruct s as [[]]; naive_solver.
Qed.

Section Laws.
Context {R : Type} `{FastRandLaws R} `{Abi}.

(** A drawn sequence is not empty, respects the call limit and calls handlers
    only. *)
Lemma random_sequence_Ok handlers max_calls r s r' :
  random handlers max_calls r = (Ok s, r') ->
  1 <= Z.of_nat (len s) <= Z.max max_calls 1 /\
  Forall (fun c => Call.function c ∈ handlers) (calls s).
Proof.
  unfold random. intros Hr. inv_ok.
  match goal with H : draw _ _ _ = _ |- _ => apply draw_Ok in H end.
  match goal with H : repeatM _ _ _ = _ |- _ =>
    eapply (repeatM_Ok (fun c => Call.function c ∈ handlers)) in H as [Hl HF] end.
  - unfold len. simpl. split; [lia|done].
  - intros s0 c s1 Hc. inv_ok.
    match goal with H : draw_item _ _ = _ |- _ => apply draw_item_Ok in H end.
    match goal with H : Call.random _ _ = _ |- _ => unfold Call.random in H end.
    inv_ok. done.
Qed.
End Laws.
