(* ===== verification/Best.v ===== *)
(** * Best: the best sequence found by the maximizer

    Models [maxer/best.rs]. The state after the sequence is carried as a value
    of the chain type, which the component never looks into. *)
From S2P Require Import Prelude.
From S2P Require Import Value.
From S2P Require Import Sequence.

Section Best.
Context {Chain : Type}.

Record Best : Type := mkBest {
  value : Value;
  sequence : Sequence;
  chain : option Chain;
}.

Definition new (s : Sequence) (v : Value) : Best := mkBest v s None.
Definition with_chain (s : Sequence) (v : Value) (c : Chain) : Best := mkBest v s (Some c).

Definition consider (b : Best) (s : Sequence) (v : Value) (c : Chain) : bool * Best :=
  let shorter := bool_decide (v = value b) && negb (Sequence.is_empty (sequence b))
                 && (Sequence.len s <? Sequence.len (sequence b))%nat in
  if value_ltb (value b) v || shorter then (true, mkBest v s (Some c))
  else (false, b).

(** The order [consider] climbs: a higher value, or the same value with fewer
    calls once the seed was improved. *)
Definition better (b' b : Best) : Prop :=
  get (value b) < get (value b') \/
  (value b = value b' /\ (0 < Sequence.len (sequence b))%nat /\
   (Sequence.len (sequence b') < Sequence.len (sequence b))%nat).

Lemma consider_spec b s v c :
  let b' := mkBest v s (Some c) in
  (better b' b /\ consider b s v c = (true, b')) \/
  (~ better b' b /\ consider b s v c = (false, b)).
Proof.
  unfold consider, better, value_ltb, Sequence.is_empty. simpl.
  destruct (Z.ltb_spec (get (value b)) (get v)); [left; auto|]. simpl.
  case_bool_decide as Hv; simpl; [|right; split; [|done]; naive_solver lia].
  case_bool_decide as Hs; simpl; [right; split; [|done]; lia|].
  destruct (Nat.ltb_spec (Sequence.len s) (Sequence.len (sequence b))).
  - left. split; [|done]. right. split; [done|]. lia.
  - right. split; [|done]. lia.
Qed.

(** A run of considered candidates. *)
Definition consider_all (b : Best) (l : list (Sequence * Value * Chain)) : Best :=
  foldl (fun b '(s, v, c) => (consider b s v c).2) b l.

Lemma consider_value_mono b s v c : get (value b) <= get (value (consider b s v c).2).
Proof.
  destruct (consider_spec b s v c) as [[Hb ->]|[_ ->]]; simpl; [|lia].
  unfold better in Hb. simpl in Hb. naive_solver lia.
Qed.

Lemma consider_value_ge b s v c : get v <= get (value (consider b s v c).2).
Proof.
  destruct (consider_spec b s v c) as [[_ ->]|[Hn ->]]; simpl; [lia|].
  unfold better in Hn. simpl in Hn. destruct (Z.lt_ge_cases (get (value b)) (get v)); [|lia].
  exfalso. apply Hn. by left.
Qed.

Lemma consider_all_mono b l : get (value b) <= get (value (consider_all b l)).
Proof.
  unfold consider_all. revert b. induction l as [|[[s v] c] l IH]; intros b; simpl; [lia|].
  pose proof (consider_value_mono b s v c). specialize (IH (consider b s v c).2). lia.
Qed.
End Best.
Arguments Best : clear implicits.

(** ** Properties *)
Section Properties.
Context {Chain : Type}.

(** [consider] replaces the best exactly when the candidate is better (a
    higher value, or the same value with fewer calls once the seed has been
    improved); over any run of candidates the value never drops, ends at least
    as high as every candidate, and no tie ever displaces the empty seed. *)
Theorem best_never_drops (b : Best Chain) l :
  get (value b) <= get (value (consider_all b l)) /\
  (forall s v c, (s, v, c) ∈ l -> get v <= get (value (consider_all b l))) /\
  (Forall (fun x => get x.1.2 <= get (value b)) l -> Sequence.len (sequence b) = 0%nat ->
     consider_all b l = b) /\
  (forall s v c, let b' := mkBest v s (Some c) in
     (better b' b /\ consider b s v c = (true, b')) \/
     (~ better b' b /\ consider b s v c = (false, b))).
Proof.
  split; [apply consider_all_mono|]. split; [|split; [|intros; apply consider_spec]].
  - unfold consider_all. revert b. induction l as [|[[s0 v0] c0] l IH]; intros b s v c Hin; [set_solver|].
    simpl. apply elem_of_cons in Hin as [[= -> -> ->]|Hin]; [|by eapply IH].
    pose proof (consider_value_ge b s0 v0 c0) as Hg.
    pose proof (consider_all_mono (consider b s0 v0 c0).2 l) as Hm. unfold consider_all in Hm. lia.
  - unfold consider_all. induction l as [|[[s0 v0] c0] l IH]; intros HF Hlen; [done|].
    apply Forall_cons in HF as [Hv HF]. simpl in Hv |- *.
    destruct (consider_spec b s0 v0 c0) as [[Hb _]|[_ ->]]; [|by apply IH].
    unfold better in Hb. simpl in Hb. destruct Hb as [|(_ & ? & _)]; lia.
Qed.
End Properties.
