(* ===== verification/Records.v ===== *)
(** * Records: extreme value changes per class of calls

    Models [maxer/records.rs]. The map is behind a mutex, so an observation is
    one atomic step on it. *)
From S2P Require Import Prelude.
From S2P Require Import Env.
From S2P Require Import Transaction.
From S2P Require Import Value.
From S2P Require Import Delta.
From S2P Require Import Call.
From S2P Require Import Sequence.

Record Observation : Type := mkObservation {
  new_record_min : bool;
  new_record_max : bool;
  recovery : bool;
}.

Definition observation_default : Observation := mkObservation false false false.

Definition observation_interesting (o : Observation) : bool :=
  new_record_min o || new_record_max o || recovery o.

(** [Class]: the selectors of the prefix and the handler's selector. *)
Definition RecordClass : Type := list Selector * Selector.

Record ClassRecord : Type := mkClassRecord { rec_min : Delta; rec_max : Delta }.

Section Records.
Context `{Abi}.

Definition class_of (prefix : Sequence) (handler : Call.Call) : list Selector * Selector :=
  (map Call.call_selector (Sequence.calls prefix), Call.call_selector handler).

Definition observe (prefix : Sequence) (handler : Call.Call) (delta : Delta) (below_baseline : bool)
    (records : gmap (list Selector * Selector) ClassRecord)
    : Observation * gmap (list Selector * Selector) ClassRecord :=
  if Delta.is_zero delta then (observation_default, records)
  else
    let rec := below_baseline && Delta.is_positive delta in
    let class := class_of prefix handler in
    match records !! class with
    | None =>
        (mkObservation (Delta.is_negative delta) (Delta.is_positive delta) rec,
         <[class := mkClassRecord delta delta]> records)
    | Some record =>
        let new_min := Delta.is_negative delta && Delta.ltb delta (rec_min record) in
        let new_max := Delta.is_positive delta && Delta.ltb (rec_max record) delta in
        let min' := if Delta.ltb delta (rec_min record) then delta else rec_min record in
        let max' := if Delta.ltb (rec_max record) delta then delta else rec_max record in
        (mkObservation new_min new_max rec, <[class := mkClassRecord min' max']> records)
    end.

(** One observed call. *)
Record Observed : Type := mkObserved {
  o_prefix : Sequence;
  o_handler : Call.Call;
  o_delta : Delta;
  o_below : bool;
}.

Definition observe_one (records : gmap (list Selector * Selector) ClassRecord) (o : Observed) :=
  (observe (o_prefix o) (o_handler o) (o_delta o) (o_below o) records).2.

Definition observe_all (l : list Observed) : gmap (list Selector * Selector) ClassRecord :=
  foldl observe_one ∅ l.

(** The non-zero deltas of a class, as integers. *)
Definition deltas_of (k : list Selector * Selector) (l : list Observed) : list Z :=
  map (fun o => Delta.to_Z (o_delta o))
    (filter (fun o => class_of (o_prefix o) (o_handler o) = k /\ Delta.to_Z (o_delta o) <> 0) l).

(** A record is the least and the greatest of the deltas of its class. *)
Definition record_of (r : ClassRecord) (ds : list Z) : Prop :=
  Delta.wf (rec_min r) /\ Delta.wf (rec_max r) /\
  Delta.to_Z (rec_min r) ∈ ds /\ Delta.to_Z (rec_max r) ∈ ds /\
  Forall (fun d => Delta.to_Z (rec_min r) <= d <= Delta.to_Z (rec_max r)) ds.

Lemma observe_zero p h d b m : Delta.wf d -> Delta.to_Z d = 0 -> observe p h d b m = (observation_default, m).
Proof.
  intros Hwf Hz. unfold observe. rewrite Delta.is_zero_to_Z by done.
  by rewrite Hz.
Qed.

Lemma deltas_of_snoc k l o :
  deltas_of k (l ++ [o]) =
    deltas_of k l ++
    (if bool_decide (class_of (o_prefix o) (o_handler o) = k /\ Delta.to_Z (o_delta o) <> 0)
     then [Delta.to_Z (o_delta o)] else []).
Proof.
  unfold deltas_of. rewrite filter_app, map_app. f_equal. rewrite filter_cons, filter_nil.
  case_decide; case_bool_decide; done.
Qed.

(** Widening a record by one more delta. *)
Lemma record_of_widen r ds d :
  record_of r ds -> Delta.wf d ->
  record_of (mkClassRecord (if Delta.ltb d (rec_min r) then d else rec_min r)
                           (if Delta.ltb (rec_max r) d then d else rec_max r))
            (ds ++ [Delta.to_Z d]).
Proof.
  intros (Hwmin & Hwmax & Hmin & Hmax & Hall) Hd. unfold record_of. simpl.
  rewrite !Delta.ltb_to_Z by done.
  assert (Hmm : Delta.to_Z (rec_min r) <= Delta.to_Z (rec_max r)).
  { rewrite Forall_forall in Hall. by apply Hall. }
  assert (Hend : Delta.to_Z d ∈ ds ++ [Delta.to_Z d]) by set_solver.
  assert (Hl : forall x, x ∈ ds -> x ∈ ds ++ [Delta.to_Z d]) by set_solver.
  destruct (Z.ltb_spec (Delta.to_Z d) (Delta.to_Z (rec_min r)));
    destruct (Z.ltb_spec (Delta.to_Z (rec_max r)) (Delta.to_Z d));
    (split; [done|]; split; [done|]; split; [by auto|]; split; [by auto|]);
    (apply Forall_app; split;
      [eapply Forall_impl; [exact Hall|]; simpl; lia|constructor; [lia|constructor]]).
Qed.

Lemma observe_all_spec l :
  Forall (fun o => Delta.wf (o_delta o)) l ->
  forall k, match observe_all l !! k with
            | Some r => record_of r (deltas_of k l)
            | None => deltas_of k l = []
            end.
Proof.
  induction l as [|o l IH] using rev_ind; intros Hwf k; [done|].
  apply Forall_app in Hwf as [Hwf [Ho _]%Forall_cons]. specialize (IH Hwf k).
  unfold observe_all in *. rewrite foldl_snoc, deltas_of_snoc. unfold observe_one at 1, observe.
  rewrite Delta.is_zero_to_Z by done.
  destruct (Z.eqb_spec (Delta.to_Z (o_delta o)) 0) as [Hz|Hz].
  { rewrite bool_decide_false by naive_solver. rewrite app_nil_r. exact IH. }
  destruct (decide (class_of (o_prefix o) (o_handler o) = k)) as [<-|Hne].
  - rewrite bool_decide_true by done.
    destruct (foldl observe_one ∅ l !! class_of (o_prefix o) (o_handler o)) as [r|] eqn:E; simpl.
    + rewrite lookup_insert_eq. by apply record_of_widen.
    + rewrite lookup_insert_eq, IH. simpl. unfold record_of. simpl.
      repeat (split; [done || set_solver|]). constructor; [lia|constructor].
  - rewrite bool_decide_false by naive_solver. rewrite app_nil_r.
    destruct (foldl observe_one ∅ l !! class_of (o_prefix o) (o_handler o)); simpl;
      by rewrite lookup_insert_ne.
Qed.

(** ** Properties *)

(** after any run of observations each class has a record exactly when a
    non-zero delta was seen for it, and the record holds the least and the
    greatest of these deltas. *)
Theorem records_are_extrema l :
  Forall (fun o => Delta.wf (o_delta o)) l ->
  forall k, match observe_all l !! k with
            | Some r => record_of r (deltas_of k l)
            | None => deltas_of k l = []
            end.
Proof. apply observe_all_spec. Qed.

(** an observation reports a new minimum exactly for a fall below every
    earlier delta of its class, a new maximum exactly for a rise above every
    earlier delta of its class, and a recovery exactly for a rise while below
    the baseline. *)
Theorem observation_flags l o :
  Forall (fun o => Delta.wf (o_delta o)) l -> Delta.wf (o_delta o) ->
  let d := Delta.to_Z (o_delta o) in
  let seen := deltas_of (class_of (o_prefix o) (o_handler o)) l in
  let obs := (observe (o_prefix o) (o_handler o) (o_delta o) (o_below o) (observe_all l)).1 in
  (new_record_min obs = true <-> d < 0 /\ Forall (fun x => d < x) seen) /\
  (new_record_max obs = true <-> 0 < d /\ Forall (fun x => x < d) seen) /\
  (recovery obs = true <-> o_below o = true /\ 0 < d).
Proof.
  intros Hwf Ho d seen obs. pose proof (observe_all_spec l Hwf (class_of (o_prefix o) (o_handler o))) as Hr.
  subst obs. unfold observe. rewrite Delta.is_zero_to_Z by done. fold d.
  destruct (Z.eqb_spec d 0) as [Hz|Hz]; simpl; [split_and!; split; naive_solver lia|].
  destruct (observe_all l !! _) as [r|]; simpl;
    rewrite ?andb_true_iff, Delta.is_positive_to_Z, Delta.is_negative_to_Z by done; fold d.
  - destruct Hr as (Hwmin & Hwmax & Hmin & Hmax & Hall). fold seen in Hmin, Hmax, Hall.
    rewrite !Delta.ltb_to_Z by done. fold d. rewrite Forall_forall in Hall.
    rewrite !Forall_forall. split_and!.
    + split; [intros [? ?]; split; [lia|]; intros x Hx; specialize (Hall x Hx); lia|].
      intros [? Hs]. specialize (Hs _ Hmin). lia.
    + split; [intros [? ?]; split; [lia|]; intros x Hx; specialize (Hall x Hx); lia|].
      intros [? Hs]. specialize (Hs _ Hmax). lia.
    + split; [intros [? ?]; split; [done|lia]|intros [? ?]; split; [done|lia]].
  - fold seen in Hr. rewrite Hr. split_and!.
    + split; [intros; split; [lia|constructor]|lia].
    + split; [intros; split; [lia|constructor]|lia].
    + split; [intros [? ?]; split; [done|lia]|intros [? ?]; split; [done|lia]].
Qed.
End Records.

(** ** Witnesses *)
Import Toy.

Definition tick : Function := mkFunction "tick" [] [] NonPayable.
Definition tick_call : Call.Call := Call.new tick (VTuple []).
Definition seen_at (before after : Z) : Observed :=
  mkObserved Sequence.empty tick_call (Delta.between (Value.new before) (Value.new after)) true.

Lemma seen_at_wf before after :
  in_u256 before -> in_u256 after -> Delta.wf (o_delta (seen_at before after)).
Proof. intros. by apply Delta.between_wf. Qed.

Lemma records_are_extrema_witness :
  exists r, observe_all [seen_at 10 4; seen_at 4 4; seen_at 4 9] !! class_of Sequence.empty tick_call
    = Some r /\ record_of r [-6; 5].
Proof.
  pose proof (records_are_extrema [seen_at 10 4; seen_at 4 4; seen_at 4 9]) as H.
  specialize (H ltac:(repeat constructor; apply seen_at_wf; unfold in_u256, u256_max; lia)
                (class_of Sequence.empty tick_call)).
  destruct (observe_all _ !! _) as [r|] eqn:E; [|vm_compute in E; discriminate E].
  exists r. split; [reflexivity|exact H].
Defined.

Lemma observation_flags_witness :
  new_record_max (observe Sequence.empty tick_call (o_delta (seen_at 4 9)) true
    (observe_all [seen_at 10 4])).1 = true.
Proof.
  destruct (observation_flags [seen_at 10 4] (seen_at 4 9)) as (_ & H & _).
  - repeat constructor; apply seen_at_wf; unfold in_u256, u256_max; lia.
  - apply seen_at_wf; unfold in_u256, u256_max; lia.
  - apply (proj2 H). split; [reflexivity|]. repeat constructor.
Defined.
