(* ===== verification/Coverage.v ===== *)
(** * Coverage: edge markers, per-execution maps and the shared map

    Models [evm/coverage/edge.rs], [id.rs], [exec.rs] and [shared.rs]. The
    abstract view of a coverage map is the set of features it has seen: an
    instruction, a call-depth bit, a revert word bit or a jump marker of one
    contract. *)
From S2P Require Import Prelude.
From S2P Require Import Env.

Definition DEPTH_TRACKED_PCS : Z := 1024.

(** ** Edge markers *)
Definition rotate_left64 (z k : Z) : Z :=
  Z.lor (wrap 64 (Z.shiftl z k)) (Z.shiftr z (64 - k)).

Definition edge_marker (src_pc dst_pc : Z) : Z :=
  Z.lxor (rotate_left64 src_pc 32) dst_pc.

(** The address is given by its 20 bytes, big-endian. *)
Definition call_edge_marker (caller_pc : Z) (addr : Bytes) : Z :=
  let low := foldl (fun acc b => acc * 256 + b) 0 (drop 12 addr) in
  let high := foldl (fun acc b => wrap 64 (wrap 64 (acc * 131) + b)) 0 (take 12 addr) in
  let marker := Z.lxor (rotate_left64 caller_pc 32) low in
  let marker := Z.lxor marker (rotate_left64 high 16) in
  Z.lor marker (2 ^ 63).

(** ** Coverage identifiers *)
Inductive CoverageId : Type :=
| Initcode (hash : U256)
| Runtime (address : Address) (codehash : U256).

#[export] Instance CoverageId_eq_dec : EqDecision CoverageId.
Proof. solve_decision. Defined.

#[export] Instance CoverageId_countable : Countable CoverageId.
Proof.
  refine (inj_countable'
    (fun c => match c with Initcode h => inl h | Runtime a h => inr (a, h) end)
    (fun s => match s with inl h => Initcode h | inr (a, h) => Runtime a h end) _).
  by intros [].
Defined.

Definition codehash (id : CoverageId) : U256 :=
  match id with Initcode h => h | Runtime _ h => h end.
Definition address (id : CoverageId) : option Address :=
  match id with Initcode _ => None | Runtime a _ => Some a end.
Definition id_is_initcode (id : CoverageId) : bool :=
  match id with Initcode _ => true | Runtime _ _ => false end.

(** ** The map of one execution *)
Record ExecutionContractCoverage : Type := mkExec {
  edges : list Z;
  depths : list Z;
  reverts : list Z;
  jump_edges : gmap Z Z;
  hit_pcs : list nat;
  hit_depths : list nat;
  hit_reverts : list nat;
  bytecode : Bytes;
  is_initcode : bool;
}.

Definition depth_len (n : nat) : nat := Nat.min n (Z.to_nat DEPTH_TRACKED_PCS).
Definition revert_words (n : nat) : nat := ((n + 63) / 64)%nat.

Definition exec_new (bytecode_len : nat) : ExecutionContractCoverage :=
  mkExec (replicate bytecode_len 0) (replicate (depth_len bytecode_len) 0)
    (replicate (revert_words bytecode_len) 0) ∅ [] [] [] [] false.

Definition exec_clear (c : ExecutionContractCoverage) : ExecutionContractCoverage :=
  mkExec (map (fun _ => 0) (edges c)) (map (fun _ => 0) (depths c))
    (map (fun _ => 0) (reverts c)) ∅ [] [] [] (bytecode c) (is_initcode c).

Record ExecutionCoverage : Type := mkExecution {
  contracts : gmap CoverageId ExecutionContractCoverage;
}.

Definition execution_new : ExecutionCoverage := mkExecution ∅.
Definition execution_clear (e : ExecutionCoverage) : ExecutionCoverage :=
  mkExecution (exec_clear <$> contracts e).

(** ** The shared map *)
Record CoverageUpdate : Type := mkUpdate {
  new_edges : Z;
  new_depths : Z;
  new_reverts : Z;
  new_jump_edges : Z;
}.

#[export] Instance CoverageUpdate_eq_dec : EqDecision CoverageUpdate.
Proof. solve_decision. Defined.

Definition update_default : CoverageUpdate := mkUpdate 0 0 0 0.

Definition is_interesting (u : CoverageUpdate) : bool :=
  (0 <? new_edges u) || (0 <? new_depths u) || (0 <? new_reverts u) || (0 <? new_jump_edges u).

Record ContractCoverage : Type := mkContract {
  g_edges : list Z;
  g_raw_edges : list Z;
  g_depths : list Z;
  g_reverts : list Z;
  g_jump_edges : gmap Z Z;
  g_is_initcode : bool;
}.

Definition new_with_initcode (bytecode_len : nat) (init : bool) : ContractCoverage :=
  mkContract (replicate bytecode_len 0) (replicate bytecode_len 0)
    (replicate (depth_len bytecode_len) 0) (replicate (revert_words bytecode_len) 0) ∅ init.

Record SharedCoverage : Type := mkShared {
  s_contracts : gmap CoverageId ContractCoverage;
  s_bytecodes : gmap CoverageId Bytes;
}.

Definition shared_new : SharedCoverage := mkShared ∅ ∅.

(** One merge loop over a list of hit indices: each index reads the local cell
    and combines it atomically into the global one ([fetch_max], [fetch_add],
    [fetch_or]); [fresh prev local] is the loop's novelty test. The result is
    the new global array and the number of fresh hits. *)
Fixpoint merge_hits (op : Z -> Z -> Z) (fresh : Z -> Z -> bool) (hits : list nat)
    (local global : list Z) : Res (list Z * Z) :=
  match hits with
  | [] => Ok (global, 0)
  | i :: hits' =>
      l ← vec_index local i;
      prev ← vec_index global i;
      '(global', n) ← merge_hits op fresh hits' local (<[i := op prev l]> global);
      mret (global', n + (if fresh prev l then 1 else 0))
  end.

Definition op_hit (prev _ : Z) : Z := Z.max prev 1.
Definition fresh_hit (prev _ : Z) : bool := prev =? 0.
Definition op_add (prev local : Z) : Z := wrap 64 (prev + local).
Definition op_or (prev local : Z) : Z := Z.lor prev local.
(** [local & !prev != 0] *)
Definition fresh_or (prev local : Z) : bool := negb (Z.ldiff local prev =? 0).

(** Revert words out of the global range and zero words are skipped. *)
Definition revert_hit (local global : list Z) (i : nat) : bool :=
  (i <? length global)%nat && negb (bool_decide (local !! i = Some 0)).

Fixpoint merge_jumps (l : list (Z * Z)) (global : gmap Z Z) : gmap Z Z * Z :=
  match l with
  | [] => (global, 0)
  | (marker, raw) :: l' =>
      if raw =? 0 then merge_jumps l' global
      else
        let prev := default 0 (global !! marker) in
        let '(global', n) := merge_jumps l' (<[marker := Z.max prev 1]> global) in
        (global', n + (if prev =? 0 then 1 else 0))
  end.

Definition merge_contract (lc : ExecutionContractCoverage) (g : ContractCoverage)
    : Res (ContractCoverage * CoverageUpdate) :=
  '(e, ne) ← merge_hits op_hit fresh_hit (hit_pcs lc) (edges lc) (g_edges g);
  '(raw, _) ← merge_hits op_add (fun _ _ => false) (hit_pcs lc) (edges lc) (g_raw_edges g);
  '(d, nd) ← merge_hits op_or fresh_or (hit_depths lc) (depths lc) (g_depths g);
  '(r, nr) ← merge_hits op_or fresh_or
      (filter (revert_hit (reverts lc) (g_reverts g)) (hit_reverts lc))
      (reverts lc) (g_reverts g);
  let '(j, nj) := merge_jumps (map_to_list (jump_edges lc)) (g_jump_edges g) in
  let credit n := if is_initcode lc then 0 else n in
  mret (mkContract e raw d r j (g_is_initcode g),
        mkUpdate (credit ne) (credit nd) (credit nr) (credit nj)).

Definition update_add (a b : CoverageUpdate) : CoverageUpdate :=
  mkUpdate (new_edges a + new_edges b) (new_depths a + new_depths b)
    (new_reverts a + new_reverts b) (new_jump_edges a + new_jump_edges b).

(** [get_or_insert_with] on the contract map and, for a non-empty bytecode, on
    the bytecode map; then the four loops. *)
Definition merge_one (id : CoverageId) (lc : ExecutionContractCoverage) (s : SharedCoverage)
    : Res (SharedCoverage * CoverageUpdate) :=
  let g := default (new_with_initcode (length (edges lc)) (is_initcode lc)) (s_contracts s !! id) in
  let bytecodes :=
    if bool_decide (bytecode lc = []) then s_bytecodes s
    else match s_bytecodes s !! id with
         | Some _ => s_bytecodes s
         | None => <[id := bytecode lc]> (s_bytecodes s)
         end in
  '(g', u) ← merge_contract lc g;
  mret (mkShared (<[id := g']> (s_contracts s)) bytecodes, u).

(** The local map is iterated in an unspecified order, here the one of
    [map_to_list]. *)
Fixpoint merge_list (l : list (CoverageId * ExecutionContractCoverage)) (s : SharedCoverage)
    : Res (SharedCoverage * CoverageUpdate) :=
  match l with
  | [] => Ok (s, update_default)
  | (id, lc) :: l' =>
      '(s', u) ← merge_one id lc s;
      '(s'', u') ← merge_list l' s';
      mret (s'', update_add u u')
  end.

Definition merge (s : SharedCoverage) (local : ExecutionCoverage)
    : Res (SharedCoverage * CoverageUpdate) :=
  merge_list (map_to_list (contracts local)) s.

(** Counters over the runtime contracts. *)
Definition runtime_contracts (s : SharedCoverage) : list ContractCoverage :=
  filter (fun c => g_is_initcode c = false) (map snd (map_to_list (s_contracts s))).

Definition count_nonzero (l : list Z) : Z :=
  Z.of_nat (length (filter (fun e => e <> 0) l)).

(** [count_ones] *)
Definition count_ones (z : Z) : Z :=
  Z.of_nat (length (filter (fun i => Z.testbit z (Z.of_nat i) = true) (seq 0 64))).

Definition edge_count (s : SharedCoverage) : Z :=
  zsum (map (fun c => count_nonzero (g_edges c)) (runtime_contracts s)).
Definition jump_count (s : SharedCoverage) : Z :=
  zsum (map (fun c => Z.of_nat (size (g_jump_edges c))) (runtime_contracts s)).
Definition hit_count (s : SharedCoverage) : Z := edge_count s + jump_count s.
Definition contract_count (s : SharedCoverage) : Z := Z.of_nat (length (runtime_contracts s)).
Definition depth_count (s : SharedCoverage) : Z :=
  zsum (map (fun c => zsum (map count_ones (g_depths c))) (runtime_contracts s)).
Definition revert_count (s : SharedCoverage) : Z :=
  zsum (map (fun c => zsum (map count_ones (g_reverts c))) (runtime_contracts s)).

Definition raw_edge_counts (s : SharedCoverage) (id : CoverageId) : option (list Z) :=
  g_raw_edges <$> s_contracts s !! id.

Record RawEdgeCounts : Type := mkRaw {
  contract_id : CoverageId;
  raw_bytecode : Bytes;
  raw_edges : list Z;
}.

Definition raw_edge_counts_with_bytecodes_for_ids (s : SharedCoverage) (ids : list CoverageId)
    : list RawEdgeCounts :=
  omap (fun id =>
    c ← s_contracts s !! id;
    Some (mkRaw id (default [] (s_bytecodes s !! id)) (g_raw_edges c))) ids.

Definition all_raw_edge_counts (s : SharedCoverage) : list (CoverageId * list Z) :=
  map (fun '(id, c) => (id, g_raw_edges c)) (map_to_list (s_contracts s)).

Definition all_raw_edge_counts_with_bytecodes (s : SharedCoverage) : list RawEdgeCounts :=
  map (fun '(id, c) => mkRaw id (default [] (s_bytecodes s !! id)) (g_raw_edges c))
    (map_to_list (s_contracts s)).

Definition all_bytecodes (s : SharedCoverage) : list (CoverageId * Bytes) :=
  map (fun '(id, _) => (id, default [] (s_bytecodes s !! id))) (map_to_list (s_contracts s)).

(** ** The merge loops *)
Section Merge_hits.
Context (op : Z -> Z -> Z) (fresh : Z -> Z -> bool).
Implicit Types (hits : list nat) (local global : list Z).

Lemma vec_index_Ok {A} (l : list A) i x : vec_index l i = Ok x <-> l !! i = Some x.
Proof. unfold vec_index. destruct (l !! i); naive_solver. Qed.

Lemma merge_hits_cons i hits local global g' n :
  merge_hits op fresh (i :: hits) local global = Ok (g', n) <->
  exists l p n', local !! i = Some l /\ global !! i = Some p /\
    merge_hits op fresh hits local (<[i := op p l]> global) = Ok (g', n') /\
    n = n' + (if fresh p l then 1 else 0).
Proof.
  cbn [merge_hits]. split.
  - intros H. apply Res_bind_Ok in H as (l & Hl%vec_index_Ok & H).
    apply Res_bind_Ok in H as (p & Hp%vec_index_Ok & H).
    apply Res_bind_Ok in H as ([g1 n1] & H1 & [= <- <-]). eauto 10.
  - intros (l & p & n' & Hl & Hp & Hm & ->).
    apply Res_bind_Ok. exists l. split; [by apply vec_index_Ok|].
    apply Res_bind_Ok. exists p. split; [by apply vec_index_Ok|].
    apply Res_bind_Ok. exists (g', n'). done.
Qed.

Lemma merge_hits_total hits local global :
  Forall (fun i => (i < length local)%nat /\ (i < length global)%nat) hits ->
  exists r, merge_hits op fresh hits local global = Ok r.
Proof.
  intros HF. revert global HF. induction hits as [|i hits IH]; intros global HF; [by eexists|].
  apply Forall_cons in HF as [[Hl Hg] HF].
  destruct (lookup_lt_is_Some_2 _ _ Hl) as [l El], (lookup_lt_is_Some_2 _ _ Hg) as [p Ep].
  destruct (IH (<[i := op p l]> global)) as [[g' n] Hr].
  { eapply Forall_impl; [exact HF|]. intros j. by rewrite length_insert. }
  eexists. apply merge_hits_cons. eauto 10.
Qed.

Lemma merge_hits_length hits local global g' n :
  merge_hits op fresh hits local global = Ok (g', n) -> length g' = length global.
Proof.
  revert global n. induction hits as [|i hits IH]; intros global n H; [by simplify_eq/=|].
  apply merge_hits_cons in H as (l & p & n' & _ & _ & H & _).
  apply IH in H. by rewrite length_insert in H.
Qed.

Lemma merge_hits_miss hits local global g' n j :
  merge_hits op fresh hits local global = Ok (g', n) -> j ∉ hits -> g' !! j = global !! j.
Proof.
  revert global n. induction hits as [|i hits IH]; intros global n H Hj; [by simplify_eq/=|].
  apply merge_hits_cons in H as (l & p & n' & _ & _ & H & _).
  rewrite (IH _ _ H) by set_solver. apply list_lookup_insert_ne. set_solver.
Qed.

Context (op_idem : forall p l, op (op p l) l = op p l).

Lemma merge_hits_hit hits local global g' n j l p :
  merge_hits op fresh hits local global = Ok (g', n) ->
  j ∈ hits -> local !! j = Some l -> global !! j = Some p -> g' !! j = Some (op p l).
Proof.
  revert global n p. induction hits as [|i hits IH]; intros global n p H Hj Hl Hp; [set_solver|].
  apply merge_hits_cons in H as (l' & p' & n' & Hl' & Hp' & H & _).
  destruct (decide (i = j)) as [->|Hij].
  - assert (l' = l) as -> by congruence. assert (p' = p) as -> by congruence.
    assert (Hnew : <[j := op p l]> global !! j = Some (op p l)).
    { apply list_lookup_insert_eq. by eapply lookup_lt_Some. }
    destruct (decide (j ∈ hits)) as [Hin|Hout].
    + rewrite (IH _ _ _ H Hin Hl Hnew). by rewrite op_idem.
    + by rewrite (merge_hits_miss _ _ _ _ _ _ H Hout).
  - eapply IH; [exact H| |exact Hl|].
    + set_solver.
    + by rewrite list_lookup_insert_ne.
Qed.

Context (fresh_op : forall p l, fresh (op p l) l = false).

Lemma merge_hits_count hits local global g' n :
  merge_hits op fresh hits local global = Ok (g', n) ->
  0 <= n /\
  (n = 0 <-> forall j l p, j ∈ hits -> local !! j = Some l -> global !! j = Some p ->
                     fresh p l = false).
Proof.
  revert global n. induction hits as [|i hits IH]; intros global n H.
  { simplify_eq/=. split; [lia|]. set_solver. }
  apply merge_hits_cons in H as (l & p & n' & Hl & Hp & H & ->).
  destruct (IH _ _ H) as [Hn Hiff]. split; [destruct (fresh p l); lia|]. split.
  - intros Hz j l' p' Hj Hl' Hp'. destruct (decide (i = j)) as [->|Hij].
    + simplify_eq. destruct (fresh p l); [lia|done].
    + apply (proj1 Hiff) with j; [destruct (fresh p l); lia|set_solver|done|].
      by rewrite list_lookup_insert_ne.
  - intros Hall. rewrite (Hall i l p) by set_solver.
    rewrite Z.add_0_r. apply Hiff. intros j l' p' Hj Hl' Hp'.
    destruct (decide (i = j)) as [->|Hij].
    + rewrite list_lookup_insert_eq in Hp' by (by eapply lookup_lt_Some).
      simplify_eq. apply fresh_op.
    + rewrite list_lookup_insert_ne in Hp' by done. apply (Hall j); set_solver.
Qed.
End Merge_hits.

Lemma op_hit_idem p l : op_hit (op_hit p l) l = op_hit p l.
Proof. unfold op_hit. lia. Qed.
Lemma fresh_op_hit p l : fresh_hit (op_hit p l) l = false.
Proof. unfold fresh_hit, op_hit. lia. Qed.
Lemma op_or_idem p l : op_or (op_or p l) l = op_or p l.
Proof. unfold op_or. by rewrite <- Z.lor_assoc, Z.lor_diag. Qed.
Lemma fresh_or_false p l :
  fresh_or p l = false <-> forall b, 0 <= b -> Z.testbit l b = true -> Z.testbit p b = true.
Proof.
  unfold fresh_or. rewrite negb_false_iff, Z.eqb_eq. split.
  - intros H b Hb Hl. apply (f_equal (fun z => Z.testbit z b)) in H.
    rewrite Z.ldiff_spec, Z.testbit_0_l, Hl in H. by destruct (Z.testbit p b).
  - intros H. apply Z.bits_inj'. intros b Hb. rewrite Z.ldiff_spec, Z.testbit_0_l.
    specialize (H b Hb). destruct (Z.testbit l b); [by rewrite H|done].
Qed.
Lemma fresh_op_or p l : fresh_or (op_or p l) l = false.
Proof.
  apply fresh_or_false. intros b Hb Hl. unfold op_or. rewrite Z.lor_spec, Hl. apply orb_true_r.
Qed.

#[export] Hint Resolve op_hit_idem fresh_op_hit op_or_idem fresh_op_or : rip.

Lemma merge_jumps_spec l global global' n :
  NoDup l.*1 -> merge_jumps l global = (global', n) ->
  (forall m, global' !! m =
    match (list_to_map l : gmap Z Z) !! m with
    | Some raw => if raw =? 0 then global !! m else Some (Z.max (default 0 (global !! m)) 1)
    | None => global !! m
    end) /\
  0 <= n /\
  (n = 0 <-> forall m raw, (m, raw) ∈ l -> raw <> 0 -> default 0 (global !! m) <> 0).
Proof.
  revert global n. induction l as [|[m raw] l IH]; intros global n Hnd H; simpl in *.
  { simplify_eq. split; [done|]. split; [lia|]. set_solver. }
  apply NoDup_cons in Hnd as [Hm Hnd].
  assert (Hlm : (list_to_map l : gmap Z Z) !! m = None) by (by apply not_elem_of_list_to_map_1).
  destruct (Z.eqb_spec raw 0) as [->|Hraw].
  - destruct (IH _ _ Hnd H) as (Hlk & Hn & Hc). split; [|split; [done|]].
    + intros m'. rewrite Hlk. destruct (decide (m = m')) as [->|Hne].
      * by rewrite lookup_insert_eq, Hlm.
      * by rewrite lookup_insert_ne.
    + rewrite Hc. set_solver.
  - destruct (merge_jumps l _) as [g1 n1] eqn:E. simplify_eq.
    destruct (IH _ _ Hnd E) as (Hlk & Hn & Hc). split; [|split].
    + intros m'. rewrite Hlk. destruct (decide (m = m')) as [->|Hne].
      * rewrite lookup_insert_eq, Hlm, lookup_insert_eq. by destruct (Z.eqb_spec raw 0).
      * by rewrite !lookup_insert_ne.
    + case_match; lia.
    + assert (Hother : forall m' raw', (m', raw') ∈ l -> m' <> m).
      { intros m' raw' Hin ->. apply Hm, list_elem_of_fmap. by exists (m, raw'). }
      split.
      * intros Hz m' raw' [[= -> ->]|Hin]%elem_of_cons Hr.
        { case_match; lia. }
        pose proof (Hother _ _ Hin). eapply Hc in Hin; [|case_match; lia|done].
        by rewrite lookup_insert_ne in Hin.
      * intros Hall. destruct (Z.eqb_spec (default 0 (global !! m)) 0) as [Hz|].
        { exfalso. by eapply (Hall m raw); [left|..]. }
        rewrite Z.add_0_r. apply Hc. intros m' raw' Hin Hr.
        rewrite lookup_insert_ne by (apply not_eq_sym; eauto).
        eapply Hall; [by right|done].
Qed.

(** ** Abstract specification: the features a map has seen *)
Inductive ContractFeature : Type :=
| FPc (pc : nat)
| FDepth (pc bit : nat)
| FRevert (word bit : nat)
| FJump (marker : Z).

Definition nonzero_at (l : list Z) (i : nat) : Prop := exists v, l !! i = Some v /\ v <> 0.
Definition bit_at (l : list Z) (i bit : nat) : Prop :=
  exists v, l !! i = Some v /\ Z.testbit v (Z.of_nat bit) = true.
Definition marked (m : gmap Z Z) (k : Z) : Prop := exists v, m !! k = Some v /\ v <> 0.

Definition local_sees (c : ExecutionContractCoverage) (f : ContractFeature) : Prop :=
  match f with
  | FPc pc => nonzero_at (edges c) pc
  | FDepth pc b => bit_at (depths c) pc b
  | FRevert w b => bit_at (reverts c) w b
  | FJump m => marked (jump_edges c) m
  end.

Definition global_sees (c : ContractCoverage) (f : ContractFeature) : Prop :=
  match f with
  | FPc pc => nonzero_at (g_edges c) pc
  | FDepth pc b => bit_at (g_depths c) pc b
  | FRevert w b => bit_at (g_reverts c) w b
  | FJump m => marked (g_jump_edges c) m
  end.

Definition sees (s : SharedCoverage) (id : CoverageId) (f : ContractFeature) : Prop :=
  exists c, s_contracts s !! id = Some c /\ global_sees c f.
Definition execution_sees (e : ExecutionCoverage) (id : CoverageId) (f : ContractFeature) : Prop :=
  exists c, contracts e !! id = Some c /\ local_sees c f.

(** The invariant of a local map: the arrays have the lengths of their
    contract's bytecode and the hit lists name exactly the non-zero cells. *)
Record local_wf (c : ExecutionContractCoverage) : Prop := {
  lw_depths : length (depths c) = depth_len (length (edges c));
  lw_reverts : length (reverts c) = revert_words (length (edges c));
  lw_hit_pcs : forall i, i ∈ hit_pcs c <-> nonzero_at (edges c) i;
  lw_hit_depths : forall i, i ∈ hit_depths c <-> nonzero_at (depths c) i;
  lw_hit_reverts : forall i, i ∈ hit_reverts c <-> nonzero_at (reverts c) i;
}.

Record sized (n : nat) (g : ContractCoverage) : Prop := {
  sz_edges : length (g_edges g) = n;
  sz_raw : length (g_raw_edges g) = n;
  sz_depths : length (g_depths g) = depth_len n;
  sz_reverts : length (g_reverts g) = revert_words n;
}.

Definition execution_wf (e : ExecutionCoverage) : Prop := map_Forall (fun _ => local_wf) (contracts e).

(** The identifier carries the code hash, so the two maps agree on the length
    of a contract's code. *)
Definition compatible (s : SharedCoverage) (e : ExecutionCoverage) : Prop :=
  forall id lc g, contracts e !! id = Some lc -> s_contracts s !! id = Some g ->
    sized (length (edges lc)) g.

Lemma new_sized n init : sized n (new_with_initcode n init).
Proof. split; simpl; by rewrite ?length_replicate. Qed.

Lemma new_sees_nothing n init f : ~ global_sees (new_with_initcode n init) f.
Proof.
  destruct f; simpl; unfold nonzero_at, bit_at, marked;
    intros (v & Hv & Hnz); try (apply lookup_replicate in Hv as [-> _]);
    rewrite ?Z.testbit_0_l, ?lookup_empty in *; done.
Qed.

Lemma nonzero_at_bit l i b : bit_at l i b -> nonzero_at l i.
Proof. intros (v & ? & Hb). exists v. split; [done|]. intros ->. by rewrite Z.testbit_0_l in Hb. Qed.

(** One merge loop, read as features. *)
Lemma merge_edges_sees hits local global g' n i :
  merge_hits op_hit fresh_hit hits local global = Ok (g', n) ->
  (forall i, i ∈ hits <-> nonzero_at local i) -> length local = length global ->
  nonzero_at g' i <-> nonzero_at global i \/ nonzero_at local i.
Proof.
  intros H Hh Hlen. destruct (decide (i ∈ hits)) as [Hi|Hi].
  - pose proof (proj1 (Hh i) Hi) as Hnz. split; [by right|]. intros _.
    destruct Hnz as (l & Hl & Hl0).
    destruct (lookup_lt_is_Some_2 global i) as [p Hp]; [rewrite <- Hlen; by eapply lookup_lt_Some|].
    exists (op_hit p l). split; [|unfold op_hit; lia].
    eapply merge_hits_hit; eauto with rip.
  - pose proof (merge_hits_miss _ _ _ _ _ _ _ _ H Hi) as Heq. unfold nonzero_at at 1 2.
    rewrite Heq. rewrite <- Hh. naive_solver.
Qed.

Lemma merge_bits_sees hits local global g' n i b :
  merge_hits op_or fresh_or hits local global = Ok (g', n) ->
  (forall i, i ∈ hits <-> nonzero_at local i) -> length local = length global ->
  bit_at g' i b <-> bit_at global i b \/ bit_at local i b.
Proof.
  intros H Hh Hlen. destruct (decide (i ∈ hits)) as [Hi|Hi].
  - destruct (proj1 (Hh i) Hi) as (l & Hl & Hl0).
    destruct (lookup_lt_is_Some_2 global i) as [p Hp]; [rewrite <- Hlen; by eapply lookup_lt_Some|].
    assert (Hg : g' !! i = Some (op_or p l)) by (eapply merge_hits_hit; eauto with rip).
    unfold bit_at. rewrite Hg, Hl, Hp. unfold op_or. split.
    + intros (v & [= <-] & Hv). rewrite Z.lor_spec in Hv. apply orb_true_iff in Hv as [?|?];
        [left|right]; eauto.
    + intros Hor. eexists. split; [done|]. rewrite Z.lor_spec, orb_true_iff.
      destruct Hor as [(v & [= <-] & Hv)|(v & [= <-] & Hv)]; auto.
  - pose proof (merge_hits_miss _ _ _ _ _ _ _ _ H Hi) as Heq. unfold bit_at at 1 2.
    rewrite Heq. split; [by left|]. intros [?|Hb]; [done|].
    exfalso. by apply Hi, Hh, (nonzero_at_bit _ _ b).
Qed.

Lemma merge_edges_count hits local global g' n :
  merge_hits op_hit fresh_hit hits local global = Ok (g', n) ->
  (forall i, i ∈ hits <-> nonzero_at local i) -> length local = length global ->
  0 <= n /\ (n = 0 <-> forall i, nonzero_at local i -> nonzero_at global i).
Proof.
  intros H Hh Hlen. destruct (merge_hits_count _ _ op_hit_idem fresh_op_hit _ _ _ _ _ H) as [Hn Hiff].
  split; [done|]. rewrite Hiff. split.
  - intros Hall i (l & Hl & Hl0).
    destruct (lookup_lt_is_Some_2 global i) as [p Hp]; [rewrite <- Hlen; by eapply lookup_lt_Some|].
    exists p. split; [done|]. specialize (Hall i l p). unfold fresh_hit in Hall.
    rewrite Hh in Hall. specialize (Hall ltac:(by exists l) Hl Hp). lia.
  - intros Hall i l p Hi Hl Hp. apply Hh, Hall in Hi as (p' & Hp' & Hnz).
    simplify_eq. unfold fresh_hit. lia.
Qed.

Lemma merge_bits_count hits local global g' n :
  merge_hits op_or fresh_or hits local global = Ok (g', n) ->
  (forall i, i ∈ hits <-> nonzero_at local i) -> length local = length global ->
  0 <= n /\ (n = 0 <-> forall i b, bit_at local i b -> bit_at global i b).
Proof.
  intros H Hh Hlen. destruct (merge_hits_count _ _ op_or_idem fresh_op_or _ _ _ _ _ H) as [Hn Hiff].
  split; [done|]. rewrite Hiff. split.
  - intros Hall i b Hb. pose proof (nonzero_at_bit _ _ _ Hb) as Hi. destruct Hb as (l & Hl & Hlb).
    destruct (lookup_lt_is_Some_2 global i) as [p Hp]; [rewrite <- Hlen; by eapply lookup_lt_Some|].
    exists p. split; [done|]. specialize (Hall i l p). rewrite fresh_or_false, Hh in Hall.
    apply Hall; auto. lia.
  - intros Hall i l p Hi Hl Hp. apply fresh_or_false. intros b Hb0 Hlb.
    destruct (Hall i (Z.to_nat b)) as (p' & Hp' & Hpb).
    { exists l. split; [done|]. by rewrite Z2Nat.id. }
    simplify_eq. by rewrite Z2Nat.id in Hpb.
Qed.

Lemma merge_jumps_sees (local global global' : gmap Z Z) n :
  merge_jumps (map_to_list local) global = (global', n) ->
  (forall m, marked global' m <-> marked global m \/ marked local m) /\
  0 <= n /\ (n = 0 <-> forall m, marked local m -> marked global m).
Proof.
  intros H. destruct (merge_jumps_spec _ _ _ _ (NoDup_fst_map_to_list local) H) as (Hlk & Hn & Hc).
  split; [|split; [done|]].
  - intros m. unfold marked. rewrite Hlk, list_to_map_to_list.
    destruct (local !! m) as [raw|] eqn:E; [|naive_solver].
    destruct (Z.eqb_spec raw 0) as [->|Hr]; [naive_solver|].
    split; [eauto|]. intros _. eexists. split; [done|]. lia.
  - rewrite Hc. unfold marked. split.
    + intros Hall m (raw & Hm & Hr). apply elem_of_map_to_list in Hm.
      specialize (Hall _ _ Hm Hr). destruct (global !! m) as [v|]; [eauto|done].
    + intros Hall m raw Hm%elem_of_map_to_list Hr.
      destruct (Hall m) as (v & Hv & Hnz); [eauto|]. by rewrite Hv.
Qed.

Lemma revert_hits_all lc (g : ContractCoverage) i :
  local_wf lc -> sized (length (edges lc)) g ->
  i ∈ filter (revert_hit (reverts lc) (g_reverts g)) (hit_reverts lc) <->
  nonzero_at (reverts lc) i.
Proof.
  intros Hl Hs. rewrite list_elem_of_filter, (lw_hit_reverts _ Hl). split; [naive_solver|].
  intros Hnz. split; [|done]. destruct Hnz as (v & Hv & Hv0). unfold revert_hit.
  apply Is_true_true, andb_true_iff. split.
  - apply Nat.ltb_lt. rewrite (sz_reverts _ _ Hs), <- (lw_reverts _ Hl).
    by eapply lookup_lt_Some.
  - apply negb_true_iff, bool_decide_eq_false. congruence.
Qed.

Lemma hits_in_range local (global : list Z) hits :
  (forall i, i ∈ hits <-> nonzero_at local i) -> length local = length global ->
  Forall (fun i => (i < length local)%nat /\ (i < length global)%nat) hits.
Proof.
  intros Hh Hlen. apply Forall_forall. intros i (v & Hv & _)%Hh.
  rewrite <- Hlen. by split; eapply lookup_lt_Some.
Qed.

Lemma is_interesting_false a b c d :
  0 <= a -> 0 <= b -> 0 <= c -> 0 <= d ->
  is_interesting (mkUpdate a b c d) = false <-> a = 0 /\ b = 0 /\ c = 0 /\ d = 0.
Proof. intros. unfold is_interesting. simpl. lia. Qed.

Definition update_nonneg (u : CoverageUpdate) : Prop :=
  0 <= new_edges u /\ 0 <= new_depths u /\ 0 <= new_reverts u /\ 0 <= new_jump_edges u.

Lemma merge_contract_spec lc g :
  local_wf lc -> sized (length (edges lc)) g ->
  exists g' u, merge_contract lc g = Ok (g', u) /\
    sized (length (edges lc)) g' /\ g_is_initcode g' = g_is_initcode g /\
    (forall f, global_sees g' f <-> global_sees g f \/ local_sees lc f) /\
    update_nonneg u /\
    (is_interesting u = false <->
       is_initcode lc = true \/ forall f, local_sees lc f -> global_sees g f).
Proof.
  intros Hl Hs. pose proof Hl as [Hld Hlr Hp Hd _]. pose proof Hs as [Hse Hsr Hsd Hsv].
  pose proof (fun i => revert_hits_all lc g i Hl Hs) as Hr.
  destruct (merge_hits_total op_hit fresh_hit _ _ _ (hits_in_range _ _ _ Hp (eq_sym Hse)))
    as [[e ne] He].
  destruct (merge_hits_total op_add (fun _ _ => false) _ _ _ (hits_in_range _ _ _ Hp (eq_sym Hsr)))
    as [[raw nr0] Hraw].
  assert (Hld' : length (depths lc) = length (g_depths g)) by congruence.
  assert (Hlr' : length (reverts lc) = length (g_reverts g)) by congruence.
  destruct (merge_hits_total op_or fresh_or _ _ _ (hits_in_range _ _ _ Hd Hld')) as [[d nd] Hdd].
  destruct (merge_hits_total op_or fresh_or _ _ _ (hits_in_range _ _ _ Hr Hlr')) as [[r nr] Hrr].
  destruct (merge_jumps (map_to_list (jump_edges lc)) (g_jump_edges g)) as [j nj] eqn:Hj.
  destruct (merge_edges_count _ _ _ _ _ He Hp (eq_sym Hse)) as [Hne He0].
  destruct (merge_bits_count _ _ _ _ _ Hdd Hd Hld') as [Hnd Hd0].
  destruct (merge_bits_count _ _ _ _ _ Hrr Hr Hlr') as [Hnr Hr0].
  destruct (merge_jumps_sees _ _ _ _ Hj) as (Hjs & Hnj & Hj0).
  eexists _, _. split; [|split; [|split; [|split; [|split]]]].
  - unfold merge_contract. rewrite He. simpl. rewrite Hraw. simpl. rewrite Hdd. simpl.
    rewrite Hrr. simpl. by rewrite Hj.
  - split; simpl; [|rewrite (merge_hits_length _ _ _ _ _ _ _ Hraw); done| |].
    + by rewrite (merge_hits_length _ _ _ _ _ _ _ He).
    + by rewrite (merge_hits_length _ _ _ _ _ _ _ Hdd).
    + by rewrite (merge_hits_length _ _ _ _ _ _ _ Hrr).
  - done.
  - intros [pc|pc b|w b|m]; simpl; [by eapply merge_edges_sees|by eapply merge_bits_sees..|].
    apply Hjs.
  - unfold update_nonneg. simpl. destruct (is_initcode lc); lia.
  - destruct (is_initcode lc); [split; auto|]. rewrite is_interesting_false by done.
    rewrite He0, Hd0, Hr0, Hj0. split.
    + intros (? & ? & ? & ?). right. intros [pc|pc b|w b|m]; simpl; auto.
    + intros [|Hall]; [done|]. split_and!; intros.
      * by apply (Hall (FPc i)).
      * by apply (Hall (FDepth i b)).
      * by apply (Hall (FRevert i b)).
      * by apply (Hall (FJump m)).
Qed.

Lemma update_add_interesting u v :
  update_nonneg u -> update_nonneg v ->
  update_nonneg (update_add u v) /\
  (is_interesting (update_add u v) = false <-> is_interesting u = false /\ is_interesting v = false).
Proof.
  unfold update_nonneg, is_interesting, update_add. simpl. intros. split; lia.
Qed.

Lemma merge_one_spec id lc s :
  local_wf lc -> (forall g, s_contracts s !! id = Some g -> sized (length (edges lc)) g) ->
  exists s' u, merge_one id lc s = Ok (s', u) /\
    (forall id', id' <> id -> s_contracts s' !! id' = s_contracts s !! id') /\
    (exists g', s_contracts s' !! id = Some g' /\ sized (length (edges lc)) g') /\
    (forall f, sees s' id f <-> sees s id f \/ local_sees lc f) /\
    update_nonneg u /\
    (is_interesting u = false <->
       is_initcode lc = true \/ forall f, local_sees lc f -> sees s id f).
Proof.
  intros Hl Hsz. unfold merge_one.
  set (g := default _ (s_contracts s !! id)).
  assert (Hg : sized (length (edges lc)) g).
  { unfold g. destruct (s_contracts s !! id) eqn:E; [by apply Hsz|apply new_sized]. }
  destruct (merge_contract_spec lc g Hl Hg) as (g' & u & Hm & Hs' & _ & Hf & Hn & Hi).
  assert (Hsees : forall f, global_sees g f <-> sees s id f).
  { intros f. unfold g, sees. destruct (s_contracts s !! id) eqn:E; simpl; [naive_solver|].
    split; [by intros ?%new_sees_nothing|naive_solver]. }
  rewrite Hm. eexists _, u. split; [done|]. simpl. split; [|split; [|split; [|split]]].
  - intros id' Hne. by rewrite lookup_insert_ne.
  - exists g'. by rewrite lookup_insert_eq.
  - intros f. rewrite <- Hsees, <- Hf. unfold sees. simpl. rewrite lookup_insert_eq. naive_solver.
  - done.
  - rewrite Hi. setoid_rewrite Hsees. done.
Qed.

(** What a merge does to the whole map. *)
Definition merge_post (s s' : SharedCoverage) (u : CoverageUpdate)
    (local : gmap CoverageId ExecutionContractCoverage) : Prop :=
  (forall id f, sees s' id f <->
     sees s id f \/ exists lc, local !! id = Some lc /\ local_sees lc f) /\
  (forall id lc, local !! id = Some lc ->
     exists g', s_contracts s' !! id = Some g' /\ sized (length (edges lc)) g') /\
  (forall id, local !! id = None -> s_contracts s' !! id = s_contracts s !! id) /\
  update_nonneg u /\
  (is_interesting u = false <->
     forall id lc f, local !! id = Some lc -> is_initcode lc = false -> local_sees lc f ->
       sees s id f).

Lemma merge_list_spec l s :
  NoDup l.*1 ->
  (forall id lc, (id, lc) ∈ l -> local_wf lc) ->
  (forall id lc g, (id, lc) ∈ l -> s_contracts s !! id = Some g -> sized (length (edges lc)) g) ->
  exists s' u, merge_list l s = Ok (s', u) /\ merge_post s s' u (list_to_map l).
Proof.
  revert s. induction l as [|[id lc] l IH]; intros s Hnd Hwf Hsz.
  { exists s, update_default. split; [done|]. unfold merge_post. simpl.
    setoid_rewrite lookup_empty. split; [naive_solver|].
    split; [done|]. split; [done|]. split; [by unfold update_nonneg; simpl|done]. }
  simpl in Hnd. apply NoDup_cons in Hnd as [Hid Hnd].
  destruct (merge_one_spec id lc s) as (s1 & u1 & H1 & Hne & Hg & Hsee & Hu1 & Hi1).
  { eapply Hwf. by left. } { intros g. eapply Hsz. by left. }
  assert (Hdiff : forall id' lc', (id', lc') ∈ l -> id' <> id).
  { intros id' lc' Hin ->. apply Hid, list_elem_of_fmap. by exists (id, lc'). }
  destruct (IH s1 Hnd) as (s2 & u2 & H2 & Hsee2 & Hg2 & Hnone2 & Hu2 & Hi2).
  { intros id' lc' Hin. eapply Hwf. by right. }
  { intros id' lc' g Hin. rewrite Hne by eauto. eapply Hsz. by right. }
  assert (Hnone : (list_to_map l : gmap CoverageId ExecutionContractCoverage) !! id = None)
    by (by apply not_elem_of_list_to_map_1).
  exists s2, (update_add u1 u2). split; [simpl; rewrite H1; simpl; by rewrite H2|].
  assert (Hs1 : forall id' f, id' <> id -> sees s1 id' f <-> sees s id' f).
  { intros id' f Hn. unfold sees. by rewrite Hne. }
  destruct (update_add_interesting u1 u2 Hu1 Hu2) as [Hu Hi].
  unfold merge_post. split; [|split; [|split; [|split; [exact Hu|]]]].
  - intros id' f. rewrite Hsee2. simpl. destruct (decide (id = id')) as [->|Hn].
    + rewrite Hsee, Hnone. setoid_rewrite lookup_insert_eq. naive_solver.
    + rewrite Hs1 by done. setoid_rewrite lookup_insert_ne; done.
  - intros id' lc' Hlk. simpl in Hlk. destruct (decide (id = id')) as [->|Hn].
    + rewrite lookup_insert_eq in Hlk. simplify_eq. by rewrite Hnone2.
    + rewrite lookup_insert_ne in Hlk by done. eauto.
  - intros id' Hlk. simpl in Hlk. destruct (decide (id = id')) as [->|Hn].
    + by rewrite lookup_insert_eq in Hlk.
    + rewrite lookup_insert_ne in Hlk by done. rewrite Hnone2, Hne; done.
  - rewrite Hi, Hi1, Hi2. simpl. split.
    + intros [Ha Hb] id' lc' f Hlk Hini Hf. destruct (decide (id = id')) as [->|Hn].
      * rewrite lookup_insert_eq in Hlk. simplify_eq. destruct Ha as [Ha|Ha]; [congruence|auto].
      * rewrite lookup_insert_ne in Hlk by done. rewrite <- Hs1 by done. eauto.
    + intros Hall. split.
      * destruct (is_initcode lc) eqn:E; [by left|right]. intros f.
        apply (Hall id lc f); [by rewrite lookup_insert_eq|done].
      * intros id' lc' f Hlk Hini Hf. assert (Hn : id <> id') by (intros ->; congruence).
        rewrite Hs1 by done. apply (Hall id' lc' f); [by rewrite lookup_insert_ne|done..].
Qed.

Lemma merge_spec s e :
  execution_wf e -> compatible s e ->
  exists s' u, merge s e = Ok (s', u) /\ merge_post s s' u (contracts e).
Proof.
  intros Hwf Hc. unfold merge.
  destruct (merge_list_spec (map_to_list (contracts e)) s) as (s' & u & Hm & Hp).
  - apply NoDup_fst_map_to_list.
  - intros id lc Hin%elem_of_map_to_list. by eapply Hwf.
  - intros id lc g Hin%elem_of_map_to_list. by apply Hc.
  - exists s', u. split; [done|]. by rewrite list_to_map_to_list in Hp.
Qed.

(** ** Markers *)
Lemma land_shift_low a b k : 0 <= k -> 0 <= b < 2 ^ k -> Z.land (a * 2 ^ k) b = 0.
Proof.
  intros Hk Hb. destruct (Z.eq_dec b 0) as [->|Hb0]; [apply Z.land_0_r|].
  apply Z.bits_inj'. intros n Hn. rewrite Z.land_spec, Z.testbit_0_l.
  destruct (Z.lt_ge_cases n k).
  - by rewrite Z.mul_pow2_bits_low.
  - rewrite (Z.bits_above_log2 b n); [by rewrite andb_false_r|lia|].
    apply Z.lt_le_trans with k; [apply Z.log2_lt_pow2; lia|done].
Qed.

Lemma edge_marker_eq src dst :
  0 <= src < 2 ^ 32 -> 0 <= dst < 2 ^ 32 -> edge_marker src dst = src * 2 ^ 32 + dst.
Proof.
  intros Hs Hd. unfold edge_marker, rotate_left64.
  rewrite Z.shiftl_mul_pow2, wrap_small by lia.
  rewrite (Z.shiftr_div_pow2 src), Z.div_small by lia. rewrite Z.lor_0_r.
  symmetry. apply Z.add_nocarry_lxor, land_shift_low; lia.
Qed.

Lemma call_edge_marker_bit pc addr : Z.testbit (call_edge_marker pc addr) 63 = true.
Proof. unfold call_edge_marker. rewrite Z.lor_spec. by rewrite (Z.pow2_bits_true 63), orb_true_r. Qed.

Lemma edge_marker_bit src dst :
  0 <= src < 2 ^ 31 -> 0 <= dst < 2 ^ 32 -> Z.testbit (edge_marker src dst) 63 = false.
Proof.
  intros Hs Hd. rewrite edge_marker_eq by lia. apply Z.bits_above_log2; [lia|].
  destruct (Z.eq_dec (src * 2 ^ 32 + dst) 0) as [->|]; [simpl; lia|].
  apply Z.log2_lt_pow2; lia.
Qed.

(** ** Properties *)

(** C5: a merge of a well-formed execution map never fails, adds to the shared
    map exactly the features of the execution, and is reported as interesting
    exactly when a runtime contract brought a feature the shared map had not
    seen; initcode alone is never interesting. *)
Theorem merge_refines_feature_union s e :
  execution_wf e -> compatible s e ->
  exists s' u, merge s e = Ok (s', u) /\
    (forall id f, sees s' id f <-> sees s id f \/ execution_sees e id f) /\
    (is_interesting u = false <->
       forall id lc f, contracts e !! id = Some lc -> is_initcode lc = false ->
         local_sees lc f -> sees s id f).
Proof.
  intros Hwf Hc. destruct (merge_spec s e Hwf Hc) as (s' & u & Hm & Hs & _ & _ & _ & Hi).
  eauto 10.
Qed.

(** coverage novelty is binary: merging the same execution a second time
    succeeds and is never interesting. *)
Theorem merge_again_not_interesting s e s' u :
  execution_wf e -> compatible s e -> merge s e = Ok (s', u) ->
  exists s'' u', merge s' e = Ok (s'', u') /\ is_interesting u' = false /\
    forall id f, sees s'' id f <-> sees s' id f.
Proof.
  intros Hwf Hc Hm. destruct (merge_spec s e Hwf Hc) as (s1 & u1 & Hm1 & Hs & Hg & _).
  rewrite Hm1 in Hm. simplify_eq. destruct (merge_spec s' e Hwf) as (s2 & u2 & Hm2 & Hs2 & _ & _ & _ & Hi2).
  { intros id lc g Hlc Hlk. destruct (Hg _ _ Hlc) as (g' & Hg' & Hsz').
    assert (g' = g) as <- by congruence. exact Hsz'. }
  exists s2, u2. split; [done|]. split.
  - apply Hi2. intros id lc f Hlc _ Hf. apply Hs. right. eauto.
  - intros id f. rewrite Hs2, Hs. naive_solver.
Qed.

(** for program counters below 2^31 the marker of a jump determines both
    of its ends, and no jump marker equals a call marker. *)
Theorem edge_markers_distinct src dst src' dst' pc addr :
  0 <= src < 2 ^ 31 -> 0 <= dst < 2 ^ 31 -> 0 <= src' < 2 ^ 31 -> 0 <= dst' < 2 ^ 31 ->
  (edge_marker src dst = edge_marker src' dst' -> src = src' /\ dst = dst') /\
  edge_marker src dst <> call_edge_marker pc addr.
Proof.
  intros Hs Hd Hs' Hd'. split.
  - rewrite !edge_marker_eq by lia. lia.
  - intros Heq. pose proof (call_edge_marker_bit pc addr) as Hb.
    rewrite <- Heq, edge_marker_bit in Hb by lia. done.
Qed.

(** A small execution: one runtime contract of three bytes whose first two
    instructions ran, with one jump. *)
Definition sample_contract : ExecutionContractCoverage :=
  mkExec [1; 2; 0] [1; 1; 0] [0] {[ 5 := 1 ]} [1%nat; 0%nat] [0%nat; 1%nat] [] [96; 0; 0] false.
Definition sample : ExecutionCoverage := mkExecution {[ Runtime 7 9 := sample_contract ]}.

Lemma sample_contract_wf : local_wf sample_contract.
Proof.
  assert (Hb : forall (l : list Z) (h : list nat),
    forallb (fun i => Bool.eqb (bool_decide (i ∈ h)) (negb (default 0 (l !! i) =? 0))) (seq 0 (length l)) = true
    -> Forall (fun i => i < length l)%nat h -> forall i, i ∈ h <-> nonzero_at l i).
  { intros l h Hf Hh i. rewrite forallb_forall in Hf. rewrite Forall_forall in Hh.
    destruct (l !! i) as [v|] eqn:E.
    - specialize (Hf i). rewrite E in Hf. unfold nonzero_at. rewrite E.
      assert (Hi : (i < length l)%nat) by (by eapply lookup_lt_Some).
      specialize (Hf ltac:(apply in_seq; lia)). simpl in Hf.
      apply Bool.eqb_prop in Hf. split.
      + intros Hin. rewrite bool_decide_true in Hf by done. exists v. split; [done|]. lia.
      + intros (v' & ? & Hv). simplify_eq. apply (bool_decide_eq_true_1 (i ∈ h)).
        rewrite Hf. lia.
    - unfold nonzero_at. rewrite E. split; [|naive_solver]. intros Hi%Hh.
      apply lookup_ge_None in E. lia. }
  split; [reflexivity|reflexivity|..]; apply Hb; simpl; try reflexivity; repeat constructor.
Qed.

Lemma sample_wf : execution_wf sample.
Proof. apply map_Forall_singleton, sample_contract_wf. Qed.

Lemma sample_compatible : compatible shared_new sample.
Proof. intros id lc g _ H. unfold shared_new in H. simpl in H. by rewrite lookup_empty in H. Qed.

Lemma merge_refines_feature_union_witness :
  exists s' u, merge shared_new sample = Ok (s', u) /\
    (forall id f, sees s' id f <-> sees shared_new id f \/ execution_sees sample id f).
Proof.
  destruct (merge_refines_feature_union shared_new sample sample_wf sample_compatible)
    as (s' & u & Hm & Hs & _).
  exists s', u. split; [exact Hm|exact Hs].
Defined.

Lemma merge_again_not_interesting_witness :
  exists s' u s'' u', merge shared_new sample = Ok (s', u) /\ is_interesting u = true /\
    merge s' sample = Ok (s'', u') /\ is_interesting u' = false.
Proof.
  destruct (merge shared_new sample) as [[s' u]|e|e] eqn:E; [|vm_compute in E; discriminate E..].
  destruct (merge_again_not_interesting shared_new sample s' u sample_wf sample_compatible E)
    as (s'' & u' & Hm & Hi & _).
  exists s', u, s'', u'. split; [reflexivity|]. split; [|split; [exact Hm|exact Hi]].
  vm_compute in E. injection E as _ Hu. rewrite <- Hu. reflexivity.
Defined.

Lemma edge_markers_distinct_witness :
  edge_marker 3 8 <> call_edge_marker 3 (repeat 17 20).
Proof.
  destruct (edge_markers_distinct 3 8 3 8 3 (repeat 17 20)) as [_ H]; [lia..|exact H].
Defined.
