(* ===== verification/CoverageInspector.v ===== *)
(** * CoverageInspector: collecting coverage during execution

    Models [evm/coverage/inspector.rs]. The hooks of the EVM interpreter are
    the constructors of [Hook]; what a hook reads from the interpreter (code
    hash, code, program counter, opcode, stack) is part of the event. *)
From S2P Require Import Prelude.
From S2P Require Import Env.
From S2P Require Import Coverage.

Definition JUMP : Z := 0x56.
Definition JUMPI : Z := 0x57.

Record Inspector : Type := mkInspector {
  local : ExecutionCoverage;
  current_call_depth : Z;
  current_contract : option CoverageId;
  contract_stack : list (option CoverageId);
  last_pc : nat;
  insp_is_initcode : bool;
}.

Definition new : Inspector := mkInspector execution_new 0 None [] 0 false.

(** [u256_to_usize]: values that do not fit 64 bits give [None]. *)
Definition u256_to_usize (v : U256) : option Z := if v <=? u64_max then Some v else None.

(** The interpreter's view at [initialize_interp] and at [step]. The stack has
    its top at the end, as the interpreter's data slice. *)
Record Interp : Type := mkInterp {
  code_hash : U256;
  code : Bytes;
  target_address : Address;
  pc : nat;
  opcode : Z;
  stack : list U256;
}.

Inductive Hook : Type :=
| InitializeInterp (i : Interp)
| Step (i : Interp)
| CallHook (callee : Bytes)
| CallEnd (is_revert : bool)
| CreateHook
| CreateEnd (is_revert : bool).

Definition set_contract (s : Inspector) (id : CoverageId) (c : ExecutionContractCoverage) : Inspector :=
  mkInspector (mkExecution (<[id := c]> (contracts (local s)))) (current_call_depth s)
    (current_contract s) (contract_stack s) (last_pc s) (insp_is_initcode s).

(** The coverage of the current contract, when there is one. *)
Definition current (s : Inspector) : option (CoverageId * ExecutionContractCoverage) :=
  id ← current_contract s; c ← contracts (local s) !! id; Some (id, c).

Definition revert_update (c : ExecutionContractCoverage) (p : nat) : ExecutionContractCoverage :=
  let word := (p / 64)%nat in
  let bit := Z.of_nat (p mod 64)%nat in
  match reverts c !! word with
  | None => c
  | Some prev =>
      mkExec (edges c) (depths c) (<[word := Z.lor prev (2 ^ bit)]> (reverts c)) (jump_edges c)
        (hit_pcs c) (hit_depths c)
        (if prev =? 0 then hit_reverts c ++ [word] else hit_reverts c) (bytecode c) (is_initcode c)
  end.

Definition record_revert (s : Inspector) : Inspector :=
  match current s with
  | None => s
  | Some (id, c) => set_contract s id (revert_update c (last_pc s))
  end.

Definition initialize_interp (i : Interp) (s : Inspector) : Inspector :=
  if negb (code_hash i =? 0) && negb (bool_decide (code i = [])) then
    let init := insp_is_initcode s in
    let id := if init then Initcode (code_hash i) else Runtime (target_address i) (code_hash i) in
    let fresh :=
      let c := exec_new (length (code i)) in
      mkExec (edges c) (depths c) (reverts c) (jump_edges c) (hit_pcs c) (hit_depths c)
        (hit_reverts c) (code i) init in
    let contracts' :=
      match contracts (local s) !! id with
      | Some _ => contracts (local s)
      | None => <[id := fresh]> (contracts (local s))
      end in
    mkInspector (mkExecution contracts') (current_call_depth s) (Some id)
      (contract_stack s) (last_pc s) false
  else s.

(** [entry(marker).and_modify(saturating_add 1).or_insert(1)] *)
Definition bump (m : gmap Z Z) (marker : Z) : gmap Z Z :=
  match m !! marker with
  | Some c => <[marker := Z.min 255 (c + 1)]> m
  | None => <[marker := 1]> m
  end.

Definition edge_update (p : nat) (c : ExecutionContractCoverage) : ExecutionContractCoverage :=
  match edges c !! p with
  | None => c
  | Some n =>
      mkExec (<[p := Z.min 255 (n + 1)]> (edges c)) (depths c) (reverts c) (jump_edges c)
        (if n =? 0 then hit_pcs c ++ [p] else hit_pcs c) (hit_depths c) (hit_reverts c)
        (bytecode c) (is_initcode c)
  end.

Definition depth_update (p : nat) (call_depth : Z) (c : ExecutionContractCoverage)
    : ExecutionContractCoverage :=
  match depths c !! p with
  | None => c
  | Some d =>
      let depth_mask := 2 ^ Z.min call_depth 63 in
      mkExec (edges c) (<[p := Z.lor d depth_mask]> (depths c)) (reverts c) (jump_edges c)
        (hit_pcs c) (if Z.land d depth_mask =? 0 then hit_depths c ++ [p] else hit_depths c)
        (hit_reverts c) (bytecode c) (is_initcode c)
  end.

Definition jump_update (marker : Z) (c : ExecutionContractCoverage) : ExecutionContractCoverage :=
  mkExec (edges c) (depths c) (reverts c) (bump (jump_edges c) marker) (hit_pcs c)
    (hit_depths c) (hit_reverts c) (bytecode c) (is_initcode c).

(** The branch a step takes: the destination on top of the stack, for [JUMPI]
    only when the condition below it is not zero. [saturating_sub] makes the
    condition of a one-element stack the destination itself. *)
Definition branch_taken (i : Interp) : bool :=
  if opcode i =? JUMPI then
    match stack i !! (length (stack i) - 2)%nat with
    | Some cond => negb (cond =? 0)
    | None => false
    end
  else true.

Definition branch_update (i : Interp) (c : ExecutionContractCoverage) : ExecutionContractCoverage :=
  if (opcode i =? JUMP) || (opcode i =? JUMPI) then
    let dest := v ← last (stack i); u256_to_usize v in
    match branch_taken i, dest with
    | true, Some dst => jump_update (edge_marker (Z.of_nat (pc i)) dst) c
    | _, _ => c
    end
  else c.

Definition set_last_pc (s : Inspector) (p : nat) : Inspector :=
  mkInspector (local s) (current_call_depth s) (current_contract s) (contract_stack s) p
    (insp_is_initcode s).

Definition step (i : Interp) (s : Inspector) : Inspector :=
  let s := set_last_pc s (pc i) in
  match current s with
  | None => s
  | Some (id, c) =>
      set_contract s id
        (branch_update i (depth_update (pc i) (current_call_depth s) (edge_update (pc i) c)))
  end.

(** The depth counter is a [u64]; a push and an increment happen together. *)
Definition call (callee : Bytes) (s : Inspector) : Inspector :=
  let s :=
    match current s with
    | None => s
    | Some (id, c) =>
        set_contract s id (jump_update (call_edge_marker (Z.of_nat (last_pc s)) callee) c)
    end in
  mkInspector (local s) (current_call_depth s + 1) (current_contract s)
    (contract_stack s ++ [current_contract s]) (last_pc s) (insp_is_initcode s).

(** [contract_stack.pop().flatten()] *)
Definition pop_contract (s : Inspector) (init : bool) : Inspector :=
  mkInspector (local s) (sat_sub (current_call_depth s) 1) (mjoin (last (contract_stack s)))
    (removelast (contract_stack s)) (last_pc s) init.

Definition call_end (is_revert : bool) (s : Inspector) : Inspector :=
  let s := if is_revert then record_revert s else s in
  pop_contract s (insp_is_initcode s).

Definition create (s : Inspector) : Inspector :=
  mkInspector (local s) (current_call_depth s + 1) (current_contract s)
    (contract_stack s ++ [current_contract s]) (last_pc s) true.

Definition create_end (is_revert : bool) (s : Inspector) : Inspector :=
  let s := if is_revert then record_revert s else s in
  pop_contract s false.

Definition handle (h : Hook) (s : Inspector) : Inspector :=
  match h with
  | InitializeInterp i => initialize_interp i s
  | Step i => step i s
  | CallHook callee => call callee s
  | CallEnd r => call_end r s
  | CreateHook => create s
  | CreateEnd r => create_end r s
  end.

Definition run (hs : list Hook) (s : Inspector) : Inspector := foldl (fun s h => handle h s) s hs.

Definition into_coverage (s : Inspector) : ExecutionCoverage := local s.

(** ** The local map stays well formed *)
Lemma exec_new_wf n code init :
  let c := exec_new n in
  local_wf (mkExec (edges c) (depths c) (reverts c) (jump_edges c) (hit_pcs c) (hit_depths c)
    (hit_reverts c) code init).
Proof.
  assert (Hz : forall n i, ~ nonzero_at (replicate n 0) i).
  { intros m i (v & [-> _]%lookup_replicate & Hnz). done. }
  split; simpl; rewrite ?length_replicate; try done; intros i; split; try set_solver;
    by intros ?%Hz.
Qed.

(** Updating one cell to a non-zero value and listing it when it was zero
    keeps the list of non-zero cells exact. *)
Lemma hits_insert (l : list Z) (hits : list nat) p n v (listed : bool) :
  (forall i, i ∈ hits <-> nonzero_at l i) -> l !! p = Some n -> v <> 0 ->
  (n = 0 -> listed = true) ->
  forall i, i ∈ (if listed then hits ++ [p] else hits) <-> nonzero_at (<[p := v]> l) i.
Proof.
  intros Hh Hp Hv Hl i. unfold nonzero_at.
  assert (Hlen : (p < length l)%nat) by (by eapply lookup_lt_Some).
  destruct (decide (p = i)) as [->|Hne].
  - rewrite list_lookup_insert_eq by done. split; [eauto|]. intros _.
    destruct listed; [set_solver|]. apply Hh. exists n. split; [done|].
    intros ->. by discriminate Hl.
  - rewrite list_lookup_insert_ne by done. rewrite <- (Hh i). destruct listed; set_solver.
Qed.

Lemma lor_pow2_nonzero a k : 0 <= k -> Z.lor a (2 ^ k) <> 0.
Proof.
  intros Hk H. apply (f_equal (fun z => Z.testbit z k)) in H.
  rewrite Z.lor_spec, Z.pow2_bits_true, orb_true_r, Z.testbit_0_l in H by done. done.
Qed.

Lemma edge_update_wf p c :
  Forall (fun n => 0 <= n) (edges c) -> local_wf c -> local_wf (edge_update p c).
Proof.
  intros Hpos [Hd Hr Hp Hhd Hhr]. unfold edge_update. destruct (edges c !! p) as [n|] eqn:E; [|done].
  assert (0 <= n) by (rewrite Forall_forall in Hpos; apply Hpos; by eapply list_elem_of_lookup_2).
  split; simpl; rewrite ?length_insert; try done.
  eapply hits_insert; [exact Hp|exact E|lia|]. intros ->. done.
Qed.

Lemma depth_update_wf p k c : 0 <= k -> local_wf c -> local_wf (depth_update p k c).
Proof.
  intros Hk [Hd Hr Hp Hhd Hhr]. unfold depth_update. destruct (depths c !! p) as [d|] eqn:E; [|done].
  split; simpl; rewrite ?length_insert; try done.
  eapply hits_insert; [exact Hhd|exact E|apply lor_pow2_nonzero; lia|]. intros ->. done.
Qed.

Lemma revert_update_wf p c : local_wf c -> local_wf (revert_update c p).
Proof.
  intros [Hd Hr Hp Hhd Hhr]. unfold revert_update.
  destruct (reverts c !! (p / 64)%nat) as [prev|] eqn:E; [|done].
  split; simpl; rewrite ?length_insert; try done.
  eapply hits_insert; [exact Hhr|exact E|apply lor_pow2_nonzero; lia|]. intros ->. done.
Qed.

Lemma jump_update_wf m c : local_wf c -> local_wf (jump_update m c).
Proof. intros []. by split. Qed.

Lemma branch_update_wf i c : local_wf c -> local_wf (branch_update i c).
Proof.
  intros Hc. unfold branch_update. case_match; [|done]. case_match; [|done].
  case_match; [|done]. by apply jump_update_wf.
Qed.

(** The inspector's invariant: every local map is well formed, hit counters
    are bytes, the identifier tells initcode from runtime code, the depth
    counter is the height of the contract stack, and every contract the
    inspector can come back to has a map. *)
Record contract_inv (id : CoverageId) (c : ExecutionContractCoverage) : Prop := {
  ci_wf : local_wf c;
  ci_bytes : Forall (fun n => 0 <= n <= 255) (edges c);
  ci_init : is_initcode c = id_is_initcode id;
}.

Definition known (s : Inspector) (o : option CoverageId) : Prop :=
  match o with None => True | Some id => is_Some (contracts (local s) !! id) end.

Record inspector_inv (s : Inspector) : Prop := {
  ii_contracts : map_Forall contract_inv (contracts (local s));
  ii_depth : current_call_depth s = Z.of_nat (length (contract_stack s));
  ii_current : known s (current_contract s);
  ii_stack : Forall (known s) (contract_stack s);
}.

Lemma edge_update_bytes p c :
  Forall (fun n => 0 <= n <= 255) (edges c) ->
  Forall (fun n => 0 <= n <= 255) (edges (edge_update p c)).
Proof.
  intros Hb. unfold edge_update. destruct (edges c !! p) as [n|] eqn:E; [|done]. simpl.
  apply Forall_insert; [done|].
  rewrite Forall_forall in Hb. specialize (Hb n ltac:(by eapply list_elem_of_lookup_2)). lia.
Qed.

Lemma step_contract_inv i k id c :
  0 <= k -> contract_inv id c ->
  contract_inv id (branch_update i (depth_update (pc i) k (edge_update (pc i) c))).
Proof.
  intros Hk [Hwf Hb Hi]. pose proof (edge_update_bytes (pc i) c Hb) as Hb'.
  assert (Hshape : forall c', edges (branch_update i c') = edges c' /\
                              is_initcode (branch_update i c') = is_initcode c').
  { intros c'. unfold branch_update. repeat case_match; done. }
  assert (Hdshape : forall c', edges (depth_update (pc i) k c') = edges c' /\
                               is_initcode (depth_update (pc i) k c') = is_initcode c').
  { intros c'. unfold depth_update. case_match; done. }
  split.
  - apply branch_update_wf, depth_update_wf; [done|]. apply edge_update_wf; [|done].
    eapply Forall_impl; [exact Hb|]. simpl. lia.
  - rewrite (proj1 (Hshape _)), (proj1 (Hdshape _)). done.
  - rewrite (proj2 (Hshape _)), (proj2 (Hdshape _)). unfold edge_update. by case_match.
Qed.

Lemma current_Some s id c :
  current s = Some (id, c) -> current_contract s = Some id /\ contracts (local s) !! id = Some c.
Proof.
  unfold current. destruct (current_contract s) as [id'|]; simpl; [|done].
  destruct (contracts (local s) !! id') eqn:E; simpl; [|done]. naive_solver.
Qed.

Lemma set_contract_inv s id c :
  inspector_inv s -> contract_inv id c -> inspector_inv (set_contract s id c).
Proof.
  intros [Hc Hd Hcur Hst] Hnew.
  assert (Hk : forall o, known s o -> known (set_contract s id c) o).
  { intros [id'|]; [|done]. simpl. intros Hs. apply lookup_insert_is_Some'. by right. }
  split; simpl.
  - by apply map_Forall_insert_2.
  - done.
  - by apply Hk.
  - eapply Forall_impl; [exact Hst|]. apply Hk.
Qed.

Lemma record_revert_inv s : inspector_inv s -> inspector_inv (record_revert s).
Proof.
  intros Hs. unfold record_revert. destruct (current s) as [[id c]|] eqn:E; [|done].
  apply current_Some in E as [_ Hlk]. apply set_contract_inv; [done|].
  destruct (ii_contracts _ Hs _ _ Hlk) as [Hwf Hb Hi].
  split; [by apply revert_update_wf|..]; unfold revert_update; case_match; done.
Qed.

Lemma pop_contract_inv s init : inspector_inv s -> inspector_inv (pop_contract s init).
Proof.
  intros [Hc Hd Hcur Hst]. unfold pop_contract. split; simpl.
  - done.
  - rewrite Hd. destruct (contract_stack s) as [|x l _] using rev_ind; [done|].
    rewrite removelast_last, length_app. simpl. unfold sat_sub. lia.
  - destruct (contract_stack s) as [|x l _] using rev_ind; [done|].
    rewrite last_snoc. simpl. apply Forall_app in Hst as [_ Hx%Forall_cons].
    destruct Hx as [Hx _]. by destruct x.
  - destruct (contract_stack s) as [|x l _] using rev_ind; [done|].
    rewrite removelast_last. by apply Forall_app in Hst as [? _].
Qed.

Lemma push_contract_inv s init :
  inspector_inv s ->
  inspector_inv (mkInspector (local s) (current_call_depth s + 1) (current_contract s)
    (contract_stack s ++ [current_contract s]) (last_pc s) init).
Proof.
  intros [Hc Hd Hcur Hst]. split; simpl; try done.
  - rewrite length_app. simpl. lia.
  - apply Forall_app. split; [done|]. by constructor.
Qed.

Lemma initialize_interp_inv i s : inspector_inv s -> inspector_inv (initialize_interp i s).
Proof.
  intros [Hc Hd Hcur Hst]. unfold initialize_interp. case_match; [|by split].
  set (id := if insp_is_initcode s then _ else _).
  assert (Hid : id_is_initcode id = insp_is_initcode s) by (unfold id; by destruct (insp_is_initcode s)).
  destruct (contracts (local s) !! id) as [c|] eqn:E; simpl.
  - split; simpl; [done|done| |done]. by rewrite E.
  - assert (Hk : forall o, known s o -> match o with None => True
      | Some id' => is_Some (<[id := mkExec (edges (exec_new (length (code i))))
          (depths (exec_new (length (code i)))) (reverts (exec_new (length (code i)))) ∅ [] [] []
          (code i) (insp_is_initcode s)]> (contracts (local s)) !! id') end).
    { intros [id'|]; [|done]. simpl. intros Hs. apply lookup_insert_is_Some'. by right. }
    split; simpl; [|done| |].
    + apply map_Forall_insert_2; [|done]. split; [apply exec_new_wf| |done].
      apply Forall_replicate. lia.
    + apply lookup_insert_is_Some'. by left.
    + eapply Forall_impl; [exact Hst|]. intros o Ho. specialize (Hk o Ho). by destruct o.
Qed.

Lemma handle_inv h s : inspector_inv s -> inspector_inv (handle h s).
Proof.
  intros Hs. destruct h as [i|i|callee|r| |r]; simpl.
  - by apply initialize_interp_inv.
  - unfold step. assert (Hs' : inspector_inv (set_last_pc s (pc i))) by (destruct Hs; by split).
    destruct (current _) as [[id c]|] eqn:E; [|done]. apply current_Some in E as [_ Hlk].
    apply set_contract_inv; [done|]. apply step_contract_inv; [rewrite (ii_depth _ Hs'); lia|].
    by apply (ii_contracts _ Hs').
  - unfold call. apply push_contract_inv. destruct (current s) as [[id c]|] eqn:E; [|done].
    apply current_Some in E as [_ Hlk]. apply set_contract_inv; [done|].
    destruct (ii_contracts _ Hs _ _ Hlk) as [Hwf Hb Hi]. split; [by apply jump_update_wf|done|done].
  - unfold call_end. apply pop_contract_inv. destruct r; [by apply record_revert_inv|done].
  - by apply push_contract_inv.
  - unfold create_end. apply pop_contract_inv. destruct r; [by apply record_revert_inv|done].
Qed.

Lemma new_inv : inspector_inv new.
Proof. split; simpl; [apply map_Forall_empty|done|done|constructor]. Qed.

(** ** Properties *)

(** C12: whatever hooks the interpreter calls, in whatever order, the collected
    map is well formed (its hit lists name exactly the non-zero cells, counters
    stay bytes, an initcode flag agrees with its identifier) and the depth
    counter is the height of the contract stack. *)
Theorem inspector_invariant hs :
  inspector_inv (run hs new) /\ execution_wf (into_coverage (run hs new)).
Proof.
  assert (H : inspector_inv (run hs new)).
  { unfold run. generalize new_inv. generalize new. induction hs as [|h hs IH]; intros s Hs; [done|].
    simpl. by apply IH, handle_inv. }
  split; [done|]. intros id c Hc. by apply (ii_contracts _ H) in Hc as [? _ _].
Qed.
