(* ===== verification/ChainApi.v ===== *)
(** * ChainApi: what the fuzzers use of a chain

    Models [evm/chain/exec.rs]. The maximizer and the tester run sequences
    through [Chain::exec] only, so they are written against this interface;
    [Chain] implements it. *)
From S2P Require Import Prelude.
From S2P Require Import Env.
From S2P Require Import Transaction.
From S2P Require Import Coverage.

Record ExecOutput (Trace : Type) : Type := mkExecOutput {
  results : list TransactionResult;
  trace : option Trace;
  coverage : option ExecutionCoverage;
  broken_invariants : list (list BrokenInvariant);
}.
Arguments mkExecOutput {Trace}.
Arguments results {Trace}.
Arguments trace {Trace}.
Arguments coverage {Trace}.
Arguments broken_invariants {Trace}.

Class ChainOps (Chain Trace : Type) : Type := {
  exec : list Transaction -> M Chain (ExecOutput Trace);
  set_trace : bool -> Chain -> Chain;
  coverage_enabled : Chain -> bool;
}.

(** What [exec] promises: one result and one list of reports per transaction,
    the reports being those of the result, and coverage when it is enabled. *)
Class ChainLaws (Chain Trace : Type) `{ChainOps Chain Trace, BrokenInvariantError} : Prop := {
  exec_results_length : forall txs c o c',
    exec txs c = (Ok o, c') -> length (results o) = length txs;
  exec_broken : forall txs c o c',
    exec txs c = (Ok o, c') ->
    broken_invariants o = map (fun r => option_list (broken_invariant r)) (results o);
  exec_coverage : forall txs c o c',
    exec txs c = (Ok o, c') -> (is_Some (coverage o) <-> coverage_enabled c = true);
  exec_coverage_enabled : forall txs c o c',
    exec txs c = (Ok o, c') -> coverage_enabled c' = coverage_enabled c;
}.

(** A chain whose executions return what a function of the transactions says,
    used by the witnesses: the state is the list of transactions run so far. *)
Module ScriptedChain.
Section Scripted.
Context (reply : list Transaction -> Transaction -> TransactionResult).
Context `{BrokenInvariantError}.

Fixpoint run (txs history : list Transaction) : list TransactionResult :=
  match txs with
  | [] => []
  | tx :: txs' => reply history tx :: run txs' (history ++ [tx])
  end.

Definition scripted_exec (txs : list Transaction) : M (list Transaction) (ExecOutput unit) :=
  fun history =>
    let rs := run txs history in
    (Ok (mkExecOutput rs None (Some execution_new)
           (map (fun r => option_list (broken_invariant r)) rs)),
     history ++ txs).

Definition ops : ChainOps (list Transaction) unit :=
  {| exec := scripted_exec; set_trace _ c := c; coverage_enabled _ := true |}.

Lemma run_length txs history : length (run txs history) = length txs.
Proof. revert history. induction txs; intros; simpl; auto. Qed.

Lemma laws : @ChainLaws _ _ ops _.
Proof.
  split; simpl; unfold scripted_exec; intros txs c o c' [= <- <-]; simpl; try done.
  apply run_length.
Qed.
End Scripted.
End ScriptedChain.
