(* ===== verification/Chain.v ===== *)
(** * Chain: EVM state and executor

    Models [evm/chain/mod.rs], [deploy.rs], [setup.rs] and the linking half of
    [linker.rs]. The EVM itself is a parameter: [inspect_tx_commit] runs one
    transaction over a database, the environments and an inspector. *)
From S2P Require Import Prelude.
From S2P Require Import Env.
From S2P Require Import Transaction.
From S2P Require Import Coverage.
From S2P Require Import CoverageInspector.
From S2P Require Import ChainApi.

(** ** revm *)
Inductive TxKind : Type := Create | Call (target : Address).

Record TxEnv : Type := mkTxEnv {
  tx_caller : Address;
  kind : TxKind;
  data : Bytes;
  tx_gas_limit : Z;
  tx_amount : U256;
  tx_chain_id : option Z;
}.

Record Evm (Database BlockEnv CfgEnv I : Type) : Type := mkEvm {
  evm_db : Database;
  evm_block : BlockEnv;
  evm_cfg : CfgEnv;
  inspector : I;
}.
Arguments mkEvm {Database BlockEnv CfgEnv I}.
Arguments evm_db {Database BlockEnv CfgEnv I}.
Arguments evm_block {Database BlockEnv CfgEnv I}.
Arguments evm_cfg {Database BlockEnv CfgEnv I}.
Arguments inspector {Database BlockEnv CfgEnv I}.

(** [RevmInspector I] is the inspector trait; revm implements it for pairs,
    for [Either] and for its no-op inspector. A transaction returns its result
    with the time it took and the thread's RPC counters before and after. *)
Class Revm (Database BlockEnv CfgEnv : Type) : Type := {
  RevmInspector : Type -> Type;
  insp_pair : forall A B, RevmInspector A -> RevmInspector B -> RevmInspector (A * B);
  insp_option : forall A, RevmInspector A -> RevmInspector (option A);
  inspect_tx_commit : forall I, RevmInspector I -> TxEnv ->
    M (Evm Database BlockEnv CfgEnv I) (ExecutionResult * Z * RpcStats * RpcStats);
  cfg_chain_id : CfgEnv -> Z;
}.
Arguments insp_pair {Database BlockEnv CfgEnv Revm A B}.
Arguments insp_option {Database BlockEnv CfgEnv Revm A}.
Arguments inspect_tx_commit {Database BlockEnv CfgEnv Revm I}.


(** ** Linking *)

(** [str::replace] for a non-empty pattern: leftmost, non-overlapping. *)
Fixpoint replace_from (skip : nat) (pat by_ s : string) : string :=
  match s with
  | EmptyString => EmptyString
  | String a s' =>
      match skip with
      | S k => replace_from k pat by_ s'
      | O => if String.prefix pat s then by_ +:+ replace_from (String.length pat - 1) pat by_ s'
             else String a (replace_from 0 pat by_ s')
      end
  end.
Definition str_replace (pat by_ s : string) : string := replace_from 0 pat by_ s.

Section Linker.
Context `{Keccak} `{Text}.

Definition get_library_placeholder (identifier : string) : string :=
  "__$" +:+ String.substring 0 34 (hex_encode (keccak256 identifier)) +:+ "$__".

(** The library map is iterated in an unspecified order. *)
Definition link_libraries (initcode : string) (libraries : gmap string Address) : string :=
  foldl (fun hex '(identifier, addr) =>
    str_replace (get_library_placeholder identifier) (hex_encode (be_bytes 20 addr)) hex)
    initcode (map_to_list libraries).
End Linker.

(** ** Deployment inputs *)
Inductive DeployLibraryInput : Type :=
| mkLibrary (id : string) (initcode : string) (libraries : list DeployLibraryInput).

Definition lib_id (l : DeployLibraryInput) : string := let '(mkLibrary i _ _) := l in i.
Definition lib_initcode (l : DeployLibraryInput) : string := let '(mkLibrary _ c _) := l in c.
Definition lib_libraries (l : DeployLibraryInput) : list DeployLibraryInput :=
  let '(mkLibrary _ _ ls) := l in ls.

Definition library_new (id initcode : string) : DeployLibraryInput := mkLibrary id initcode [].
Definition library_add (l nested : DeployLibraryInput) : DeployLibraryInput :=
  mkLibrary (lib_id l) (lib_initcode l) (lib_libraries l ++ [nested]).

Record DeployInput : Type := mkDeployInput {
  di_caller : Address;
  di_value : U256;
  di_initcode : string;
  di_libraries : list DeployLibraryInput;
  di_gas_limit : Z;
}.

Definition deploy_input_new (initcode : string) : DeployInput :=
  mkDeployInput DEFAULT_DEPLOYER 0 initcode [] u64_max.

Record SetupInput : Type := mkSetupInput {
  si_caller : Address;
  si_target : Address;
  si_calldata : Bytes;
  si_value : U256;
  si_gas_limit : Z;
}.

(** [setup_calldata] is the ABI encoding of [setup()]. *)
Definition setup_input_new (setup_calldata : Bytes) (target : Address) : SetupInput :=
  mkSetupInput DEFAULT_DEPLOYER target setup_calldata 0 u64_max.

Record DeployLibraryOutput : Type := mkLibraryOutput { lo_id : string; lo_address : Address }.

(** ** The chain *)
Section Chain.
Context {Database BlockEnv CfgEnv : Type} `{Revm Database BlockEnv CfgEnv}.
Context `{Keccak} `{Text} `{BytesText} `{BrokenInvariantError}.
(** The cheatcode inspector with its state, the local-address tracker and the
    trace inspector with its result. *)
Context {CheatState CheatInspector Tracker TraceInspector Trace : Type}.
Context (cheat_from_state : CheatState -> CheatInspector).
Context (cheat_state : CheatInspector -> CheatState).
Context (tracker_new : Tracker) (trace_new : TraceInspector).
Context (into_trace : TraceInspector -> Trace).
Context (cheat_trait : RevmInspector CheatInspector) (tracker_trait : RevmInspector Tracker).
Context (trace_trait : RevmInspector TraceInspector).
Context (coverage_trait : RevmInspector CoverageInspector.Inspector).

Record Chain : Type := mkChain {
  database : option Database;
  cfg_env : CfgEnv;
  block_env : BlockEnv;
  deployer : Address;
  trace_enabled : bool;
  coverage_on : bool;
  cheatcode_state : CheatState;
}.

Definition set_env (c : Chain) (db : option Database) (b : BlockEnv) (cfg : CfgEnv) : Chain :=
  mkChain db cfg b (deployer c) (trace_enabled c) (coverage_on c) (cheatcode_state c).

Definition set_cheat (c : Chain) (s : CheatState) : Chain :=
  mkChain (database c) (cfg_env c) (block_env c) (deployer c) (trace_enabled c) (coverage_on c) s.

Definition chain_set_trace (enabled : bool) (c : Chain) : Chain :=
  mkChain (database c) (cfg_env c) (block_env c) (deployer c) enabled (coverage_on c)
    (cheatcode_state c).

(** [self.database.take()] leaves the chain without a database until the EVM
    hands it back. *)
Definition take_database (c : Chain) : Chain := set_env c None (block_env c) (cfg_env c).

Definition build {I} (c : Chain) (db : Database) (i : I) : Evm Database BlockEnv CfgEnv I :=
  mkEvm db (block_env c) (cfg_env c) i.

(** [inspect]: one transaction with an inspector. An engine error returns
    before the database is put back. *)
Definition inspect {I} (tr : RevmInspector I) (tx : TxEnv) (i : I)
    : M Chain (TransactionResult * I) := fun c =>
  match database c with
  | None => (Err "database unavailable", c)
  | Some db =>
      match inspect_tx_commit tr tx (build c db i) with
      | (Ok (r, _, _, _), evm) =>
          (Ok (result_from r, inspector evm),
           set_env c (Some (evm_db evm)) (evm_block evm) (evm_cfg evm))
      | (Err _, _) => (Err "revm transaction failed", take_database c)
      | (Panic p, _) => (Panic p, take_database c)
      end
  end.

Definition transact (tx : TxEnv) : M Chain TransactionResult := fun c =>
  match inspect tracker_trait tx tracker_new c with
  | (Ok (r, _), c') => (Ok r, c')
  | (Err e, c') =>
      (Err (if bool_decide (e = "revm transaction failed") then "transact_commit failed" else e), c')
  | (Panic p, c') => (Panic p, c')
  end.

Definition call (clr tgt : Address) (v : U256) (d : Bytes) : M Chain TransactionResult :=
  fun c => transact (mkTxEnv clr (Call tgt) d u64_max v (Some (cfg_chain_id (cfg_env c)))) c.

Record DeployOutput : Type := mkDeployOutput {
  do_address : option Address;
  do_libraries : list DeployLibraryOutput;
  do_result : TransactionResult;
  do_trace : Trace;
  do_coverage : ExecutionCoverage;
}.

Record SetupOutput : Type := mkSetupOutput {
  so_result : TransactionResult;
  so_trace : Trace;
  so_coverage : ExecutionCoverage;
}.

(** The inspector of deployments and of setup: trace, cheatcodes, tracker and
    coverage, nested as the source nests them. *)
Definition deploy_inspector (c : Chain)
    : TraceInspector * CheatInspector * Tracker * CoverageInspector.Inspector :=
  (trace_new, cheat_from_state (cheatcode_state c), tracker_new, CoverageInspector.new).

Definition deploy_trait
    : RevmInspector (TraceInspector * CheatInspector * Tracker * CoverageInspector.Inspector) :=
  insp_pair (insp_pair (insp_pair trace_trait cheat_trait) tracker_trait) coverage_trait.

Definition deploy_raw (clr : Address) (v : U256) (code : Bytes) (gas : Z) : M Chain DeployOutput :=
  fun c =>
    let tx := mkTxEnv clr Create code gas v (Some (cfg_chain_id (cfg_env c))) in
    match inspect deploy_trait tx (deploy_inspector c) c with
    | (Ok (r, (tr, ch, _, cov)), c') =>
        (Ok (mkDeployOutput (created_address r) [] r (into_trace tr)
               (CoverageInspector.into_coverage cov)),
         set_cheat c' (cheat_state ch))
    | (Err e, c') => (Err e, c')
    | (Panic p, c') => (Panic p, c')
    end.

Definition setup (opts : SetupInput) : M Chain SetupOutput := fun c =>
  let tx := mkTxEnv (si_caller opts) (Call (si_target opts)) (si_calldata opts)
              (si_gas_limit opts) (si_value opts) (Some (cfg_chain_id (cfg_env c))) in
  match inspect deploy_trait tx (deploy_inspector c) c with
  | (Ok (r, (tr, ch, _, cov)), c') =>
      (Ok (mkSetupOutput r (into_trace tr) (CoverageInspector.into_coverage cov)),
       set_cheat c' (cheat_state ch))
  | (Err e, c') => (Err e, c')
  | (Panic p, c') => (Panic p, c')
  end.

(** [initcode.parse().unwrap_or_default()] *)
Definition parse_initcode (s : string) : Bytes := default [] (ok (bytes_parse s)).

(** The library itself, once its dependencies are deployed: an identifier that
    is already deployed is not deployed again. *)
Definition deploy_resolved (identifier code : string) (dep : Address)
    : M (gmap string Address * Chain) DeployLibraryOutput := fun '(addrs, c) =>
  match addrs !! identifier with
  | Some addr => (Ok (mkLibraryOutput identifier addr), (addrs, c))
  | None =>
      match deploy_raw dep 0 (parse_initcode (link_libraries code addrs)) u64_max c with
      | (Ok o, c') =>
          if success (do_result o) then
            match do_address o with
            | Some addr =>
                (Ok (mkLibraryOutput identifier addr), (<[identifier := addr]> addrs, c'))
            | None => (Err "library deployment missing address", (addrs, c'))
            end
          else (Err "library deployment failed", (addrs, c'))
      | (Err e, c') => (Err e, (addrs, c'))
      | (Panic p, c') => (Panic p, (addrs, c'))
      end
  end.

(** Nested dependencies first. The map of deployed addresses is shared by the
    whole recursion. *)
Fixpoint deploy_library (dep : Address) (lib : DeployLibraryInput)
    : M (gmap string Address * Chain) DeployLibraryOutput :=
  match lib with
  | mkLibrary identifier code nested =>
      _ ← mapMM (deploy_library dep) nested;
      deploy_resolved identifier code dep
  end.

Definition deploy_libraries (libs : list DeployLibraryInput) (dep : Address)
    : M Chain (gmap string Address) := fun c =>
  match mapMM (deploy_library dep) libs (∅, c) with
  | (Ok _, (addrs, c')) => (Ok addrs, c')
  | (Err e, (_, c')) => (Err e, c')
  | (Panic p, (_, c')) => (Panic p, c')
  end.

Definition deploy (opts : DeployInput) : M Chain DeployOutput :=
  library_addrs ← deploy_libraries (di_libraries opts) (di_caller opts);
  let initcode :=
    if bool_decide (library_addrs = ∅) then di_initcode opts
    else link_libraries (di_initcode opts) library_addrs in
  output ← deploy_raw (di_caller opts) (di_value opts) (parse_initcode initcode)
             (di_gas_limit opts);
  mret (mkDeployOutput (do_address output)
    (map (fun '(id, a) => mkLibraryOutput id a) (map_to_list library_addrs))
    (do_result output) (do_trace output) (do_coverage output)).

(** ** [exec] *)
Definition ExecInspector : Type :=
  CheatInspector * Tracker * (option TraceInspector * option CoverageInspector.Inspector).

Definition exec_trait : RevmInspector ExecInspector :=
  insp_pair (insp_pair cheat_trait tracker_trait)
    (insp_pair (insp_option trace_trait) (insp_option coverage_trait)).

Definition exec_inspector (c : Chain) : ExecInspector :=
  (cheat_from_state (cheatcode_state c), tracker_new,
   (if trace_enabled c then Some trace_new else None,
    if coverage_on c then Some CoverageInspector.new else None)).

Definition tx_env (tx : Transaction) (cfg : CfgEnv) : TxEnv :=
  mkTxEnv (caller tx) (Call (target tx)) (calldata tx) (gas_limit tx) (tx_value tx)
    (Some (cfg_chain_id cfg)).

Definition measured (m : ExecutionResult * Z * RpcStats * RpcStats) : TransactionResult :=
  let '(r, time, before, after) := m in
  let t := result_from r in
  mkResult (success t) (gas_used t) (output t) (logs t) (created_address t) time
    (rpc_saturating_sub after before).

(** The loop reuses one EVM, so cheatcode effects carry from one transaction
    to the next. *)
Fixpoint exec_loop (txs : list Transaction)
    : M (Evm Database BlockEnv CfgEnv ExecInspector)
        (list (TransactionResult * list BrokenInvariant)) :=
  match txs with
  | [] => mret []
  | tx :: txs' => fun evm =>
      match inspect_tx_commit exec_trait (tx_env tx (evm_cfg evm)) evm with
      | (Ok m, evm') =>
          let r := measured m in
          (rest ← exec_loop txs'; mret ((r, option_list (broken_invariant r)) :: rest)) evm'
      | (Err _, evm') => (Err "revm transaction failed", evm')
      | (Panic p, evm') => (Panic p, evm')
      end
  end.

Definition chain_exec (txs : list Transaction) : M Chain (ExecOutput Trace) := fun c =>
  match database c with
  | None => (Err "database unavailable", c)
  | Some db =>
      match exec_loop txs (build c db (exec_inspector c)) with
      | (Ok rs, evm) =>
          let '(_, _, (tr, cov)) := inspector evm in
          (Ok (mkExecOutput (map fst rs) (into_trace <$> tr)
                 (CoverageInspector.into_coverage <$> cov) (map snd rs)),
           set_env c (Some (evm_db evm)) (evm_block evm) (evm_cfg evm))
      | (Err e, _) => (Err e, take_database c)
      | (Panic p, _) => (Panic p, take_database c)
      end
  end.

#[export] Instance chain_ops : ChainOps Chain Trace :=
  {| exec := chain_exec; ChainApi.set_trace := chain_set_trace;
     ChainApi.coverage_enabled := coverage_on |}.

(** ** Library deployment *)
Fixpoint lib_ids (lib : DeployLibraryInput) : gset string :=
  match lib with
  | mkLibrary identifier _ nested =>
      {[ identifier ]} ∪ foldr (fun l acc => lib_ids l ∪ acc) ∅ nested
  end.

Definition libs_ids (libs : list DeployLibraryInput) : gset string :=
  foldr (fun l acc => lib_ids l ∪ acc) ∅ libs.

Lemma DeployLibraryInput_ind' (P : DeployLibraryInput -> Prop) :
  (forall i c ls, Forall P ls -> P (mkLibrary i c ls)) -> forall l, P l.
Proof.
  intros Hstep. fix IH 1. intros [i c ls]. apply Hstep.
  induction ls as [|l ls IHls]; constructor; [exact (IH l)|exact IHls].
Qed.

(** What a deployment step does to the shared map: it only adds, and it adds
    exactly the given identifiers. *)
Definition grows (ids : gset string) (addrs addrs' : gmap string Address) : Prop :=
  addrs ⊆ addrs' /\ dom addrs' = dom addrs ∪ ids.

Lemma deploy_resolved_Ok i code dep addrs c o addrs' c' :
  deploy_resolved i code dep (addrs, c) = (Ok o, (addrs', c')) ->
  grows {[ i ]} addrs addrs' /\ lo_id o = i /\ addrs' !! i = Some (lo_address o).
Proof.
  unfold deploy_resolved, grows. destruct (addrs !! i) as [addr|] eqn:E.
  - intros [= <- <- <-]. assert (i ∈ dom addrs) by (apply elem_of_dom; eauto).
    split; [|done]. split; [done|]. set_solver.
  - destruct (deploy_raw _ _ _ _ _) as [[d|e|p] c1]; [|done..].
    destruct (success (do_result d)); [|done]. destruct (do_address d) as [addr|]; [|done].
    intros [= <- <- <-]. rewrite lookup_insert_eq. split; [|done].
    split; [by apply insert_subseteq|]. rewrite dom_insert_L. set_solver.
Qed.

Lemma deploy_list_Ok dep libs :
  Forall (fun l => forall addrs c o addrs' c',
    deploy_library dep l (addrs, c) = (Ok o, (addrs', c')) -> grows (lib_ids l) addrs addrs') libs ->
  forall addrs c os addrs' c',
    mapMM (deploy_library dep) libs (addrs, c) = (Ok os, (addrs', c')) ->
    grows (libs_ids libs) addrs addrs'.
Proof.
  induction 1 as [|l ls Hl _ IH]; intros addrs c os addrs' c' Hm; simpl in *.
  - inv_ok. split; [done|]. set_solver.
  - apply M_bind_Ok in Hm as (o & [addrs1 c1] & Ho & Hm).
    apply M_bind_Ok in Hm as (os' & [addrs2 c2] & Hos & Hr). inv_ok.
    destruct (Hl _ _ _ _ _ Ho) as [Hs1 Hd1], (IH _ _ _ _ _ Hos) as [Hs2 Hd2].
    split; [by etrans|]. rewrite Hd2, Hd1. simpl. set_solver.
Qed.

Lemma deploy_library_Ok dep lib : forall addrs c o addrs' c',
  deploy_library dep lib (addrs, c) = (Ok o, (addrs', c')) ->
  grows (lib_ids lib) addrs addrs' /\ lo_id o = lib_id lib /\
  addrs' !! lib_id lib = Some (lo_address o).
Proof.
  induction lib as [i code ls IH] using DeployLibraryInput_ind'.
  intros addrs c o addrs' c' Hd. simpl in Hd.
  apply M_bind_Ok in Hd as (os & [addrs1 c1] & Hos & Hr).
  apply (deploy_list_Ok dep ls) in Hos as [Hs1 Hd1].
  - apply deploy_resolved_Ok in Hr as ([Hs2 Hd2] & Hid & Hlk).
    split; [|done]. split; [by etrans|]. rewrite Hd2, Hd1. simpl. unfold libs_ids. set_solver.
  - eapply Forall_impl; [exact IH|]. intros l Hl ????? Hr'. by eapply Hl.
Qed.

Lemma deploy_libraries_Ok libs dep c addrs c' :
  deploy_libraries libs dep c = (Ok addrs, c') -> dom addrs = libs_ids libs.
Proof.
  unfold deploy_libraries.
  destruct (mapMM _ libs (∅, c)) as [[os|e|p] [addrs1 c1]] eqn:E; [|done..].
  intros [= <- <-]. apply (deploy_list_Ok dep libs) in E as [_ Hd].
  - rewrite Hd, dom_empty_L. set_solver.
  - apply Forall_forall. intros l _ ????? Hl. by apply deploy_library_Ok in Hl as [? _].
Qed.

(** ** [exec] *)
Lemma exec_loop_length txs evm rs evm' :
  exec_loop txs evm = (Ok rs, evm') -> length rs = length txs.
Proof.
  revert evm rs. induction txs as [|tx txs IH]; intros evm rs Hr; simpl in Hr; [by inv_ok|].
  destruct (inspect_tx_commit _ _ _) as [[m|e|p] evm1]; [|done..].
  inv_ok. simpl. f_equal. by eapply IH.
Qed.

Lemma exec_loop_broken txs evm rs evm' :
  exec_loop txs evm = (Ok rs, evm') ->
  map snd rs = map (fun r => option_list (broken_invariant r)) (map fst rs).
Proof.
  revert evm rs. induction txs as [|tx txs IH]; intros evm rs Hr; simpl in Hr; [by inv_ok|].
  destruct (inspect_tx_commit _ _ _) as [[m|e|p] evm1]; [|done..].
  inv_ok. simpl. f_equal. by eapply IH.
Qed.

(** An inspector that is an [Either] keeps its variant while the EVM runs. *)
Hypothesis variant_kept : forall tx (evm : Evm Database BlockEnv CfgEnv ExecInspector) m evm',
  inspect_tx_commit exec_trait tx evm = (Ok m, evm') ->
  is_Some (inspector evm').2.2 <-> is_Some (inspector evm).2.2.

Lemma exec_loop_coverage txs evm rs evm' :
  exec_loop txs evm = (Ok rs, evm') ->
  is_Some (inspector evm').2.2 <-> is_Some (inspector evm).2.2.
Proof.
  revert evm rs. induction txs as [|tx txs IH]; intros evm rs Hr; simpl in Hr; [by inv_ok|].
  destruct (inspect_tx_commit _ _ _) as [[m|e|p] evm1] eqn:E; [|done..].
  inv_ok. rewrite (IH _ _ ltac:(eassumption)). by eapply variant_kept.
Qed.

Lemma chain_exec_Ok txs c o c' :
  chain_exec txs c = (Ok o, c') ->
  exists db rs evm, database c = Some db /\
    exec_loop txs (build c db (exec_inspector c)) = (Ok rs, evm) /\
    results o = map fst rs /\ broken_invariants o = map snd rs /\
    coverage o = CoverageInspector.into_coverage <$> (inspector evm).2.2 /\
    c' = set_env c (Some (evm_db evm)) (evm_block evm) (evm_cfg evm).
Proof.
  unfold chain_exec. destruct (database c) as [db|]; [|done].
  destruct (exec_loop txs _) as [[rs|e|p] evm] eqn:El; [|done..].
  destruct (inspector evm) as [[ch tk] [tr cov]] eqn:Ei. intros [= <- <-].
  exists db, rs, evm. rewrite Ei. by repeat split.
Qed.

Lemma chain_laws_aux : ChainLaws Chain Trace.
Proof.
  split; intros txs c o c' (db & rs & evm & Hdb & Hl & Hr & Hb & Hc & ->)%chain_exec_Ok.
  - rewrite Hr, length_map. by eapply exec_loop_length.
  - rewrite Hb, Hr. by eapply exec_loop_broken.
  - rewrite Hc, fmap_is_Some, (exec_loop_coverage _ _ _ _ Hl). unfold build, exec_inspector. simpl.
    destruct (coverage_on c); split; naive_solver.
  - done.
Qed.

(** ** Properties *)

(** [Chain::exec] keeps the promises the fuzzers rely on: one result and
    one list of reports per transaction, reports read off the results, and
    coverage exactly when it is enabled. *)
Theorem chain_implements_api : ChainLaws Chain Trace.
Proof. apply chain_laws_aux. Qed.

(** an execution that fails with an engine error loses the database: it is
    moved into the EVM and only put back on success, so every later execution
    of the same chain fails with "database unavailable". *)
Theorem exec_failure_poisons_chain txs c e c' :
  chain_exec txs c = (Err e, c') ->
  database c' = None /\ forall txs', chain_exec txs' c' = (Err "database unavailable", c').
Proof.
  intros He. assert (Hdb : database c' = None).
  { unfold chain_exec in He. destruct (database c) as [db|] eqn:Ed; [|by simplify_eq].
    destruct (exec_loop txs _) as [[rs|e'|p] evm]; [|by simplify_eq..].
    destruct (inspector evm) as [[ch tk] [tr cov]]. done. }
  split; [done|]. intros txs'. unfold chain_exec. by rewrite Hdb.
Qed.

(** [exec] leaves the saved cheatcode state as it was, whatever the
    transactions did and however the run ended: a label or a running prank set
    in one [exec] is gone in the next. *)
Theorem exec_keeps_cheatcode_state txs c :
  cheatcode_state (chain_exec txs c).2 = cheatcode_state c.
Proof.
  unfold chain_exec. destruct (database c) as [db|]; [|done].
  destruct (exec_loop txs _) as [[rs|e'|p] evm]; [|done..].
  by destruct (inspector evm) as [[ch tk] [tr cov]].
Qed.

(** a successful library deployment has an address for exactly the
    libraries of the input and of their nested dependencies; within the
    recursion the map of addresses only grows, so a shared dependency keeps
    the address of its first deployment. *)
Theorem deploy_libraries_complete libs dep c addrs c' :
  deploy_libraries libs dep c = (Ok addrs, c') ->
  dom addrs = libs_ids libs /\
  forall lib addrs0 c0 o addrs1 c1,
    deploy_library dep lib (addrs0, c0) = (Ok o, (addrs1, c1)) ->
    addrs0 ⊆ addrs1 /\ addrs1 !! lib_id lib = Some (lo_address o) /\
    dom addrs1 = dom addrs0 ∪ lib_ids lib.
Proof.
  intros Hd. split; [by eapply deploy_libraries_Ok|].
  intros lib addrs0 c0 o addrs1 c1 ([Hs Hd1] & _ & Hlk)%deploy_library_Ok. done.
Qed.
End Chain.

(** ** A small engine for the witnesses: the database counts transactions, a
    zero gas limit is an engine error, a creation returns the address 100 plus
    the count. *)
Module ToyChain.
Definition toy_commit (I : Type) (_ : unit) (tx : TxEnv)
    : M (Evm Z unit Z I) (ExecutionResult * Z * RpcStats * RpcStats) := fun evm =>
  if tx_gas_limit tx =? 0 then (Err "engine", evm)
  else
    let out := match kind tx with
               | Create => OutCreate [] (Some (100 + evm_db evm))
               | Call _ => OutCall []
               end in
    (Ok (Success 1 [] out, 0, rpc_default, rpc_default),
     mkEvm (evm_db evm + 1) (evm_block evm) (evm_cfg evm) (inspector evm)).

#[export] Instance toy_revm : Revm Z unit Z := {
  RevmInspector _ := unit;
  insp_pair _ _ _ _ := tt;
  insp_option _ _ := tt;
  inspect_tx_commit I := toy_commit I;
  cfg_chain_id c := c;
}.

#[export] Instance toy_keccak : Keccak := { keccak256 _ := [1; 2; 3] }.
#[export] Instance toy_bytes : BytesText := { bytes_parse _ := Ok [] }.
#[export] Instance toy_text : Text := {
  u256_to_string _ := ""; u256_parse _ := Ok 0; hex_encode _ := ""; hex_decode _ := Ok [];
}.
#[export] Instance toy_bie : BrokenInvariantError := {
  SELECTOR := [1; 2; 3; 4]; bie_decode _ := Some ("INV"%string, ""%string);
}.

Definition toy_exec : list Transaction -> M (Chain (Database := Z) (BlockEnv := unit) (CfgEnv := Z)
    (CheatState := unit)) (ExecOutput unit) :=
  chain_exec (fun _ => tt) tt tt (fun _ => tt) tt tt tt tt (CheatInspector := unit)
    (Tracker := unit) (TraceInspector := unit).

Definition toy_chain : Chain (Database := Z) (BlockEnv := unit) (CfgEnv := Z) (CheatState := unit) :=
  mkChain (Some 0) 1 tt DEFAULT_DEPLOYER false true tt.

Definition bad_tx : Transaction := with_gas_limit (Transaction_new 5) 0.
End ToyChain.

Import ToyChain.

Lemma exec_failure_poisons_chain_witness :
  exists e c', toy_exec [Transaction_new 5; bad_tx] toy_chain = (Err e, c') /\ database c' = None.
Proof.
  destruct (toy_exec [Transaction_new 5; bad_tx] toy_chain) as [[o|e|p] c'] eqn:E;
    [vm_compute in E; discriminate E| |vm_compute in E; discriminate E].
  exists e, c'. split; [reflexivity|].
  exact (proj1 (exec_failure_poisons_chain _ _ _ _ _ _ _ _ _ _ _ _ E)).
Defined.

Lemma chain_implements_api_witness :
  @ChainLaws _ unit (chain_ops (fun _ => tt) tt tt (fun _ => tt) tt tt tt tt
    (Database := Z) (BlockEnv := unit) (CfgEnv := Z) (CheatState := unit)
    (CheatInspector := unit) (Tracker := unit) (TraceInspector := unit)) _.
Proof.
  apply chain_implements_api. intros tx evm m evm' H. simpl in H. unfold toy_commit in H.
  destruct (tx_gas_limit tx =? 0); [discriminate H|]. injection H as _ <-. reflexivity.
Defined.

Definition lib_math : DeployLibraryInput := mkLibrary "math" "60" [].
Definition lib_pool : DeployLibraryInput := mkLibrary "pool" "61" [lib_math].

Definition toy_deploy_libraries : list DeployLibraryInput -> Address ->
    M (Chain (Database := Z) (BlockEnv := unit) (CfgEnv := Z) (CheatState := unit))
      (gmap string Address) :=
  deploy_libraries (fun _ => tt) (fun _ => tt) tt tt (fun _ => tt) tt tt tt tt (CheatInspector := unit)
    (Tracker := unit) (TraceInspector := unit).

Lemma deploy_libraries_complete_witness :
  exists addrs c', toy_deploy_libraries [lib_pool; lib_math] 7 toy_chain = (Ok addrs, c') /\
    addrs !! "math"%string = Some 100 /\ addrs !! "pool"%string = Some 101 /\
    dom addrs = libs_ids [lib_pool; lib_math].
Proof.
  assert (Hok : match (toy_deploy_libraries [lib_pool; lib_math] 7 toy_chain).1 with
    | Ok o => bool_decide (o !! "math"%string = Some 100 /\ o !! "pool"%string = Some 101)
    | _ => false end = true) by (vm_compute; reflexivity).
  destruct (toy_deploy_libraries [lib_pool; lib_math] 7 toy_chain) as [[o|e|p] c'] eqn:E;
    [|discriminate Hok..].
  exists o, c'. split; [reflexivity|].
  pose proof (proj1 (deploy_libraries_complete _ _ _ _ _ _ _ _ _ _ _ _ _ _ E)) as Hd.
  apply bool_decide_eq_true in Hok as [Hm Hp]. split; [exact Hm|]. split; [exact Hp|exact Hd].
Defined.
