(* ===== verification/Sampling.v ===== *)
(** * Sampling: weighted choice of a mutation base

    The walk that both corpora use in [random_base] ([maxer/corpus.rs],
    [tester/corpus/mod.rs]): an entry is chosen with a probability proportional
    to its weight, and entries without a snapshot are skipped. The corpora
    differ in the weight and in what a base holds, which are arguments here. *)
From S2P Require Import Prelude.
From S2P Require Import Env.

Section Sampling.
Context {E B : Type} (weight : E -> Z) (base : E -> option B).
Implicit Types (es : list E).

(** The [u64] sum of a release build wraps. *)
Definition total_weight es : Z :=
  foldl (fun acc w => wrap 64 (acc + w)) 0 (map weight (filter (fun e => is_Some (base e)) es)).

(** [pick] shrinks by the weight of every replayed entry that is passed. *)
Fixpoint pick_entry (pick : Z) es : option B :=
  match es with
  | [] => None
  | e :: es' =>
      match base e with
      | None => pick_entry pick es'
      | Some b => if pick <? weight e then Some b else pick_entry (pick - weight e) es'
      end
  end.

(** The fallback for rounding errors: the last replayed entry. *)
Definition last_replayed es : option B :=
  e ← head (filter (fun e => is_Some (base e)) (reverse es)); base e.

Definition random_base {R} `{FastRand R} es : M R (option B) :=
  if total_weight es =? 0 then mret None
  else
    pick ← draw_below (total_weight es);
    mret match pick_entry pick es with
         | Some b => Some b
         | None => last_replayed es
         end.

(** ** The exact sum of the weights of the replayed entries *)
Definition weight_of es : Z := zsum (map weight (filter (fun e => is_Some (base e)) es)).

Definition bounded (e : E) : Prop := 0 < weight e <= u64_max.

Lemma weight_of_cons e es :
  weight_of (e :: es) = match base e with Some _ => weight e | None => 0 end + weight_of es.
Proof.
  unfold weight_of. rewrite filter_cons.
  destruct (base e); case_decide as Hd; simpl; try lia; by destruct Hd || (exfalso; eauto).
Qed.

Lemma weight_of_nonneg es : Forall bounded es -> 0 <= weight_of es.
Proof.
  induction 1 as [|e es He _ IH]; [done|]. rewrite weight_of_cons. unfold bounded in He.
  destruct (base e); lia.
Qed.

Lemma weight_of_zero es : Forall bounded es -> weight_of es = 0 <-> Forall (fun e => base e = None) es.
Proof.
  induction 1 as [|e es He Hes IH]; [done|]. rewrite weight_of_cons, Forall_cons, <- IH.
  pose proof (weight_of_nonneg es Hes). unfold bounded in He. destruct (base e); naive_solver lia.
Qed.

Lemma total_weight_exact es :
  Forall bounded es -> weight_of es <= u64_max -> total_weight es = weight_of es.
Proof.
  intros Hwf Hmax. unfold total_weight.
  assert (Hgen : forall l acc, Forall (fun w => 0 <= w) l -> 0 <= acc -> acc + zsum l <= u64_max ->
    foldl (fun acc w => wrap 64 (acc + w)) acc l = acc + zsum l).
  { induction l as [|w l IH]; intros acc Hl Ha Hs; simpl in *; [lia|].
    apply Forall_cons in Hl as [Hw Hl]. pose proof (zsum_nonneg _ Hl).
    rewrite wrap_small by (unfold u64_max in *; lia). rewrite IH; [lia|done|lia|lia]. }
  rewrite Hgen; [unfold weight_of; lia| |lia|exact Hmax].
  apply Forall_map, Forall_forall. intros e [_ He]%list_elem_of_filter.
  rewrite Forall_forall in Hwf. destruct (Hwf e He). simpl. lia.
Qed.

(** The picks that select an entry are the ones between the weights before it
    and the weights up to it. *)
Lemma pick_entry_skip es1 es2 pick :
  Forall bounded es1 -> weight_of es1 <= pick ->
  pick_entry pick (es1 ++ es2) = pick_entry (pick - weight_of es1) es2.
Proof.
  revert pick. induction es1 as [|e es1 IH]; intros pick Hwf Hle; simpl.
  - unfold weight_of. simpl. f_equal. lia.
  - apply Forall_cons in Hwf as [[He _] Hwf]. rewrite weight_of_cons in Hle |- *.
    pose proof (weight_of_nonneg es1 Hwf). destruct (base e).
    + destruct (Z.ltb_spec pick (weight e)); [lia|]. rewrite IH by (done || lia). f_equal. lia.
    + rewrite IH by (done || lia). f_equal.
Qed.

Lemma pick_entry_here es1 e b es2 pick :
  Forall bounded es1 -> base e = Some b ->
  weight_of es1 <= pick < weight_of es1 + weight e ->
  pick_entry pick (es1 ++ e :: es2) = Some b.
Proof.
  intros Hwf Hb Hp. rewrite pick_entry_skip by (done || lia). simpl. rewrite Hb.
  destruct (Z.ltb_spec (pick - weight_of es1) (weight e)); [done|lia].
Qed.

Lemma pick_entry_total es pick :
  0 <= pick < weight_of es -> is_Some (pick_entry pick es).
Proof.
  revert pick. induction es as [|e es IH]; intros pick Hp; [unfold weight_of in Hp; simpl in Hp; lia|].
  rewrite weight_of_cons in Hp. simpl. destruct (base e) as [b|] eqn:Eb; [|apply IH; lia].
  destruct (Z.ltb_spec pick (weight e)); [by eexists|]. apply IH. lia.
Qed.

Lemma pick_entry_elem es pick b : pick_entry pick es = Some b -> exists e, e ∈ es /\ base e = Some b.
Proof.
  revert pick. induction es as [|e es IH]; intros pick Hp; simpl in Hp; [done|].
  destruct (base e) as [b'|] eqn:Eb; [destruct (pick <? weight e)|].
  - simplify_eq. exists e. split; [left|done].
  - destruct (IH _ Hp) as (e' & He & ?). exists e'. split; [by right|done].
  - destruct (IH _ Hp) as (e' & He & ?). exists e'. split; [by right|done].
Qed.

Lemma last_replayed_elem es b : last_replayed es = Some b -> exists e, e ∈ es /\ base e = Some b.
Proof.
  unfold last_replayed. destruct (head _) as [e|] eqn:E1; simpl; [|done]. intros Hb.
  exists e. split; [|done].
  apply head_Some_elem_of, list_elem_of_filter in E1 as [_ E1]. by apply elem_of_reverse.
Qed.

(** A base that is returned is the base of an entry. *)
Lemma random_base_elem {R} `{FastRand R} es r b r' :
  random_base es r = (Ok (Some b), r') -> exists e, e ∈ es /\ base e = Some b.
Proof.
  unfold random_base. destruct (total_weight es =? 0); intros Hr; inv_ok.
  destruct (pick_entry _ es) eqn:Ep; simplify_eq; [by eapply pick_entry_elem|by apply last_replayed_elem].
Qed.

(** A draw always returns, with nothing only when no entry was replayed. *)
Lemma random_base_total {R} `{FastRandLaws R} es r :
  Forall bounded es -> weight_of es <= u64_max ->
  exists b r', random_base es r = (Ok b, r') /\ (b = None <-> Forall (fun e => base e = None) es).
Proof.
  intros Hwf Hsum. unfold random_base. rewrite total_weight_exact by done.
  pose proof (weight_of_zero es Hwf) as Hz. pose proof (weight_of_nonneg es Hwf).
  destruct (Z.eqb_spec (weight_of es) 0) as [Hw0|Hw0].
  - exists None, r. split; [done|]. naive_solver.
  - destruct (draw_total 0 (weight_of es - 1) r) as (p & r' & Hp); [lia|].
    unfold draw_below. rewrite (M_bind_run _ _ _ _ _ Hp). apply draw_Ok in Hp.
    destruct (pick_entry_total es p) as [b Hb]; [lia|]. rewrite Hb.
    exists (Some b), r'. split; [done|]. split; [done|]. intros Hall. apply Hz in Hall. lia.
Qed.
End Sampling.
