(* ===== verification/CallCodec.v ===== *)
(** * CallCodec: the persisted form of a call

    Both corpora save a call as its signature and its calldata in hexadecimal,
    and decode it against the handler functions of the harness
    ([maxer/corpus.rs], [tester/corpus/mod.rs]: [CallJson], [decode_call]).
    The two crates modules have the same text; their calls differ in type, so
    decoding gives the function and the arguments. *)
From S2P Require Import Prelude.
From S2P Require Import Env.

Record CallJson : Type := mkCallJson { cj_signature : string; cj_calldata : string }.

Section Codec.
Context `{Abi} `{Text}.

(** [trim_start_matches("0x")]: every leading [0x] is dropped. *)
Fixpoint trim_0x (fuel : nat) (s : string) : string :=
  match fuel with
  | O => s
  | S fuel' =>
      match s with
      | String a (String b s') =>
          if Ascii.eqb a "0" && Ascii.eqb b "x" then trim_0x fuel' s' else s
      | _ => s
      end
  end.
Definition trim_start_0x (s : string) : string := trim_0x (String.length s) s.

Definition decode_input (c : CallJson) (handlers : list Function) : Res (Function * DynSolValue) :=
  f ← context (head (filter (fun h => signature h = cj_signature c) handlers))
        ("unknown handler signature `" +:+ cj_signature c +:+ "`");
  data ← with_context ("call `" +:+ cj_signature c +:+ "` has invalid calldata")
           (hex_decode (trim_start_0x (cj_calldata c)));
  _ ← ensure (4 <=? length data)%nat
        ("call `" +:+ cj_signature c +:+ "` calldata is shorter than a selector");
  _ ← ensure (bool_decide (take 4 data = selector f))
        ("call `" +:+ cj_signature c +:+ "` calldata selector does not match");
  args ← with_context ("call `" +:+ cj_signature c +:+ "` calldata does not decode")
           (abi_decode_input f (drop 4 data));
  mret (f, VTuple args).

(** [CallJson { signature, calldata }] of a call of [f]. *)
Definition input_json (f : Function) (args : DynSolValue) : CallJson :=
  mkCallJson (signature f) ("0x" +:+ hex_encode (selector f ++ abi_encode_params args)).
Lemma decode_input_handler c hs f args : decode_input c hs = Ok (f, args) -> f ∈ hs.
Proof.
  unfold decode_input. intros (f' & Hf & Hd)%Res_bind_Ok. repeat (apply Res_bind_Ok in Hd as (? & _ & Hd)).
  injection Hd as -> _. destruct (head _) as [f0|] eqn:Eh; [|done]. injection Hf as ->.
  apply head_Some_elem_of in Eh. by apply list_elem_of_filter in Eh as [_ ?].
Qed.

End Codec.

Section Roundtrip.
Context `{AbiLaws} `{TextLaws}.

(** A call the handlers resolve: its function is a handler, its signature
    tells it from the other handlers, its arguments are of the function's
    types, and its calldata is bytes. *)
Definition input_resolves (handlers : list Function) (f : Function) (a : DynSolValue) : Prop :=
  f ∈ handlers /\
  (forall h, h ∈ handlers -> signature h = signature f -> h = f) /\
  Forall byte_ok (selector f ++ abi_encode_params a) /\
  exists args, a = VTuple args /\ args_for f args.

Lemma trim_start_0x_hex bs : Forall byte_ok bs -> trim_start_0x ("0x" +:+ hex_encode bs) = hex_encode bs.
Proof.
  intros Hb. pose proof (hex_encode_no_x bs Hb) as Hx. unfold trim_start_0x. simpl.
  destruct (hex_encode bs) as [|a [|b s]] eqn:E; try done. simpl.
  destruct (Ascii.eqb a "0") eqn:Ea; [|done]. destruct (Ascii.eqb b "x") eqn:Eb; [|done].
  apply Ascii.eqb_eq in Eb as ->. exfalso. apply Hx. simpl. set_solver.
Qed.

Lemma head_filter_unique {A} (P : A -> Prop) `{forall x, Decision (P x)} (l : list A) x :
  x ∈ l -> P x -> (forall y, y ∈ l -> P y -> y = x) -> head (filter P l) = Some x.
Proof.
  intros Hx HP Hu. induction l as [|y l IH]; [set_solver|]. rewrite filter_cons.
  case_decide as Hd; [simpl; f_equal; apply Hu; [by left|done]|].
  apply IH; [|intros z Hz; apply Hu; by right].
  apply elem_of_cons in Hx as [->|]; done.
Qed.

(** Decoding what was saved gives back the function and the arguments. *)
Lemma decode_input_json handlers f a :
  input_resolves handlers f a -> decode_input (input_json f a) handlers = Ok (f, a).
Proof.
  intros (Hin & Hu & Hb & args & -> & Hfor). unfold decode_input, input_json. simpl.
  rewrite (head_filter_unique _ handlers f); [|done|done|auto].
  cbn [context mbind Res_bind]. rewrite trim_start_0x_hex by done. rewrite hex_decode_encode by done.
  pose proof (selector_len f) as Hsel. set (ps := abi_encode_params _).
  assert (Ht : take 4 (selector f ++ ps) = selector f) by (rewrite <- Hsel; apply take_app_length).
  assert (Hd : drop 4 (selector f ++ ps) = ps) by (rewrite <- Hsel; apply drop_app_length).
  cbn [with_context mbind Res_bind]. rewrite Ht, Hd, bool_decide_true by done.
  rewrite length_app, Hsel. cbn [Nat.add Nat.leb ensure mbind Res_bind]. unfold ps.
  by rewrite decode_encode.
Qed.
End Roundtrip.
