(* ===== verification/MaxCorpus.v ===== *)
(** * MaxCorpus: the maximizer's corpus of interesting sequences

    Models [maxer/corpus.rs]: sampling, eviction, persistence and replay. The
    entries sit behind a mutex, so every operation is one atomic step on the
    list of entries. *)
From S2P Require Import Prelude.
From S2P Require Import Env.
From S2P Require Import Transaction.
From S2P Require Import Value.
From S2P Require Import Call.
From S2P Require Import Sequence.
From S2P Require Import Coverage.
From S2P Require Import ChainApi.
From S2P Require Import Sampling.
From S2P Require Export CallCodec.

Definition MAX_ENTRIES : nat := 256.
Definition CORPUS_VERSION : Z := 1.

(** ** The persisted document *)
Record EntryJson : Type := mkEntryJson {
  ej_value : string;
  ej_new_edges : Z;
  ej_calls : list CallJson;
}.
Record CorpusJson : Type := mkCorpusJson { cj_version : Z; cj_entries : list EntryJson }.

(** ** Entries *)
Section Corpus.
Context {Chain : Type}.

Record Entry : Type := mkEntry {
  sequence : Sequence;
  value : Value;
  new_edges : Z;
  delta_activity : Z;
  chain : option Chain;
}.

Record EntrySnapshot : Type := mkSnapshot {
  snap_sequence : Sequence;
  snap_value : Value;
  snap_new_edges : Z;
}.

#[local] Abbreviation Corpus := (list Entry).

Definition entries (c : Corpus) : list EntrySnapshot :=
  map (fun e => mkSnapshot (sequence e) (value e) (new_edges e)) c.

(** [new_edges.saturating_add(delta_activity)] *)
Definition entry_strength (e : Entry) : Z := sat_add64 (new_edges e) (delta_activity e).

Definition entry_weight (e : Entry) : Z :=
  let value_weight := sat_add64 (bit_len (get (value e))) 1 in
  sat_add64 (sat_add64 (sat_add64 (new_edges e) 1) value_weight) (delta_activity e).

(** What a replayed entry gives as a base. *)
Definition base_of (e : Entry) : option (Sequence * Value * Chain) :=
  ch ← chain e; Some (sequence e, value e, ch).

Definition random_base {R} `{FastRand R} (c : Corpus) : M R (option (Sequence * Value * Chain)) :=
  Sampling.random_base entry_weight base_of c.

(** [max_by_key] keeps the last of the greatest values. *)
Definition best_entry (c : Corpus) : option (Sequence * Value * Chain) :=
  max_by_key Z.ltb (fun b => get b.1.2)
    (omap base_of c).

(** [iter.map(value).max().unwrap_or(0)] *)
Definition best_value (c : Corpus) : Z :=
  default 0 (max_by_key Z.ltb (fun z => z) (map (fun e => get (value e)) c)).

(** The index of the weakest entry below the best value. *)
Definition weakest_below (c : Corpus) (best : Z) : option nat :=
  fst <$> min_by_key pair_ltb (fun ie => (entry_strength ie.2, get (value ie.2)))
    (filter (fun ie => get (value ie.2) < best) (enumerate c)).

Definition add_with_chain (e : Entry) (c : Corpus) : Res Corpus :=
  if bool_decide (length c < MAX_ENTRIES)%nat then Ok (c ++ [e])
  else
    let best := best_value c in
    if best <? get (value e) then
      let weakest := default (length c - 1)%nat (weakest_below c best) in
      c' ← vec_remove c weakest; mret (c' ++ [e])
    else
      match weakest_below c best with
      | None => Ok c
      | Some weakest =>
          w ← vec_index c weakest;
          if entry_strength e <=? entry_strength w then Ok c
          else c' ← vec_remove c weakest; mret (c' ++ [e])
      end.

Definition add (s : Sequence) (v : Value) (edges activity : Z) (ch : Chain) (c : Corpus)
    : Res Corpus :=
  add_with_chain (mkEntry s v edges activity (Some ch)) c.

(** ** Persistence *)
Section Codec.
Context `{Abi} `{Text}.

Definition decode_call (c : CallJson) (handlers : list Function) : Res Call.Call :=
  '(f, args) ← decode_input c handlers; mret (Call.new f args).

(** The calls of one entry, or none when one of them does not resolve. *)
Fixpoint decode_calls (cs : list CallJson) (handlers : list Function) : Res (list Call.Call) :=
  match cs with
  | [] => Ok []
  | c :: cs' =>
      match decode_call c handlers with
      | Ok call =>
          match decode_calls cs' handlers with
          | Ok rest => Ok (call :: rest)
          | r => r
          end
      | Err e => Err e
      | Panic p => Panic p
      end
  end.

Fixpoint load_entries (es : list EntryJson) (handlers : list Function) (loaded : Z)
    : M Corpus Z :=
  match es with
  | [] => mret loaded
  | e :: es' => fun c =>
      match decode_calls (ej_calls e) handlers with
      | Panic p => (Panic p, c)
      | Err _ | Ok [] => load_entries es' handlers loaded c
      | Ok calls =>
          match u256_parse (ej_value e) with
          | Ok v =>
              match add_with_chain
                      (mkEntry (Sequence.new calls) (Value.new v) (ej_new_edges e) 0 None) c with
              | Ok c' => load_entries es' handlers (loaded + 1) c'
              | Err m => (Err m, c)
              | Panic p => (Panic p, c)
              end
          | _ => (Err "entry has an invalid value", c)
          end
      end
  end.

(** What reading the file gives: a missing file, an I/O error, text that does
    not parse, or a document. *)
Inductive FileRead : Type :=
| NotFound
| ReadError
| Unparsable
| Document (d : CorpusJson).

Definition load (file : FileRead) (handlers : list Function) : M Corpus Z :=
  match file with
  | NotFound => mret 0
  | ReadError => lift (Err "failed to read")
  | Unparsable => lift (Err "failed to parse")
  | Document d =>
      if cj_version d =? CORPUS_VERSION then load_entries (cj_entries d) handlers 0
      else lift (Err "unsupported corpus version")
  end.

Definition call_json (c : Call.Call) : CallJson :=
  input_json (Call.function c) (Call.args c).

(** The document [save] writes. *)
Definition save (c : Corpus) : CorpusJson :=
  mkCorpusJson CORPUS_VERSION
    (map (fun e => mkEntryJson (u256_to_string (get (snap_value e))) (snap_new_edges e)
                     (map call_json (Sequence.calls (snap_sequence e)))) (entries c)).
End Codec.
End Corpus.
Arguments Entry : clear implicits.
(** [Corpus] shares a vector of entries. *)
Abbreviation Corpus Chain := (list (Entry Chain)).

(** ** Replay *)
Section Replay.
Context {Chain Trace : Type} `{ChainOps Chain Trace} `{Abi} `{BrokenInvariantError}.

Record CorpusReplayer : Type := mkReplayer {
  r_chain : option Chain;
  r_target : option Address;
  r_deployer : option Address;
  r_value_calldata : option Bytes;
  r_coverage : option SharedCoverage;
}.

Definition replayer_new : CorpusReplayer := mkReplayer None None None None None.

Definition with_chain (r : CorpusReplayer) (c : Chain) : CorpusReplayer :=
  mkReplayer (Some c) (r_target r) (r_deployer r) (r_value_calldata r) (r_coverage r).
Definition with_target (r : CorpusReplayer) (t : Address) : CorpusReplayer :=
  mkReplayer (r_chain r) (Some t) (r_deployer r) (r_value_calldata r) (r_coverage r).
Definition with_deployer (r : CorpusReplayer) (d : Address) : CorpusReplayer :=
  mkReplayer (r_chain r) (r_target r) (Some d) (r_value_calldata r) (r_coverage r).
Definition with_value_calldata (r : CorpusReplayer) (d : Bytes) : CorpusReplayer :=
  mkReplayer (r_chain r) (r_target r) (r_deployer r) (Some d) (r_coverage r).
Definition with_coverage (r : CorpusReplayer) (c : SharedCoverage) : CorpusReplayer :=
  mkReplayer (r_chain r) (r_target r) (r_deployer r) (r_value_calldata r) (Some c).

(** The novelty count of a merge. *)
Definition update_total (u : CoverageUpdate) : Z :=
  Coverage.new_edges u + new_depths u + new_reverts u + new_jump_edges u.

(** One entry: the sequence on a clone of the chain, the merge of its coverage
    into the shared map, then the value call. [None] drops the entry. *)
Definition replay_entry (ch : Chain) (tgt dep : Address) (value_tx : Transaction)
    (e : EntrySnapshot) : M SharedCoverage (option (Value * Z * Chain)) := fun cov =>
  match exec (Sequence.transactions (snap_sequence e) tgt dep) ch with
  | (Ok o, ch1) =>
      match coverage o with
      | None => (Err "execution coverage expected", cov)
      | Some local =>
          match merge cov local with
          | Ok (cov', u) =>
              match exec [value_tx] ch1 with
              | (Ok out, ch2) =>
                  match head (results out) with
                  | None => (Err "value call result missing", cov')
                  | Some result =>
                      if success result then
                        match Value.decode result with
                        | Ok v => (Ok (Some (v, update_total u, ch2)), cov')
                        | Err m => (Err m, cov')
                        | Panic p => (Panic p, cov')
                        end
                      else (Ok None, cov')
                  end
              | (Err m, _) => (Err m, cov')
              | (Panic p, _) => (Panic p, cov')
              end
          | Err m => (Err m, cov)
          | Panic p => (Panic p, cov)
          end
      end
  | (Err m, _) => (Err m, cov)
  | (Panic p, _) => (Panic p, cov)
  end.

Fixpoint replay_loop (ch : Chain) (tgt dep : Address) (value_tx : Transaction)
    (es : list EntrySnapshot) (acc : Corpus Chain) : M SharedCoverage (Corpus Chain) :=
  match es with
  | [] => mret acc
  | e :: es' =>
      r ← replay_entry ch tgt dep value_tx e;
      match r with
      | None => replay_loop ch tgt dep value_tx es' acc
      | Some (v, edges, ch') =>
          acc' ← lift (add (snap_sequence e) v edges 0 ch' acc);
          replay_loop ch tgt dep value_tx es' acc'
      end
  end.

(** The replay and the shared coverage it leaves. *)
Definition replay (r : CorpusReplayer) (c : Corpus Chain)
    : Res (Res (Corpus Chain * Z) * SharedCoverage) :=
  ch ← context (r_chain r) "chain not set, call CorpusReplayer::new().with_chain(..)";
  tgt ← context (r_target r) "target not set, call CorpusReplayer::new().with_target(..)";
  dep ← context (r_deployer r) "deployer not set, call CorpusReplayer::new().with_deployer(..)";
  data ← context (r_value_calldata r)
    "value calldata not set, call CorpusReplayer::new().with_value_calldata(..)";
  cov ← context (r_coverage r) "coverage not set, call CorpusReplayer::new().with_coverage(..)";
  let value_tx := with_calldata (Transaction_new tgt) data in
  let '(res, cov') := replay_loop ch tgt dep value_tx (entries c) [] cov in
  mret ((fun c' => (c', Z.of_nat (length c'))) <$> res, cov').
End Replay.

(** ** Eviction *)
Section Eviction.
Context {Chain : Type}.
Implicit Types (c : Corpus Chain) (e : Entry Chain).

Lemma best_value_ge c e : e ∈ c -> get (value e) <= best_value c.
Proof.
  intros He. unfold best_value.
  destruct (max_by_key Z.ltb (fun z => z) (map (fun e => get (value e)) c)) as [m|] eqn:E; simpl.
  - pose proof (max_by_key_greatest Z.ltb (fun z => z) Z_ltb_asym Z_ltb_neg_trans _ _
      (get (value e)) E) as Hm.
    specialize (Hm ltac:(apply list_elem_of_fmap; eauto)). simpl in Hm. lia.
  - apply max_by_key_None in E. apply map_eq_nil in E as ->. set_solver.
Qed.

Lemma best_value_elem c : c <> [] -> exists e, e ∈ c /\ get (value e) = best_value c.
Proof.
  intros Hne. unfold best_value.
  destruct (max_by_key Z.ltb (fun z => z) (map (fun e => get (value e)) c)) as [m|] eqn:E; simpl.
  - apply max_by_key_elem, list_elem_of_fmap in E as (e & -> & He). eauto.
  - apply max_by_key_None in E. by apply map_eq_nil in E.
Qed.

Lemma best_value_le c b :
  c <> [] -> (forall e, e ∈ c -> get (value e) <= b) -> best_value c <= b.
Proof. intros Hne Hb. destruct (best_value_elem c Hne) as (e & He & <-). auto. Qed.

Lemma weakest_below_Some c best i :
  weakest_below c best = Some i ->
  exists w, c !! i = Some w /\ get (value w) < best /\
    forall e, e ∈ c -> get (value e) < best ->
      entry_strength w < entry_strength e \/
      (entry_strength w = entry_strength e /\ get (value w) <= get (value e)).
Proof.
  unfold weakest_below. intros H. apply fmap_Some in H as ([j w] & Hmin & ->).
  pose proof (min_by_key_elem _ _ _ _ Hmin) as Hin.
  apply list_elem_of_filter in Hin as [Hlt Hin]. apply elem_of_enumerate in Hin.
  exists w. split; [done|]. split; [done|]. intros e He Hb.
  apply list_elem_of_lookup in He as [k Hk].
  pose proof (min_by_key_least pair_ltb _ pair_ltb_asym pair_ltb_neg_trans _ _ (k, e) Hmin) as Hl.
  specialize (Hl ltac:(apply list_elem_of_filter; split; [done|by apply elem_of_enumerate])).
  unfold pair_ltb in Hl. simpl in Hl. lia.
Qed.

Lemma weakest_below_None c best :
  weakest_below c best = None <-> forall e, e ∈ c -> best <= get (value e).
Proof.
  unfold weakest_below. rewrite fmap_None, min_by_key_None. split.
  - intros Hnil e He. destruct (Z.le_gt_cases best (get (value e))); [done|].
    apply list_elem_of_lookup in He as [k Hk]. exfalso.
    assert (Hin : (k, e) ∈ filter (fun ie => get (value ie.2) < best) (enumerate c)).
    { apply list_elem_of_filter. split; [simpl; lia|by apply elem_of_enumerate]. }
    rewrite Hnil in Hin. set_solver.
  - intros Hall. destruct (filter _ _) as [|[k e] l] eqn:E; [done|].
    assert (Hin : (k, e) ∈ filter (fun ie => get (value ie.2) < best) (enumerate c))
      by (rewrite E; set_solver).
    apply list_elem_of_filter in Hin as [Hlt Hin]. apply elem_of_enumerate in Hin.
    simpl in Hlt. specialize (Hall e ltac:(by eapply list_elem_of_lookup_2)). lia.
Qed.

Lemma vec_remove_run {A} (l : list A) i : (i < length l)%nat -> vec_remove l i = Ok (delete i l).
Proof. intros. by apply vec_remove_Ok. Qed.

(** The four outcomes of an addition. *)
Lemma add_cases e c :
  ((length c < MAX_ENTRIES)%nat /\ add_with_chain e c = Ok (c ++ [e])) \/
  ((MAX_ENTRIES <= length c)%nat /\
   ((exists i w, c !! i = Some w /\ add_with_chain e c = Ok (delete i c ++ [e]) /\
       (best_value c < get (value e) \/
        (get (value e) <= best_value c /\ get (value w) < best_value c /\
         entry_strength w < entry_strength e)) /\
       (get (value w) < best_value c ->
          forall e', e' ∈ c -> get (value e') < best_value c ->
            entry_strength w <= entry_strength e') /\
       (best_value c <= get (value w) -> i = (length c - 1)%nat /\
          forall e', e' ∈ c -> get (value e') = best_value c)) \/
    (get (value e) <= best_value c /\ add_with_chain e c = Ok c /\
     forall w, w ∈ c -> get (value w) < best_value c -> entry_strength e <= entry_strength w))).
Proof.
  unfold add_with_chain. case_bool_decide as Hlen; [by left|right].
  assert (Hge : (MAX_ENTRIES <= length c)%nat) by lia. split; [done|].
  assert (Hpos : (0 < length c)%nat) by (unfold MAX_ENTRIES in Hge; lia).
  destruct (weakest_below c (best_value c)) as [i|] eqn:Ew.
  - pose proof Ew as (w & Hi & Hlt & Hmin)%weakest_below_Some.
    assert (Hil : (i < length c)%nat) by (by eapply lookup_lt_Some).
    assert (Hvi : vec_index c i = Ok w) by (unfold vec_index; by rewrite Hi).
    rewrite Hvi. simpl. destruct (Z.ltb_spec (best_value c) (get (value e))) as [Hb|Hb].
    + left. exists i, w. split; [done|]. rewrite vec_remove_run by done.
      split; [done|]. split; [by left|]. split; [|lia]. intros _ e' He' Hlt'.
      specialize (Hmin e' He' Hlt'). lia.
    + destruct (Z.leb_spec (entry_strength e) (entry_strength w)) as [Hs|Hs].
      * right. split; [done|]. split; [done|]. intros w' Hw' Hlt'.
        specialize (Hmin w' Hw' Hlt'). lia.
      * left. exists i, w. rewrite vec_remove_run by done. split; [done|]. split; [done|].
        split; [right; lia|]. split; [|lia]. intros _ e' He' Hlt'.
        specialize (Hmin e' He' Hlt'). lia.
  - simpl. pose proof (proj1 (weakest_below_None _ _) Ew) as Hall.
    destruct (Z.ltb_spec (best_value c) (get (value e))) as [Hb|Hb].
    + left. destruct (lookup_lt_is_Some_2 c (length c - 1)) as [w Hw]; [lia|].
      assert (Hwc : w ∈ c) by (by eapply list_elem_of_lookup_2).
      exists (length c - 1)%nat, w. rewrite vec_remove_run by lia. split; [done|].
      split; [done|]. split; [by left|]. split; [specialize (Hall w Hwc); lia|].
      intros _. split; [done|]. intros e' He'. specialize (Hall e' He').
      pose proof (best_value_ge c e' He'). lia.
    + right. split; [done|]. split; [done|]. intros w Hw Hlt. specialize (Hall w Hw). lia.
Qed.

Lemma length_delete_snoc {A} (l : list A) i x y :
  l !! i = Some x -> length (delete i l ++ [y]) = length l.
Proof.
  intros Hi. rewrite length_app, length_delete by eauto. simpl.
  apply lookup_lt_Some in Hi. lia.
Qed.
End Eviction.

(** ** Sampling *)
Section Sampling.
Context {Chain : Type}.
Implicit Types (c : Corpus Chain) (e : Entry Chain).

(** Entries as the fuzzer builds them: counts are [u64], values [uint256]. *)
Definition entry_wf e : Prop :=
  in_u256 (get (value e)) /\ 0 <= new_edges e /\ 0 <= delta_activity e.

Lemma entry_weight_pos e : entry_wf e -> 2 <= entry_weight e <= u64_max.
Proof.
  intros (Hv & Hn & Hd). unfold entry_weight, sat_add64.
  pose proof (bit_len_bound 256 (get (value e))) as Hb.
  unfold in_u256, u256_max in Hv. unfold u64_max. lia.
Qed.

Lemma entries_bounded c : Forall entry_wf c -> Forall (bounded entry_weight) c.
Proof.
  intros Hc. apply (Forall_impl _ _ _ Hc). intros e He.
  pose proof (entry_weight_pos e He). unfold bounded. lia.
Qed.

(** The exact sum of the weights of the replayed entries. *)
Definition weight_of c : Z := Sampling.weight_of entry_weight base_of c.

Lemma best_entry_Some c s v ch :
  best_entry c = Some (s, v, ch) ->
  (exists e, e ∈ c /\ chain e = Some ch /\ sequence e = s /\ value e = v) /\
  forall e, e ∈ c -> is_Some (chain e) -> get (value e) <= get v.
Proof.
  unfold best_entry. intros H. split.
  - apply max_by_key_elem, list_elem_of_omap in H as (e & He & H).
    unfold base_of in H. destruct (chain e) as [ch'|] eqn:Ec; simpl in H; [|done]. naive_solver.
  - intros e He [ch' Hch].
    pose proof (max_by_key_greatest Z.ltb (fun b : Sequence * Value * Chain => get b.1.2)
      Z_ltb_asym Z_ltb_neg_trans _ _ (sequence e, value e, ch') H) as Hm.
    specialize (Hm ltac:(apply list_elem_of_omap; exists e; unfold base_of; by rewrite Hch)). simpl in Hm. lia.
Qed.
End Sampling.

(** ** Persistence *)
Section Roundtrip.
Context {Chain : Type} `{AbiLaws} `{TextLaws}.

Definition call_resolves (handlers : list Function) (c : Call.Call) : Prop :=
  input_resolves handlers (Call.function c) (Call.args c).

Lemma decode_call_json handlers c :
  call_resolves handlers c -> decode_call (call_json c) handlers = Ok c.
Proof.
  intros Hc. unfold decode_call, call_json. rewrite decode_input_json by done. by destruct c.
Qed.

Lemma decode_calls_json handlers cs :
  Forall (call_resolves handlers) cs -> decode_calls (map call_json cs) handlers = Ok cs.
Proof.
  induction 1 as [|c cs Hc _ IH]; [done|]. cbn [map decode_calls].
  by rewrite decode_call_json, IH.
Qed.

(** What persistence keeps of an entry. *)
Definition persisted (e : Entry Chain) : Entry Chain :=
  mkEntry (sequence e) (value e) (new_edges e) 0 None.

Definition saveable (handlers : list Function) (e : Entry Chain) : Prop :=
  Sequence.calls (sequence e) <> [] /\
  Forall (call_resolves handlers) (Sequence.calls (sequence e)) /\ in_u256 (get (value e)).

Lemma load_entries_json handlers (es : list (Entry Chain)) n acc :
  Forall (saveable handlers) es -> (length acc + length es <= MAX_ENTRIES)%nat ->
  load_entries (cj_entries (save es)) handlers n acc =
    (Ok (n + Z.of_nat (length es)), acc ++ map persisted es).
Proof.
  intros HF. revert n acc. induction HF as [|e es (Hne & Hcs & Hv) _ IH]; intros n acc Hlen.
  - simpl. unfold mret, M_ret. rewrite app_nil_r. f_equal. f_equal. simpl. lia.
  - unfold save in IH |- *. cbn [cj_entries entries map load_entries] in IH |- *.
    cbn [ej_calls ej_value ej_new_edges snap_sequence snap_value snap_new_edges].
    rewrite decode_calls_json by done.
    destruct (Sequence.calls (sequence e)) as [|c cs] eqn:Ecs; [done|].
    rewrite u256_parse_to_string by done. unfold add_with_chain. simpl in Hlen.
    rewrite bool_decide_true by lia. rewrite IH; [|rewrite length_app; simpl; lia].
    f_equal; [f_equal; simpl; lia|]. rewrite <- app_assoc. simpl. do 2 f_equal.
    unfold persisted. rewrite <- Ecs. by destruct (sequence e), (value e).
Qed.
End Roundtrip.

(** ** Replay invariants *)
Section Replay_lemmas.
Context {Chain Trace : Type} `{ChainOps Chain Trace} `{Abi} `{BrokenInvariantError}.

Lemma elem_of_add (e : Entry Chain) c c' x : add_with_chain e c = Ok c' -> x ∈ c' -> x ∈ c \/ x = e.
Proof.
  intros Ha Hx. destruct (add_cases e c) as [[_ Hr]|[_ [(i & w & _ & Hr & _)|(_ & Hr & _)]]];
    rewrite Hr in Ha; simplify_eq.
  - apply elem_of_app in Hx as [?|?%list_elem_of_singleton]; auto.
  - apply elem_of_app in Hx as [Hx|?%list_elem_of_singleton]; [|auto].
    left. by eapply elem_of_delete_sub.
  - auto.
Qed.

Lemma add_length_le (e : Entry Chain) c c' :
  (length c <= MAX_ENTRIES)%nat -> add_with_chain e c = Ok c' -> (length c' <= MAX_ENTRIES)%nat.
Proof.
  intros Hlen Ha. destruct (add_cases e c) as [[Hl Hr]|[_ [(i & w & Hi & Hr & _)|(_ & Hr & _)]]];
    rewrite Hr in Ha; simplify_eq; try done.
  - rewrite length_app. simpl. lia.
  - by rewrite (length_delete_snoc _ _ _ _ Hi).
Qed.

(** A sequence replayed on the chain, and what the value call then reads and
    leaves. *)
Definition replayed (ch : Chain) (tgt dep : Address) (value_tx : Transaction) (s : Sequence) (v : Value) (ch2 : Chain) : Prop :=
  exists o ch1 out r, exec (Sequence.transactions s tgt dep) ch = (Ok o, ch1) /\
    exec [value_tx] ch1 = (Ok out, ch2) /\ head (results out) = Some r /\ Value.decode r = Ok v.

Lemma replay_entry_measured ch tgt dep vtx e cov v n ch2 cov' :
  replay_entry ch tgt dep vtx e cov = (Ok (Some (v, n, ch2)), cov') -> replayed ch tgt dep vtx (snap_sequence e) v ch2.
Proof.
  unfold replay_entry. destruct (exec _ ch) as [[o|m|m] ch1] eqn:Ex; [|done..]. destruct (coverage o) as [l|]; [|done].
  destruct (merge cov l) as [[cov1 u]|m|m]; [|done..]. destruct (exec [vtx] ch1) as [[out|m|m] ch3] eqn:Ev; [|done..].
  destruct (head (results out)) as [r|] eqn:Eh; [|done]. destruct (success r); [|done].
  destruct (Value.decode r) as [w|m|m] eqn:Ed; [|done..]. intros [= <- _ <- _]. by exists o, ch1, out, r.
Qed.

(** An entry the replay leaves for one of the snapshots it was given. *)
Definition replay_of (ch : Chain) (tgt dep : Address) (value_tx : Transaction) (es : list EntrySnapshot) (x : Entry Chain) : Prop :=
  delta_activity x = 0 /\ exists s ch2, s ∈ es /\ snap_sequence s = sequence x /\ chain x = Some ch2 /\
    replayed ch tgt dep value_tx (sequence x) (value x) ch2.

Lemma replay_of_later ch tgt dep vtx e es x : replay_of ch tgt dep vtx es x -> replay_of ch tgt dep vtx (e :: es) x.
Proof. intros (Ha & s & ch2 & Hs & Hr). split; [done|]. exists s, ch2. split; [by right|done]. Qed.

Lemma replay_loop_Ok ch tgt dep vtx es acc cov c cov' :
  replay_loop ch tgt dep vtx es acc cov = (Ok c, cov') ->
  (length acc <= MAX_ENTRIES)%nat ->
  (length c <= MAX_ENTRIES)%nat /\ forall x, x ∈ c -> x ∈ acc \/ replay_of ch tgt dep vtx es x.
Proof.
  revert acc cov. induction es as [|e es IH]; intros acc cov Hr Hlen; simpl in Hr.
  - inv_ok. split; [done|auto].
  - apply M_bind_Ok in Hr as (r & cov1 & He & Hr). destruct r as [[[v n] ch']|].
    + apply M_bind_Ok in Hr as (acc' & cov2 & Ha & Hr). unfold lift in Ha. simplify_eq.
      assert (Ha' : add (snap_sequence e) v n 0 ch' acc = Ok acc') by congruence.
      unfold add in Ha'. destruct (IH _ _ Hr (add_length_le _ _ _ Hlen Ha')) as [Hl Hx].
      split; [done|]. intros x Hin. destruct (Hx x Hin) as [Hacc|Hof]; [|right; by apply replay_of_later].
      destruct (elem_of_add _ _ _ _ Ha' Hacc) as [?| ->]; [by left|]. right. split; [done|]. exists e, ch'.
      split; [left|]. split; [done|]. split; [done|]. by apply replay_entry_measured in He.
    + destruct (IH _ _ Hr Hlen) as [Hl Hx]. split; [done|]. intros x Hin.
      destruct (Hx x Hin) as [?|?]; [by left|right; by apply replay_of_later].
Qed.

(** What a replay leaves. *)
Lemma replay_Ok r c c' n cov ch tgt dep data :
  replay r c = Ok (Ok (c', n), cov) -> r_chain r = Some ch -> r_target r = Some tgt -> r_deployer r = Some dep ->
  r_value_calldata r = Some data ->
  n = Z.of_nat (length c') /\ (length c' <= MAX_ENTRIES)%nat /\
  Forall (replay_of ch tgt dep (with_calldata (Transaction_new tgt) data) (entries c)) c'.
Proof.
  unfold replay. intros Hr Hc Ht Hd Hv. rewrite Hc, Ht, Hd, Hv in Hr. cbn [context mbind Res_bind] in Hr.
  apply Res_bind_Ok in Hr as (cov0 & _ & Hr).
  destruct (replay_loop _ _ _ _ _ _ _) as [res cov'] eqn:El. injection Hr as Hres _.
  destruct res as [c1| |]; simpl in Hres; simplify_eq.
  apply replay_loop_Ok in El as [Hl Hx]; [|simpl; unfold MAX_ENTRIES; lia].
  split; [done|]. split; [done|]. apply Forall_forall. intros e He. destruct (Hx e He) as [Hn|]; [by apply not_elem_of_nil in Hn|done].
Qed.

Lemma replay_given r (c : Corpus Chain) x : replay r c = Ok x ->
  exists ch tgt dep data, r_chain r = Some ch /\ r_target r = Some tgt /\ r_deployer r = Some dep /\ r_value_calldata r = Some data.
Proof.
  unfold replay. intros (ch & Hc & Hr)%Res_bind_Ok. apply Res_bind_Ok in Hr as (tgt & Ht & Hr).
  apply Res_bind_Ok in Hr as (dep & Hd & Hr). apply Res_bind_Ok in Hr as (data & Hv & _).
  apply context_Ok in Hc, Ht, Hd, Hv. by exists ch, tgt, dep, data.
Qed.
End Replay_lemmas.

(** ** Properties *)
Section Properties.
Context {Chain : Type}.
Implicit Types (c : Corpus Chain) (e : Entry Chain).

(** C10: adding an entry always succeeds (no index it removes is out of range),
    keeps the corpus at no more than 256 entries, and never lowers the best
    value it holds. *)
Theorem corpus_add_invariant e c :
  (length c <= MAX_ENTRIES)%nat ->
  exists c', add_with_chain e c = Ok c' /\ (length c' <= MAX_ENTRIES)%nat /\
    (c = [] \/ best_value c <= best_value c').
Proof.
  intros Hlen. destruct (add_cases e c) as [[Hl Hr]|[Hge [(i & w & Hi & Hr & Hj & _ & Hb)|(_ & Hr & _)]]].
  - exists (c ++ [e]). split; [done|]. split; [rewrite length_app; simpl; lia|].
    destruct c as [|x c]; [by left|right]. apply best_value_le; [done|]. intros y Hy.
    apply best_value_ge. set_solver.
  - exists (delete i c ++ [e]). split; [done|].
    split; [by rewrite (length_delete_snoc _ _ _ _ Hi)|]. right.
    assert (Hne : c <> []) by (intros ->; done).
    destruct (Z.lt_ge_cases (best_value c) (get (value e))) as [Hlt|Hle].
    + pose proof (best_value_ge (delete i c ++ [e]) e) as Hg.
      specialize (Hg ltac:(set_solver)). lia.
    + destruct (best_value_elem c Hne) as (b & Hbin & Hbv).
      assert (Hbw : b <> w) by (intros ->; destruct Hj; lia).
      rewrite <- Hbv. apply best_value_ge, elem_of_app. left. by eapply elem_of_delete_ne.
  - exists c. split; [done|]. split; [done|]. right. lia.
Qed.

(** a sequence that improves the best value always joins the corpus, even
    when it is full; the entry it displaces is one of least strength among
    those below the best value, or the last one when all are at the best. *)
Theorem corpus_improving_joins e c :
  best_value c < get (value e) ->
  exists c', add_with_chain e c = Ok c' /\ e ∈ c' /\
    (c' = c ++ [e] \/
     exists i w, c !! i = Some w /\ c' = delete i c ++ [e] /\
       ((get (value w) < best_value c /\ forall e', e' ∈ c -> get (value e') < best_value c ->
           entry_strength w <= entry_strength e') \/
        (i = (length c - 1)%nat /\ forall e', e' ∈ c -> get (value e') = best_value c))).
Proof.
  intros Hb. destruct (add_cases e c) as [[Hl Hr]|[Hge [(i & w & Hi & Hr & _ & Hw & Hn)|(Hle & _)]]].
  - exists (c ++ [e]). split; [done|]. split; [set_solver|by left].
  - exists (delete i c ++ [e]). split; [done|]. split; [set_solver|]. right. exists i, w.
    split; [done|]. split; [done|].
    destruct (Z.lt_ge_cases (get (value w)) (best_value c)); [left|right]; auto.
  - lia.
Qed.

(** when the corpus is full and the value does not improve, the new entry
    replaces a weakest entry below the best value only when it is strictly
    stronger; at equal strength it is dropped, although the comment in the
    code asks for a replacement "when the new sequence is at least as strong". *)
Theorem corpus_tie_is_dropped e c :
  (MAX_ENTRIES <= length c)%nat -> get (value e) <= best_value c ->
  (exists w, w ∈ c /\ get (value w) < best_value c /\ entry_strength w < entry_strength e /\
     exists i, c !! i = Some w /\ add_with_chain e c = Ok (delete i c ++ [e])) \/
  ((forall w, w ∈ c -> get (value w) < best_value c -> entry_strength e <= entry_strength w) /\
   add_with_chain e c = Ok c).
Proof.
  intros Hlen Hv.
  destruct (add_cases e c) as [[Hl Hr]|[_ [(i & w & Hi & Hr & Hj & _)|(_ & Hr & Hall)]]].
  - lia.
  - left. destruct Hj as [|(_ & Hw & Hs)]; [lia|]. exists w.
    split; [by eapply list_elem_of_lookup_2|]. split; [done|]. split; [done|]. eauto.
  - by right.
Qed.

(** sampling is exactly proportional: as long as the weights sum to a
    [u64], a draw in [0, total) selects the entry whose weight interval holds
    it, so each replayed entry is chosen by as many draws as its weight, the
    fallback is never used, and nothing is drawn only when no entry has been
    replayed. *)
Theorem random_base_proportional {R} `{FastRandLaws R} c r :
  Forall entry_wf c -> weight_of c <= u64_max ->
  (exists b r', random_base c r = (Ok b, r') /\
     (b = None <-> Forall (fun e => chain e = None) c)) /\
  (forall c1 e ch c2 pick, c = c1 ++ e :: c2 -> chain e = Some ch ->
     weight_of c1 <= pick < weight_of c1 + entry_weight e ->
     pick_entry entry_weight base_of pick c = Some (sequence e, value e, ch)).
Proof.
  intros Hwf%entries_bounded Hsum. split.
  - destruct (random_base_total _ base_of c r Hwf Hsum) as (b & r' & Hr & Hb).
    exists b, r'. split; [exact Hr|]. rewrite Hb. apply Forall_iff. intros e.
    unfold base_of. by destruct (chain e).
  - intros c1 e ch c2 pick -> Hch Hp. apply Forall_app in Hwf as [Hwf _].
    apply pick_entry_here; [done| |done]. unfold base_of. by rewrite Hch.
Qed.

(** persistence round trips: loading a saved corpus of at most 256
    entries, whose calls the handlers resolve, into an empty corpus gives back
    every entry in order with its sequence, value and edge count; the snapshot
    and the delta activity are not persisted. *)
Theorem corpus_save_load `{AbiLaws} `{TextLaws} handlers c :
  Forall (saveable handlers) c -> (length c <= MAX_ENTRIES)%nat ->
  load (Document (save c)) handlers [] = (Ok (Z.of_nat (length c)), map persisted c).
Proof.
  intros HF Hlen. unfold load. cbn [save cj_version]. rewrite Z.eqb_refl.
  pose proof (load_entries_json handlers c 0 [] HF Hlen) as Hl. exact Hl.
Qed.

(** a replayed corpus holds at most 256 entries, each with a snapshot,
    no delta activity and the sequence of a loaded entry. *)
Theorem corpus_replay_sound {Trace} `{ChainOps Chain Trace} `{Abi} r c c' n cov :
  replay r c = Ok (Ok (c', n), cov) ->
  n = Z.of_nat (length c') /\ (length c' <= MAX_ENTRIES)%nat /\
  forall e, e ∈ c' -> is_Some (chain e) /\ delta_activity e = 0 /\
    exists e0, e0 ∈ c /\ sequence e0 = sequence e.
Proof.
  intros Hr. destruct (replay_given _ _ _ Hr) as (ch & tgt & dep & data & Hc & Ht & Hd & Hv).
  destruct (replay_Ok _ _ _ _ _ _ _ _ _ Hr Hc Ht Hd Hv) as (Hn & Hl & HF). split; [done|]. split; [done|].
  intros e He. rewrite Forall_forall in HF. destruct (HF e He) as (Ha & s & ch2 & Hs & Hq & Hch & _).
  split; [by rewrite Hch|]. split; [done|]. unfold entries in Hs. apply list_elem_of_fmap in Hs as (e0 & -> & He0). eauto.
Qed.
End Properties.

(** ** Witnesses *)
Import Toy.

Definition tock : Function := mkFunction "tock" [] [] NonPayable.
Definition tock_call : Call.Call := Call.new tock (VTuple []).
Definition one_tock : Sequence := Sequence.new [tock_call].

Definition entry_at (v edges : Z) : Entry Z := mkEntry one_tock (Value.new v) edges 0 (Some 0).

(** A full corpus: 255 entries of value 1 and one of value 9. *)
Definition full_corpus : Corpus Z := replicate 255 (entry_at 1 4) ++ [entry_at 9 1].

Lemma corpus_add_invariant_witness :
  exists c', add_with_chain (entry_at 5 2) full_corpus = Ok c' /\ (length c' <= MAX_ENTRIES)%nat.
Proof.
  destruct (corpus_add_invariant (entry_at 5 2) full_corpus) as (c' & H & Hl & _).
  - vm_compute. lia.
  - exists c'. split; [exact H|exact Hl].
Defined.

Lemma corpus_improving_joins_witness :
  exists c', add_with_chain (entry_at 10 0) full_corpus = Ok c' /\ entry_at 10 0 ∈ c'.
Proof.
  destruct (corpus_improving_joins (entry_at 10 0) full_corpus) as (c' & H & Hin & _).
  - vm_compute. reflexivity.
  - exists c'. split; [exact H|exact Hin].
Defined.

Lemma corpus_tie_is_dropped_witness :
  add_with_chain (entry_at 9 4) full_corpus = Ok full_corpus.
Proof.
  destruct (corpus_tie_is_dropped (entry_at 9 4) full_corpus) as [(w & _ & _ & _ & i & _ & H)|[_ H]].
  - vm_compute. lia.
  - vm_compute. discriminate.
  - vm_compute. reflexivity.
  - exact H.
Defined.

Lemma random_base_proportional_witness :
  exists b r', random_base [entry_at 1 4; entry_at 9 1] 3 = (Ok b, r') /\ b <> None.
Proof.
  destruct (random_base_proportional [entry_at 1 4; entry_at 9 1] 3) as [(b & r' & H & Hb) _].
  - repeat constructor; vm_compute; discriminate.
  - vm_compute. discriminate.
  - exists b, r'. split; [exact H|]. intros ->.
    pose proof (proj1 Hb eq_refl) as Hf. apply Forall_cons in Hf as [Hf _]. discriminate Hf.
Defined.

Lemma corpus_save_load_witness :
  load (Chain := Z) (Document (save [entry_at 1 4; entry_at 9 1])) [tock] [] =
    (Ok 2, [persisted (entry_at 1 4); persisted (entry_at 9 1)]).
Proof.
  assert (Hs : forall v n, in_u256 v -> saveable [tock] (entry_at v n)).
  { intros v n Hv. split; [discriminate|]. split; [|exact Hv]. constructor; [|constructor].
    split; [left|]. split; [intros h Hh _; apply list_elem_of_singleton in Hh; exact Hh|].
    split.
    - change (Call.call_calldata tock_call) with [1; 2; 3; 4].
      repeat constructor; vm_compute; discriminate.
    - exists []. split; reflexivity. }
  apply (corpus_save_load [tock] [entry_at 1 4; entry_at 9 1]).
  - constructor; [apply Hs|constructor; [apply Hs|constructor]]; unfold in_u256, u256_max; lia.
  - vm_compute. lia.
Defined.

(** A chain on which every call succeeds and returns a word. *)
Definition always_word (_ : list Transaction) (_ : Transaction) : TransactionResult :=
  mkResult true 1 (Some []) [] None 0 rpc_default.

#[local] Instance no_bie : BrokenInvariantError := { SELECTOR := [9; 9; 9; 9]; bie_decode _ := None }.

Definition scripted : ChainOps (list Transaction) unit := ScriptedChain.ops always_word.

Definition demo_replayer : CorpusReplayer (Chain := list Transaction) :=
  with_coverage (with_value_calldata (with_deployer (with_target (with_chain replayer_new []) 5) 6)
    [1; 1; 1; 1]) shared_new.

Definition loaded_entry : Entry (list Transaction) := mkEntry one_tock (Value.new 1) 4 0 None.

Lemma corpus_replay_sound_witness :
  exists c' n cov, replay (H := scripted) demo_replayer [loaded_entry] = Ok (Ok (c', n), cov) /\
    n = 1 /\ Forall (fun e => is_Some (chain e)) c'.
Proof.
  destruct (replay (H := scripted) demo_replayer [loaded_entry]) as [[[[c' n]|e|e] cov]|e|e] eqn:E;
    [|vm_compute in E; discriminate E..].
  exists c', n, cov. split; [reflexivity|].
  destruct (corpus_replay_sound _ _ _ _ _ E) as (Hn & Hl & He). split.
  - vm_compute in E. injection E as _ <- _. reflexivity.
  - apply Forall_forall. intros e Hin. exact (proj1 (He e Hin)).
Defined.
