(* ===== verification/ShrinkEngine.v ===== *)
(** * ShrinkEngine: the shared loop of the two shrinkers

    Models what [maxer/shrinker.rs] and [tester/shrinker.rs] have in common:
    the state shared by the shrinker threads ([SharedShrink]) and the worker
    loop ([shrink_worker]). The current item is behind a mutex and the attempt
    counter is atomic, so a worker is a sequence of atomic steps and a run is
    any interleaving of the steps of its workers. *)
From S2P Require Import Prelude.
From S2P Require Import Env.

Section Engine.
Context {Item R : Type}.
(** The length of an item's sequence, when a worker stops on the current item,
    the random candidate ([None] skips the iteration without an attempt) and
    the clean replay that validates it. *)
Context (len : Item -> nat) (stop : Item -> bool) (pick : Item -> M R (option Item)).
Context (validate : Item -> Item -> Res bool) (max_runs : Z).

Record SharedShrink : Type := mkShared { current : Item; attempts : Z }.

Definition shared_new (i : Item) : SharedShrink := mkShared i 0.

Definition update (s : SharedShrink) (candidate : Item) : bool * SharedShrink :=
  if (len candidate <? len (current s))%nat then (true, mkShared candidate (attempts s))
  else (false, s).

(** [fetch_add(1) + 1 <= max_runs]; the counter is a [u64]. *)
Definition record_attempt (s : SharedShrink) : bool * SharedShrink :=
  let a := wrap 64 (attempts s + 1) in
  (wrap 64 (attempts s) + 1 <=? max_runs, mkShared (current s) a).

Definition exhausted (s : SharedShrink) : bool := max_runs <=? attempts s.

(** Where a worker is in its loop. *)
Inductive Pc : Type :=
| AtTop
| AtRead
| AtPick (cur : Item)
| AtRecord (cur cand : Item)
| AtValidate (cur cand : Item)
| AtUpdate (cand : Item)
| Finished (r : Res unit).

Record Worker : Type := mkWorker { pc : Pc; rng : R }.

(** One atomic step of a worker; [timed_out] is what the clock answers at the
    top of the loop. *)
Definition worker_step (timed_out : bool) (s : SharedShrink) (w : Worker) : SharedShrink * Worker :=
  let go p := mkWorker p (rng w) in
  match pc w with
  | AtTop => (s, go (if exhausted s || timed_out then Finished (Ok ()) else AtRead))
  | AtRead =>
      let cur := current s in
      (s, go (if stop cur then Finished (Ok ()) else AtPick cur))
  | AtPick cur =>
      match pick cur (rng w) with
      | (Ok (Some cand), r') => (s, mkWorker (AtRecord cur cand) r')
      | (Ok None, r') => (s, mkWorker AtTop r')
      | (Err e, r') => (s, mkWorker (Finished (Err e)) r')
      | (Panic p, r') => (s, mkWorker (Finished (Panic p)) r')
      end
  | AtRecord cur cand =>
      let '(more, s') := record_attempt s in
      (s', go (if more then AtValidate cur cand else Finished (Ok ())))
  | AtValidate cur cand =>
      (s, go match validate cur cand with
             | Ok true => AtUpdate cand
             | Ok false => AtTop
             | Err e => Finished (Err e)
             | Panic p => Finished (Panic p)
             end)
  | AtUpdate cand => ((update s cand).2, go AtTop)
  | Finished _ => (s, w)
  end.

Definition finished (w : Worker) : bool := match pc w with Finished _ => true | _ => false end.

(** A skipped iteration: the candidate was empty. *)
Definition is_skip (w w' : Worker) : bool :=
  match pc w, pc w' with AtPick _, AtTop => true | _, _ => false end.

(** A replay is about to run. *)
Definition is_validation (w : Worker) : bool := match pc w with AtValidate _ _ => true | _ => false end.

(** A state of the system: the shared state, the workers, and two counters of
    the run so far, the replays and the skipped iterations. *)
Record System : Type := mkSystem {
  shared : SharedShrink;
  workers : list Worker;
  replays : Z;
  skips : Z;
}.

Inductive sys_step : System -> System -> Prop :=
| Step i w t s' w' sys :
    workers sys !! i = Some w -> finished w = false ->
    worker_step t (shared sys) w = (s', w') ->
    sys_step sys (mkSystem s' (<[i := w']> (workers sys))
                    (replays sys + (if is_validation w then 1 else 0))
                    (skips sys + (if is_skip w w' then 1 else 0))).

(** Runs, with their number of steps. *)
Inductive run : Z -> System -> System -> Prop :=
| run_nil sys : run 0 sys sys
| run_snoc n sys sys1 sys2 : run n sys sys1 -> sys_step sys1 sys2 -> run (n + 1) sys sys2.

Definition start (i : Item) (rngs : list R) : System :=
  mkSystem (shared_new i) (map (mkWorker AtTop) rngs) 0 0.

(** ** Safety *)
Section Safety.
Variable good : Item -> Prop.
Hypothesis pick_shorter : forall cur r cand r',
  good cur -> stop cur = false -> pick cur r = (Ok (Some cand), r') -> (len cand < len cur)%nat.
Hypothesis validated_good : forall cur cand r r',
  good cur -> stop cur = false -> pick cur r = (Ok (Some cand), r') ->
  validate cur cand = Ok true -> good cand.

Definition worker_ok (i : Item) (w : Worker) : Prop :=
  match pc w with
  | AtPick cur => good cur /\ stop cur = false /\ (len cur <= len i)%nat
  | AtRecord cur cand | AtValidate cur cand =>
      good cur /\ stop cur = false /\ (len cand < len cur <= len i)%nat /\
      exists r r', pick cur r = (Ok (Some cand), r')
  | AtUpdate cand => good cand /\ (len cand < len i)%nat
  | _ => True
  end.

Definition sys_ok (i : Item) (sys : System) : Prop :=
  good (current (shared sys)) /\ (len (current (shared sys)) <= len i)%nat /\
  Forall (worker_ok i) (workers sys).

Lemma worker_step_ok i t s w s' w' :
  good (current s) -> (len (current s) <= len i)%nat -> worker_ok i w ->
  worker_step t s w = (s', w') ->
  good (current s') /\ (len (current s') <= len (current s))%nat /\ worker_ok i w'.
Proof.
  intros Hg Hl Hw. unfold worker_step, worker_ok in *. destruct w as [[| |cur|cur cand|cur cand|cand|r] g];
    simpl in *.
  - intros [= <- <-]. simpl. destruct (exhausted s || t); repeat split; auto.
  - intros [= <- <-]. simpl. destruct (stop (current s)) eqn:E; simpl; repeat split; auto.
  - destruct Hw as (Hgc & Hst & Hlc). destruct (pick cur g) as [[[cand|]|e|p] g'] eqn:E;
      intros [= <- <-]; simpl; try done. split; [done|]. split; [done|].
    split; [done|]. split; [done|]. split; [|eauto]. pose proof (pick_shorter _ _ _ _ Hgc Hst E). lia.
  - intros [= <- <-]. simpl. destruct (wrap 64 (attempts s) + 1 <=? max_runs); simpl; (split; [done|]; split; [lia|]; first [exact I|exact Hw]).
  - intros [= <- <-]. simpl. destruct Hw as (Hgc & Hst & Hlc & r & r' & E).
    destruct (validate cur cand) as [[]| |] eqn:Ev; try done.
    split; [done|]. split; [done|]. split; [by eapply validated_good|lia].
  - intros [= <- <-]. unfold update. destruct Hw as [Hgc Hlc].
    destruct (Nat.ltb_spec (len cand) (len (current s))); simpl; [|done].
    split; [done|]. split; [lia|done].
  - intros [= <- <-]. done.
Qed.

Lemma run_ok i n sys sys' : run n sys sys' -> sys_ok i sys -> sys_ok i sys'.
Proof.
  induction 1 as [|n sys sys1 sys2 _ IH Hs]; [done|]. intros Hok. specialize (IH Hok).
  destruct Hs as [j w t s' w' sys1 Hj _ Hst]. destruct IH as (Hg & Hl & HF).
  assert (Hw : worker_ok i w) by (rewrite Forall_forall in HF; apply HF; by eapply list_elem_of_lookup_2).
  destruct (worker_step_ok _ _ _ _ _ _ Hg Hl Hw Hst) as (Hg' & Hl' & Hw').
  split; [done|]. simpl. split; [lia|]. by apply Forall_insert.
Qed.

Lemma start_ok i rngs : good i -> sys_ok i (start i rngs).
Proof.
  intros Hg. split; [done|]. split; [simpl; lia|]. apply Forall_map, Forall_forall. done.
Qed.
End Safety.

(** ** Budget and termination *)
Definition count_workers (p : Worker -> bool) (ws : list Worker) : Z :=
  zsum (map (fun w => if p w then 1 else 0) ws).

Lemma zsum_insert (f : Worker -> Z) ws i w w' :
  ws !! i = Some w -> zsum (map f (<[i := w']> ws)) = zsum (map f ws) - f w + f w'.
Proof.
  revert i. induction ws as [|x ws IH]; intros [|i] Hi; simpl in *; simplify_eq; [lia|].
  rewrite IH by done. lia.
Qed.

(** The weight of a program point: every step that is not a skipped iteration
    lowers the total weight plus six for every attempt left. *)
Definition rank (w : Worker) : Z :=
  match pc w with
  | AtValidate _ _ => 8
  | AtUpdate _ => 7
  | AtTop => 6
  | AtRead => 5
  | AtPick _ => 4
  | AtRecord _ _ => 3
  | Finished _ => 0
  end.

Lemma rank_range w : 0 <= rank w <= 8.
Proof. unfold rank. destruct (pc w); lia. Qed.

Lemma count_workers_le p ws : 0 <= count_workers p ws <= Z.of_nat (length ws).
Proof.
  unfold count_workers. induction ws as [|w ws IH]; simpl; [lia|]. destruct (p w); lia.
Qed.

Lemma zsum_rank_range ws : 0 <= zsum (map rank ws) <= 8 * Z.of_nat (length ws).
Proof.
  induction ws as [|w ws IH]; simpl; [lia|]. pose proof (rank_range w). lia.
Qed.

(** At most one attempt per worker goes over the budget, because that worker
    then stops; the attempts within the budget are the replays done and the
    replays pending. *)
Definition budget_inv (sys : System) : Prop :=
  0 <= attempts (shared sys) /\
  attempts (shared sys) <= max_runs + count_workers finished (workers sys) /\
  replays sys + count_workers is_validation (workers sys) <= attempts (shared sys) /\
  replays sys + count_workers is_validation (workers sys) <= max_runs.

Hypothesis max_runs_range : 0 <= max_runs.

Lemma budget_step sys sys' :
  max_runs + Z.of_nat (length (workers sys)) < 2 ^ 64 ->
  sys_step sys sys' -> budget_inv sys ->
  budget_inv sys' /\ length (workers sys') = length (workers sys) /\
  0 <= skips sys' - skips sys /\
  zsum (map rank (workers sys')) - 6 * attempts (shared sys') + 1 <=
    zsum (map rank (workers sys)) - 6 * attempts (shared sys) + 3 * (skips sys' - skips sys).
Proof.
  intros Hmax Hs. destruct Hs as [j w t s' w' sys Hj Hf Hst]. intros (Ha0 & Ha & Hr & Hv).
  assert (Hcf : count_workers finished (<[j := w']> (workers sys)) =
    count_workers finished (workers sys) + (if finished w' then 1 else 0)).
  { unfold count_workers. rewrite (zsum_insert _ _ _ _ _ Hj), Hf. lia. }
  assert (Hcv : count_workers is_validation (<[j := w']> (workers sys)) =
    count_workers is_validation (workers sys) - (if is_validation w then 1 else 0)
      + (if is_validation w' then 1 else 0)).
  { unfold count_workers. by rewrite (zsum_insert _ _ _ _ _ Hj). }
  pose proof (count_workers_le finished (workers sys)).
  pose proof (count_workers_le is_validation (workers sys)).
  assert (Hroom : count_workers finished (workers sys) + 1 <= Z.of_nat (length (workers sys))).
  { pose proof (count_workers_le finished
      (<[j := mkWorker (Finished (Ok ())) (rng w)]> (workers sys))) as Hc.
    rewrite length_insert in Hc. unfold count_workers in Hc |- *.
    rewrite (zsum_insert _ _ _ _ _ Hj), Hf in Hc. simpl in Hc. lia. }
  unfold budget_inv. simpl. rewrite length_insert, (zsum_insert _ _ _ _ _ Hj), Hcf, Hcv.
  clear Hcf Hcv. unfold worker_step in Hst.
  destruct w as [[| |cur|cur cand|cur cand|cand|r] g]; simpl in *; try done.
  - destruct (exhausted (shared sys) || t); simplify_eq; unfold rank, finished, is_skip, is_validation in *; simpl in *; lia.
  - destruct (stop (current (shared sys))); simplify_eq; unfold rank, finished, is_skip, is_validation in *; simpl in *; lia.
  - destruct (pick cur g) as [[[cand|]|e|p] g']; simplify_eq; unfold rank, finished, is_skip, is_validation in *; simpl in *; lia.
  - unfold record_attempt in Hst. simpl in Hst.
    rewrite !wrap_small in Hst by lia.
    destruct (Z.leb_spec (attempts (shared sys) + 1) max_runs); simplify_eq;
      unfold rank, finished, is_skip, is_validation in *; simpl in *; lia.
  - destruct (validate cur cand) as [[]| |]; simplify_eq; unfold rank, finished, is_skip, is_validation in *; simpl in *; lia.
  - unfold update in Hst. destruct (_ <? _)%nat; simplify_eq; unfold rank, finished, is_skip, is_validation in *; simpl in *; lia.
Qed.

Lemma run_budget n sys sys' :
  run n sys sys' -> max_runs + Z.of_nat (length (workers sys)) < 2 ^ 64 -> budget_inv sys ->
  budget_inv sys' /\ length (workers sys') = length (workers sys) /\
  skips sys <= skips sys' /\
  n + zsum (map rank (workers sys')) - 6 * attempts (shared sys') <=
    zsum (map rank (workers sys)) - 6 * attempts (shared sys) + 3 * (skips sys' - skips sys).
Proof.
  induction 1 as [|n sys sys1 sys2 _ IH Hs]; intros Hmax Hb; [split_and!; try done; lia|].
  destruct (IH Hmax Hb) as (Hb1 & Hl1 & Hsk1 & Hm1).
  destruct (budget_step sys1 sys2) as (Hb2 & Hl2 & Hsk2 & Hm2); [by rewrite Hl1|done|done|].
  split; [done|]. split; [congruence|]. split; lia.
Qed.

Lemma start_budget i rngs : budget_inv (start i rngs).
Proof.
  assert (Hc : forall p, (forall r, p (mkWorker AtTop r) = false) ->
    count_workers p (map (mkWorker AtTop) rngs) = 0).
  { intros p Hp. unfold count_workers. rewrite map_map.
    induction rngs as [|r rs IH]; simpl; [done|]. by rewrite Hp, IH. }
  unfold budget_inv, start. simpl. rewrite !Hc by done. lia.
Qed.

(** The replays never exceed the budget, and a run of any length is bounded by
    the budget, the number of workers and the skipped iterations. *)
Lemma run_bounds i rngs n sys :
  max_runs + Z.of_nat (length rngs) < 2 ^ 64 -> run n (start i rngs) sys ->
  0 <= attempts (shared sys) <= max_runs + Z.of_nat (length rngs) /\
  replays sys <= max_runs /\
  n <= 6 * max_runs + 14 * Z.of_nat (length rngs) + 3 * skips sys.
Proof.
  intros Hmax Hr. pose proof (run_budget _ _ _ Hr) as H. simpl in H. rewrite length_map in H.
  destruct (H Hmax (start_budget i rngs)) as ((Ha0 & Ha & Hrp & Hv) & Hl & Hsk & Hm).
  pose proof (count_workers_le finished (workers sys)) as Hc.
  pose proof (count_workers_le is_validation (workers sys)).
  pose proof (zsum_rank_range (workers sys)).
  pose proof (zsum_rank_range (map (mkWorker AtTop) rngs)) as Hrk.
  rewrite length_map in Hrk. rewrite Hl in Hc. lia.
Qed.

(** As long as a worker has not finished, the system can take a step: no lock
    is held between steps. *)
Lemma sys_progress sys :
  Forall (fun w => finished w = true) (workers sys) \/ exists sys', sys_step sys sys'.
Proof.
  destruct (decide (Forall (fun w => finished w = true) (workers sys))) as [|Hn]; [by left|right].
  apply not_Forall_Exists in Hn; [|apply _]. apply Exists_exists in Hn as (w & Hw & Hf).
  apply list_elem_of_lookup in Hw as [j Hj]. apply not_true_is_false in Hf.
  destruct (worker_step false (shared sys) w) as [s' w'] eqn:E. eexists. by eapply Step.
Qed.

(** Running a given schedule: which worker steps, and what the clock answers. *)
Definition step_worker (sys : System) (it : nat * bool) : option System :=
  match workers sys !! it.1 with
  | Some w =>
      if finished w then None
      else
        let '(s', w') := worker_step it.2 (shared sys) w in
        Some (mkSystem s' (<[it.1 := w']> (workers sys))
                (replays sys + (if is_validation w then 1 else 0))
                (skips sys + (if is_skip w w' then 1 else 0)))
  | None => None
  end.

Fixpoint schedule (l : list (nat * bool)) (sys : System) : option System :=
  match l with
  | [] => Some sys
  | it :: l' => sys' ← step_worker sys it; schedule l' sys'
  end.

Lemma schedule_run l sys sys' n sys0 :
  run n sys0 sys -> schedule l sys = Some sys' -> run (n + Z.of_nat (length l)) sys0 sys'.
Proof.
  revert n sys. induction l as [|[i t] l IH]; intros n sys Hr Hs; simpl in Hs.
  - simplify_eq. by replace (n + Z.of_nat (length (@nil (nat * bool)))) with n by (simpl; lia).
  - unfold step_worker in Hs. simpl in Hs. destruct (workers sys !! i) as [w|] eqn:Ew; [|done].
    destruct (finished w) eqn:Ef; [done|].
    destruct (worker_step t (shared sys) w) as [s' w'] eqn:Est. simpl in Hs.
    replace (n + Z.of_nat (length ((i, t) :: l))) with (n + 1 + Z.of_nat (length l))
      by (simpl; lia).
    eapply IH; [|exact Hs]. eapply run_snoc; [exact Hr|]. by econstructor.
Qed.
End Engine.
