(* ===== verification/MaxShrinker.v ===== *)
(** * MaxShrinker: shrinking the best sequence

    Models [maxer/shrinker.rs]: the candidate a worker picks, its validation on
    a clean clone of the chain, and the outcome of a whole run. *)
From S2P Require Import Prelude.
From S2P Require Import Env.
From S2P Require Import Transaction.
From S2P Require Import Value.
From S2P Require Import Call.
From S2P Require Import Sequence.
From S2P Require Import ChainApi.
From S2P Require Import ShrinkEngine.

Section MaxShrinker.
Context {Chain Trace R : Type} `{ChainOps Chain Trace} `{Abi} `{FastRand R}.

(** The builder and the resolved inputs. Timeouts are durations. *)
Record Shrinker : Type := mkShrinker {
  sh_chain : option Chain;
  sh_target : option Address;
  sh_deployer : option Address;
  sh_value_calldata : option Bytes;
  sh_target_value : option Value;
  sh_seed : option Z;
  sh_threads : option nat;
  sh_max_runs : option Z;
  sh_timeout : option (option Z);
}.

Record Execution : Type := mkExecution {
  ex_chain : Chain;
  ex_target : Address;
  ex_deployer : Address;
  ex_value_calldata : Bytes;
  ex_target_value : Value;
  ex_seed : Z;
  ex_threads : nat;
  ex_max_runs : Z;
  ex_timeout : option Z;
}.

Definition resolve (s : Shrinker) : Res Execution :=
  c ← context (sh_chain s) "chain not set, call Shrinker::new().with_chain(..)";
  t ← context (sh_target s) "target not set, call Shrinker::new().with_target(..)";
  d ← context (sh_deployer s) "deployer not set, call Shrinker::new().with_deployer(..)";
  v ← context (sh_value_calldata s)
        "value calldata not set, call Shrinker::new().with_value_calldata(..)";
  tv ← context (sh_target_value s)
        "target value not set, call Shrinker::new().with_target_value(..)";
  mret (mkExecution c t d v tv (default 0 (sh_seed s)) (default 1%nat (sh_threads s))
    (default 0 (sh_max_runs s)) (default None (sh_timeout s))).

(** [current.len() <= 1] stops a worker. *)
Definition stop (s : Sequence) : bool := (Sequence.len s <=? 1)%nat.

(** A random chunk to delete; an empty candidate skips the iteration. *)
Definition pick (current : Sequence) : M R (option Sequence) :=
  let len := Z.of_nat (Sequence.len current) in
  one ← draw_bool;
  chunk_len ← (if one : bool then mret 1 else draw 1 len);
  start_pos ← draw_below len;
  let end_pos := Z.min (start_pos + chunk_len) len in
  candidate ← lift (Sequence.without current (Z.to_nat start_pos) (Z.to_nat end_pos));
  if Sequence.is_empty candidate then mret None else mret (Some candidate).

(** The value after replaying a sequence on a clean clone of the chain; [None]
    when the value call reverts. *)
Definition replay_value (e : Execution) (candidate : Sequence) : Res (option Value) :=
  let value_tx := with_calldata (Transaction_new (ex_target e)) (ex_value_calldata e) in
  match exec (Sequence.transactions candidate (ex_target e) (ex_deployer e)) (ex_chain e) with
  | (Ok _, chain) =>
      match exec [value_tx] chain with
      | (Ok out, _) =>
          result ← context (head (results out)) "value call result missing";
          if success result then v ← Value.decode result; mret (Some v) else mret None
      | (Err m, _) => Err m
      | (Panic p, _) => Panic p
      end
  | (Err m, _) => Err m
  | (Panic p, _) => Panic p
  end.

(** [value >= target_value] *)
Definition reaches (e : Execution) (v : Value) : bool := get (ex_target_value e) <=? get v.

Definition validate (e : Execution) (_ candidate : Sequence) : Res bool :=
  v ← replay_value e candidate;
  mret match v with Some v => reaches e v | None => false end.

(** The generators of the workers: [seed.wrapping_add(thread_id)]. *)
Definition worker_rngs (e : Execution) : list R :=
  map (fun i => rng_with_seed (wrap 64 (ex_seed e + Z.of_nat i))) (seq 0 (ex_threads e)).

Definition shrink_start (e : Execution) (s : Sequence) : System :=
  start s (worker_rngs e).

Definition shrink_run (e : Execution) : Z -> System -> System -> Prop :=
  run Sequence.len stop pick (validate e) (ex_max_runs e).

(** The outcome of [shrink]: a sequence of at most one call is returned as it
    is; otherwise the workers run, in some interleaving, until all have
    finished, and the current sequence is returned unless one of them failed. *)
Inductive shrink (args : Shrinker) (s : Sequence) : Res Sequence -> Prop :=
| shrink_short : (Sequence.len s <= 1)%nat -> shrink args s (Ok s)
| shrink_missing e :
    (1 < Sequence.len s)%nat -> resolve args = Err e -> shrink args s (Err e)
| shrink_done e n sys :
    (1 < Sequence.len s)%nat -> resolve args = Ok e ->
    shrink_run e n (shrink_start e s) sys ->
    Forall (fun w => pc w = Finished (Ok ())) (workers sys) ->
    shrink args s (Ok (current (shared sys)))
| shrink_failed e n sys w m :
    (1 < Sequence.len s)%nat -> resolve args = Ok e ->
    shrink_run e n (shrink_start e s) sys ->
    Forall (fun w => finished w = true) (workers sys) ->
    w ∈ workers sys -> (pc w = Finished (Err m) \/ exists p, pc w = Finished (Panic p)) ->
    shrink args s (Err "shrinker(s) failed").

(** A sequence reaches the target: its clean replay measures at least the
    target value. *)
Definition reaches_target (e : Execution) (s : Sequence) : Prop :=
  exists v, replay_value e s = Ok (Some v) /\ get (ex_target_value e) <= get v.

Context `{!FastRandLaws R}.

Lemma pick_Some cur r cand r' :
  stop cur = false -> pick cur r = (Ok (Some cand), r') ->
  (0 < Sequence.len cand < Sequence.len cur)%nat /\
  Sequence.calls cand `sublist_of` Sequence.calls cur.
Proof.
  unfold stop, pick. intros Hst Hp. apply Nat.leb_gt in Hst.
  apply M_bind_Ok in Hp as (one & r1 & _ & Hp).
  apply M_bind_Ok in Hp as (chunk & r2 & Hc & Hp).
  assert (Hchunk : 1 <= chunk) by (destruct one; [by apply M_ret_Ok in Hc as [<- _]|apply draw_Ok in Hc; lia]).
  apply M_bind_Ok in Hp as (sp & r3 & Hs%draw_below_Ok & Hp).
  apply M_bind_Ok in Hp as (c & r4 & Hw & Hp). unfold lift in Hw. injection Hw as Hw _.
  apply Sequence.without_Ok in Hw as (Hr & Hl & Hsub).
  destruct (Sequence.is_empty c) eqn:He; apply M_ret_Ok in Hp as [Hp _]; simplify_eq.
  split; [|done]. split; [|lia].
  destruct (Sequence.len cand) eqn:El; [|lia].
  unfold Sequence.is_empty in He. by rewrite El in He.
Qed.

Lemma pick_total cur r :
  stop cur = false -> exists o r', pick cur r = (Ok o, r').
Proof.
  unfold stop, pick. intros Hst. apply Nat.leb_gt in Hst. unfold draw_bool.
  set (n := Z.of_nat (Sequence.len cur)).
  assert (Hchunk : forall (one : bool) r1, exists chunk r2,
    (if one then mret 1 else draw 1 n) r1 = (Ok chunk, r2) /\ 1 <= chunk).
  { intros [] r1; [exists 1, r1; done|]. destruct (draw_total 1 n r1) as (c & r2 & Hc); [lia|].
    exists c, r2. split; [done|]. apply draw_Ok in Hc. lia. }
  destruct (rng_bool r) as [one r1] eqn:Eb.
  destruct (Hchunk one r1) as (chunk & r2 & Hc & Hc1).
  destruct (draw_total 0 (n - 1) r2) as (sp & r3 & Hs); [lia|].
  pose proof (draw_Ok _ _ _ _ _ Hs) as Hsp.
  destruct (Sequence.without_total cur (Z.to_nat sp) (Z.to_nat (Z.min (sp + chunk) n))) as [c Hw]; [lia|].
  assert (Hrun : exists o r', (start_pos ← draw_below n;
     candidate ← lift (Sequence.without cur (Z.to_nat start_pos) (Z.to_nat (Z.min (start_pos + chunk) n)));
     if Sequence.is_empty candidate then mret None else mret (Some candidate)) r2 = (Ok o, r')).
  { unfold draw_below. rewrite (M_bind_run _ _ _ _ _ Hs). rewrite Hw.
    unfold lift, mbind, M_bind. destruct (Sequence.is_empty c); by eexists _, _. }
  destruct Hrun as (o & r' & Hrun). exists o, r'.
  unfold mbind at 1, M_bind at 1. rewrite Eb. by rewrite (M_bind_run _ _ _ _ _ Hc).
Qed.

(** What a run keeps of its item, for a start that is not yet minimal. *)
Definition kept (e : Execution) (s0 s : Sequence) : Prop :=
  Sequence.calls s `sublist_of` Sequence.calls s0 /\ (s = s0 \/ reaches_target e s).

Lemma validate_true e cur cand : validate e cur cand = Ok true -> reaches_target e cand.
Proof.
  unfold validate, reaches_target, reaches. destruct (replay_value e cand) as [[v|]| |] eqn:E; simpl; try done.
  intros [= Hv]. exists v. split; [done|lia].
Qed.

Lemma shrink_kept e s n sys :
  shrink_run e n (shrink_start e s) sys ->
  kept e s (current (shared sys)) /\ (Sequence.len (current (shared sys)) <= Sequence.len s)%nat.
Proof.
  intros Hrun. unfold shrink_run in Hrun.
  apply (run_ok _ _ _ _ _ (kept e s)) with (i := s) in Hrun as (Hk & Hl & _); [done|..].
  - intros cur r cand r' _ Hst Hp. by apply pick_Some in Hp as [[_ ?] _].
  - intros cur cand r r' [Hsub _] Hst Hp Hv. apply pick_Some in Hp as [_ Hs]; [|done].
    split; [by etrans|]. right. by apply validate_true in Hv.
  - apply start_ok. split; [done|by left].
Qed.
End MaxShrinker.

(** ** Properties *)
Section Properties.
Context {Chain Trace R : Type} `{ChainOps Chain Trace} `{Abi} `{FastRandLaws R}.

Lemma shrink_result (args : Shrinker (Chain := Chain)) s s' :
  shrink (R := R) args s (Ok s') ->
  Sequence.calls s' `sublist_of` Sequence.calls s /\
  (Sequence.len s' <= Sequence.len s)%nat /\
  (s' = s \/ exists e, resolve args = Ok e /\ reaches_target e s').
Proof.
  intros Hs. inversion Hs as [Hl| |e n sys Hl He Hrun Hfin|]; subst.
  - auto.
  - apply shrink_kept in Hrun as [[Hsub Hor] Hlen]. split; [done|]. split; [done|].
    destruct Hor as [->|Hr]; [by left|right; eauto].
Qed.

(** C6: whatever the interleaving of its workers, a successful shrink returns
    a sublist of the calls it was given, hence never a longer sequence, and
    either the given sequence itself or one whose replay on a clean clone of
    the chain measures at least the target value. *)
Theorem max_shrink_sound (args : Shrinker (Chain := Chain)) s s' :
  shrink (R := R) args s (Ok s') ->
  Sequence.calls s' `sublist_of` Sequence.calls s /\
  (Sequence.len s' <= Sequence.len s)%nat /\
  (s' = s \/ exists e, resolve args = Ok e /\ reaches_target e s').
Proof. apply shrink_result. Qed.

(** the workers share one budget: in any interleaving at most [max_runs]
    candidates are replayed and the counter overshoots by at most one per
    worker; a run is finite, its steps bounded by the budget, the workers and
    the iterations skipped for an empty candidate, and it can always go on
    until every worker has finished. *)
Theorem max_shrink_budget (e : Execution (Chain := Chain)) s n sys :
  0 <= ex_max_runs e -> ex_max_runs e + Z.of_nat (ex_threads e) < 2 ^ 64 ->
  shrink_run (R := R) e n (shrink_start e s) sys ->
  replays sys <= ex_max_runs e /\
  attempts (shared sys) <= ex_max_runs e + Z.of_nat (ex_threads e) /\
  n <= 6 * ex_max_runs e + 14 * Z.of_nat (ex_threads e) + 3 * skips sys /\
  (Forall (fun w => finished w = true) (workers sys) \/
   exists sys', sys_step Sequence.len stop pick (validate e) (ex_max_runs e) sys sys').
Proof.
  intros Hm Hmax Hrun. unfold shrink_run, shrink_start in Hrun.
  assert (Hlen : length (worker_rngs (R := R) e) = ex_threads e)
    by (unfold worker_rngs; rewrite length_map; apply length_seq).
  destruct (run_bounds Sequence.len stop pick (validate e) (ex_max_runs e) Hm s (worker_rngs e) n sys) as (Ha & Hr & Hn); [by rewrite Hlen|done|].
  rewrite Hlen in Ha, Hn. split; [done|]. split; [lia|]. split; [done|]. apply sys_progress.
Qed.
End Properties.

(** ** Witnesses: one worker deletes one of two calls that do not matter. *)
Import Toy.

Definition nop_call : Call.Call := Call.new (mkFunction "nop" [] [] NonPayable) (VTuple []).
Definition two_nops : Sequence := Sequence.new [nop_call; nop_call].

Definition word_reply (_ : list Transaction) (_ : Transaction) : TransactionResult :=
  mkResult true 1 (Some []) [] None 0 rpc_default.
#[local] Instance no_bie : BrokenInvariantError := { SELECTOR := [9; 9; 9; 9]; bie_decode _ := None }.
#[local] Instance word_chain : ChainOps (list Transaction) unit := ScriptedChain.ops word_reply.

Definition demo : Shrinker (Chain := list Transaction) :=
  mkShrinker (Some []) (Some 5) (Some 6) (Some [1; 1; 1; 1]) (Some (Value.new 7)) (Some 1)
    (Some 1%nat) (Some 1) None.
Definition demo_execution : Execution (Chain := list Transaction) :=
  mkExecution [] 5 6 [1; 1; 1; 1] (Value.new 7) 1 1 1 None.

Definition demo_schedule : list (nat * bool) := repeat (0%nat, false) 7.
Definition demo_final : option (System (Item := Sequence) (R := Z)) :=
  schedule Sequence.len stop pick (validate demo_execution) 1 demo_schedule
    (shrink_start demo_execution two_nops).

Lemma demo_run sys : demo_final = Some sys -> shrink_run demo_execution 7 (shrink_start demo_execution two_nops) sys.
Proof.
  intros Hs. unfold demo_final in Hs.
  pose proof (schedule_run _ _ _ _ _ _ _ _ _ _ (run_nil _ _ _ _ _ _) Hs) as Hr. exact Hr.
Qed.

Lemma max_shrink_sound_witness :
  exists s', shrink (R := Z) demo two_nops (Ok s') /\ Sequence.len s' = 1%nat /\
    exists e, resolve demo = Ok e /\ reaches_target e s'.
Proof.
  destruct demo_final as [sys|] eqn:E; [|vm_compute in E; discriminate E].
  assert (Hs : shrink (R := Z) demo two_nops (Ok (current (shared sys)))).
  { eapply (shrink_done _ _ demo_execution 7 sys); [vm_compute; lia|reflexivity|by apply demo_run|].
    vm_compute in E. injection E as <-. repeat constructor. }
  exists (current (shared sys)). split; [exact Hs|].
  destruct (max_shrink_sound _ _ _ Hs) as (_ & _ & Hor).
  vm_compute in E. injection E as <-. split; [reflexivity|].
  destruct Hor as [Heq|Hr]; [discriminate Heq|exact Hr].
Defined.

Lemma max_shrink_budget_witness :
  exists sys, demo_final = Some sys /\ replays sys <= 1.
Proof.
  destruct demo_final as [sys|] eqn:E; [|vm_compute in E; discriminate E].
  exists sys. split; [reflexivity|].
  destruct (max_shrink_budget demo_execution two_nops 7 sys) as [H _];
    [vm_compute; discriminate|vm_compute; reflexivity|by apply demo_run|exact H].
Defined.
