(* ===== verification/TestSequence.v ===== *)
(** * TestSequence: calls and sequences of the tester

    Models [tester/corpus/call.rs] and [tester/corpus/sequence.rs]. The
    generator of argument values is the argument [gen] of the random
    constructors; [Rvg] gives it. *)
From S2P Require Import Prelude.
From S2P Require Import Env.
From S2P Require Import Transaction.

Record Call : Type := mkCall { function : Function; args : DynSolValue }.
Record Sequence : Type := mkSequence { calls : list Call }.

Definition empty : Sequence := mkSequence [].

Section Random.
Context {R : Type} `{FastRand R} `{Abi}.
Context (gen : DynSolType -> M R DynSolValue).

Definition random_call (f : Function) : M R Call :=
  inputs ← mapMM (fun input =>
    ty ← lift (with_context "failed to resolve type" (resolve input)); gen ty) (fn_inputs f);
  mret (mkCall f (VTuple inputs)).

Definition random (handlers : list Function) (max_calls : Z) : M R Sequence :=
  _ ← lift (ensure (negb (bool_decide (handlers = [])))
      "no handler functions to generate calls from");
  len ← draw 1 (Z.max max_calls 1);
  cs ← repeatM (Z.to_nat len) (f ← draw_item handlers; random_call f);
  mret (mkSequence cs).
End Random.

Definition len (s : Sequence) : nat := length (calls s).
Definition is_empty (s : Sequence) : bool := bool_decide (len s = 0%nat).

Section Encoding.
Context `{Abi}.

Definition call_signature (c : Call) : string := signature (function c).

Definition call_calldata (c : Call) : Bytes :=
  selector (function c) ++ abi_encode_params (args c).

Definition call_transaction (c : Call) (tgt clr : Address) : Transaction :=
  with_calldata (with_caller (Transaction_new tgt) clr) (call_calldata c).

Definition transactions (s : Sequence) (tgt clr : Address) : list Transaction :=
  map (fun c => call_transaction c tgt clr) (calls s).

Definition display (s : Sequence) : string :=
  String.concat ", " (map call_signature (calls s)).
End Encoding.

Definition without (s : Sequence) (a b : nat) : Res Sequence :=
  cs ← vec_drain (calls s) a b; mret (mkSequence cs).

Lemma without_len_sublist s a b s' :
  without s a b = Ok s' ->
  (a <= b <= len s)%nat /\ len s' = (len s - (b - a))%nat /\ calls s' `sublist_of` calls s.
Proof.
  unfold without. intros H. inv_ok. apply vec_drain_Ok in H as [Hab ->].
  split; [done|]. unfold len in *. simpl. rewrite length_app, length_take, length_drop.
  split; [lia|]. rewrite <- (take_drop a (calls s)) at 3. apply sublist_app; [done|].
  replace b with (a + (b - a))%nat by lia. rewrite <- drop_drop. apply sublist_drop.
Qed.

Lemma without_in_range s a b : (a <= b <= len s)%nat -> exists s', without s a b = Ok s'.
Proof. intros Hab. unfold without, vec_drain. rewrite bool_decide_true by done. by eexists. Qed.

Section Laws.
Context {R : Type} `{FastRandLaws R} `{Abi}.
Context (gen : DynSolType -> M R DynSolValue).

Lemma random_len handlers max_calls r s r' :
  random gen handlers max_calls r = (Ok s, r') ->
  1 <= Z.of_nat (len s) <= Z.max max_calls 1 /\ Forall (fun c => function c ∈ handlers) (calls s).
Proof.
  unfold random. intros Hr. inv_ok.
  match goal with H : draw _ _ _ = _ |- _ => apply draw_Ok in H end.
  match goal with H : repeatM _ _ _ = _ |- _ =>
    eapply (repeatM_Ok (fun c => function c ∈ handlers)) in H as [Hl HF] end.
  - unfold len. simpl. split; [lia|done].
  - intros s0 c s1 Hc. inv_ok.
    match goal with H : draw_item _ _ = _ |- _ => apply draw_item_Ok in H end.
    match goal with H : random_call _ _ _ = _ |- _ => unfold random_call in H end.
    inv_ok. done.
Qed.
End Laws.
