(* ===== verification/Stop.v ===== *)
(** * Stop: the stop filters of a test campaign

    Models [tester/stop.rs]. *)
From S2P Require Import Prelude.
From S2P Require Import Env.
From S2P Require Import Transaction.

Definition REVERT_PREFIX : string := "REVERT:".
Definition PANIC_PREFIX : string := "PANIC:".

(** The [sol!]-generated decoder of [Panic(uint256)] and the hexadecimal text
    of a code: [format!("{:02x}")] and [U256::from_str_radix(_, 16)]. *)
Class PanicError : Type := { panic_decode : Bytes -> option U256 }.
Class HexNumber : Type := {
  hex02 : U256 -> string;
  from_str_radix16 : string -> Res U256;
}.
Class HexNumberLaws `{HexNumber} : Prop := {
  radix16_hex02 : forall u, in_u256 u -> from_str_radix16 (hex02 u) = Ok u;
}.

Inductive StopOnRevert : Type := RAny | RSelector (sel : Bytes).
Inductive StopOnPanic : Type := PAny | PCode (code : U256).

#[export] Instance StopOnRevert_eq_dec : EqDecision StopOnRevert.
Proof. solve_decision. Defined.
#[export] Instance StopOnPanic_eq_dec : EqDecision StopOnPanic.
Proof. solve_decision. Defined.

Section Stop.
Context `{Text} `{BrokenInvariantError} `{PanicError} `{HexNumber}.

(** ** Reverts *)
Definition revert_matches (f : StopOnRevert) (r : TransactionResult) : bool :=
  if success r then false
  else match f with
       | RAny => bool_decide (broken_invariant r = None)
       | RSelector sel =>
           match output r with
           | Some out => (4 <=? length out)%nat && bool_decide (take 4 out = sel)
           | None => false
           end
       end.

Definition revert_finding_id (r : TransactionResult) : string :=
  match output r with
  | Some out =>
      if (4 <=? length out)%nat then REVERT_PREFIX +:+ ("0x" +:+ hex_encode (take 4 out))
      else if bool_decide (out = []) then REVERT_PREFIX +:+ "empty"
      else REVERT_PREFIX +:+ ("0x" +:+ hex_encode out)
  | None => REVERT_PREFIX +:+ "halt"
  end.

Definition is_revert_finding (id : string) : bool := starts_with REVERT_PREFIX id.

Definition revert_matches_expected (r : TransactionResult) (expected_id : string) : bool :=
  match strip_prefix REVERT_PREFIX expected_id with
  | None => false
  | Some suffix =>
      if success r then false
      else if bool_decide (suffix = "halt"%string) then bool_decide (output r = None)
      else if bool_decide (suffix = "empty"%string) then bool_decide (output r = Some [])
      else match strip_prefix "0x" suffix with
           | None => false
           | Some selector_hex =>
               match hex_decode selector_hex with
               | Ok sel =>
                   match output r with
                   | Some out =>
                       if (length sel =? 4)%nat
                       then (4 <=? length out)%nat && bool_decide (take 4 out = sel)
                       else bool_decide (out = sel)
                   | None => false
                   end
               | _ => false
               end
           end
  end.

Definition revert_display (f : StopOnRevert) : string :=
  match f with RAny => "any" | RSelector sel => "0x" +:+ hex_encode sel end.

Definition revert_from_str (input : string) : Res StopOnRevert :=
  if bool_decide (input = "any"%string) || bool_decide (input = "*"%string) then Ok RAny
  else
    let error := "stop on revert must be `any` or a `0x`-prefixed 4-byte selector like `0xaa9a98df`" in
    digits ← context (strip_prefix "0x" input) error;
    if negb (String.length digits =? 8)%nat then Err error
    else
      decoded ← with_context error (hex_decode digits);
      if (length decoded =? 4)%nat then Ok (RSelector decoded) else Err error.

(** ** Panics *)
Definition panic_code (r : TransactionResult) : option U256 :=
  out ← output r; panic_decode out.

Definition panic_matches (f : StopOnPanic) (r : TransactionResult) : bool :=
  if success r then false
  else match panic_code r with
       | None => false
       | Some code => match f with PAny => true | PCode c => code =? c end
       end.

Definition panic_finding_id (r : TransactionResult) : string :=
  match panic_code r with
  | Some code => PANIC_PREFIX +:+ ("0x" +:+ hex02 code)
  | None => PANIC_PREFIX +:+ "unknown"
  end.

Definition is_panic_finding (id : string) : bool := starts_with PANIC_PREFIX id.

Definition panic_matches_expected (r : TransactionResult) (expected_id : string) : bool :=
  match strip_prefix PANIC_PREFIX expected_id with
  | None => false
  | Some suffix =>
      if success r then false
      else if bool_decide (suffix = "unknown"%string) then bool_decide (is_Some (panic_code r))
      else match strip_prefix "0x" suffix with
           | None => false
           | Some code_hex =>
               match from_str_radix16 code_hex with
               | Ok expected =>
                   match panic_code r with Some code => code =? expected | None => false end
               | _ => false
               end
           end
  end.

Definition panic_display (f : StopOnPanic) : string :=
  match f with PAny => "any" | PCode c => "0x" +:+ hex02 c end.

Definition panic_from_str (input : string) : Res StopOnPanic :=
  if bool_decide (input = "any"%string) || bool_decide (input = "*"%string) then Ok PAny
  else
    let error := "stop on panic must be `any` or a panic code like `0x01` or `1`" in
    code ← match strip_prefix "0x" input with
           | Some digits => with_context error (from_str_radix16 digits)
           | None => with_context error (u256_parse input)
           end;
    Ok (PCode code).

(** ** Lemmas *)
Context `{!TextLaws} `{!HexNumberLaws}.

Definition output_ok (r : TransactionResult) : Prop :=
  match output r with Some out => Forall byte_ok out | None => True end.

Lemma hex_encode_inj a b :
  Forall byte_ok a -> Forall byte_ok b -> hex_encode a = hex_encode b -> a = b.
Proof.
  intros Ha Hb Heq. pose proof (hex_decode_encode a Ha) as Hd.
  rewrite Heq, hex_decode_encode in Hd by done. naive_solver.
Qed.

Lemma hex_id_expected r bs :
  Forall byte_ok bs ->
  revert_matches_expected r (REVERT_PREFIX +:+ ("0x" +:+ hex_encode bs)) =
    negb (success r) &&
    match output r with
    | Some out => if (length bs =? 4)%nat then (4 <=? length out)%nat && bool_decide (take 4 out = bs)
                  else bool_decide (out = bs)
    | None => false
    end.
Proof.
  intros Hb. unfold revert_matches_expected. rewrite strip_prefix_app.
  destruct (success r); [done|]. rewrite !bool_decide_false by done.
  by rewrite strip_prefix_app, hex_decode_encode.
Qed.

Lemma take4_bytes out : Forall byte_ok out -> Forall byte_ok (take 4 out).
Proof. apply Forall_take. Qed.

Lemma revert_id_cases r :
  revert_finding_id r =
    match output r with
    | Some [] => REVERT_PREFIX +:+ "empty"
    | Some out => REVERT_PREFIX +:+ ("0x" +:+ hex_encode (take 4 out))
    | None => REVERT_PREFIX +:+ "halt"
    end.
Proof.
  unfold revert_finding_id. destruct (output r) as [out|]; [|done].
  destruct (Nat.leb_spec 4 (length out)); [by destruct out; simpl in *; [lia|]|].
  case_bool_decide; [by subst|]. rewrite take_ge by lia. by destruct out.
Qed.

(** The id of a failure identifies it up to its first four bytes. *)
Lemma revert_expected_iff r r0 :
  output_ok r -> output_ok r0 ->
  revert_matches_expected r (revert_finding_id r0) = true <->
  success r = false /\ revert_finding_id r = revert_finding_id r0.
Proof.
  unfold output_ok. intros Hr Hr0. rewrite !revert_id_cases.
  destruct (output r0) as [[|b0 out0]|] eqn:E0.
  - unfold revert_matches_expected. rewrite strip_prefix_app.
    destruct (success r); [naive_solver|]. rewrite bool_decide_false by done.
    rewrite bool_decide_true by done. rewrite bool_decide_eq_true.
    destruct (output r) as [[|b out]|]; naive_solver.
  - rewrite hex_id_expected by (by apply take4_bytes).
    destruct (success r); [naive_solver|]. simpl negb. cbn [andb].
    set (sel := take 4 (b0 :: out0)) in *.
    assert (Hsel : Forall byte_ok sel) by (by apply take4_bytes).
    destruct (output r) as [[|b out]|] eqn:E.
    + split; [|intros [_ ?]; done].
      intros Hx. exfalso. revert Hx. destruct (length sel =? 4)%nat; [done|].
      rewrite bool_decide_eq_true. done.
    + set (o := b :: out) in *. assert (Ho : Forall byte_ok (take 4 o)) by (by apply take4_bytes).
      assert (Hlen : length sel = Nat.min 4 (length (b0 :: out0))) by apply length_take.
      assert (Hiff : take 4 o = sel <-> REVERT_PREFIX +:+ ("0x" +:+ hex_encode (take 4 o)) =
                                        REVERT_PREFIX +:+ ("0x" +:+ hex_encode sel)).
      { split; [by intros ->|]. intros Heq%string_app_inj%string_app_inj. by apply hex_encode_inj. }
      destruct (Nat.eqb_spec (length sel) 4) as [Hl4|Hl4].
      * rewrite andb_true_iff, bool_decide_eq_true, Nat.leb_le. rewrite <- Hiff.
        split; [by intros [_ ?]|]. intros [_ Heq]. split; [|done].
        rewrite <- Heq, length_take in Hl4. lia.
      * rewrite bool_decide_eq_true, <- Hiff. split.
        -- intros ->. split; [done|]. apply take_ge. lia.
        -- intros [_ Heq]. assert (Ht : length (take 4 o) = length sel) by congruence.
           rewrite length_take in Ht. rewrite <- Heq. symmetry. apply take_ge. lia.
    + naive_solver.
  - unfold revert_matches_expected. rewrite strip_prefix_app.
    destruct (success r); [naive_solver|]. rewrite bool_decide_true by done.
    rewrite bool_decide_eq_true. destruct (output r) as [[|b out]|]; naive_solver.
Qed.

Lemma panic_expected_iff r code :
  in_u256 code ->
  panic_matches_expected r (PANIC_PREFIX +:+ ("0x" +:+ hex02 code)) = true <->
  success r = false /\ panic_code r = Some code.
Proof.
  intros Hc. unfold panic_matches_expected. rewrite strip_prefix_app.
  destruct (success r); [naive_solver|]. rewrite bool_decide_false by done.
  rewrite strip_prefix_app, radix16_hex02 by done.
  destruct (panic_code r) as [c|]; [|naive_solver].
  rewrite Z.eqb_eq. naive_solver.
Qed.
End Stop.

(** ** Properties *)
Section Properties.
Context `{TextLaws} `{BrokenInvariantError} `{PanicError} `{HexNumberLaws}.

(** replaying reproduces a stop-on-revert finding exactly when the replay
    fails with the recorded revert identity (the same first four bytes, the
    same shorter output, both empty or both a halt), and a stop-on-panic
    finding exactly when it panics with the recorded code. *)
Theorem stop_finding_identity r r0 :
  output_ok r -> output_ok r0 ->
  (revert_matches_expected r (revert_finding_id r0) = true <->
     success r = false /\ revert_finding_id r = revert_finding_id r0) /\
  (forall code, panic_code r0 = Some code -> in_u256 code ->
     panic_matches_expected r (panic_finding_id r0) = true <->
     success r = false /\ panic_code r = Some code).
Proof.
  intros Hr Hr0. split; [by apply revert_expected_iff|].
  intros code Hc Hu. unfold panic_finding_id. rewrite Hc. by apply panic_expected_iff.
Qed.

(** the finding ids of the two filters never mix, an explicit
    broken-invariant report is never a stop-on-any-revert finding, and the text
    of a filter parses back to it. *)
Theorem stop_filters_disjoint_and_roundtrip r sel code :
  length sel = 4%nat -> Forall byte_ok sel -> in_u256 code ->
  (is_revert_finding (revert_finding_id r) = true /\ is_panic_finding (revert_finding_id r) = false /\
   is_panic_finding (panic_finding_id r) = true /\ is_revert_finding (panic_finding_id r) = false) /\
  (is_Some (broken_invariant r) -> revert_matches RAny r = false) /\
  revert_from_str (revert_display (RSelector sel)) = Ok (RSelector sel) /\
  revert_from_str (revert_display RAny) = Ok RAny /\
  panic_from_str (panic_display (PCode code)) = Ok (PCode code) /\
  panic_from_str (panic_display PAny) = Ok PAny.
Proof.
  intros Hlen Hsel Hcode. split; [|split; [|split; [|split; [done|split; [|done]]]]].
  - rewrite revert_id_cases. unfold is_revert_finding, is_panic_finding, panic_finding_id.
    destruct (output r) as [[|b out]|], (panic_code r) as [c|]; rewrite !starts_with_app; by split_and!.
  - intros [bi Hbi]. unfold revert_matches. destruct (success r); [done|].
    apply bool_decide_eq_false. congruence.
  - unfold revert_from_str, revert_display. rewrite !bool_decide_false by done.
    cbn [orb]. rewrite strip_prefix_app. simpl. rewrite hex_encode_length, Hlen. simpl.
    rewrite hex_decode_encode by done. simpl. by rewrite Hlen.
  - unfold panic_from_str, panic_display. rewrite !bool_decide_false by done.
    cbn [orb]. rewrite strip_prefix_app. by rewrite radix16_hex02.
Qed.
End Properties.

(** ** Witnesses *)
Import Toy.

#[local] Instance toy_panic : PanicError := { panic_decode out := head out }.
#[local] Instance toy_bie : BrokenInvariantError := { SELECTOR := [9; 9; 9; 9]; bie_decode _ := None }.
#[local] Instance toy_hex : HexNumber := {
  hex02 := u256_to_string; from_str_radix16 := u256_parse;
}.
#[local] Instance toy_hex_laws : HexNumberLaws.
Proof. split. apply u256_parse_to_string. Defined.

Definition reverted (out : Bytes) : TransactionResult := mkResult false 1 (Some out) [] None 0 rpc_default.

Lemma stop_finding_identity_witness :
  revert_matches_expected (reverted [1; 2; 3; 4; 9]) (revert_finding_id (reverted [1; 2; 3; 4])) = true.
Proof.
  apply (proj1 (stop_finding_identity (reverted [1; 2; 3; 4; 9]) (reverted [1; 2; 3; 4])
    ltac:(repeat constructor; vm_compute; discriminate)
    ltac:(repeat constructor; vm_compute; discriminate))).
  split; reflexivity.
Defined.

Lemma stop_filters_disjoint_and_roundtrip_witness :
  revert_from_str (revert_display (RSelector [170; 154; 152; 223])) = Ok (RSelector [170; 154; 152; 223]).
Proof.
  apply (stop_filters_disjoint_and_roundtrip (reverted []) [170; 154; 152; 223] 1).
  - reflexivity.
  - repeat constructor; vm_compute; discriminate.
  - unfold in_u256, u256_max. lia.
Defined.
