(* ===== verification/TestBroken.v ===== *)
(** * TestBroken: broken invariants and their shared collection

    Models the data half of [tester/broken_invariant.rs]. The collection is
    behind a mutex, so [try_add] is one atomic step. *)
From S2P Require Import Prelude.
From S2P Require Import Env.
From S2P Require Import TestSequence.

Record BrokenInvariant : Type := mkBroken {
  sequence : Sequence;
  id : string;
  description : string;
}.

Definition new : BrokenInvariant := mkBroken TestSequence.empty "" "".
Definition with_id (b : BrokenInvariant) (i : string) : BrokenInvariant :=
  mkBroken (sequence b) i (description b).
Definition with_description (b : BrokenInvariant) (d : string) : BrokenInvariant :=
  mkBroken (sequence b) (id b) d.
Definition with_calls (b : BrokenInvariant) (s : Sequence) : BrokenInvariant :=
  mkBroken s (id b) (description b).

Definition reason_display (b : BrokenInvariant) : string :=
  if bool_decide (description b = EmptyString) then id b else description b.

Definition key (b : BrokenInvariant) : string := id b.

Record SharedBrokenInvariants : Type := mkSharedBroken {
  broken_invariants : list BrokenInvariant;
  keys : gset string;
  max : nat;
}.

Definition shared_new (m : nat) : SharedBrokenInvariants := mkSharedBroken [] ∅ m.

Definition is_full (s : SharedBrokenInvariants) : bool :=
  (max s <=? length (broken_invariants s))%nat.

Definition try_add (broken : BrokenInvariant) (s : SharedBrokenInvariants)
    : bool * SharedBrokenInvariants :=
  match list_find (fun item => id item = id broken) (broken_invariants s) with
  | Some (i, existing) =>
      (false,
       if (TestSequence.len (sequence broken) <? TestSequence.len (sequence existing))%nat
       then mkSharedBroken (<[i := broken]> (broken_invariants s)) (keys s) (max s)
       else s)
  | None =>
      if is_full s then (false, s)
      else (true, mkSharedBroken (broken_invariants s ++ [broken]) ({[ key broken ]} ∪ keys s) (max s))
  end.

Definition add_all (m : nat) (l : list BrokenInvariant) : SharedBrokenInvariants :=
  foldl (fun s b => (try_add b s).2) (shared_new m) l.

(** ** Specification: the distinct ids in discovery order *)
Definition firsts (l : list string) : list string :=
  foldl (fun acc x => if decide (x ∈ acc) then acc else acc ++ [x]) [] l.

Lemma firsts_snoc l x :
  firsts (l ++ [x]) = if decide (x ∈ firsts l) then firsts l else firsts l ++ [x].
Proof. unfold firsts. by rewrite foldl_snoc. Qed.

Lemma firsts_NoDup l : NoDup (firsts l).
Proof.
  induction l as [|x l IH] using rev_ind; [constructor|]. rewrite firsts_snoc.
  case_decide; [done|]. apply NoDup_app. split; [done|]. split; [set_solver|apply NoDup_singleton].
Qed.

Lemma elem_of_firsts x l : x ∈ firsts l <-> x ∈ l.
Proof.
  induction l as [|y l IH] using rev_ind; [done|]. rewrite firsts_snoc, elem_of_app, list_elem_of_singleton.
  case_decide as Hy; [|rewrite elem_of_app, list_elem_of_singleton, IH; done].
  rewrite IH. split; [auto|]. intros [?| ->]; [done|]. by apply IH.
Qed.

Definition ids (s : SharedBrokenInvariants) : list string := map id (broken_invariants s).

Lemma try_add_cases b s :
  (exists i existing, broken_invariants s !! i = Some existing /\ id existing = id b /\
     (try_add b s).1 = false /\
     (((TestSequence.len (sequence b) < TestSequence.len (sequence existing))%nat /\
        (try_add b s).2 = mkSharedBroken (<[i := b]> (broken_invariants s)) (keys s) (max s)) \/
      ((TestSequence.len (sequence existing) <= TestSequence.len (sequence b))%nat /\
        (try_add b s).2 = s))) \/
  ((id b ∉ ids s) /\ (max s <= length (broken_invariants s))%nat /\ try_add b s = (false, s)) \/
  ((id b ∉ ids s) /\ (length (broken_invariants s) < max s)%nat /\
     try_add b s =
       (true, mkSharedBroken (broken_invariants s ++ [b]) ({[ key b ]} ∪ keys s) (max s))).
Proof.
  unfold try_add, is_full. destruct (list_find _ _) as [[i existing]|] eqn:E.
  - left. apply list_find_Some in E as (Hi & Hid & _). exists i, existing.
    split; [done|]. split; [done|]. split; [done|]. simpl.
    destruct (Nat.ltb_spec (TestSequence.len (sequence b)) (TestSequence.len (sequence existing)));
      [left|right]; done.
  - right. apply list_find_None in E. assert (Hn : id b ∉ ids s).
    { unfold ids. intros (x & Hx & Hin)%list_elem_of_fmap. rewrite Forall_forall in E.
      by apply (E x Hin). }
    destruct (Nat.leb_spec (max s) (length (broken_invariants s))); [left|right]; done.
Qed.

Lemma elem_of_try_add b s x :
  x ∈ broken_invariants (try_add b s).2 -> x ∈ broken_invariants s \/ x = b.
Proof.
  destruct (try_add_cases b s) as [(i & y & Hi & _ & _ & [[_ ->]|[_ ->]])|[(_ & _ & ->)|(_ & _ & ->)]];
    simpl; auto.
  - intros [j Hj]%list_elem_of_lookup. destruct (decide (i = j)) as [<-|Hne].
    + right. rewrite list_lookup_insert_eq in Hj by (by eapply lookup_lt_Some). congruence.
    + left. rewrite list_lookup_insert_ne in Hj by done. by eapply list_elem_of_lookup_2.
  - intros [?|?%list_elem_of_singleton]%elem_of_app; auto.
Qed.

Lemma ids_insert l i x (b : BrokenInvariant) :
  l !! i = Some x -> id x = id b -> map id (<[i := b]> l) = map id l.
Proof.
  intros Hi Hid. rewrite list_fmap_insert. apply list_insert_id.
  rewrite list_lookup_fmap, Hi. simpl. by rewrite Hid.
Qed.

(** What a stored report is: offered, and no longer than any offered report of
    its id. *)
Definition shortest_of (l : list BrokenInvariant) (b : BrokenInvariant) : Prop :=
  b ∈ l /\ forall b', b' ∈ l -> id b' = id b ->
    (TestSequence.len (sequence b) <= TestSequence.len (sequence b'))%nat.

Lemma take_all_or_full {A} (m : nat) (l : list A) :
  (length (take m l) < m)%nat -> take m l = l.
Proof. rewrite length_take. intros. apply take_ge. lia. Qed.

Lemma add_all_spec m l :
  let s := add_all m l in
  max s = m /\ keys s = list_to_set (ids s) /\
  ids s = take m (firsts (map id l)) /\
  Forall (shortest_of l) (broken_invariants s).
Proof.
  induction l as [|b l IH] using rev_ind; [split; [done|]; split; [done|]; split; [by destruct m|constructor]|].
  destruct IH as (Hm & Hk & Hids & HF). unfold add_all in *. rewrite foldl_snoc.
  set (s := foldl _ _ l) in *. rewrite map_app. cbn [map]. rewrite firsts_snoc.
  assert (HF' : forall b', shortest_of l b' -> id b' <> id b \/
      (TestSequence.len (sequence b') <= TestSequence.len (sequence b))%nat ->
      shortest_of (l ++ [b]) b').
  { intros b' [Hin Hmin] Hor. split; [set_solver|].
    intros x [Hx| ->%list_elem_of_singleton]%elem_of_app Heq; [auto|]. destruct Hor; [congruence|done]. }
  destruct (try_add_cases b s) as [(i & x & Hi & Hid & _ & Hor)|[(Hn & Hfull & ->)|(Hn & Hroom & ->)]].
  - assert (Hin : id b ∈ firsts (map id l)).
    { assert (id b ∈ ids s) as Hb.
      { unfold ids. apply list_elem_of_fmap. exists x. split; [done|]. by eapply list_elem_of_lookup_2. }
      rewrite Hids in Hb. by apply elem_of_take in Hb as (j & Hj & _); eapply list_elem_of_lookup_2. }
    rewrite decide_True by done.
    assert (HNd : NoDup (ids s)).
    { rewrite Hids. eapply sublist_NoDup; [apply firsts_NoDup|apply sublist_take]. }
    assert (Hx : shortest_of l x) by (rewrite Forall_forall in HF; apply HF; by eapply list_elem_of_lookup_2).
    assert (Hothers : forall j y, j <> i -> broken_invariants s !! j = Some y ->
      shortest_of (l ++ [b]) y).
    { intros j y Hj Hy. apply HF'.
      - rewrite Forall_forall in HF. apply HF. by eapply list_elem_of_lookup_2.
      - left. intros Heq. apply Hj.
        apply (proj1 (NoDup_alt _) HNd j i (id b)); unfold ids; rewrite list_lookup_fmap, ?Hy, ?Hi;
          simpl; congruence. }
    destruct Hor as [[Hlt ->]|[Hle ->]]; simpl.
    + unfold ids in *. simpl. rewrite (ids_insert _ _ _ _ Hi Hid). split; [done|].
      split; [done|]. split; [done|]. apply Forall_lookup. intros j y Hy.
      destruct (decide (i = j)) as [<-|Hij].
      * rewrite list_lookup_insert_eq in Hy by (by eapply lookup_lt_Some). simplify_eq.
        split; [set_solver|]. intros y' [Hy'| ->%list_elem_of_singleton]%elem_of_app Heq; [|lia].
        destruct Hx as [_ Hmin]. specialize (Hmin y' Hy' ltac:(congruence)). lia.
      * rewrite list_lookup_insert_ne in Hy by done. by eapply (Hothers j).
    + split; [done|]. split; [done|]. split; [done|]. apply Forall_lookup. intros j y Hy.
      destruct (decide (i = j)) as [<-|Hij].
      * simplify_eq. apply HF'; [done|]. by right.
      * by eapply (Hothers j).
  - split; [done|]. split; [done|]. simpl. split.
    + rewrite Hids. case_decide; [done|]. rewrite take_app_le; [done|].
      assert (Hl : length (ids s) = length (take m (firsts (map id l)))) by (by rewrite Hids).
      unfold ids in Hl. rewrite length_map, length_take in Hl. lia.
    + apply Forall_forall. intros y Hy. rewrite Forall_forall in HF. apply HF'; [by apply HF|].
      left. intros Heq. apply Hn. unfold ids. rewrite <- Heq. apply list_elem_of_fmap. eauto.
  - rewrite Hm in Hroom. assert (Hall : ids s = firsts (map id l)).
    { rewrite Hids. apply take_all_or_full. rewrite <- Hids. unfold ids. by rewrite length_map. }
    rewrite decide_False by (by rewrite <- Hall). simpl. split; [done|].
    assert (Hids' : ids (mkSharedBroken (broken_invariants s ++ [b]) ({[ key b ]} ∪ keys s) (max s)) =
                    ids s ++ [id b]) by (unfold ids; simpl; by rewrite map_app).
    rewrite Hids'. split; [|split].
    + rewrite Hk. unfold key. rewrite list_to_set_app_L. simpl. set_solver.
    + rewrite <- Hall. symmetry. apply take_ge. rewrite length_app. unfold ids. rewrite length_map.
      simpl. lia.
    + apply Forall_app. split.
      * apply Forall_forall. intros y Hy. rewrite Forall_forall in HF. apply HF'; [by apply HF|].
        left. intros Heq. apply Hn. unfold ids. rewrite <- Heq. apply list_elem_of_fmap. eauto.
      * constructor; [|constructor]. split; [set_solver|].
        intros y [Hy| ->%list_elem_of_singleton]%elem_of_app Heq; [|lia].
        exfalso. apply Hn. rewrite Hall, <- Heq. apply elem_of_firsts. apply list_elem_of_fmap. eauto.
Qed.

(** ** Properties *)

(** C18: after any sequence of additions the collection holds the first [max]
    distinct ids in discovery order, its key set is exactly these ids, and each
    id keeps a report that was offered and is no longer than any other report
    offered for it, before or after. *)
Theorem broken_collection_spec m l :
  let s := add_all m l in
  ids s = take m (firsts (map id l)) /\ NoDup (ids s) /\ keys s = list_to_set (ids s) /\
  (length (broken_invariants s) <= m)%nat /\
  Forall (shortest_of l) (broken_invariants s).
Proof.
  destruct (add_all_spec m l) as (Hm & Hk & Hids & HF). split; [done|]. split.
  - rewrite Hids. eapply sublist_NoDup; [apply firsts_NoDup|apply sublist_take].
  - split; [done|]. split; [|done].
    assert (Hl : length (ids (add_all m l)) = length (take m (firsts (map id l)))) by (by rewrite Hids).
    unfold ids in Hl. rewrite length_map, length_take in Hl. lia.
Qed.

(** An addition reports a new id exactly when the id was not stored and
    the collection had room. *)
Theorem try_add_reports_new b s :
  (try_add b s).1 = true <-> id b ∉ ids s /\ (length (broken_invariants s) < max s)%nat.
Proof.
  destruct (try_add_cases b s) as [(i & x & Hi & Hid & Hf & _)|[(Hn & Hl & ->)|(Hn & Hl & ->)]].
  - rewrite Hf. split; [done|]. intros [Hn _]. exfalso. apply Hn. unfold ids.
    apply list_elem_of_fmap. exists x. split; [done|]. by eapply list_elem_of_lookup_2.
  - simpl. split; [done|]. intros [_ ?]. lia.
  - simpl. split; done.
Qed.
