(* ===== verification/TestShrinker.v ===== *)
(** * TestShrinker: shrinking broken-invariant sequences

    Models [tester/shrinker.rs]: when a candidate reproduces a finding, the
    candidate a worker picks, and the outcome of a whole run. *)
From S2P Require Import Prelude.
From S2P Require Import Env.
From S2P Require Import Transaction.
From S2P Require Import TestSequence.
From S2P Require Import Stop.
From S2P Require Import TestBroken.
From S2P Require Import ChainApi.
From S2P Require Import ShrinkEngine.

Section TestShrinker.
Context {Chain Trace R : Type} `{ChainOps Chain Trace} `{Abi} `{FastRand R}.
Context `{Text} `{Transaction.BrokenInvariantError} `{PanicError} `{HexNumber}.

Record Shrinker : Type := mkShrinker {
  sh_chain : option Chain;
  sh_target : option Address;
  sh_deployer : option Address;
  sh_seed : option Z;
  sh_threads : option nat;
  sh_max_runs : option Z;
  sh_timeout : option (option Z);
}.

Record Execution : Type := mkExecution {
  ex_chain : Chain;
  ex_target : Address;
  ex_deployer : Address;
  ex_seed : Z;
  ex_threads : nat;
  ex_max_runs : Z;
  ex_timeout : option Z;
}.

Definition resolve (s : Shrinker) : Res Execution :=
  c ← context (sh_chain s) "chain not set, call Shrinker::new().with_chain(..)";
  t ← context (sh_target s) "target not set, call Shrinker::new().with_target(..)";
  d ← context (sh_deployer s) "deployer not set, call Shrinker::new().with_deployer(..)";
  mret (mkExecution c t d (default 0 (sh_seed s)) (default 1%nat (sh_threads s))
    (default 0 (sh_max_runs s)) (default None (sh_timeout s))).

(** [replay_last]: the last result of a clean replay. *)
Definition replay_last (e : Execution) (s : Sequence) : Res (option TransactionResult) :=
  let txs := TestSequence.transactions s (ex_target e) (ex_deployer e) in
  if bool_decide (txs = []) then Ok None
  else match exec txs (ex_chain e) with
       | (Ok o, _) => Ok (last (results o))
       | (Err m, _) => Err m
       | (Panic p, _) => Panic p
       end.

Definition reproduces (e : Execution) (s : Sequence) (broken : BrokenInvariant) : Res bool :=
  if is_revert_finding (id broken) then
    l ← replay_last e s;
    mret match l with Some r => revert_matches_expected r (id broken) | None => false end
  else if is_panic_finding (id broken) then
    l ← replay_last e s;
    mret match l with Some r => panic_matches_expected r (id broken) | None => false end
  else
    match exec (TestSequence.transactions s (ex_target e) (ex_deployer e)) (ex_chain e) with
    | (Ok o, _) =>
        Ok (existsb (existsb (fun report => bool_decide (Transaction.bi_id report = id broken)))
              (broken_invariants o))
    | (Err m, _) => Err m
    | (Panic p, _) => Panic p
    end.

Definition item_len (b : BrokenInvariant) : nat := TestSequence.len (sequence b).

(** [current.sequence().is_empty()] stops a worker. *)
Definition stop (b : BrokenInvariant) : bool := TestSequence.is_empty (sequence b).

Definition pick (current : BrokenInvariant) : M R (option BrokenInvariant) :=
  let len := Z.of_nat (item_len current) in
  one ← draw_bool;
  chunk_len ← (if one : bool then mret 1 else draw 1 len);
  start_pos ← draw_below len;
  let end_pos := Z.min (start_pos + chunk_len) len in
  candidate ← lift (TestSequence.without (sequence current) (Z.to_nat start_pos) (Z.to_nat end_pos));
  mret (Some (with_calls current candidate)).

Definition validate (e : Execution) (current candidate : BrokenInvariant) : Res bool :=
  reproduces e (sequence candidate) current.

Definition worker_rngs (e : Execution) : list R :=
  map (fun i => rng_with_seed (wrap 64 (ex_seed e + Z.of_nat i))) (seq 0 (ex_threads e)).

Definition shrink_start (e : Execution) (b : BrokenInvariant) : System := start b (worker_rngs e).

Definition shrink_run (e : Execution) : Z -> System -> System -> Prop :=
  run item_len stop pick (validate e) (ex_max_runs e).

(** [shrink_one] *)
Inductive shrink_one (e : Execution) (b : BrokenInvariant) : Res BrokenInvariant -> Prop :=
| one_short : (item_len b <= 1)%nat -> shrink_one e b (Ok b)
| one_done n sys :
    (1 < item_len b)%nat -> shrink_run e n (shrink_start e b) sys ->
    Forall (fun w => pc w = Finished (Ok ())) (workers sys) ->
    shrink_one e b (Ok (current (shared sys)))
| one_failed n sys w :
    (1 < item_len b)%nat -> shrink_run e n (shrink_start e b) sys ->
    Forall (fun w => finished w = true) (workers sys) ->
    w ∈ workers sys -> pc w <> Finished (Ok ()) ->
    shrink_one e b (Err "shrinker(s) failed").

(** [shrink]: one finding after the other, each with its own budget; the first
    failure ends the run. *)
Inductive shrink_each (e : Execution) : list BrokenInvariant -> Res (list BrokenInvariant) -> Prop :=
| each_nil : shrink_each e [] (Ok [])
| each_cons b bs b' rs :
    shrink_one e b (Ok b') -> shrink_each e bs (Ok rs) -> shrink_each e (b :: bs) (Ok (b' :: rs))
| each_here b bs m : shrink_one e b (Err m) -> shrink_each e (b :: bs) (Err m)
| each_later b bs b' m :
    shrink_one e b (Ok b') -> shrink_each e bs (Err m) -> shrink_each e (b :: bs) (Err m).

Inductive shrink (args : Shrinker) (bs : list BrokenInvariant) : Res (list BrokenInvariant) -> Prop :=
| shrink_missing m : resolve args = Err m -> shrink args bs (Err m)
| shrink_all e r : resolve args = Ok e -> shrink_each e bs r -> shrink args bs r.

Context `{!FastRandLaws R}.

Lemma finding_pick_Some cur r o r' :
  stop cur = false -> pick cur r = (Ok o, r') ->
  exists cand, o = Some (with_calls cur cand) /\
    (TestSequence.len cand < item_len cur)%nat /\
    TestSequence.calls cand `sublist_of` TestSequence.calls (sequence cur).
Proof.
  unfold stop, pick, TestSequence.is_empty, item_len. intros Hst%bool_decide_eq_false Hp.
  apply M_bind_Ok in Hp as (one & r1 & _ & Hp).
  apply M_bind_Ok in Hp as (chunk & r2 & Hc & Hp).
  assert (Hchunk : 1 <= chunk) by (destruct one; [by apply M_ret_Ok in Hc as [<- _]|apply draw_Ok in Hc; lia]).
  apply M_bind_Ok in Hp as (sp & r3 & Hs%draw_below_Ok & Hp).
  apply M_bind_Ok in Hp as (c & r4 & Hw & Hp). unfold lift in Hw. injection Hw as Hw _.
  apply TestSequence.without_len_sublist in Hw as (Hr & Hl & Hsub).
  apply M_ret_Ok in Hp as [<- _]. exists c. split; [done|]. split; [lia|done].
Qed.

(** What a run keeps of a finding. *)
Definition kept (e : Execution) (b0 b : BrokenInvariant) : Prop :=
  id b = id b0 /\ description b = description b0 /\
  TestSequence.calls (sequence b) `sublist_of` TestSequence.calls (sequence b0) /\
  (b = b0 \/ reproduces e (sequence b) b0 = Ok true).

Lemma reproduces_id e s b b' : id b = id b' -> reproduces e s b = reproduces e s b'.
Proof. unfold reproduces. by intros ->. Qed.

Lemma finding_kept e b n sys :
  shrink_run e n (shrink_start e b) sys ->
  kept e b (current (shared sys)) /\ (item_len (current (shared sys)) <= item_len b)%nat.
Proof.
  intros Hrun. unfold shrink_run in Hrun.
  apply (run_ok _ _ _ _ _ (kept e b)) with (i := b) in Hrun as (Hk & Hl & _); [done|..].
  - intros cur r cand r' _ Hst Hp. destruct (finding_pick_Some _ _ _ _ Hst Hp) as (c & [= ->] & Hlen & _).
    done.
  - intros cur cand r r' (Hid & Hd & Hsub & _) Hst Hp Hv.
    destruct (finding_pick_Some _ _ _ _ Hst Hp) as (c & [= ->] & _ & Hs).
    split; [done|]. split; [done|]. split; [by etrans|]. right.
    unfold validate in Hv. simpl in Hv |- *. by rewrite <- (reproduces_id _ _ _ _ Hid).
  - apply start_ok. split; [done|]. split; [done|]. split; [done|by left].
Qed.

Lemma no_skips e b n sys :
  shrink_run e n (shrink_start e b) sys ->
  skips sys = 0 /\
  Forall (fun w => match pc w with AtPick cur => stop cur = false | _ => True end) (workers sys).
Proof.
  unfold shrink_run. intros Hrun. remember (shrink_start e b) as sys0 eqn:E0.
  induction Hrun as [|n sys1 sys2 sys3 _ IH Hs]; subst.
  { split; [done|]. simpl. apply Forall_map, Forall_forall. done. }
  destruct (IH eq_refl) as [Hsk HF]. destruct Hs as [j w t s' w' sys2 Hj Hf Hst]. simpl.
  assert (Hw : match pc w with AtPick cur => stop cur = false | _ => True end).
  { rewrite Forall_forall in HF. apply (HF w). by eapply list_elem_of_lookup_2. }
  unfold worker_step in Hst. destruct w as [[| |cur|cur cand|cur cand|cand|r] g]; simpl in *; try done.
  - simplify_eq. split; [unfold is_skip; simpl; lia|]. apply Forall_insert; [done|]. simpl. by destruct (exhausted (ex_max_runs e) (shared sys2) || t).
  - simplify_eq. split; [unfold is_skip; simpl; lia|]. apply Forall_insert; [done|]. simpl.
    destruct (stop (current (shared sys2))) eqn:Es; done.
  - destruct (pick cur g) as [[o|m|p] g'] eqn:Ep.
    + destruct (finding_pick_Some _ _ _ _ Hw Ep) as (c & -> & _). simplify_eq.
      split; [unfold is_skip; simpl; lia|]. by apply Forall_insert.
    + simplify_eq. split; [unfold is_skip; simpl; lia|]. by apply Forall_insert.
    + simplify_eq. split; [unfold is_skip; simpl; lia|]. by apply Forall_insert.
  - simplify_eq. split; [unfold is_skip; simpl; lia|]. apply Forall_insert; [done|]. simpl.
    by destruct (_ <=? _).
  - simplify_eq. split; [unfold is_skip; simpl; lia|]. apply Forall_insert; [done|]. simpl.
    by destruct (validate e cur cand) as [[]| |].
  - simplify_eq. split; [unfold is_skip; simpl; lia|]. by apply Forall_insert.
Qed.
End TestShrinker.

(** ** Properties *)
Section Properties.
Context {Chain Trace R : Type} `{ChainOps Chain Trace} `{Abi} `{FastRandLaws R}.
Context `{Text} `{Transaction.BrokenInvariantError} `{PanicError} `{HexNumber}.

Lemma shrink_keeps (args : Shrinker (Chain := Chain)) bs rs :
  shrink (R := R) args bs (Ok rs) ->
  exists e, resolve args = Ok e /\
    Forall2 (fun b b' => kept e b b' /\ (item_len b' <= item_len b)%nat) bs rs.
Proof.
  intros Hs. inversion Hs as [|e r He Heach]; subst. exists e. split; [done|].
  remember (Ok rs) as r eqn:Er. revert rs Er. clear Hs.
  induction Heach as [|b bs b' rs' Hone _ IH| |]; intros rs Er; simplify_eq; [constructor|].
  constructor; [|by apply IH].
  inversion Hone as [Hl|n sys Hl Hrun Hfin|]; subst.
  - split; [|done]. split; [done|]. split; [done|]. split; [done|by left].
  - by eapply finding_kept.
Qed.

(** C7: shrinking keeps every finding: the result has the same findings in the
    same order, with their ids and descriptions, each sequence a sublist of the
    calls it had (so never longer) and either unchanged or reproducing the same
    id on a clean clone of the chain, whatever the interleaving of workers. *)
Theorem test_shrink_sound (args : Shrinker (Chain := Chain)) bs rs :
  shrink (R := R) args bs (Ok rs) ->
  exists e, resolve args = Ok e /\
    Forall2 (fun b b' => kept e b b' /\ (item_len b' <= item_len b)%nat) bs rs.
Proof. apply shrink_keeps. Qed.

(** shrinking one finding replays at most [max_runs] candidates, and every
    run ends: its steps are bounded by the budget and the number of workers
    alone, and until all workers have finished one can take a step. *)
Theorem test_shrink_terminates (e : Execution (Chain := Chain)) b n sys :
  0 <= ex_max_runs e -> ex_max_runs e + Z.of_nat (ex_threads e) < 2 ^ 64 ->
  shrink_run (R := R) e n (shrink_start e b) sys ->
  replays sys <= ex_max_runs e /\
  n <= 6 * ex_max_runs e + 14 * Z.of_nat (ex_threads e) /\
  (Forall (fun w => finished w = true) (workers sys) \/
   exists sys', sys_step item_len stop pick (validate e) (ex_max_runs e) sys sys').
Proof.
  intros Hm Hmax Hrun. pose proof (no_skips _ _ _ _ Hrun) as [Hsk _].
  unfold shrink_run, shrink_start in Hrun.
  assert (Hlen : length (worker_rngs (R := R) e) = ex_threads e)
    by (unfold worker_rngs; rewrite length_map; apply length_seq).
  destruct (run_bounds item_len stop pick (validate e) (ex_max_runs e) Hm b (worker_rngs e) n sys)
    as (Ha & Hr & Hn); [by rewrite Hlen|done|].
  rewrite Hlen in Hn. split; [done|]. split; [lia|]. apply sys_progress.
Qed.
End Properties.

(** ** Witnesses: a harness whose every call reports the invariant [INV]. *)
Import Toy.

#[local] Instance toy_panic : PanicError := { panic_decode out := head out }.
#[local] Instance toy_bie : Transaction.BrokenInvariantError := {
  SELECTOR := [9; 9; 9; 9]; bie_decode _ := Some ("INV"%string, ""%string);
}.
#[local] Instance toy_hex : HexNumber := { hex02 := u256_to_string; from_str_radix16 := u256_parse }.

Definition reports : TransactionResult := mkResult false 1 (Some [9; 9; 9; 9]) [] None 0 rpc_default.
Definition succeeds : TransactionResult := mkResult true 1 (Some []) [] None 0 rpc_default.

#[local] Instance reporting_chain : ChainOps (list Transaction) unit :=
  ScriptedChain.ops (fun _ _ => reports).

Definition nop_call : Call := mkCall (mkFunction "nop" [] [] NonPayable) (VTuple []).
Definition inv_finding : BrokenInvariant := mkBroken (mkSequence [nop_call; nop_call]) "INV" "broken".

Definition demo : Shrinker (Chain := list Transaction) :=
  mkShrinker (Some []) (Some 5) (Some 6) (Some 1) (Some 1%nat) (Some 1) None.
Definition demo_execution : Execution (Chain := list Transaction) :=
  mkExecution [] 5 6 1 1 1 None.
Definition demo_final : option (System (Item := BrokenInvariant) (R := Z)) :=
  schedule item_len stop pick (validate demo_execution) 1 (repeat (0%nat, false) 7)
    (shrink_start demo_execution inv_finding).

Lemma test_demo_run sys :
  demo_final = Some sys -> shrink_run demo_execution 7 (shrink_start demo_execution inv_finding) sys.
Proof.
  intros Hs. unfold demo_final in Hs.
  pose proof (schedule_run _ _ _ _ _ _ _ _ _ _ (run_nil _ _ _ _ _ _) Hs) as Hr. exact Hr.
Qed.

Lemma test_shrink_sound_witness :
  exists b', shrink (R := Z) demo [inv_finding] (Ok [b']) /\ (item_len b' < 2)%nat /\ id b' = "INV"%string.
Proof.
  destruct demo_final as [sys|] eqn:E; [|vm_compute in E; discriminate E].
  assert (Hs : shrink (R := Z) demo [inv_finding] (Ok [current (shared sys)])).
  { apply (shrink_all _ _ demo_execution); [reflexivity|]. apply each_cons; [|apply each_nil].
    apply (one_done _ _ 7 sys); [vm_compute; lia|by apply test_demo_run|].
    vm_compute in E. injection E as <-. repeat constructor. }
  exists (current (shared sys)). split; [exact Hs|].
  destruct (test_shrink_sound _ _ _ Hs) as (e & _ & HF). inversion HF as [|? ? ? ? [Hk _] _]; subst.
  split; [|exact (proj1 Hk)]. vm_compute in E. injection E as <-. vm_compute. lia.
Defined.

Lemma test_shrink_terminates_witness :
  exists sys, demo_final = Some sys /\ replays sys <= 1.
Proof.
  destruct demo_final as [sys|] eqn:E; [|vm_compute in E; discriminate E].
  exists sys. split; [reflexivity|].
  destruct (test_shrink_terminates demo_execution inv_finding 7 sys) as [H _];
    [vm_compute; discriminate|vm_compute; reflexivity|by apply test_demo_run|exact H].
Defined.

(** for an explicit invariant a candidate reproduces when any of its calls
    reports the id: a candidate whose last call succeeds is accepted, although
    the sequence of a finding is documented to end with the reverting call. *)
Theorem reproduces_ignores_position :
  let first_reports : ChainOps (list Transaction) unit :=
    ScriptedChain.ops (fun history _ => if bool_decide (length history = 0%nat) then reports else succeeds) in
  exists e s r, reproduces (H := first_reports) e s inv_finding = Ok true /\
    replay_last (H := first_reports) e s = Ok (Some r) /\ success r = true.
Proof.
  exists demo_execution, (mkSequence [nop_call; nop_call]), succeeds.
  split; [vm_compute; reflexivity|]. split; [vm_compute; reflexivity|reflexivity].
Qed.
