(* ===== verification/Paths.v ===== *)
(** * Paths: the file paths and text of the standard library

    What the program uses of [std::path] and [str::trim] on Unix: a path is its
    text, a byte string; its components are the pieces between slashes, where
    empty pieces and single dots do not count. White space is the ASCII one. *)
From S2P Require Import Prelude.

Fixpoint rsplit (c : ascii) (s : string) : option (string * string) :=
  match s with
  | EmptyString => None
  | String a s' =>
      match rsplit c s' with
      | Some (p, q) => Some (String a p, q)
      | None => if Ascii.eqb a c then Some ("", s') else None
      end
  end.

(** [str::split_once] *)
Fixpoint split_once (c : ascii) (s : string) : option (string * string) :=
  match s with
  | EmptyString => None
  | String a s' =>
      if Ascii.eqb a c then Some ("", s')
      else match split_once c s' with
           | Some (p, q) => Some (String a p, q)
           | None => None
           end
  end.

(** [str::split] on a character *)
Fixpoint split_on (c : ascii) (s : string) : list string :=
  match s with
  | EmptyString => [""]
  | String a s' =>
      if Ascii.eqb a c then "" :: split_on c s'
      else match split_on c s' with
           | [] => [String a ""]
           | h :: t => String a h :: t
           end
  end.

Definition has_char (c : ascii) (s : string) : bool :=
  negb (str_all (fun a => negb (Ascii.eqb a c)) s).

(** ** Paths *)
Definition components (p : string) : list string :=
  filter (fun x => x <> "" /\ x <> ".") (split_on "/" p).

Definition file_name (p : string) : option string :=
  match last (components p) with
  | Some x => if decide (x = "..") then None else Some x
  | None => None
  end.

(** A dot at the start of a file name does not begin an extension. *)
Definition file_extension (p : string) : option string :=
  f ← file_name p;
  match rsplit "." f with
  | Some (EmptyString, _) | None => None
  | Some (_, e) => Some e
  end.

Definition file_stem (p : string) : option string :=
  f ← file_name p;
  Some match rsplit "." f with
       | Some (EmptyString, _) | None => f
       | Some (st, _) => st
       end.

Definition is_absolute (p : string) : bool := starts_with "/" p.

Fixpoint ends_with_char (c : ascii) (s : string) : bool :=
  match s with
  | EmptyString => false
  | String a EmptyString => Ascii.eqb a c
  | String _ s' => ends_with_char c s'
  end.

(** [Path::join]: an absolute argument replaces the base. *)
Definition join (base p : string) : string :=
  if is_absolute p then p
  else if bool_decide (base = "") || ends_with_char "/" base then base +:+ p
  else base +:+ "/" +:+ p.

(** ** [str::trim] *)
Definition is_whitespace (a : ascii) : bool :=
  let n := nat_of_ascii a in (n =? 32)%nat || ((9 <=? n)%nat && (n <=? 13)%nat).

Fixpoint trim_start (s : string) : string :=
  match s with
  | EmptyString => ""
  | String a s' => if is_whitespace a then trim_start s' else s
  end.

Fixpoint trim_end (s : string) : string :=
  match s with
  | EmptyString => ""
  | String a s' =>
      match trim_end s' with
      | EmptyString => if is_whitespace a then "" else String a ""
      | t => String a t
      end
  end.

Definition trim (s : string) : string := trim_end (trim_start s).

(** ** Lemmas *)
Lemma str_app_assoc (a b c : string) : (a +:+ b) +:+ c = a +:+ (b +:+ c).
Proof. induction a as [|x a IH]; [done|]. exact (f_equal (String x) IH). Qed.

Lemma str_app_nil (s : string) : s +:+ "" = s.
Proof. induction s as [|a s IH]; [done|]. exact (f_equal (String a) IH). Qed.

Lemma str_length_app (s t : string) : String.length (s +:+ t) = (String.length s + String.length t)%nat.
Proof. induction s as [|a s IH]; [done|]. exact (f_equal S IH). Qed.

Lemma rsplit_none c s : str_all (fun a => negb (Ascii.eqb a c)) s -> rsplit c s = None.
Proof.
  induction s as [|a s IH]; simpl; [done|]. intros [Ha Hs]%andb_prop_elim. rewrite IH by done.
  by destruct (Ascii.eqb a c).
Qed.

Lemma rsplit_app c p q :
  str_all (fun a => negb (Ascii.eqb a c)) q -> rsplit c (p +:+ String c q) = Some (p, q).
Proof.
  intros Hq. induction p as [|a p IH]; simpl; [|by rewrite IH].
  rewrite rsplit_none by done. by rewrite Ascii.eqb_refl.
Qed.

Lemma rsplit_Some c s p q : rsplit c s = Some (p, q) -> s = p +:+ String c q.
Proof.
  revert p q. induction s as [|a s IH]; intros p q; simpl; [done|].
  destruct (rsplit c s) as [[p' q']|].
  - intros [= <- <-]. by rewrite (IH p' q').
  - destruct (Ascii.eqb_spec a c) as [->|]; [|done]. by intros [= <- <-].
Qed.

Lemma split_once_none c s : has_char c s = false -> split_once c s = None.
Proof.
  unfold has_char. intros H%negb_false_iff. induction s as [|a s IH]; simpl in *; [done|].
  apply andb_true_iff in H as [Ha%negb_true_iff Hs]. by rewrite Ha, IH.
Qed.

Lemma split_once_app c p q : has_char c p = false -> split_once c (p +:+ String c q) = Some (p, q).
Proof.
  unfold has_char. intros H%negb_false_iff. induction p as [|a p IH]; simpl in *.
  - by rewrite Ascii.eqb_refl.
  - apply andb_true_iff in H as [Ha%negb_true_iff Hs]. by rewrite Ha, IH.
Qed.

Lemma split_once_Some c s p q :
  split_once c s = Some (p, q) -> s = p +:+ String c q /\ has_char c p = false.
Proof.
  revert p q. induction s as [|a s IH]; intros p q; simpl; [done|].
  destruct (Ascii.eqb_spec a c) as [->|Hne]; [by intros [= <- <-]|].
  destruct (split_once c s) as [[p' q']|]; [|done]. intros [= <- <-].
  destruct (IH p' q' eq_refl) as [-> Hp]. split; [done|]. unfold has_char in *. simpl.
  apply Ascii.eqb_neq in Hne. by rewrite Hne.
Qed.

Lemma has_char_split_once c s : has_char c s = true -> is_Some (split_once c s).
Proof.
  unfold has_char. intros H%negb_true_iff. induction s as [|a s IH]; simpl in *; [done|].
  destruct (Ascii.eqb a c); [by eexists|]. simpl in H. destruct (IH H) as [[p q] ->]. by eexists.
Qed.

Lemma has_char_app c p q : has_char c (p +:+ q) = has_char c p || has_char c q.
Proof. unfold has_char. rewrite str_all_app. by rewrite negb_andb. Qed.

Lemma has_char_app_false c p q : has_char c (p +:+ q) = false -> has_char c p = false.
Proof. rewrite has_char_app. by intros [? _]%orb_false_iff. Qed.

Lemma split_on_no_sep c s x : x ∈ split_on c s -> has_char c x = false.
Proof.
  revert x. induction s as [|a s IH]; intros x; simpl; [by intros ->%list_elem_of_singleton|].
  destruct (Ascii.eqb a c) eqn:Ea.
  - intros [->|Hx]%elem_of_cons; [done|by apply IH].
  - assert (Hs : forall h, has_char c h = false -> has_char c (String a h) = false).
    { intros h Hh. unfold has_char in *. simpl. by rewrite Ea. }
    destruct (split_on c s) as [|h t].
    + intros ->%list_elem_of_singleton. by apply Hs.
    + intros [->|Hx]%elem_of_cons; [apply Hs, IH; left|apply IH; by right].
Qed.

Lemma last_elem_of {A} (l : list A) x : last l = Some x -> x ∈ l.
Proof. intros [l' ->]%last_Some. apply elem_of_app. right. left. Qed.

Lemma file_name_plain p f : file_name p = Some f -> f <> "" /\ has_char "/" f = false.
Proof.
  unfold file_name. destruct (last (components p)) as [x|] eqn:E; [|done].
  case_decide; [done|]. intros [= <-]. apply last_elem_of in E.
  apply list_elem_of_filter in E as [[Hne _] Hs]. split; [done|by eapply split_on_no_sep].
Qed.

Lemma plain_not_absolute f : has_char "/" f = false -> is_absolute f = false.
Proof.
  destruct f as [|a f]; [done|]. unfold has_char, is_absolute, starts_with.
  cbn [str_all strip_prefix]. intros [Ha _]%negb_false_iff%andb_true_iff. apply negb_true_iff in Ha.
  by rewrite Ascii.eqb_sym, Ha.
Qed.

Lemma ends_with_char_app c s t : t <> "" -> ends_with_char c (s +:+ t) = ends_with_char c t.
Proof.
  intros Ht. induction s as [|a s IH]; [done|]. simpl. rewrite IH.
  destruct s; [by destruct t|done].
Qed.

Lemma plain_ends_with c f : has_char c f = false -> ends_with_char c f = false.
Proof.
  unfold has_char. intros H%negb_false_iff. induction f as [|a f IH]; [done|]. simpl in *.
  apply andb_true_iff in H as [Ha%negb_true_iff Hf]. destruct f; [done|by apply IH].
Qed.

(** The text a relative component is appended to. *)
Definition join_prefix (base : string) : string :=
  if bool_decide (base = "") || ends_with_char "/" base then base else base +:+ "/".

Lemma join_plain base f : has_char "/" f = false -> join base f = join_prefix base +:+ f.
Proof.
  intros Hf. unfold join, join_prefix. rewrite plain_not_absolute by done.
  destruct (_ || _); [done|]. by rewrite str_app_assoc.
Qed.

Lemma str_app_nonempty s t : t <> "" -> s +:+ t <> "".
Proof. intros Ht. by destruct s. Qed.

Lemma join_prefix_plain s f : f <> "" -> has_char "/" f = false -> join_prefix (s +:+ f) = s +:+ f +:+ "/".
Proof.
  intros Hne Hf. unfold join_prefix. rewrite bool_decide_false by (by apply str_app_nonempty).
  rewrite ends_with_char_app by done. rewrite plain_ends_with by done. apply str_app_assoc.
Qed.

Lemma no_char_all c s : has_char c s = false -> str_all (fun a => negb (Ascii.eqb a c)) s.
Proof. unfold has_char. by intros ->%negb_false_iff. Qed.

(** A path of three plain components after a base. *)
Lemma join_three base f n last :
  f <> "" -> has_char "/" f = false -> n <> "" -> has_char "/" n = false -> has_char "/" last = false ->
  join (join (join base f) n) last =
    join_prefix base +:+ (f +:+ String "/" (n +:+ String "/" last)).
Proof.
  intros Hf Hf' Hn Hn' Hl. rewrite (join_plain _ last) by done. rewrite (join_plain _ n) by done.
  rewrite (join_plain base f) by done. rewrite (join_prefix_plain (join_prefix base) f) by done.
  rewrite <- (str_app_assoc (join_prefix base)), join_prefix_plain by done. by rewrite !str_app_assoc.
Qed.

(** ** Trimming *)
Lemma trim_end_cons a s :
  trim_end (String a s) =
  if bool_decide (trim_end s = "") then if is_whitespace a then "" else String a ""
  else String a (trim_end s).
Proof. simpl. destruct (trim_end s); case_bool_decide; done. Qed.

Lemma trim_end_idem s : trim_end (trim_end s) = trim_end s.
Proof.
  induction s as [|a s IH]; [done|]. rewrite trim_end_cons. case_bool_decide as Hs.
  - destruct (is_whitespace a) eqn:Ea; [done|]. simpl. by rewrite Ea.
  - by rewrite trim_end_cons, IH, bool_decide_false.
Qed.

Lemma trim_end_app s t : t <> "" -> trim_end t = t -> trim_end (s +:+ t) = s +:+ t.
Proof.
  intros Hne Ht. induction s as [|a s IH]; [done|].
  change (String a s +:+ t) with (String a (s +:+ t)). rewrite trim_end_cons, IH.
  by rewrite bool_decide_false by (by apply str_app_nonempty).
Qed.

Lemma trim_start_cons a s : is_whitespace a = false -> trim_start (String a s) = String a s.
Proof. simpl. by intros ->. Qed.

Lemma trim_start_head s a t : trim_start s = String a t -> is_whitespace a = false.
Proof.
  induction s as [|b s IH]; simpl; [done|]. destruct (is_whitespace b) eqn:Eb; [done|]. by intros [= <- <-].
Qed.

Lemma trim_head s a t : trim s = String a t -> is_whitespace a = false.
Proof.
  unfold trim. destruct (trim_start s) as [|b u] eqn:E; [done|]. apply trim_start_head in E.
  rewrite trim_end_cons, E. case_bool_decide; by intros [= <- _].
Qed.

(** Text that begins and ends with other than white space is not trimmed. *)
Lemma trim_id a s : is_whitespace a = false -> trim_end (String a s) = String a s -> trim (String a s) = String a s.
Proof. intros Ha Hs. unfold trim. by rewrite trim_start_cons. Qed.

Lemma trim_trim s : trim (trim s) = trim s.
Proof.
  destruct (trim s) as [|a t] eqn:E; [done|]. apply trim_id; [by eapply trim_head|].
  rewrite <- E. apply trim_end_idem.
Qed.

Lemma trim_end_suffix p q : trim_end (p +:+ q) = p +:+ q -> trim_end q = q.
Proof.
  induction p as [|a p IH]; [done|]. change (String a p +:+ q) with (String a (p +:+ q)).
  rewrite trim_end_cons. case_bool_decide as Hs.
  - destruct (is_whitespace a); [done|]. intros [= Hq]. destruct p; [change ("" = q) in Hq; by subst|done].
  - intros [= Hq]. by apply IH.
Qed.

(** Trimming removes white space only. *)
Lemma has_char_trim_start c s : is_whitespace c = false -> has_char c (trim_start s) = has_char c s.
Proof.
  intros Hc. induction s as [|a s IH]; [done|]. cbn [trim_start]. destruct (is_whitespace a) eqn:Ea; [|done].
  rewrite IH. unfold has_char. cbn [str_all]. destruct (Ascii.eqb_spec a c); [congruence|done].
Qed.

Lemma has_char_trim_end c s : is_whitespace c = false -> has_char c (trim_end s) = has_char c s.
Proof.
  intros Hc. induction s as [|a s IH]; [done|]. rewrite trim_end_cons. unfold has_char in *.
  case_bool_decide as Hs.
  - rewrite Hs in IH. cbn [str_all] in IH |- *. apply (f_equal negb) in IH. rewrite !negb_involutive in IH.
    rewrite <- IH, andb_true_r. destruct (is_whitespace a) eqn:Ea; [|cbn; by rewrite andb_true_r].
    destruct (Ascii.eqb_spec a c); [congruence|done].
  - cbn [str_all]. apply (f_equal negb) in IH. rewrite !negb_involutive in IH. by rewrite IH.
Qed.

Lemma has_char_trim c s : is_whitespace c = false -> has_char c (trim s) = has_char c s.
Proof. intros Hc. unfold trim. by rewrite has_char_trim_end, has_char_trim_start. Qed.
