(* ===== verification/Limiter.v ===== *)
(** * Limiter: the token bucket of the fork backend (src/evm/forkdb/limiter.rs)

    The bucket is one 64-bit word: the upper half is the time of the last
    refill in milliseconds, wrapped to 32 bits, the lower half the tokens left.
    [try_acquire] is the closure handed to [fetch_update]: a thread that loses
    the race runs it again on the new word, so the successful calls form one
    sequence, each applied to the word the previous one left. Times are the
    milliseconds since the limiter was created. *)
From S2P Require Import Prelude.

Record RateLimiter : Type := mkRateLimiter {
  inner : option Z;
  max_tokens : Z;
  interval_ms : Z;
}.

Definition pack (last_refill_ms tokens : Z) : Z := Z.lor (Z.shiftl last_refill_ms 32) tokens.

Definition unpack (packed : Z) : Z * Z :=
  (wrap 32 (Z.shiftr packed 32), Z.land packed (Z.ones 32)).

Definition new (requests_per_second : Z) : RateLimiter :=
  if requests_per_second =? 0 then mkRateLimiter None 0 1000
  else
    let max := Z.min requests_per_second u32_max in
    mkRateLimiter (Some (pack 0 (wrap 32 max))) max 1000.

Definition compute_refill (elapsed_ms max interval : Z) : Z :=
  wrap 64 (Z.min (2 ^ 128 - 1) (elapsed_ms * max) / interval).

(** The closure of [fetch_update]: the new word, or nothing when no token is
    left. *)
Definition try_acquire (self : RateLimiter) (packed now : Z) : option Z :=
  let max := wrap 32 (max_tokens self) in
  let '(last_refill_ms, tokens) := unpack packed in
  let now_ms := wrap 32 now in
  let elapsed_ms := wrap 32 (now_ms - last_refill_ms) in
  let add := wrap 32 (compute_refill elapsed_ms (max_tokens self) (interval_ms self)) in
  let new_tokens :=
    if 0 <? add then Z.min (Z.min u32_max (tokens + add)) max else tokens in
  if 1 <=? new_tokens then
    Some (pack (if 0 <? add then now_ms else last_refill_ms) (new_tokens - 1))
  else None.

(** [u64::div_ceil] *)
Definition div_ceil (a b : Z) : Z := a / b + (if 0 <? a mod b then 1 else 0).

(** How long a thread that found the word [packed] empty sleeps. *)
Definition sleep_ms (self : RateLimiter) (packed now : Z) : Z :=
  let '(last_refill_ms, _) := unpack packed in
  let elapsed_ms := wrap 32 (wrap 32 now - last_refill_ms) in
  let n := sat_mul64 elapsed_ms (max_tokens self) in
  let remainder := n mod interval_ms self in
  Z.max 1 (div_ceil (interval_ms self - remainder) (max_tokens self)).

(** One turn of the loop of [acquire]: the call returns, or the thread sleeps
    and turns again. [now] is the clock inside the closure, [later] the clock
    read afterwards for the sleep. *)
Inductive Turn : Type :=
| Acquired (state : RateLimiter)
| Sleep (ms : Z).

Definition acquire_turn (self : RateLimiter) (now later : Z) : Turn :=
  match inner self with
  | None => Acquired self
  | Some packed =>
      match try_acquire self packed now with
      | Some packed' => Acquired (mkRateLimiter (Some packed') (max_tokens self) (interval_ms self))
      | None => Sleep (sleep_ms self packed later)
      end
  end.

(** The loop, driven by the clock readings of its turns. *)
Fixpoint acquire (self : RateLimiter) (clock : list (Z * Z)) : option RateLimiter :=
  match clock with
  | [] => None
  | (now, later) :: clock' =>
      match acquire_turn self now later with
      | Acquired self' => Some self'
      | Sleep _ => acquire self clock'
      end
  end.

(** The words left by a sequence of successful calls at the given times. *)
Fixpoint acquire_all (self : RateLimiter) (packed : Z) (nows : list Z) : option Z :=
  match nows with
  | [] => Some packed
  | now :: nows' => packed' ← try_acquire self packed now; acquire_all self packed' nows'
  end.

(** ** The packed word *)
Lemma unpack_pack t k :
  0 <= t <= u32_max -> 0 <= k <= u32_max -> unpack (pack t k) = (t, k).
Proof.
  unfold u32_max, unpack, pack, wrap. intros Ht Hk.
  rewrite Z.shiftr_lor, Z.shiftr_shiftl_l by lia. rewrite Z.sub_diag, Z.shiftl_0_r.
  assert (Z.shiftr k 32 = 0) as ->.
  { rewrite Z.shiftr_div_pow2 by lia. apply Z.div_small. lia. }
  rewrite Z.lor_0_r, Z.mod_small by lia. f_equal.
  rewrite Z.land_lor_distr_l, !Z.land_ones by lia.
  rewrite Z.shiftl_mul_pow2, Z.mod_mul by lia. simpl. apply Z.mod_small. lia.
Qed.

Lemma wrap_bounds b z : 0 <= b -> 0 <= wrap b z < 2 ^ b.
Proof. intros. apply Z.mod_pos_bound. lia. Qed.

Lemma wrap_sub_wrap b a t : wrap b (wrap b a - wrap b t) = wrap b (a - t).
Proof. unfold wrap. by rewrite <- Zminus_mod. Qed.

Lemma wrap_le b z : 0 <= b -> 0 <= z -> wrap b z <= z.
Proof. intros. apply Z.mod_le; lia. Qed.

(** ** The limiter in use

    [bucket self T k packed]: the word holds [k] tokens, last refilled at [T]
    (unwrapped). *)
Definition limiter_ok (self : RateLimiter) : Prop :=
  1 <= max_tokens self <= u32_max /\ interval_ms self = 1000.

Definition bucket (self : RateLimiter) (T k packed : Z) : Prop :=
  0 <= T /\ 0 <= k <= max_tokens self /\ packed = pack (wrap 32 T) k.

(** The tokens credited [elapsed] milliseconds after a refill. *)
Definition credit (self : RateLimiter) (elapsed : Z) : Z :=
  wrap 32 (wrap 32 elapsed * max_tokens self / 1000).

Lemma refill_value self e :
  limiter_ok self -> 0 <= e < 2 ^ 32 ->
  compute_refill e (max_tokens self) 1000 = e * max_tokens self / 1000.
Proof.
  unfold limiter_ok, compute_refill, u32_max. intros [Hm _] He.
  assert (0 <= e * max_tokens self < 2 ^ 64) by nia.
  rewrite Z.min_r by lia. apply wrap_small.
  split; [apply Z.div_pos; lia|]. apply Z.div_lt_upper_bound; lia.
Qed.

Lemma try_acquire_eq self T k packed now :
  limiter_ok self -> bucket self T k packed ->
  try_acquire self packed now =
    let add := credit self (now - T) in
    let k' := if 0 <? add then Z.min (k + add) (max_tokens self) else k in
    if 1 <=? k' then
      Some (pack (if 0 <? add then wrap 32 now else wrap 32 T) (k' - 1)) else None.
Proof.
  intros Hok (HT & Hk & ->). pose proof Hok as [Hm Hi]. unfold try_acquire, credit.
  pose proof (wrap_bounds 32 T). unfold u32_max in *.
  rewrite unpack_pack by (unfold u32_max; lia). rewrite Hi, wrap_sub_wrap.
  rewrite refill_value by (try done; apply wrap_bounds; lia).
  rewrite (wrap_small 32 (max_tokens self)) by lia. cbv zeta.
  destruct (0 <? _) eqn:E; [|done]. by rewrite Z.min_comm, Z.min_assoc, (Z.min_l (max_tokens self)), Z.min_comm by lia.
Qed.

(** A successful call takes one token; a refill moves the time and fills the
    bucket up to its size. *)
Lemma try_acquire_step self T k packed now packed' :
  limiter_ok self -> bucket self T k packed -> T <= now ->
  try_acquire self packed now = Some packed' ->
  (credit self (now - T) = 0 /\ 1 <= k /\ bucket self T (k - 1) packed') \/
  (0 < credit self (now - T) /\
   bucket self now (Z.min (k + credit self (now - T)) (max_tokens self) - 1) packed').
Proof.
  intros Hok Hb Hle Htry. rewrite (try_acquire_eq _ _ _ _ _ Hok Hb) in Htry.
  destruct Hok as [Hm _], Hb as (HT & Hk & ->).
  assert (0 <= credit self (now - T)) by (apply wrap_bounds; lia). cbv zeta in Htry.
  destruct (0 <? credit self (now - T)) eqn:E.
  - right. destruct (1 <=? _) eqn:E2; [|done]. injection Htry as <-. split; [lia|].
    split; [lia|]. split; [lia|done].
  - left. destruct (1 <=? k) eqn:E2; [|done]. injection Htry as <-. split; [lia|].
    split; [lia|]. split; [lia|]. split; [lia|done].
Qed.

(** What has accrued [e] milliseconds after a refill, in thousandths of a
    token, as far as the two fields of the word can tell. *)
Definition accrued (self : RateLimiter) (e : Z) : Z := (wrap 32 e * max_tokens self) mod (1000 * 2 ^ 32).

Lemma credit_accrued self e : credit self e = accrued self e / 1000.
Proof.
  unfold credit, accrued. set (a := wrap 32 e * max_tokens self). unfold wrap.
  rewrite Z.rem_mul_r, (Z.mul_comm 1000 (_ mod _)), Z.div_add by lia.
  rewrite (Z.div_small (a mod 1000)) by (apply Z.mod_pos_bound; lia). done.
Qed.

Lemma accrued_nonneg self e : 0 <= accrued self e.
Proof. by apply Z.mod_pos_bound. Qed.

Lemma credit_bound self e : 1000 * credit self e <= accrued self e.
Proof. rewrite credit_accrued. by apply Z.mul_div_le. Qed.

Lemma credit_zero self e : credit self e = 0 -> accrued self e < 1000.
Proof.
  rewrite credit_accrued. pose proof (Z.div_mod (accrued self e) 1000). pose proof (Z.mod_pos_bound (accrued self e) 1000). lia.
Qed.

(** ** Rate *)
Lemma wrap_elapse T s now :
  T <= s <= now -> wrap 32 (now - T) <= wrap 32 (s - T) + (now - s).
Proof.
  intros Hle. replace (now - T) with ((s - T) + (now - s)) by lia. unfold wrap.
  rewrite Zplus_mod. pose proof (Z.mod_pos_bound (s - T) (2 ^ 32)).
  pose proof (Z.mod_pos_bound (now - s) (2 ^ 32)).
  pose proof (Z.mod_le (now - s) (2 ^ 32)).
  pose proof (Z.mod_le ((s - T) mod 2 ^ 32 + (now - s) mod 2 ^ 32) (2 ^ 32)). lia.
Qed.

(** Wherever the two fields wrap around, no more accrues than the time gives. *)
Lemma accrued_elapse self T s now :
  limiter_ok self -> T <= s <= now -> accrued self (now - T) <= accrued self (s - T) + (now - s) * max_tokens self.
Proof.
  intros [Hm _] Hle. unfold accrued. set (m := max_tokens self) in *.
  pose proof (wrap_bounds 32 (now - T)) as Hw. pose proof (wrap_bounds 32 (s - T)) as Hw'. pose proof (wrap_elapse T s now Hle) as He.
  destruct (Z.lt_ge_cases (wrap 32 (now - T)) (now - s)) as [Hlt|Hge].
  - pose proof (Z.mod_le (wrap 32 (now - T) * m) (1000 * 2 ^ 32)). pose proof (Z.mod_pos_bound (wrap 32 (s - T) * m) (1000 * 2 ^ 32)). nia.
  - assert (Hsum : wrap 32 (now - T) = wrap 32 (s - T) + (now - s)).
    { unfold wrap in *. replace (now - T) with ((s - T) + (now - s)) in * by lia.
      rewrite <- Zplus_mod_idemp_l in *. set (w := (s - T) mod 2 ^ 32) in *. apply Z.mod_small.
      pose proof (Z.div_mod (w + (now - s)) (2 ^ 32)). nia. }
    rewrite Hsum, Z.mul_add_distr_r, <- Zplus_mod_idemp_l. apply Z.mod_le; [|done].
    pose proof (Z.mod_pos_bound (wrap 32 (s - T) * m) (1000 * 2 ^ 32)). nia.
Qed.

(** A sequence of calls whose clock readings do not go back. *)
Fixpoint times_from (s : Z) (nows : list Z) : Prop :=
  match nows with [] => True | now :: nows' => s <= now /\ times_from now nows' end.

Fixpoint last_time (s : Z) (nows : list Z) : Z :=
  match nows with [] => s | now :: nows' => last_time now nows' end.

Lemma times_from_app s l1 l2 :
  times_from s (l1 ++ l2) <-> times_from s l1 /\ times_from (last_time s l1) l2.
Proof. revert s. induction l1 as [|n l1 IH]; intros s; simpl; [tauto|]. rewrite IH. tauto. Qed.

Lemma last_time_ge s l : times_from s l -> s <= last_time s l.
Proof. revert s. induction l as [|n l IH]; intros s; simpl; [lia|]. intros [? ?%IH]. lia. Qed.

Lemma acquire_all_app self packed l1 l2 :
  acquire_all self packed (l1 ++ l2) = packed' ← acquire_all self packed l1; acquire_all self packed' l2.
Proof.
  revert packed. induction l1 as [|n l1 IH]; intros packed; simpl; [done|].
  destruct (try_acquire self packed n); simpl; [apply IH|done].
Qed.

Lemma acquire_all_bucket self nows T k packed packed' s :
  limiter_ok self -> bucket self T k packed -> T <= s -> times_from s nows ->
  acquire_all self packed nows = Some packed' ->
  exists T' k', bucket self T' k' packed' /\ T' <= last_time s nows.
Proof.
  intros Hok. revert T k packed s. induction nows as [|now nows IH]; intros T k packed s Hb HTs Hs Hrun;
    simpl in *; [by simplify_eq; exists T, k|].
  apply bind_Some in Hrun as (p1 & Htry & Hrun). destruct Hs as [Hle Hs].
  assert (T <= now) as HTn by lia.
  destruct (try_acquire_step _ _ _ _ _ _ Hok Hb HTn Htry) as [(_ & _ & Hb')|(_ & Hb')];
    (eapply IH; [exact Hb'|lia|exact Hs|exact Hrun]).
Qed.

(** From any word, the calls take at most the tokens in it, what has accrued
    since its refill, and the tokens of the time they take. *)
Lemma acquire_all_rate self nows T k packed packed' s :
  limiter_ok self -> bucket self T k packed -> T <= s -> times_from s nows ->
  acquire_all self packed nows = Some packed' ->
  1000 * Z.of_nat (length nows) <=
    1000 * k + accrued self (s - T) + (last_time s nows - s) * max_tokens self.
Proof.
  intros Hok. revert T k packed s. induction nows as [|now nows IH]; intros T k packed s Hb HTs Hs Hrun.
  - simpl. pose proof (accrued_nonneg self (s - T)). destruct Hb as (? & ? & ?). lia.
  - simpl in Hrun, Hs. apply bind_Some in Hrun as (p1 & Htry & Hrun). destruct Hs as [Hle Hs].
    cbn [length last_time]. pose proof (accrued_elapse self T s now Hok ltac:(lia)) as Hw.
    pose proof (last_time_ge _ _ Hs). pose proof Hok as [Hm _].
    assert (T <= now) as HTn by lia.
    destruct (try_acquire_step _ _ _ _ _ _ Hok Hb HTn Htry) as [(Hc & Hk & Hb') | (Hc & Hb')].
    + specialize (IH T (k - 1) p1 now Hb' ltac:(lia) Hs Hrun). lia.
    + specialize (IH now _ p1 now Hb' ltac:(lia) Hs Hrun). rewrite Z.sub_diag in IH.
      pose proof (credit_bound self (now - T)).
      change (accrued self 0) with 0 in IH. lia.
Qed.

(** A window opened by a call sees at most one bucket, less than one token
    accrued before it, and the tokens of its own duration. *)
Lemma acquire_all_window self nows T k packed packed' now :
  limiter_ok self -> bucket self T k packed -> T <= now ->
  times_from now nows -> acquire_all self packed (now :: nows) = Some packed' ->
  1000 * Z.of_nat (length (now :: nows)) <
    1000 * (max_tokens self + 1) + (last_time now nows - now) * max_tokens self.
Proof.
  intros Hok Hb HT Hs Hrun.
  simpl in Hrun. apply bind_Some in Hrun as (p1 & Htry & Hrun). cbn [length].
  pose proof Hb as (_ & Hk & _).
  destruct (try_acquire_step _ _ _ _ _ _ Hok Hb HT Htry) as [(Hc & Hk1 & Hb') | (Hc & Hb')].
  - pose proof (acquire_all_rate _ _ _ _ _ _ now Hok Hb' HT Hs Hrun) as Hr. pose proof (credit_zero _ _ Hc). lia.
  - pose proof (acquire_all_rate _ _ _ _ _ _ now Hok Hb' ltac:(lia) Hs Hrun) as Hr.
    rewrite Z.sub_diag in Hr. change (accrued self 0) with 0 in Hr. lia.
Qed.

Lemma new_bucket rps packed :
  0 <= rps -> inner (new rps) = Some packed ->
  limiter_ok (new rps) /\ bucket (new rps) 0 (max_tokens (new rps)) packed /\
  max_tokens (new rps) <= rps.
Proof.
  unfold new. destruct (rps =? 0) eqn:E; simpl; [done|]. intros Hr [= <-].
  unfold limiter_ok, bucket, u32_max; simpl. repeat split; try lia.
  by rewrite wrap_small by lia.
Qed.

(** C26: However the threads interleave, the calls that have returned by the
    time [t] number at most one bucket plus the tokens of [t] milliseconds; and
    the calls returned in a window that a call opens number less than the
    bucket, one token more, and the tokens of the window. The token more is
    what has accrued, and not been credited, when the window opens. *)
Theorem limiter_rate_bounded rps packed pre win packed' :
  0 <= rps -> inner (new rps) = Some packed -> times_from 0 (pre ++ win) ->
  acquire_all (new rps) packed (pre ++ win) = Some packed' ->
  1000 * Z.of_nat (length (pre ++ win)) <= (1000 + last_time 0 (pre ++ win)) * rps /\
  (forall now rest, win = now :: rest ->
   1000 * Z.of_nat (length win) < 1000 * (rps + 1) + (last_time now rest - now) * rps).
Proof.
  intros Hr Hin Ht Hrun. destruct (new_bucket rps packed Hr Hin) as (Hok & Hb & Hmax).
  split.
  - pose proof (acquire_all_rate _ _ _ _ _ _ 0 Hok Hb ltac:(lia) Ht Hrun) as H1.
    pose proof (last_time_ge _ _ Ht). rewrite Z.sub_diag in H1. change (accrued (new rps) 0) with 0 in H1. nia.
  - intros now rest ->. rewrite acquire_all_app in Hrun. apply bind_Some in Hrun as (p1 & Hpre & Hwin).
    apply times_from_app in Ht as [Ht1 [Ht2 Ht3]].
    destruct (acquire_all_bucket _ _ _ _ _ _ 0 Hok Hb ltac:(lia) Ht1 Hpre) as (T & k & Hb1 & HT).
    pose proof (acquire_all_window _ _ _ _ _ _ now Hok Hb1 ltac:(lia) Ht3 Hwin) as H1.
    pose proof (last_time_ge _ _ Ht3). nia.
Qed.

(** Two requests a second: three calls return within a millisecond, so the
    token more is needed. *)
Lemma limiter_rate_bounded_witness :
  is_Some (acquire_all (new 2) (pack 0 2) [499; 499; 500]) /\
  1000 * Z.of_nat (length ([] ++ [499; 499; 500])) <= (1000 + last_time 0 ([] ++ [499; 499; 500])) * 2 /\
  1000 * Z.of_nat (length [499; 499; 500]) < 1000 * (2 + 1) + (last_time 499 [499; 500] - 499) * 2.
Proof.
  destruct (limiter_rate_bounded 2 (pack 0 2) [] [499; 499; 500] (pack 500 0)) as [Hall Hwin];
    [lia|reflexivity|simpl; lia|vm_compute; reflexivity|].
  split; [vm_compute; by eexists|]. split; [exact Hall|]. apply (Hwin 499 [499; 500]). reflexivity.
Defined.

(** ** Waiting *)
Lemma div_ceil_le a b c : 0 < b -> (div_ceil a b <= c <-> a <= c * b).
Proof.
  intros Hb. unfold div_ceil. pose proof (Z.div_mod a b). pose proof (Z.mod_pos_bound a b).
  destruct (0 <? a mod b) eqn:E; split; nia.
Qed.

(** A thread that finds the bucket empty and computes its sleep at the time
    [later] sleeps for exactly the time the next token needs: with no other
    thread in between, a call at a time [t] succeeds if and only if the whole
    sleep has passed. No thread oversleeps and none spins. The credit must fit
    the 32 bits of the token field. *)
Theorem limiter_sleep_exact self T packed later t :
  limiter_ok self -> bucket self T 0 packed -> T <= later <= t ->
  try_acquire self packed later = None ->
  t - T < 2 ^ 32 -> (t - T) * max_tokens self < 1000 * 2 ^ 32 ->
  is_Some (try_acquire self packed t) <-> later + sleep_ms self packed later <= t.
Proof.
  intros Hok Hb Hle Hnone Hspan Hfit. pose proof Hok as [Hm Hi]. unfold u32_max in Hm.
  assert (Hcr : forall x, T <= x <= t -> credit self (x - T) = (x - T) * max_tokens self / 1000).
  { intros x Hx. unfold credit. rewrite (wrap_small 32 (x - T)) by lia. apply wrap_small.
    split; [apply Z.div_pos; nia|]. apply Z.div_lt_upper_bound; nia. }
  assert (Htry : forall x, T <= x <= t ->
    is_Some (try_acquire self packed x) <-> 1000 <= (x - T) * max_tokens self).
  { intros x Hx. rewrite (try_acquire_eq _ _ _ _ _ Hok Hb), (Hcr x Hx). cbv zeta.
    pose proof (Z.div_mod ((x - T) * max_tokens self) 1000).
    pose proof (Z.mod_pos_bound ((x - T) * max_tokens self) 1000).
    destruct (0 <? _) eqn:E; [rewrite (proj2 (Z.leb_le _ _)) by lia|]; simpl.
    - split; [lia|eauto].
    - split; [by intros [? ?]|lia]. }
  rewrite Htry by lia.
  assert (Hl : (later - T) * max_tokens self < 1000).
  { destruct (Z.lt_ge_cases ((later - T) * max_tokens self) 1000) as [|Hge]; [done|].
    apply Htry in Hge as [? Hge]; [congruence|lia]. }
  destruct Hb as (HT & _ & ->). unfold sleep_ms. pose proof (wrap_bounds 32 T).
  rewrite unpack_pack by (unfold u32_max; lia). rewrite wrap_sub_wrap, (wrap_small 32 (later - T)) by lia.
  rewrite Hi. unfold sat_mul64, u64_max. rewrite Z.min_r by nia.
  rewrite (Z.mod_small _ 1000) by nia.
  pose proof (div_ceil_le (1000 - (later - T) * max_tokens self) (max_tokens self) (t - later) ltac:(lia)).
  assert (1 <= div_ceil (1000 - (later - T) * max_tokens self) (max_tokens self)).
  { destruct (Z.lt_ge_cases (div_ceil (1000 - (later - T) * max_tokens self) (max_tokens self)) 1) as [Hlt|]; [|done].
    assert (div_ceil (1000 - (later - T) * max_tokens self) (max_tokens self) <= 0) as ?%div_ceil_le by lia; lia. }
  rewrite Z.max_r by done. nia.
Qed.

Lemma limiter_sleep_exact_witness :
  is_Some (try_acquire (new 2) (pack 0 0) 500) <->
  100 + sleep_ms (new 2) (pack 0 0) 100 <= 500.
Proof.
  apply (limiter_sleep_exact (new 2) 0 (pack 0 0) 100 500);
    [vm_compute; intuition congruence|vm_compute; intuition congruence|lia|reflexivity|lia|simpl; lia].
Defined.

(** A limiter created with the rate 0 never waits. *)
Lemma limiter_unlimited now later : acquire_turn (new 0) now later = Acquired (new 0).
Proof. reflexivity. Qed.
