(* ===== verification/Rpc.v ===== *)
(** * Rpc: requests, responses and errors of the fork backend

    Models request.rs, response.rs, error.rs and config.rs of
    src/evm/forkdb: the JSON-RPC method, parameters and cache key of a
    request, the parsing of a result, and the classification of failures. *)
From S2P Require Import Prelude.
From S2P Require Import Env.

(** ** [serde_json::Value]

    A number is an integer or the text of a float; an object keeps the order
    of its members. *)
Inductive Json : Type :=
| JNull
| JBool (b : bool)
| JInt (n : Z)
| JFloat (text : string)
| JString (s : string)
| JArray (items : list Json)
| JObject (members : list (string * Json)).

Fixpoint member (key : string) (members : list (string * Json)) : option Json :=
  match members with
  | [] => None
  | (k, v) :: ms => if String.eqb k key then Some v else member key ms
  end.

(** [Value::get(key)], [as_str], [as_u64], [as_i64], [as_array] *)
Definition json_get (key : string) (v : Json) : option Json :=
  match v with JObject ms => member key ms | _ => None end.
Definition as_str (v : Json) : option string := match v with JString s => Some s | _ => None end.
Definition as_u64 (v : Json) : option Z :=
  match v with JInt n => if (0 <=? n) && (n <=? u64_max) then Some n else None | _ => None end.
Definition as_i64 (v : Json) : option Z :=
  match v with JInt n => if (- 2 ^ 63 <=? n) && (n <? 2 ^ 63) then Some n else None | _ => None end.
Definition as_array (v : Json) : option (list Json) :=
  match v with JArray l => Some l | _ => None end.
Definition is_object (v : Json) : bool := match v with JObject _ => true | _ => false end.
Definition is_null (v : Json) : bool := match v with JNull => true | _ => false end.

(** The text of an address and of a word without a prefix ([{:x}] in alloy),
    and the text of a value ([serde_json]). *)
Class RpcText : Type := {
  address_hex : Address -> string;
  word_hex : U256 -> string;
  json_to_string : Json -> string;
  json_parse : string -> option Json;
}.

Class RpcTextLaws `{RpcText} : Prop := {
  address_hex_inj : forall a b, 0 <= a <= address_max -> 0 <= b <= address_max ->
    address_hex a = address_hex b -> a = b;
  word_hex_inj : forall u v, in_u256 u -> in_u256 v -> word_hex u = word_hex v -> u = v;
  address_hex_digits : forall a, str_all is_digit (address_hex a);
  word_hex_digits : forall u, str_all is_digit (word_hex u);
  address_hex_nonempty : forall a, address_hex a <> "";
  word_hex_nonempty : forall u, word_hex u <> "";
  json_parse_to_string : forall v, json_parse (json_to_string v) = Some v;
}.

(** ** Requests *)
Inductive Request : Type :=
| GetChainId (url_hash : Z)
| GetBlockByNumber (chain_id block : Z)
| GetBalance (chain_id : Z) (address : Address) (block : Z)
| GetTransactionCount (chain_id : Z) (address : Address) (block : Z)
| GetCode (chain_id : Z) (address : Address) (block : Z)
| GetStorageAt (chain_id : Z) (address : Address) (slot : U256) (block : Z).

#[export] Instance Request_eq_dec : EqDecision Request.
Proof. solve_decision. Defined.

(** The numbers of a request fit their types. *)
Definition request_ok (r : Request) : Prop :=
  match r with
  | GetChainId h => in_u64 h
  | GetBlockByNumber c b => in_u64 c /\ in_u64 b
  | GetBalance c a b | GetTransactionCount c a b | GetCode c a b =>
      in_u64 c /\ 0 <= a <= address_max /\ in_u64 b
  | GetStorageAt c a s b => in_u64 c /\ 0 <= a <= address_max /\ in_u256 s /\ in_u64 b
  end.

Definition method (r : Request) : string :=
  match r with
  | GetChainId _ => "eth_chainId"
  | GetBlockByNumber _ _ => "eth_getBlockByNumber"
  | GetBalance _ _ _ => "eth_getBalance"
  | GetTransactionCount _ _ _ => "eth_getTransactionCount"
  | GetCode _ _ _ => "eth_getCode"
  | GetStorageAt _ _ _ _ => "eth_getStorageAt"
  end.

Definition is_block (r : Request) : bool :=
  match r with GetBlockByNumber _ _ => true | _ => false end.

Section Text.
Context `{RpcText}.

Definition params (r : Request) : list Json :=
  match r with
  | GetChainId _ => []
  | GetBlockByNumber _ block => [JString ("0x" +:+ fmt_hex block); JBool false]
  | GetBalance _ address block | GetTransactionCount _ address block
  | GetCode _ address block =>
      [JString ("0x" +:+ address_hex address); JString ("0x" +:+ fmt_hex block)]
  | GetStorageAt _ address slot block =>
      [JString ("0x" +:+ address_hex address); JString ("0x" +:+ word_hex slot);
       JString ("0x" +:+ fmt_hex block)]
  end.

Definition cache_key (r : Request) : string :=
  match r with
  | GetChainId url_hash => "eth_chainId/" +:+ fmt_hex url_hash
  | GetBlockByNumber chain_id block =>
      "eth_getBlockByNumber/" +:+ fmt_dec chain_id +:+ "/" +:+ fmt_dec block
  | GetBalance chain_id address block =>
      "eth_getBalance/" +:+ fmt_dec chain_id +:+ "/" +:+ fmt_dec block +:+ "/" +:+ address_hex address
  | GetTransactionCount chain_id address block =>
      "eth_getTransactionCount/" +:+ fmt_dec chain_id +:+ "/" +:+ fmt_dec block +:+ "/" +:+ address_hex address
  | GetCode chain_id address block =>
      "eth_getCode/" +:+ fmt_dec chain_id +:+ "/" +:+ fmt_dec block +:+ "/" +:+ address_hex address
  | GetStorageAt chain_id address slot block =>
      "eth_getStorageAt/" +:+ fmt_dec chain_id +:+ "/" +:+ fmt_dec block +:+ "/" +:+ address_hex address
        +:+ "/" +:+ word_hex slot
  end.
End Text.

(** [u64::from_be_bytes] *)
Definition from_be_bytes (bs : Bytes) : Z := foldl (fun n b => n * 256 + b) 0 bs.

Definition url_hash `{Keccak} (url : string) : Z := from_be_bytes (take 8 (keccak256 url)).

(** ** Errors *)
Inductive Error : Type :=
| RpcTimeout (url : string)
| ConnectionError (url : string)
| RateLimited (url : string)
| DecodeError (message : string)
| RpcError (code : Z) (message : string)
| UnexpectedResponse (message : string)
| MissingAccount (message : string)
| Internal (message : string).

#[export] Instance Error_eq_dec : EqDecision Error.
Proof. solve_decision. Defined.

Definition is_transient (e : Error) : bool :=
  match e with
  | RpcTimeout _ | ConnectionError _ | RateLimited _ => true
  | RpcError code _ => (code =? 429) || ((500 <=? code) && (code <=? 599))
  | _ => false
  end.

(** [anyhow::Error]: the outermost message and the root cause, as far as the
    classification looks at it. *)
Inductive RootCause : Type :=
| UreqStatus (code : Z)
| UreqTimeout
| UreqOther
| IoError
| JsonError (text : string)
| OtherCause.

Record Anyhow : Type := mkAnyhow { shown : string; root_cause : RootCause }.

(** [anyhow!(msg)], [bail!(msg)] *)
Definition message (msg : string) : Anyhow := mkAnyhow msg OtherCause.

(** The part of the classification that reads the message. *)
Definition classify_message (msg url : string) : Error :=
  if contains "429" msg || contains "503" msg || contains "504" msg ||
     contains "rate limit" msg || contains "too many requests" msg ||
     contains "service unavailable" msg
  then RateLimited url
  else if contains "timeout" msg || contains "timed out" msg then RpcTimeout url
  else if contains "connection" msg || contains "connect" msg then ConnectionError url
  else Internal msg.

Definition from_anyhow (e : Anyhow) (url : string) : Error :=
  match root_cause e with
  | UreqStatus code =>
      if (code =? 429) || (code =? 503) || (code =? 504) then RateLimited url
      else classify_message (shown e) url
  | UreqTimeout => RpcTimeout url
  | IoError => ConnectionError url
  | JsonError text => DecodeError text
  | UreqOther | OtherCause => classify_message (shown e) url
  end.

(** [i64]'s decimal text *)
Definition fmt_i64 (z : Z) : string := if z <? 0 then "-" +:+ fmt_dec (- z) else fmt_dec z.

Definition error_display (e : Error) : string :=
  match e with
  | RpcTimeout url => "RPC timeout: " +:+ url
  | ConnectionError url => "RPC connection error: " +:+ url
  | RateLimited url => "RPC rate limited: " +:+ url
  | DecodeError m => "RPC decode error: " +:+ m
  | RpcError code m => "RPC error " +:+ fmt_i64 code +:+ ": " +:+ m
  | UnexpectedResponse m => "unexpected RPC response: " +:+ m
  | MissingAccount m => "missing account in fork DB: " +:+ m
  | Internal m => "internal fork DB error: " +:+ m
  end.

(** Results of the fork backend: a value, an error, or a panic. *)
Inductive RpcRes (A : Type) : Type :=
| ROk (a : A)
| RErr (e : Error)
| RPanic (msg : string).
Arguments ROk {A} a.
Arguments RErr {A} e.
Arguments RPanic {A} msg.

#[export] Instance RpcRes_ret : MRet RpcRes := fun A a => ROk a.
#[export] Instance RpcRes_bind : MBind RpcRes := fun A B f r =>
  match r with ROk a => f a | RErr e => RErr e | RPanic p => RPanic p end.

Definition ok_or {A} (o : option A) (e : Error) : RpcRes A :=
  match o with Some a => ROk a | None => RErr e end.

Lemma RpcRes_bind_ROk {A B} (r : RpcRes A) (f : A -> RpcRes B) b :
  (r ≫= f) = ROk b <-> exists a, r = ROk a /\ f a = ROk b.
Proof. unfold mbind, RpcRes_bind. destruct r; naive_solver. Qed.

Lemma ok_or_ROk {A} (o : option A) e a : ok_or o e = ROk a <-> o = Some a.
Proof. destruct o; simpl; naive_solver. Qed.

(** ** Responses *)
Record Block : Type := mkBlock {
  number : Z;
  timestamp : Z;
  coinbase : Address;
  gas_limit : Z;
  basefee : Z;
  prevrandao : option U256;
  difficulty : U256;
  excess_blob_gas : option Z;
  hash : option U256;
}.

Inductive Response : Type :=
| ChainId (v : Z)
| BlockByNumber (b : Block)
| Balance (v : U256)
| TransactionCount (v : Z)
| Code (v : Bytes)
| StorageAt (v : U256).

(** The parsers of alloy and serde: [U64::from_str_radix(_, 16)],
    [U256::from_str], [Bytes::from_str], [Block::deserialize]. *)
Class ResultText : Type := {
  u64_from_hex : string -> option Z;
  u256_from_str : string -> option U256;
  bytes_from_str : string -> option Bytes;
  block_deserialize : Json -> string + Block;
}.

Section Parse.
Context `{ResultText}.

(** [s.strip_prefix("0x").unwrap_or(s)] *)
Definition strip_0x (s : string) : string := default s (strip_prefix "0x" s).

(** [option.context(msg)?]: an [anyhow] error of that message. *)
Definition or_message {A} (o : option A) (msg : string) : Anyhow + A :=
  match o with Some a => inr a | None => inl (message msg) end.

Definition and_then {A B} (r : Anyhow + A) (f : A -> Anyhow + B) : Anyhow + B :=
  match r with inl e => inl e | inr a => f a end.

Definition parse (request : Request) (result : Json) : Anyhow + Response :=
  match request with
  | GetChainId _ =>
      and_then (or_message (as_str result) "expected hex string for chainId") (fun s =>
      and_then (or_message (u64_from_hex (strip_0x s)) "invalid chainId hex") (fun v =>
      inr (ChainId v)))
  | GetBlockByNumber _ _ =>
      if is_null result then inl (message "block not found")
      else match block_deserialize result with
           | inl text => inl (mkAnyhow "invalid block response" (JsonError text))
           | inr block => inr (BlockByNumber block)
           end
  | GetBalance _ _ _ =>
      and_then (or_message (as_str result) "expected hex string for balance") (fun s =>
      and_then (or_message (u256_from_str s) "invalid balance hex") (fun v =>
      inr (Balance v)))
  | GetTransactionCount _ _ _ =>
      and_then (or_message (as_str result) "expected hex string for nonce") (fun s =>
      and_then (or_message (u64_from_hex (strip_0x s)) "invalid nonce hex") (fun v =>
      inr (TransactionCount v)))
  | GetCode _ _ _ =>
      and_then (or_message (as_str result) "expected hex string for code") (fun s =>
      and_then (or_message (bytes_from_str s) "invalid code hex") (fun v =>
      inr (Code v)))
  | GetStorageAt _ _ _ _ =>
      and_then (or_message (as_str result) "expected hex string for storage") (fun s =>
      and_then (or_message (u256_from_str s) "invalid storage hex") (fun v =>
      inr (StorageAt v)))
  end.

(** [Response::parse(..)?] in a function that returns [Error]. *)
Definition parse_result (request : Request) (result : Json) : RpcRes Response :=
  match parse request result with
  | inl e => RErr (from_anyhow e "")
  | inr r => ROk r
  end.

(** The variant a request is answered with. *)
Definition answers (request : Request) (r : Response) : Prop :=
  match request, r with
  | GetChainId _, ChainId _ | GetBlockByNumber _ _, BlockByNumber _
  | GetBalance _ _ _, Balance _ | GetTransactionCount _ _ _, TransactionCount _
  | GetCode _ _ _, Code _ | GetStorageAt _ _ _ _, StorageAt _ => True
  | _, _ => False
  end.

(** A result is parsed into the variant of its request, and a result that does
    not parse is a permanent error: it is never classified as transient,
    whatever the message of its cause. *)
Lemma parse_result_spec request result :
  (forall r, parse_result request result = ROk r -> answers request r) /\
  (forall e, parse_result request result = RErr e -> is_transient e = false) /\
  (forall p, parse_result request result <> RPanic p).
Proof.
  unfold parse_result, parse, or_message, and_then.
  split; [|split]; intros x;
    destruct request; repeat (case_match; simplify_eq); by intros; simplify_eq.
Qed.
End Parse.

(** ** Configuration *)
Record ForkDBConfig : Type := mkForkDBConfig {
  url : string;
  retries : Z;
  backoff_ms : Z;
  timeout_ms : Z;
  batch_size : Z;
  batch_timeout_ms : Z;
  rate_limit : option Z;
  cache_dir : option string;
  block_number : Z;
}.

(** [available_parallelism().unwrap_or(1)] is the argument [parallelism]. *)
Definition config_new (u : string) (parallelism : Z) : ForkDBConfig :=
  mkForkDBConfig u 3 100 30000 parallelism 50 None None 1.

(** ** Cache keys *)
Section Keys.
Context `{RpcTextLaws}.
#[local] Opaque fmt_dec fmt_hex String.append.

Lemma slash_not_digit : is_digit "/" = false.
Proof. reflexivity. Qed.

(** Peels the text of a number and the separator after it. *)
Lemma key_segment a b s t :
  str_all is_digit a -> str_all is_digit b ->
  a +:+ String "/" s = b +:+ String "/" t -> a = b /\ s = t.
Proof. intros Ha Hb. apply (separator_inj is_digit "/" a b s t Ha Hb slash_not_digit). Qed.

(** The segments of a key after the method. *)
Definition key_rest (r : Request) : string :=
  match r with
  | GetChainId h => fmt_hex h
  | GetBlockByNumber c b => fmt_dec c +:+ String "/" (fmt_dec b)
  | GetBalance c a b | GetTransactionCount c a b | GetCode c a b =>
      fmt_dec c +:+ String "/" (fmt_dec b +:+ String "/" (address_hex a))
  | GetStorageAt c a s b =>
      fmt_dec c +:+ String "/" (fmt_dec b +:+ String "/" (address_hex a +:+ String "/" (word_hex s)))
  end.

Lemma cache_key_split r : cache_key r = method r +:+ String "/" (key_rest r).
Proof. destruct r; reflexivity. Qed.

Lemma method_no_slash r : str_all (fun a => negb (Ascii.eqb a "/")) (method r).
Proof. by destruct r. Qed.

(** Two requests whose numbers fit their types share a cache key only if
    they are the same request: the cache, the pending set and the disk never
    confuse two fetches, whatever the chain, block, account or slot. *)
Theorem cache_key_injective r1 r2 :
  request_ok r1 -> request_ok r2 -> cache_key r1 = cache_key r2 -> r1 = r2.
Proof.
  intros H1 H2 Heq. rewrite !cache_key_split in Heq.
  apply (separator_inj _ _ _ _ _ _ (method_no_slash r1) (method_no_slash r2)) in Heq as [Hm Hr];
    [|reflexivity].
  destruct r1, r2; try discriminate Hm; clear Hm; unfold request_ok, key_rest in *; destruct_and?;
    repeat (apply key_segment in Hr as [? Hr];
      [|first [apply fmt_dec_digits|apply address_hex_digits]..]);
    repeat match goal with
    | H : fmt_hex _ = fmt_hex _ |- _ => apply fmt_hex_inj in H; [|first [assumption|split; assumption]..]
    | H : fmt_dec _ = fmt_dec _ |- _ => apply fmt_dec_inj in H; [|first [assumption|split; assumption]..]
    | H : address_hex _ = address_hex _ |- _ => apply address_hex_inj in H; [|first [assumption|split; assumption]..]
    | H : word_hex _ = word_hex _ |- _ => apply word_hex_inj in H; [|first [assumption|split; assumption]..]
    end; congruence.
Qed.
End Keys.

(** ** An instance for the witnesses

    Addresses and words in hexadecimal digits; the text of a JSON value is a
    number that encodes it. *)
Module ToyRpc.
Definition hex (z : Z) : string := digits_go 16 64 z "".

Lemma hex_inj a b : in_u256 a -> in_u256 b -> hex a = hex b -> a = b.
Proof.
  unfold in_u256, u256_max, hex. intros Ha Hb Heq.
  assert (16 ^ Z.of_nat 64 = 2 ^ 256) as Hp by reflexivity.
  pose proof (digits_go_read 16 64 a "" ltac:(lia) ltac:(lia) ltac:(lia)) as Hra.
  pose proof (digits_go_read 16 64 b "" ltac:(lia) ltac:(lia) ltac:(lia)) as Hrb.
  rewrite Heq, Hrb in Hra. cbn [read_digits] in Hra. done.
Qed.

(** JSON values as trees. *)
Fixpoint to_tree (v : Json) : gen_tree (string + Z) :=
  match v with
  | JNull => GenNode 0 []
  | JBool b => GenNode 1 [GenLeaf (inr (if b then 1 else 0))]
  | JInt n => GenNode 2 [GenLeaf (inr n)]
  | JFloat t => GenNode 3 [GenLeaf (inl t)]
  | JString s => GenNode 4 [GenLeaf (inl s)]
  | JArray l => GenNode 5 (map to_tree l)
  | JObject ms => GenNode 6 (map (fun '(k, v) => GenNode 7 [GenLeaf (inl k); to_tree v]) ms)
  end.

Fixpoint of_tree (t : gen_tree (string + Z)) : Json :=
  match t with
  | GenNode 1 [GenLeaf (inr n)] => JBool (n =? 1)
  | GenNode 2 [GenLeaf (inr n)] => JInt n
  | GenNode 3 [GenLeaf (inl t)] => JFloat t
  | GenNode 4 [GenLeaf (inl s)] => JString s
  | GenNode 5 l => JArray (map of_tree l)
  | GenNode 6 l => JObject (map (fun t =>
      match t with GenNode _ [GenLeaf (inl k); t'] => (k, of_tree t') | _ => ("", JNull) end) l)
  | _ => JNull
  end.

Fixpoint of_to_tree (v : Json) : of_tree (to_tree v) = v.
Proof.
  destruct v as [|[]| | | |l|ms]; simpl; try done.
  - f_equal. induction l as [|v l IH]; simpl; [done|]. by rewrite of_to_tree, IH.
  - f_equal. induction ms as [|[k v] ms IH]; simpl; [done|]. by rewrite of_to_tree, IH.
Qed.

Definition render (v : Json) : string := Toy.pos_digits (encode (to_tree v)).
Definition read (s : string) : option Json :=
  of_tree <$> (decode (Z.to_pos (Toy.digits_value s)) : option (gen_tree (string + Z))).

#[export] Instance text : RpcText := {
  address_hex := hex;
  word_hex := hex;
  json_to_string := render;
  json_parse := read;
}.

#[export] Instance text_laws : RpcTextLaws.
Proof.
  split; simpl.
  - intros a b Ha Hb. apply hex_inj; unfold in_u256, u256_max, address_max in *; lia.
  - apply hex_inj.
  - intros a. apply (digits_go_digits 16 64 a ""); [lia|done].
  - intros a. apply (digits_go_digits 16 64 a ""); [lia|done].
  - intros a. apply digits_go_nonempty. lia.
  - intros a. apply digits_go_nonempty. lia.
  - intros v. unfold render, read. rewrite Toy.digits_value_pos. simpl.
    rewrite countable.decode_encode. simpl. by rewrite of_to_tree.
Qed.
End ToyRpc.

Import ToyRpc.

Lemma cache_key_injective_witness :
  GetStorageAt 1 5 7 100 = GetStorageAt 1 5 7 100.
Proof.
  apply (cache_key_injective (GetStorageAt 1 5 7 100) (GetStorageAt 1 5 7 100));
    [vm_compute; intuition congruence|vm_compute; intuition congruence|reflexivity].
Defined.
