(* ===== verification/Batch.v ===== *)
(** * Batch: one JSON-RPC batch of the fork backend

    Models the batch half of src/evm/forkdb/backend.rs: deduplication, the
    payload, the parsing of a batch response, the backoff, and the retry loop of
    [dispatch_batch]. The network and the clock are a world passed along; the
    retry loop also records what it did, so that posts, sleeps and tokens can
    be counted. *)
From S2P Require Import Prelude.
From S2P Require Import Env.
From S2P Require Import Rpc.

(** The transport, the clock in milliseconds, the sleep and the rate limiter's
    [acquire]. *)
Class Net (W : Type) : Type := {
  transport_exec : string -> Json -> W -> (Anyhow + Json) * W;
  clock : W -> Z;
  thread_sleep : Z -> W -> W;
  limiter_acquire : W -> W;
}.

(** What one dispatch does to the world. *)
Inductive Event : Type :=
| Acquire
| Post (payload : Json)
| Slept (ms : Z).

Section Batch.
Context `{RpcText}.

(** ** Requests of a batch *)

(** [seen.insert(req.cache_key())] keeps the first request of each key. *)
Fixpoint dedup_from (seen : gset string) (batch : list Request) : list Request :=
  match batch with
  | [] => []
  | req :: batch' =>
      let key := cache_key req in
      if decide (key ∈ seen) then dedup_from seen batch'
      else req :: dedup_from ({[key]} ∪ seen) batch'
  end.

Definition deduplicate_requests (batch : list Request) : list Request := dedup_from ∅ batch.

Definition payload_item (idx : nat) (req : Request) : Json :=
  JObject [("jsonrpc", JString "2.0"); ("id", JInt (Z.of_nat idx));
           ("method", JString (method req)); ("params", JArray (params req))].

Definition build_payload (batch : list Request) : Json := JArray (imap payload_item batch).

(** ** Responses of a batch *)
Definition batch_items (response : Json) (n : nat) : RpcRes (list Json) :=
  if is_object response && (n =? 1)%nat then ROk [response]
  else ok_or (as_array response) (UnexpectedResponse
    ("expected JSON array response for batch request, got: " +:+ json_to_string response)).

(** The id and the result of one item. *)
Definition item_result (item : Json) : RpcRes (Z * Json) :=
  match json_get "id" item ≫= as_u64 with
  | None => RErr (UnexpectedResponse
      ("missing id in JSON-RPC response item: " +:+ json_to_string item))
  | Some id =>
      match json_get "error" item with
      | Some error =>
          let code := default 0 (json_get "code" error ≫= as_i64) in
          RErr (RpcError code
            ("JSON-RPC response contains error object: " +:+ json_to_string item))
      | None =>
          result ← ok_or (json_get "result" item) (UnexpectedResponse
            ("missing result in JSON-RPC response item: " +:+ json_to_string item));
          mret (id, result)
      end
  end.

Fixpoint collect_by_id (arr : list Json) (by_id : gmap Z Json) : RpcRes (gmap Z Json) :=
  match arr with
  | [] => ROk by_id
  | item :: arr' => '(id, result) ← item_result item; collect_by_id arr' (<[id := result]> by_id)
  end.

Fixpoint collect_successes (idx : nat) (deduped : list Request) (by_id : gmap Z Json)
    (successes : gmap string Json) : RpcRes (gmap string Json) :=
  match deduped with
  | [] => ROk successes
  | req :: deduped' =>
      result ← ok_or (by_id !! Z.of_nat idx) (UnexpectedResponse
        ("missing response for request id " +:+ fmt_dec (Z.of_nat idx)));
      if is_null result && is_block req then
        RErr (UnexpectedResponse "block not found (null result)")
      else collect_successes (S idx) deduped' (delete (Z.of_nat idx) by_id)
             (<[cache_key req := result]> successes)
  end.

Definition parse_batch_response (response : Json) (deduped : list Request)
    : RpcRes (gmap string Json) :=
  arr ← batch_items response (length deduped);
  if negb (length arr =? length deduped)%nat then
    RErr (UnexpectedResponse ("expected " +:+ fmt_dec (Z.of_nat (length deduped)) +:+ " responses, got "
      +:+ fmt_dec (Z.of_nat (length arr)) +:+ ": " +:+ json_to_string (JArray arr)))
  else
    by_id ← collect_by_id arr ∅;
    collect_successes 0 deduped by_id ∅.

(** ** The retry loop *)
Definition max_backoff : Z := 5000.

(** The multiplication of a [Duration] fails when its seconds leave 64 bits. *)
Definition sleep_duration (self : ForkDBConfig) (attempt : Z) : Z :=
  let multiplier := Z.min u32_max (2 ^ attempt) in
  let d := backoff_ms self * multiplier in
  if u64_max <? d / 1000 then max_backoff else Z.min d max_backoff.

Context {W : Type} `{Net W}.

Fixpoint dispatch_loop (self : ForkDBConfig) (payload : Json) (deduped : list Request)
    (attempt : Z) (left : nat) (w : W) : RpcRes (gmap string Json) * W * list Event :=
  let '(reply, w1) := transport_exec (url self) payload w in
  let outcome := match reply with
    | inr response => parse_batch_response response deduped
    | inl e => RErr (from_anyhow e (url self))
    end in
  match outcome with
  | ROk results => (ROk results, w1, [Post payload])
  | RPanic p => (RPanic p, w1, [Post payload])
  | RErr err =>
      if negb (is_transient err) || (retries self <=? attempt) then (RErr err, w1, [Post payload])
      else
        let backoff := sleep_duration self attempt in
        let w2 := thread_sleep backoff w1 in
        match left with
        | O => (RPanic "loop always returns", w2, [Post payload; Slept backoff])
        | S left' =>
            let '(r, w3, events) := dispatch_loop self payload deduped (attempt + 1) left' w2 in
            (r, w3, Post payload :: Slept backoff :: events)
        end
  end.

(** The second component is the number of misses added to the counter. *)
Definition dispatch_batch (self : ForkDBConfig) (batch : list Request) (w : W)
    : RpcRes (gmap string Json) * Z * W * list Event :=
  let deduped := deduplicate_requests batch in
  let payload := build_payload deduped in
  let limited := bool_decide (is_Some (rate_limit self)) in
  let w1 := if limited then limiter_acquire w else w in
  let '(r, w2, events) := dispatch_loop self payload deduped 0 (Z.to_nat (retries self)) w1 in
  (r, Z.of_nat (length deduped), w2, (if limited then [Acquire] else []) ++ events).
End Batch.

(** ** Deduplication *)
Section Dedup_lemmas.
Context `{RpcText}.

Lemma dedup_from_spec seen batch :
  NoDup (map cache_key (dedup_from seen batch)) /\
  (forall k, k ∈ map cache_key (dedup_from seen batch) <-> k ∈ map cache_key batch /\ k ∉ seen) /\
  sublist (dedup_from seen batch) batch.
Proof.
  revert seen. induction batch as [|r batch IH]; intros seen; simpl.
  - split; [constructor|]. split; [set_solver|constructor].
  - destruct (decide _) as [Hin|Hnin]; simpl.
    + destruct (IH seen) as (H1 & H2 & H3). split; [done|].
      split; [|by constructor]. intros k. rewrite H2. set_solver.
    + destruct (IH ({[cache_key r]} ∪ seen)) as (H1 & H2 & H3). split; [|split].
      * constructor; [|done]. rewrite H2. set_solver.
      * intros k. rewrite !elem_of_cons, H2.
        destruct (decide (k = cache_key r)) as [->|]; set_solver.
      * by constructor.
Qed.

Lemma dedup_nodup batch : NoDup (map cache_key (deduplicate_requests batch)).
Proof. apply dedup_from_spec. Qed.

Lemma dedup_keys batch k :
  k ∈ map cache_key (deduplicate_requests batch) <-> k ∈ map cache_key batch.
Proof. destruct (dedup_from_spec ∅ batch) as (_ & Hk & _). unfold deduplicate_requests. rewrite Hk. set_solver. Qed.

(** A list without repeated keys is kept as it is. *)
Lemma dedup_from_id seen batch :
  NoDup (map cache_key batch) -> (forall r, r ∈ batch -> cache_key r ∉ seen) ->
  dedup_from seen batch = batch.
Proof.
  revert seen. induction batch as [|r batch IH]; intros seen Hnd Hs; simpl; [done|].
  apply NoDup_cons in Hnd as [Hr Hnd]. rewrite decide_False by (apply Hs; set_solver).
  f_equal. apply IH; [done|]. intros r' Hr'.
  apply not_elem_of_union. split; [|apply Hs; set_solver].
  intros Heq%elem_of_singleton. apply Hr. rewrite <- Heq. by apply list_elem_of_fmap_2.
Qed.
End Dedup_lemmas.

(** ** Parsing a batch response *)
Section Parse_lemmas.
Context `{RpcText}.

(** An item that carries the result [v] under the id [i] and no error. *)
Definition answered (p : Z * Json) (item : Json) : Prop :=
  json_get "id" item ≫= as_u64 = Some p.1 /\ json_get "error" item = None /\
  json_get "result" item = Some p.2.

Lemma item_result_ROk item p : item_result item = ROk p <-> answered p item.
Proof.
  unfold item_result, answered. destruct p as [i v]; simpl. split.
  - destruct (_ ≫= as_u64) as [id|]; [|done]. destruct (json_get "error" item); [done|].
    intros (r & Hr & [= -> ->])%RpcRes_bind_ROk. by apply ok_or_ROk in Hr.
  - intros (-> & -> & ->). done.
Qed.

Lemma collect_by_id_ROk arr m m' :
  collect_by_id arr m = ROk m' <->
  exists pairs, Forall2 answered pairs arr /\
    m' = foldl (fun m (p : Z * Json) => <[p.1 := p.2]> m) m pairs.
Proof.
  revert m. induction arr as [|item arr IH]; intros m; simpl.
  - split.
    + intros [= ->]. exists []. by split.
    + intros (pairs & HF & ->). by apply Forall2_nil_inv_r in HF as ->.
  - split.
    + intros ([i v] & Hi & Hc)%RpcRes_bind_ROk. apply item_result_ROk in Hi.
      apply IH in Hc as (pairs & HF & ->). exists ((i, v) :: pairs). by split; [constructor|].
    + intros (pairs & HF & ->). apply Forall2_cons_inv_r in HF as ([i v] & pairs' & Hi & HF & ->).
      apply item_result_ROk in Hi. rewrite Hi. simpl. apply IH. by exists pairs'.
Qed.

Lemma collect_successes_ROk idx deduped by_id acc m :
  collect_successes idx deduped by_id acc = ROk m <->
  exists vs, length vs = length deduped /\
    (forall i v, vs !! i = Some v -> by_id !! Z.of_nat (idx + i) = Some v) /\
    Forall2 (fun req v => is_null v && is_block req = false) deduped vs /\
    m = foldl (fun m (p : Request * Json) => <[cache_key p.1 := p.2]> m) acc (zip deduped vs).
Proof.
  revert idx by_id acc. induction deduped as [|req deduped IH]; intros idx by_id acc; simpl.
  - split.
    + intros [= <-]. exists []. repeat split; [|by constructor]. by intros.
    + by intros (vs & Hl%nil_length_inv & _ & _ & ->).
  - split.
    + intros (v & Hv & Hrest)%RpcRes_bind_ROk. apply ok_or_ROk in Hv.
      destruct (is_null v && is_block req) eqn:E; [done|].
      apply IH in Hrest as (vs & Hl & Hget & HF & ->).
      exists (v :: vs). split; [simpl; lia|]. split; [|split; [by constructor|done]].
      intros [|i] w Hw; simpl in Hw; [simplify_eq; by rewrite Nat.add_0_r|].
      apply Hget in Hw. apply lookup_delete_Some in Hw as [_ Hw]. by rewrite <- Nat.add_succ_comm.
    + intros ([|v vs] & Hl & Hget & HF & ->); [done|]. apply Forall2_cons in HF as [Hn HF].
      assert (Hv : by_id !! Z.of_nat idx = Some v) by (rewrite <- (Nat.add_0_r idx); by apply Hget).
      rewrite Hv. simpl. rewrite Hn. apply IH. exists vs. split; [simpl in Hl; lia|]. split; [|done].
      intros i w Hw. rewrite lookup_delete_ne by lia.
      rewrite Nat.add_succ_comm. by apply Hget.
Qed.

End Parse_lemmas.

Section Batch_theorems.
Context `{RpcText}.

(** The results [vs] under the ids 0, 1, 2, ... *)
Definition numbered (vs : list Json) : list (Z * Json) := imap (fun i v => (Z.of_nat i, v)) vs.

Lemma elem_of_numbered vs i v : (i, v) ∈ numbered vs <-> exists j, i = Z.of_nat j /\ vs !! j = Some v.
Proof.
  unfold numbered. rewrite elem_of_lookup_imap. split.
  - intros (j & w & [= -> ->] & ?). by exists j.
  - intros (j & -> & ?). by exists j, v.
Qed.

Lemma numbered_ids vs : (numbered vs).*1 = Z.of_nat <$> seq 0 (length vs).
Proof.
  apply list_eq. intros i. rewrite !list_lookup_fmap. unfold numbered. rewrite list_lookup_imap.
  destruct (vs !! i) eqn:E; simpl.
  - rewrite lookup_seq_lt by (by eapply lookup_lt_Some). done.
  - rewrite lookup_seq_ge by (by apply lookup_ge_None). done.
Qed.

Lemma ids_nodup n : NoDup (Z.of_nat <$> seq 0 n).
Proof. apply NoDup_fmap_2; [intros ? ? ?; lia|apply NoDup_seq]. Qed.

(** As many pairs as requests that answer every id are the numbered results in
    some order. *)
Lemma pairs_numbered (pairs : list (Z * Json)) vs :
  length pairs = length vs ->
  (forall i v, vs !! i = Some v ->
     foldl (fun m (p : Z * Json) => <[p.1 := p.2]> m) (∅ : gmap Z Json) pairs !! Z.of_nat i = Some v) ->
  pairs ≡ₚ numbered vs.
Proof.
  intros Hl Hget.
  assert (Hp : (Z.of_nat <$> seq 0 (length vs)) ≡ₚ pairs.*1).
  { apply submseteq_length_Permutation; [|by rewrite !length_fmap, length_seq, Hl].
    apply NoDup_submseteq; [apply ids_nodup|]. intros i (j & -> & Hj)%list_elem_of_fmap.
    apply elem_of_seq in Hj. destruct (lookup_lt_is_Some_2 vs j) as [v Hv]; [lia|].
    apply Hget, elem_of_dom_2, foldl_insert_dom in Hv as [?|Hv]; [done|].
    by rewrite dom_empty_L in Hv. }
  assert (Hnd : NoDup pairs.*1) by (rewrite <- Hp; apply ids_nodup).
  rewrite foldl_insert_nodup, (right_id_L ∅ (∪)) in Hget by done.
  apply NoDup_Permutation.
  - by apply NoDup_fmap_1 in Hnd.
  - apply (NoDup_fmap_1 fst). rewrite numbered_ids. apply ids_nodup.
  - intros [i v]. rewrite elem_of_numbered. split.
    + intros Hin. assert (i ∈ pairs.*1) as Hi by (by apply (list_elem_of_fmap_2 fst pairs (i, v))).
      rewrite <- Hp in Hi. apply list_elem_of_fmap in Hi as (j & -> & Hj). apply elem_of_seq in Hj.
      destruct (lookup_lt_is_Some_2 vs j) as [w Hw]; [lia|]. exists j. split; [done|].
      rewrite Hw. pose proof (elem_of_list_to_map_1 pairs _ _ Hnd Hin) as Hv.
      rewrite (Hget j w Hw) in Hv. congruence.
    + intros (j & -> & Hj). apply elem_of_list_to_map_2. by apply Hget.
Qed.

Lemma successes_map (deduped : list Request) (vs : list Json) :
  length vs = length deduped -> NoDup (map cache_key deduped) ->
  foldl (fun m (p : Request * Json) => <[cache_key p.1 := p.2]> m) ∅ (zip deduped vs) =
  (list_to_map (zip (map cache_key deduped) vs) : gmap string Json).
Proof.
  intros Hl Hnd. rewrite <- (right_id_L ∅ (∪) (list_to_map _)).
  rewrite <- foldl_insert_nodup by (rewrite fst_zip; [done|rewrite length_map; lia]).
  generalize (∅ : gmap string Json). clear Hnd. revert vs Hl.
  induction deduped as [|r l IH]; intros [|v vs] Hl m; simpl in *; try done. apply IH. lia.
Qed.

(** A batch response is accepted exactly when it holds one successful item
    per request, numbered 0, 1, 2, ... in any order, and no missing block; the
    result of each id then goes to the request of that position. A missing,
    repeated or foreign id, an error object or a surplus item rejects the whole
    batch. *)
Theorem parse_batch_response_spec response deduped m :
  NoDup (map cache_key deduped) ->
  parse_batch_response response deduped = ROk m <->
  exists arr vs pairs,
    batch_items response (length deduped) = ROk arr /\
    length vs = length deduped /\
    Forall2 answered pairs arr /\ pairs ≡ₚ numbered vs /\
    Forall2 (fun req v => is_null v && is_block req = false) deduped vs /\
    m = list_to_map (zip (map cache_key deduped) vs).
Proof.
  intros Hnd. unfold parse_batch_response. rewrite RpcRes_bind_ROk. split.
  - intros (arr & Harr & Hrest). destruct (Nat.eqb_spec (length arr) (length deduped)) as [Hlen|]; [|done].
    simpl in Hrest. apply RpcRes_bind_ROk in Hrest as (by_id & Hby & Hs).
    apply collect_by_id_ROk in Hby as (pairs & HF & ->).
    apply collect_successes_ROk in Hs as (vs & Hl & Hget & HN & ->).
    exists arr, vs, pairs. repeat split; try done; [|by apply successes_map].
    apply Forall2_length in HF as Hlp. apply pairs_numbered; [lia|done].
  - intros (arr & vs & pairs & Harr & Hl & HF & Hp & HN & ->). exists arr. split; [done|].
    apply Forall2_length in HF as Hlp. apply Permutation_length in Hp as Hl2.
    unfold numbered in Hl2. rewrite length_imap in Hl2.
    rewrite (proj2 (Nat.eqb_eq (length arr) (length deduped))) by lia. simpl.
    apply RpcRes_bind_ROk. eexists. split; [apply collect_by_id_ROk; eauto|].
    apply collect_successes_ROk. exists vs. split; [done|]. split; [|split; [done|by rewrite successes_map]].
    intros i v Hv. simpl.
    assert (Hnp : NoDup pairs.*1) by (rewrite Hp, numbered_ids; apply ids_nodup).
    rewrite foldl_insert_nodup, (right_id_L ∅ (∪)) by done.
    apply elem_of_list_to_map_1; [done|]. rewrite Hp, elem_of_numbered. eauto.
Qed.

(** What a successful parse gives: a result for every key of the batch and for
    no other. *)
Lemma parse_batch_response_dom response deduped m :
  NoDup (map cache_key deduped) ->
  parse_batch_response response deduped = ROk m -> dom m = list_to_set (map cache_key deduped).
Proof.
  intros Hnd (arr & vs & pairs & _ & Hl & _ & _ & _ & ->)%parse_batch_response_spec; [|done].
  rewrite dom_list_to_map_L, fst_zip; [done|rewrite length_map; lia].
Qed.

(** No response makes the parser panic. *)
Lemma parse_batch_response_no_panic response deduped p :
  parse_batch_response response deduped <> RPanic p.
Proof.
  unfold parse_batch_response, batch_items, ok_or, mbind, RpcRes_bind.
  assert (Hby : forall arr m p, collect_by_id arr m <> RPanic p).
  { induction arr as [|item arr IH]; intros m q; simpl; [done|].
    unfold mbind, RpcRes_bind. destruct (item_result item) as [[]| |] eqn:E; [apply IH|done|].
    revert E. unfold item_result, ok_or, mbind, RpcRes_bind. repeat case_match; naive_solver. }
  assert (Hs : forall reqs i by_id acc p, collect_successes i reqs by_id acc <> RPanic p).
  { induction reqs as [|r reqs IH]; intros i by_id acc q; simpl; [done|].
    unfold ok_or, mbind, RpcRes_bind. destruct (by_id !! Z.of_nat i); [|done].
    destruct (_ && _); [done|apply IH]. }
  destruct (is_object response && _); [|destruct (as_array response); [|done]];
    (destruct (negb _); [done|]);
    match goal with |- context [collect_by_id ?a ?b] => destruct (collect_by_id a b) eqn:E end;
    solve [apply Hs|done|by apply Hby in E].
Qed.
End Batch_theorems.

(** ** The retry loop *)
Definition is_post (e : Event) : bool := match e with Post _ => true | _ => false end.
Definition posts (events : list Event) : nat := length (List.filter is_post events).
Definition is_acquire (e : Event) : bool := match e with Acquire => true | _ => false end.
Definition acquires (events : list Event) : nat := length (List.filter is_acquire events).
Definition slept (events : list Event) : Z :=
  zsum (map (fun e => match e with Slept ms => ms | _ => 0 end) events).

Lemma sleep_duration_bounds self attempt :
  0 <= backoff_ms self -> 0 <= attempt -> 0 <= sleep_duration self attempt <= max_backoff.
Proof.
  intros Hb Ha. unfold sleep_duration, max_backoff. pose proof (Z.pow_pos_nonneg 2 attempt).
  assert (0 <= backoff_ms self * Z.min u32_max (2 ^ attempt)) by (unfold u32_max; nia).
  destruct (_ <? _); lia.
Qed.

(** The pauses between retries never shrink, never exceed five seconds,
    and double until they reach the cap, whatever the attempt and the
    configured backoff. *)
Theorem sleep_duration_capped_doubling self attempt :
  0 <= backoff_ms self -> 0 <= attempt ->
  sleep_duration self attempt <= sleep_duration self (attempt + 1) <= max_backoff /\
  (attempt < 31 ->
   sleep_duration self (attempt + 1) = Z.min max_backoff (2 * sleep_duration self attempt)).
Proof.
  intros Hb Ha. pose proof (sleep_duration_bounds self attempt Hb Ha).
  pose proof (sleep_duration_bounds self (attempt + 1) Hb ltac:(lia)).
  unfold sleep_duration in *. rewrite Z.pow_add_r by lia. change (2 ^ 1) with 2.
  pose proof (Z.pow_pos_nonneg 2 attempt ltac:(lia) Ha) as Hp. unfold max_backoff, u64_max, u32_max in *.
  set (m1 := Z.min (2 ^ 32 - 1) (2 ^ attempt)) in *.
  set (m2 := Z.min (2 ^ 32 - 1) (2 ^ attempt * 2)) in *.
  assert (Hm : m1 <= m2) by lia.
  assert (Hd : backoff_ms self * m1 <= backoff_ms self * m2) by nia.
  assert (Hdiv : backoff_ms self * m1 / 1000 <= backoff_ms self * m2 / 1000) by (apply Z.div_le_mono; lia).
  assert (Hbig : forall x, 2 ^ 64 - 1 < x / 1000 -> 5000 < x).
  { intros x Hx. pose proof (Z.mul_div_le x 1000). lia. }
  pose proof (Hbig (backoff_ms self * m1)). pose proof (Hbig (backoff_ms self * m2)).
  split.
  - destruct (Z.ltb_spec (2 ^ 64 - 1) (backoff_ms self * m1 / 1000));
      destruct (Z.ltb_spec (2 ^ 64 - 1) (backoff_ms self * m2 / 1000)); lia.
  - intros Hlt. assert (m2 = 2 * m1).
    { assert (2 ^ attempt <= 2 ^ 30) by (apply Z.pow_le_mono_r; lia). lia. }
    assert (backoff_ms self * m2 = 2 * (backoff_ms self * m1)) by nia.
    destruct (Z.ltb_spec (2 ^ 64 - 1) (backoff_ms self * m1 / 1000));
      destruct (Z.ltb_spec (2 ^ 64 - 1) (backoff_ms self * m2 / 1000)); lia.
Qed.

Section Dispatch.
Context `{RpcText} {W : Type} `{Net W}.
Variable self : ForkDBConfig.

Lemma dispatch_loop_spec payload deduped attempt left (w : W) r w' events :
  0 <= backoff_ms self -> 0 <= attempt -> retries self = attempt + Z.of_nat left ->
  dispatch_loop self payload deduped attempt left w = (r, w', events) ->
  (1 <= posts events <= left + 1)%nat /\ acquires events = O /\
  Forall (fun e => is_post e = true -> e = Post payload) events /\
  slept events <= max_backoff * Z.of_nat (posts events - 1) /\
  (forall p, r <> RPanic p) /\
  (forall m, r = ROk m -> exists response, parse_batch_response response deduped = ROk m) /\
  (forall e, r = RErr e -> is_transient e = true -> posts events = (left + 1)%nat).
Proof.
  intros Hb. revert attempt w r w' events.
  induction left as [|left IH]; intros attempt w r w' events Ha Hr; simpl;
    destruct (transport_exec (url self) payload w) as [reply w1];
    destruct (match reply with inr response => _ | inl e => _ end) as [m|err|p] eqn:Eo;
    try (destruct reply as [e|response]; [done|by apply parse_batch_response_no_panic in Eo]).
  - intros [= <- <- <-]. repeat split; try (unfold posts, slept; simpl; lia); try done.
    + by repeat constructor.
    + intros m' [= <-]. destruct reply as [|response]; [done|eauto].
  - rewrite (proj2 (Z.leb_le (retries self) attempt)) by lia. rewrite orb_true_r. intros [= <- <- <-].
    repeat split; try (unfold posts, slept; simpl; lia); try done. by repeat constructor.
  - intros [= <- <- <-]. repeat split; try (unfold posts, slept; simpl; lia); try done.
    + by repeat constructor.
    + intros m' [= <-]. destruct reply as [|response]; [done|eauto].
  - rewrite (proj2 (Z.leb_gt (retries self) attempt)) by lia. rewrite orb_false_r.
    destruct (is_transient err) eqn:Et; simpl.
    + destruct (dispatch_loop self payload deduped (attempt + 1) left _) as [[r' w3] ev] eqn:E.
      intros [= <- <- <-]. apply IH in E as (H1 & H2 & H3 & H4 & H5 & H6 & H7); [|lia..].
      pose proof (sleep_duration_bounds self attempt Hb Ha).
      unfold posts, slept, acquires, max_backoff in *. simpl.
      split; [lia|]. split; [done|]. split; [by repeat constructor|]. split; [lia|].
      split; [done|]. split; [done|]. intros e He Hte. specialize (H7 e He Hte). lia.
    + intros [= <- <- <-]. repeat split; try (unfold posts, slept; simpl; lia); try done.
      * by repeat constructor.
      * intros e [= <-]. congruence.
Qed.

(** C19: Dispatching a batch always ends: it posts one and the same payload,
    without repeated keys, at least once and at most [retries + 1] times; it
    pauses at most five seconds between two posts; it never reaches the end of
    the loop; on success it has a result for exactly the keys of the batch; and
    it reports a transient error only when every retry is used up, a permanent
    one at once. The limiter is asked for one token whatever the number of
    posts. *)
Theorem dispatch_batch_spec batch (w : W) r misses w' events :
  0 <= backoff_ms self -> 0 <= retries self ->
  dispatch_batch self batch w = (r, misses, w', events) ->
  (1 <= posts events)%nat /\ Z.of_nat (posts events) <= retries self + 1 /\
  Forall (fun e => is_post e = true -> e = Post (build_payload (deduplicate_requests batch))) events /\
  acquires events = (if bool_decide (is_Some (rate_limit self)) then 1 else 0)%nat /\
  slept events <= max_backoff * Z.of_nat (posts events - 1) /\
  (forall p, r <> RPanic p) /\
  (forall m, r = ROk m -> forall k, k ∈ dom m <-> k ∈ map cache_key batch) /\
  (forall e, r = RErr e -> is_transient e = true -> Z.of_nat (posts events) = retries self + 1).
Proof.
  intros Hb Hr. unfold dispatch_batch.
  destruct (dispatch_loop _ _ _ _ _ _) as [[r' w2] ev] eqn:E. intros [= <- <- <- <-].
  apply dispatch_loop_spec in E as (H1 & H2 & H3 & H4 & H5 & H6 & H7); [|lia..].
  assert (Hev : posts ((if bool_decide (is_Some (rate_limit self)) then [Acquire] else []) ++ ev) = posts ev
    /\ slept ((if bool_decide (is_Some (rate_limit self)) then [Acquire] else []) ++ ev) = slept ev)
    by (case_bool_decide; done).
  destruct Hev as [-> ->]. split; [lia|]. split; [lia|]. split; [|split; [|split; [done|split; [done|split]]]].
  - apply Forall_app. split; [|done]. case_bool_decide; by repeat constructor.
  - unfold acquires in *. rewrite List.filter_app, length_app, H2. by case_bool_decide.
  - intros m Hm k. destruct (H6 m Hm) as [response Hp].
    rewrite (parse_batch_response_dom _ _ _ (dedup_nodup batch) Hp), elem_of_list_to_set. apply dedup_keys.
  - intros e He Ht. specialize (H7 e He Ht). lia.
Qed.
End Dispatch.

(** ** A scripted network for the witnesses: the replies still to come *)
Module ToyNet.
#[export] Instance net : Net (list (Anyhow + Json)) := {
  transport_exec _ _ w := match w with
    | [] => (inl (message "closed"), [])
    | reply :: w' => (reply, w')
    end;
  clock _ := 0;
  thread_sleep _ w := w;
  limiter_acquire w := w;
}.

Definition item (id : Z) (result : Json) : Json := JObject [("id", JInt id); ("result", result)].
End ToyNet.

Import ToyRpc ToyNet.

Lemma parse_batch_response_spec_witness :
  let reqs := [GetBalance 1 5 9; GetCode 1 5 9] in
  let response := JArray [item 1 (JString "0x60"); item 0 (JString "0x7")] in
  parse_batch_response response reqs
    = ROk (list_to_map (zip (map cache_key reqs) [JString "0x7"; JString "0x60"])).
Proof.
  intros reqs response. apply (parse_batch_response_spec response reqs).
  - repeat constructor; vm_compute; set_solver.
  - exists [item 1 (JString "0x60"); item 0 (JString "0x7")], [JString "0x7"; JString "0x60"],
      [(1, JString "0x60"); (0, JString "0x7")].
    split; [reflexivity|]. split; [reflexivity|].
    split; [by repeat constructor|]. split; [apply perm_swap|].
    split; [by repeat constructor|reflexivity].
Defined.

Lemma sleep_duration_capped_doubling_witness :
  sleep_duration (config_new "u" 1) 3 <= sleep_duration (config_new "u" 1) 4 <= max_backoff /\
  sleep_duration (config_new "u" 1) 4 = Z.min max_backoff (2 * sleep_duration (config_new "u" 1) 3).
Proof.
  destruct (sleep_duration_capped_doubling (config_new "u" 1) 3) as [Hle Hd]; [done..|].
  split; [exact Hle|]. by apply Hd.
Defined.

(** Two timeouts, then an answer: three posts for the one token. *)
Lemma dispatch_batch_spec_witness :
  let cfg := mkForkDBConfig "u" 3 100 0 1 0 (Some 5) None 1 in
  let w := [inl (mkAnyhow "t" UreqTimeout); inl (mkAnyhow "t" UreqTimeout);
            inr (JArray [item 0 (JString "0x1")])] in
  let '(r, misses, w', events) := dispatch_batch cfg [GetChainId 7; GetChainId 7] w in
  posts events = 3%nat /\ acquires events = 1%nat /\ (forall p, r <> RPanic p).
Proof.
  intros cfg w.
  assert (Hn : posts (dispatch_batch cfg [GetChainId 7; GetChainId 7] w).2 = 3%nat) by (vm_compute; reflexivity).
  destruct (dispatch_batch cfg [GetChainId 7; GetChainId 7] w) as [[[r misses] w'] events] eqn:E.
  pose proof (dispatch_batch_spec cfg _ _ _ _ _ _ ltac:(done) ltac:(done) E) as (_ & _ & _ & Ha & _ & Hp & _).
  split; [exact Hn|split; [exact Ha|exact Hp]].
Defined.
