(* ===== verification/Backend.v ===== *)
(** * Backend: the shared cache and the batching threads

    Models the rest of src/evm/forkdb/backend.rs: the global cache and its
    copy on disk, the pending batch, and the threads that go through
    [fetch_or_wait]. The mutex makes one turn of the slow loop, from the lock
    to the wait or the return, one step; the lock-free fast path is one step
    too, which the theorem on the cache justifies: an entry, once there, never
    changes and never goes away. *)
From stdpp Require Import relations.
From S2P Require Import Prelude.
From S2P Require Import Env.
From S2P Require Import Paths.
From S2P Require Import Rpc.
From S2P Require Import Batch.

(** ** Paths

    A path under the cache directory is a string; the file name is what follows
    the last slash, the extension what follows the last dot of it. *)
Definition split_file (path : string) : string * string :=
  match rsplit "/" path with Some (d, f) => (d +:+ "/", f) | None => ("", path) end.

(** [Path::extension], [Path::with_extension]: a dot at the start of a file
    name does not begin an extension. *)
Definition extension (path : string) : option string :=
  match rsplit "." (split_file path).2 with
  | Some (EmptyString, _) | None => None
  | Some (_, e) => Some e
  end.

Definition with_extension (path ext : string) : string :=
  let '(dir, file) := split_file path in
  let stem := match rsplit "." file with
    | Some (EmptyString, _) | None => file
    | Some (st, _) => st
    end in
  dir +:+ stem +:+ "." +:+ ext.

(** [str::strip_suffix] *)
Fixpoint strip_suffix (suffix s : string) : option string :=
  if String.eqb s suffix then Some ""
  else match s with
       | EmptyString => None
       | String a s' => String a <$> strip_suffix suffix s'
       end.

(** How far a write to the disk gets: nothing is written, the temporary file
    is left behind, or the rename succeeds. *)
Inductive WriteOutcome : Type := NoWrite | TempOnly | Renamed.

Class Disk (W : Type) : Type := { write_outcome : string -> W -> WriteOutcome }.

(** Files of the cache directory by relative path. *)
Abbreviation Files := (gmap string string).

Section Disk_cache.
Context `{RpcText} {W : Type} `{Disk W}.

Definition load_file (path content : string) (cache : gmap string Json) : gmap string Json :=
  match extension path with
  | Some e =>
      if String.eqb e "json" then
        match json_parse content with
        | Some value => <[default path (strip_suffix ".json" path) := value]> cache
        | None => cache
        end
      else cache
  | None => cache
  end.

Definition load_disk_cache (files : Files) (cache : gmap string Json) : gmap string Json :=
  foldr (fun f => load_file f.1 f.2) cache (map_to_list files).

Definition write_disk_cache (key : string) (value : Json) (w : W) (files : Files) : Files :=
  let path := with_extension key "json" in
  let data := json_to_string value in
  let temp := with_extension path "tmp" in
  match write_outcome key w with
  | NoWrite => files
  | TempOnly => <[temp := data]> files
  | Renamed => <[path := data]> (delete temp (<[temp := data]> files))
  end.
End Disk_cache.

(** ** State *)
Record ThreadRpcCounters : Type := mkCounters { t_hits : Z; t_misses : Z; t_wait_ms : Z }.
Definition counters_zero : ThreadRpcCounters := mkCounters 0 0 0.

Record SharedBackend (W : Type) : Type := mkBackend {
  global_cache : gmap string Json;
  pending : list Request;
  batch_start : option Z;
  hits : Z;
  misses : Z;
  wait_ms : Z;
  disk : Files;
  world : W;
}.
Arguments mkBackend {W}.
Arguments global_cache {W}.
Arguments pending {W}.
Arguments batch_start {W}.
Arguments hits {W}.
Arguments misses {W}.
Arguments wait_ms {W}.
Arguments disk {W}.
Arguments world {W}.

(** [RpcStats] and its two operations. *)
Record RpcStats : Type := mkRpcStats { s_hits : Z; s_misses : Z; s_wait : Z }.
Definition stats_saturating_add (a b : RpcStats) : RpcStats :=
  mkRpcStats (sat_add64 (s_hits a) (s_hits b)) (sat_add64 (s_misses a) (s_misses b)) (s_wait a + s_wait b).
Definition stats_saturating_sub (a b : RpcStats) : RpcStats :=
  mkRpcStats (sat_sub (s_hits a) (s_hits b)) (sat_sub (s_misses a) (s_misses b)) (sat_sub (s_wait a) (s_wait b)).

Section Backend.
Context `{RpcText} `{ResultText} {W : Type} `{Net W} `{Disk W}.
Variable self : ForkDBConfig.

Definition new_with_transport (files : Files) (w : W) : SharedBackend W :=
  let cache := match cache_dir self with Some _ => load_disk_cache files ∅ | None => ∅ end in
  mkBackend cache [] None 0 0 0 files w.

Definition stats (st : SharedBackend W) : RpcStats := mkRpcStats (hits st) (misses st) (wait_ms st).
Definition thread_stats (c : ThreadRpcCounters) : RpcStats := mkRpcStats (t_hits c) (t_misses c) (t_wait_ms c).

Definition cached (cache : gmap string Json) (req : Request) : bool :=
  bool_decide (is_Some (cache !! cache_key req)).

Definition cache_hits_and_misses (cache : gmap string Json) (reqs : list Request) : Z * Z :=
  (Z.of_nat (length (List.filter (cached cache) reqs)),
   Z.of_nat (length (List.filter (fun req => negb (cached cache req)) reqs))).

Definition add_thread_hits (n : Z) (c : ThreadRpcCounters) : ThreadRpcCounters :=
  mkCounters (sat_add64 (t_hits c) n) (t_misses c) (t_wait_ms c).
Definition add_thread_misses (n : Z) (c : ThreadRpcCounters) : ThreadRpcCounters :=
  mkCounters (t_hits c) (sat_add64 (t_misses c) n) (t_wait_ms c).
Definition add_thread_wait (ms : Z) (c : ThreadRpcCounters) : ThreadRpcCounters :=
  mkCounters (t_hits c) (t_misses c) (sat_add64 (t_wait_ms c) (wrap 64 ms)).

(** ** The fast path *)
Fixpoint fast_results (cache : gmap string Json) (reqs : list Request) : RpcRes (option (list Response)) :=
  match reqs with
  | [] => ROk (Some [])
  | req :: reqs' =>
      match cache !! cache_key req with
      | Some value =>
          r ← parse_result req value;
          rs ← fast_results cache reqs';
          ROk (option_map (cons r) rs)
      | None => ROk None
      end
  end.

Definition add_hits (n : Z) (st : SharedBackend W) : SharedBackend W :=
  mkBackend (global_cache st) (pending st) (batch_start st) (wrap 64 (hits st + n))
    (misses st) (wait_ms st) (disk st) (world st).

Definition try_fast_path (reqs : list Request) (st : SharedBackend W)
    : RpcRes (option (list Response)) * SharedBackend W :=
  match fast_results (global_cache st) reqs with
  | ROk (Some rs) => (ROk (Some rs), add_hits (Z.of_nat (length rs)) st)
  | r => (r, st)
  end.

(** ** One turn of the slow path *)
Definition is_nil {A} (l : list A) : bool := match l with [] => true | _ => false end.

(** Steps 1 to 3: enqueue what is missing, drop repeated keys, start the
    timer. *)
Definition enqueue (reqs : list Request) (now : Z) (st : SharedBackend W) : SharedBackend W :=
  let new_pending_requests := List.filter (fun req => negb (cached (global_cache st) req)) reqs in
  let was_empty := is_nil (pending st) in
  let pending' := deduplicate_requests (pending st ++ new_pending_requests) in
  let start := if was_empty && negb (is_nil pending') then Some now else batch_start st in
  mkBackend (global_cache st) pending' start (hits st) (misses st) (wait_ms st) (disk st) (world st).

(** Step 4: the batch fires on its size or its age. *)
Definition should_fetch (now : Z) (st : SharedBackend W) : bool :=
  let time_exceeded := match batch_start st with
    | Some start => batch_timeout_ms self <=? sat_sub now start
    | None => false
    end in
  (batch_size self <=? Z.of_nat (length (pending st))) || time_exceeded.

(** Taking the batch and executing it. *)
Definition take_and_execute (st : SharedBackend W) : RpcRes (gmap string Json) * SharedBackend W :=
  let '(r, missed, w', _) := dispatch_batch self (pending st) (world st) in
  (r, mkBackend (global_cache st) [] None (hits st) (wrap 64 (misses st + missed))
        (wrap 64 (wait_ms st + wrap 64 (sat_sub (clock w') (clock (world st))))) (disk st) w').

Definition persist (st : SharedBackend W) (entry : string * Json) : SharedBackend W :=
  let '(key, value) := entry in
  let files := match cache_dir self with
    | Some _ => write_disk_cache key value (world st) (disk st)
    | None => disk st
    end in
  mkBackend (<[key := value]> (global_cache st)) (pending st) (batch_start st)
    (hits st) (misses st) (wait_ms st) files (world st).

Fixpoint fetched_results (cache : gmap string Json) (reqs : list Request) : RpcRes (list Response) :=
  match reqs with
  | [] => ROk []
  | req :: reqs' =>
      value ← ok_or (cache !! cache_key req) (Internal "fetcher did not receive all keys");
      r ← parse_result req value;
      rs ← fetched_results cache reqs';
      mret (r :: rs)
  end.

Definition fetch (reqs : list Request) (st : SharedBackend W) : RpcRes (list Response) * SharedBackend W :=
  let '(r, st1) := take_and_execute st in
  match r with
  | ROk successes =>
      let cached_hits := List.filter (fun req => bool_decide (successes !! cache_key req = None)) reqs in
      let st2 := add_hits (Z.of_nat (length cached_hits)) st1 in
      let st3 := foldl persist st2 (map_to_list successes) in
      (fetched_results (global_cache st3) reqs, st3)
  | RErr e => (RErr e, st1)
  | RPanic p => (RPanic p, st1)
  end.

(** Step 5: how long to wait. *)
Definition remaining (now : Z) (st : SharedBackend W) : Z :=
  match batch_start st with
  | Some start => sat_sub (batch_timeout_ms self) (sat_sub now start)
  | None => batch_timeout_ms self
  end.

Inductive Turn : Type :=
| Done (r : RpcRes (list Response))
| Wait (ms : Z).

Definition slow_turn (reqs : list Request) (st : SharedBackend W) : Turn * SharedBackend W :=
  let now := clock (world st) in
  let st1 := enqueue reqs now st in
  if should_fetch now st1 then
    let '(r, st2) := fetch reqs st1 in (Done r, st2)
  else (Wait (remaining now st1), st1).

(** Step 6: a thread that wakes looks into the cache before its next turn. *)
Definition wake_turn (reqs : list Request) (st : SharedBackend W) : Turn * SharedBackend W :=
  match try_fast_path reqs st with
  | (ROk (Some rs), st1) => (Done (ROk rs), st1)
  | (ROk None, st1) => slow_turn reqs st1
  | (RErr e, st1) => (Done (RErr e), st1)
  | (RPanic p, st1) => (Done (RPanic p), st1)
  end.

(** ** Threads *)
Inductive Status : Type :=
| Entering (reqs : list Request) (started : Z)
| Asleep (reqs : list Request) (started ms : Z)
| Returned (reqs : list Request) (r : RpcRes (list Response)).

Record Thread : Type := mkThread { status : Status; counters : ThreadRpcCounters }.
Record System : Type := mkSystem { shared : SharedBackend W; threads : gmap nat Thread }.

(** [fetch_or_wait] up to the lock. *)
Definition fetch_or_wait (reqs : list Request) (c : ThreadRpcCounters) (st : SharedBackend W)
    : Thread * SharedBackend W :=
  match reqs with
  | [] => (mkThread (Returned [] (ROk [])) c, st)
  | _ =>
      match try_fast_path reqs st with
      | (ROk (Some rs), st1) =>
          (mkThread (Returned reqs (ROk rs)) (add_thread_hits (Z.of_nat (length rs)) c), st1)
      | (ROk None, st1) =>
          let '(h, m) := cache_hits_and_misses (global_cache st1) reqs in
          (mkThread (Entering reqs (clock (world st1))) (add_thread_misses m (add_thread_hits h c)), st1)
      | (RErr e, st1) => (mkThread (Returned reqs (RErr e)) c, st1)
      | (RPanic p, st1) => (mkThread (Returned reqs (RPanic p)) c, st1)
      end
  end.

(** What a turn makes of its thread. *)
Definition after_turn (reqs : list Request) (started : Z) (c : ThreadRpcCounters)
    (o : Turn * SharedBackend W) : Thread * SharedBackend W :=
  match o with
  | (Done r, st) => (mkThread (Returned reqs r) (add_thread_wait (sat_sub (clock (world st)) started) c), st)
  | (Wait ms, st) => (mkThread (Asleep reqs started ms) c, st)
  end.

Definition idle (th : option Thread) : option ThreadRpcCounters :=
  match th with
  | None => Some counters_zero
  | Some (mkThread (Returned _ _) c) => Some c
  | _ => None
  end.

Definition put (s : System) (t : nat) (o : Thread * SharedBackend W) : System :=
  mkSystem o.2 (<[t := o.1]> (threads s)).

(** The interleavings: a call, a turn under the lock, a wake-up (by the
    fetcher, the timeout or for no reason), and the world moving on. *)
Inductive step : System -> System -> Prop :=
| step_call s t reqs c : idle (threads s !! t) = Some c ->
    step s (put s t (fetch_or_wait reqs c (shared s)))
| step_lock s t reqs started c :
    threads s !! t = Some (mkThread (Entering reqs started) c) ->
    step s (put s t (after_turn reqs started c (slow_turn reqs (shared s))))
| step_wake s t reqs started ms c :
    threads s !! t = Some (mkThread (Asleep reqs started ms) c) ->
    step s (put s t (after_turn reqs started c (wake_turn reqs (shared s))))
| step_world s w :
    step s (mkSystem (mkBackend (global_cache (shared s)) (pending (shared s)) (batch_start (shared s))
                        (hits (shared s)) (misses (shared s)) (wait_ms (shared s)) (disk (shared s)) w)
              (threads s)).
End Backend.

(** ** Paths *)
Section Path_lemmas.
Lemma split_file_eq path : path = (split_file path).1 +:+ (split_file path).2.
Proof.
  unfold split_file. destruct (rsplit "/" path) as [[d f]|] eqn:E; simpl; [|done].
  apply rsplit_Some in E as ->. by rewrite str_app_assoc.
Qed.

Lemma strip_suffix_app suffix k : strip_suffix suffix (k +:+ suffix) = Some k.
Proof.
  assert (Hlen : forall a b : string, String.length (a +:+ b) = (String.length a + String.length b)%nat).
  { intros a b. induction a as [|x a IH]; [done|]. exact (f_equal S IH). }
  induction k as [|a k IH].
  - simpl. destruct suffix; simpl; [done|]. by rewrite Ascii.eqb_refl, String.eqb_refl.
  - change (String a k +:+ suffix) with (String a (k +:+ suffix)). cbn [strip_suffix].
    destruct (String.eqb_spec (String a (k +:+ suffix)) suffix) as [Heq|]; [|by rewrite IH].
    apply (f_equal String.length) in Heq. cbn [String.length] in Heq. rewrite Hlen in Heq. lia.
Qed.

(** A path with the extension [json] is a key followed by [.json]. *)
Lemma extension_json path :
  extension path = Some "json" ->
  exists k, path = k +:+ ".json" /\ strip_suffix ".json" path = Some k.
Proof.
  unfold extension. intros He.
  destruct (rsplit "." (split_file path).2) as [[p q]|] eqn:E; [|done].
  apply rsplit_Some in E.
  assert (Hp : path = ((split_file path).1 +:+ p) +:+ ".json").
  { rewrite str_app_assoc. destruct p; [done|]. injection He as ->. rewrite <- E. apply split_file_eq. }
  exists ((split_file path).1 +:+ p). split; [done|]. rewrite Hp at 1. apply strip_suffix_app.
Qed.

(** A key whose file name has no dot. *)
Definition plain_key (key : string) : Prop :=
  exists dir file, key = dir +:+ String "/" file /\ file <> "" /\ str_all is_digit file.

Lemma digits_no c s : is_digit c = false -> str_all is_digit s -> str_all (fun a => negb (Ascii.eqb a c)) s.
Proof.
  intros Hc. induction s as [|a s IH]; simpl; [done|]. intros [Ha Hs]%andb_prop_elim.
  apply andb_prop_intro. split; [|by apply IH]. destruct (Ascii.eqb_spec a c) as [->|]; [|done].
  by rewrite Hc in Ha.
Qed.

Lemma str_all_ext_no_slash file ext :
  str_all (fun a => negb (Ascii.eqb a "/")) file -> str_all (fun a => negb (Ascii.eqb a "/")) ext ->
  str_all (fun a => negb (Ascii.eqb a "/")) (file +:+ String "." ext).
Proof. intros Hf He. rewrite str_all_app. apply andb_prop_intro. by split. Qed.

Lemma split_file_app dir file :
  str_all (fun a => negb (Ascii.eqb a "/")) file -> split_file (dir +:+ String "/" file) = (dir +:+ "/", file).
Proof. intros Hf. unfold split_file. by rewrite rsplit_app. Qed.

Lemma plain_key_with_extension key ext :
  plain_key key -> with_extension key ext = key +:+ String "." ext.
Proof.
  intros (dir & file & -> & Hne & Hd). unfold with_extension.
  rewrite split_file_app by (by apply digits_no). rewrite rsplit_none by (by apply digits_no).
  by rewrite !str_app_assoc.
Qed.

(** With a second extension the first one is replaced. *)
Lemma plain_key_extension key ext :
  plain_key key -> str_all is_digit ext \/ ext = "json" \/ ext = "tmp" ->
  extension (key +:+ String "." ext) = Some ext /\
  forall ext', with_extension (key +:+ String "." ext) ext' = key +:+ String "." ext'.
Proof.
  intros (dir & file & -> & Hne & Hd) Hext.
  assert (Hs : str_all (fun a => negb (Ascii.eqb a "/")) ext) by
    (destruct Hext as [?|[->| ->]]; [by apply digits_no|done..]).
  assert (Hdot : str_all (fun a => negb (Ascii.eqb a ".")) ext) by
    (destruct Hext as [?|[->| ->]]; [by apply digits_no|done..]).
  unfold extension, with_extension. rewrite str_app_assoc.
  change (String "/" file +:+ String "." ext) with (String "/" (file +:+ String "." ext)).
  rewrite split_file_app by (apply str_all_ext_no_slash; [by apply digits_no|done]).
  cbn [snd]. rewrite rsplit_app by done.
  destruct file as [|a file]; [done|]. split; [done|]. intros ext'. by rewrite !str_app_assoc.
Qed.
End Path_lemmas.

(** ** The cache on disk *)
Section Disk_lemmas.
Context `{RpcTextLaws} {W : Type} `{Disk W}.

Lemma cache_key_plain req : plain_key (cache_key req).
Proof.
  assert (Hh : forall n, fmt_hex n <> "") by (intros n; apply digits_go_nonempty; lia).
  assert (Hd : forall n, fmt_dec n <> "") by (intros n; apply digits_go_nonempty; lia).
  destruct req; unfold plain_key.
  - exists "eth_chainId", (fmt_hex url_hash). split; [reflexivity|]. split; [apply Hh|apply fmt_hex_digits].
  - exists ("eth_getBlockByNumber/" +:+ fmt_dec chain_id), (fmt_dec block).
    unfold cache_key. rewrite !str_app_assoc. split; [reflexivity|]. split; [apply Hd|apply fmt_dec_digits].
  - exists ("eth_getBalance/" +:+ fmt_dec chain_id +:+ "/" +:+ fmt_dec block), (address_hex address).
    unfold cache_key. rewrite !str_app_assoc.
    split; [reflexivity|]. split; [apply address_hex_nonempty|apply address_hex_digits].
  - exists ("eth_getTransactionCount/" +:+ fmt_dec chain_id +:+ "/" +:+ fmt_dec block), (address_hex address).
    unfold cache_key. rewrite !str_app_assoc.
    split; [reflexivity|]. split; [apply address_hex_nonempty|apply address_hex_digits].
  - exists ("eth_getCode/" +:+ fmt_dec chain_id +:+ "/" +:+ fmt_dec block), (address_hex address).
    unfold cache_key. rewrite !str_app_assoc.
    split; [reflexivity|]. split; [apply address_hex_nonempty|apply address_hex_digits].
  - exists ("eth_getStorageAt/" +:+ fmt_dec chain_id +:+ "/" +:+ fmt_dec block +:+ "/" +:+ address_hex address),
      (word_hex slot).
    unfold cache_key. rewrite !str_app_assoc.
    split; [reflexivity|]. split; [apply word_hex_nonempty|apply word_hex_digits].
Qed.

(** The file [path] holds [v] under the key [k]. *)
Definition holds (path content k : string) (v : Json) : Prop :=
  extension path = Some "json" /\ path = k +:+ ".json" /\ json_parse content = Some v.

Lemma load_file_lookup path content cache k v :
  load_file path content cache !! k = Some v <->
  holds path content k v \/
  ((forall v', ~ holds path content k v') /\ cache !! k = Some v).
Proof.
  unfold load_file, holds. destruct (extension path) as [e|] eqn:E; [|naive_solver].
  destruct (String.eqb_spec e "json") as [->|Hne]; [|naive_solver].
  apply extension_json in E as (k' & -> & ->). simpl.
  destruct (json_parse content) as [w|] eqn:Hj; [|naive_solver].
  assert (Hinj : forall a b, a +:+ ".json" = b +:+ ".json" -> a = b).
  { intros a b Hab. pose proof (strip_suffix_app ".json" a) as Ha.
    rewrite Hab, strip_suffix_app in Ha. congruence. }
  rewrite lookup_insert_Some. split.
  - intros [[-> ->]|[Hk Hc]]; [naive_solver|]. right. split; [|done].
    intros v' (_ & Heq & _). apply Hinj in Heq. congruence.
  - intros [(_ & Heq & Hv)|[Hno Hc]]; [left; apply Hinj in Heq; naive_solver|].
    right. split; [|done]. intros ->. by apply (Hno w).
Qed.

(** What is loaded is what the files hold, in any order. *)
Lemma load_disk_cache_lookup files k v :
  load_disk_cache files ∅ !! k = Some v <->
  exists content, files !! (k +:+ ".json") = Some content /\ holds (k +:+ ".json") content k v.
Proof.
  unfold load_disk_cache. pose proof (NoDup_fst_map_to_list files) as Hnd.
  assert (Hin : forall path c, files !! path = Some c <-> (path, c) ∈ map_to_list files)
    by (intros; by rewrite elem_of_map_to_list).
  setoid_rewrite Hin. clear Hin.
  induction (map_to_list files) as [|[path content] l IH]; simpl.
  - rewrite lookup_empty. split; [done|]. intros (c & Hc & _). by apply not_elem_of_nil in Hc.
  - apply NoDup_cons in Hnd as [Hp Hnd]. rewrite load_file_lookup, IH by done. split.
    + intros [Hh|[_ (c & Hc & Hh)]].
      * pose proof Hh as (_ & -> & _). exists content. split; [by left|done].
      * exists c. split; [by right|done].
    + intros (c & Hc & Hh). apply elem_of_cons in Hc as [[= <- <-]|Hc]; [by left|].
      right. split; [|eauto]. intros v' (_ & Heq & _). apply Hp. cbn [fst]. rewrite Heq.
      by apply (list_elem_of_fmap_2 fst l (k +:+ ".json", c)).
Qed.

(** A write to the disk cache is atomic: after it the directory loads the
    same cache as before with the new value under the request's key, or, when
    the write fails at any stage, exactly the same cache as before. *)
Theorem disk_write_atomic req value (w : W) files :
  load_disk_cache (write_disk_cache (cache_key req) value w files) ∅ =
  match write_outcome (cache_key req) w with
  | Renamed => <[cache_key req := value]> (load_disk_cache files ∅)
  | _ => load_disk_cache files ∅
  end.
Proof.
  pose proof (cache_key_plain req) as Hk. unfold write_disk_cache.
  rewrite (plain_key_with_extension _ "json" Hk).
  destruct (plain_key_extension (cache_key req) "json" Hk) as [Hej Hwj]; [by right; left|].
  destruct (plain_key_extension (cache_key req) "tmp" Hk) as [Het _]; [by right; right|].
  rewrite Hwj. set (key := cache_key req) in *.
  assert (Htmp : forall k content v, holds (key +:+ ".tmp") content k v -> False).
  { intros k content v (He & _ & _). rewrite Het in He. done. }
  destruct (write_outcome key w) eqn:Ew; [done| |]; apply map_eq; intros k; apply option_eq; intros v.
  - rewrite !load_disk_cache_lookup. split; intros (c & Hc & Hh).
    + apply lookup_insert_Some in Hc as [[Heq _]|[_ Hc]]; [|eauto].
      exfalso. rewrite <- Heq in Hh. by apply Htmp in Hh.
    + exists c. split; [|done]. apply lookup_insert_Some. right. split; [|done].
      intros Heq. rewrite <- Heq in Hh. by apply Htmp in Hh.
  - rewrite lookup_insert_Some, !load_disk_cache_lookup. split.
    + intros (c & Hc & Hh). apply lookup_insert_Some in Hc as [[Heq <-]|[Hne Hc]].
      * left. destruct Hh as (_ & _ & Hv). rewrite json_parse_to_string in Hv.
        pose proof (strip_suffix_app ".json" key) as Hs. change (String "." "json") with ".json" in Heq.
        rewrite Heq, strip_suffix_app in Hs. naive_solver.
      * right. split; [intros ->; done|]. exists c. split; [|done].
        apply lookup_delete_Some in Hc as [Hne2 Hc]. rewrite lookup_insert_ne in Hc by done. done.
    + intros [[<- <-]|[Hne (c & Hc & Hh)]].
      * exists (json_to_string value). rewrite lookup_insert_eq. split; [done|].
        split; [done|]. split; [done|apply json_parse_to_string].
      * exists c. split; [|done]. rewrite lookup_insert_ne.
        2: { intros Heq. apply Hne. pose proof (strip_suffix_app ".json" key) as Hs.
             change (String "." "json") with ".json" in Heq. rewrite Heq, strip_suffix_app in Hs. congruence. }
        assert (key +:+ ".tmp" <> k +:+ ".json") by
          (intros Heq; rewrite <- Heq in Hh; by apply Htmp in Hh).
        rewrite lookup_delete_ne, lookup_insert_ne by done. done.
Qed.
End Disk_lemmas.

(** ** The shared state *)
Section Backend_lemmas.
Context `{RpcText} `{ResultText} {W : Type} `{Net W} `{Disk W}.
Variable self : ForkDBConfig.
Implicit Types (st : SharedBackend W) (reqs : list Request).

(** The pending requests have distinct keys, none of them cached, and the
    batch timer runs exactly while something is pending. *)
Definition shared_ok st : Prop :=
  NoDup (map cache_key (pending st)) /\
  (forall k, k ∈ map cache_key (pending st) -> global_cache st !! k = None) /\
  (batch_start st = None <-> pending st = []).

(** Every request of [reqs] is cached or pending. *)
Definition covered st reqs : Prop :=
  forall req, req ∈ reqs ->
    is_Some (global_cache st !! cache_key req) \/ cache_key req ∈ map cache_key (pending st).

Lemma cached_false (cache : gmap string Json) req : cached cache req = false <-> cache !! cache_key req = None.
Proof. unfold cached. rewrite bool_decide_eq_false. by rewrite eq_None_not_Some. Qed.

Lemma enqueue_ok reqs now st :
  shared_ok st ->
  shared_ok (enqueue reqs now st) /\ global_cache (enqueue reqs now st) = global_cache st /\
  covered (enqueue reqs now st) reqs.
Proof.
  intros (Hnd & Hdis & Hs). unfold enqueue, shared_ok, covered; simpl.
  set (new := List.filter (fun req => negb (cached (global_cache st) req)) reqs).
  assert (Hnew : forall req, req ∈ new <-> req ∈ reqs /\ global_cache st !! cache_key req = None).
  { intros req. unfold new. rewrite list_elem_of_In, filter_In, <- list_elem_of_In.
    by rewrite negb_true_iff, cached_false. }
  assert (Hkeys : forall k, k ∈ map cache_key (pending st ++ new) -> global_cache st !! k = None).
  { intros k. rewrite map_app, elem_of_app. intros [Hk|Hk]; [by apply Hdis|].
    apply list_elem_of_fmap in Hk as (req & -> & Hr). by apply Hnew in Hr as [_ ?]. }
  split; [split; [|split]|split; [done|]].
  - apply dedup_nodup.
  - intros k Hk. apply Hkeys. by apply dedup_keys.
  - destruct (pending st) as [|p ps] eqn:Ep; simpl.
    + destruct (deduplicate_requests _) eqn:Ed; simpl; [|naive_solver]. tauto.
    + assert (batch_start st <> None) as Hb by (intros Hb; by apply Hs in Hb).
      assert (Hk : cache_key p ∈ map cache_key (deduplicate_requests ((p :: ps) ++ new)))
        by (apply dedup_keys; by left).
      destruct (deduplicate_requests _) eqn:Ed; [by apply not_elem_of_nil in Hk|naive_solver].
  - intros req Hr. destruct (global_cache st !! cache_key req) eqn:E; [by left|right].
    apply dedup_keys. rewrite map_app. apply elem_of_app. right.
    apply list_elem_of_fmap. exists req. split; [done|]. by apply Hnew.
Qed.

Lemma persist_fold entries st :
  NoDup entries.*1 ->
  global_cache (foldl (persist self) st entries) = list_to_map entries ∪ global_cache st /\
  pending (foldl (persist self) st entries) = pending st /\
  batch_start (foldl (persist self) st entries) = batch_start st.
Proof.
  intros Hnd. rewrite <- foldl_insert_nodup by done. clear Hnd. revert st.
  induction entries as [|[k v] l IH]; intros st; cbn [foldl fst snd]; [done|].
  destruct (IH (persist self st (k, v))) as (H3 & H4 & H5). rewrite H3, H4, H5. done.
Qed.

(** Values parsed one after the other; the first failure ends it. *)
Fixpoint parse_all (l : list (Request * Json)) : RpcRes (list Response) :=
  match l with
  | [] => ROk []
  | (req, v) :: l' => r ← parse_result req v; rs ← parse_all l'; mret (r :: rs)
  end.

Lemma fetched_results_all cache reqs vs :
  Forall2 (fun req v => cache !! cache_key req = Some v) reqs vs ->
  fetched_results cache reqs = parse_all (zip reqs vs).
Proof.
  induction 1 as [|req v reqs' vs' Hc _ IH]; simpl; [done|]. rewrite Hc. simpl. by rewrite IH.
Qed.

Lemma parse_all_ROk reqs vs rs :
  length vs = length reqs -> parse_all (zip reqs vs) = ROk rs ->
  Forall2 (fun (p : Request * Json) r => parse_result p.1 p.2 = ROk r) (zip reqs vs) rs.
Proof.
  revert vs rs. induction reqs as [|req reqs IH]; intros [|v vs] rs Hl; simpl in *; try done.
  - intros [= <-]. constructor.
  - intros (r & Hr & (rs' & Hrs & [= <-])%RpcRes_bind_ROk)%RpcRes_bind_ROk.
    constructor; [done|]. apply IH; [lia|done].
Qed.

(** [rs] are the parsed cache entries of [reqs]. *)
Definition from_cache (cache : gmap string Json) reqs (rs : list Response) : Prop :=
  Forall2 (fun req r => exists v, cache !! cache_key req = Some v /\ parse_result req v = ROk r) reqs rs.

Lemma from_cache_mono c c' reqs rs : c ⊆ c' -> from_cache c reqs rs -> from_cache c' reqs rs.
Proof.
  intros Hc HF. eapply Forall2_impl; [exact HF|]. intros req r (v & Hv & Hp). exists v. split; [|done].
  by eapply lookup_weaken.
Qed.

Lemma fetched_results_ROk cache reqs rs : fetched_results cache reqs = ROk rs -> from_cache cache reqs rs.
Proof.
  revert rs. induction reqs as [|req reqs IH]; intros rs; simpl; [intros [= <-]; constructor|].
  intros (v & Hv & (r & Hr & (rs' & Hrs & [= <-])%RpcRes_bind_ROk)%RpcRes_bind_ROk)%RpcRes_bind_ROk.
  constructor; [|by apply IH]. exists v. split; [|done]. by apply ok_or_ROk in Hv.
Qed.

Lemma fast_results_ROk cache reqs rs : fast_results cache reqs = ROk (Some rs) -> from_cache cache reqs rs.
Proof.
  revert rs. induction reqs as [|req reqs IH]; intros rs; simpl; [intros [= <-]; constructor|].
  destruct (cache !! cache_key req) as [v|] eqn:E; [|done].
  intros (r & Hr & (o & Ho & Hf)%RpcRes_bind_ROk)%RpcRes_bind_ROk.
  destruct o as [rs'|]; [|done]. injection Hf as <-. constructor; [eauto|by apply IH].
Qed.

Lemma fast_results_no_panic cache reqs p : fast_results cache reqs <> RPanic p.
Proof.
  induction reqs as [|req reqs IH]; simpl; [done|]. destruct (cache !! cache_key req); [|done].
  unfold mbind, RpcRes_bind. destruct (parse_result_spec req j) as (_ & _ & Hp).
  destruct (parse_result req j) eqn:Er; [|done|by edestruct Hp].
  destruct (fast_results cache reqs) eqn:Ef; [done|done|]. congruence.
Qed.

Lemma try_fast_path_state reqs st r st' :
  try_fast_path reqs st = (r, st') ->
  global_cache st' = global_cache st /\ pending st' = pending st /\ batch_start st' = batch_start st /\
  world st' = world st /\ r = fast_results (global_cache st) reqs.
Proof.
  unfold try_fast_path. destruct (fast_results (global_cache st) reqs) as [[rs|]| |] eqn:E;
    intros [= <- <-]; done.
Qed.
End Backend_lemmas.

Section Fetch_lemmas.
Context `{RpcText} `{ResultText} {W : Type} `{Net W} `{Disk W}.
Variable self : ForkDBConfig.
Hypothesis Hbackoff : 0 <= backoff_ms self.
Hypothesis Hretries : 0 <= retries self.
Implicit Types (st : SharedBackend W) (reqs : list Request).

Lemma take_and_execute_ok st r st' :
  take_and_execute self st = (r, st') ->
  global_cache st' = global_cache st /\ pending st' = [] /\ batch_start st' = None /\
  (forall p, r <> RPanic p) /\
  (forall m, r = ROk m -> forall k, k ∈ dom m <-> k ∈ map cache_key (pending st)).
Proof.
  unfold take_and_execute. destruct (dispatch_batch _ _ _) as [[[r0 m] w'] ev] eqn:E.
  intros [= <- <-]. simpl.
  pose proof (dispatch_batch_spec self _ _ _ _ _ _ Hbackoff Hretries E) as (_ & _ & _ & _ & _ & Hp & Hk & _).
  done.
Qed.

Lemma all_cached (cache : gmap string Json) reqs :
  (forall req, req ∈ reqs -> is_Some (cache !! cache_key req)) ->
  exists vs, Forall2 (fun req v => cache !! cache_key req = Some v) reqs vs.
Proof.
  induction reqs as [|req reqs IH]; intros Hall; [exists []; constructor|].
  destruct (Hall req) as [v Hv]; [by left|]. destruct IH as [vs Hvs]; [intros; apply Hall; by right|].
  exists (v :: vs). by constructor.
Qed.

(** A fetch adds entries under fresh keys only, leaves nothing pending, and
    when the batch succeeds serves each of the thread's requests from the
    cache. *)
Lemma fetch_ok reqs st r st' :
  shared_ok st -> covered st reqs -> fetch self reqs st = (r, st') ->
  shared_ok st' /\ global_cache st ⊆ global_cache st' /\ pending st' = [] /\
  (forall p, r <> RPanic p) /\
  (forall rs, r = ROk rs -> from_cache (global_cache st') reqs rs) /\
  (forall m st1, take_and_execute self st = (ROk m, st1) ->
     exists vs, Forall2 (fun req v => global_cache st' !! cache_key req = Some v) reqs vs /\
       r = parse_all (zip reqs vs)).
Proof.
  intros (Hnd & Hdis & Hs) Hcov. unfold fetch.
  destruct (take_and_execute self st) as [o st1] eqn:E.
  destruct (take_and_execute_ok st o st1 E) as (Hc & Hp & Hb & Hpan & Hk).
  assert (Hok1 : shared_ok st1).
  { split; [|split]; rewrite Hp; simpl; [constructor|intros k Hin; by apply not_elem_of_nil in Hin|].
    by rewrite Hb. }
  destruct o as [m|e|p]; [|by intros [= <- <-]; rewrite Hc|by edestruct Hpan].
  specialize (Hk m eq_refl). intros [= <- <-].
  set (st2 := add_hits _ st1).
  destruct (persist_fold self (map_to_list m) st2) as (Hc3 & Hp3 & Hb3); [apply NoDup_fst_map_to_list|].
  rewrite list_to_map_to_list in Hc3. simpl in Hc3, Hp3, Hb3. rewrite Hp in Hp3. rewrite Hb in Hb3.
  set (st3 := foldl (persist self) st2 (map_to_list m)) in *.
  assert (Hdisj : m ##ₘ global_cache st).
  { apply map_disjoint_dom. intros k Hm%Hk Hd%elem_of_dom. rewrite Hdis in Hd by done. by destruct Hd. }
  rewrite Hc in Hc3.
  assert (Hsub : global_cache st ⊆ global_cache st3) by (rewrite Hc3; by apply map_union_subseteq_r).
  assert (Hall : forall req, req ∈ reqs -> is_Some (global_cache st3 !! cache_key req)).
  { intros req Hr. rewrite Hc3. apply lookup_union_is_Some. destruct (Hcov req Hr) as [Hin|Hin]; [by right|left].
    apply elem_of_dom. by apply Hk. }
  assert (Hvs : exists vs, Forall2 (fun req v => global_cache st3 !! cache_key req = Some v) reqs vs) by (by apply all_cached).
  destruct Hvs as [vs Hvs].
  split; [|split; [done|split; [done|split; [|split]]]].
  - split; [|split]; rewrite Hp3; simpl; [constructor|intros k Hin; by apply not_elem_of_nil in Hin|].
    by rewrite Hb3.
  - intros p. rewrite (fetched_results_all _ _ _ Hvs). generalize (zip reqs vs). clear.
    induction l as [|[req v] l IH]; simpl; [done|]. unfold mbind, RpcRes_bind.
    destruct (parse_result_spec req v) as (_ & _ & Hp).
    destruct (parse_result req v) eqn:Er; [|done|by edestruct Hp].
    destruct (parse_all l) eqn:Ep; [done|done|]. congruence.
  - intros rs. apply fetched_results_ROk.
  - intros m' st1' [= <- <-]. exists vs. split; [done|]. by apply fetched_results_all.
Qed.

(** What a turn of a thread does to the shared state, and what it returns. *)
Definition turn_ok reqs st (o : Turn * SharedBackend W) : Prop :=
  shared_ok o.2 /\ global_cache st ⊆ global_cache o.2 /\
  (forall p, o.1 <> Done (RPanic p)) /\
  (forall rs, o.1 = Done (ROk rs) -> from_cache (global_cache o.2) reqs rs).

Lemma slow_turn_ok reqs st : shared_ok st -> turn_ok reqs st (slow_turn self reqs st).
Proof.
  intros Hok. unfold slow_turn. destruct (enqueue_ok reqs (clock (world st)) st Hok) as (Hok1 & Hc & Hcov).
  destruct (should_fetch _ _ _).
  - destruct (fetch self reqs _) as [r st2] eqn:E.
    destruct (fetch_ok _ _ _ _ Hok1 Hcov E) as (Ho & Hsub & _ & Hp & Hr & _).
    split; [done|]. cbn [fst snd]. rewrite Hc in Hsub. split; [done|]. split; [naive_solver|].
    intros rs [= ->]. by apply Hr.
  - split; [done|]. cbn [fst snd]. rewrite Hc. split; [done|]. split; [done|]. by intros.
Qed.

Lemma wake_turn_ok reqs st : shared_ok st -> turn_ok reqs st (wake_turn self reqs st).
Proof.
  intros Hok. unfold wake_turn. destruct (try_fast_path reqs st) as [r st1] eqn:E.
  destruct (try_fast_path_state _ _ _ _ E) as (Hc & Hp & Hb & _ & Hr).
  assert (Hok1 : shared_ok st1) by (unfold shared_ok; by rewrite Hc, Hp, Hb).
  destruct r as [[rs|]|e|p].
  - split; [done|]. cbn [fst snd]. rewrite Hc. split; [done|]. split; [done|].
    intros rs' [= <-]. by apply fast_results_ROk.
  - pose proof (slow_turn_ok reqs st1 Hok1) as Ht. unfold turn_ok in *. by rewrite Hc in Ht.
  - split; [done|]. cbn [fst snd]. by rewrite Hc.
  - symmetry in Hr. by apply fast_results_no_panic in Hr.
Qed.

(** ** The system of threads *)
Definition thread_ok (cache : gmap string Json) (th : Thread) : Prop :=
  match status th with
  | Returned reqs (ROk rs) => from_cache cache reqs rs
  | Returned _ (RPanic _) => False
  | _ => True
  end.

Definition system_ok (s : System (W := W)) : Prop :=
  shared_ok (shared s) /\ forall t th, threads s !! t = Some th -> thread_ok (global_cache (shared s)) th.

Lemma thread_ok_mono c c' th : c ⊆ c' -> thread_ok c th -> thread_ok c' th.
Proof.
  intros Hc. unfold thread_ok. destruct (status th) as [| |reqs [rs| |]]; try done. by apply from_cache_mono.
Qed.

Lemma put_ok (s : System (W := W)) t o :
  system_ok s -> shared_ok o.2 -> global_cache (shared s) ⊆ global_cache o.2 ->
  thread_ok (global_cache o.2) o.1 -> system_ok (put s t o).
Proof.
  intros [_ Hth] Hok Hsub Ho. split; [done|]. simpl. intros t' th.
  destruct (decide (t' = t)) as [->|Hne].
  - rewrite lookup_insert_eq. by intros [= <-].
  - rewrite lookup_insert_ne by done. intros Ht. eapply thread_ok_mono; [done|]. by eapply Hth.
Qed.

Lemma after_turn_ok reqs started c st o :
  turn_ok reqs st o ->
  shared_ok (after_turn reqs started c o).2 /\
  global_cache st ⊆ global_cache (after_turn reqs started c o).2 /\
  thread_ok (global_cache (after_turn reqs started c o).2) (after_turn reqs started c o).1.
Proof.
  destruct o as [[r|ms] st']; intros (Ho & Hsub & Hp & Hr); simpl in *; [|done].
  split; [done|]. split; [done|]. unfold thread_ok; simpl.
  destruct r as [rs|e|p]; [by apply Hr|done|]. by apply (Hp p).
Qed.

Lemma fetch_or_wait_ok reqs c st :
  shared_ok st ->
  shared_ok (fetch_or_wait reqs c st).2 /\
  global_cache (fetch_or_wait reqs c st).2 = global_cache st /\
  thread_ok (global_cache (fetch_or_wait reqs c st).2) (fetch_or_wait reqs c st).1.
Proof.
  intros Hok. unfold fetch_or_wait. destruct reqs as [|req reqs].
  - split; [done|]. split; [done|]. constructor.
  - destruct (try_fast_path _ st) as [r st1] eqn:E.
    destruct (try_fast_path_state _ _ _ _ E) as (Hc & Hp & Hb & _ & Hr).
    assert (Hok1 : shared_ok st1) by (unfold shared_ok; by rewrite Hc, Hp, Hb).
    destruct r as [[rs|]|e|p].
    + split; [done|]. split; [done|]. unfold thread_ok; cbn [fst snd status]. rewrite Hc.
      by apply fast_results_ROk.
    + destruct (cache_hits_and_misses _ _) as [h m]. by split.
    + by split.
    + symmetry in Hr. by apply fast_results_no_panic in Hr.
Qed.

Lemma step_ok (s s' : System (W := W)) :
  system_ok s -> step self s s' ->
  system_ok s' /\ global_cache (shared s) ⊆ global_cache (shared s').
Proof.
  intros Hs Hstep. pose proof Hs as [Hok Hth]. destruct Hstep.
  - destruct (fetch_or_wait_ok reqs c (shared s) Hok) as (H4 & H5 & H6).
    split; [apply put_ok; [done..|by rewrite H5|done]|]. simpl. by rewrite H5.
  - destruct (after_turn_ok reqs started c _ _ (slow_turn_ok reqs (shared s) Hok)) as (H5 & H6 & H7).
    split; [by apply put_ok|done].
  - destruct (after_turn_ok reqs started c _ _ (wake_turn_ok reqs (shared s) Hok)) as (H5 & H6 & H7).
    split; [by apply put_ok|done].
  - by split.
Qed.

Definition initial (files : Files) (w : W) : System := mkSystem (new_with_transport self files w) ∅.

Lemma reachable_ok files w s : rtc (step self) (initial files w) s -> system_ok s.
Proof.
  intros Hr. remember (initial files w) as s0. assert (Hs0 : system_ok s0).
  { subst. split; [|intros t th Ht; simpl in Ht; by rewrite lookup_empty in Ht].
    split; [constructor|]. split; [intros k Hk; by apply not_elem_of_nil in Hk|done]. }
  clear Heqs0. induction Hr as [|s0 s1 s2 Hstep _ IH]; [done|]. apply IH. by eapply step_ok.
Qed.

Lemma cache_grows (s s' : System (W := W)) :
  system_ok s -> rtc (step self) s s' -> system_ok s' /\ global_cache (shared s) ⊆ global_cache (shared s').
Proof.
  intros Hs Hr. revert Hs. induction Hr as [s|s s1 s2 Hstep _ IH]; intros Hs; [done|].
  destruct (step_ok _ _ Hs Hstep) as [Hs1 Hsub]. destruct (IH Hs1) as [Hs2 Hsub']. split; [done|]. by transitivity (global_cache (shared s1)).
Qed.

(** C11: However the threads interleave and whatever the network answers, the
    pending batch never holds a key twice nor a key that is cached, its timer
    runs exactly while something is pending, the cache only grows and never
    changes an entry, no call panics, and every call that returned values
    returned, for each of its requests in order, the parsed cache entry of
    that request. *)
Theorem backend_consistent files w s :
  rtc (step self) (initial files w) s ->
  shared_ok (shared s) /\
  (forall t reqs r c, threads s !! t = Some (mkThread (Returned reqs r) c) ->
     (forall p, r <> RPanic p) /\
     (forall rs, r = ROk rs -> from_cache (global_cache (shared s)) reqs rs)) /\
  (forall s', rtc (step self) s s' -> global_cache (shared s) ⊆ global_cache (shared s')).
Proof.
  intros Hr. pose proof (reachable_ok files w s Hr) as Hs. split; [apply Hs|]. split.
  - intros t reqs r c Ht. apply Hs in Ht. unfold thread_ok in Ht. simpl in Ht. destruct r; naive_solver.
  - intros s' Hr'. by apply cache_grows.
Qed.

(** When a fetch succeeds the fetching thread is served completely: every
    one of its requests is in the cache, its own and those other threads
    fetched before, so the result is that of parsing the entries and the
    missing-key error is never reached. *)
Theorem fetch_serves_every_request files w s reqs m st1 r st' :
  rtc (step self) (initial files w) s ->
  let st := enqueue reqs (clock (world (shared s))) (shared s) in
  take_and_execute self st = (ROk m, st1) ->
  fetch self reqs st = (r, st') ->
  exists vs, Forall2 (fun req v => global_cache st' !! cache_key req = Some v) reqs vs /\
    r = parse_all (zip reqs vs).
Proof.
  intros Hr st Ht Hf. apply reachable_ok in Hr as [Hok _].
  destruct (enqueue_ok reqs (clock (world (shared s))) (shared s) Hok) as (Hok1 & _ & Hcov).
  destruct (fetch_ok reqs st r st' Hok1 Hcov Hf) as (_ & _ & _ & _ & _ & Hserve). by eapply Hserve.
Qed.

(** A missing request keeps the fast path from answering. *)
Lemma fast_results_missing cache reqs :
  fast_results cache reqs = ROk None -> exists req, req ∈ reqs /\ cache !! cache_key req = None.
Proof.
  induction reqs as [|req reqs IH]; simpl; [done|].
  destruct (cache !! cache_key req) eqn:Ec; [|intros _; exists req; split; [by left|done]].
  intros Heq. apply RpcRes_bind_ROk in Heq as (r & _ & (o & Ho & Hf)%RpcRes_bind_ROk).
  destruct o; [done|]. destruct (IH Ho) as (q & Hq & Hn). exists q. split; [by right|done].
Qed.

(** A batch whose timer has run out is fetched by the next turn. *)
Lemma due_turn reqs st start :
  shared_ok st -> batch_start st = Some start -> batch_timeout_ms self <= sat_sub (clock (world st)) start ->
  exists r, (slow_turn self reqs st).1 = Done r.
Proof.
  intros (_ & _ & Hs) Hb Hdue. unfold slow_turn.
  assert (Hb' : batch_start (enqueue reqs (clock (world st)) st) = Some start).
  { unfold enqueue; simpl. destruct (pending st) eqn:Ep; [|exact Hb]. rewrite (proj2 Hs eq_refl) in Hb. discriminate Hb. }
  assert (Hf : should_fetch self (clock (world st)) (enqueue reqs (clock (world st)) st) = true).
  { unfold should_fetch. rewrite Hb', (proj2 (Z.leb_le _ _) Hdue). apply orb_true_r. }
  rewrite Hf. destruct (fetch self reqs _) as [r st']. by exists r.
Qed.

(** C27: A thread that has waited for its batch returns when it wakes: if it
    went to sleep in some turn, and whatever the other threads have done since,
    it returns in its next turn, as the fetcher or from the cache, when every
    one of its requests has been cached meanwhile, or when its wait is over and
    the batch it waited for has not been taken. So it waits again only when the
    batch was taken and did not bring one of its requests. *)
Theorem waiter_returns files w s reqs ms s1 s2 :
  rtc (step self) (initial files w) s ->
  (forall start, batch_start (shared s) = Some start -> start <= clock (world (shared s))) ->
  step self s s1 -> slow_turn self reqs (shared s) = (Wait ms, shared s1) -> rtc (step self) s1 s2 ->
  (forall req, req ∈ reqs -> is_Some (global_cache (shared s2) !! cache_key req)) \/
  (batch_start (shared s2) = batch_start (shared s1) /\ clock (world (shared s)) + ms <= clock (world (shared s2))) ->
  exists r, (wake_turn self reqs (shared s2)).1 = Done r.
Proof.
  intros Hr Hstart Hstep Hslow Hrun Hwhen. apply reachable_ok in Hr as Hs. destruct (step_ok _ _ Hs Hstep) as [Hs1 _].
  destruct (cache_grows _ _ Hs1 Hrun) as [[Hok2 _] Hsub]. destruct Hs as [Hok _]. unfold wake_turn.
  destruct (try_fast_path reqs (shared s2)) as [r st3] eqn:E.
  destruct (try_fast_path_state _ _ _ _ E) as (Hc3 & Hp3 & Hb3 & Hw3 & Hres).
  destruct r as [[rs|]|e|p]; [by eexists| |by eexists..].
  destruct (fast_results_missing _ _ (eq_sym Hres)) as (req & Hreq & Hnone).
  destruct Hwhen as [Hall|[Hb2 Hclock]]; [destruct (Hall req Hreq); congruence|].
  unfold slow_turn in Hslow. destruct (enqueue_ok reqs (clock (world (shared s))) (shared s) Hok) as ((_ & _ & Hs1') & Hc1 & Hcov).
  destruct (should_fetch self _ _) eqn:Ef; [destruct (fetch self reqs _); discriminate Hslow|].
  injection Hslow as <- Hst1. rewrite <- Hst1 in Hsub, Hb2.
  (* the request is still pending, so the timer runs *)
  destruct (batch_start (enqueue reqs (clock (world (shared s))) (shared s))) as [start|] eqn:Eb.
  - assert (Hle : start <= clock (world (shared s))).
    { unfold enqueue in Eb; simpl in Eb. destruct (is_nil (pending (shared s)) && _); [by simplify_eq|]. by apply Hstart. }
    apply (due_turn reqs st3 start).
    + unfold shared_ok. by rewrite Hc3, Hp3, Hb3.
    + by rewrite Hb3, Hb2.
    + rewrite Hw3. unfold remaining in Hclock. rewrite Eb in Hclock. unfold sat_sub in *. lia.
  - exfalso. destruct (Hcov req Hreq) as [[v Hv]|Hin].
    + apply (lookup_weaken _ _ _ _ Hv) in Hsub. congruence.
    + rewrite (proj1 Hs1' eq_refl) in Hin. by apply not_elem_of_nil in Hin.
Qed.
End Fetch_lemmas.

(** ** A small world for the witnesses: the time, and one reply per post *)
Module ToyBackend.
Import ToyRpc ToyNet.

#[export] Instance results : ResultText := {
  u64_from_hex s := Some (Toy.digits_value s);
  u256_from_str s := Some (Toy.digits_value s);
  bytes_from_str s := Some [];
  block_deserialize _ := inl "no block";
}.

#[export] Instance timed_net : Net (Z * list Json) := {
  transport_exec _ _ w := match w with
    | (t, []) => (inl (message "closed"), (t, []))
    | (t, reply :: replies) => (inr reply, (t, replies))
    end;
  clock w := w.1;
  thread_sleep ms w := (w.1 + ms, w.2);
  limiter_acquire w := w;
}.

#[export] Instance timed_disk : Disk (Z * list Json) := { write_outcome _ _ := Renamed }.

Definition config (size timeout : Z) : ForkDBConfig :=
  mkForkDBConfig "u" 1 10 0 size timeout None (Some "dir") 1.

Definition requests : list Request := [GetBalance 1 5 9; GetTransactionCount 1 5 9].
Definition replies : list Json := [JArray [item 1 (JString "11"); item 0 (JString "01")]].

(** One thread calls and, being the first, fetches. *)
Definition system0 : System := initial (config 1 50) ∅ (0, replies).
Definition system1 : System := put system0 0 (fetch_or_wait requests counters_zero (shared system0)).
Definition counters1 : ThreadRpcCounters := mkCounters 0 2 0.
Definition system2 : System :=
  put system1 0 (after_turn requests 0 counters1 (slow_turn (config 1 50) requests (shared system1))).

Lemma reach2 : rtc (step (config 1 50)) system0 system2.
Proof.
  eapply rtc_l; [apply (step_call _ system0 0 requests counters_zero); reflexivity|].
  eapply rtc_l; [apply (step_lock _ system1 0 requests 0 counters1); vm_compute; reflexivity|].
  apply rtc_refl.
Qed.

(** A batch of three: the thread sleeps for the whole timeout. *)
Definition waiting0 : System := initial (config 3 50) ∅ (0, replies).
Definition waiting1 : System := put waiting0 0 (fetch_or_wait requests counters_zero (shared waiting0)).
Definition waiting2 : System :=
  put waiting1 0 (after_turn requests 0 counters1 (slow_turn (config 3 50) requests (shared waiting1))).
Definition waiting3 : System :=
  mkSystem (mkBackend (global_cache (shared waiting2)) (pending (shared waiting2)) (batch_start (shared waiting2))
    (hits (shared waiting2)) (misses (shared waiting2)) (wait_ms (shared waiting2)) (disk (shared waiting2)) (50, replies)) (threads waiting2).
End ToyBackend.

Import ToyRpc ToyNet ToyBackend.

Lemma backend_consistent_witness :
  threads system2 !! 0%nat =
    Some (mkThread (Returned requests (ROk [Balance 2; TransactionCount 3])) counters1) /\
  from_cache (global_cache (shared system2)) requests [Balance 2; TransactionCount 3].
Proof.
  destruct (backend_consistent (config 1 50) ltac:(done) ltac:(done) ∅ (0, replies) system2 reach2)
    as (_ & Hret & _).
  assert (Ht : threads system2 !! 0%nat =
    Some (mkThread (Returned requests (ROk [Balance 2; TransactionCount 3])) counters1))
    by (vm_compute; reflexivity).
  split; [exact Ht|]. by apply (Hret 0%nat requests _ counters1 Ht).
Defined.

Lemma fetch_serves_every_request_witness :
  let st := enqueue requests 0 (shared system0) in
  exists vs, Forall2 (fun req v => global_cache (fetch (config 1 50) requests st).2 !! cache_key req = Some v)
    requests vs.
Proof.
  intros st.
  assert (Hok : match (take_and_execute (config 1 50) st).1 with ROk _ => true | _ => false end = true)
    by (vm_compute; reflexivity).
  destruct (take_and_execute (config 1 50) st) as [r st1] eqn:Et.
  destruct (fetch (config 1 50) requests st) as [res st'] eqn:Ef.
  destruct r as [m|e|p]; [|discriminate Hok..].
  destruct (fetch_serves_every_request (config 1 50) ltac:(done) ltac:(done) ∅ (0, replies) system0
    requests m st1 res st' (rtc_refl _ _) Et Ef) as (vs & Hvs & _).
  exists vs. exact Hvs.
Defined.

Lemma waiter_returns_witness : exists r, (wake_turn (config 3 50) requests (shared waiting3)).1 = Done r.
Proof.
  apply (waiter_returns (config 3 50) ltac:(done) ltac:(done) ∅ (0, replies) waiting1 requests 50 waiting2 waiting3).
  - apply rtc_once, (step_call _ waiting0 0 requests counters_zero). reflexivity.
  - intros start Hs. vm_compute in Hs. discriminate Hs.
  - apply (step_lock _ waiting1 0 requests 0 counters1). vm_compute. reflexivity.
  - vm_compute. reflexivity.
  - apply rtc_once, (step_world _ waiting2 (50, replies)).
  - right. split; [reflexivity|]. vm_compute. discriminate.
Defined.

(** A thread whose keys were cached while it waited for the lock still sleeps
    for the whole batch timeout: nothing is pending, and the cache is not
    looked at before the first wait. *)
Lemma late_thread_sleeps `{RpcText} `{ResultText} {W : Type} `{Net W} `{Disk W} self (st : SharedBackend W) reqs :
  1 <= batch_size self -> pending st = [] -> batch_start st = None ->
  (forall req, req ∈ reqs -> is_Some (global_cache st !! cache_key req)) ->
  (slow_turn self reqs st).1 = Wait (batch_timeout_ms self).
Proof.
  intros Hsize Hp Hb Hall.
  assert (Hnone : List.filter (fun req => negb (cached (global_cache st) req)) reqs = []).
  { induction reqs as [|req reqs IH]; simpl; [done|].
    unfold cached at 1. rewrite bool_decide_true by (apply Hall; by left). simpl.
    apply IH. intros q Hq. apply Hall. by right. }
  unfold slow_turn, should_fetch, enqueue, remaining; simpl. rewrite Hnone, Hp, Hb. simpl.
  rewrite (proj2 (Z.leb_gt _ _)) by lia. done.
Qed.

(** A result that does not parse is cached, and saved, before it is parsed:
    every later call for its key fails with the same error. *)
Lemma malformed_result_sticks `{RpcText} `{ResultText} {W : Type} `{Net W} `{Disk W}
    (st : SharedBackend W) req v e c :
  global_cache st !! cache_key req = Some v -> parse_result req v = RErr e ->
  fetch_or_wait [req] c st = (mkThread (Returned [req] (RErr e)) c, st).
Proof.
  intros Hc Hp. unfold fetch_or_wait, try_fast_path. simpl. by rewrite Hc, Hp.
Qed.

(** The second write under a key replaces the first. *)
Lemma disk_write_atomic_witness :
  let files := write_disk_cache (cache_key (GetBalance 1 5 9)) (JString "01") (0, []) ∅ in
  load_disk_cache (write_disk_cache (cache_key (GetBalance 1 5 9)) (JString "11") (0, []) files) ∅ =
  {[cache_key (GetBalance 1 5 9) := JString "11"]}.
Proof.
  intros files. subst files.
  rewrite (disk_write_atomic (GetBalance 1 5 9) (JString "11") (0, [])).
  vm_compute. reflexivity.
Defined.
