(* ===== verification/ForkDB.v ===== *)
(** * ForkDB: the forked database (src/evm/forkdb/db.rs, local_registry.rs,
    inspector.rs)

    The remote half of the database revm reads. It is written against an
    interface, the backend's [fetch_or_wait]: [Backend.from_cache] with
    [from_cache_answers] is how the shared backend meets it. *)
From S2P Require Import Prelude.
From S2P Require Import Env.
From S2P Require Import Rpc.
From S2P Require Import Batch.
From S2P Require Import Backend.

(** ** The interface *)
Class Fetcher (S : Type) : Type := {
  fetch : list Request -> S -> RpcRes (list Response) * S;
}.

(** A successful fetch answers every request, in order. *)
Class FetcherLaws (S : Type) `{Fetcher S} : Prop := {
  fetch_answers : forall reqs s rs s', fetch reqs s = (ROk rs, s') -> Forall2 answers reqs rs;
}.

(** The shared backend keeps the law. *)
Lemma from_cache_answers `{RpcText} `{ResultText} cache reqs rs :
  from_cache cache reqs rs -> Forall2 answers reqs rs.
Proof.
  intros HF. eapply Forall2_impl; [exact HF|]. intros req r (v & _ & Hp).
  by apply (parse_result_spec req v).
Qed.

(** revm's bytecode: [new_raw] panics on a malformed delegation. *)
Class BytecodeOps (B : Type) : Type := {
  bytecode_default : B;
  new_raw : Bytes -> option B;
  hash_slow : B -> U256;
  keccak_empty : U256;
  b256_display : U256 -> string;
}.

(** ** The registry of local addresses *)
Definition SharedLocalAddressRegistry : Type := gset Address.
Definition registry_new : SharedLocalAddressRegistry := ∅.
Definition mark_local (address : Address) (r : SharedLocalAddressRegistry) : SharedLocalAddressRegistry :=
  {[address]} ∪ r.
Definition is_local (address : Address) (r : SharedLocalAddressRegistry) : bool :=
  bool_decide (address ∈ r).

(** [LocalTracker]: every CREATE marks the address it is about to create, from
    the caller's nonce in the journal. *)
Class CreateInputs (I : Type) : Type := {
  caller : I -> Address;
  created_address : I -> Z -> Address;
}.

Definition mark_from_inputs {I} `{CreateInputs I} (nonces : gmap Address Z) (inputs : I)
    (r : SharedLocalAddressRegistry) : SharedLocalAddressRegistry :=
  let nonce := default 0 (nonces !! caller inputs) in
  mark_local (created_address inputs nonce) r.

(** ** The database *)
Record ForkDB : Type := mkForkDB {
  local_registry : SharedLocalAddressRegistry;
  block_number : Z;
  chain_id : Z;
}.

Record AccountInfo (B : Type) : Type := mkAccountInfo {
  balance : U256;
  nonce : Z;
  code_hash : U256;
  code : option B;
}.
Arguments mkAccountInfo {B}.
Arguments balance {B}.
Arguments nonce {B}.
Arguments code_hash {B}.
Arguments code {B}.

Section ForkDB.
Context {B : Type} `{BytecodeOps B} {S : Type} `{Fetcher S}.
Variable self : ForkDB.

(** The loop over the responses: the parts seen so far. *)
Definition Parts : Type := option U256 * option Z * option Bytes.

Definition take_response (parts : Parts) (response : Response) : RpcRes Parts :=
  let '(b, n, c) := parts in
  match response with
  | Balance v =>
      match b with
      | Some _ => RErr (UnexpectedResponse "duplicate Balance response")
      | None => ROk (Some v, n, c)
      end
  | TransactionCount v =>
      match n with
      | Some _ => RErr (UnexpectedResponse "duplicate TransactionCount response")
      | None => ROk (b, Some v, c)
      end
  | Code v =>
      match c with
      | Some _ => RErr (UnexpectedResponse "duplicate Code response")
      | None => ROk (b, n, Some v)
      end
  | _ => RErr (UnexpectedResponse "unexpected response in basic_ref batch")
  end.

Fixpoint take_responses (parts : Parts) (responses : list Response) : RpcRes Parts :=
  match responses with
  | [] => ROk parts
  | response :: responses' =>
      match take_response parts response with
      | ROk parts' => take_responses parts' responses'
      | RErr e => RErr e
      | RPanic p => RPanic p
      end
  end.

Definition assemble (b : U256) (n : Z) (c : Bytes) : RpcRes (option (AccountInfo B)) :=
  match (match c with [] => Some bytecode_default | _ => new_raw c end) with
  | Some bytecode => mret (Some (mkAccountInfo b n (hash_slow bytecode) (Some bytecode)))
  | None => RPanic "Expect correct bytecode"
  end.

Definition parse_basic_responses (responses : list Response) : RpcRes (option (AccountInfo B)) :=
  parts ← take_responses (None, None, None) responses;
  let '(b, n, c) := parts in
  b ← ok_or b (UnexpectedResponse "missing Balance response");
  n ← ok_or n (UnexpectedResponse "missing TransactionCount response");
  c ← ok_or c (UnexpectedResponse "missing Code response");
  assemble b n c.

Definition basic_ref (address : Address) (s : S) : RpcRes (option (AccountInfo B)) * S :=
  if is_local address (local_registry self) then (ROk None, s)
  else
    let '(r, s') := fetch [GetBalance (chain_id self) address (block_number self);
                           GetTransactionCount (chain_id self) address (block_number self);
                           GetCode (chain_id self) address (block_number self)] s in
    (r ≫= parse_basic_responses, s').

Definition code_by_hash_ref (hash : U256) : RpcRes B :=
  if (hash =? keccak_empty) || (hash =? 0) then ROk bytecode_default
  else RErr (MissingAccount ("code hash " +:+ b256_display hash +:+
    " not present in fork DB; code should have been loaded via basic_ref")).

Definition storage_ref (address : Address) (index : U256) (s : S) : RpcRes U256 * S :=
  if is_local address (local_registry self) then (ROk 0, s)
  else
    let '(r, s') := fetch [GetStorageAt (chain_id self) address index (block_number self)] s in
    (responses ← r;
     response ← ok_or (last responses) (UnexpectedResponse "expected one response for GetStorageAt");
     match response with
     | StorageAt v => mret v
     | _ => RErr (UnexpectedResponse "unexpected response for GetStorageAt")
     end, s').

Definition block_hash_ref (n : Z) (s : S) : RpcRes U256 * S :=
  let '(r, s') := fetch [GetBlockByNumber (chain_id self) n] s in
  (responses ← r;
   response ← ok_or (last responses) (UnexpectedResponse "expected one response for GetBlockByNumber");
   match response with
   | BlockByNumber b =>
       ok_or (hash b) (UnexpectedResponse
         ("block " +:+ fmt_dec n +:+ ": hash missing in GetBlockByNumber response"))
   | _ => RErr (UnexpectedResponse "unexpected response for GetBlockByNumber")
   end, s').

(** ** Reading an account *)

(** The responses a set of parts stands for. *)
Definition of_parts (parts : Parts) : list Response :=
  let '(b, n, c) := parts in
  option_list (Balance <$> b) ++ option_list (TransactionCount <$> n) ++ option_list (Code <$> c).

Lemma take_response_parts parts r parts' :
  take_response parts r = ROk parts' -> of_parts parts' ≡ₚ r :: of_parts parts.
Proof.
  destruct parts as [[[b|] [n|]] [c|]], r; simpl; intros [= <-]; simpl; solve_Permutation.
Qed.

Lemma take_responses_parts parts rs parts' :
  take_responses parts rs = ROk parts' -> of_parts parts' ≡ₚ rs ++ of_parts parts.
Proof.
  revert parts. induction rs as [|r rs IH]; intros parts; simpl; [by intros [= ->]|].
  destruct (take_response parts r) as [p| |] eqn:E; [|done..]. intros Ht%IH.
  rewrite Ht, (take_response_parts _ _ _ E). symmetry. apply Permutation_middle.
Qed.

Lemma take_responses_no_panic parts rs p : take_responses parts rs <> RPanic p.
Proof.
  revert parts. induction rs as [|r rs IH]; intros parts; simpl; [done|].
  destruct (take_response parts r) as [q| |q] eqn:E; [apply IH|done|].
  destruct parts as [[[b|] [n|]] [c|]], r; done.
Qed.

(** Every refusal is an [UnexpectedResponse]. *)
Lemma take_responses_RErr parts rs e :
  take_responses parts rs = RErr e -> exists m, e = UnexpectedResponse m.
Proof.
  revert parts. induction rs as [|r rs IH]; intros parts; simpl; [done|].
  destruct (take_response parts r) as [q|e'|q] eqn:E; [apply IH| |done].
  intros [= ->]. destruct parts as [[[b|] [n|]] [c|]], r; simpl in E; simplify_eq; eauto.
Qed.

(** A list that holds each of the three answers is one of their six orders. *)
Lemma take_three b n c rs :
  rs ≡ₚ [Balance b; TransactionCount n; Code c] ->
  take_responses (None, None, None) rs = ROk (Some b, Some n, Some c).
Proof.
  intros Hp. pose proof (Permutation_length Hp) as Hl.
  assert (Hb : Balance b ∈ rs) by (rewrite Hp; set_solver).
  assert (Hn : TransactionCount n ∈ rs) by (rewrite Hp; set_solver).
  assert (Hc : Code c ∈ rs) by (rewrite Hp; set_solver). clear Hp.
  destruct rs as [|r1 [|r2 [|r3 [|]]]]; try done.
  rewrite !elem_of_cons in Hb, Hn, Hc.
  destruct Hb as [<-|[<-|[<-|Hb]]]; [| | |by apply not_elem_of_nil in Hb];
    destruct Hn as [Hn|[Hn|[Hn|Hn]]]; try (by apply not_elem_of_nil in Hn); simplify_eq;
    destruct Hc as [Hc|[Hc|[Hc|Hc]]]; try (by apply not_elem_of_nil in Hc); by simplify_eq.
Qed.

(** The account of a batch does not depend on the order of its responses:
    one balance, one nonce and one code, in any of the six orders, give the same
    account, with the default bytecode for an empty code and the hash of the
    bytecode. Any other list of responses - one repeated, missing, or of another
    kind - is refused as unexpected. *)
Theorem parse_basic_responses_spec rs :
  (forall b n c, rs ≡ₚ [Balance b; TransactionCount n; Code c] ->
     parse_basic_responses rs = assemble b n c) /\
  (~ (exists b n c, rs ≡ₚ [Balance b; TransactionCount n; Code c]) ->
     exists m, parse_basic_responses rs = RErr (UnexpectedResponse m)).
Proof.
  split.
  - intros b n c Hp. unfold parse_basic_responses. by rewrite (take_three b n c rs Hp).
  - intros Hno. unfold parse_basic_responses.
    destruct (take_responses (None, None, None) rs) as [[[b n] c]|e|p] eqn:E.
    + apply take_responses_parts in E. simpl in E. rewrite app_nil_r in E.
      destruct b as [b|]; [|simpl; eauto]. destruct n as [n|]; [|simpl; eauto].
      destruct c as [c|]; [|simpl; eauto]. destruct Hno. exists b, n, c. by rewrite <- E.
    + apply take_responses_RErr in E as [m ->]. simpl. eauto.
    + by apply take_responses_no_panic in E.
Qed.

Context `{!FetcherLaws S}.

(** An address created locally is never fetched: its account is absent, its
    storage zero, and the backend is left as it was. For any other address the
    account is the balance, nonce and code that the backend answered for that
    address at the pinned block, the storage word is the one answered, a failure
    of the backend is passed on unchanged, and the database itself never finds
    the answers unexpected. *)
Theorem forkdb_reads address index s :
  (is_local address (local_registry self) = true ->
     basic_ref address s = (ROk None, s) /\ storage_ref address index s = (ROk 0, s)) /\
  (is_local address (local_registry self) = false ->
     (forall rs s', fetch [GetBalance (chain_id self) address (block_number self);
                           GetTransactionCount (chain_id self) address (block_number self);
                           GetCode (chain_id self) address (block_number self)] s = (ROk rs, s') ->
        exists b n c, rs = [Balance b; TransactionCount n; Code c] /\
          basic_ref address s = (assemble b n c, s')) /\
     (forall rs s', fetch [GetStorageAt (chain_id self) address index (block_number self)] s = (ROk rs, s') ->
        exists v, rs = [StorageAt v] /\ storage_ref address index s = (ROk v, s')) /\
     (forall e s', fetch [GetStorageAt (chain_id self) address index (block_number self)] s = (RErr e, s') ->
        storage_ref address index s = (RErr e, s'))).
Proof.
  unfold basic_ref, storage_ref. split; [by intros ->|]. intros ->. split; [|split].
  - intros rs s' Hf. rewrite Hf. apply fetch_answers in Hf.
    apply Forall2_cons_inv_l in Hf as (r1 & l1 & Hr1 & Hf & ->).
    apply Forall2_cons_inv_l in Hf as (r2 & l2 & Hr2 & Hf & ->).
    apply Forall2_cons_inv_l in Hf as (r3 & l3 & Hr3 & Hf & ->).
    apply Forall2_nil_inv_l in Hf as ->. destruct r1; try done. destruct r2; try done. destruct r3; try done. do 3 eexists. split; [reflexivity|]. simpl.
    by rewrite (proj1 (parse_basic_responses_spec _) v v0 v1).
  - intros rs s' Hf. rewrite Hf. apply fetch_answers in Hf.
    apply Forall2_cons_inv_l in Hf as (r & l & Hr & Hf & ->).
    apply Forall2_nil_inv_l in Hf as ->. destruct r; try done. eauto.
  - intros e s' Hf. by rewrite Hf.
Qed.
End ForkDB.

(** The registry answers for exactly the addresses marked in it. *)
Lemma is_local_mark a b r : is_local a (mark_local b r) = bool_decide (a = b) || is_local a r.
Proof.
  unfold is_local, mark_local. destruct (decide (a = b)) as [->|Hne].
  - rewrite !bool_decide_true by set_solver. done.
  - rewrite (bool_decide_false (a = b)) by done. simpl. apply bool_decide_ext. set_solver.
Qed.

(** An address a CREATE is about to make is local before it is loaded. *)
Lemma create_marks_local {I} `{CreateInputs I} nonces (inputs : I) r :
  is_local (created_address inputs (default 0 (nonces !! caller inputs))) (mark_from_inputs nonces inputs r) = true.
Proof. unfold mark_from_inputs. rewrite is_local_mark, bool_decide_true by done. done. Qed.

(** ** Witnesses: a backend that answers zeros *)
Module ToyFork.
#[export] Instance bytecodes : BytecodeOps Bytes := {
  bytecode_default := [];
  new_raw c := Some c;
  hash_slow c := Z.of_nat (length c);
  keccak_empty := 0;
  b256_display := fmt_hex;
}.

Definition answer (req : Request) : Response :=
  match req with
  | GetChainId _ => ChainId 1
  | GetBlockByNumber _ b => BlockByNumber (mkBlock b 0 0 0 0 None 0 None (Some b))
  | GetBalance _ a _ => Balance a
  | GetTransactionCount _ _ _ => TransactionCount 3
  | GetCode _ _ _ => Code []
  | GetStorageAt _ _ slot _ => StorageAt (slot + 1)
  end.

#[export] Instance fetcher : Fetcher nat := { fetch reqs s := (ROk (map answer reqs), Datatypes.S s) }.

#[export] Instance fetcher_laws : FetcherLaws nat.
Proof.
  split. simpl. intros reqs s rs s' [= <- _]. induction reqs as [|req reqs IH]; simpl; constructor; [|done].
  by destruct req.
Qed.
End ToyFork.

Import ToyFork.

Lemma parse_basic_responses_spec_witness :
  parse_basic_responses [Code []; Balance 7; TransactionCount 2] = assemble 7 2 [] /\
  exists m, parse_basic_responses [Balance 1; Balance 1; Code []] = RErr (UnexpectedResponse m).
Proof.
  split.
  - apply (proj1 (parse_basic_responses_spec [Code []; Balance 7; TransactionCount 2]) 7 2 []).
    exact (Permutation_cons_append [Balance 7; TransactionCount 2] (Code [])).
  - apply (proj2 (parse_basic_responses_spec [Balance 1; Balance 1; Code []])).
    intros (b & n & c & Hp). assert (Hin : TransactionCount n ∈ [Balance 1; Balance 1; Code []])
      by (rewrite Hp; set_solver). set_solver.
Defined.

Lemma forkdb_reads_witness :
  basic_ref (mkForkDB ∅ 9 1) 5 0%nat = (assemble 5 3 [], 1%nat) /\
  storage_ref (mkForkDB (mark_local 5 ∅) 9 1) 5 2 0%nat = (ROk 0, 0%nat).
Proof.
  split.
  - destruct (forkdb_reads (mkForkDB ∅ 9 1) 5 0 0%nat) as [_ Hremote].
    destruct (Hremote ltac:(reflexivity)) as [Hb _].
    destruct (Hb _ _ eq_refl) as (b & n & c & Hrs & ->).
    simpl in Hrs. by injection Hrs as <- <- <-.
  - apply (proj1 (forkdb_reads (mkForkDB (mark_local 5 ∅) 9 1) 5 2 0%nat)). reflexivity.
Defined.
