(* ===== verification/Specs.v ===== *)
(** * Specs: the execution spec of a forked block (src/evm/specs)

    Which revm specification a block of a chain is executed with. The hardfork
    tables of alloy are a parameter; the mapping of their forks, the fallback
    chain and the Flare schedules are the program's. *)
From S2P Require Import Prelude.

(** revm's [SpecId], in order. *)
Inductive SpecId : Type :=
| FRONTIER | FRONTIER_THAWING | HOMESTEAD | DAO_FORK | TANGERINE | SPURIOUS_DRAGON
| BYZANTIUM | CONSTANTINOPLE | PETERSBURG | ISTANBUL | MUIR_GLACIER | BERLIN | LONDON
| ARROW_GLACIER | GRAY_GLACIER | MERGE | SHANGHAI | CANCUN | PRAGUE | OSAKA | AMSTERDAM.

Definition spec_index (s : SpecId) : nat :=
  match s with
  | FRONTIER => 0 | FRONTIER_THAWING => 1 | HOMESTEAD => 2 | DAO_FORK => 3 | TANGERINE => 4
  | SPURIOUS_DRAGON => 5 | BYZANTIUM => 6 | CONSTANTINOPLE => 7 | PETERSBURG => 8
  | ISTANBUL => 9 | MUIR_GLACIER => 10 | BERLIN => 11 | LONDON => 12 | ARROW_GLACIER => 13
  | GRAY_GLACIER => 14 | MERGE => 15 | SHANGHAI => 16 | CANCUN => 17 | PRAGUE => 18
  | OSAKA => 19 | AMSTERDAM => 20
  end.

(** alloy's forks in order of activation; [LaterEth] and [LaterOp] stand for
    the variants the program's wildcard arms catch. *)
Inductive EthereumHardfork : Type :=
| Frontier | Homestead | Dao | Tangerine | SpuriousDragon | Byzantium | Constantinople
| Petersburg | Istanbul | MuirGlacier | Berlin | London | ArrowGlacier | GrayGlacier
| Paris | Shanghai | Cancun | Prague | Osaka | Bpo1 | Bpo2 | Bpo3 | Bpo4 | Bpo5
| Amsterdam | LaterEth.

Definition eth_index (h : EthereumHardfork) : nat :=
  match h with
  | Frontier => 0 | Homestead => 1 | Dao => 2 | Tangerine => 3 | SpuriousDragon => 4
  | Byzantium => 5 | Constantinople => 6 | Petersburg => 7 | Istanbul => 8 | MuirGlacier => 9
  | Berlin => 10 | London => 11 | ArrowGlacier => 12 | GrayGlacier => 13 | Paris => 14
  | Shanghai => 15 | Cancun => 16 | Prague => 17 | Osaka => 18 | Bpo1 => 19 | Bpo2 => 20
  | Bpo3 => 21 | Bpo4 => 22 | Bpo5 => 23 | Amsterdam => 24 | LaterEth => 25
  end.

Inductive OpHardfork : Type :=
| Bedrock | Regolith | Canyon | Ecotone | Fjord | Granite | Holocene | Isthmus | Jovian
| Karst | Interop | LaterOp.

Definition op_index (h : OpHardfork) : nat :=
  match h with
  | Bedrock => 0 | Regolith => 1 | Canyon => 2 | Ecotone => 3 | Fjord => 4 | Granite => 5
  | Holocene => 6 | Isthmus => 7 | Jovian => 8 | Karst => 9 | Interop => 10 | LaterOp => 11
  end.

Definition spec_id_from_ethereum_hardfork (hardfork : EthereumHardfork) : SpecId :=
  match hardfork with
  | Frontier => FRONTIER
  | Homestead => HOMESTEAD
  | Dao => DAO_FORK
  | Tangerine => TANGERINE
  | SpuriousDragon => SPURIOUS_DRAGON
  | Byzantium => BYZANTIUM
  | Constantinople => CONSTANTINOPLE
  | Petersburg => PETERSBURG
  | Istanbul => ISTANBUL
  | MuirGlacier => MUIR_GLACIER
  | Berlin => BERLIN
  | London => LONDON
  | ArrowGlacier => ARROW_GLACIER
  | GrayGlacier => GRAY_GLACIER
  | Paris => MERGE
  | Shanghai => SHANGHAI
  | Cancun => CANCUN
  | Prague => PRAGUE
  | Osaka => OSAKA
  | Amsterdam => AMSTERDAM
  | Bpo1 | Bpo2 | Bpo3 | Bpo4 | Bpo5 => AMSTERDAM
  | LaterEth => AMSTERDAM
  end.

Definition spec_id_from_op_hardfork (hardfork : OpHardfork) : SpecId :=
  match hardfork with
  | Bedrock | Regolith => MERGE
  | Canyon => SHANGHAI
  | Ecotone | Fjord | Granite | Holocene => CANCUN
  | Isthmus | Jovian => PRAGUE
  | Karst | Interop => OSAKA
  | LaterOp => AMSTERDAM
  end.

(** (chain id, Shanghai time, Cancun time) *)
Definition ACTIVATIONS : list (Z * Z * Z) :=
  [(14, 1754395200, 1764676800); (19, 1753185600, 1764072000);
   (114, 1750766400, 1763042400); (16, 1751371200, 1763028000)].

Definition flare_spec_id (chain_id timestamp : Z) : option SpecId :=
  match find (fun a => a.1.1 =? chain_id) ACTIVATIONS with
  | None => None
  | Some (_, shanghai, cancun) =>
      Some (if timestamp <? shanghai then LONDON
            else if timestamp <? cancun then SHANGHAI
            else CANCUN)
  end.

(** [from_chain_and_timestamp] of the two tables. *)
Class Hardforks : Type := {
  ethereum_from : Z -> Z -> option EthereumHardfork;
  op_from : Z -> Z -> option OpHardfork;
}.

(** A table knows a chain or it does not, and its forks follow one another in
    time. *)
Class HardforksLaws `{Hardforks} : Prop := {
  ethereum_known : forall c t t', is_Some (ethereum_from c t) -> is_Some (ethereum_from c t');
  ethereum_order : forall c t t' h h', t <= t' ->
    ethereum_from c t = Some h -> ethereum_from c t' = Some h' -> (eth_index h <= eth_index h')%nat;
  op_known : forall c t t', is_Some (op_from c t) -> is_Some (op_from c t');
  op_order : forall c t t' h h', t <= t' ->
    op_from c t = Some h -> op_from c t' = Some h' -> (op_index h <= op_index h')%nat;
}.

(** [Option::or_else] *)
Definition or_else {A} (o : option A) (f : option A) : option A :=
  match o with Some _ => o | None => f end.

Definition get_spec_id `{Hardforks} (chain_id timestamp : Z) : SpecId :=
  default AMSTERDAM
    (or_else (spec_id_from_ethereum_hardfork <$> ethereum_from chain_id timestamp)
    (or_else (spec_id_from_op_hardfork <$> op_from chain_id timestamp)
             (flare_spec_id chain_id timestamp))).

Lemma ethereum_spec_mono h h' :
  (eth_index h <= eth_index h')%nat ->
  (spec_index (spec_id_from_ethereum_hardfork h) <= spec_index (spec_id_from_ethereum_hardfork h'))%nat.
Proof. destruct h, h'; simpl; lia. Qed.

Lemma op_spec_mono h h' :
  (op_index h <= op_index h')%nat ->
  (spec_index (spec_id_from_op_hardfork h) <= spec_index (spec_id_from_op_hardfork h'))%nat.
Proof. destruct h, h'; simpl; lia. Qed.

(** Every scheduled chain activates Shanghai before Cancun. *)
Lemma activations_ordered : Forall (fun a => a.1.2 < a.2) ACTIVATIONS.
Proof. by repeat constructor. Qed.

Lemma flare_spec_mono c t t' s s' :
  t <= t' -> flare_spec_id c t = Some s -> flare_spec_id c t' = Some s' ->
  (spec_index s <= spec_index s')%nat.
Proof.
  unfold flare_spec_id. intros Ht. destruct (find _ ACTIVATIONS) as [[[id sh] ca]|] eqn:E; [|done].
  apply find_some in E as [Hin _]. pose proof activations_ordered as Ho.
  rewrite Forall_forall in Ho. apply list_elem_of_In, Ho in Hin. simpl in Hin.
  intros [= <-] [= <-].
  destruct (Z.ltb_spec t sh), (Z.ltb_spec t ca), (Z.ltb_spec t' sh), (Z.ltb_spec t' ca); simpl; lia.
Qed.

Section Spec.
Context `{HardforksLaws}.

(** A later block of a chain never runs under an earlier specification:
    the resolved spec is monotone in the timestamp on every chain, known to the
    tables, of the Flare family, or unknown. *)
Theorem get_spec_id_monotone chain_id t t' :
  t <= t' -> (spec_index (get_spec_id chain_id t) <= spec_index (get_spec_id chain_id t'))%nat.
Proof.
  intros Ht. unfold get_spec_id.
  destruct (ethereum_from chain_id t) as [h|] eqn:E1.
  - destruct (ethereum_known chain_id t t') as [h' E2]; [eauto|].
    rewrite E2. simpl. eapply ethereum_spec_mono, ethereum_order; eauto.
  - destruct (ethereum_from chain_id t') eqn:E2;
      [destruct (ethereum_known chain_id t' t) as [? ?]; [eauto|congruence]|]. simpl.
    destruct (op_from chain_id t) as [h|] eqn:E3.
    + destruct (op_known chain_id t t') as [h' E4]; [eauto|].
      rewrite E4. simpl. eapply op_spec_mono, op_order; eauto.
    + destruct (op_from chain_id t') eqn:E4;
        [destruct (op_known chain_id t' t) as [? ?]; [eauto|congruence]|]. simpl.
      destruct (flare_spec_id chain_id t) as [s|] eqn:E5, (flare_spec_id chain_id t') as [s'|] eqn:E6; simpl.
      * by eapply flare_spec_mono.
      * destruct s; simpl; lia.
      * unfold flare_spec_id in *. by destruct (find _ _) as [[[]]|].
      * done.
Qed.
End Spec.

(** A blob-parameter fork, which follows Osaka and changes no opcode, already
    selects the specification of the next upgrade. *)
Lemma bpo_selects_amsterdam : spec_id_from_ethereum_hardfork Bpo1 = AMSTERDAM.
Proof. reflexivity. Qed.

(** ** A table with one chain for the witness *)
Module ToyForks.
#[export] Instance table : Hardforks := {
  ethereum_from c t := if c =? 1 then Some (if t <? 100 then London else Paris) else None;
  op_from c t := None;
}.

#[export] Instance table_laws : HardforksLaws.
Proof.
  split; simpl.
  - intros c t t'. destruct (c =? 1); [eauto|by intros [? ?]].
  - intros c t t' h h' Ht. destruct (c =? 1); [|done]. intros [= <-] [= <-].
    destruct (Z.ltb_spec t 100), (Z.ltb_spec t' 100); simpl; lia.
  - by intros c t t' [? ?].
  - done.
Qed.
End ToyForks.

Import ToyForks.

Lemma get_spec_id_monotone_witness :
  (spec_index (get_spec_id 14 1754395199) <= spec_index (get_spec_id 14 1754395200))%nat.
Proof. apply get_spec_id_monotone. lia. Defined.
