(* ===== verification/Database.v ===== *)
(** * Database: the multi-fork database (src/evm/database.rs)

    The empty chain, the forks created so far with the active one, and the
    switch between them. revm's [CacheDB] is a parameter seen through its
    cached accounts; the shared backends are a parameter that hands out a
    handle per endpoint and answers requests. *)
From S2P Require Import Prelude.
From S2P Require Import Env.
From S2P Require Import Transaction.
From S2P Require Import Rpc.
From S2P Require Import Backend.
From S2P Require Import ForkDB.
From S2P Require Import Specs.

(** ** Results *)
Inductive DatabaseError : Type :=
| Fork (e : Error)
| ForkSelect (msg : string).

Inductive DbRes (A : Type) : Type :=
| DOk (a : A)
| DErr (e : DatabaseError)
| DPanic (msg : string).
Arguments DOk {A} a.
Arguments DErr {A} e.
Arguments DPanic {A} msg.

(** [.map_err(DatabaseError::from)] *)
Definition from_fork {A} (r : RpcRes A) : DbRes A :=
  match r with ROk a => DOk a | RErr e => DErr (Fork e) | RPanic p => DPanic p end.

Definition database_error_display (e : DatabaseError) : string :=
  match e with Fork e => error_display e | ForkSelect m => m end.

(** Computations over a state kept when they fail. *)
Definition DbM (S A : Type) : Type := S -> DbRes A * S.
#[export] Instance DbM_ret S : MRet (DbM S) := fun A a s => (DOk a, s).
#[export] Instance DbM_bind S : MBind (DbM S) := fun A B f m s =>
  match m s with
  | (DOk a, s') => f a s'
  | (DErr e, s') => (DErr e, s')
  | (DPanic p, s') => (DPanic p, s')
  end.

Lemma DbM_bind_DOk {S A B} (m : DbM S A) (k : A -> DbM S B) s b s' :
  (m ≫= k) s = (DOk b, s') <-> exists a s1, m s = (DOk a, s1) /\ k a s1 = (DOk b, s').
Proof. unfold mbind, DbM_bind. destruct (m s) as [[a|e|p] s1]; naive_solver. Qed.

(** ** revm's [CacheDB]

    [cached d] are its accounts with their cached slots. Writing a slot of an
    account that is not cached first loads the account, which can fail. *)
Class CacheDB (D Info W : Type) : Type := {
  cached : D -> gmap Address (Info * gmap U256 U256);
  insert_account_info : Address -> Info -> D -> D;
  insert_account_storage : Address -> U256 -> U256 -> D -> W -> RpcRes unit * D * W;
  basic : Address -> D -> W -> RpcRes (option Info) * D * W;
  storage : Address -> U256 -> D -> W -> RpcRes U256 * D * W;
  commit : gmap Address Info -> D -> D;
}.

Class CacheDBLaws (D Info W : Type) `{CacheDB D Info W} : Type := {
  (** what is stored of an account: its code moves to the code table *)
  stored : Info -> Info;
  stored_idem : forall i, stored (stored i) = stored i;
  cached_stored : forall d a i st, cached d !! a = Some (i, st) -> stored i = i;
  cached_insert_info : forall a i d,
    cached (insert_account_info a i d) =
      <[a := (stored i, match cached d !! a with Some (_, st) => st | None => ∅ end)]> (cached d);
  cached_insert_storage : forall a k v d w i st,
    cached d !! a = Some (i, st) ->
    exists d', insert_account_storage a k v d w = (ROk tt, d', w) /\
      cached d' = <[a := (i, <[k := v]> st)]> (cached d);
}.

(** ** Backends and new forks *)
Class Backends (Bk W : Type) : Type := {
  backend_new : ForkDBConfig -> W -> Bk * W;
  backend_fetch : Bk -> list Request -> W -> RpcRes (list Response) * W;
  backend_stats : Bk -> W -> RpcStats;
}.

(** The backends never panic: [Backend.backend_consistent]. *)
Class BackendsLaws (Bk W : Type) `{Backends Bk W} : Prop := {
  backend_fetch_no_panic : forall b reqs w p, (backend_fetch b reqs w).1 <> RPanic p;
}.

(** [CacheDB::new(ForkDB::new(..))], and the block hash put into its cache. *)
Class NewFork (D Info Bk : Type) : Type := {
  cache_new : Bk -> ForkDB -> D;
  cache_block_hash : Z -> U256 -> D -> D;
  coinbase_info : Info;
}.

(** A new cache holds no account, and a block hash is none. *)
Class NewForkLaws (D Info Bk W : Type) `{CacheDB D Info W} `{NewFork D Info Bk} : Prop := {
  cache_new_empty : forall backend f, cached (cache_new backend f) = ∅;
  cache_block_hash_cached : forall n h d, cached (cache_block_hash n h d) = cached d;
}.

Record ForkKey : Type := mkForkKey { key_url_hash : Z; key_block_number : Z }.

#[export] Instance ForkKey_eq_dec : EqDecision ForkKey.
Proof. solve_decision. Defined.
#[export] Instance ForkKey_countable : Countable ForkKey.
Proof.
  refine (inj_countable' (fun k => (key_url_hash k, key_block_number k))
    (fun p => mkForkKey p.1 p.2) _). by intros [].
Defined.

Record ForkEnv : Type := mkForkEnv {
  env_chain_id : Z;
  env_block_number : Z;
  env_timestamp : U256;
  env_beneficiary : Address;
  env_difficulty : U256;
  env_prevrandao : option U256;
  env_excess_blob_gas : option Z;
  env_block_hash : option U256;
  env_spec_id : SpecId;
}.

Definition PersistentAccount (Info : Type) : Type := Address * Info * list (U256 * U256).

Record ForkSlot (D : Type) : Type := mkForkSlot { slot_db : D; slot_env : ForkEnv }.
Arguments mkForkSlot {D}.
Arguments slot_db {D}.
Arguments slot_env {D}.

Record MultiForkDB (D Bk : Type) : Type := mkMultiForkDB {
  active : ForkKey;
  forks : gmap ForkKey (ForkSlot D);
  backends : gmap Z Bk;
  multi_registry : SharedLocalAddressRegistry;
}.
Arguments mkMultiForkDB {D Bk}.
Arguments active {D Bk}.
Arguments forks {D Bk}.
Arguments backends {D Bk}.
Arguments multi_registry {D Bk}.

Inductive Database (E D Bk : Type) : Type :=
| Empty (db : E)
| Multi (multi : MultiForkDB D Bk).
Arguments Empty {E D Bk}.
Arguments Multi {E D Bk}.

Definition VM_ADDRESS : Address := 0x628dc59f11f72b611132ec40437f125ba1312f08.

Definition is_persistent (addr : Address) (registry : SharedLocalAddressRegistry) : bool :=
  (addr =? DEFAULT_DEPLOYER) || (addr =? VM_ADDRESS) || is_local addr registry.

Section Database.
Context {E D Info Bk W : Type}.
Context `{CacheDB E Info W} `{CacheDB D Info W} `{Backends Bk W} `{NewFork D Info Bk}.
Context `{Keccak} `{Hardforks}.
Implicit Types (m : MultiForkDB D Bk) (d : Database E D Bk).

Definition active_db m : DbRes D :=
  match forks m !! active m with
  | Some slot => DOk (slot_db slot)
  | None => DErr (ForkSelect "active fork missing")
  end.

(** Writing the active database back through [active_db_mut]. *)
Definition set_active_db m (db : D) : MultiForkDB D Bk :=
  mkMultiForkDB (active m) (alter (fun slot => mkForkSlot db (slot_env slot)) (active m) (forks m))
    (backends m) (multi_registry m).

(** [collect_cached_accounts], [collect_persistent_from_active] *)
Definition account_entry (e : Address * (Info * gmap U256 U256)) : PersistentAccount Info :=
  (e.1, e.2.1, map_to_list e.2.2).

Definition collect_cached_accounts (db : E) : list (PersistentAccount Info) :=
  map account_entry (map_to_list (cached db)).

Definition collect_persistent_from_active m : DbRes (list (PersistentAccount Info)) :=
  match active_db m with
  | DOk db =>
      DOk (map account_entry
        (List.filter (fun e => is_persistent e.1 (multi_registry m)) (map_to_list (cached db))))
  | DErr e => DErr e
  | DPanic p => DPanic p
  end.

(** A failed slot is skipped. *)
Definition apply_slot (addr : Address) (dw : D * W) (kv : U256 * U256) : D * W :=
  let '(_, db, w) := insert_account_storage addr kv.1 kv.2 dw.1 dw.2 in (db, w).

Definition apply_account (dw : D * W) (acc : PersistentAccount Info) : D * W :=
  let '(addr, info, slots) := acc in
  foldl (apply_slot addr) (insert_account_info addr info dw.1, dw.2) slots.

Definition apply_persistent (persistent : list (PersistentAccount Info)) (dw : D * W) : D * W :=
  foldl apply_account dw persistent.

(** ** A new fork *)
Definition build_fork_slot (backend : Bk) (registry : SharedLocalAddressRegistry)
    (config : ForkDBConfig) (w : W) : DbRes (D * ForkEnv) * W :=
  let block_number := Rpc.block_number config in
  let '(r1, w1) := backend_fetch backend [GetChainId (url_hash (url config))] w in
  match from_fork r1 with
  | DErr e => (DErr e, w1)
  | DPanic p => (DPanic p, w1)
  | DOk responses =>
      match last responses with
      | Some (ChainId chain_id) =>
          let '(r2, w2) := backend_fetch backend [GetBlockByNumber chain_id block_number] w1 in
          match from_fork r2 with
          | DErr e => (DErr e, w2)
          | DPanic p => (DPanic p, w2)
          | DOk responses =>
              match last responses with
              | Some (BlockByNumber block) =>
                  if negb (number block =? block_number) then
                    (DErr (ForkSelect ("RPC returned block " +:+ fmt_dec (number block)
                       +:+ " but requested block " +:+ fmt_dec block_number)), w2)
                  else
                    let spec := get_spec_id chain_id (timestamp block) in
                    let database := cache_new backend (mkForkDB registry block_number chain_id) in
                    let database := match hash block with
                      | Some h => cache_block_hash (number block) h database
                      | None => database
                      end in
                    let database := insert_account_info (coinbase block) coinbase_info database in
                    (DOk (database, mkForkEnv chain_id block_number (timestamp block) (coinbase block)
                       (difficulty block) (prevrandao block) (excess_blob_gas block) (hash block) spec), w2)
              | _ => (DErr (ForkSelect "missing BlockByNumber response"), w2)
              end
          end
      | _ => (DErr (ForkSelect "missing ChainId response"), w1)
      end
  end.

Definition with_backends m (b : gmap Z Bk) : MultiForkDB D Bk :=
  mkMultiForkDB (active m) (forks m) b (multi_registry m).

(** [create_fork]: the backend of the endpoint is kept even when building the
    fork fails. *)
Definition create_fork (key : ForkKey) (config : ForkDBConfig)
    (persistent : list (PersistentAccount Info)) : DbM (MultiForkDB D Bk * W) unit := fun mw =>
  let '(m, w) := mw in
  let '(backend, m1, w1) :=
    match backends m !! key_url_hash key with
    | Some b => (b, m, w)
    | None =>
        let '(b, w') := backend_new config w in
        (b, with_backends m (<[key_url_hash key := b]> (backends m)), w')
    end in
  let '(r, w2) := build_fork_slot backend (multi_registry m1) config w1 in
  match r with
  | DErr e => (DErr e, (m1, w2))
  | DPanic p => (DPanic p, (m1, w2))
  | DOk (db, env) =>
      let '(db', w3) := apply_persistent persistent (db, w2) in
      (DOk tt, (mkMultiForkDB key (<[key := mkForkSlot db' env]> (forks m1)) (backends m1)
                  (multi_registry m1), w3))
  end.

Definition select_or_create (key : ForkKey) (config : ForkDBConfig) : DbM (MultiForkDB D Bk * W) unit :=
  fun mw =>
  let '(m, w) := mw in
  match collect_persistent_from_active m with
  | DErr e => (DErr e, mw)
  | DPanic p => (DPanic p, mw)
  | DOk persistent =>
      match forks m !! key with
      | Some target =>
          let '(db', w') := apply_persistent persistent (slot_db target, w) in
          (DOk tt, (mkMultiForkDB key (<[key := mkForkSlot db' (slot_env target)]> (forks m))
                      (backends m) (multi_registry m), w'))
      | None => create_fork key config persistent mw
      end
  end.

(** [multi.forks[&key].env.clone()] *)
Definition env_of (key : ForkKey) m : DbRes ForkEnv :=
  match forks m !! key with Some slot => DOk (slot_env slot) | None => DPanic "no such fork" end.

Definition config_for (u : string) (block : Z) (c : ForkDBConfig) : ForkDBConfig :=
  mkForkDBConfig u (retries c) (backoff_ms c) (timeout_ms c) (batch_size c) (batch_timeout_ms c)
    (rate_limit c) (cache_dir c) block.

(** [Database::fork] *)
Definition fork (u : string) (block : Z) (config : ForkDBConfig)
    (registry : SharedLocalAddressRegistry) : DbM (Database E D Bk * W) ForkEnv := fun dw =>
  let '(d, w) := dw in
  let config := config_for u block config in
  let key := mkForkKey (url_hash u) block in
  match d with
  | Multi m =>
      if decide (active m = key /\ is_Some (forks m !! key)) then (env_of key m, dw)
      else
        let '(r, (m', w')) := select_or_create key config (m, w) in
        match r with
        | DOk _ => (env_of (active m') m', (Multi m', w'))
        | DErr e => (DErr e, (Multi m', w'))
        | DPanic p => (DPanic p, (Multi m', w'))
        end
  | Empty empty =>
      let persistent := collect_cached_accounts empty in
      let m := mkMultiForkDB key ∅ ∅ registry in
      let '(r, (m', w')) := create_fork key config persistent (m, w) in
      match r with
      | DOk _ =>
          match env_of key m' with
          | DOk env => (DOk env, (Multi m', w'))
          | DErr e => (DErr e, (d, w'))
          | DPanic p => (DPanic p, (d, w'))
          end
      | DErr e => (DErr e, (d, w'))
      | DPanic p => (DPanic p, (d, w'))
      end
  end.

(** ** The active database *)
Definition is_active_fork (u : string) (block : Z) d : bool :=
  match d with
  | Empty _ => false
  | Multi m =>
      let key := mkForkKey (url_hash u) block in
      bool_decide (active m = key /\ is_Some (forks m !! key))
  end.

Definition rpc_stats d (w : W) : RpcStats :=
  match d with
  | Empty _ => mkRpcStats 0 0 0
  | Multi m =>
      map_fold (fun _ backend acc => stats_saturating_add acc (backend_stats backend w))
        (mkRpcStats 0 0 0) (backends m)
  end.

Definition db_insert_account_info (a : Address) (i : Info) d : Database E D Bk :=
  match d with
  | Empty db => Empty (insert_account_info a i db)
  | Multi m =>
      match active_db m with DOk db => Multi (set_active_db m (insert_account_info a i db)) | _ => d end
  end.

Definition db_commit (changes : gmap Address Info) d : Database E D Bk :=
  match d with
  | Empty db => Empty (commit changes db)
  | Multi m =>
      match active_db m with DOk db => Multi (set_active_db m (commit changes db)) | _ => d end
  end.

(** An operation of the empty or of the active database. *)
Definition on_active {A} (on_empty : E -> W -> RpcRes A * E * W) (on_fork : D -> W -> RpcRes A * D * W)
    : DbM (Database E D Bk * W) A := fun dw =>
  let '(d, w) := dw in
  match d with
  | Empty db => let '(r, db', w') := on_empty db w in (from_fork r, (Empty db', w'))
  | Multi m =>
      match active_db m with
      | DOk db => let '(r, db', w') := on_fork db w in (from_fork r, (Multi (set_active_db m db'), w'))
      | DErr e => (DErr e, dw)
      | DPanic p => (DPanic p, dw)
      end
  end.

Definition db_insert_account_storage (a : Address) (k v : U256) : DbM (Database E D Bk * W) unit :=
  on_active (insert_account_storage a k v) (insert_account_storage a k v).
Definition db_basic (a : Address) : DbM (Database E D Bk * W) (option Info) :=
  on_active (basic a) (basic a).
Definition db_storage (a : Address) (k : U256) : DbM (Database E D Bk * W) U256 :=
  on_active (storage a k) (storage a k).

(** ** Well-formedness: the active fork exists *)
Definition multi_ok m : Prop := is_Some (forks m !! active m).
Definition db_ok d : Prop := match d with Empty _ => True | Multi m => multi_ok m end.
End Database.

(** ** Copying accounts *)
Section Copy_lemmas.
Context {D Info W : Type} `{CacheDBLaws D Info W}.

Lemma apply_slots_spec addr slots (db : D) (w : W) i st :
  cached db !! addr = Some (i, st) ->
  exists db', foldl (apply_slot addr) (db, w) slots = (db', w) /\
    cached db' = <[addr := (i, foldl (fun m (p : U256 * U256) => <[p.1 := p.2]> m) st slots)]> (cached db).
Proof.
  revert db st. induction slots as [|[k v] slots IH]; intros db st Hc; cbn [foldl].
  - exists db. split; [done|]. by rewrite insert_id.
  - destruct (cached_insert_storage addr k v db w i st Hc) as (db1 & Hins & Hc1).
    unfold apply_slot at 2. cbn [fst snd]. rewrite Hins.
    destruct (IH db1 (<[k := v]> st)) as (db' & Hf & Hc'); [by rewrite Hc1, lookup_insert_eq|].
    exists db'. split; [exact Hf|]. by rewrite Hc', Hc1, insert_insert_eq.
Qed.

(** One account: its info replaced, its slots written over the old ones. *)
Lemma apply_account_spec (db : D) (w : W) addr info slots :
  NoDup slots.*1 ->
  exists db', apply_account (db, w) (addr, info, slots) = (db', w) /\
    cached db' = <[addr := (stored info,
      list_to_map slots ∪ match cached db !! addr with Some (_, st) => st | None => ∅ end)]> (cached db).
Proof.
  intros Hnd. unfold apply_account. cbn [fst snd].
  pose proof (cached_insert_info addr info db) as Hi.
  destruct (apply_slots_spec addr slots (insert_account_info addr info db) w (stored info)
    (match cached db !! addr with Some (_, st) => st | None => ∅ end)) as (db' & Hf & Hc);
    [by rewrite Hi, lookup_insert_eq|].
  exists db'. split; [exact Hf|]. rewrite Hc, Hi, insert_insert_eq, foldl_insert_nodup by done. done.
Qed.

(** The cached slots of an account. *)
Definition slots_at (base : gmap Address (Info * gmap U256 U256)) (a : Address) : gmap U256 U256 :=
  match base !! a with Some (_, st) => st | None => ∅ end.

(** A list of accounts: each is copied, every other account is kept. *)
Lemma apply_persistent_spec (ps : list (PersistentAccount Info)) (db : D) (w : W) :
  NoDup (map (fun p => p.1.1) ps) -> Forall (fun p => NoDup p.2.*1) ps ->
  exists db', apply_persistent ps (db, w) = (db', w) /\
    (forall a i slots, (a, i, slots) ∈ ps ->
       cached db' !! a = Some (stored i, list_to_map slots ∪ slots_at (cached db) a)) /\
    (forall a, a ∉ map (fun p => p.1.1) ps -> cached db' !! a = cached db !! a).
Proof.
  revert db. induction ps as [|[[a0 i0] s0] ps IH]; intros db Hnd Hslots.
  - exists db. split; [done|]. split; [|done]. intros a i slots Hin. by apply not_elem_of_nil in Hin.
  - apply NoDup_cons in Hnd as [Ha0 Hnd]. apply Forall_cons in Hslots as [Hs0 Hslots].
    destruct (apply_account_spec db w a0 i0 s0 Hs0) as (db1 & Hf1 & Hc1).
    destruct (IH db1 Hnd Hslots) as (db' & Hf & Hin & Hout).
    exists db'. unfold apply_persistent in *. cbn [foldl]. rewrite Hf1. split; [exact Hf|].
    cbn [map fst] in *. split.
    + intros a i slots [[= -> -> ->]|Hp]%elem_of_cons; [rewrite Hout by done; by rewrite Hc1, lookup_insert_eq|].
      rewrite (Hin a i slots Hp). unfold slots_at. rewrite Hc1, lookup_insert_ne; [done|]. intros <-. apply Ha0.
      apply list_elem_of_fmap. by exists (a0, i, slots).
    + intros a Ha. apply not_elem_of_cons in Ha as [Hne Ha]. rewrite Hout by done.
      by rewrite Hc1, lookup_insert_ne.
Qed.
End Copy_lemmas.

Section Fork_theorems.
Context {E D Info Bk W : Type}.
Context `{CacheDB E Info W} `{HD : CacheDB D Info W} `{!CacheDBLaws D Info W}.
Context `{Backends Bk W} `{!BackendsLaws Bk W} `{NewFork D Info Bk} `{Keccak} `{Hardforks}.
Implicit Types (m : MultiForkDB D Bk) (d : Database E D Bk).

Lemma active_db_ok m : multi_ok m -> exists slot, forks m !! active m = Some slot /\ active_db m = DOk (slot_db slot).
Proof. intros [slot Hs]. exists slot. unfold active_db. by rewrite Hs. Qed.

(** The accounts collected from the active database. *)
Lemma collect_persistent_spec m slot :
  forks m !! active m = Some slot ->
  exists ps, collect_persistent_from_active m = DOk ps /\
    NoDup (map (fun p : PersistentAccount Info => p.1.1) ps) /\
    Forall (fun p : PersistentAccount Info => NoDup p.2.*1) ps /\
    (forall a i slots, (a, i, slots) ∈ ps <->
       is_persistent a (multi_registry m) = true /\
       exists st, cached (slot_db slot) !! a = Some (i, st) /\ slots = map_to_list st).
Proof.
  intros Hs. unfold collect_persistent_from_active, active_db. rewrite Hs. eexists. split; [done|].
  set (keep := List.filter _ _).
  assert (Hkeep : forall e, e ∈ keep <-> is_persistent e.1 (multi_registry m) = true /\
    cached (slot_db slot) !! e.1 = Some e.2).
  { intros [a v]. unfold keep. rewrite list_elem_of_In, filter_In, <- list_elem_of_In, elem_of_map_to_list.
    simpl. tauto. }
  split; [|split].
  - assert (Hmap : map (fun p : PersistentAccount Info => p.1.1) (map account_entry keep) = keep.*1)
      by (rewrite map_map; apply map_ext; by intros [? []]).
    rewrite Hmap. subst keep. pose proof (NoDup_fst_map_to_list (cached (slot_db slot))) as Hnd. clear -Hnd.
    induction (map_to_list (cached (slot_db slot))) as [|e l IH]; simpl; [constructor|].
    apply NoDup_cons in Hnd as [He Hnd]. destruct (is_persistent e.1 _); [|by apply IH].
    simpl. constructor; [|by apply IH]. intros Hin. apply He.
    apply list_elem_of_fmap in Hin as (e' & -> & He'). apply list_elem_of_fmap. exists e'. split; [done|].
    apply list_elem_of_In in He'. apply filter_In in He' as [He' _]. by apply list_elem_of_In.
  - apply Forall_forall. intros p Hp. apply list_elem_of_fmap in Hp as ([a [i st]] & -> & _). simpl.
    apply NoDup_fst_map_to_list.
  - intros a i slots. rewrite list_elem_of_fmap. split.
    + intros ([a' [i' st]] & [= -> -> ->] & Hk). apply Hkeep in Hk as [Hp Hc]. eauto.
    + intros (Hp & st & Hc & ->). exists (a, (i, st)). split; [done|]. by apply Hkeep.
Qed.

(** The errors of building a fork are the backend's and its own. *)
Definition own_error {A} (r : DbRes A) : Prop :=
  r <> DErr (ForkSelect "active fork missing") /\ forall p, r <> DPanic p.

Lemma build_fork_slot_error backend reg cfg (w : W) :
  own_error (build_fork_slot (D := D) (Info := Info) backend reg cfg w).1.
Proof.
  unfold build_fork_slot, own_error.
  pose proof (backend_fetch_no_panic backend [GetChainId (url_hash (url cfg))] w) as Hp1.
  destruct (backend_fetch backend [GetChainId _] w) as [[l|e|p] w1]; simpl; [|done|by edestruct Hp1].
  destruct (last l) as [[chain_id| | | | |]|]; try done.
  pose proof (backend_fetch_no_panic backend [GetBlockByNumber chain_id (Rpc.block_number cfg)] w1) as Hp2.
  destruct (backend_fetch backend [GetBlockByNumber _ _] w1) as [[l2|e|p] w2]; simpl; [|done|by edestruct Hp2].
  destruct (last l2) as [[|block| | | |]|]; try done. by destruct (negb _).
Qed.

(** A database and an environment that building a fork gave. *)
Definition built (db : D) (env : ForkEnv) : Prop :=
  exists backend reg cfg (w w' : W), build_fork_slot (D := D) (Info := Info) (Bk := Bk) backend reg cfg w = (DOk (db, env), w').

(** A fork as it is built holds the beneficiary of its block and nothing else. *)
Lemma built_cached `{!NewForkLaws D Info Bk W} db env :
  built db env -> cached db = {[env_beneficiary env := (stored coinbase_info, ∅)]}.
Proof.
  intros (backend & reg & cfg & w & w' & Hb). unfold build_fork_slot in Hb.
  destruct (backend_fetch backend [GetChainId _] w) as [[l|e|p] w1]; simpl in Hb; [|done..].
  destruct (last l) as [[chain_id| | | | |]|]; try done.
  destruct (backend_fetch backend [GetBlockByNumber _ _] w1) as [[l2|e|p] w2]; simpl in Hb; [|done..].
  destruct (last l2) as [[|block| | | |]|]; try done. destruct (negb _); [done|]. injection Hb as <- <- _.
  rewrite cached_insert_info. cbn [env_beneficiary].
  assert (Hd : cached (match hash block with
    | Some h => cache_block_hash (number block) h (cache_new backend (mkForkDB reg (Rpc.block_number cfg) chain_id))
    | None => cache_new backend (mkForkDB reg (Rpc.block_number cfg) chain_id) end) = ∅).
  { destruct (hash block); rewrite ?cache_block_hash_cached; apply cache_new_empty. }
  rewrite Hd, lookup_empty. apply insert_empty.
Qed.

(** A failed or successful creation: what stays. *)
Lemma create_fork_spec key config ps m (w : W) r m' w' :
  create_fork key config ps (m, w) = (r, (m', w')) ->
  multi_registry m' = multi_registry m /\
  (forall k b, backends m !! k = Some b -> backends m' !! k = Some b) /\
  match r with
  | DOk _ => active m' = key /\ is_Some (forks m' !! key) /\
      (forall k, k <> key -> forks m' !! k = forks m !! k) /\
      (NoDup (map (fun p : PersistentAccount Info => p.1.1) ps) ->
         Forall (fun p : PersistentAccount Info => NoDup p.2.*1) ps ->
         exists slot db0, forks m' !! key = Some slot /\ built db0 (slot_env slot) /\
           (forall a i slots, (a, i, slots) ∈ ps ->
              cached (slot_db slot) !! a = Some (stored i, list_to_map slots ∪ slots_at (cached db0) a)) /\
           (forall a, a ∉ map (fun p : PersistentAccount Info => p.1.1) ps -> cached (slot_db slot) !! a = cached db0 !! a))
  | _ => active m' = active m /\ forks m' = forks m
  end.
Proof.
  unfold create_fork. destruct (match backends m !! key_url_hash key with Some _ => _ | None => _ end)
    as [[backend m1] w1] eqn:Eb.
  assert (Hm1 : multi_registry m1 = multi_registry m /\ active m1 = active m /\ forks m1 = forks m /\
    (forall k b, backends m !! k = Some b -> backends m1 !! k = Some b)).
  { destruct (backends m !! key_url_hash key) eqn:Ek; [by simplify_eq|].
    destruct (backend_new config w) as [b w2]. injection Eb as <- <- <-. simpl. repeat split.
    intros k b' Hb. rewrite lookup_insert_ne; [done|]. congruence. }
  destruct Hm1 as (Hreg & Hact & Hforks & Hback).
  destruct (build_fork_slot backend _ config w1) as [[[db env]|e|p] w2] eqn:Eb2;
    [|intros [= <- <- <-]; by rewrite Hreg..].
  destruct (apply_persistent ps (db, w2)) as [db' w3] eqn:Ea. intros [= <- <- <-]. simpl.
  split; [done|]. split; [done|]. rewrite lookup_insert_eq. split; [done|]. split; [eauto|]. split.
  - intros k Hk. rewrite lookup_insert_ne by done. by rewrite Hforks.
  - intros Hnd Hsl. destruct (apply_persistent_spec ps db w2 Hnd Hsl) as (db2 & Hf & Hin & Hout).
    rewrite Hf in Ea. injection Ea as -> _. eexists _, db. split; [done|]. split; [|by split].
    by exists backend, (multi_registry m1), config, w1, w2.
Qed.

Lemma create_fork_error key cfg ps m (w : W) : own_error (create_fork key cfg ps (m, w)).1.
Proof.
  unfold create_fork. destruct (match backends m !! key_url_hash key with Some _ => _ | None => _ end)
    as [[backend m1] w1].
  pose proof (build_fork_slot_error backend (multi_registry m1) cfg w1) as He.
  destruct (build_fork_slot _ _ _ _) as [[[db env]|e|p] w2]; simpl in *.
  - by destruct (apply_persistent _ _).
  - destruct He as [He _]. split; [naive_solver|done].
  - destruct He as [_ He]. by edestruct He.
Qed.

(** The accounts that go along with a switch: those created locally, the
    deployer and the cheatcode address. *)
Definition travels m (a : Address) : Prop :=
  is_local a (multi_registry m) = true \/ a = DEFAULT_DEPLOYER \/ a = VM_ADDRESS.

Lemma is_persistent_travels m a : is_persistent a (multi_registry m) = true <-> travels m a.
Proof.
  unfold is_persistent, travels. rewrite !orb_true_iff, !Z.eqb_eq. tauto.
Qed.

(** A fork whose accounts were [base] has received exactly the travelling
    accounts of the fork left: each with its info, its slots written over those
    it had. *)
Definition copied m old (base : gmap Address (Info * gmap U256 U256)) slot : Prop :=
  (forall a i st, travels m a -> cached (slot_db old) !! a = Some (i, st) ->
     cached (slot_db slot) !! a = Some (i, st ∪ slots_at base a)) /\
  (forall a, ~ travels m a \/ cached (slot_db old) !! a = None -> cached (slot_db slot) !! a = base !! a).

(** Selecting from a well-formed database: the previous forks stay, and the
    persistent accounts of the active one are copied. *)
Definition selected key m m' : Prop :=
  active m' = key /\ is_Some (forks m' !! key) /\
  (forall k, k <> key -> forks m' !! k = forks m !! k) /\
  (forall old slot, forks m !! active m = Some old -> forks m' !! key = Some slot ->
     match forks m !! key with
     | Some target => slot_env slot = slot_env target /\ copied m old (cached (slot_db target)) slot
     | None => exists db0, built db0 (slot_env slot) /\ copied m old (cached db0) slot
     end).

Lemma select_or_create_spec key cfg m (w : W) :
  multi_ok m ->
  own_error (select_or_create key cfg (m, w)).1 /\
  match select_or_create key cfg (m, w) with
  | (DOk _, (m', _)) => selected key m m'
  | (_, (m', _)) => active m' = active m /\ forks m' = forks m
  end.
Proof.
  intros [old Hold]. destruct (collect_persistent_spec m old Hold) as (ps & Hps & Hnd & Hsl & Hin).
  unfold select_or_create. rewrite Hps.
  assert (Hcopy : forall base slot,
    (forall a i slots, (a, i, slots) ∈ ps ->
       cached (slot_db slot) !! a = Some (stored i, list_to_map slots ∪ slots_at base a)) ->
    (forall a, a ∉ map (fun p : PersistentAccount Info => p.1.1) ps -> cached (slot_db slot) !! a = base !! a) ->
    copied m old base slot).
  { intros base slot Hs Hout. split.
    - intros a i st Hp%is_persistent_travels Hc. rewrite (Hs a i (map_to_list st)) by (apply Hin; eauto).
      by rewrite list_to_map_to_list, (cached_stored _ _ _ _ Hc).
    - intros a Ha. apply Hout. intros ([[a' i] slots] & -> & Hp)%list_elem_of_fmap.
      apply Hin in Hp as [Hp%is_persistent_travels (st & Hc & _)]. destruct Ha as [Ha|Ha]; [by apply Ha|].
      cbn [fst] in Ha. by rewrite Hc in Ha. }
  destruct (forks m !! key) as [target|] eqn:Et.
  - destruct (apply_persistent_spec ps (slot_db target) w Hnd Hsl) as (db' & Hf & Hcp & Hout).
    rewrite Hf. split; [done|]. unfold selected; simpl. rewrite lookup_insert_eq, Et.
    split; [done|]. split; [eauto|]. split; [intros k Hk; by rewrite lookup_insert_ne|].
    intros old' slot Ho [= <-]. assert (old' = old) as -> by congruence. split; [done|]. by apply Hcopy.
  - pose proof (create_fork_error key cfg ps m w) as He.
    destruct (create_fork key cfg ps (m, w)) as [r [m' w']] eqn:Hrun. split; [done|].
    apply create_fork_spec in Hrun as (_ & _ & Hrun). destruct r as [[]|e|p]; [|done..].
    destruct Hrun as (Ha & Hs & Hk & Hcp). split; [done|]. split; [done|]. split; [done|].
    intros old' slot Ho Hslot. assert (old' = old) as -> by congruence. rewrite Et.
    destruct (Hcp Hnd Hsl) as (slot' & db0 & Hslot' & Hb & Hc & Hout). assert (slot' = slot) as -> by congruence.
    exists db0. split; [done|]. by apply Hcopy.
Qed.

(** C13: Selecting a fork keeps the multi-fork database well formed: on success
    the requested fork exists and is the active one, whichever fork was active
    before; on an error the active fork and every fork stay exactly as they
    were; and the missing-fork error of the lookups and a panic never occur. *)
Theorem fork_keeps_active u block config registry d (w : W) r d' w' :
  db_ok d -> fork u block config registry (d, w) = (r, (d', w')) ->
  db_ok d' /\
  (forall env, r = DOk env -> is_active_fork u block d' = true) /\
  (forall e, r = DErr e ->
     match d, d' with
     | Multi m, Multi m' => active m' = active m /\ forks m' = forks m
     | Empty db, Empty db' => db' = db
     | _, _ => False
     end) /\
  own_error r.
Proof.
  intros Hok. unfold fork. set (key := mkForkKey (url_hash u) block). set (cfg := config_for u block config).
  destruct d as [empty|m]; simpl in Hok.
  - pose proof (create_fork_error key cfg (collect_cached_accounts empty) (mkMultiForkDB key ∅ ∅ registry) w) as He.
    destruct (create_fork key cfg _ (mkMultiForkDB key ∅ ∅ registry, w)) as [r0 [m' w1]] eqn:Hrun.
    apply create_fork_spec in Hrun as (_ & _ & Hrun). simpl in He. destruct He as [He1 He2].
    destruct r0 as [[]|e|p]; [|intros [= <- <- <-]; split; [done|]; split; [done|]; split; [done|];
      split; [naive_solver|done]|by edestruct He2].
    destruct Hrun as (Ha & [slot Hs] & _). unfold env_of. rewrite Hs. intros [= <- <- <-].
    split; [rewrite <- Ha in Hs; by exists slot|]. split; [|done]. intros env _. simpl.
    apply bool_decide_eq_true. split; [done|]. by exists slot.
  - destruct (decide (active m = key /\ is_Some (forks m !! key))) as [[Ha [slot Hs]]|Hno].
    { unfold env_of. rewrite Hs. intros [= <- <- <-]. split; [done|]. split; [|done].
      intros env _. simpl. apply bool_decide_eq_true. split; [done|]. by exists slot. }
    pose proof (select_or_create_spec key cfg m w Hok) as Hsel.
    destruct (select_or_create key cfg (m, w)) as [r0 [m' w1]].
    destruct Hsel as [He Hsel]. destruct He as [He1 He2]. destruct r0 as [[]|e|p]; [| |by edestruct He2].
    + destruct Hsel as (Ha & [slot Hs] & _). unfold env_of. rewrite Ha, Hs. intros [= <- <- <-].
      split; [simpl; unfold multi_ok; rewrite Ha; by exists slot|]. split; [|done].
      intros env _. simpl. apply bool_decide_eq_true. split; [done|]. by exists slot.
    + destruct Hsel as [Ha Hf]. intros [= <- <- <-]. split; [simpl; unfold multi_ok; by rewrite Ha, Hf|].
      split; [done|]. split; [done|]. split; [naive_solver|done].
Qed.

(** The accounts of a fork before the switch to it: those it had or, when it is
    new, the beneficiary of its block. *)
Definition base_of key env m : gmap Address (Info * gmap U256 U256) :=
  match forks m !! key with
  | Some target => cached (slot_db target)
  | None => {[env_beneficiary env := (stored coinbase_info, ∅)]}
  end.

(** C20: Switching forks moves the harness and nothing else: after a successful
    switch every other fork, the one left behind included, is exactly as it
    was; and the accounts of the selected fork are exactly those it had, or the
    beneficiary of its block when it is new, with every cached account of the
    left fork that is local, the deployer or the cheatcode address put over
    them: its info replaces the one there and its cached slots are written over
    the slots there. A fork selected again keeps its environment. *)
Theorem fork_switch_copies `{!NewForkLaws D Info Bk W} u block config registry m (w : W) env m' w' old :
  multi_ok m -> forks m !! active m = Some old ->
  fork u block config registry (Multi m, w) = (DOk env, (Multi m' : Database E D Bk, w')) ->
  let key := mkForkKey (url_hash u) block in
  exists slot, forks m' !! key = Some slot /\ slot_env slot = env /\
    (forall k, k <> key -> forks m' !! k = forks m !! k) /\
    copied m old (base_of key env m) slot /\
    (forall target, forks m !! key = Some target -> slot_env target = env).
Proof.
  intros Hok Hold. unfold fork. set (key := mkForkKey (url_hash u) block).
  set (cfg := config_for u block config). unfold base_of.
  destruct (decide (active m = key /\ is_Some (forks m !! key))) as [[Ha [slot Hs]]|Hno].
  - unfold env_of. rewrite Hs. intros [= <- <- <-]. exists slot. split; [done|]. split; [done|].
    split; [done|]. assert (old = slot) as -> by congruence. split; [|intros target Ht; congruence]. split.
    + intros a i st _ Hc. unfold slots_at. by rewrite Hc, (map_union_idemp st).
    + done.
  - pose proof (select_or_create_spec key cfg m w Hok) as [_ Hsel].
    destruct (select_or_create key cfg (m, w)) as [[[]|e|p] [m1 w1]]; [|done..].
    destruct Hsel as (Ha & [slot Hs] & Hk & Hcp). unfold env_of. rewrite Ha, Hs. intros [= <- <- <-].
    exists slot. split; [done|]. split; [done|]. split; [done|].
    specialize (Hcp old slot Hold Hs). destruct (forks m !! key) as [target|].
    + destruct Hcp as [He Hc]. split; [done|]. intros ? [= <-]. done.
    + destruct Hcp as (db0 & Hb & Hc). rewrite <- (built_cached db0 _ Hb). by split.
Qed.
End Fork_theorems.

(** ** A small world for the witnesses: accounts are numbers with slots, and a
    backend answers any request *)
Module ToyDatabase.
Import ToyFork ToyForks.

Abbreviation Accounts := (gmap Address (Z * gmap U256 U256)).

#[export] Instance cache : CacheDB Accounts Z unit := {
  cached d := d;
  insert_account_info a i d := <[a := (i, match d !! a with Some (_, st) => st | None => ∅ end)]> d;
  insert_account_storage a k v d w :=
    match d !! a with
    | Some (i, st) => (ROk tt, <[a := (i, <[k := v]> st)]> d, w)
    | None => (ROk tt, <[a := (0, {[k := v]})]> d, w)
    end;
  basic a d w := (ROk (fst <$> d !! a), d, w);
  storage a k d w := (ROk (default 0 (d !! a ≫= fun e => e.2 !! k)), d, w);
  commit changes d := map_imap (fun a e => Some (default e.1 (changes !! a), e.2)) d;
}.

#[export] Instance cache_laws : CacheDBLaws Accounts Z unit.
Proof.
  refine {| stored i := i |}; simpl; try done.
  intros a k v d w i st Hc. rewrite Hc. eexists. split; reflexivity.
Defined.

#[export] Instance backends : Backends Z unit := {
  backend_new c w := (Rpc.block_number c, w);
  backend_fetch _ reqs w := (ROk (map answer reqs), w);
  backend_stats _ _ := mkRpcStats 1 2 3;
}.

#[export] Instance backends_laws : BackendsLaws Z unit.
Proof. by split. Qed.

#[export] Instance new_fork : NewFork Accounts Z Z := {
  cache_new _ _ := ∅;
  cache_block_hash _ _ d := d;
  coinbase_info := 0;
}.

#[export] Instance new_fork_laws : NewForkLaws Accounts Z Z unit.
Proof. by split. Qed.

#[export] Instance keccak : Keccak := { keccak256 s := [Z.of_nat (String.length s)] }.

Definition config : ForkDBConfig := config_new "" 1.

(** The sandbox holds the deployer with one slot; the first fork is taken at
    block 7 of a first endpoint. *)
Definition sandbox : Accounts := {[DEFAULT_DEPLOYER := (5, {[1 := 2]})]}.
Definition first : DbRes ForkEnv * (Database Accounts Accounts Z * unit) :=
  fork (E := Accounts) (D := Accounts) (Bk := Z) "a" 7 config ∅ (Empty sandbox, tt).
Definition multi1 : MultiForkDB Accounts Z :=
  match first.2.1 with Multi m => m | Empty _ => mkMultiForkDB (mkForkKey 0 0) ∅ ∅ ∅ end.
Definition second : DbRes ForkEnv * (Database Accounts Accounts Z * unit) :=
  fork (E := Accounts) (D := Accounts) (Bk := Z) "bb" 9 config ∅ (Multi multi1, tt).
End ToyDatabase.

Import ToyFork ToyForks ToyDatabase.

Lemma fork_keeps_active_witness : is_active_fork "a" 7 first.2.1 = true.
Proof.
  assert (Hok : match first.1 with DOk _ => true | _ => false end = true) by (vm_compute; reflexivity).
  destruct first as [r [d' w']] eqn:Hrun. unfold first in Hrun.
  destruct (fork_keeps_active "a" 7 config ∅ (Empty sandbox) tt r d' w' I Hrun) as (_ & Hact & _).
  destruct r as [env|e|p]; [by apply (Hact env)|discriminate Hok..].
Defined.

(** The sandbox's deployer moves to the new fork, and nothing but it and the
    beneficiary of the block is there. *)
Lemma fork_switch_copies_witness :
  exists slot, forks (match second.2.1 with Multi m => m | Empty _ => multi1 end)
      !! mkForkKey (url_hash "bb") 9 = Some slot /\
    cached (slot_db slot) !! DEFAULT_DEPLOYER = Some (5, {[1 := 2]} ∪ slots_at (base_of (mkForkKey (url_hash "bb") 9) (slot_env slot) multi1) DEFAULT_DEPLOYER) /\
    cached (slot_db slot) !! 77 = base_of (mkForkKey (url_hash "bb") 9) (slot_env slot) multi1 !! 77.
Proof.
  assert (Hok : match second with (DOk _, (Multi _, _)) => true | _ => false end = true)
    by (vm_compute; reflexivity).
  assert (Hdep : (fun s => cached (slot_db s) !! DEFAULT_DEPLOYER) <$> forks multi1 !! active multi1
    = Some (Some (5, {[1 := 2]}))) by (vm_compute; reflexivity).
  assert (Hno : (fun s => cached (slot_db s) !! 77) <$> forks multi1 !! active multi1 = Some None) by (vm_compute; reflexivity).
  destruct second as [[env|e|p] [[db|m'] w']] eqn:Hrun; try discriminate Hok.
  destruct (forks multi1 !! active multi1) as [old|] eqn:Hold; [|discriminate Hdep].
  destruct (fork_switch_copies "bb" 9 config ∅ multi1 tt env m' w' old) as (slot & Hs & He & _ & [Hc Hout] & _);
    [by exists old|exact Hold|exact Hrun|].
  exists slot. rewrite He. injection Hdep as Hdep. injection Hno as Hno.
  split; [exact Hs|]. split; [apply Hc; [right; left; reflexivity|exact Hdep]|]. apply Hout. right. exact Hno.
Defined.
