(* ===== verification/Literal.v ===== *)
(** * Literal: the constants of the harness (src/tester/corpus/literal.rs)

    Walks the compiler's syntax tree and collects the literal values by kind;
    integers and fixed bytes are stored at every width they fit. The tree is
    the data type of the compiler's output as far as the walk looks at it. *)
From S2P Require Import Prelude.
From S2P Require Import Env.

(** ** The syntax tree *)
Inductive LiteralKind : Type := KBool | KNumber | KString | KHexString | KUnicodeString.

Record Literal : Type := mkLiteral {
  kind : LiteralKind;
  value : option string;
  hex_value : option string;
  subdenomination : option string;
}.

Inductive Expression : Type :=
| ELiteral (l : Literal)
| EAssignment (lhs rhs : Expression)
| EBinaryOperation (l r : Expression)
| EConditional (c t f : Expression)
| EFunctionCall (call : FunctionCall)
| EIndexAccess (base : Expression) (index : option Expression)
| EIndexRangeAccess (base : Expression) (start stop : option Expression)
| EMemberAccess (e : Expression)
| ETupleExpression (components : list (option Expression))
| EUnaryOperation (e : Expression)
| EExpressionStatement (e : Expression)
| EVariableDeclarationStatement (init : option Expression)
| EOther
with FunctionCall : Type :=
| mkFunctionCall (callee : Callee) (arguments : list Expression)
with Callee : Type :=
| CFunctionCall (call : FunctionCall)
| CMemberAccess (e : Expression)
| CNewExpression
| CFunctionCallOptions (e : Expression) (options : list Expression)
| COther.

Inductive Statement : Type :=
| SExpression (e : Expression)
| SReturn (e : option Expression)
| SIf (condition : Expression) (true_body : Statement) (false_body : option Statement)
| SFor (init : option Expression) (condition : Expression) (loop : option Expression) (body : Statement)
| SWhile (condition : Expression) (body : Statement)
| SDoWhile (condition : Expression) (body : Statement)
| SVariableDeclaration (init : option Expression)
| SBlock (statements : list Statement)
| SUncheckedBlock (statements : list Statement)
| SEmit (call : FunctionCall)
| SOther.

(** A member of a source unit or of a contract. *)
Inductive Member : Type :=
| MFunction (body : option (list Statement))
| MVariable (init : option Expression)
| MContract (members : list Member)
| MOther.

(** ** Text

    [U256::from_str_radix] and [U256::from_str]; a [u64] in decimal. *)
Class NumberText : Type := {
  from_str_radix : string -> Z -> option U256;
  u256_from_str : string -> option U256;
  u64_from_str : string -> option Z;
}.

Class NumberTextLaws `{NumberText} : Prop := {
  from_str_radix_range : forall s r u, from_str_radix s r = Some u -> in_u256 u;
  u256_from_str_range : forall s u, u256_from_str s = Some u -> in_u256 u;
}.

Definition is_space (a : ascii) : bool :=
  let n := nat_of_ascii a in ((9 <=? n) && (n <=? 13) || (n =? 32))%nat.

Fixpoint trim_start (s : string) : string :=
  match s with String a s' => if is_space a then trim_start s' else s | EmptyString => s end.

Fixpoint trim_end (s : string) : string :=
  match s with
  | EmptyString => EmptyString
  | String a s' =>
      match trim_end s' with
      | EmptyString => if is_space a then EmptyString else String a EmptyString
      | t => String a t
      end
  end.

Definition trim (s : string) : string := trim_end (trim_start s).

(** [str::split_once] at the first character that satisfies [P]. *)
Fixpoint split_once (P : ascii -> bool) (s : string) : option (string * string) :=
  match s with
  | EmptyString => None
  | String a s' =>
      if P a then Some ("", s')
      else match split_once P s' with Some (p, q) => Some (String a p, q) | None => None end
  end.

Definition is_dot (a : ascii) : bool := Ascii.eqb a ".".
Definition is_exponent (a : ascii) : bool := Ascii.eqb a "e" || Ascii.eqb a "E".

(** ** Numbers

    The arithmetic of [U256] wraps; its division panics on zero. *)
Definition pow10 (n : Z) : U256 := wrap 256 (10 ^ n).

Definition u256_div (a b : U256) : Res U256 :=
  if b =? 0 then Panic "attempt to divide by zero" else Ok (a / b).

Section Numbers.
Context `{NumberText}.

Definition parse_number_literal (val : string) : Res (option U256) :=
  let trimmed := trim val in
  if starts_with "0x" trimmed || starts_with "0X" trimmed then
    Ok (from_str_radix (String.substring 2 (String.length trimmed) trimmed) 16)
  else
    match split_once is_exponent trimmed with
    | Some (base, exp) =>
        match u64_from_str exp with
        | None => Ok None
        | Some exp =>
            let parts :=
              match split_once is_dot base with
              | Some (whole, frac) =>
                  whole_u ← u256_from_str whole;
                  frac_u ← u256_from_str frac;
                  let frac_len := Z.of_nat (String.length frac) in
                  Some (wrap 256 (wrap 256 (whole_u * pow10 frac_len) + frac_u), frac_len)
              | None => base_u ← u256_from_str base; Some (base_u, 0)
              end in
            match parts with
            | None => Ok None
            | Some (base_val, frac_len) =>
                let num := wrap 256 (base_val * pow10 exp) in
                q ← u256_div num (pow10 frac_len); Ok (Some q)
            end
        end
    | None => Ok (from_str_radix trimmed 10)
    end.

Definition factor_of (sub : string) : option Z :=
  if String.eqb sub "wei" then Some 1
  else if String.eqb sub "gwei" then Some 1000000000
  else if String.eqb sub "ether" then Some 1000000000000000000
  else if String.eqb sub "seconds" then Some 1
  else if String.eqb sub "minutes" then Some 60
  else if String.eqb sub "hours" then Some 3600
  else if String.eqb sub "days" then Some 86400
  else if String.eqb sub "weeks" then Some 604800
  else None.

Definition apply_subdenomination (val sub : string) : Res (option U256) :=
  match factor_of sub with
  | None => Ok None
  | Some factor =>
      match split_once is_dot val with
      | Some (whole, frac) =>
          match u256_from_str whole, u256_from_str frac with
          | Some whole_u, Some frac_u =>
              let pow := pow10 (Z.of_nat (String.length frac)) in
              let base := wrap 256 (wrap 256 (whole_u * pow) + frac_u) in
              q ← u256_div (wrap 256 (base * factor)) pow; Ok (Some q)
          | _, _ => Ok None
          end
      | None =>
          Ok (base ← u256_from_str val; Some (wrap 256 (base * factor)))
      end
  end.

(** [a.or(b)] *)
Definition or_ {A} (a b : option A) : option A := match a with Some _ => a | None => b end.

Definition parse_literal_number (lit : Literal) : Res (option U256) :=
  match (match kind lit with
         | KHexString => or_ (hex_value lit) (value lit)
         | _ => or_ (value lit) (hex_value lit)
         end) with
  | None => Ok None
  | Some val =>
      match subdenomination lit with
      | Some sub => apply_subdenomination val sub
      | None => parse_number_literal val
      end
  end.
End Numbers.

(** ** The pools *)
Record LiteralExtractor : Type := mkExtractor {
  bools : list bool;
  uints : gmap Z (list U256);
  ints : gmap Z (list Z);
  fixed : gmap Z (list U256);
  addresses : list Address;
  byte_strings : list Bytes;
  strings : list string;
}.

Definition extractor_new : LiteralExtractor := mkExtractor [] ∅ ∅ ∅ [] [] [].

Definition pool (m : gmap Z (list Z)) (k : Z) : list Z := default [] (m !! k).
Definition uint (self : LiteralExtractor) (bits : Z) : list U256 := pool (uints self) bits.
Definition int (self : LiteralExtractor) (bits : Z) : list Z := pool (ints self) bits.
Definition fixed_bytes (self : LiteralExtractor) (size : Z) : list U256 := pool (fixed self) size.

(** [m.entry(k).or_default().push(v)] for every [k] of a list *)
Definition push_at (v : Z) (m : gmap Z (list Z)) (k : Z) : gmap Z (list Z) := <[k := pool m k ++ [v]]> m.

(** [(lo..=256).step_by(8)] *)
Definition widths_from (lo : Z) : list Z :=
  map (fun i => lo + 8 * Z.of_nat i) (seq 0 (Z.to_nat ((256 - lo) / 8 + 1))).

(** [x.div_ceil(8) * 8] *)
Definition round8 (x : Z) : Z := (x + 7) / 8 * 8.

Definition push_uint (v : U256) (m : gmap Z (list Z)) : gmap Z (list Z) :=
  foldl (push_at v) m (widths_from (Z.max (round8 (bit_len v)) 8)).

Definition int_min_bits (v : Z) : Z :=
  if v =? 0 then 8
  else
    let magnitude_bits := bit_len (Z.abs v) in
    if 0 <? v then round8 (magnitude_bits + 1)
    else if Z.abs v =? 2 ^ Z.log2 (Z.abs v) then round8 magnitude_bits
    else round8 (magnitude_bits + 1).

Definition push_int (v : Z) (m : gmap Z (list Z)) : gmap Z (list Z) :=
  foldl (push_at v) m (widths_from (Z.min (Z.max (int_min_bits v) 8) 256)).

Definition push_fixed_bytes (v : U256) (min_size : nat) (m : gmap Z (list Z)) : gmap Z (list Z) :=
  foldl (push_at v) m (map Z.of_nat (seq min_size (33 - min_size))).

(** ** Byte strings *)
Fixpoint skip_while (P : Z -> bool) (bs : Bytes) : Bytes :=
  match bs with b :: bs' => if P b then skip_while P bs' else bs | [] => [] end.

Definition u256_to_be_bytes_trimmed (u : U256) : Bytes :=
  match skip_while (Z.eqb 0) (be_bytes 32 u) with [] => [0] | bs => bs end.

Definition take_count (P : Z -> bool) (bs : Bytes) : nat := length bs - length (skip_while P bs).

Definition i256_to_be_bytes_trimmed (v : Z) : Bytes :=
  if v =? 0 then [0]
  else
    let raw := be_bytes 32 (wrap 256 v) in
    if v <? 0 then
      let leading_ones := take_count (Z.eqb 255) raw in
      let start :=
        if (leading_ones =? 32)%nat then 31%nat
        else if default 0 (raw !! leading_ones) <? 128 then (leading_ones - 1)%nat
        else leading_ones in
      drop start raw
    else drop (take_count (Z.eqb 0) raw) raw.

(** ** One literal *)
Definition push_bytes (bs : Bytes) (out : LiteralExtractor) : LiteralExtractor :=
  mkExtractor (bools out) (uints out) (ints out) (fixed out) (addresses out)
    (byte_strings out ++ [bs]) (strings out).
Definition push_address (a : Address) (out : LiteralExtractor) : LiteralExtractor :=
  mkExtractor (bools out) (uints out) (ints out) (fixed out) (addresses out ++ [a])
    (byte_strings out) (strings out).
Definition push_string (s : string) (out : LiteralExtractor) : LiteralExtractor :=
  mkExtractor (bools out) (uints out) (ints out) (fixed out) (addresses out)
    (byte_strings out) (strings out ++ [s]).
Definition push_bool (b : bool) (out : LiteralExtractor) : LiteralExtractor :=
  mkExtractor (bools out ++ [b]) (uints out) (ints out) (fixed out) (addresses out)
    (byte_strings out) (strings out).
Definition with_uints (m : gmap Z (list U256)) (out : LiteralExtractor) : LiteralExtractor :=
  mkExtractor (bools out) m (ints out) (fixed out) (addresses out) (byte_strings out) (strings out).
Definition with_ints (m : gmap Z (list Z)) (out : LiteralExtractor) : LiteralExtractor :=
  mkExtractor (bools out) (uints out) m (fixed out) (addresses out) (byte_strings out) (strings out).
Definition with_fixed (m : gmap Z (list U256)) (out : LiteralExtractor) : LiteralExtractor :=
  mkExtractor (bools out) (uints out) (ints out) m (addresses out) (byte_strings out) (strings out).

(** The signed readings of a number: itself and its negation, when it fits. *)
Definition push_signed (u : U256) (out : LiteralExtractor) : LiteralExtractor :=
  if u <? 2 ^ 255 then
    push_bytes (i256_to_be_bytes_trimmed (- u))
      (push_bytes (i256_to_be_bytes_trimmed u)
        (with_ints (push_int (- u) (push_int u (ints out))) out))
  else out.

Definition extract_number (u : U256) (out : LiteralExtractor) : LiteralExtractor :=
  let out :=
    if forallb (Z.eqb 0) (take 12 (be_bytes 32 u)) then
      push_bytes (drop 12 (be_bytes 32 u)) (push_address (be_number (drop 12 (be_bytes 32 u))) out)
    else out in
  let out := with_uints (push_uint u (uints out)) out in
  let out := push_bytes (u256_to_be_bytes_trimmed u) out in
  let out := push_signed u out in
  let leading_zeros := take_count (Z.eqb 0) (be_bytes 32 u) in
  let min_size := Nat.max (32 - leading_zeros) 1 in
  let out := with_fixed (push_fixed_bytes u min_size (fixed out)) out in
  push_bytes (u256_to_be_bytes_trimmed u) out.

Definition extract_hex_string (bytes : Bytes) (out : LiteralExtractor) : LiteralExtractor :=
  let out := push_bytes bytes out in
  let out :=
    if (length bytes =? 20)%nat then push_bytes bytes (push_address (be_number bytes) out) else out in
  if (length bytes <=? 32)%nat then
    let u := be_number bytes in
    let out := with_fixed (push_fixed_bytes u (Nat.max (length bytes) 1) (fixed out)) out in
    let out := push_bytes (bytes ++ repeat 0 (32 - length bytes)) out in
    let out := with_uints (push_uint u (uints out)) out in
    let out := push_bytes (u256_to_be_bytes_trimmed u) out in
    push_signed u out
  else out.

Definition bytes_of_string (s : string) : Bytes :=
  map (fun a => Z.of_nat (nat_of_ascii a)) (String.list_ascii_of_string s).

Section Walk.
Context `{NumberText} `{Text}.

Definition extract_literal (lit : Literal) (out : LiteralExtractor) : Res LiteralExtractor :=
  match kind lit with
  | KBool =>
      match or_ (value lit) (hex_value lit) with
      | Some v => Ok (push_bool (String.eqb v "true") out)
      | None => Ok out
      end
  | KNumber =>
      n ← parse_literal_number lit;
      Ok (match n with Some u => extract_number u out | None => out end)
  | KString | KUnicodeString =>
      match or_ (value lit) (hex_value lit) with
      | Some v => Ok (push_bytes (bytes_of_string v) (push_string v out))
      | None => Ok out
      end
  | KHexString =>
      match or_ (hex_value lit) (value lit) with
      | Some v =>
          match hex_decode v with
          | Ok bytes => Ok (extract_hex_string bytes out)
          | _ => Ok out
          end
      | None => Ok out
      end
  end.

(** ** The walk *)
Section Lists.
Context {A : Type} (visit : A -> LiteralExtractor -> Res LiteralExtractor).
Definition visit_option (o : option A) (out : LiteralExtractor) : Res LiteralExtractor :=
  match o with Some a => visit a out | None => Ok out end.
Fixpoint visit_list (l : list A) (out : LiteralExtractor) : Res LiteralExtractor :=
  match l with [] => Ok out | a :: l' => out ← visit a out; visit_list l' out end.
End Lists.

Fixpoint visit_expression (e : Expression) (out : LiteralExtractor) : Res LiteralExtractor :=
  match e with
  | ELiteral lit => extract_literal lit out
  | EAssignment l r | EBinaryOperation l r =>
      out ← visit_expression l out; visit_expression r out
  | EConditional c t f =>
      out ← visit_expression c out; out ← visit_expression t out; visit_expression f out
  | EFunctionCall call => visit_function_call call out
  | EIndexAccess base index =>
      out ← visit_expression base out; visit_option visit_expression index out
  | EIndexRangeAccess base start _ =>
      out ← visit_expression base out; visit_option visit_expression start out
  | EMemberAccess e' | EUnaryOperation e' | EExpressionStatement e' => visit_expression e' out
  | ETupleExpression components => visit_list (visit_option visit_expression) components out
  | EVariableDeclarationStatement init => visit_option visit_expression init out
  | EOther => Ok out
  end
with visit_function_call (call : FunctionCall) (out : LiteralExtractor) : Res LiteralExtractor :=
  match call with
  | mkFunctionCall callee arguments =>
      out ← visit_function_call_expression callee out;
      visit_list visit_expression arguments out
  end
with visit_function_call_expression (callee : Callee) (out : LiteralExtractor) : Res LiteralExtractor :=
  match callee with
  | CFunctionCall call => visit_function_call call out
  | CMemberAccess e => visit_expression e out
  | CNewExpression => Ok out
  | CFunctionCallOptions e options =>
      out ← visit_expression e out; visit_list visit_expression options out
  | COther => Ok out
  end.

Fixpoint visit_statement (s : Statement) (out : LiteralExtractor) : Res LiteralExtractor :=
  match s with
  | SExpression e => visit_expression e out
  | SReturn e => visit_option visit_expression e out
  | SIf condition true_body false_body =>
      out ← visit_expression condition out;
      out ← visit_statement true_body out;
      visit_option visit_statement false_body out
  | SFor init condition loop body =>
      out ← visit_option visit_expression init out;
      out ← visit_expression condition out;
      out ← visit_option visit_expression loop out;
      visit_statement body out
  | SWhile condition body => out ← visit_expression condition out; visit_statement body out
  | SDoWhile condition body => out ← visit_statement body out; visit_expression condition out
  | SVariableDeclaration init => visit_option visit_expression init out
  | SBlock statements | SUncheckedBlock statements => visit_list visit_statement statements out
  | SEmit call => visit_function_call call out
  | SOther => Ok out
  end.

Definition visit_block (statements : list Statement) (out : LiteralExtractor) : Res LiteralExtractor :=
  visit_list visit_statement statements out.

(** The members of a contract; a contract inside a contract is not visited. *)
Definition visit_contract_member (m : Member) (out : LiteralExtractor) : Res LiteralExtractor :=
  match m with
  | MFunction body => visit_option visit_block body out
  | MVariable init => visit_option visit_expression init out
  | MContract _ | MOther => Ok out
  end.

Definition visit_source_member (m : Member) (out : LiteralExtractor) : Res LiteralExtractor :=
  match m with
  | MContract members => visit_list visit_contract_member members out
  | _ => visit_contract_member m out
  end.

(** A source may come without a tree. *)
Definition from_output (sources : list (option (list Member))) : Res LiteralExtractor :=
  visit_list (visit_option (visit_list visit_source_member)) sources extractor_new.
End Walk.

(** ** Widths *)
Lemma pool_push_at v m k k' : pool (push_at v m k) k' = pool m k' ++ (if decide (k' = k) then [v] else []).
Proof.
  unfold pool, push_at. destruct (decide (k' = k)) as [->|Hne].
  - by rewrite lookup_insert_eq.
  - by rewrite lookup_insert_ne, app_nil_r.
Qed.

Lemma pool_push_all v ks m k :
  NoDup ks -> pool (foldl (push_at v) m ks) k = pool m k ++ (if decide (k ∈ ks) then [v] else []).
Proof.
  revert m. induction ks as [|k0 ks IH]; intros m Hnd; cbn [foldl].
  - rewrite decide_False by set_solver. by rewrite app_nil_r.
  - apply NoDup_cons in Hnd as [Hk0 Hnd]. rewrite IH, pool_push_at by done.
    destruct (decide (k = k0)) as [->|Hne].
    + rewrite decide_False by done. rewrite decide_True by set_solver. by rewrite app_nil_r.
    + rewrite app_nil_r. f_equal. destruct (decide (k ∈ ks)).
      * by rewrite decide_True by set_solver.
      * by rewrite decide_False by set_solver.
Qed.

(** A width of the integer types. *)
Definition is_width (bits : Z) : Prop := 8 <= bits <= 256 /\ bits mod 8 = 0.

Lemma widths_from_nodup lo : NoDup (widths_from lo).
Proof.
  unfold widths_from. change (map ?f ?l) with (f <$> l).
  apply NoDup_fmap_2; [intros x y; lia|apply NoDup_seq].
Qed.

Lemma elem_of_widths_from lo k :
  is_width lo -> k ∈ widths_from lo <-> is_width k /\ lo <= k.
Proof.
  unfold is_width. intros [Hlo Hm]. unfold widths_from. rewrite list_elem_of_fmap.
  setoid_rewrite elem_of_seq. pose proof (Z.div_mod (256 - lo) 8).
  pose proof (Z.mod_pos_bound (256 - lo) 8). pose proof (Z.div_mod lo 8). split.
  - intros (i & -> & Hi). split; [split; [lia|]|lia].
    rewrite Z.add_mod, Hm by lia. rewrite (Z.mul_comm 8), Z.mod_mul by lia. done.
  - intros [[Hk Hmk] Hle]. pose proof (Z.div_mod k 8).
    exists (Z.to_nat ((k - lo) / 8)).
    assert (Hd : (k - lo) / 8 = k / 8 - lo / 8).
    { replace (k - lo) with ((k / 8 - lo / 8) * 8) by lia. by rewrite Z.div_mul. }
    rewrite Hd. split; lia.
Qed.

Lemma round8_le x bits : bits mod 8 = 0 -> round8 x <= bits <-> x <= bits.
Proof.
  unfold round8. intros Hb. pose proof (Z.div_mod bits 8). pose proof (Z.div_mod (x + 7) 8).
  pose proof (Z.mod_pos_bound (x + 7) 8). lia.
Qed.

Lemma round8_mod x : round8 x mod 8 = 0.
Proof. apply Z.mod_mul. lia. Qed.

Lemma bit_len_le v bits : 0 <= v -> 0 <= bits -> bit_len v <= bits <-> v < 2 ^ bits.
Proof.
  intros Hv Hb. unfold bit_len. destruct (Z.eqb_spec v 0) as [->|Hne].
  - pose proof (Z.pow_pos_nonneg 2 bits). lia.
  - rewrite Z.log2_lt_pow2 by lia. lia.
Qed.

(** What fits an integer type and a fixed-size byte string. *)
Definition fits_uint (bits v : Z) : Prop := 0 <= v < 2 ^ bits.
Definition fits_int (bits v : Z) : Prop := - 2 ^ (bits - 1) <= v < 2 ^ (bits - 1).

Lemma uint_min_bits v bits :
  0 <= v -> is_width bits -> Z.max (round8 (bit_len v)) 8 <= bits <-> fits_uint bits v.
Proof.
  intros Hv [Hb Hm]. unfold fits_uint. pose proof (bit_len_le v bits Hv). pose proof (round8_le (bit_len v) bits Hm). lia.
Qed.

(** The minimal signed width: a negative power of two needs no extra bit. *)
Lemma int_min_bits_spec v bits :
  is_width bits -> int_min_bits v <= bits <-> fits_int bits v.
Proof.
  intros [Hb Hm]. unfold int_min_bits, fits_int. pose proof (Z.pow_pos_nonneg 2 (bits - 1)).
  destruct (Z.eqb_spec v 0) as [->|Hne]; [lia|].
  pose proof (bit_len_le (Z.abs v) (bits - 1) ltac:(lia) ltac:(lia)) as Hlen.
  destruct (Z.ltb_spec 0 v) as [Hpos|Hneg].
  - rewrite round8_le by done. rewrite Z.abs_eq in * by lia. lia.
  - destruct (Z.eqb_spec (Z.abs v) (2 ^ Z.log2 (Z.abs v))) as [Hp|Hp]; rewrite round8_le by done.
    + unfold bit_len in *. destruct (Z.eqb_spec (Z.abs v) 0); [lia|].
      assert (Hlog : Z.log2 (Z.abs v) <= bits - 1 <-> 2 ^ Z.log2 (Z.abs v) <= 2 ^ (bits - 1)).
      { apply Z.pow_le_mono_r_iff; [lia|]. lia. }
      lia.
    + assert (Z.abs v <> 2 ^ (bits - 1)).
      { intros Heq. apply Hp. rewrite Heq, Z.log2_pow2 by lia. done. }
      lia.
Qed.

(** Every two's complement value fits 256 bits, so the clamp never applies. *)
Lemma int_min_bits_range v :
  - 2 ^ 255 <= v < 2 ^ 255 -> is_width (int_min_bits v).
Proof.
  intros Hv. assert (H256 : int_min_bits v <= 256) by (apply int_min_bits_spec; [split; [lia|done]|exact Hv]).
  unfold is_width. split; [split; [|done]|].
  - unfold int_min_bits, round8, bit_len in *. repeat case_match; try lia;
      pose proof (Z.log2_nonneg (Z.abs v)); pose proof (Z.div_mod (Z.log2 (Z.abs v) + 1 + 7) 8);
      pose proof (Z.div_mod (Z.log2 (Z.abs v) + 1 + 1 + 7) 8);
      pose proof (Z.mod_pos_bound (Z.log2 (Z.abs v) + 1 + 7) 8);
      pose proof (Z.mod_pos_bound (Z.log2 (Z.abs v) + 1 + 1 + 7) 8); lia.
  - unfold int_min_bits. repeat case_match; first [done|apply round8_mod].
Qed.

(** A literal is stored at exactly the widths it fits, once each: an
    unsigned value in the pools of all widths of at least its bit length, a
    signed one in those of all widths whose two's complement range holds it
    (the minimum of a width included), and the pools of other widths are left
    as they were. *)
Theorem literal_widths_exact v m bits :
  is_width bits ->
  (0 <= v < 2 ^ 256 ->
     pool (push_uint v m) bits = pool m bits ++ (if decide (v < 2 ^ bits) then [v] else [])) /\
  (- 2 ^ 255 <= v < 2 ^ 255 ->
     pool (push_int v m) bits =
       pool m bits ++ (if decide (- 2 ^ (bits - 1) <= v < 2 ^ (bits - 1)) then [v] else [])).
Proof.
  intros Hb. split; intros Hv.
  - unfold push_uint. rewrite pool_push_all by apply widths_from_nodup. f_equal.
    assert (Hw : is_width (Z.max (round8 (bit_len v)) 8)).
    { assert (Z.max (round8 (bit_len v)) 8 <= 256) by (apply uint_min_bits; [lia|split; [lia|done]|done]).
      split; [lia|]. destruct (Z.max_spec (round8 (bit_len v)) 8) as [[_ ->]|[_ ->]]; [done|apply round8_mod]. }
    assert (Hin : bits ∈ widths_from (Z.max (round8 (bit_len v)) 8) <-> v < 2 ^ bits).
    { rewrite elem_of_widths_from by done. rewrite uint_min_bits by (try done; lia). unfold fits_uint. intuition lia. }
    destruct (decide (bits ∈ _)), (decide (v < 2 ^ bits)); tauto.
  - unfold push_int. rewrite pool_push_all by apply widths_from_nodup. f_equal.
    pose proof (int_min_bits_range v Hv) as Hw. destruct Hw as [Hr Hmod].
    rewrite Z.max_l, Z.min_l by lia.
    assert (Hin : bits ∈ widths_from (int_min_bits v) <-> - 2 ^ (bits - 1) <= v < 2 ^ (bits - 1)).
    { rewrite elem_of_widths_from by (by split). rewrite int_min_bits_spec by done. unfold fits_int. tauto. }
    destruct (decide (bits ∈ _)), (decide (- 2 ^ (bits - 1) <= v < 2 ^ (bits - 1))); tauto.
Qed.

(** ** Bytes of a word *)
Lemma skip_while_suffix P bs : exists pre, bs = pre ++ skip_while P bs /\ Forall (fun b => P b = true) pre.
Proof.
  induction bs as [|b bs (pre & Heq & HF)]; simpl; [by exists []|].
  destruct (P b) eqn:E; [|by exists []]. exists (b :: pre). split; [by rewrite Heq at 1|by constructor].
Qed.

Lemma be_number_app_zeros pre bs :
  Forall (fun b => (0 =? b) = true) pre -> be_number (pre ++ bs) = be_number bs.
Proof.
  induction 1 as [|b pre Hb _ IH]; [done|]. apply Z.eqb_eq in Hb as <-. unfold be_number in *. simpl. exact IH.
Qed.

Lemma skip_zeros_number bs : be_number (skip_while (Z.eqb 0) bs) = be_number bs.
Proof.
  destruct (skip_while_suffix (Z.eqb 0) bs) as (pre & Heq & HF). rewrite Heq at 2.
  symmetry. by apply be_number_app_zeros.
Qed.

Lemma skip_while_ok P bs : Forall byte_ok bs -> Forall byte_ok (skip_while P bs).
Proof.
  intros Hb. destruct (skip_while_suffix P bs) as (pre & Heq & _). rewrite Heq in Hb.
  by apply Forall_app in Hb as [_ ?].
Qed.

(** The trimmed bytes of a word read back as the word, without a leading zero
    byte unless the word is zero. *)
Lemma u256_trimmed_number u : in_u256 u -> be_number (u256_to_be_bytes_trimmed u) = u.
Proof.
  unfold in_u256, u256_max. intros Hu. unfold u256_to_be_bytes_trimmed.
  pose proof (skip_zeros_number (be_bytes 32 u)) as Hs.
  rewrite be_number_bytes in Hs by (change (256 ^ Z.of_nat 32) with (2 ^ 256); lia).
  destruct (skip_while _ _); [|done]. unfold be_number in *. simpl in *. lia.
Qed.

(** ** Well-formed pools *)
Definition pool_all (P : Z -> Z -> Prop) (m : gmap Z (list Z)) : Prop := forall k v, v ∈ pool m k -> P k v.

Record extractor_ok (out : LiteralExtractor) : Prop := {
  ok_uints : pool_all (fun bits v => is_width bits /\ fits_uint bits v) (uints out);
  ok_ints : pool_all (fun bits v => is_width bits /\ fits_int bits v) (ints out);
  ok_fixed : pool_all (fun size v => 1 <= size <= 32 /\ 0 <= v < 2 ^ (8 * size)) (fixed out);
  ok_addresses : Forall (fun a => 0 <= a <= address_max) (addresses out);
  ok_bytes : Forall (Forall byte_ok) (byte_strings out);
}.

Lemma pool_all_push P v ks m :
  NoDup ks -> (forall k, k ∈ ks -> P k v) -> pool_all P m -> pool_all P (foldl (push_at v) m ks).
Proof.
  intros Hnd Hks Hm k w. rewrite pool_push_all by done. rewrite elem_of_app.
  intros [Hw|Hw]; [by apply Hm|]. destruct (decide (k ∈ ks)); [|by apply not_elem_of_nil in Hw].
  apply list_elem_of_singleton in Hw as ->. by apply Hks.
Qed.

Lemma pool_all_empty P : pool_all P ∅.
Proof. intros k v. unfold pool. rewrite lookup_empty. simpl. by intros ?%not_elem_of_nil. Qed.

Lemma push_uint_ok u m :
  in_u256 u -> pool_all (fun bits v => is_width bits /\ fits_uint bits v) m ->
  pool_all (fun bits v => is_width bits /\ fits_uint bits v) (push_uint u m).
Proof.
  unfold in_u256, u256_max. intros Hu Hm.
  apply (pool_all_push (fun bits v => is_width bits /\ fits_uint bits v)); [apply widths_from_nodup| |done].
  intros k Hk.
  assert (Hw : is_width (Z.max (round8 (bit_len u)) 8)).
  { assert (Z.max (round8 (bit_len u)) 8 <= 256) by
      (apply uint_min_bits; [lia|split; [lia|done]|unfold fits_uint; lia]).
    split; [lia|]. destruct (Z.max_spec (round8 (bit_len u)) 8) as [[_ ->]|[_ ->]]; [done|apply round8_mod]. }
  apply elem_of_widths_from in Hk as [Hk Hle]; [|done]. split; [done|]. apply uint_min_bits; [lia|done|done].
Qed.

Lemma push_int_ok i m :
  - 2 ^ 255 <= i < 2 ^ 255 -> pool_all (fun bits v => is_width bits /\ fits_int bits v) m ->
  pool_all (fun bits v => is_width bits /\ fits_int bits v) (push_int i m).
Proof.
  intros Hi Hm. pose proof (int_min_bits_range i Hi) as [Hr Hmod].
  unfold push_int. rewrite Z.max_l, Z.min_l by lia.
  apply (pool_all_push (fun bits v => is_width bits /\ fits_int bits v)); [apply widths_from_nodup| |done]. intros k Hk.
  apply elem_of_widths_from in Hk as [Hk Hle]; [|by split]. split; [done|]. by apply int_min_bits_spec.
Qed.

Lemma push_fixed_ok u n m :
  (1 <= n)%nat -> 0 <= u < 2 ^ (8 * Z.of_nat n) ->
  pool_all (fun size v => 1 <= size <= 32 /\ 0 <= v < 2 ^ (8 * size)) m ->
  pool_all (fun size v => 1 <= size <= 32 /\ 0 <= v < 2 ^ (8 * size)) (push_fixed_bytes u n m).
Proof.
  intros Hn Hu Hm.
  apply (pool_all_push (fun size v => 1 <= size <= 32 /\ 0 <= v < 2 ^ (8 * size))); [| |done].
  - change (map ?f ?l) with (f <$> l). apply NoDup_fmap_2; [intros x y; lia|apply NoDup_seq].
  - intros k (s & -> & Hs%elem_of_seq)%list_elem_of_fmap. split; [lia|]. split; [lia|].
    eapply Z.lt_le_trans; [apply Hu|]. apply Z.pow_le_mono_r; lia.
Qed.

Lemma i256_trimmed_ok i : Forall byte_ok (i256_to_be_bytes_trimmed i).
Proof.
  assert (Hd : forall n, Forall byte_ok (drop n (be_bytes 32 (wrap 256 i))))
    by (intros n; apply Forall_drop, be_bytes_ok).
  unfold i256_to_be_bytes_trimmed. destruct (i =? 0); [constructor; [unfold byte_ok; lia|constructor]|].
  destruct (i <? 0); apply Hd.
Qed.

Lemma u256_trimmed_ok u : Forall byte_ok (u256_to_be_bytes_trimmed u).
Proof.
  unfold u256_to_be_bytes_trimmed. pose proof (skip_while_ok (Z.eqb 0) _ (be_bytes_ok 32 u)).
  destruct (skip_while _ _); [constructor; [unfold byte_ok; lia|constructor]|done].
Qed.

Lemma push_bytes_ok bs out : Forall byte_ok bs -> extractor_ok out -> extractor_ok (push_bytes bs out).
Proof. intros Hb []. split; try done. simpl. apply Forall_app. split; [done|]. by constructor. Qed.

Lemma push_address_ok a out : 0 <= a <= address_max -> extractor_ok out -> extractor_ok (push_address a out).
Proof. intros Ha []. split; try done. simpl. apply Forall_app. split; [done|]. by constructor. Qed.

Lemma push_signed_ok u out : in_u256 u -> extractor_ok out -> extractor_ok (push_signed u out).
Proof.
  unfold in_u256. intros Hu Ho. unfold push_signed. destruct (Z.ltb_spec u (2 ^ 255)); [|done].
  do 2 (apply push_bytes_ok; [apply i256_trimmed_ok|]). destruct Ho. split; try done. simpl.
  apply push_int_ok; [lia|]. apply push_int_ok; [lia|done].
Qed.

Lemma with_uints_ok u out : in_u256 u -> extractor_ok out -> extractor_ok (with_uints (push_uint u (uints out)) out).
Proof. intros Hu []. split; try done. by apply push_uint_ok. Qed.

Lemma with_fixed_ok u n out :
  (1 <= n)%nat -> 0 <= u < 2 ^ (8 * Z.of_nat n) -> extractor_ok out ->
  extractor_ok (with_fixed (push_fixed_bytes u n (fixed out)) out).
Proof. intros Hn Hu []. split; try done. by apply push_fixed_ok. Qed.

Lemma pow256 n : 256 ^ Z.of_nat n = 2 ^ (8 * Z.of_nat n).
Proof. rewrite Z.pow_mul_r by lia. done. Qed.

(** The bytes after the leading zeros hold the number. *)
Lemma min_size_fits u n :
  in_u256 u -> n = Nat.max (32 - take_count (Z.eqb 0) (be_bytes 32 u)) 1 ->
  (1 <= n)%nat /\ 0 <= u < 2 ^ (8 * Z.of_nat n).
Proof.
  unfold in_u256, u256_max. intros Hu ->. split; [lia|].
  pose proof (skip_zeros_number (be_bytes 32 u)) as Hs.
  rewrite be_number_bytes in Hs by (change (256 ^ Z.of_nat 32) with (2 ^ 256); lia).
  pose proof (be_number_range _ (skip_while_ok (Z.eqb 0) _ (be_bytes_ok 32 u))) as Hr. rewrite Hs, pow256 in Hr.
  split; [lia|]. eapply Z.lt_le_trans; [apply Hr|]. apply Z.pow_le_mono_r; [lia|].
  unfold take_count. rewrite be_bytes_length.
  destruct (skip_while_suffix (Z.eqb 0) (be_bytes 32 u)) as (pre & Heq & _).
  apply (f_equal length) in Heq. rewrite length_app, be_bytes_length in Heq. lia.
Qed.

Lemma address_of_20 bs : Forall byte_ok bs -> length bs = 20%nat -> 0 <= be_number bs <= address_max.
Proof.
  intros Hb Hl. pose proof (be_number_range bs Hb) as Hr. rewrite Hl in Hr. unfold address_max.
  change (256 ^ Z.of_nat 20) with (2 ^ 160) in Hr. lia.
Qed.

Lemma extract_number_ok u out : in_u256 u -> extractor_ok out -> extractor_ok (extract_number u out).
Proof.
  intros Hu Ho. unfold extract_number. apply push_bytes_ok; [apply u256_trimmed_ok|].
  destruct (min_size_fits u _ Hu eq_refl) as [Hn Hfit].
  apply with_fixed_ok; [done|done|]. apply push_signed_ok; [done|].
  apply push_bytes_ok; [apply u256_trimmed_ok|]. apply with_uints_ok; [done|].
  destruct (forallb _ _); [|done].
  assert (Hd : Forall byte_ok (drop 12 (be_bytes 32 u))) by (apply Forall_drop, be_bytes_ok).
  apply push_bytes_ok; [done|]. apply push_address_ok; [|done]. apply address_of_20; [done|].
  rewrite length_drop, be_bytes_length. done.
Qed.

Lemma extract_hex_string_ok bs out : Forall byte_ok bs -> extractor_ok out -> extractor_ok (extract_hex_string bs out).
Proof.
  intros Hb Ho. unfold extract_hex_string.
  assert (Ho1 : extractor_ok (if (length bs =? 20)%nat
    then push_bytes bs (push_address (be_number bs) (push_bytes bs out)) else push_bytes bs out)).
  { pose proof (push_bytes_ok bs out Hb Ho). destruct (Nat.eqb_spec (length bs) 20); [|done].
    apply push_bytes_ok; [done|]. apply push_address_ok; [by apply address_of_20|done]. }
  destruct (Nat.leb_spec (length bs) 32); [|done].
  pose proof (be_number_range bs Hb) as Hr. rewrite pow256 in Hr.
  assert (Hle : 2 ^ (8 * Z.of_nat (length bs)) <= 2 ^ 256) by (apply Z.pow_le_mono_r; lia).
  assert (Hu : in_u256 (be_number bs)) by (unfold in_u256, u256_max; lia).
  apply push_signed_ok; [done|]. apply push_bytes_ok; [apply u256_trimmed_ok|].
  apply with_uints_ok; [done|]. apply push_bytes_ok.
  { apply Forall_app. split; [done|]. apply Forall_forall. intros b Hin.
    apply list_elem_of_In, repeat_spec in Hin as ->. unfold byte_ok. lia. }
  apply with_fixed_ok; [lia| |done]. split; [lia|]. eapply Z.lt_le_trans; [apply Hr|].
  apply Z.pow_le_mono_r; lia.
Qed.

(** ** The walk keeps the pools well formed *)
Class HexBytes `{Text} : Prop := { hex_decode_bytes : forall s bs, hex_decode s = Ok bs -> Forall byte_ok bs }.

Section Walk_lemmas.
Context `{NumberTextLaws} `{HexBytes}.

Lemma wrap256_range z : in_u256 (wrap 256 z).
Proof. unfold in_u256, u256_max, wrap. pose proof (Z.mod_pos_bound z (2 ^ 256)). lia. Qed.

Lemma pow10_nonneg n : 0 <= pow10 n.
Proof. unfold pow10, wrap. apply Z.mod_pos_bound. lia. Qed.

Lemma u256_div_range a b q : in_u256 a -> 0 <= b -> u256_div a b = Ok q -> in_u256 q.
Proof.
  unfold u256_div, in_u256. intros Ha Hb. destruct (Z.eqb_spec b 0); [done|]. intros [= <-].
  split; [apply Z.div_pos; lia|]. pose proof (Z.div_le_upper_bound a b a). nia.
Qed.

Lemma parse_literal_number_range lit u : parse_literal_number lit = Ok (Some u) -> in_u256 u.
Proof.
  unfold parse_literal_number. destruct (match kind lit with KHexString => _ | _ => _ end) as [val|]; [|done].
  destruct (subdenomination lit) as [sub|].
  - unfold apply_subdenomination. destruct (factor_of sub); [|done].
    destruct (split_once is_dot val) as [[whole frac]|].
    + destruct (u256_from_str whole), (u256_from_str frac); try done. intros Hq.
      apply Res_bind_Ok in Hq as (q & Hq & [= <-]). by apply (u256_div_range _ _ _ (wrap256_range _) (pow10_nonneg _) Hq).
    + intros [= Hq]. apply bind_Some in Hq as (b & _ & [= <-]). apply wrap256_range.
  - unfold parse_number_literal. destruct (_ || _); [intros [= Hq]; by eapply from_str_radix_range|].
    destruct (split_once is_exponent (trim val)) as [[base exp]|]; [|intros [= Hq]; by eapply from_str_radix_range].
    destruct (u64_from_str exp); [|done].
    match goal with |- match ?p with _ => _ end = _ -> _ => destruct p as [[b f]|]; [|done] end.
    intros Hq. apply Res_bind_Ok in Hq as (q & Hq & [= <-]).
    by apply (u256_div_range _ _ _ (wrap256_range _) (pow10_nonneg _) Hq).
Qed.

Lemma extract_literal_ok lit out out' : extractor_ok out -> extract_literal lit out = Ok out' -> extractor_ok out'.
Proof.
  intros Ho. unfold extract_literal. destruct (kind lit).
  - destruct (or_ _ _); intros [= <-]; [|done]. by destruct Ho.
  - intros Hn. apply Res_bind_Ok in Hn as ([u|] & Hu & [= <-]); [|done].
    apply extract_number_ok; [by eapply parse_literal_number_range|done].
  - destruct (or_ _ _) as [v|]; intros [= <-]; [|done]. apply push_bytes_ok; [|by destruct Ho].
    apply Forall_forall. intros b (a & -> & _)%list_elem_of_fmap. unfold byte_ok.
    pose proof (Ascii.nat_ascii_bounded a). lia.
  - destruct (or_ _ _) as [v|]; [|by intros [= <-]].
    destruct (hex_decode v) as [bs| |] eqn:Eh; intros [= <-]; [|done..].
    apply extract_hex_string_ok; [by eapply hex_decode_bytes|done].
  - destruct (or_ _ _) as [v|]; intros [= <-]; [|done]. apply push_bytes_ok; [|by destruct Ho].
    apply Forall_forall. intros b (a & -> & _)%list_elem_of_fmap. unfold byte_ok.
    pose proof (Ascii.nat_ascii_bounded a). lia.
Qed.

(** A visitor keeps the pools well formed. *)
Definition keeps {A} (visit : A -> LiteralExtractor -> Res LiteralExtractor) (a : A) : Prop :=
  forall out out', extractor_ok out -> visit a out = Ok out' -> extractor_ok out'.

Lemma keeps_list {A} (visit : A -> LiteralExtractor -> Res LiteralExtractor) l :
  Forall (keeps visit) l -> keeps (visit_list visit) l.
Proof.
  induction 1 as [|a l Ha _ IH]; intros out out' Ho; simpl; [by intros [= <-]|].
  intros (o1 & Hv1 & Hv2)%Res_bind_Ok. eapply IH; [|exact Hv2]. by eapply Ha.
Qed.

Lemma keeps_option {A} (visit : A -> LiteralExtractor -> Res LiteralExtractor) o :
  (forall a, o = Some a -> keeps visit a) -> keeps (visit_option visit) o.
Proof.
  intros Ha out out' Ho. destruct o as [a|]; simpl; [by apply Ha|by intros [= <-]].
Qed.

Fixpoint visit_expression_ok (e : Expression) : keeps visit_expression e
with visit_function_call_ok (c : FunctionCall) : keeps visit_function_call c
with visit_callee_ok (c : Callee) : keeps visit_function_call_expression c.
Proof.
  - destruct e as [lit|l r|l r|c t f|call|b i|b i j|e|cs|e|e|i|]; intros out out' Ho Hrun; cbn in Hrun.
    + by eapply extract_literal_ok.
    + apply Res_bind_Ok in Hrun as (o1 & Hv1 & Hv2).
      exact (visit_expression_ok r _ _ (visit_expression_ok l _ _ Ho Hv1) Hv2).
    + apply Res_bind_Ok in Hrun as (o1 & Hv1 & Hv2).
      exact (visit_expression_ok r _ _ (visit_expression_ok l _ _ Ho Hv1) Hv2).
    + apply Res_bind_Ok in Hrun as (o1 & Hv1 & Hrun). apply Res_bind_Ok in Hrun as (o2 & Hv2 & Hv3).
      exact (visit_expression_ok f _ _ (visit_expression_ok t _ _ (visit_expression_ok c _ _ Ho Hv1) Hv2) Hv3).
    + exact (visit_function_call_ok call _ _ Ho Hrun).
    + apply Res_bind_Ok in Hrun as (o1 & Hv1 & Hv2). pose proof (visit_expression_ok b _ _ Ho Hv1) as Ho1.
      destruct i as [i|]; [exact (visit_expression_ok i _ _ Ho1 Hv2)|by injection Hv2 as <-].
    + apply Res_bind_Ok in Hrun as (o1 & Hv1 & Hv2). pose proof (visit_expression_ok b _ _ Ho Hv1) as Ho1.
      destruct i as [i|]; [exact (visit_expression_ok i _ _ Ho1 Hv2)|by injection Hv2 as <-].
    + exact (visit_expression_ok e _ _ Ho Hrun).
    + revert out Ho Hrun. induction cs as [|[c|] cs IHcs]; intros out Ho Hrun; cbn in Hrun.
      * by injection Hrun as <-.
      * apply Res_bind_Ok in Hrun as (o1 & Hv1 & Hv2). exact (IHcs _ (visit_expression_ok c _ _ Ho Hv1) Hv2).
      * exact (IHcs _ Ho Hrun).
    + exact (visit_expression_ok e _ _ Ho Hrun).
    + exact (visit_expression_ok e _ _ Ho Hrun).
    + destruct i as [i|]; [exact (visit_expression_ok i _ _ Ho Hrun)|by injection Hrun as <-].
    + by injection Hrun as <-.
  - destruct c as [callee arguments]; intros out out' Ho Hrun; cbn in Hrun.
    apply Res_bind_Ok in Hrun as (o1 & Hv1 & Hrun). pose proof (visit_callee_ok callee _ _ Ho Hv1) as Ho1.
    clear Hv1 Ho. revert o1 Ho1 Hrun. induction arguments as [|a l IHl]; intros o1 Ho1 Hrun; cbn in Hrun.
    + by injection Hrun as <-.
    + apply Res_bind_Ok in Hrun as (o2 & Hv1 & Hv2). exact (IHl _ (visit_expression_ok a _ _ Ho1 Hv1) Hv2).
  - destruct c as [call|e| |e opts|]; intros out out' Ho Hrun; cbn in Hrun.
    + exact (visit_function_call_ok call _ _ Ho Hrun).
    + exact (visit_expression_ok e _ _ Ho Hrun).
    + by injection Hrun as <-.
    + apply Res_bind_Ok in Hrun as (o1 & Hv1 & Hrun). pose proof (visit_expression_ok e _ _ Ho Hv1) as Ho1.
      clear Hv1 Ho. revert o1 Ho1 Hrun. induction opts as [|a l IHl]; intros o1 Ho1 Hrun; cbn in Hrun.
      * by injection Hrun as <-.
      * apply Res_bind_Ok in Hrun as (o2 & Hv1 & Hv2). exact (IHl _ (visit_expression_ok a _ _ Ho1 Hv1) Hv2).
    + by injection Hrun as <-.
Qed.

Lemma visit_option_expression_ok o : keeps (visit_option visit_expression) o.
Proof. apply keeps_option. intros e _. apply visit_expression_ok. Qed.

Fixpoint visit_statement_ok (s : Statement) : keeps visit_statement s.
Proof.
  destruct s as [e|e|c t f|i c l b|c b|c b|i|ss|ss|call|]; intros out out' Ho Hrun; cbn [visit_statement] in Hrun.
  - by eapply visit_expression_ok.
  - by eapply visit_option_expression_ok.
  - apply Res_bind_Ok in Hrun as (o1 & Hv1 & Hrun). apply Res_bind_Ok in Hrun as (o2 & Hv2 & Hv3).
    pose proof (visit_statement_ok t _ _ (visit_expression_ok c _ _ Ho Hv1) Hv2) as Ho2.
    destruct f as [f|]; [exact (visit_statement_ok f _ _ Ho2 Hv3)|by injection Hv3 as <-].
  - apply Res_bind_Ok in Hrun as (o1 & Hv1 & Hrun). apply Res_bind_Ok in Hrun as (o2 & Hv2 & Hrun).
    apply Res_bind_Ok in Hrun as (o3 & Hv3 & Hv4).
    exact (visit_statement_ok b _ _ (visit_option_expression_ok l _ _
      (visit_expression_ok c _ _ (visit_option_expression_ok i _ _ Ho Hv1) Hv2) Hv3) Hv4).
  - apply Res_bind_Ok in Hrun as (o1 & Hv1 & Hv2).
    exact (visit_statement_ok b _ _ (visit_expression_ok c _ _ Ho Hv1) Hv2).
  - apply Res_bind_Ok in Hrun as (o1 & Hv1 & Hv2).
    exact (visit_expression_ok c _ _ (visit_statement_ok b _ _ Ho Hv1) Hv2).
  - by eapply visit_option_expression_ok.
  - revert out Ho Hrun. induction ss as [|s ss IHss]; intros out Ho Hrun; cbn in Hrun; [by injection Hrun as <-|].
    apply Res_bind_Ok in Hrun as (o1 & Hv1 & Hv2). exact (IHss _ (visit_statement_ok s _ _ Ho Hv1) Hv2).
  - revert out Ho Hrun. induction ss as [|s ss IHss]; intros out Ho Hrun; cbn in Hrun; [by injection Hrun as <-|].
    apply Res_bind_Ok in Hrun as (o1 & Hv1 & Hv2). exact (IHss _ (visit_statement_ok s _ _ Ho Hv1) Hv2).
  - by eapply visit_function_call_ok.
  - by injection Hrun as <-.
Qed.

Lemma visit_contract_member_ok m : keeps visit_contract_member m.
Proof.
  destruct m as [body|init|ms|]; intros out out' Ho Hrun; simpl in Hrun; try by injection Hrun as <-.
  - eapply (keeps_option visit_block); [|exact Ho|exact Hrun]. intros ss _.
    apply keeps_list, Forall_forall. intros s _. apply visit_statement_ok.
  - by eapply visit_option_expression_ok.
Qed.

Lemma visit_source_member_ok m : keeps visit_source_member m.
Proof.
  destruct m as [body|init|ms|]; try apply visit_contract_member_ok.
  apply keeps_list, Forall_forall. intros m _. apply visit_contract_member_ok.
Qed.

(** C24: Whatever the sources are, extraction leaves only usable literals: every
    unsigned and signed literal fits the width of its pool, every fixed-bytes
    literal the size of its pool, every address 160 bits, and every byte string
    is made of bytes. *)
Theorem from_output_usable sources out : from_output sources = Ok out -> extractor_ok out.
Proof.
  apply (keeps_list (visit_option (visit_list visit_source_member)) sources).
  - apply Forall_forall. intros o _. apply keeps_option. intros ms _.
    apply keeps_list, Forall_forall. intros m _. apply visit_source_member_ok.
  - split; simpl; try apply pool_all_empty; constructor.
Qed.
End Walk_lemmas.

(** ** What the extraction leaves out *)

(** The unit of a literal is applied before its exponent is understood: with
    both, the literal is dropped, the parser of integers not accepting an
    exponent. *)
Lemma exponent_with_unit_dropped `{NumberText} v sub :
  split_once is_dot v = None -> u256_from_str v = None ->
  is_Some (factor_of sub) ->
  parse_literal_number (mkLiteral KNumber (Some v) None (Some sub)) = Ok None.
Proof.
  intros Hd Hv [f Hf]. unfold parse_literal_number, apply_subdenomination. simpl. by rewrite Hf, Hd, Hv.
Qed.

(** The negation of a literal of 2^255 or more is never stored, not even the
    least signed integer, which fits. *)
Lemma large_literal_not_negated u out : 2 ^ 255 <= u -> ints (extract_number u out) = ints out.
Proof.
  intros Hu. unfold extract_number, push_signed. rewrite (proj2 (Z.ltb_ge u (2 ^ 255))) by done.
  cbv zeta. by destruct (forallb _ _).
Qed.

(** The end of an index range is not visited. *)
Lemma range_end_not_visited `{NumberText} `{Text} base start stop stop' out :
  visit_expression (EIndexRangeAccess base start stop) out =
  visit_expression (EIndexRangeAccess base start stop') out.
Proof. reflexivity. Qed.

(** ** Witnesses: decimal digits *)
Module ToyLiteral.
Definition is_decimal (a : ascii) : bool :=
  let n := nat_of_ascii a in ((48 <=? n) && (n <=? 57))%nat.
Definition decimal (s : string) : option Z :=
  if str_all is_decimal s && negb (String.eqb s "") then Some (wrap 256 (read_digits 10 0 s)) else None.

#[export] Instance numbers : NumberText := {
  from_str_radix s _ := decimal s;
  u256_from_str := decimal;
  u64_from_str s := option_map (wrap 64) (decimal s);
}.

#[export] Instance numbers_laws : NumberTextLaws.
Proof.
  assert (Hd : forall s u, decimal s = Some u -> in_u256 u).
  { intros s u. unfold decimal. destruct (_ && _); [|done]. intros [= <-]. apply wrap256_range. }
  split; [intros s r u; apply Hd|intros s u; apply Hd].
Qed.

#[export] Instance no_hex : Text := {
  u256_to_string _ := ""; u256_parse _ := Err ""; hex_encode _ := ""; hex_decode _ := Ok [171];
}.

#[export] Instance no_hex_bytes : HexBytes.
Proof. split. intros s bs [= <-]. constructor; [unfold byte_ok; lia|constructor]. Qed.

(** [return x > 1.5 gwei ? f(300) : hex"ab";] *)
Definition source : list (option (list Member)) :=
  [Some [MContract [MFunction (Some [SReturn (Some (EConditional
     (EBinaryOperation EOther (ELiteral (mkLiteral KNumber (Some "1.5") None (Some "gwei"))))
     (EFunctionCall (mkFunctionCall COther [ELiteral (mkLiteral KNumber (Some "300") None None)]))
     (ELiteral (mkLiteral KHexString None (Some "ab") None))))])]]; None].

Definition extracted : LiteralExtractor :=
  match from_output source with Ok out => out | _ => extractor_new end.
End ToyLiteral.

Import ToyLiteral.

Lemma literal_widths_exact_witness :
  pool (push_uint 300 ∅) 16 = pool ∅ 16 ++ (if decide (300 < 2 ^ 16) then [300] else []) /\
  pool (push_int (-128) ∅) 8 = pool ∅ 8 ++ (if decide (- 2 ^ (8 - 1) <= -128 < 2 ^ (8 - 1)) then [-128] else []).
Proof.
  assert (Hw16 : is_width 16) by (split; [lia|reflexivity]).
  assert (Hw8 : is_width 8) by (split; [lia|reflexivity]).
  assert (H300 : 0 <= 300 < 2 ^ 256) by lia.
  assert (H128 : - 2 ^ 255 <= -128 < 2 ^ 255) by lia.
  split; [exact (proj1 (literal_widths_exact 300 ∅ 16 Hw16) H300)
         |exact (proj2 (literal_widths_exact (-128) ∅ 8 Hw8) H128)].
Defined.

Lemma extracted_eq : from_output source = Ok extracted.
Proof. vm_cast_no_check (eq_refl (from_output source)). Qed.

Lemma extracted_gwei : bool_decide (1500000000 ∈ uint extracted 32) = true.
Proof. vm_cast_no_check (eq_refl true). Qed.

Lemma from_output_usable_witness :
  bool_decide (1500000000 ∈ uint extracted 32) = true /\ extractor_ok extracted.
Proof. split; [exact extracted_gwei|exact (from_output_usable source extracted extracted_eq)]. Defined.
