(* ===== verification/Rvg.v ===== *)
(** * Rvg: argument values of the tester (src/tester/corpus/rvg.rs)

    Generates a value for an ABI type from the random number generator and the
    pools of literals: a literal one time in five, an edge case three times in
    ten, a uniform value otherwise. *)
From S2P Require Import Prelude.
From S2P Require Import Env.
From S2P Require Import Call.
From S2P Require Import Literal.

(** ** Bit patterns *)
Definition u256_add (a b : U256) : U256 := wrap 256 (a + b).
Definition u256_sub (a b : U256) : U256 := wrap 256 (a - b).
Definition u256_shl (a n : Z) : U256 := wrap 256 (Z.shiftl a n).

Definition max_for_bits (bits : Z) : U256 :=
  if bits =? 0 then 0
  else if 256 <=? bits then u256_max
  else u256_sub (u256_shl 1 bits) 1.

Definition max_positive_for_bits (bits : Z) : U256 :=
  if bits =? 0 then 0
  else if 256 <=? bits then u256_sub (u256_shl 1 255) 1
  else u256_sub (u256_shl 1 (bits - 1)) 1.

Definition sign_bit (bits : Z) : U256 :=
  if bits =? 0 then 0
  else if 256 <=? bits then u256_shl 1 255
  else u256_shl 1 (bits - 1).

Definition mask (bits : Z) : U256 := max_for_bits bits.

Definition sign_extend (raw : U256) (bits : Z) : Z :=
  if bits =? 0 then 0
  else
    let m := mask bits in
    let v := Z.land raw m in
    if 256 <=? bits then I256_from_raw v
    else if Z.land v (sign_bit bits) =? 0 then I256_from_raw v
    else I256_from_raw (Z.lor v (Z.lxor u256_max m)).

Section Generator.
Context {R : Type} `{FastRand R}.
Variable literals : LiteralExtractor.

(** [self.pick(&items)] *)
Definition pick {A} (items : list A) : M R (option A) :=
  match items with [] => mret None | _ => x ← draw_item items; mret (Some x) end.

(** The mix every kind uses. *)
Definition mixed {A} (literal : M R (option A)) (edge uniform : M R A) : M R A :=
  roll ← draw 0 99;
  if roll <? 20 then o ← literal; match o with Some v => mret v | None => uniform end
  else if roll <? 50 then edge
  else uniform.

(** [match self.rng.u32(0..n)] over the given arms *)
Definition one_of {A} (arms : list (Res A)) : M R A :=
  i ← draw 0 (Z.of_nat (length arms) - 1); lift (vec_index arms (Z.to_nat i) ≫= fun r => r).

Definition when {A} (c : A -> bool) (o : M R (option A)) : M R (option A) :=
  x ← o; mret (match x with Some v => if c v then Some v else None | None => None end).

Definition gen_uint (bits : Z) : M R U256 :=
  let max := max_for_bits bits in
  mixed (when (fun v => v <=? max) (pick (uint literals bits)))
    (one_of [Ok 0; Ok 1; Ok max; Ok (sat_sub max 1); Ok (sat_sub max 2); Ok (sat_sub max 3)])
    (bs ← draw_fill 32;
     let raw := be_number bs in
     mret (if bits =? 256 then raw else Z.land raw max)).

Definition gen_int (bits : Z) : M R Z :=
  let min := sign_extend (sign_bit bits) bits in
  let max_positive := I256_from_raw (max_positive_for_bits bits) in
  mixed (when (fun v => (min <=? v) && (v <=? max_positive)) (pick (int literals bits)))
    (raw ← one_of [Ok (sign_bit bits); Ok (u256_add (sign_bit bits) 1); Ok (mask bits); Ok 0; Ok 1;
                   Ok (u256_sub (max_positive_for_bits bits) 1); Ok (max_positive_for_bits bits)];
     mret (sign_extend raw bits))
    (bs ← draw_fill 32; mret (sign_extend (be_number bs) bits)).

(** [word[..size].fill(0xFF)], [word[size - 1] = b] *)
Definition fill_ff (size : nat) : Res Bytes :=
  if (size <=? 32)%nat then Ok (repeat 255 size ++ repeat 0 (32 - size))
  else Panic "range end index out of range".

Definition fill_last (size : nat) (b : Z) : Res Bytes :=
  word ← fill_ff size;
  match size with O => Panic "attempt to subtract with overflow" | S i => Ok (<[i := b]> word) end.

Definition gen_fixed_bytes (size : nat) : M R Bytes :=
  mixed (v ← pick (fixed_bytes literals (Z.of_nat size));
         mret (option_map (fun v => be_bytes 32 (u256_shl v (256 - 8 * Z.of_nat size))) v))
    (one_of [Ok (repeat 0 32); Ok (1 :: repeat 0 31); fill_ff size; fill_last size 254;
             fill_last size 253; fill_last size 252])
    (draw_fill 32).

Definition gen_address : M R Address :=
  mixed (pick (addresses literals))
    (bs ← one_of [Ok (repeat 0 20); Ok (1 :: repeat 0 19); Ok (repeat 255 20); Ok (repeat 255 19 ++ [254]);
                  Ok (repeat 255 19 ++ [253]); Ok (repeat 255 19 ++ [252])];
     mret (be_number bs))
    (bs ← draw_fill 20; mret (be_number bs)).

Definition gen_bytes : M R Bytes :=
  mixed (pick (byte_strings literals))
    (one_of [Ok []; Ok [1]; Ok [255]; Ok (repeat 255 32); Ok (repeat 255 63); Ok (repeat 255 64)])
    (len ← draw 0 64; draw_fill (Z.to_nat len)).

Definition repeat_char (a : ascii) (n : nat) : string := String.string_of_list_ascii (repeat a n).

Definition gen_string : M R string :=
  mixed (pick (strings literals))
    (one_of [Ok ""; Ok "a"; Ok (repeat_char " " 32); Ok (repeat_char "000" 32);
             Ok (repeat_char "a" 32); Ok (repeat_char "a" 31)])
    (len ← draw 0 32;
     cs ← repeatM (Z.to_nat len) draw_alphabetic;
     mret (String.string_of_list_ascii cs)).

Fixpoint gen_value (ty : DynSolType) : M R DynSolValue :=
  match ty with
  | TBool => b ← draw_bool; mret (VBool b)
  | TUint bits => u ← gen_uint bits; mret (VUint u bits)
  | TInt bits => i ← gen_int bits; mret (VInt i bits)
  | TFixedBytes size => w ← gen_fixed_bytes size; mret (VFixedBytes w size)
  | TAddress => a ← gen_address; mret (VAddress a)
  | TBytes => bs ← gen_bytes; mret (VBytes bs)
  | TString => s ← gen_string; mret (VString s)
  | TFunction => bs ← draw_fill 24; mret (VFunction bs)
  | TArray inner =>
      len ← draw 0 4; vs ← repeatM (Z.to_nat len) (gen_value inner); mret (VArray vs)
  | TFixedArray inner len => vs ← repeatM len (gen_value inner); mret (VFixedArray vs)
  | TTuple types => vs ← mapMM gen_value types; mret (VTuple vs)
  end.
End Generator.

(** ** The values a type has

    A word of a fixed-size byte string of [n] bytes holds them in front of
    zeros, as the ABI asks, or it is a word that the source of randomness
    filled. *)
Definition clean (n : nat) (w : Bytes) : Prop := drop n w = repeat 0 (32 - n).
Definition word_ok (w : Bytes) : Prop := length w = 32%nat /\ Forall byte_ok w.

Section Types.
Context {R : Type} `{FastRand R}.

Definition random_word (w : Bytes) : Prop := exists r r', rng_fill (R := R) 32 r = (w, r').

Fixpoint usable (ty : DynSolType) (v : DynSolValue) {struct ty} : Prop :=
  match ty, v with
  | TBool, VBool _ => True
  | TInt bits, VInt i bits' => bits' = bits /\ fits_int bits i
  | TUint bits, VUint u bits' => bits' = bits /\ fits_uint bits u
  | TFixedBytes n, VFixedBytes w n' => n' = n /\ word_ok w /\ (clean n w \/ random_word w)
  | TAddress, VAddress a => 0 <= a <= address_max
  | TFunction, VFunction f => length f = 24%nat /\ Forall byte_ok f
  | TBytes, VBytes bs => Forall byte_ok bs
  | TString, VString _ => True
  | TArray ty', VArray vs => (length vs <= 4)%nat /\ Forall (usable ty') vs
  | TFixedArray ty' n, VFixedArray vs => length vs = n /\ Forall (usable ty') vs
  | TTuple tys, VTuple vs =>
      (fix go tys vs := match tys, vs with
       | [], [] => True
       | t :: tys', v :: vs' => usable t v /\ go tys' vs'
       | _, _ => False
       end) tys vs
  | _, _ => False
  end.

Lemma usable_tuple ts vs : usable (TTuple ts) (VTuple vs) <-> Forall2 usable ts vs.
Proof.
  simpl. revert vs. induction ts as [|t ts IH]; intros [|v vs]; split; try done.
  - intros Hf. inversion Hf.
  - intros Hf. inversion Hf.
  - intros [??]. constructor; [done|]. by apply IH.
  - intros Hf. inversion Hf; subst. split; [done|]. by apply IH.
Qed.
End Types.

(** ** Bit patterns as numbers *)
Section Patterns.
Lemma pow2_double bits : 1 <= bits -> 2 ^ bits = 2 * 2 ^ (bits - 1).
Proof. intros Hb. rewrite <- Z.pow_succ_r by lia. f_equal. lia. Qed.

Lemma max_for_bits_eq bits : 0 < bits <= 256 -> max_for_bits bits = 2 ^ bits - 1.
Proof.
  intros Hb. unfold max_for_bits, u256_sub, u256_shl. rewrite (proj2 (Z.eqb_neq bits 0)) by lia.
  destruct (Z.leb_spec 256 bits).
  - by replace bits with 256 by lia.
  - rewrite Z.shiftl_1_l. assert (2 ^ bits < 2 ^ 256) by (apply Z.pow_lt_mono_r; lia).
    assert (0 < 2 ^ bits) by (apply Z.pow_pos_nonneg; lia).
    unfold wrap. rewrite (Z.mod_small (2 ^ bits)) by lia. apply Z.mod_small. lia.
Qed.

Lemma sign_bit_eq bits : 0 < bits <= 256 -> sign_bit bits = 2 ^ (bits - 1).
Proof.
  intros Hb. unfold sign_bit, u256_shl. rewrite (proj2 (Z.eqb_neq bits 0)) by lia.
  destruct (Z.leb_spec 256 bits).
  - by replace bits with 256 by lia.
  - rewrite Z.shiftl_1_l. assert (2 ^ (bits - 1) < 2 ^ 256) by (apply Z.pow_lt_mono_r; lia).
    assert (0 < 2 ^ (bits - 1)) by (apply Z.pow_pos_nonneg; lia). apply Z.mod_small. lia.
Qed.

Lemma max_positive_eq bits : 0 < bits <= 256 -> max_positive_for_bits bits = 2 ^ (bits - 1) - 1.
Proof.
  intros Hb. unfold max_positive_for_bits, u256_sub, u256_shl. rewrite (proj2 (Z.eqb_neq bits 0)) by lia.
  destruct (Z.leb_spec 256 bits).
  - by replace bits with 256 by lia.
  - rewrite Z.shiftl_1_l. assert (2 ^ (bits - 1) < 2 ^ 256) by (apply Z.pow_lt_mono_r; lia).
    assert (0 < 2 ^ (bits - 1)) by (apply Z.pow_pos_nonneg; lia).
    unfold wrap. rewrite (Z.mod_small (2 ^ (bits - 1))) by lia. apply Z.mod_small. lia.
Qed.

(** The sign bit of a [bits]-wide value decides which half it is in. *)
Lemma sign_bit_half v n : 0 <= n -> 0 <= v < 2 ^ (n + 1) -> Z.land v (2 ^ n) = (if v <? 2 ^ n then 0 else 2 ^ n).
Proof.
  intros Hn Hv. rewrite Z.pow_add_r in Hv by lia. change (2 ^ 1) with 2 in Hv.
  assert (Hp : 0 < 2 ^ n) by (apply Z.pow_pos_nonneg; lia).
  assert (Hbit : Z.testbit v n = negb (v <? 2 ^ n)).
  { rewrite Z.testbit_odd, Z.shiftr_div_pow2 by lia. destruct (Z.ltb_spec v (2 ^ n)).
    - by rewrite Z.div_small by lia.
    - replace (v / 2 ^ n) with 1; [done|]. apply Z.div_unique with (v - 2 ^ n); lia. }
  apply Z.bits_inj'. intros i Hi. rewrite Z.land_spec, Z.pow2_bits_eqb by lia.
  destruct (Z.eqb_spec n i) as [<-|Hne]; rewrite ?andb_true_r, ?andb_false_r.
  - rewrite Hbit. destruct (v <? 2 ^ n); [by rewrite Z.bits_0|by rewrite Z.pow2_bits_true].
  - destruct (v <? 2 ^ n); [by rewrite Z.bits_0|by rewrite Z.pow2_bits_false].
Qed.

Lemma ones_complement raw bits :
  0 <= bits <= 256 ->
  Z.land raw (Z.ones bits) + (u256_max - Z.ones bits) = Z.lor (Z.land raw (Z.ones bits)) (Z.lxor u256_max (Z.ones bits)).
Proof.
  intros Hb. change u256_max with (Z.ones 256).
  assert (Hd : Z.land (Z.ones bits) (Z.lxor (Z.ones 256) (Z.ones bits)) = 0).
  { apply Z.bits_inj'. intros i Hi. rewrite Z.land_spec, Z.lxor_spec, Z.bits_0.
    destruct (Z.ltb_spec i bits).
    - by rewrite !Z.ones_spec_low by lia.
    - by rewrite (Z.ones_spec_high bits) by lia. }
  assert (Hx : Z.lxor (Z.ones 256) (Z.ones bits) = Z.ones 256 - Z.ones bits).
  { pose proof (Z.add_nocarry_lxor _ _ Hd) as Ha. rewrite (Z.lxor_comm (Z.ones 256)) in Ha.
    rewrite <- Z.lxor_assoc, Z.lxor_nilpotent, Z.lxor_0_l in Ha. rewrite Z.lxor_comm. lia. }
  assert (Hn : Z.land (Z.land raw (Z.ones bits)) (Z.lxor (Z.ones 256) (Z.ones bits)) = 0)
    by (rewrite <- Z.land_assoc, Hd; apply Z.land_0_r).
  rewrite <- Hx, Z.add_nocarry_lxor by exact Hn. by apply Z.lxor_lor.
Qed.

(** Sign extension is the two's complement reading of the low bits. *)
Lemma sign_extend_eq raw bits :
  0 < bits <= 256 ->
  sign_extend raw bits =
    if raw mod 2 ^ bits <? 2 ^ (bits - 1) then raw mod 2 ^ bits else raw mod 2 ^ bits - 2 ^ bits.
Proof.
  intros Hb. unfold sign_extend. rewrite (proj2 (Z.eqb_neq bits 0)) by lia. unfold mask. cbv zeta.
  rewrite max_for_bits_eq, sign_bit_eq by lia.
  assert (Hones : 2 ^ bits - 1 = Z.ones bits) by (rewrite Z.ones_equiv; lia).
  assert (Hp : 0 < 2 ^ (bits - 1)) by (apply Z.pow_pos_nonneg; lia).
  pose proof (pow2_double bits ltac:(lia)) as Hd.
  pose proof (Z.mod_pos_bound raw (2 ^ bits) ltac:(lia)) as Hm.
  assert (Hl : Z.land raw (2 ^ bits - 1) = raw mod 2 ^ bits) by (rewrite Hones; apply Z.land_ones; lia).
  destruct (Z.leb_spec 256 bits).
  - rewrite Hl. replace bits with 256 in * by lia. unfold I256_from_raw. done.
  - rewrite Hl, (sign_bit_half _ (bits - 1)) by (rewrite ?Z.sub_add; lia).
    assert (Hle : 2 ^ bits <= 2 ^ 255) by (apply Z.pow_le_mono_r; lia).
    destruct (Z.ltb_spec (raw mod 2 ^ bits) (2 ^ (bits - 1))).
    + simpl. unfold I256_from_raw. rewrite (proj2 (Z.ltb_lt _ _)) by lia. done.
    + rewrite (proj2 (Z.eqb_neq (2 ^ (bits - 1)) 0)) by lia.
      pose proof (ones_complement raw bits ltac:(lia)) as Hc. rewrite <- Hones, Hl in Hc. rewrite <- Hc.
      unfold I256_from_raw, u256_max. rewrite (proj2 (Z.ltb_ge _ _)) by lia. lia.
Qed.

Lemma sign_extend_fits raw bits : is_width bits -> fits_int bits (sign_extend raw bits).
Proof.
  intros [Hb _]. unfold fits_int. rewrite sign_extend_eq by lia.
  pose proof (pow2_double bits ltac:(lia)) as Hd.
  pose proof (Z.mod_pos_bound raw (2 ^ bits) ltac:(apply Z.pow_pos_nonneg; lia)).
  destruct (Z.ltb_spec (raw mod 2 ^ bits) (2 ^ (bits - 1))); lia.
Qed.

(** The least and the greatest value of a width, which bound the literals. *)
Lemma int_bounds bits :
  is_width bits ->
  sign_extend (sign_bit bits) bits = - 2 ^ (bits - 1) /\
  I256_from_raw (max_positive_for_bits bits) = 2 ^ (bits - 1) - 1.
Proof.
  intros [Hb _]. pose proof (pow2_double bits ltac:(lia)) as Hd.
  assert (Hp : 0 < 2 ^ (bits - 1)) by (apply Z.pow_pos_nonneg; lia). split.
  - rewrite sign_extend_eq, sign_bit_eq by lia. rewrite Z.mod_small by lia.
    rewrite (proj2 (Z.ltb_ge _ _)) by lia. lia.
  - rewrite max_positive_eq by lia. unfold I256_from_raw.
    assert (2 ^ (bits - 1) <= 2 ^ 255) by (apply Z.pow_le_mono_r; lia).
    rewrite (proj2 (Z.ltb_lt _ _)) by lia. done.
Qed.
End Patterns.

(** ** Generated values *)
Section Usable.
Context {R : Type} `{FastRandLaws R}.
Variable literals : LiteralExtractor.
Hypothesis Hpools : extractor_ok literals.

(** A run that returns, with a value that satisfies [P]. *)
Definition gives {A} (P : A -> Prop) (m : M R A) : Prop :=
  forall r, exists a r', m r = (Ok a, r') /\ P a.

Lemma gives_ret {A} (P : A -> Prop) a : P a -> gives P (mret a).
Proof. intros Ha r. by exists a, r. Qed.

Lemma gives_bind {A B} (P : A -> Prop) (Q : B -> Prop) (m : M R A) (f : A -> M R B) :
  gives P m -> (forall a, P a -> gives Q (f a)) -> gives Q (m ≫= f).
Proof.
  intros Hm Hf r. destruct (Hm r) as (a & r1 & Hr & Ha). destruct (Hf a Ha r1) as (b & r2 & Hb & Hq).
  exists b, r2. split; [|done]. by rewrite (M_bind_run _ _ _ _ _ Hr).
Qed.

Lemma gives_weaken {A} (P Q : A -> Prop) (m : M R A) : (forall a, P a -> Q a) -> gives P m -> gives Q m.
Proof. intros HPQ Hm r. destruct (Hm r) as (a & r' & Hr & Ha). eauto. Qed.

Lemma gives_draw lo hi : lo <= hi -> gives (fun z => lo <= z <= hi) (draw lo hi).
Proof.
  intros Hle r. destruct (draw_total lo hi r Hle) as (z & r' & Hr). exists z, r'. split; [done|].
  by eapply draw_Ok.
Qed.

Lemma gives_fill n : gives (fun bs => length bs = n /\ Forall byte_ok bs) (draw_fill n).
Proof.
  intros r. unfold draw_fill. pose proof (rng_fill_length n r). pose proof (rng_fill_bytes n r).
  destruct (rng_fill n r) as [bs r']. by exists bs, r'.
Qed.

Lemma gives_pick {A} (P : A -> Prop) items :
  (forall x, x ∈ items -> P x) -> gives (fun o => forall v, o = Some v -> P v) (pick items).
Proof.
  intros Hi. unfold pick. destruct items as [|x l]; [by apply gives_ret|].
  apply (gives_bind (fun y => y ∈ x :: l)).
  - intros r. destruct (draw_item_total (x :: l) r) as (y & r' & Hr); [done|].
    exists y, r'. split; [done|]. by eapply draw_item_Ok.
  - intros y Hy. apply gives_ret. intros v [= <-]. by apply Hi.
Qed.

Lemma gives_mixed {A} (P : A -> Prop) literal edge uniform :
  gives (fun o => forall v, o = Some v -> P v) literal -> gives P edge -> gives P uniform ->
  gives P (mixed literal edge uniform).
Proof.
  intros Hl He Hu. eapply gives_bind; [apply (gives_draw 0 99); lia|]. intros roll _.
  destruct (roll <? 20); [|by destruct (roll <? 50)].
  eapply gives_bind; [exact Hl|]. intros [v|] Hv; [apply gives_ret; by apply Hv|done].
Qed.

Lemma gives_one_of {A} (P : A -> Prop) arms :
  arms <> [] -> Forall (fun a => exists x, a = Ok x /\ P x) arms -> gives P (one_of (R := R) arms).
Proof.
  intros Hne HF. assert (0 < length arms)%nat by (destruct arms; simpl; [done|lia]).
  eapply gives_bind; [apply (gives_draw 0 (Z.of_nat (length arms) - 1)); lia|]. intros i Hi r. cbv beta in Hi.
  destruct (lookup_lt_is_Some_2 arms (Z.to_nat i)) as [a Ha]; [lia|].
  destruct (proj1 (Forall_lookup _ _) HF _ _ Ha) as (x & -> & Hx). exists x, r. split; [|done].
  unfold lift, vec_index. by rewrite Ha.
Qed.

Lemma gives_repeat {A} (P : A -> Prop) (m : M R A) n :
  gives P m -> gives (fun l => length l = n /\ Forall P l) (repeatM n m).
Proof.
  intros Hm. induction n as [|n IH]; simpl; [by apply gives_ret|].
  eapply gives_bind; [exact Hm|]. intros a Ha. eapply gives_bind; [exact IH|].
  intros l [Hl HF]. apply gives_ret. split; [simpl; lia|by constructor].
Qed.

Lemma gives_map {A B} (P : A -> B -> Prop) (f : A -> M R B) l :
  Forall (fun a => gives (P a) (f a)) l -> gives (Forall2 P l) (mapMM f l).
Proof.
  induction 1 as [|a l Ha _ IH]; simpl; [apply gives_ret; constructor|].
  eapply gives_bind; [exact Ha|]. intros b Hb. eapply gives_bind; [exact IH|].
  intros bs Hbs. apply gives_ret. by constructor.
Qed.

Lemma gen_uint_usable bits : is_width bits -> gives (fits_uint bits) (gen_uint literals bits).
Proof.
  intros Hw. pose proof Hw as [Hb _]. unfold gen_uint, fits_uint. rewrite max_for_bits_eq by lia.
  assert (H8 : 2 ^ 8 <= 2 ^ bits) by (apply Z.pow_le_mono_r; lia). change (2 ^ 8) with 256 in H8.
  apply gives_mixed.
  - unfold when. eapply gives_bind; [apply (gives_pick (fun v => is_width bits /\ fits_uint bits v))|].
    + intros v Hv. by apply (ok_uints _ Hpools).
    + intros [v|] Hv; apply gives_ret; [|done]. destruct (_ <=? _); [|done]. intros w [= <-]. by apply Hv.
  - apply gives_one_of; [done|]. unfold sat_sub.
    repeat (constructor; [eexists; split; [reflexivity|lia]|]). constructor.
  - eapply gives_bind; [apply gives_fill|]. intros bs [Hl Hbs]. apply gives_ret.
    destruct (Z.eqb_spec bits 256) as [->|].
    + pose proof (be_number_range bs Hbs) as Hr. rewrite Hl in Hr. exact Hr.
    + replace (2 ^ bits - 1) with (Z.ones bits) by (rewrite Z.ones_equiv; lia).
      rewrite Z.land_ones by lia. apply Z.mod_pos_bound. lia.
Qed.

Lemma gen_int_usable bits : is_width bits -> gives (fits_int bits) (gen_int literals bits).
Proof.
  intros Hw. unfold gen_int. apply gives_mixed.
  - unfold when. eapply gives_bind; [apply (gives_pick (fun v => is_width bits /\ fits_int bits v))|].
    + intros v Hv. by apply (ok_ints _ Hpools).
    + intros [v|] Hv; apply gives_ret; [|done]. destruct (_ && _); [|done]. intros w [= <-]. by apply Hv.
  - eapply (gives_bind (fun _ => True)).
    + apply gives_one_of; [done|]. repeat (constructor; [by eexists|]). constructor.
    + intros raw _. apply gives_ret. by apply sign_extend_fits.
  - eapply gives_bind; [apply gives_fill|]. intros bs _. apply gives_ret. by apply sign_extend_fits.
Qed.

Lemma repeat_ok b n : 0 <= b < 256 -> Forall byte_ok (repeat b n).
Proof. intros Hb. apply Forall_forall. intros x Hx. by apply list_elem_of_In, repeat_spec in Hx as ->. Qed.

Lemma drop_repeat n m (b : Z) : drop n (repeat b m) = repeat b (m - n).
Proof. revert m. induction n as [|n IH]; intros [|m]; [done..|]. apply IH. Qed.

(** A number shifted up by [m] bytes has [m] zero bytes at its end. *)
Lemma be_bytes_shifted n m x : be_bytes (n + m) (x * 256 ^ Z.of_nat m) = be_bytes n x ++ repeat 0 m.
Proof.
  induction m as [|m IH]; [by rewrite Nat.add_0_r, Z.mul_1_r, app_nil_r|].
  rewrite Nat.add_succ_r, Nat2Z.inj_succ, Z.pow_succ_r by lia. cbn [be_bytes].
  replace (x * (256 * 256 ^ Z.of_nat m)) with (x * 256 ^ Z.of_nat m * 256) by lia.
  rewrite Z.div_mul, Z.mod_mul, IH, <- app_assoc by lia. by rewrite <- repeat_cons.
Qed.

Definition word_of_size (size : nat) (w : Bytes) : Prop := word_ok w /\ clean size w.

Lemma shifted_word size v : (1 <= size <= 32)%nat ->
  word_of_size size (be_bytes 32 (u256_shl v (256 - 8 * Z.of_nat size))).
Proof.
  intros Hs. split; [split; [apply be_bytes_length|apply be_bytes_ok]|]. unfold u256_shl, wrap, clean.
  assert (Hp : 2 ^ (256 - 8 * Z.of_nat size) = 256 ^ Z.of_nat (32 - size)).
  { change 256 with (2 ^ 8) at 2. rewrite <- Z.pow_mul_r by lia. f_equal. lia. }
  assert (Hm : 2 ^ 256 = 256 ^ Z.of_nat size * 256 ^ Z.of_nat (32 - size)).
  { rewrite <- Z.pow_add_r, <- Nat2Z.inj_add by lia. by replace (size + (32 - size))%nat with 32%nat by lia. }
  rewrite Z.shiftl_mul_pow2, Hp, Hm, Z.mul_mod_distr_r by lia.
  replace 32%nat with (size + (32 - size))%nat at 1 by lia. rewrite be_bytes_shifted.
  by rewrite drop_app_length' by (by rewrite be_bytes_length).
Qed.

Lemma fill_ff_ok size : (size <= 32)%nat -> exists w, fill_ff size = Ok w /\ word_of_size size w.
Proof.
  intros Hs. unfold fill_ff. rewrite (proj2 (Nat.leb_le size 32)) by done. eexists. split; [done|].
  split; [split; [rewrite length_app, !repeat_length; lia|apply Forall_app; split; apply repeat_ok; lia]|].
  unfold clean. by rewrite drop_app_length' by (by rewrite repeat_length).
Qed.

Lemma fill_last_ok size b :
  (1 <= size <= 32)%nat -> 0 <= b < 256 -> exists w, fill_last size b = Ok w /\ word_of_size size w.
Proof.
  intros Hs Hb. unfold fill_last. destruct (fill_ff_ok size) as (w & -> & [Hl Hw] & Hc); [lia|].
  destruct size as [|i]; [lia|]. exists (<[i := b]> w). split; [done|]. split; [split|].
  - exact (eq_trans (length_insert w i b) Hl).
  - exact (Forall_insert byte_ok w i b Hw Hb).
  - unfold clean in *. rewrite <- Hc. apply drop_insert_lt. lia.
Qed.

(** The words of a size: their own bytes, or filled at random. *)
Lemma gen_fixed_bytes_usable size : (1 <= size <= 32)%nat ->
  gives (fun w => word_ok w /\ (clean size w \/ random_word (R := R) w)) (gen_fixed_bytes literals size).
Proof.
  intros Hs. assert (Hsized : forall w, word_of_size size w -> word_ok w /\ (clean size w \/ random_word (R := R) w)).
  { intros w [Hw Hc]. auto. }
  unfold gen_fixed_bytes. apply gives_mixed.
  - eapply (gives_bind (fun _ => True)); [apply (gives_weaken (fun o => forall v, o = Some v -> True)); [done|]; by apply gives_pick|].
    intros [v|] _; apply gives_ret; [|done]. intros w Hw. apply Some_inj in Hw. rewrite <- Hw.
    by apply Hsized, shifted_word.
  - apply (gives_weaken (word_of_size size)); [exact Hsized|].
    destruct (fill_ff_ok size) as (w0 & Hf0 & Hw0); [lia|].
    destruct (fill_last_ok size 254) as (w1 & Hf1 & Hw1); [lia..|].
    destruct (fill_last_ok size 253) as (w2 & Hf2 & Hw2); [lia..|].
    destruct (fill_last_ok size 252) as (w3 & Hf3 & Hw3); [lia..|].
    apply gives_one_of; [done|]. rewrite Hf0, Hf1, Hf2, Hf3.
    assert (Hz : word_of_size size (repeat 0 32)).
    { split; [split; [done|apply repeat_ok; lia]|]. unfold clean. apply drop_repeat. }
    assert (Ho : word_of_size size (1 :: repeat 0 31)).
    { split; [split; [done|constructor; [unfold byte_ok; lia|apply repeat_ok; lia]]|]. unfold clean.
      destruct size as [|i]; [lia|]. apply (drop_repeat i 31). }
    repeat (constructor; [by eexists|]). constructor.
  - intros r. destruct (gives_fill 32 r) as (w & r' & Hr & Hl & Hb). exists w, r'. split; [done|].
    split; [by split|]. right. exists r, r'. unfold draw_fill in Hr. destruct (rng_fill 32 r). by simplify_eq.
Qed.

Lemma gen_address_usable : gives (fun a => 0 <= a <= address_max) (gen_address literals).
Proof.
  unfold gen_address. apply gives_mixed.
  - apply gives_pick. apply Forall_forall. exact (ok_addresses _ Hpools).
  - eapply (gives_bind (fun bs => length bs = 20%nat /\ Forall byte_ok bs)).
    + assert (Hl : forall b, 0 <= b < 256 ->
        length (repeat 255 19 ++ [b]) = 20%nat /\ Forall byte_ok (repeat 255 19 ++ [b])).
      { intros b Hb. split; [done|]. apply Forall_app. split; [apply repeat_ok; lia|constructor; [exact Hb|constructor]]. }
      apply gives_one_of; [done|].
      repeat (constructor; [eexists; split; [reflexivity|first
        [apply Hl; lia|split; [done|first [apply repeat_ok; lia|constructor; [unfold byte_ok; lia|apply repeat_ok; lia]]]]]|]).
      constructor.
    + intros bs [Hl Hb]. apply gives_ret. by apply address_of_20.
  - eapply gives_bind; [apply gives_fill|]. intros bs [Hl Hb]. apply gives_ret. by apply address_of_20.
Qed.

Lemma gen_bytes_usable : gives (Forall byte_ok) (gen_bytes literals).
Proof.
  unfold gen_bytes. apply gives_mixed.
  - apply gives_pick. apply Forall_forall. exact (ok_bytes _ Hpools).
  - apply gives_one_of; [done|].
    repeat (constructor; [eexists; split; [reflexivity|first [apply repeat_ok; lia
      |constructor; [unfold byte_ok; lia|constructor]|constructor]]|]). constructor.
  - eapply gives_bind; [apply (gives_draw 0 64); lia|]. intros len _.
    apply (gives_weaken (fun bs => length bs = Z.to_nat len /\ Forall byte_ok bs)); [tauto|apply gives_fill].
Qed.

Lemma gen_string_usable : gives (fun _ => True) (gen_string literals).
Proof.
  unfold gen_string. apply gives_mixed.
  - by apply (gives_pick (fun _ => True)).
  - apply gives_one_of; [done|]. repeat (constructor; [by eexists|]). constructor.
  - eapply gives_bind; [apply (gives_draw 0 32); lia|]. intros len _.
    eapply gives_bind; [apply (gives_repeat (fun _ => True))|by intros; apply gives_ret].
    intros r. unfold draw_alphabetic. destruct (rng_alphabetic r) as [c r']. by exists c, r'.
Qed.

(** The types of a Solidity function: widths are multiples of eight. *)
Fixpoint abi_type (ty : DynSolType) : Prop :=
  match ty with
  | TInt bits | TUint bits => is_width bits
  | TFixedBytes n => (1 <= n <= 32)%nat
  | TArray ty' | TFixedArray ty' _ => abi_type ty'
  | TTuple tys => (fix go tys := match tys with [] => True | t :: tys' => abi_type t /\ go tys' end) tys
  | _ => True
  end.

Lemma abi_type_tuple ts : abi_type (TTuple ts) <-> Forall abi_type ts.
Proof.
  simpl. induction ts as [|t ts IH]; split; try done.
  - intros [??]. constructor; [done|]. by apply IH.
  - intros Hf. inversion Hf; subst. split; [done|]. by apply IH.
Qed.


(** Every literal of a pool is reachable: the range check of its branch never
    refuses one. *)
Lemma literal_in_range bits v :
  is_width bits ->
  (v ∈ uint literals bits -> v <= max_for_bits bits) /\
  (v ∈ int literals bits ->
     sign_extend (sign_bit bits) bits <= v <= I256_from_raw (max_positive_for_bits bits)).
Proof.
  intros Hw. destruct (int_bounds bits Hw) as [-> ->]. split; intros Hv.
  - apply (ok_uints _ Hpools) in Hv as [[Hb _] Hf]. unfold fits_uint in Hf. rewrite max_for_bits_eq by lia. lia.
  - apply (ok_ints _ Hpools) in Hv as [_ Hf]. unfold fits_int in Hf. lia.
Qed.
End Usable.

(** The uniform branch of a fixed-size byte string fills the whole word: the
    bytes after the declared size are random too, which the maximizer's
    generator sets to zero. *)
Import Toy.

Lemma fixed_bytes_dirty_tail :
  exists w r', gen_fixed_bytes extractor_new 4 (R := Z) 199 = (Ok w, r') /\ nth 31 w 0 <> 0.
Proof. eexists _, _. split; [vm_compute; reflexivity|vm_compute; discriminate]. Qed.

Lemma extractor_new_ok : extractor_ok extractor_new.
Proof. split; simpl; try apply pool_all_empty; constructor. Qed.

