(* ===== verification/HarnessId.v ===== *)
(** * HarnessId: the identity of a harness

    Models [cli/harness_id.rs]: a harness is named by its source file and a
    contract, written [path.sol:Name], or [path.sol] alone for the contract
    named as the file. *)
From S2P Require Import Prelude.
From S2P Require Import Paths.

Record HarnessId : Type := mkHarnessId { path : string; name : string }.

#[export] Instance HarnessId_eq_dec : EqDecision HarnessId.
Proof. solve_decision. Defined.

Definition is_sol (p : string) : bool := bool_decide (file_extension p = Some "sol").

Definition try_from (value : string) : Res HarnessId :=
  let trimmed := trim value in
  _ ← ensure (negb (bool_decide (trimmed = ""))) "harness must be non-empty";
  match split_once ":" trimmed with
  | Some (path_str, name) =>
      _ ← ensure (negb (bool_decide (path_str = "")) && negb (bool_decide (name = "")))
            "path and contract name must be non-empty";
      _ ← ensure (negb (has_char ":" name)) "contract name must not contain colon";
      _ ← ensure (is_sol path_str) ("path must end with `.sol`, got `" +:+ path_str +:+ "`");
      mret (mkHarnessId path_str name)
  | None =>
      _ ← ensure (is_sol trimmed)
            ("harness must end with `.sol` (e.g. `src/MyHarness.sol`), got `" +:+ trimmed +:+ "`");
      let stem := default "" (file_stem trimmed) in
      _ ← ensure (negb (bool_decide (stem = ""))) "path and contract name must be non-empty";
      mret (mkHarnessId trimmed stem)
  end.

(** [Display] *)
Definition display (id : HarnessId) : string := path id +:+ String ":" (name id).

(** What parsing guarantees. *)
Record harness_ok (id : HarnessId) : Prop := {
  ok_sol : is_sol (path id) = true;
  ok_path_colon : has_char ":" (path id) = false;
  ok_name : name id <> "";
  ok_name_colon : has_char ":" (name id) = false;
}.

Lemma ensure_Ok c m u : ensure c m = Ok u <-> c = true /\ u = tt.
Proof. unfold ensure. destruct c, u; split; naive_solver. Qed.

Lemma is_sol_nonempty p : is_sol p = true -> p <> "".
Proof. by intros H ->. Qed.

Lemma has_char_components c p x : x ∈ components p -> has_char c p = false -> has_char c x = false.
Proof.
  intros [_ Hx]%list_elem_of_filter. revert x Hx. induction p as [|a p IH]; intros x Hx Hc; simpl in Hx.
  { by apply list_elem_of_singleton in Hx as ->. }
  apply negb_false_iff in Hc. cbn [str_all] in Hc. apply andb_true_iff in Hc as [Ha Hp].
  assert (Hp' : has_char c p = false) by (unfold has_char; by rewrite Hp).
  assert (Hcons : forall h, has_char c h = false -> has_char c (String a h) = false).
  { intros h. unfold has_char. cbn [str_all]. rewrite Ha. done. }
  destruct (Ascii.eqb a "/"); [apply elem_of_cons in Hx as [->|Hx]; [done|by apply IH]|].
  destruct (split_on "/" p) as [|h t] eqn:E; [apply list_elem_of_singleton in Hx as ->; by apply Hcons|].
  apply elem_of_cons in Hx as [->|Hx]; [apply Hcons, IH; [left|done]|apply IH; [by right|done]].
Qed.

Lemma file_stem_no_char c p st : file_stem p = Some st -> has_char c p = false -> has_char c st = false.
Proof.
  unfold file_stem, file_name. destruct (last (components p)) as [x|] eqn:E; [|done]. simpl.
  case_decide; [done|]. simpl. intros [= <-] Hp.
  pose proof (has_char_components c p x (last_elem_of _ _ E) Hp) as Hx.
  destruct (rsplit "." x) as [[[|a s] e]|] eqn:Er; [done| |done].
  apply rsplit_Some in Er as ->. by apply has_char_app_false in Hx.
Qed.

(** Parsing accepts exactly two forms of the trimmed text. *)
Lemma try_from_Ok s id :
  try_from s = Ok id ->
  harness_ok id /\
  (trim s = display id \/ (trim s = path id /\ file_stem (path id) = Some (name id))).
Proof.
  unfold try_from. destruct (split_once ":" (trim s)) as [[p n]|] eqn:Es; intros H; inv_ok.
  - apply split_once_Some in Es as [Es Hp].
    repeat match goal with H : ensure _ _ = Ok _ |- _ => apply ensure_Ok in H as [H _] end.
    match goal with H : _ && _ = true |- _ =>
      apply andb_true_iff in H as [_ Hn%negb_true_iff%bool_decide_eq_false] end.
    split; [split; simpl; try done; by apply negb_true_iff|by left].
  - repeat match goal with H : ensure _ _ = Ok _ |- _ => apply ensure_Ok in H as [H _] end.
    assert (Hc : has_char ":" (trim s) = false).
    { destruct (has_char ":" (trim s)) eqn:E; [|done]. apply has_char_split_once in E as [pq E]. congruence. }
    match goal with H : negb (bool_decide (default _ _ = _)) = true |- _ =>
      apply negb_true_iff, bool_decide_eq_false in H; rename H into Hst end.
    destruct (file_stem (trim s)) as [st|] eqn:Ef; simpl in *; [|done].
    split; [split; simpl; try done; by eapply file_stem_no_char|by right].
Qed.

Lemma try_from_display id :
  harness_ok id -> trim (display id) = display id -> try_from (display id) = Ok id.
Proof.
  intros [Hs Hp Hn Hc] Ht. unfold try_from. rewrite Ht. cbv zeta.
  assert (Hsp : split_once ":" (display id) = Some (path id, name id)) by (by apply split_once_app).
  rewrite Hsp.
  assert (Hd : display id <> "").
  { unfold display. intros E. by destruct (path id). }
  rewrite (bool_decide_false _ Hd). cbn [negb ensure mbind Res_bind].
  rewrite (bool_decide_false _ (is_sol_nonempty _ Hs)), (bool_decide_false _ Hn).
  cbn [negb andb ensure mbind Res_bind]. rewrite Hc. cbn [negb ensure mbind Res_bind]. rewrite Hs.
  by destruct id.
Qed.

(** An accepted harness identity has a Solidity file, a contract name, and
    no colon in either; and its text parses back to it, unless the contract
    name ends in white space, which only a file name can give it. *)
Theorem harness_id_roundtrip s id :
  try_from s = Ok id ->
  harness_ok id /\
  (trim_end (name id) = name id -> try_from (display id) = Ok id) /\
  (has_char ":" s = true -> trim_end (name id) = name id).
Proof.
  intros Hs. destruct (try_from_Ok s id Hs) as [Hok Hform]. split; [done|].
  assert (Htrim : trim_end (name id) = name id -> trim (display id) = display id).
  { intros Hn. destruct Hform as [Hd|[Hd _]]; [by rewrite <- Hd, trim_trim|].
    pose proof (is_sol_nonempty _ (ok_sol _ Hok)) as Hne.
    unfold display. destruct (path id) as [|a p] eqn:Ep; [done|].
    change (String a p +:+ String ":" (name id)) with (String a (p +:+ String ":" (name id))).
    apply trim_id; [by eapply trim_head|].
    change (String a (p +:+ String ":" (name id))) with (String a p +:+ String ":" (name id)).
    apply trim_end_app; [done|]. rewrite trim_end_cons, Hn.
    rewrite bool_decide_false by apply Hok. done. }
  split; [intros Hn; apply try_from_display; auto|].
  intros Hc. destruct Hform as [Hd|[Hd _]].
  - pose proof (trim_end_idem (trim_start s)) as Hi. fold (trim s) in Hi. rewrite Hd in Hi.
    unfold display in Hi. apply trim_end_suffix in Hi. by apply (trim_end_suffix ":").
  - exfalso. pose proof (ok_path_colon _ Hok) as Hp. rewrite <- Hd in Hp.
    by rewrite has_char_trim, Hc in Hp.
Qed.

Lemma harness_id_roundtrip_witness :
  try_from (display (mkHarnessId "src/Vault.sol" "Vault")) = Ok (mkHarnessId "src/Vault.sol" "Vault").
Proof.
  apply (proj1 (proj2 (harness_id_roundtrip " src/Vault.sol " (mkHarnessId "src/Vault.sol" "Vault")
    ltac:(vm_compute; reflexivity)))). vm_compute. reflexivity.
Defined.
