(* ===== verification/TestCorpus.v ===== *)
(** * TestCorpus: the tester's corpus of interesting sequences

    Models [tester/corpus/mod.rs]: where the corpus lives on disk, sampling,
    eviction, persistence and replay. The entries sit behind a mutex, so every
    operation is one atomic step. The file system is a parameter. *)
From S2P Require Import Prelude.
From S2P Require Import Env.
From S2P Require Import Paths.
From S2P Require Import HarnessId.
From S2P Require Import Transaction.
From S2P Require Import Coverage.
From S2P Require Import ChainApi.
From S2P Require Import Sampling.
From S2P Require Import CallCodec.
From S2P Require Import Literal.
From S2P Require Import TestSequence.

Definition MAX_ENTRIES : nat := 256.
Definition CORPUS_VERSION : Z := 1.

(** ** The persisted document *)
Record EntryJson : Type := mkEntryJson { ej_new_edges : Z; ej_calls : list CallJson }.
Record CorpusJson : Type := mkCorpusJson { cj_version : Z; cj_entries : list EntryJson }.

(** What reading the file gives: a missing file, an I/O error, text that does
    not parse, or a document. *)
Inductive FileRead : Type :=
| NotFound
| ReadError
| Unparsable
| Document (d : CorpusJson).

(** The file system: reading a path, and creating its parents and writing the
    text of a document to it, which may fail. *)
Class CorpusFiles (W : Type) : Type := {
  read_corpus : string -> W -> FileRead;
  write_corpus : string -> CorpusJson -> M W unit;
}.

(** A document that was written is the one that is read. *)
Class CorpusFilesLaws (W : Type) `{CorpusFiles W} : Prop := {
  read_written : forall p d w w', write_corpus p d w = (Ok tt, w') -> read_corpus p w' = Document d;
}.

Section Corpus.
Context {Chain : Type}.

Record Entry : Type := mkEntry { sequence : Sequence; new_edges : Z; chain : option Chain }.
Record EntrySnapshot : Type := mkSnapshot { snap_sequence : Sequence; snap_new_edges : Z }.

Record Corpus : Type := mkCorpus {
  inner : list Entry;
  root : option string;
  dir : option string;
  harness : option HarnessId;
  handlers : list Function;
  literals : LiteralExtractor;
}.

Definition new : Corpus := mkCorpus [] None None None [] extractor_new.

Definition with_root (r : string) (c : Corpus) : Corpus :=
  mkCorpus (inner c) (Some r) (dir c) (harness c) (handlers c) (literals c).
Definition with_dir (d : string) (c : Corpus) : Corpus :=
  mkCorpus (inner c) (root c) (Some d) (harness c) (handlers c) (literals c).
Definition with_harness (h : HarnessId) (c : Corpus) : Corpus :=
  mkCorpus (inner c) (root c) (dir c) (Some h) (handlers c) (literals c).
Definition with_handlers (hs : list Function) (c : Corpus) : Corpus :=
  mkCorpus (inner c) (root c) (dir c) (harness c) hs (literals c).
Definition with_inner (es : list Entry) (c : Corpus) : Corpus :=
  mkCorpus es (root c) (dir c) (harness c) (handlers c) (literals c).

Definition with_solc_output `{NumberText} `{Text} (output : list (option (list Member))) (c : Corpus)
    : Res Corpus :=
  ls ← from_output output;
  mret (mkCorpus (inner c) (root c) (dir c) (harness c) (handlers c) ls).

Definition path (c : Corpus) : Res string :=
  r ← context (root c) "root not set, call Corpus::new().with_root(..)";
  d ← context (dir c) "dir not set, call Corpus::new().with_dir(..)";
  h ← context (harness c) "harness not set, call Corpus::new().with_harness(..)";
  let base := if is_absolute d then d else join r d in
  f ← context (file_name (HarnessId.path h)) "harness path has no file name";
  mret (join (join (join base f) (name h)) "corpus.json").

Definition len (c : Corpus) : nat := length (inner c).
Definition is_empty (c : Corpus) : bool := bool_decide (inner c = []).

Definition entries (c : Corpus) : list EntrySnapshot :=
  map (fun e => mkSnapshot (sequence e) (new_edges e)) (inner c).

(** [entry.new_edges.saturating_add(1)] *)
Definition entry_weight (e : Entry) : Z := sat_add64 (new_edges e) 1.

Definition base_of (e : Entry) : option (Sequence * Chain) :=
  ch ← chain e; Some (sequence e, ch).

Definition random_base {R} `{FastRand R} (c : Corpus) : M R (option (Sequence * Chain)) :=
  Sampling.random_base entry_weight base_of (inner c).

(** [min_by_key] keeps the first of the least values. *)
Definition weakest (es : list Entry) : option (nat * Entry) :=
  min_by_key Z.ltb (fun ie => new_edges ie.2) (enumerate es).

Definition add_entry (e : Entry) (es : list Entry) : Res (list Entry) :=
  if (MAX_ENTRIES <=? length es)%nat then
    match weakest es with
    | Some (index, w) =>
        if new_edges w <=? new_edges e then es' ← vec_remove es index; mret (es' ++ [e])
        else Ok es
    | None => Ok es
    end
  else Ok (es ++ [e]).

Definition add_with_chain (s : Sequence) (edges : Z) (ch : option Chain) (c : Corpus) : Res Corpus :=
  es ← add_entry (mkEntry s edges ch) (inner c); mret (with_inner es c).

Definition add (s : Sequence) (edges : Z) (ch : Chain) (c : Corpus) : Res Corpus :=
  add_with_chain s edges (Some ch) c.

(** ** Persistence *)
Section Codec.
Context `{Abi} `{Text} {W : Type} `{CorpusFiles W}.

Definition decode_call (c : CallJson) (hs : list Function) : Res Call :=
  '(f, args) ← decode_input c hs; mret (mkCall f args).

(** The calls up to the first that does not decode. *)
Fixpoint decode_calls (cs : list CallJson) (hs : list Function) : Res (list Call) :=
  match cs with
  | [] => Ok []
  | c :: cs' =>
      match decode_call c hs with
      | Ok call => rest ← decode_calls cs' hs; mret (call :: rest)
      | Err _ => Ok []
      | Panic p => Panic p
      end
  end.

(** Entries with a call that does not decode are skipped. *)
Fixpoint load_entries (es : list EntryJson) (hs : list Function) : Res (list Entry) :=
  match es with
  | [] => Ok []
  | e :: es' =>
      calls ← decode_calls (ej_calls e) hs;
      rest ← load_entries es' hs;
      if bool_decide (length calls = length (ej_calls e))
      then mret (mkEntry (mkSequence calls) (ej_new_edges e) None :: rest)
      else mret rest
  end.

Definition load (w : W) : M Corpus Z := fun c =>
  match path c with
  | Ok p =>
      match read_corpus p w with
      | NotFound => (Ok 0, c)
      | ReadError => (Err ("failed to read " +:+ p), c)
      | Unparsable => (Err ("failed to parse " +:+ p), c)
      | Document d =>
          if cj_version d =? CORPUS_VERSION then
            match load_entries (cj_entries d) (handlers c) with
            | Ok es => (Ok (Z.of_nat (length es)), with_inner es c)
            | Err m => (Err m, c)
            | Panic p => (Panic p, c)
            end
          else (Ok 0, c)
      end
  | Err m => (Err m, c)
  | Panic p => (Panic p, c)
  end.

Definition call_json (c : Call) : CallJson := input_json (function c) (args c).

Definition corpus_json (c : Corpus) : CorpusJson :=
  mkCorpusJson CORPUS_VERSION
    (map (fun e => mkEntryJson (new_edges e) (map call_json (calls (sequence e)))) (inner c)).

Definition save (c : Corpus) : M W unit :=
  p ← lift (path c); write_corpus p (corpus_json c).
End Codec.
End Corpus.
Arguments Entry : clear implicits.
Arguments Corpus : clear implicits.

(** ** Replay *)
Section Replay.
Context {Chain Trace : Type} `{ChainOps Chain Trace} `{Abi}.

Record Replayer : Type := mkReplayer {
  r_chain : option Chain;
  r_target : option Address;
  r_deployer : option Address;
  r_coverage : option SharedCoverage;
}.

Definition replayer_new : Replayer := mkReplayer None None None None.
Definition with_chain (ch : Chain) (r : Replayer) : Replayer :=
  mkReplayer (Some ch) (r_target r) (r_deployer r) (r_coverage r).
Definition with_target (t : Address) (r : Replayer) : Replayer :=
  mkReplayer (r_chain r) (Some t) (r_deployer r) (r_coverage r).
Definition with_deployer (d : Address) (r : Replayer) : Replayer :=
  mkReplayer (r_chain r) (r_target r) (Some d) (r_coverage r).
Definition with_coverage (cov : SharedCoverage) (r : Replayer) : Replayer :=
  mkReplayer (r_chain r) (r_target r) (r_deployer r) (Some cov).

(** [new_edges + new_depths + new_reverts + new_jump_edges] *)
Definition update_total (u : CoverageUpdate) : Z :=
  Coverage.new_edges u + new_depths u + new_reverts u + new_jump_edges u.

(** One entry: the sequence on a clone of the chain and the merge of its
    coverage. The result is the novelty and the state it ends in. *)
Definition replay_entry (ch : Chain) (tgt dep : Address) (e : EntrySnapshot)
    : M SharedCoverage (Z * Chain) := fun cov =>
  match exec (transactions (snap_sequence e) tgt dep) ch with
  | (Ok o, ch') =>
      match coverage o with
      | None => (Err "execution coverage expected", cov)
      | Some local =>
          match merge cov local with
          | Ok (cov', u) => (Ok (update_total u, ch'), cov')
          | Err m => (Err m, cov)
          | Panic p => (Panic p, cov)
          end
      end
  | (Err m, _) => (Err m, cov)
  | (Panic p, _) => (Panic p, cov)
  end.

(** The corpus and the coverage are shared: what was added before an error
    stays. *)
Fixpoint replay_loop (ch : Chain) (tgt dep : Address) (es : list EntrySnapshot)
    : M (Corpus Chain * SharedCoverage) unit := fun s =>
  match es with
  | [] => (Ok tt, s)
  | e :: es' =>
      match replay_entry ch tgt dep e s.2 with
      | (Ok (edges, ch'), cov') =>
          match add (snap_sequence e) edges ch' s.1 with
          | Ok c' => replay_loop ch tgt dep es' (c', cov')
          | Err m => (Err m, (s.1, cov'))
          | Panic p => (Panic p, (s.1, cov'))
          end
      | (Err m, cov') => (Err m, (s.1, cov'))
      | (Panic p, cov') => (Panic p, (s.1, cov'))
      end
  end.

(** The number of entries kept, the corpus and the coverage. *)
Definition replay (r : Replayer) (c : Corpus Chain)
    : Res (Res Z * Corpus Chain * SharedCoverage) :=
  ch ← context (r_chain r) "chain not set, call Replayer::new().with_chain(..)";
  tgt ← context (r_target r) "target not set, call Replayer::new().with_target(..)";
  dep ← context (r_deployer r) "deployer not set, call Replayer::new().with_deployer(..)";
  cov ← context (r_coverage r) "coverage not set, call Replayer::new().with_coverage(..)";
  let es := entries c in
  let '(res, (c', cov')) := replay_loop ch tgt dep es (with_inner [] c, cov) in
  mret ((fun _ => Z.of_nat (len c')) <$> res, c', cov').
End Replay.

(** ** Eviction *)
Section Eviction.
Context {Chain : Type}.
Implicit Types (e w : Entry Chain) (es : list (Entry Chain)).

Lemma weakest_Some es i w :
  weakest es = Some (i, w) ->
  es !! i = Some w /\ forall e, e ∈ es -> new_edges w <= new_edges e.
Proof.
  unfold weakest. intros Hw. split; [by apply min_by_key_elem, elem_of_enumerate in Hw|].
  intros e [j Hj]%list_elem_of_lookup.
  pose proof (min_by_key_least Z.ltb (fun ie : nat * Entry Chain => new_edges ie.2)
    Z_ltb_asym Z_ltb_neg_trans _ _ (j, e) Hw) as Hm.
  specialize (Hm ltac:(by apply elem_of_enumerate)). simpl in Hm. lia.
Qed.

Lemma weakest_total es : es <> [] -> is_Some (weakest es).
Proof.
  intros Hne. destruct (weakest es) as [x|] eqn:E; [by eexists|].
  apply min_by_key_None in E. unfold enumerate in E. by destruct es.
Qed.

(** What adding does: it appends below the limit; at the limit it drops an
    entry with the least novelty for the new one, or refuses it. *)
Lemma add_entry_cases e es :
  ((length es < MAX_ENTRIES)%nat /\ add_entry e es = Ok (es ++ [e])) \/
  ((MAX_ENTRIES <= length es)%nat /\ exists i w,
     es !! i = Some w /\ (forall x, x ∈ es -> new_edges w <= new_edges x) /\
     ((new_edges w <= new_edges e /\ add_entry e es = Ok (delete i es ++ [e])) \/
      (new_edges e < new_edges w /\ add_entry e es = Ok es))).
Proof.
  unfold add_entry. destruct (Nat.leb_spec MAX_ENTRIES (length es)) as [Hl|Hl]; [right|by left].
  split; [done|]. destruct (weakest_total es) as [[i w] Hw].
  { intros ->. unfold MAX_ENTRIES in Hl. simpl in Hl. lia. }
  rewrite Hw. destruct (weakest_Some _ _ _ Hw) as [Hi Hmin]. exists i, w.
  split; [done|]. split; [done|]. destruct (Z.leb_spec (new_edges w) (new_edges e)); [left|by right].
  split; [done|]. apply lookup_lt_Some in Hi.
  assert (Hr : vec_remove es i = Ok (delete i es)) by (by apply vec_remove_Ok).
  by rewrite Hr.
Qed.

Lemma add_entry_total e es : exists es', add_entry e es = Ok es'.
Proof.
  destruct (add_entry_cases e es) as [[_ ->]|[_ (i & w & _ & _ & [[_ ->]|[_ ->]])]]; by eexists.
Qed.

Lemma elem_of_add_entry e es es' x : add_entry e es = Ok es' -> x ∈ es' -> x ∈ es \/ x = e.
Proof.
  destruct (add_entry_cases e es) as [[_ ->]|[_ (i & w & _ & _ & [[_ ->]|[_ ->]])]];
    intros [= <-]; [..|by left]; intros [Hx|?%list_elem_of_singleton]%elem_of_app; auto.
  left. by eapply elem_of_delete_sub.
Qed.

Lemma add_entry_length e es es' :
  (length es <= MAX_ENTRIES)%nat -> add_entry e es = Ok es' -> (length es' <= MAX_ENTRIES)%nat.
Proof.
  intros Hle. destruct (add_entry_cases e es) as [[? ->]|[_ (i & w & Hi & _ & [[_ ->]|[_ ->]])]];
    intros [= <-]; [rewrite length_app; simpl; lia| |done].
  pose proof (lookup_lt_Some _ _ _ Hi). rewrite length_app, length_delete by eauto. simpl. lia.
Qed.
End Eviction.

(** ** Sampling *)
Section Sampling.
Context {Chain : Type}.

Lemma tester_entries_bounded (c : Corpus Chain) :
  Forall (fun e => 0 <= new_edges e) (inner c) -> Forall (bounded entry_weight) (inner c).
Proof.
  intros Hc. apply (Forall_impl _ _ _ Hc). intros e He.
  unfold bounded, entry_weight, sat_add64, u64_max. lia.
Qed.
End Sampling.

(** ** Persistence *)
Section Roundtrip.
Context {Chain : Type} `{AbiLaws} `{TextLaws}.

Definition call_resolves (hs : list Function) (c : Call) : Prop := input_resolves hs (function c) (args c).

(** What persistence keeps of an entry. *)
Definition persisted (e : Entry Chain) : Entry Chain := mkEntry (sequence e) (new_edges e) None.

Definition saveable (hs : list Function) (e : Entry Chain) : Prop :=
  Forall (call_resolves hs) (calls (sequence e)).

Lemma decode_tester_call_json hs c : call_resolves hs c -> decode_call (call_json c) hs = Ok c.
Proof.
  intros Hc. unfold decode_call, call_json. rewrite decode_input_json by done. by destruct c.
Qed.

Lemma decode_tester_calls_json hs cs :
  Forall (call_resolves hs) cs -> decode_calls (map call_json cs) hs = Ok cs.
Proof.
  induction 1 as [|c cs Hc _ IH]; [done|]. cbn [map decode_calls].
  by rewrite decode_tester_call_json, IH.
Qed.

Lemma tester_load_entries_json hs (c : Corpus Chain) :
  Forall (saveable hs) (inner c) ->
  load_entries (cj_entries (corpus_json c)) hs = Ok (map persisted (inner c)).
Proof.
  unfold corpus_json. cbn [cj_entries]. induction 1 as [|e es Hcs _ IH]; [done|].
  cbn [map load_entries ej_calls ej_new_edges]. rewrite decode_tester_calls_json by done.
  cbn [mbind Res_bind]. rewrite IH. cbn [mbind Res_bind]. rewrite length_map, bool_decide_true by done.
  unfold persisted. by destruct (sequence e).
Qed.
End Roundtrip.

(** ** Replay *)
Section Replay_lemmas.
Context {Chain Trace : Type} `{ChainOps Chain Trace} `{Abi}.

(** An entry as the replay leaves it: the state is that of a clean run. *)
Definition replayed_from (ch : Chain) (tgt dep : Address) (s : EntrySnapshot) (e : Entry Chain) : Prop :=
  sequence e = snap_sequence s /\
  exists o ch', exec (transactions (sequence e) tgt dep) ch = (Ok o, ch') /\ chain e = Some ch'.

Lemma replay_entry_Ok ch tgt dep s cov edges ch' cov' :
  replay_entry ch tgt dep s cov = (Ok (edges, ch'), cov') ->
  replayed_from ch tgt dep s (mkEntry (snap_sequence s) edges (Some ch')).
Proof.
  unfold replay_entry. destruct (exec _ _) as [[o|m|p] ch1] eqn:Ex; [|done..].
  destruct (coverage o) as [local|]; [|done]. destruct (merge cov local) as [[cov1 u]|m|p]; [|done..].
  intros [= <- <- <-]. split; [done|]. by exists o, ch1.
Qed.

Lemma tester_replay_loop_Ok ch tgt dep es c cov c' cov' :
  replay_loop ch tgt dep es (c, cov) = (Ok tt, (c', cov')) ->
  (len c <= MAX_ENTRIES)%nat ->
  (len c' <= MAX_ENTRIES)%nat /\
  (forall x, x ∈ inner c' -> x ∈ inner c \/ exists s, s ∈ es /\ replayed_from ch tgt dep s x) /\
  ((len c + length es <= MAX_ENTRIES)%nat ->
     map sequence (inner c') = map sequence (inner c) ++ map snap_sequence es) /\
  c' = with_inner (inner c') c.
Proof.
  revert c cov. induction es as [|e es IH]; intros c cov Hr Hlen; simpl in Hr.
  { injection Hr as <- <-. split; [done|]. split; [auto|]. split; [by rewrite app_nil_r|by destruct c]. }
  destruct (replay_entry ch tgt dep e cov) as [[[edges ch']|m|p] cov1] eqn:Ee; [|done..].
  apply replay_entry_Ok in Ee. unfold add, add_with_chain in Hr.
  destruct (add_entry _ (inner c)) as [es'|m|p] eqn:Ea; simpl in Hr; [|done..].
  apply IH in Hr as (Hl & Hx & Hs & Hc); [|by eapply add_entry_length].
  split; [done|]. split; [|split; [|by rewrite Hc]].
  - intros x Hin. destruct (Hx x Hin) as [Hold|(s & Hsin & Hsr)]; [|right; exists s; by split; [right|]].
    destruct (elem_of_add_entry _ _ _ _ Ea Hold) as [?| ->]; [by left|right].
    exists e. split; [left|done].
  - intros Hle. simpl in Hle. destruct (add_entry_cases (mkEntry (snap_sequence e) edges (Some ch')) (inner c))
      as [[_ Hr]|[Hfull _]]; [|unfold len in Hle; lia].
    rewrite Hr in Ea. injection Ea as <-. unfold len in *. cbn [inner with_inner] in Hs.
    rewrite Hs; [|rewrite length_app; simpl; lia]. rewrite map_app. simpl. by rewrite <- app_assoc.
Qed.
End Replay_lemmas.

(** ** Properties *)
Section Properties.
Context {Chain : Type}.
Implicit Types (c : Corpus Chain) (e : Entry Chain).

(** Adding a sequence never fails and never exceeds the limit. Below the
    limit it joins at the end; at the limit it takes the place of an entry with
    the least novelty exactly when it is at least as novel, ties included, so
    the least novelty of a full corpus never drops. *)
Theorem tester_add_spec s edges ch c :
  exists c', add s edges ch c = Ok c' /\
    let e := mkEntry s edges (Some ch) in
    ((len c < MAX_ENTRIES)%nat -> inner c' = inner c ++ [e]) /\
    (len c = MAX_ENTRIES ->
       len c' = MAX_ENTRIES /\
       exists i w, inner c !! i = Some w /\
         Forall (fun x => new_edges w <= new_edges x) (inner c) /\
         Forall (fun x => new_edges w <= new_edges x) (inner c') /\
         inner c' = if decide (new_edges w <= edges) then delete i (inner c) ++ [e] else inner c).
Proof.
  unfold add, add_with_chain. set (e := mkEntry s edges (Some ch)).
  destruct (add_entry_total e (inner c)) as [es Hes]. rewrite Hes. eexists. split; [reflexivity|].
  simpl. destruct (add_entry_cases e (inner c)) as [[Hl Hr]|[Hl (i & w & Hi & Hmin & Hr)]];
    rewrite Hes in Hr.
  - injection Hr as ->. split; [done|]. unfold len, with_inner in *. simpl. lia.
  - split; [unfold len; lia|]. intros Hlen. unfold len in *. cbn [inner with_inner].
    pose proof (lookup_lt_Some _ _ _ Hi).
    assert (Hall : Forall (fun x => new_edges w <= new_edges x) (inner c)) by (by apply Forall_forall).
    destruct Hr as [[Hle [= ->]]|[Hlt [= ->]]].
    + split; [rewrite length_app, length_delete by eauto; simpl; lia|]. exists i, w.
      split; [done|]. split; [done|]. split; [|by rewrite decide_True].
      apply Forall_app. split; [by apply Forall_delete|by constructor].
    + split; [done|]. exists i, w. split; [done|]. split; [done|]. split; [done|].
      rewrite decide_False; [done|]. simpl in Hlt. lia.
Qed.

(** The file of a corpus is told apart by the file name and the contract
    name of the harness only: two harnesses share it exactly when both agree,
    whatever the directories of their sources. *)
Theorem corpus_path_namespace c h1 h2 p1 p2 :
  path (with_harness h1 c) = Ok p1 -> path (with_harness h2 c) = Ok p2 ->
  (name h1 <> "" /\ has_char "/" (name h1) = false) ->
  (name h2 <> "" /\ has_char "/" (name h2) = false) ->
  p1 = p2 <-> file_name (HarnessId.path h1) = file_name (HarnessId.path h2) /\ name h1 = name h2.
Proof.
  intros Hp1 Hp2 [Hn1 Hs1] [Hn2 Hs2]. unfold path in Hp1, Hp2. cbn [root dir harness with_harness] in *.
  destruct (root c) as [r|]; [|done]. destruct (dir c) as [d|]; [|done].
  cbn [context mbind Res_bind] in Hp1, Hp2. set (base := if is_absolute d then d else join r d) in *.
  destruct (file_name (HarnessId.path h1)) as [f1|] eqn:E1; [|done].
  destruct (file_name (HarnessId.path h2)) as [f2|] eqn:E2; [|done].
  injection Hp1 as <-. injection Hp2 as <-.
  apply file_name_plain in E1 as [Hf1 Hg1]. apply file_name_plain in E2 as [Hf2 Hg2].
  rewrite !join_three by done. split; [|by intros [[= ->] ->]].
  intros Heq%string_app_inj. apply (separator_inj _ _ _ _ _ _ (no_char_all _ _ Hg1) (no_char_all _ _ Hg2)) in Heq
    as [-> Heq]; [|done].
  apply (separator_inj _ _ _ _ _ _ (no_char_all _ _ Hs1) (no_char_all _ _ Hs2)) in Heq as [-> _]; done.
Qed.

(** C22: Persistence round trips through the file system: a corpus whose calls
    the handlers resolve, once saved, is loaded back by any corpus of the same
    place and handlers, with every entry in order, its sequence and its edge
    count, whatever that corpus held; snapshots are not persisted. *)
Theorem tester_save_load `{AbiLaws} `{TextLaws} {W} `{CorpusFilesLaws W} c (w w' : W) es :
  Forall (saveable (handlers c)) (inner c) -> save c w = (Ok tt, w') ->
  load w' (with_inner es c) =
    (Ok (Z.of_nat (len c)), with_inner (map persisted (inner c)) c).
Proof.
  intros HF Hs. unfold save in Hs. apply M_bind_Ok in Hs as (p & w1 & Hp & Hw).
  unfold lift in Hp. injection Hp as Hp <-. apply read_written in Hw.
  unfold load. assert (Hpe : path (with_inner es c) = Ok p) by (by rewrite <- Hp). rewrite Hpe, Hw.
  change (cj_version (corpus_json c) =? CORPUS_VERSION) with true.
  change (handlers (with_inner es c)) with (handlers c).
  rewrite (tester_load_entries_json (handlers c) c HF). by rewrite length_map.
Qed.

(** A replayed corpus holds at most 256 entries, each the sequence of a
    loaded entry with the state a clean run of it ends in; when no more than
    256 were loaded all are kept, in order; the configuration is untouched. *)
Theorem tester_replay_sound {Trace} `{ChainOps Chain Trace} `{Abi} r c n c' cov :
  replay r c = Ok (Ok n, c', cov) ->
  n = Z.of_nat (len c') /\ (len c' <= MAX_ENTRIES)%nat /\
  (exists ch tgt dep, r_chain r = Some ch /\ r_target r = Some tgt /\ r_deployer r = Some dep /\
     forall e, e ∈ inner c' -> exists s, s ∈ entries c /\ replayed_from ch tgt dep s e) /\
  ((len c <= MAX_ENTRIES)%nat -> map sequence (inner c') = map sequence (inner c)) /\
  c' = with_inner (inner c') c.
Proof.
  unfold replay. intros Hr.
  apply Res_bind_Ok in Hr as (ch & Hch & Hr). apply Res_bind_Ok in Hr as (tgt & Htgt & Hr).
  apply Res_bind_Ok in Hr as (dep & Hdep & Hr). apply Res_bind_Ok in Hr as (cov0 & _ & Hr).
  destruct (replay_loop _ _ _ _ _) as [res [c1 cov1]] eqn:El.
  destruct res as [[]|m|p]; cbn in Hr; [|discriminate Hr..]. injection Hr as <- <- <-.
  apply tester_replay_loop_Ok in El as (Hl & Hx & Hs & Hc); [|unfold len, MAX_ENTRIES; simpl; lia].
  split; [done|]. split; [done|]. split; [|split; [|exact Hc]].
  - exists ch, tgt, dep. destruct (r_chain r), (r_target r), (r_deployer r); simplify_eq/=.
    split; [done|]. split; [done|]. split; [done|]. intros e He.
    destruct (Hx e He) as [Hn|?]; [by apply not_elem_of_nil in Hn|done].
  - intros Hle. unfold len, entries in *. cbn [inner with_inner length] in Hs.
    rewrite Hs; [|rewrite length_map; simpl; lia]. simpl. by rewrite map_map.
Qed.
End Properties.

(** ** Witnesses *)
Module ToyCorpus.
Import Toy.

(** A disk that holds one file. *)
#[export] Instance one_file : CorpusFiles (option (string * CorpusJson)) := {
  read_corpus p w := match w with
    | Some (q, d) => if decide (p = q) then Document d else NotFound
    | None => NotFound
    end;
  write_corpus p d _ := (Ok tt, Some (p, d));
}.

#[export] Instance one_file_laws : CorpusFilesLaws (option (string * CorpusJson)).
Proof. split. intros p d w w' [= <-]. simpl. by rewrite decide_True. Qed.

Definition poke : Function := mkFunction "poke" [] [] NonPayable.
Definition poke_call : Call := mkCall poke (VTuple []).
Definition entry_with (edges : Z) (ch : option Z) : Entry Z := mkEntry (mkSequence [poke_call]) edges ch.

Definition corpus_of (es : list (Entry Z)) : Corpus Z :=
  with_inner es (with_handlers [poke] (with_root "/work" (with_dir ".corpus"
    (with_harness (mkHarnessId "src/a/Vault.sol" "Vault") new)))).
End ToyCorpus.
Import Toy ToyCorpus.

Lemma tester_save_load_witness :
  load (snd (save (corpus_of [entry_with 3 (Some 1); entry_with 2 None]) None)) (corpus_of []) =
    (Ok 2, corpus_of [entry_with 3 None; entry_with 2 None]).
Proof.
  apply (tester_save_load (corpus_of [entry_with 3 (Some 1); entry_with 2 None]) None
    (snd (save (corpus_of [entry_with 3 (Some 1); entry_with 2 None]) None)) []).
  - assert (Hc : call_resolves [poke] poke_call).
    { split; [left|]. split; [intros h Hh _; apply list_elem_of_singleton in Hh; exact Hh|]. split.
      - change (selector (function poke_call) ++ abi_encode_params (args poke_call)) with [1; 2; 3; 4].
        repeat constructor; vm_compute; discriminate.
      - exists []. split; reflexivity. }
    assert (Hs : forall n ch, saveable [poke] (entry_with n ch)).
    { intros n ch. constructor; [exact Hc|constructor]. }
    constructor; [apply Hs|constructor; [apply Hs|constructor]].
  - reflexivity.
Defined.

(** Two harnesses with the same names in different directories. *)
Lemma corpus_path_namespace_witness :
  path (with_harness (mkHarnessId "src/a/Vault.sol" "Vault") (corpus_of [])) =
  path (with_harness (mkHarnessId "src/b/Vault.sol" "Vault") (corpus_of [])).
Proof.
  assert (H1 : path (with_harness (mkHarnessId "src/a/Vault.sol" "Vault") (corpus_of [])) =
    Ok "/work/.corpus/Vault.sol/Vault/corpus.json") by (vm_compute; reflexivity).
  assert (H2 : path (with_harness (mkHarnessId "src/b/Vault.sol" "Vault") (corpus_of [])) =
    Ok "/work/.corpus/Vault.sol/Vault/corpus.json") by (vm_compute; reflexivity).
  rewrite H1, H2. apply (f_equal Ok).
  apply (proj2 (corpus_path_namespace (corpus_of []) _ _ _ _ H1 H2
    ltac:(vm_compute; split; [discriminate|reflexivity])
    ltac:(vm_compute; split; [discriminate|reflexivity]))).
  vm_compute. split; reflexivity.
Defined.

(** A chain on which every call succeeds. *)
Definition empty_reply (_ : list Transaction) (_ : Transaction) : TransactionResult :=
  mkResult true 1 (Some []) [] None 0 rpc_default.

#[local] Instance no_report : BrokenInvariantError := { SELECTOR := [9; 9; 9; 9]; bie_decode _ := None }.

#[local] Instance scripted_ops : ChainOps (list Transaction) unit := ScriptedChain.ops empty_reply.

Definition scripted_replayer : Replayer (Chain := list Transaction) :=
  with_coverage shared_new (with_deployer 6 (with_target 5 (with_chain [] replayer_new))).
Definition loaded_corpus : Corpus (list Transaction) :=
  with_inner [mkEntry (mkSequence [poke_call]) 4 None] new.

Lemma tester_replay_sound_witness :
  exists c' cov, replay scripted_replayer loaded_corpus = Ok (Ok 1, c', cov) /\
    map sequence (inner c') = [mkSequence [poke_call]].
Proof.
  destruct (replay scripted_replayer loaded_corpus) as [[[[n|e|e] c'] cov]|e|e] eqn:E; [|vm_compute in E; discriminate E..].
  destruct (tester_replay_sound _ _ _ _ _ E) as (Hn & _ & _ & Hs & _).
  exists c', cov. split; [|apply Hs; vm_compute; lia].
  vm_compute in E. injection E as <- _ _. reflexivity.
Defined.

(** A full corpus of single-novelty entries, but for one of none. *)
Definition full_corpus : Corpus Z :=
  corpus_of (entry_with 1 None :: entry_with 0 None :: replicate 254 (entry_with 1 None)).

(** An entry that ties with the weakest takes its place. *)
Example tie_replaces_weakest :
  add (mkSequence [poke_call]) 0 7 full_corpus =
    Ok (corpus_of (entry_with 1 None :: replicate 254 (entry_with 1 None) ++ [entry_with 0 (Some 7)])).
Proof. vm_compute. reflexivity. Qed.
