(* ===== verification/Compare.v ===== *)
(** * Compare: comparators and sorting

    [slice::sort_by] with [Ordering::then_with]: comparators as functions to
    [comparison], the laws that make them orders, and the sort they give.
    [String]s compare byte by byte, [None] before [Some]. *)
From stdpp Require Import sorting.
From S2P Require Import Prelude.

Definition then_with (c d : comparison) : comparison := match c with Eq => d | _ => c end.
Definition reverse_cmp (c : comparison) : comparison := CompOpp c.

Definition option_cmp {A} (c : A -> A -> comparison) (a b : option A) : comparison :=
  match a, b with
  | None, None => Eq
  | None, Some _ => Lt
  | Some _, None => Gt
  | Some a, Some b => c a b
  end.

(** The order a comparator decides. *)
Definition cmp_le {A} (c : A -> A -> comparison) (a b : A) : Prop := c a b <> Gt.

#[export] Instance cmp_le_dec {A} (c : A -> A -> comparison) : RelDecision (cmp_le c).
Proof. intros a b. unfold cmp_le. destruct (c a b); [left|left|right]; congruence. Defined.

(** A total preorder. *)
Record lawful {A} (c : A -> A -> comparison) : Prop := {
  cmp_opp : forall a b, c b a = CompOpp (c a b);
  cmp_le_trans : forall a b d, c a b <> Gt -> c b d <> Gt -> c a d <> Gt;
}.

Section Laws.
Context {A : Type}.
Implicit Types (c : A -> A -> comparison).

Lemma lawful_Z : lawful Z.compare.
Proof. split; [apply Z.compare_antisym|]. intros a b d. rewrite !Z.compare_ngt_iff. lia. Qed.

Lemma lawful_reverse c : lawful c -> lawful (fun a b => c b a).
Proof. intros [Ho Ht]. split; [auto|]. intros a b d H1 H2. by apply (Ht d b a). Qed.

Lemma lawful_on {B} (f : B -> A) c : lawful c -> lawful (fun a b => c (f a) (f b)).
Proof. intros [Ho Ht]. split; eauto. Qed.

Lemma lawful_option c : lawful c -> lawful (option_cmp c).
Proof. intros [Ho Ht]. split; [intros [] []; simpl; auto|intros [] [] []; simpl; eauto; done]. Qed.

Lemma lawful_refl c a : lawful c -> c a a = Eq.
Proof. intros [Ho _]. pose proof (Ho a a). by destruct (c a a). Qed.

(** Mixed transitivity: with one strict step the whole is strict. *)
Lemma lawful_lt_le c a b d : lawful c -> c a b = Lt -> c b d <> Gt -> c a d = Lt.
Proof.
  intros [Ho Ht] H1 H2. destruct (c a d) eqn:E; [exfalso|done|exfalso].
  - assert (Hda : c d a <> Gt) by (rewrite Ho, E; done).
    pose proof (Ht b d a H2 Hda) as Hba. by rewrite Ho, H1 in Hba.
  - apply (Ht a b d); [by rewrite H1|done|done].
Qed.

Lemma lawful_le_lt c a b d : lawful c -> c a b <> Gt -> c b d = Lt -> c a d = Lt.
Proof.
  intros [Ho Ht] H1 H2. destruct (c a d) eqn:E; [exfalso|done|exfalso].
  - assert (Hda : c d a <> Gt) by (rewrite Ho, E; done).
    pose proof (Ht d a b Hda H1) as Hdb. by rewrite Ho, H2 in Hdb.
  - apply (Ht a b d); [done|by rewrite H2|done].
Qed.

Lemma lawful_eq_eq c a b d : lawful c -> c a b = Eq -> c b d = Eq -> c a d = Eq.
Proof.
  intros [Ho Ht] H1 H2. assert (Hle : c a d <> Gt) by (apply (Ht a b d); congruence).
  assert (Hge : c d a <> Gt) by (apply (Ht d b a); rewrite Ho; [rewrite H2|rewrite H1]; done).
  rewrite Ho in Hge. by destruct (c a d).
Qed.

Lemma lawful_then c (d : A -> A -> comparison) : lawful c -> lawful d -> lawful (fun a b => then_with (c a b) (d a b)).
Proof.
  intros Hc Hd. split.
  - intros a b. unfold then_with. rewrite (cmp_opp c Hc a b). destruct (c a b); simpl; [apply Hd|done..].
  - intros a b e. unfold then_with. intros H1 H2.
    destruct (c a b) eqn:E1; [|rewrite (lawful_lt_le c a b e Hc E1); [done|by destruct (c b e)]|done].
    destruct (c b e) eqn:E2; [|by rewrite (lawful_le_lt c a b e Hc ltac:(congruence) E2)|done].
    rewrite (lawful_eq_eq c a b e Hc E1 E2). by apply (cmp_le_trans d Hd a b e).
Qed.

Lemma then_with_Eq (x y : comparison) : then_with x y = Eq <-> x = Eq /\ y = Eq.
Proof. destruct x; simpl; naive_solver. Qed.
End Laws.

(** ** Strings *)
Lemma string_compare_opp a b : String.compare b a = CompOpp (String.compare a b).
Proof. apply String.compare_antisym. Qed.

Lemma ascii_compare_eq a b : Ascii.compare a b = Eq -> a = b.
Proof. apply Ascii.compare_eq_iff. Qed.

Lemma string_compare_trans a b d :
  String.compare a b <> Gt -> String.compare b d <> Gt -> String.compare a d <> Gt.
Proof.
  revert b d. induction a as [|x a IH]; intros [|y b] [|z d]; simpl; try done.
  unfold Ascii.compare. intros H1 H2.
  destruct (N.compare_spec (N_of_ascii x) (N_of_ascii y)) as [E1|E1|E1]; [| |done];
  destruct (N.compare_spec (N_of_ascii y) (N_of_ascii z)) as [E2|E2|E2]; try done.
  - rewrite E1, E2, N.compare_refl. eauto.
  - by rewrite (proj2 (N.compare_lt_iff _ _)) by lia.
  - by rewrite (proj2 (N.compare_lt_iff _ _)) by lia.
  - by rewrite (proj2 (N.compare_lt_iff _ _)) by lia.
Qed.

Lemma lawful_string : lawful String.compare.
Proof. split; [apply string_compare_opp|apply string_compare_trans]. Qed.

Lemma string_compare_eq a b : String.compare a b = Eq -> a = b.
Proof. apply String.compare_eq_iff. Qed.

Lemma option_cmp_eq {A} (c : A -> A -> comparison) a b :
  (forall x y, c x y = Eq -> x = y) -> option_cmp c a b = Eq -> a = b.
Proof. intros Hc. destruct a, b; simpl; try done. by intros ->%Hc. Qed.

(** [Iterator::cmp], [Vec]'s order: element by element, a prefix first. *)
Section Lexicographic.
Context {A : Type} (c : A -> A -> comparison).

Fixpoint list_cmp (a b : list A) : comparison :=
  match a, b with
  | [], [] => Eq
  | [], _ :: _ => Lt
  | _ :: _, [] => Gt
  | x :: a', y :: b' => then_with (c x y) (list_cmp a' b')
  end.

Lemma lawful_list : lawful c -> lawful list_cmp.
Proof.
  intros Hc. split.
  - intros a. induction a as [|x a IH]; intros [|y b]; simpl; [done..|]. rewrite (cmp_opp c Hc x y), IH. by destruct (c x y).
  - intros a. induction a as [|x a IH]; intros [|y b] [|z d]; simpl; try done. specialize (IH b d).
    destruct (c x y) eqn:Hxy; simpl; [| |done]; destruct (c y z) eqn:Hyz; simpl; try done.
    + rewrite (lawful_eq_eq c x y z) by done. exact IH.
    + rewrite (lawful_le_lt c x y z) by (done || congruence). done.
    + rewrite (lawful_lt_le c x y z) by (done || congruence). done.
    + rewrite (lawful_lt_le c x y z) by (done || congruence). done.
Qed.

Lemma list_cmp_eq a b : (forall x y, c x y = Eq -> x = y) -> list_cmp a b = Eq -> a = b.
Proof.
  intros Hc. revert b. induction a as [|x a IH]; intros [|y b]; simpl; try done.
  destruct (c x y) eqn:E; simpl; [|done..]. intros H. f_equal; auto.
Qed.
End Lexicographic.

(** ** Sorting

    [sort_by] is stable: equal elements keep their order. *)
Lemma strongly_sorted_impl {A} (R S : A -> A -> Prop) l :
  StronglySorted R l -> (forall a b, R a b -> S a b) -> StronglySorted S l.
Proof. induction 1 as [|a l _ IH HF]; intros Hi; constructor; [auto|]. apply (Forall_impl _ _ _ HF). auto. Qed.

Section Sort.
Context {A : Type} (c : A -> A -> comparison).

Fixpoint insert_by (x : A) (l : list A) : list A :=
  match l with
  | [] => [x]
  | y :: l' => match c x y with Gt => y :: insert_by x l' | _ => x :: l end
  end.
Definition sort_by (l : list A) : list A := foldr insert_by [] l.

Lemma insert_by_perm x l : insert_by x l ≡ₚ x :: l.
Proof.
  induction l as [|y l IH]; simpl; [done|]. destruct (c x y); [done..|]. rewrite IH. by apply Permutation_swap.
Qed.

Lemma sort_by_perm l : sort_by l ≡ₚ l.
Proof. induction l as [|x l IH]; simpl; [done|]. by rewrite insert_by_perm, IH. Qed.

Lemma sort_by_id l : StronglySorted (cmp_le c) l -> sort_by l = l.
Proof.
  induction 1 as [|x l _ IH HF]; simpl; [done|]. rewrite IH. destruct l as [|y l]; [done|]. simpl.
  apply Forall_cons in HF as [Hy _]. unfold cmp_le in Hy. by destruct (c x y).
Qed.

Context (Hc : lawful c).

#[local] Instance cmp_le_transitive : Transitive (cmp_le c).
Proof. intros a b d. apply (cmp_le_trans c Hc). Qed.

Lemma insert_by_sorted x l : StronglySorted (cmp_le c) l -> StronglySorted (cmp_le c) (insert_by x l).
Proof.
  induction 1 as [|y l Hl IH HF]; simpl; [by repeat constructor|].
  assert (Hxy : c x y <> Gt -> StronglySorted (cmp_le c) (x :: y :: l)).
  { intros Hle. constructor; [by constructor|]. constructor; [done|]. eapply Forall_impl; [exact HF|].
    intros z Hz. by apply (cmp_le_trans c Hc x y z). }
  destruct (c x y) eqn:E; [apply Hxy; congruence..|]. constructor; [done|].
  rewrite insert_by_perm. constructor; [|done]. unfold cmp_le. by rewrite (cmp_opp c Hc x y), E.
Qed.

Lemma sort_by_sorted l : StronglySorted (cmp_le c) (sort_by l).
Proof. induction l as [|x l IH]; simpl; [constructor|]. by apply insert_by_sorted. Qed.

(** When no two elements tie, the sorted list is the only one. *)
Lemma sort_by_unique l l' :
  (forall a b, a ∈ l -> b ∈ l -> c a b = Eq -> a = b) -> l ≡ₚ l' -> sort_by l = sort_by l'.
Proof.
  intros Hties Hp. apply (StronglySorted_unique_strong (cmp_le c)); [|apply sort_by_sorted..|].
  - intros a b Ha Hb Hab Hba. rewrite sort_by_perm in Ha. rewrite sort_by_perm, <- Hp in Hb.
    apply Hties; [done..|]. unfold cmp_le in *. rewrite (cmp_opp c Hc a b) in Hba. by destruct (c a b).
  - by rewrite !sort_by_perm.
Qed.
End Sort.
