(* ===== verification/Stats.v ===== *)
(** * Stats: the statistics of a test campaign

    Models [tester/stats.rs]: the counters every worker adds to, the
    classification of reverts, and the report made of them. The counters are
    atomics behind [Arc]; a map of revert counts sits behind a mutex. The hash
    map is iterated in an order of its own, a parameter here. *)
From stdpp Require Import sorting.
From S2P Require Import Prelude.
From S2P Require Import Env.
From S2P Require Import Paths.
From S2P Require Import Compare.
From S2P Require Import Transaction.
From S2P Require Import Stop.

(** ** Summaries *)
Inductive RevertKey : Type :=
| KError (selector message : string)
| KPanic (selector code : string)
| KCustomError (selector : string)
| KBrokenInvariantError (selector message : string)
| KUnknownRevert (message : string)
| KEmptyRevert
| KHalt.

#[export] Instance RevertKey_eq_dec : EqDecision RevertKey.
Proof. solve_decision. Defined.

Definition key_code (k : RevertKey) : nat * string * string :=
  match k with
  | KError s m => (0%nat, s, m)
  | KPanic s c => (1%nat, s, c)
  | KCustomError s => (2%nat, s, "")
  | KBrokenInvariantError s m => (3%nat, s, m)
  | KUnknownRevert m => (4%nat, "", m)
  | KEmptyRevert => (5%nat, "", "")
  | KHalt => (6%nat, "", "")
  end.

Definition key_of_code (c : nat * string * string) : RevertKey :=
  match c with
  | (0%nat, s, m) => KError s m
  | (1%nat, s, m) => KPanic s m
  | (2%nat, s, _) => KCustomError s
  | (3%nat, s, m) => KBrokenInvariantError s m
  | (4%nat, _, m) => KUnknownRevert m
  | (5%nat, _, _) => KEmptyRevert
  | _ => KHalt
  end.

#[export] Instance RevertKey_countable : Countable RevertKey.
Proof. apply (inj_countable' key_code key_of_code). by intros []. Defined.

Inductive RevertSummary : Type :=
| SError (selector message : string) (count : Z)
| SPanic (selector code : string) (count : Z)
| SCustomError (selector name : string) (count : Z)
| SBrokenInvariantError (selector message : string) (count : Z)
| SUnknownRevert (message : string) (count : Z)
| SEmptyRevert (count : Z)
| SHalt (count : Z).

Definition kind (s : RevertSummary) : string :=
  match s with
  | SError _ _ _ => "Error"
  | SPanic _ _ _ => "Panic"
  | SCustomError _ _ _ => "CustomError"
  | SBrokenInvariantError _ _ _ => "BrokenInvariantError"
  | SUnknownRevert _ _ => "UnknownRevert"
  | SEmptyRevert _ => "EmptyRevert"
  | SHalt _ => "Halt"
  end.

Definition summary_selector (s : RevertSummary) : option string :=
  match s with
  | SError sel _ _ | SPanic sel _ _ | SCustomError sel _ _ | SBrokenInvariantError sel _ _ => Some sel
  | SUnknownRevert _ _ | SEmptyRevert _ | SHalt _ => None
  end.

Definition summary_name (s : RevertSummary) : option string :=
  match s with SCustomError _ n _ => Some n | _ => None end.

Definition message (s : RevertSummary) : option string :=
  match s with
  | SError _ m _ | SBrokenInvariantError _ m _ | SUnknownRevert m _ => Some m
  | _ => None
  end.

Definition code (s : RevertSummary) : option string :=
  match s with SPanic _ c _ => Some c | _ => None end.

Definition count (s : RevertSummary) : Z :=
  match s with
  | SError _ _ n | SPanic _ _ n | SCustomError _ _ n | SBrokenInvariantError _ _ n
  | SUnknownRevert _ n | SEmptyRevert n | SHalt n => n
  end.

Definition from_key (k : RevertKey) (n : Z) : RevertSummary :=
  match k with
  | KError s m => SError s m n
  | KPanic s c => SPanic s c n
  | KCustomError s => SCustomError s "" n
  | KBrokenInvariantError s m => SBrokenInvariantError s m n
  | KUnknownRevert m => SUnknownRevert m n
  | KEmptyRevert => SEmptyRevert n
  | KHalt => SHalt n
  end.

(** ** Error names *)
Record AbiError : Type := mkAbiError { err_name : string; err_selector : Selector }.
Record ErrorResolver : Type := mkResolver { names : gmap string string }.

Definition resolver_new : ErrorResolver := mkResolver ∅.

Record WallTime : Type := mkWallTime { min_ns : Z; max_ns : Z; avg_ns : Z }.
Record RpcSummary : Type := mkRpcSummary { s_hits : Z; s_misses : Z; s_wait_ns : Z }.

Record FunctionStats : Type := mkFunctionStats {
  fs_name : string;
  fs_selector : string;
  fs_calls : Z;
  successful_calls : Z;
  revert_calls : Z;
  wall_time_ns : WallTime;
  fs_rpc : RpcSummary;
  fs_reverts : list RevertSummary;
}.

Section Resolver.
Context `{Text}.

(** The first name of a selector is kept. *)
Definition with_abi (errors : list AbiError) (r : ErrorResolver) : ErrorResolver :=
  mkResolver (foldl (fun m e =>
    let selector := "0x" +:+ hex_encode (err_selector e) in
    match m !! selector with Some _ => m | None => <[selector := err_name e]> m end) (names r) errors).

(** Contracts of the compilation output, those without an ABI skipped. *)
Definition from_solc_output (abis : list (option (list AbiError))) : ErrorResolver :=
  foldl (fun r abi => match abi with Some errors => with_abi errors r | None => r end) resolver_new abis.

Definition resolve_name (r : ErrorResolver) (selector : string) : option string := names r !! selector.

Definition resolve_summary (r : ErrorResolver) (s : RevertSummary) : RevertSummary :=
  match s with
  | SCustomError selector name n =>
      if bool_decide (name = "") then
        match resolve_name r selector with
        | Some resolved => SCustomError selector resolved n
        | None => s
        end
      else s
  | _ => s
  end.

Definition resolve (r : ErrorResolver) (stats : list FunctionStats) : list FunctionStats :=
  map (fun e => mkFunctionStats (fs_name e) (fs_selector e) (fs_calls e) (successful_calls e)
    (revert_calls e) (wall_time_ns e) (fs_rpc e) (map (resolve_summary r) (fs_reverts e))) stats.
End Resolver.

(** ** Classification *)

(** The [sol!]-generated decoder of [Error(string)] and the selectors of the
    two standard errors. *)
Class SolErrors : Type := {
  error_decode : Bytes -> option string;
  ERROR_SELECTOR : Selector;
  PANIC_SELECTOR : Selector;
}.

Section Classify.
Context `{Text} `{BrokenInvariantError} `{PanicError} `{SolErrors}.

Definition classify (result : TransactionResult) : option RevertKey :=
  if success result then None
  else match output result with
  | None => Some KHalt
  | Some [] => Some KEmptyRevert
  | Some out =>
      let custom :=
        match error_decode out with
        | Some m => KError ("0x" +:+ hex_encode ERROR_SELECTOR) m
        | None =>
            match panic_decode out with
            | Some c => KPanic ("0x" +:+ hex_encode PANIC_SELECTOR) ("0x" +:+ fmt_hex c)
            | None =>
                if (4 <=? length out)%nat then KCustomError ("0x" +:+ hex_encode (take 4 out))
                else KUnknownRevert ("0x" +:+ hex_encode out)
            end
        end in
      match bie_decode out with
      | Some (id, description) =>
          if bool_decide (id = "") then Some custom
          else Some (KBrokenInvariantError ("0x" +:+ hex_encode SELECTOR)
                 (if bool_decide (description = "") then id else id +:+ ": " +:+ description))
      | None => Some custom
      end
  end.
End Classify.

(** ** Counters *)
Record FunctionCounters : Type := mkCounters {
  calls : Z;
  successful : Z;
  reverts : Z;
  wall_total_ns : Z;
  wall_min_ns : Z;
  wall_max_ns : Z;
  rpc_hits : Z;
  rpc_misses : Z;
  rpc_wait_ns : Z;
  revert_counts : gmap RevertKey Z;
}.

Definition counters_new : FunctionCounters := mkCounters 0 0 0 0 u64_max 0 0 0 0 ∅.

(** [u64::try_from(nanoseconds).unwrap_or(u64::MAX)] *)
Definition nanos (d : Z) : Z := Z.min u64_max d.

Definition count_revert (k : option RevertKey) (m : gmap RevertKey Z) : gmap RevertKey Z :=
  match k with
  | Some k => <[k := add64 (default 0 (m !! k)) 1]> m
  | None => m
  end.

Section Counters.
Context `{Text} `{BrokenInvariantError} `{PanicError} `{SolErrors}.

Definition record (c : FunctionCounters) (result : TransactionResult) : FunctionCounters :=
  let elapsed_ns := nanos (elapsed result) in
  mkCounters (add64 (calls c) 1)
    (if success result then add64 (successful c) 1 else successful c)
    (if success result then reverts c else add64 (reverts c) 1)
    (add64 (wall_total_ns c) elapsed_ns)
    (Z.min (wall_min_ns c) elapsed_ns)
    (Z.max (wall_max_ns c) elapsed_ns)
    (add64 (rpc_hits c) (hits (rpc result)))
    (add64 (rpc_misses c) (misses (rpc result)))
    (add64 (rpc_wait_ns c) (nanos (wait (rpc result))))
    (count_revert (classify result) (revert_counts c)).

Definition record_all (rs : list TransactionResult) (c : FunctionCounters) : FunctionCounters :=
  foldl record c rs.
End Counters.

(** ** The report *)
Definition summary_cmp (left right : RevertSummary) : comparison :=
  then_with (count right ?= count left)
  (then_with (String.compare (kind left) (kind right))
  (then_with (option_cmp String.compare (summary_selector left) (summary_selector right))
  (then_with (option_cmp String.compare (summary_name left) (summary_name right))
  (then_with (option_cmp String.compare (message left) (message right))
    (option_cmp String.compare (code left) (code right)))))).

(** The order in which a hash map is iterated. *)
Class HashOrder : Type := { hash_iter : gmap RevertKey Z -> list (RevertKey * Z) }.
Class HashOrderLaws `{HashOrder} : Prop := { hash_iter_perm : forall m, hash_iter m ≡ₚ map_to_list m }.

Definition sorted_reverts `{HashOrder} (m : gmap RevertKey Z) : list RevertSummary :=
  sort_by summary_cmp (map (fun p => from_key p.1 p.2) (hash_iter m)).

Definition selector_hex `{Abi} `{Text} (f : Function) : string := "0x" +:+ hex_encode (selector f).

Section Report.
Context `{Abi} `{Text} `{HashOrder}.

Definition snapshot (c : FunctionCounters) (f : Function) : FunctionStats :=
  mkFunctionStats (fn_name f) (selector_hex f) (calls c) (successful c) (reverts c)
    (mkWallTime (if calls c =? 0 then 0 else wall_min_ns c) (wall_max_ns c)
       (if calls c =? 0 then 0 else wall_total_ns c / calls c))
    (mkRpcSummary (rpc_hits c) (rpc_misses c) (rpc_wait_ns c))
    (sorted_reverts (revert_counts c)).

(** The free function [snapshot]. *)
Definition snapshot_all (cs : list FunctionCounters) (fs : list Function) : list FunctionStats :=
  zip_with snapshot cs fs.
End Report.

Record SharedStats : Type := mkSharedStats {
  st_handlers : list FunctionCounters;
  st_invariants : list FunctionCounters;
}.

Definition shared_stats_new (handler_count invariant_count : nat) : SharedStats :=
  mkSharedStats (replicate handler_count counters_new) (replicate invariant_count counters_new).

Section Shared.
Context `{Text} `{BrokenInvariantError} `{PanicError} `{SolErrors}.

(** An index out of range is ignored. *)
Definition record_handler (index : nat) (r : TransactionResult) (s : SharedStats) : SharedStats :=
  mkSharedStats (alter (fun c => record c r) index (st_handlers s)) (st_invariants s).
Definition record_invariant (index : nat) (r : TransactionResult) (s : SharedStats) : SharedStats :=
  mkSharedStats (st_handlers s) (alter (fun c => record c r) index (st_invariants s)).

Context `{Abi} `{HashOrder}.
Definition handler_stats (s : SharedStats) (handlers : list Function) : list FunctionStats :=
  snapshot_all (st_handlers s) handlers.
Definition invariant_stats (s : SharedStats) (invariants : list Function) : list FunctionStats :=
  snapshot_all (st_invariants s) invariants.
End Shared.

(** ** The saved report *)
Record StatsMetadata : Type := mkStatsMetadata {
  sm_harness : string;
  sm_address : string;
  sm_chain_id : Z;
  sm_seed : Z;
  sm_threads : Z;
  sm_max_runs : Z;
  sm_max_calls : Z;
  sm_timeout_secs : option Z;
  sm_total_sequences : Z;
  sm_total_handler_calls : Z;
  sm_total_invariant_checks : Z;
  sm_broken_invariants : Z;
  sm_rpc : RpcSummary;
}.

Record Stats : Type := mkStats {
  metadata : option StatsMetadata;
  handlers : list FunctionStats;
  invariants : list FunctionStats;
}.

Definition stats_new : Stats := mkStats None [] [].
Definition with_metadata (m : StatsMetadata) (s : Stats) : Stats := mkStats (Some m) (handlers s) (invariants s).
Definition with_handlers_stats (l : list FunctionStats) (s : Stats) : Stats := mkStats (metadata s) l (invariants s).
Definition with_invariants_stats (l : list FunctionStats) (s : Stats) : Stats := mkStats (metadata s) (handlers s) l.

Record StatsWriter : Type := mkWriter { w_root : option string; w_stats : option Stats; w_run_id : option string }.

Definition writer_new : StatsWriter := mkWriter None None None.

(** [stem] is the timestamped id that is minted when no run is set. *)
Definition file_name (w : StatsWriter) (stem : string) : string :=
  match w_run_id w with Some run => run +:+ ".json" | None => stem +:+ ".json" end.

(** The file a writer writes and the report that goes in it. *)
Definition write (w : StatsWriter) (stem : string) : Res (string * Stats) :=
  root ← context (w_root w) "root not set, call StatsWriter::new().with_root(..)";
  stats ← context (w_stats w) "stats not set, call StatsWriter::new().with_stats(..)";
  _ ← context (metadata stats) "metadata not set, call Stats::new().with_metadata(..)";
  mret (join (join (join root ".ripfuzz") "stats") (file_name w stem), stats).

(** ** Counters: what recording adds up to *)
Lemma add64_assoc a x y : add64 (add64 a x) y = add64 a (x + y).
Proof. unfold add64, wrap. rewrite Zplus_mod_idemp_l. f_equal. lia. Qed.

Lemma add64_comm a x y : add64 (add64 a x) y = add64 (add64 a y) x.
Proof. rewrite !add64_assoc. f_equal. lia. Qed.

Lemma count_revert_comm k k' m : count_revert k (count_revert k' m) = count_revert k' (count_revert k m).
Proof.
  destruct k as [k|], k' as [k'|]; try done. simpl. destruct (decide (k = k')) as [->|Hne]; [done|].
  rewrite !lookup_insert_ne by done. by apply insert_insert_ne.
Qed.

Section Counters_lemmas.
Context `{Text} `{BrokenInvariantError} `{PanicError} `{SolErrors}.

Lemma record_comm c r r' : record (record c r) r' = record (record c r') r.
Proof.
  unfold record. simpl. f_equal; try apply add64_comm; [| |lia|lia|apply count_revert_comm].
  - by destruct (success r), (success r').
  - by destruct (success r), (success r').
Qed.

(** The tally of a list of results under a key. *)
Definition tally (k : RevertKey) (rs : list TransactionResult) : Z :=
  Z.of_nat (length (filter (fun r => classify r = Some k) rs)).

Lemma classify_None r : classify r = None <-> success r = true.
Proof.
  unfold classify. destruct (success r); [done|]. split; [|done].
  destruct (output r) as [[|b out]|]; try done.
  destruct (bie_decode _) as [[id d]|]; [|done]. by case_bool_decide.
Qed.

(** A cell that was only added to. *)
Lemma record_all_snoc rs r c : record_all (rs ++ [r]) c = record (record_all rs c) r.
Proof. unfold record_all. by rewrite foldl_app. Qed.

Definition total_elapsed (rs : list TransactionResult) : Z := zsum (map (fun r => nanos (elapsed r)) rs).

Lemma filter_snoc {A} (P : A -> Prop) `{forall x, Decision (P x)} l x :
  filter P (l ++ [x]) = filter P l ++ (if decide (P x) then [x] else []).
Proof. rewrite filter_app, filter_cons. by destruct (decide (P x)). Qed.
End Counters_lemmas.

(** ** The report does not depend on an order *)
Lemma summary_cmp_lawful : lawful summary_cmp.
Proof.
  unfold summary_cmp. apply lawful_then.
  { apply (lawful_on count (fun x y => y ?= x)), lawful_reverse, lawful_Z. }
  apply lawful_then; [apply (lawful_on kind), lawful_string|].
  apply lawful_then; [apply (lawful_on summary_selector), lawful_option, lawful_string|].
  apply lawful_then; [apply (lawful_on summary_name), lawful_option, lawful_string|].
  apply lawful_then; [apply (lawful_on message), lawful_option, lawful_string|].
  apply (lawful_on code), lawful_option, lawful_string.
Qed.

(** The comparison tells the summaries of different keys apart. *)
Lemma summary_cmp_key k n k' n' :
  summary_cmp (from_key k n) (from_key k' n') = Eq -> k = k' /\ n = n'.
Proof.
  unfold summary_cmp. rewrite !then_with_Eq. intros (Hn & Hk & Hs & _ & Hm & Hc).
  apply Z.compare_eq in Hn. apply string_compare_eq in Hk.
  apply (option_cmp_eq _ _ _ string_compare_eq) in Hs, Hm, Hc.
  destruct k, k'; simpl in *; try discriminate; split; congruence.
Qed.

Lemma sorted_reverts_unique (h1 h2 : HashOrder) m :
  HashOrderLaws (H := h1) -> HashOrderLaws (H := h2) ->
  sorted_reverts (H := h1) m = sorted_reverts (H := h2) m.
Proof.
  intros H1 H2. unfold sorted_reverts. apply (sort_by_unique _ summary_cmp_lawful).
  - intros a b ([k n] & -> & _)%list_elem_of_fmap ([k' n'] & -> & _)%list_elem_of_fmap Heq.
    by apply summary_cmp_key in Heq as [-> ->].
  - apply Permutation_map. by rewrite (@hash_iter_perm h1), (@hash_iter_perm h2).
Qed.

(** ** Sums over the map of counts *)
Definition msum (m : gmap RevertKey Z) : Z := map_fold (fun _ v acc => v + acc) 0 m.

Lemma msum_insert m k v : m !! k = None -> msum (<[k := v]> m) = v + msum m.
Proof. intros Hk. unfold msum. rewrite map_fold_insert_L; [done| |done]. intros. lia. Qed.

Lemma msum_bump m k : msum (<[k := default 0 (m !! k) + 1]> m) = msum m + 1.
Proof.
  destruct (m !! k) as [v|] eqn:Hk; simpl.
  - rewrite <- (insert_delete_id m k v Hk) at 2. rewrite <- (insert_delete_eq m k (v + 1)).
    rewrite !msum_insert by (by rewrite lookup_delete_eq). lia.
  - rewrite msum_insert by done. lia.
Qed.

(** ** What the counters hold after recording a list of results *)
Section Exact.
Context `{Text} `{BrokenInvariantError} `{PanicError} `{SolErrors}.

Definition succeeded (rs : list TransactionResult) : Z := Z.of_nat (length (filter (fun r => success r = true) rs)).
Definition failed (rs : list TransactionResult) : Z := Z.of_nat (length (filter (fun r => success r = false) rs)).

Lemma succeeded_failed rs : succeeded rs + failed rs = Z.of_nat (length rs).
Proof.
  unfold succeeded, failed. induction rs as [|r rs IH]; [done|]. rewrite !filter_cons.
  destruct (success r); simpl; lia.
Qed.

Record exact (rs : list TransactionResult) (c : FunctionCounters) : Prop := {
  ex_calls : calls c = Z.of_nat (length rs);
  ex_successful : successful c = succeeded rs;
  ex_reverts : reverts c = failed rs;
  ex_total : wall_total_ns c = total_elapsed rs;
  ex_max_ub : Forall (fun r => nanos (elapsed r) <= wall_max_ns c) rs;
  ex_min_lb : Forall (fun r => wall_min_ns c <= nanos (elapsed r)) rs;
  ex_min_is : rs <> [] -> Exists (fun r => nanos (elapsed r) = wall_min_ns c) rs;
  ex_max_is : rs <> [] -> Exists (fun r => nanos (elapsed r) = wall_max_ns c) rs;
  ex_empty : rs = [] -> wall_min_ns c = u64_max /\ wall_max_ns c = 0;
  ex_counts : forall k, default 0 (revert_counts c !! k) = tally k rs;
  ex_sum : msum (revert_counts c) = failed rs;
}.

Lemma nanos_range d : 0 <= d -> 0 <= nanos d <= u64_max.
Proof. unfold nanos, u64_max. lia. Qed.

Lemma add64_exact a b : 0 <= a + b <= u64_max -> add64 a b = a + b.
Proof. intros. unfold add64. apply wrap_small. unfold u64_max in *. lia. Qed.

Lemma exact_snoc rs c r :
  exact rs c -> Z.of_nat (length rs) < u64_max -> 0 <= elapsed r ->
  0 <= total_elapsed rs -> total_elapsed (rs ++ [r]) <= u64_max ->
  exact (rs ++ [r]) (record c r).
Proof.
  intros [Hc Hs Hr Ht Hmax Hmin Hmini Hmaxi He Hk Hsum] Hlen Hel Ht0 Htot.
  pose proof (nanos_range _ Hel) as Hn. pose proof (succeeded_failed rs) as Hsf.
  assert (0 <= succeeded rs /\ 0 <= failed rs) as [Hs0 Hf0] by (unfold succeeded, failed; lia).
  assert (Ht' : total_elapsed (rs ++ [r]) = total_elapsed rs + nanos (elapsed r)).
  { unfold total_elapsed. rewrite map_app, zsum_app. simpl. lia. }
  assert (Hfr : failed (rs ++ [r]) = failed rs + (if success r then 0 else 1)).
  { unfold failed. rewrite filter_snoc, length_app. destruct (success r); simpl; lia. }
  assert (Hkey : forall k, default 0 (count_revert (classify r) (revert_counts c) !! k) = tally k (rs ++ [r])).
  { intros k. unfold tally. rewrite filter_snoc, length_app, Nat2Z.inj_add. fold (tally k rs).
    destruct (classify r) as [k'|] eqn:Ek; simpl; [|rewrite Hk; simpl; lia].
    destruct (decide (k' = k)) as [->|Hne].
    - rewrite lookup_insert_eq. simpl. rewrite decide_True by done. simpl. rewrite Hk.
      apply add64_exact. unfold tally. pose proof (length_filter (fun r => classify r = Some k) rs). lia.
    - rewrite lookup_insert_ne by done. rewrite decide_False by congruence. rewrite Hk. simpl. lia. }
  split; simpl.
  - rewrite Hc, length_app. simpl. rewrite add64_exact; lia.
  - unfold succeeded. rewrite filter_snoc, length_app, Nat2Z.inj_add. fold (succeeded rs). rewrite Hs.
    destruct (success r); simpl; [rewrite add64_exact; lia|lia].
  - rewrite Hr, Hfr. destruct (success r); [lia|]. rewrite add64_exact; lia.
  - rewrite Ht, Ht'. apply add64_exact. lia.
  - apply Forall_app. split; [|constructor; [lia|done]].
    apply (Forall_impl _ _ _ Hmax). intros x Hx. lia.
  - apply Forall_app. split; [|constructor; [lia|done]].
    apply (Forall_impl _ _ _ Hmin). intros x Hx. lia.
  - intros _. apply Exists_app. destruct (decide (nanos (elapsed r) <= wall_min_ns c)) as [Hle|Hgt].
    + right. constructor. lia.
    + left. destruct (decide (rs = [])) as [->|Hne]; [destruct (He eq_refl); lia|].
      apply (Exists_impl _ _ _ (Hmini Hne)). intros x Hx. lia.
  - intros _. apply Exists_app. destruct (decide (wall_max_ns c <= nanos (elapsed r))) as [Hle|Hgt].
    + right. constructor. lia.
    + left. destruct (decide (rs = [])) as [->|Hne]; [destruct (He eq_refl); lia|].
      apply (Exists_impl _ _ _ (Hmaxi Hne)). intros x Hx. lia.
  - intros Hnil. by destruct rs.
  - exact Hkey.
  - rewrite Hfr. destruct (classify r) as [k|] eqn:Ek.
    + assert (Hsr : success r = false).
      { destruct (success r) eqn:E; [|done]. apply classify_None in E. congruence. }
      rewrite Hsr. simpl. rewrite <- Hsum, <- msum_bump with (k := k). f_equal. f_equal.
      apply add64_exact. rewrite Hk. unfold tally.
      pose proof (length_filter (fun r => classify r = Some k) rs). lia.
    + apply classify_None in Ek. rewrite Ek. simpl. lia.
Qed.

Lemma total_elapsed_nonneg rs : Forall (fun r => 0 <= elapsed r) rs -> 0 <= total_elapsed rs.
Proof.
  intros Hel. apply zsum_nonneg, Forall_map. apply (Forall_impl _ _ _ Hel).
  intros x Hx. by apply nanos_range.
Qed.

Lemma record_all_exact rs :
  Z.of_nat (length rs) <= u64_max -> Forall (fun r => 0 <= elapsed r) rs ->
  total_elapsed rs <= u64_max -> exact rs (record_all rs counters_new).
Proof.
  induction rs as [|r rs IH] using rev_ind; intros Hlen Hel Htot.
  { split; simpl; try done; try constructor. }
  rewrite length_app in Hlen. simpl in Hlen. apply Forall_app in Hel as [Hel Her].
  apply Forall_cons in Her as [Her _]. pose proof (total_elapsed_nonneg rs Hel) as Hnn.
  assert (Htot' : total_elapsed rs <= u64_max).
  { unfold total_elapsed in *. rewrite map_app, zsum_app in Htot. simpl in Htot.
    pose proof (nanos_range _ Her). lia. }
  rewrite record_all_snoc. apply exact_snoc; [apply IH; [lia|done|done]|lia|done|done|done].
Qed.
End Exact.

(** ** Properties *)
Section Properties.
Context `{Text} `{BrokenInvariantError} `{PanicError} `{SolErrors}.

(** C23: The counters of a function are exact as long as the number of calls
    and the total time fit 64 bits: every call is counted once, as successful
    or as reverted; each kind of revert is counted as often as it occurred and
    the counts add up to the reverts; and the report gives the exact least and
    greatest time, and the floor of the mean, which lies between them. *)
Theorem stats_exact `{Abi} `{HashOrder} rs f :
  Z.of_nat (length rs) <= u64_max -> Forall (fun r => 0 <= elapsed r) rs ->
  total_elapsed rs <= u64_max ->
  let c := record_all rs counters_new in
  let s := snapshot c f in
  fs_calls s = Z.of_nat (length rs) /\
  successful_calls s + revert_calls s = fs_calls s /\
  (forall k, default 0 (revert_counts c !! k) = tally k rs) /\
  msum (revert_counts c) = revert_calls s /\
  (rs <> [] ->
     Exists (fun r => nanos (elapsed r) = min_ns (wall_time_ns s)) rs /\
     Exists (fun r => nanos (elapsed r) = max_ns (wall_time_ns s)) rs /\
     Forall (fun r => min_ns (wall_time_ns s) <= nanos (elapsed r) <= max_ns (wall_time_ns s)) rs /\
     avg_ns (wall_time_ns s) = total_elapsed rs / Z.of_nat (length rs) /\
     min_ns (wall_time_ns s) <= avg_ns (wall_time_ns s) <= max_ns (wall_time_ns s)).
Proof.
  intros Hlen Hel Htot c s. subst c s.
  destruct (record_all_exact rs Hlen Hel Htot) as [Hc Hs Hr Ht Hmax Hmin Hmini Hmaxi _ Hk Hsum].
  set (c := record_all rs counters_new) in *. simpl. split; [done|]. split; [|split; [done|split; [congruence|]]].
  { rewrite Hs, Hr, Hc. apply succeeded_failed. }
  intros Hne. assert (Hpos : 0 < Z.of_nat (length rs)) by (destruct rs; [done|simpl; lia]).
  rewrite Hc. destruct (Z.eqb_spec (Z.of_nat (length rs)) 0); [lia|].
  split; [auto|]. split; [auto|]. split; [by apply Forall_and|].
  rewrite Ht. split; [done|].
  assert (Hb : Z.of_nat (length rs) * wall_min_ns c <= total_elapsed rs <= Z.of_nat (length rs) * wall_max_ns c).
  { unfold total_elapsed. clear -Hmax Hmin. clearbody c. induction rs as [|r rs IH]; [simpl; lia|].
    apply Forall_cons in Hmax as [Hr1 Hmax]. apply Forall_cons in Hmin as [Hr2 Hmin].
    specialize (IH Hmax Hmin). simpl length. rewrite Nat2Z.inj_succ. simpl. lia. }
  split; [apply Z.div_le_lower_bound; lia|apply Z.div_le_upper_bound; lia].
Qed.

(** The report does not depend on scheduling: recording the same results in
    any order, which is what the interleaving of workers decides, and iterating
    the hash map in any order gives the same entry, reverts included, with the
    most frequent first. *)
Theorem stats_deterministic `{Abi} (h1 h2 : HashOrder) rs rs' c f :
  HashOrderLaws (H := h1) -> HashOrderLaws (H := h2) -> rs ≡ₚ rs' ->
  snapshot (H1 := h1) (record_all rs c) f = snapshot (H1 := h2) (record_all rs' c) f /\
  StronglySorted (fun a b => count b <= count a) (fs_reverts (snapshot (H1 := h1) (record_all rs c) f)).
Proof.
  intros Hh1 Hh2 Hp. split.
  - assert (Hr : record_all rs c = record_all rs' c).
    { unfold record_all. revert c. induction Hp as [| |r r' rs|rs1 rs2 rs3 _ IH1 _ IH2]; intros c; simpl; auto.
      - by rewrite record_comm.
      - by rewrite IH1. }
    rewrite Hr. unfold snapshot. by rewrite (sorted_reverts_unique h1 h2).
  - simpl. apply (strongly_sorted_impl _ _ _ (sort_by_sorted _ summary_cmp_lawful _)).
    unfold cmp_le, summary_cmp. intros a b Hab.
    destruct (Z.compare_spec (count b) (count a)); [lia|lia|by destruct Hab].
Qed.
End Properties.

(** ** Witnesses *)
Module ToyStats.
Import Toy.

#[export] Instance no_errors : SolErrors :=
  { error_decode _ := None; ERROR_SELECTOR := [8; 195; 121; 160]; PANIC_SELECTOR := [78; 72; 123; 113] }.
#[export] Instance no_panic : PanicError := { panic_decode _ := None }.
#[export] Instance no_bie : BrokenInvariantError := { SELECTOR := [9; 9; 9; 9]; bie_decode _ := None }.

#[export] Instance in_order : HashOrder := { hash_iter m := map_to_list m }.
#[export] Instance in_order_laws : HashOrderLaws (H := in_order).
Proof. by split. Qed.

Definition backwards : HashOrder := {| hash_iter m := reverse (map_to_list m) |}.
Definition backwards_laws : HashOrderLaws (H := backwards).
Proof. split. intros m. apply reverse_Permutation. Qed.

Definition taking (ns : Z) (out : option Bytes) : TransactionResult :=
  mkResult (bool_decide (out = Some [1])) 1 out [] None ns rpc_default.

Definition sample : list TransactionResult :=
  [taking 5 (Some [1]); taking 9 (Some []); taking 2 None; taking 4 (Some [])].

Definition ping : Function := mkFunction "ping" [] [] NonPayable.
End ToyStats.
Import Toy ToyStats.

Lemma stats_exact_witness :
  fs_calls (snapshot (record_all sample counters_new) ping) = 4 /\
  avg_ns (wall_time_ns (snapshot (record_all sample counters_new) ping)) = 5.
Proof.
  destruct (stats_exact sample ping) as (Hc & _ & _ & _ & Ht).
  - vm_compute. discriminate.
  - repeat constructor; vm_compute; discriminate.
  - vm_compute. discriminate.
  - split; [exact Hc|]. destruct (Ht ltac:(discriminate)) as (_ & _ & _ & Ha & _).
    rewrite Ha. vm_compute. reflexivity.
Defined.

Lemma stats_deterministic_witness :
  fs_reverts (snapshot (H1 := backwards) (record_all (reverse sample) counters_new) ping) =
    [SEmptyRevert 2; SHalt 1].
Proof.
  destruct (stats_deterministic backwards in_order (reverse sample) sample counters_new ping
    backwards_laws in_order_laws (reverse_Permutation sample)) as [Heq _].
  rewrite Heq. vm_compute. reflexivity.
Defined.
