(* ===== verification/Threads.v ===== *)
(** * Threads: worker threads over shared state

    The fuzzers run one worker per thread. A worker's own variables are local;
    what it shares with the others - counters, the stop flag, the corpus, the
    collection of findings - it reaches only through atomic operations and
    mutexes. A worker is therefore a program that alternates local computation
    with atomic actions on the shared state, and the threads interleave their
    actions in any order. *)
From S2P Require Import Prelude.

(** A program ends with a result, an error or a panic, or acts on the shared
    state and goes on. *)
Inductive Prog (S A : Type) : Type :=
| Ret (r : Res A)
| Act (f : S -> S * Prog S A).
Arguments Ret {S A} r.
Arguments Act {S A} f.

Section Induction.
Context {S A : Type} (P : Prog S A -> Prop).
Hypothesis HRet : forall r, P (Ret r).
Hypothesis HAct : forall f, (forall s, P (f s).2) -> P (Act f).

Definition Prog_ind' : forall p, P p :=
  fix go p :=
    match p with
    | Ret r => HRet r
    | Act f => HAct f (fun s => match f s as q return P q.2 with (_, p') => go p' end)
    end.
End Induction.

Section Prog.
Context {S : Type}.

Fixpoint prog_bind {A B} (k : A -> Prog S B) (p : Prog S A) : Prog S B :=
  match p with
  | Ret (Ok a) => k a
  | Ret (Err e) => Ret (Err e)
  | Ret (Panic e) => Ret (Panic e)
  | Act f => Act (fun s => let '(s', p') := f s in (s', prog_bind k p'))
  end.

#[global] Instance Prog_ret : MRet (Prog S) := fun A a => Ret (Ok a).
#[global] Instance Prog_bind : MBind (Prog S) := fun A B k p => prog_bind k p.

(** One atomic operation. *)
Definition atomic {A} (m : M S A) : Prog S A := Act (fun s => let '(r, s') := m s in (s', Ret r)).
(** An atomic read, and an atomic update. *)
Definition get {A} (f : S -> A) : Prog S A := Act (fun s => (s, Ret (Ok (f s)))).
Definition modify (f : S -> S) : Prog S unit := Act (fun s => (f s, Ret (Ok tt))).
(** A local computation. *)
Definition local {A} (r : Res A) : Prog S A := Ret r.

Definition ended {A} (p : Prog S A) : bool := match p with Ret _ => true | Act _ => false end.
End Prog.

(** ** Systems of threads

    [env] is what happens to the shared state without the workers: time
    passes. *)
Section System.
Context {S A : Type} (env : S -> S -> Prop).

Record System : Type := mkSystem { shared : S; workers : list (Prog S A) }.

Inductive step : System -> System -> Prop :=
| step_worker s ps i f s' p' :
    ps !! i = Some (Act f) -> f s = (s', p') ->
    step (mkSystem s ps) (mkSystem s' (<[i := p']> ps))
| step_env s s' ps : env s s' -> step (mkSystem s ps) (mkSystem s' ps).

Definition finished (sys : System) : Prop := Forall (fun p => ended p = true) (workers sys).

(** ** Invariants

    A program is safe for an invariant when each of its actions keeps it,
    whatever the other threads did in between. *)
Variable Inv : S -> Prop.

Fixpoint safe {B} (Q : Res B -> Prop) (p : Prog S B) : Prop :=
  match p with
  | Ret r => Q r
  | Act f => forall s, Inv s -> match f s with (s', p') => Inv s' /\ safe Q p' end
  end.

Lemma safe_bind {B C} (Q : Res C -> Prop) (k : B -> Prog S C) (p : Prog S B) :
  (forall e, Q (Err e)) -> (forall e, Q (Panic e)) ->
  safe (fun r => forall b, r = Ok b -> safe Q (k b)) p -> safe Q (p ≫= k).
Proof.
  intros He Hp. unfold mbind, Prog_bind.
  induction p as [[b|e|e]|f IH] using Prog_ind'; simpl; [auto..|].
  intros Hf s Hs. specialize (Hf s Hs). specialize (IH s). destruct (f s) as [s' p'].
  destruct Hf as [Hs' Hf]. split; [done|]. by apply IH.
Qed.

Lemma safe_weaken {B} (Q Q' : Res B -> Prop) p : (forall r, Q r -> Q' r) -> safe Q p -> safe Q' p.
Proof.
  intros HQ. induction p as [r|f IH] using Prog_ind'; simpl; [auto|].
  intros Hf s Hs. specialize (Hf s Hs). specialize (IH s). destruct (f s) as [s' p'].
  destruct Hf as [Hs' Hf]. split; [done|]. by apply IH.
Qed.

(** A step that needs nothing and leaves nothing to know. *)
Lemma safe_seq {B C} (Q : Res C -> Prop) (k : B -> Prog S C) (p : Prog S B) :
  (forall e, Q (Err e)) -> (forall e, Q (Panic e)) ->
  safe (fun _ => True) p -> (forall b, safe Q (k b)) -> safe Q (p ≫= k).
Proof.
  intros He Hp Hs Hk. apply safe_bind; [done..|]. apply (safe_weaken (fun _ => True)); [|done].
  intros r _ b _. apply Hk.
Qed.

Lemma safe_atomic {B} (Q : Res B -> Prop) (m : M S B) :
  (forall s, Inv s -> Inv (m s).2 /\ Q (m s).1) -> safe Q (atomic m).
Proof. intros Hm s Hs. specialize (Hm s Hs). by destruct (m s). Qed.

Lemma safe_get {B} (Q : Res B -> Prop) (f : S -> B) : (forall s, Inv s -> Q (Ok (f s))) -> safe Q (get f).
Proof. intros Hf s Hs. split; [done|]. by apply Hf. Qed.

Lemma safe_modify (Q : Res unit -> Prop) (f : S -> S) :
  (forall s, Inv s -> Inv (f s)) -> Q (Ok tt) -> safe Q (modify f).
Proof. intros Hf HQ s Hs. split; [by apply Hf|done]. Qed.

(** However the threads interleave, the invariant holds and every result is
    one the program allows. *)
Theorem run_invariant Q sys sys' :
  (forall s s', env s s' -> Inv s -> Inv s') ->
  rtc step sys sys' -> Inv (shared sys) -> Forall (safe Q) (workers sys) ->
  Inv (shared sys') /\ Forall (safe Q) (workers sys').
Proof.
  intros Henv. induction 1 as [sys|sys sys1 sys' Hs _ IH]; [done|]. intros HI HF.
  apply IH; destruct Hs as [s ps i f s1 p1 Hi Hf|s s1 ps He]; simpl in *; [|by eapply Henv| |done].
  - rewrite Forall_lookup in HF. specialize (HF i _ Hi s HI). rewrite Hf in HF. by destruct HF.
  - apply Forall_insert; [done|]. rewrite Forall_lookup in HF. specialize (HF i _ Hi s HI).
    rewrite Hf in HF. by destruct HF.
Qed.

(** ** Termination: whatever the shared state does, a worker cannot act for
    ever, and so neither can finitely many. *)
Inductive acts : list (Prog S A) -> list (Prog S A) -> Prop :=
| acts_worker ps i f s : ps !! i = Some (Act f) -> acts ps (<[i := (f s).2]> ps).

Lemma acts_cons_acc p ps : Acc (flip acts) ps -> Acc (flip acts) (p :: ps).
Proof.
  intros Hps. revert p. induction Hps as [ps _ IHps]. intros p.
  induction p as [r|f IHp] using Prog_ind'; constructor; intros qs Hq; unfold flip in Hq;
    inversion Hq as [ps' i f' s Hi Heq Heq']; subst; destruct i as [|i]; simpl in Hi |- *.
  - done.
  - apply IHps. by constructor.
  - injection Hi as <-. apply IHp.
  - apply IHps. by constructor.
Qed.

Theorem workers_terminate ps : Acc (flip acts) ps.
Proof.
  induction ps as [|p ps IH]; [|by apply acts_cons_acc].
  constructor. intros qs Hq. inversion Hq as [ps' i f s Hi]; subst. done.
Qed.

(** A worker that has not ended can act: nothing blocks. *)
Lemma workers_progress ps : Exists (fun p => ended p = false) ps -> forall s : S, exists qs, acts ps qs.
Proof.
  intros (p & Hin & Hp)%Exists_exists s. apply list_elem_of_lookup in Hin as [i Hi].
  destruct p as [r|f]; [done|]. eexists. by apply (acts_worker ps i f s).
Qed.

Lemma step_acts sys sys' :
  step sys sys' -> workers sys' = workers sys \/ acts (workers sys) (workers sys').
Proof.
  destruct 1 as [s ps i f s' p' Hi Hf|]; [right|by left]. simpl.
  replace p' with (f s).2 by (by rewrite Hf). by constructor.
Qed.
End System.

(** ** Costs

    A quantity of the shared state that a program raises by no more than a
    budget, and that its environment does not raise. *)
Section Cost.
Context {S : Type} (cost : S -> Z).

Fixpoint within {B} (n : Z) (p : Prog S B) : Prop :=
  match p with
  | Ret _ => 0 <= n
  | Act f => forall s, exists k, 0 <= k <= n /\
      match f s with (s', p') => cost s' <= cost s + (n - k) /\ within k p' end
  end.

Lemma within_mono {B} n n' (p : Prog S B) : n <= n' -> within n p -> within n' p.
Proof.
  intros Hle. destruct p as [r|f]; simpl; [lia|]. intros Hf s. destruct (Hf s) as (k & Hk & Hs).
  exists k. split; [lia|]. destruct (f s) as [s' p']. split; [lia|]. apply Hs.
Qed.

(** A program that leaves the cost alone, followed by one with a budget. *)
Lemma within_bind {B C} n (k : B -> Prog S C) (p : Prog S B) :
  0 <= n -> within 0 p -> (forall b, within n (k b)) -> within n (p ≫= k).
Proof.
  intros Hn Hp Hk. revert Hp. unfold mbind, Prog_bind.
  induction p as [[b|e|e]|f IH] using Prog_ind'; simpl; [done..|].
  intros Hp s. destruct (Hp s) as (m & Hm & Hs). exists n. split; [lia|]. specialize (IH s).
  destruct (f s) as [s' p']. destruct Hs as [Hc Hs]. split; [lia|]. apply IH.
  by replace 0 with m by lia.
Qed.

Lemma within_act {B} n (f : S -> S * Prog S B) :
  (forall s, cost (f s).1 <= cost s /\ within n (f s).2) -> 0 <= n -> within n (Act f).
Proof.
  intros Hf Hn s. exists n. split; [lia|]. destruct (Hf s). destruct (f s) as [s' p']. simpl in *.
  split; [lia|done].
Qed.

Lemma within_atomic {B} (m : M S B) : (forall s, cost (m s).2 <= cost s) -> within 0 (atomic m).
Proof. intros Hm. apply within_act; [|done]. intros s. specialize (Hm s). by destruct (m s). Qed.

Lemma within_modify (f : S -> S) : (forall s, cost (f s) <= cost s) -> within 0 (modify f).
Proof. intros Hf. apply within_act; [|done]. intros s. split; [apply Hf|done]. Qed.

Lemma within_get {B} n (f : S -> B) : 0 <= n -> within n (get f).
Proof. intros Hn. apply within_act; [|done]. intros s. split; [simpl; lia|done]. Qed.

Lemma within_then {B C} (k : B -> Prog S C) (p : Prog S B) :
  within 0 p -> (forall b, within 0 (k b)) -> within 0 (p ≫= k).
Proof. intros Hp Hk. by apply within_bind. Qed.
End Cost.

(** ** Draws: the generator of a worker is local *)
Section Draws.
Context {S R : Type}.

Definition draw_local {A} (m : M R A) (r : R) : Prog S (A * R) :=
  match m r with
  | (Ok a, r') => mret (a, r')
  | (Err e, _) => local (Err e)
  | (Panic p, _) => local (Panic p)
  end.

Lemma safe_draw (Inv : S -> Prop) {A B} (Q : Res B -> Prop) (m : M R A) r (k : A * R -> Prog S B) :
  (forall x, Q (Err x)) -> (forall x, Q (Panic x)) ->
  (forall a r', m r = (Ok a, r') -> safe Inv Q (k (a, r'))) ->
  safe Inv Q (draw_local m r ≫= k).
Proof. intros He Hp Hk. unfold draw_local. destruct (m r) as [[a|x|x] r'] eqn:E; [by apply Hk|apply He|apply Hp]. Qed.

Lemma within_draw (cost : S -> Z) {A} n (m : M R A) r : 0 <= n -> within cost n (draw_local m r).
Proof. intros Hn. unfold draw_local. by destruct (m r) as [[a|x|x] r']. Qed.
End Draws.

(** ** Schedules that end *)
Section Drive.
Context {S A : Type} (env : S -> S -> Prop).

(** Running the first worker that can act, at most [n] times. *)
Fixpoint drive (n : nat) (sys : System (S := S) (A := A)) : System :=
  match n with
  | O => sys
  | Datatypes.S n' =>
      match list_find (fun p => ended p = false) (workers sys) with
      | Some (i, Act f) => let '(s', p') := f (shared sys) in drive n' (mkSystem s' (<[i := p']> (workers sys)))
      | _ => sys
      end
  end.

Lemma drive_reaches n sys : rtc (step env) sys (drive n sys).
Proof.
  revert sys. induction n as [|n IH]; intros [s ps]; simpl; [done|].
  destruct (list_find _ ps) as [[i [r|f]]|] eqn:E; [done| |done].
  apply list_find_Some in E as (Hi & _). destruct (f s) as [s' p'] eqn:Ef.
  eapply rtc_l; [by eapply step_worker|apply IH].
Qed.

Definition all_ended (sys : System (S := S) (A := A)) : bool := forallb ended (workers sys).

Lemma all_ended_finished sys : all_ended sys = true -> finished sys.
Proof. unfold all_ended, finished. rewrite forallb_forall, Forall_forall. setoid_rewrite list_elem_of_In. auto. Qed.

(** Every system of workers has a run to its end. *)
Theorem runs_to_end sys : exists sys', rtc (step (A := A) env) sys sys' /\ finished sys'.
Proof.
  destruct sys as [s ps]. revert s. induction (workers_terminate ps) as [ps _ IH]. intros s.
  destruct (decide (Exists (fun p => ended p = false) ps)) as [Hex|Hno].
  - apply Exists_exists in Hex as (p & Hin & Hp). apply list_elem_of_lookup in Hin as [i Hi].
    destruct p as [r|f]; [done|]. destruct (f s) as [s' p'] eqn:Ef.
    destruct (IH (<[i := p']> ps)) with (s := s') as (sys' & Hr & Hf).
    { unfold flip. replace p' with (f s).2 by (by rewrite Ef). by constructor. }
    exists sys'. split; [|done]. eapply rtc_l; [by eapply step_worker|done].
  - exists (mkSystem s ps). split; [done|]. unfold finished. simpl. apply Forall_forall. intros p Hp.
    destruct (ended p) eqn:E; [done|]. exfalso. apply Hno, Exists_exists. eauto.
Qed.

(** No schedule is infinite, and a system that has not finished can act. *)
Theorem system_terminates (sys : System (S := S) (A := A)) :
  Acc (flip acts) (workers sys) /\
  (~ finished sys -> exists sys', step env sys sys' /\ acts (workers sys) (workers sys')).
Proof.
  split; [apply workers_terminate|]. destruct sys as [s ps]. simpl. intros Hno.
  destruct (decide (Exists (fun p => ended p = false) ps)) as [(p & Hin & Hp)%Exists_exists|Hex].
  - apply list_elem_of_lookup in Hin as [i Hi]. destruct p as [r|f]; [done|].
    exists (mkSystem (f s).1 (<[i := (f s).2]> ps)). split; [|by constructor].
    apply (step_worker env s ps i f); [done|by destruct (f s)].
  - exfalso. apply Hno. apply Forall_forall. intros p Hp. destruct (ended p) eqn:E; [done|].
    exfalso. apply Hex, Exists_exists. eauto.
Qed.
End Drive.

Section Run_cost.
Context {S A : Type} (env : S -> S -> Prop) (cost : S -> Z).
Hypothesis Henv : forall s s', env s s' -> cost s' <= cost s.

Lemma within_nonneg {B} n (p : Prog S B) (s : S) : within cost n p -> 0 <= n.
Proof. destruct p as [r|f]; simpl; [done|]. intros Hf. destruct (Hf s) as (k & Hk & _). lia. Qed.

Lemma zsum_insert_lookup (l : list Z) i x y : l !! i = Some x -> zsum (<[i := y]> l) = zsum l - x + y.
Proof.
  revert i. induction l as [|z l IH]; intros [|i] Hi; simpl in *; [done..|simplify_eq; lia|].
  rewrite (IH i Hi). lia.
Qed.

(** However the threads interleave, the cost stays within their budgets. *)
Theorem run_cost (sys sys' : System) ns :
  rtc (step (A := A) env) sys sys' -> Forall2 (within cost) ns (workers sys) ->
  cost (shared sys') <= cost (shared sys) + zsum ns.
Proof.
  intros Hrun. revert ns.
  induction Hrun as [sys|sys sys1 sys' Hs _ IH]; intros ns HF.
  - assert (0 <= zsum ns); [|lia]. apply zsum_nonneg. clear -HF.
    induction HF as [|n p ns ps Hn _ IH]; constructor; [by eapply within_nonneg; [exact (shared sys)|]|done].
  - destruct Hs as [s ps i f s1 p1 Hi Hf|s s1 ps He]; simpl in *.
    + destruct (Forall2_lookup_r _ _ _ _ _ HF Hi) as (n & Hn & Hw). simpl in Hw.
      destruct (Hw s) as (k & Hk & Hc). rewrite Hf in Hc. destruct Hc as [Hc Hw'].
      specialize (IH (<[i := k]> ns)). rewrite (zsum_insert_lookup _ _ _ _ Hn) in IH.
      etrans; [apply IH; by apply Forall2_insert|lia].
    + specialize (IH ns HF). specialize (Henv _ _ He). lia.
Qed.
End Run_cost.

(** ** Loops *)
Section Loops.
Context {S X : Type}.

(** [for x in l { .. }] *)
Fixpoint for_each (l : list X) (f : X -> Prog S unit) : Prog S unit :=
  match l with
  | [] => mret tt
  | x :: l' => _ ← f x; for_each l' f
  end.

Lemma safe_for_each (Inv : S -> Prop) (l : list X) (f : X -> Prog S unit) :
  (forall x, x ∈ l -> safe Inv (fun _ => True) (f x)) -> safe Inv (fun _ => True) (for_each l f).
Proof.
  induction l as [|x l IH]; intros Hf; simpl; [done|]. apply safe_bind; [done..|].
  apply (safe_weaken Inv (fun _ => True)); [|apply Hf; left].
  intros _ _ u _. apply IH. intros y Hy. apply Hf. by right.
Qed.

Lemma within_for_each (cost : S -> Z) (l : list X) (f : X -> Prog S unit) :
  (forall x, x ∈ l -> within cost 0 (f x)) -> within cost 0 (for_each l f).
Proof.
  induction l as [|x l IH]; intros Hf; simpl; [done|]. apply within_bind; [done|apply Hf; left|].
  intros _. apply IH. intros y Hy. apply Hf. by right.
Qed.
End Loops.

(** ** Splitting a budget: [split_runs] of both fuzzers *)
Definition split_runs (runs threads : Z) : Res (list Z) :=
  if threads =? 0 then Panic "attempt to divide by zero"
  else
    let base := runs / threads in
    let remainder := runs mod threads in
    Ok (map (fun index => base + (if Z.of_nat index <? remainder then 1 else 0)) (seq 0 (Z.to_nat threads))).

Lemma zsum_split base rem n m :
  0 <= rem -> zsum (map (fun i => base + (if Z.of_nat i <? rem then 1 else 0)) (seq n m)) =
    Z.of_nat m * base + Z.max 0 (Z.min (rem - Z.of_nat n) (Z.of_nat m)).
Proof.
  intros Hr. revert n. induction m as [|m IH]; intros n; simpl seq; simpl map; simpl zsum; [lia|].
  rewrite IH. destruct (Z.ltb_spec (Z.of_nat n) rem); lia.
Qed.

(** The budgets of the threads add up to the whole and differ by one at most. *)
Lemma split_runs_exact runs threads :
  0 <= runs -> 0 < threads ->
  exists l, split_runs runs threads = Ok l /\ Z.of_nat (length l) = threads /\ zsum l = runs /\
    Forall (fun b => runs / threads <= b <= runs / threads + 1) l.
Proof.
  intros Hr Ht. unfold split_runs. destruct (Z.eqb_spec threads 0); [lia|]. eexists. split; [done|].
  rewrite length_map, length_seq. split; [lia|]. split.
  - pose proof (Z.mod_pos_bound runs threads Ht) as Hm.
    rewrite zsum_split by lia. rewrite Z2Nat.id by lia. simpl.
    rewrite Z.max_r, Z.sub_0_r, Z.min_l by lia. pose proof (Z.div_mod runs threads). lia.
  - apply Forall_map, Forall_forall. intros i _. simpl. destruct (_ <? _); lia.
Qed.

(** ** A counter of runs *)
Section Runs.
Context {S : Type} (env : S -> S -> Prop) (runs : S -> Z).

(** The counter is a [u64]. *)
Definition runs_cost (s : S) : Z := wrap 64 (runs s).
Hypothesis Henv : forall s s', env s s' -> runs s' = runs s.

(** An increment spends one unit of the budget. *)
Lemma within_increment {B} n (f : S -> S) (k : unit -> Prog S B) :
  0 <= n -> (forall s, runs (f s) = wrap 64 (runs s + 1)) -> within runs_cost n (k tt) ->
  within runs_cost (n + 1) (modify f ≫= k).
Proof.
  intros Hn Hf Hk s. exists n. split; [lia|]. split; [|exact Hk].
  unfold runs_cost, wrap. rewrite Hf. unfold wrap. rewrite Z.mod_mod by lia.
  rewrite <- (Zplus_mod_idemp_l (runs s)). pose proof (Z.mod_pos_bound (runs s) (2 ^ 64)).
  pose proof (Z.mod_le (runs s mod 2 ^ 64 + 1) (2 ^ 64)). lia.
Qed.

(** Workers that keep to the shares of a budget keep to the budget. *)
Theorem split_runs_cost (worker : nat -> Z -> Prog S unit) max_runs threads budgets s sys :
  0 <= max_runs -> 0 <= threads -> split_runs max_runs threads = Ok budgets ->
  (forall i b, 0 <= b -> within runs_cost b (worker i b)) -> runs s = 0 ->
  rtc (step env) (mkSystem s (imap worker budgets)) sys ->
  0 <= runs (shared sys) < 2 ^ 64 -> runs (shared sys) <= max_runs.
Proof.
  intros Hm Ht Hsp Hw Hr0 Hsteps Hn.
  assert (Ht' : 0 < threads).
  { unfold split_runs in Hsp. destruct (Z.eqb_spec threads 0); [done|lia]. }
  destruct (split_runs_exact max_runs threads Hm Ht') as (l & Hl' & _ & Hsum & Hb).
  rewrite Hsp in Hl'. injection Hl' as <-.
  assert (HF : Forall2 (within runs_cost) budgets (imap worker budgets)).
  { apply Forall2_same_length_lookup. split; [by rewrite length_imap|]. intros i b p Hi Hp.
    rewrite list_lookup_imap, Hi in Hp. injection Hp as <-. apply Hw.
    rewrite Forall_lookup in Hb. specialize (Hb i b Hi). pose proof (Z.div_pos max_runs threads). lia. }
  assert (He : forall s1 s2, env s1 s2 -> runs_cost s2 <= runs_cost s1).
  { intros s1 s2 Hs. unfold runs_cost. by rewrite (Henv _ _ Hs). }
  pose proof (run_cost env runs_cost He (mkSystem s (imap worker budgets)) sys budgets Hsteps HF) as Hcost.
  unfold runs_cost in Hcost. simpl in Hcost. rewrite Hr0, Hsum in Hcost.
  rewrite (wrap_small 64 (runs (shared sys))) in Hcost by done. exact Hcost.
Qed.
End Runs.

(** ** What every action does

    [steps R]: each action of a program relates the shared state before and
    after it by [R]. *)
Section Steps.
Context {S : Type} (R : S -> S -> Prop).

Fixpoint steps {B} (p : Prog S B) : Prop :=
  match p with
  | Ret _ => True
  | Act f => forall s, match f s with (s', p') => R s s' /\ steps p' end
  end.

Lemma steps_bind {B C} (k : B -> Prog S C) (p : Prog S B) :
  steps p -> (forall b, steps (k b)) -> steps (p ≫= k).
Proof.
  intros Hp Hk. revert Hp. unfold mbind, Prog_bind.
  induction p as [[b|e|e]|f IH] using Prog_ind'; simpl; [done..|].
  intros Hp s. specialize (Hp s). specialize (IH s). destruct (f s) as [s' p']. destruct Hp. split; [done|]. by apply IH.
Qed.

Lemma steps_act {B} (f : S -> S * Prog S B) : (forall s, R s (f s).1 /\ steps (f s).2) -> steps (Act f).
Proof. intros Hf s. specialize (Hf s). by destruct (f s). Qed.

Lemma steps_atomic {B} (m : M S B) : (forall s, R s (m s).2) -> steps (atomic m).
Proof. intros Hm. apply steps_act. intros s. specialize (Hm s). by destruct (m s). Qed.

Lemma steps_modify f : (forall s, R s (f s)) -> steps (modify f).
Proof. intros Hf. apply steps_act. intros s. split; [apply Hf|done]. Qed.

Lemma steps_get {B} (f : S -> B) : Reflexive R -> steps (get f).
Proof. intros Hr. apply steps_act. intros s. split; [apply Hr|done]. Qed.

Lemma steps_for_each {X} (l : list X) f : (forall x, x ∈ l -> steps (f x)) -> steps (for_each l f).
Proof.
  induction l as [|x l IH]; intros Hf; simpl; [done|]. apply steps_bind; [apply Hf; left|].
  intros _. apply IH. intros y Hy. apply Hf. by right.
Qed.

Lemma steps_draw {Rng A} (m : M Rng A) r : steps (draw_local m r).
Proof. unfold draw_local. by destruct (m r) as [[a|x|x] r']. Qed.

Lemma steps_within {B} (cost : S -> Z) (p : Prog S B) :
  (forall s s', R s s' -> cost s' <= cost s) -> steps p -> within cost 0 p.
Proof.
  intros Hc. induction p as [r|f IH] using Prog_ind'; simpl; [done|].
  intros Hp s. specialize (Hp s). specialize (IH s). destruct (f s) as [s' p']. destruct Hp as [Hr Hp].
  exists 0. split; [lia|]. split; [specialize (Hc _ _ Hr); lia|by apply IH].
Qed.
End Steps.

(** ** Rely and guarantee

    Every action of every thread, and the environment, keeps to the relation
    [G]; so what a thread knows of the shared state, when [G] preserves it, is
    still so at its next action. *)
Section Guarantee.
Context {S : Type} (G : S -> S -> Prop).

Definition stable (K : S -> Prop) : Prop := forall s s', K s -> G s s' -> K s'.
Definition anything : S -> Prop := fun _ => True.

Fixpoint guards {B} (K : S -> Prop) (p : Prog S B) : Prop :=
  match p with
  | Ret _ => True
  | Act f => forall s, K s ->
      match f s with (s', p') => G s s' /\ exists K', stable K' /\ K' s' /\ guards K' p' end
  end.

Lemma guards_weaken {B} (K K' : S -> Prop) (p : Prog S B) : (forall s, K s -> K' s) -> guards K' p -> guards K p.
Proof. destruct p as [r|f]; intros HK Hp; [done|]. intros s Hs. exact (Hp s (HK s Hs)). Qed.

Lemma guards_bind {B C} K (k : B -> Prog S C) (p : Prog S B) :
  guards K p -> (forall b, guards anything (k b)) -> guards K (p ≫= k).
Proof.
  intros Hp Hk. revert K Hp. unfold mbind, Prog_bind.
  induction p as [[b|e|e]|f IH] using Prog_ind'; intros K; simpl; [|done..|].
  - intros _. by apply (guards_weaken K anything).
  - intros Hp s Hs. specialize (Hp s Hs). specialize (IH s). destruct (f s) as [s' p'].
    destruct Hp as [Hg (K' & Hst & HK' & Hp)]. split; [done|]. exists K'. auto.
Qed.

Lemma guards_act {B} K (f : S -> S * Prog S B) :
  (forall s, K s -> G s (f s).1 /\ guards anything (f s).2) -> guards K (Act f).
Proof.
  intros Hf s Hs. specialize (Hf s Hs). destruct (f s) as [s' p']. destruct Hf. split; [done|]. by exists anything.
Qed.

Lemma guards_atomic {B} K (m : M S B) : (forall s, G s (m s).2) -> guards K (atomic m).
Proof. intros Hm. apply guards_act. intros s _. specialize (Hm s). by destruct (m s). Qed.

Lemma guards_modify K f : (forall s, K s -> G s (f s)) -> guards K (modify f).
Proof. intros Hf. apply guards_act. intros s Hs. split; [by apply Hf|done]. Qed.

Lemma guards_get {B} K (f : S -> B) : Reflexive G -> guards K (get f).
Proof. intros Hr. apply guards_act. intros s _. split; [apply Hr|done]. Qed.

(** An action after which something is known. *)
Lemma guards_learn {B} K K' f (k : unit -> Prog S B) :
  (forall s, K s -> G s (f s) /\ K' (f s)) -> stable K' -> guards K' (k tt) -> guards K (modify f ≫= k).
Proof. intros Hf Hst Hk s Hs. destruct (Hf s Hs) as [Hg HK']. split; [done|]. by exists K'. Qed.

Lemma guards_for_each {X} (l : list X) f : (forall x, x ∈ l -> guards anything (f x)) -> guards anything (for_each l f).
Proof.
  induction l as [|x l IH]; intros Hf; simpl; [done|]. apply guards_bind; [apply Hf; left|].
  intros _. apply IH. intros y Hy. apply Hf. by right.
Qed.

Lemma guards_draw {Rng A} K (m : M Rng A) r : guards K (draw_local m r).
Proof. unfold draw_local. by destruct (m r) as [[a|x|x] r']. Qed.

Context {A : Type} (env : S -> S -> Prop).
Hypothesis Henv : forall s s', env s s' -> G s s'.

Definition guarded (sys : System (S := S) (A := A)) : Prop :=
  Forall (fun p => exists K, stable K /\ K (shared sys) /\ guards K p) (workers sys).

Lemma guarded_start s ps : Forall (guards anything) ps -> guarded (mkSystem s ps).
Proof. intros HF. eapply Forall_impl; [exact HF|]. intros p Hp. by exists anything. Qed.

Lemma guarded_step sys sys' : step env sys sys' -> guarded sys -> guarded sys' /\ G (shared sys) (shared sys').
Proof.
  intros Hs HF. assert (Hkeep : forall s s' ps, G s s' -> guarded (mkSystem s ps) -> guarded (mkSystem s' ps)).
  { intros s s' ps Hg Hp. eapply Forall_impl; [exact Hp|]. intros p (K & Hst & HK & Hgp). exists K. eauto. }
  destruct Hs as [s ps i f s1 p1 Hi Hf|s s1 ps He]; simpl in *.
  - pose proof HF as HF'. unfold guarded in HF'. rewrite Forall_lookup in HF'.
    destruct (HF' i _ Hi) as (K & _ & HK & Hp). specialize (Hp s HK). rewrite Hf in Hp.
    destruct Hp as [Hg HK1]. split; [|done]. apply Forall_insert; [|done]. exact (Hkeep s s1 ps Hg HF).
  - split; [|by apply Henv]. apply (Hkeep s); [by apply Henv|done].
Qed.

(** However the threads interleave, a run keeps to the relation. *)
Theorem run_guarantee `{!PreOrder G} sys sys' :
  rtc (step env) sys sys' -> guarded sys -> guarded sys' /\ G (shared sys) (shared sys').
Proof.
  induction 1 as [sys|sys sys1 sys' Hs _ IH]; intros HF; [by split|].
  destruct (guarded_step _ _ Hs HF) as [HF1 Hg1]. destruct (IH HF1) as [HF' Hg]. split; [done|]. by etrans.
Qed.
End Guarantee.

(** ** Work

    A quantity that a program raises by at least a budget before it ends well,
    unless the others have been told to stop. *)
Section Work.
Context {S : Type} (cost : S -> Z) (good over : S -> Prop).

Fixpoint spends {B} (n : Z) (p : Prog S B) : Prop :=
  match p with
  | Ret (Ok _) => n <= 0
  | Ret _ => True
  | Act f => forall s, good s ->
      match f s with (s', p') => over s' \/ exists k, cost s + (n - k) <= cost s' /\ spends k p' end
  end.

Lemma spends_bind {B C} (R : S -> S -> Prop) n (k : B -> Prog S C) (p : Prog S B) :
  (forall s s', R s s' -> cost s <= cost s') -> steps R p -> (forall b, spends n (k b)) -> spends n (p ≫= k).
Proof.
  intros Hc Hp Hk. revert Hp. unfold mbind, Prog_bind.
  induction p as [[b|e|e]|f IH] using Prog_ind'; simpl; [done..|].
  intros Hp s Hg. specialize (Hp s). specialize (IH s). destruct (f s) as [s' p']. destruct Hp as [Hr Hp].
  right. exists n. split; [specialize (Hc _ _ Hr); lia|by apply IH].
Qed.

(** A check that ends the program only when it is over. *)
Lemma spends_check {B} n (c : S -> bool) (k : bool -> Prog S B) :
  (forall s, c s = true -> over s) -> spends n (k false) -> spends n (get c ≫= k).
Proof.
  intros Hc Hk s _. cbn. destruct (c s) eqn:E; [left; by apply Hc|right]. exists n. split; [lia|done].
Qed.

(** An action that raises the quantity. *)
Lemma spends_raise {B} n f (k : unit -> Prog S B) :
  (forall s, good s -> cost s + 1 <= cost (f s)) -> spends n (k tt) -> spends (n + 1) (modify f ≫= k).
Proof. intros Hf Hk s Hg. cbn. right. exists n. split; [specialize (Hf s Hg); lia|done]. Qed.

Context {A : Type} (env G : S -> S -> Prop) `{!PreOrder G}.
Hypothesis Henv : forall s s', env s s' -> G s s' /\ cost s <= cost s'.
Hypothesis Hover : stable G over.

(** However the threads interleave, what has been raised and what is left to
    raise make the budgets, until it is over. *)
Theorem run_spends (sys sys' : System (S := S) (A := A)) ns :
  rtc (step env) sys sys' -> guarded G sys -> Forall2 spends ns (workers sys) ->
  (forall sys1, rtc (step env) sys sys1 -> good (shared sys1)) ->
  over (shared sys') \/
  exists ns', Forall2 spends ns' (workers sys') /\ cost (shared sys) + zsum ns <= cost (shared sys') + zsum ns'.
Proof.
  intros Hrun. revert ns. induction Hrun as [sys|sys sys1 sys' Hs Hrun IH]; intros ns Hgu HF Hgood.
  { right. exists ns. split; [done|lia]. }
  destruct (guarded_step G env ltac:(intros ? ? He; by apply Henv in He as [? _]) _ _ Hs Hgu) as [Hgu1 Hg1].
  assert (Hend : over (shared sys1) -> over (shared sys')).
  { intros Ho. apply (Hover _ _ Ho). apply (run_guarantee G env ltac:(intros ? ? He; by apply Henv in He as [? _]) _ _ Hrun Hgu1). }
  assert (Hgood1 : forall sys2, rtc (step env) sys1 sys2 -> good (shared sys2)) by (intros sys2 Hr; apply Hgood; by eapply rtc_l).
  pose proof (Hgood sys (rtc_refl _ _)) as Hg0.
  destruct Hs as [s ps i f s1 p1 Hi Hf|s s1 ps He]; simpl in *.
  - destruct (Forall2_lookup_r _ _ _ _ _ HF Hi) as (n & Hn & Hw). specialize (Hw s Hg0). rewrite Hf in Hw.
    destruct Hw as [Ho|(k & Hk & Hw)]; [left; by apply Hend|].
    destruct (IH (<[i := k]> ns) Hgu1 ltac:(by apply Forall2_insert) Hgood1) as [?|(ns' & HF' & Hle)]; [by left|right].
    exists ns'. split; [done|]. rewrite (zsum_insert_lookup _ _ _ _ Hn) in Hle. lia.
  - apply Henv in He as [_ He]. destruct (IH ns Hgu1 HF Hgood1) as [?|(ns' & HF' & Hle)]; [by left|right].
    exists ns'. split; [done|lia].
Qed.

(** Programs that have ended well have nothing left to raise. *)
Lemma spends_ended {B} ns (ps : list (Prog S B)) :
  Forall2 spends ns ps -> Forall (fun p => exists b, p = Ret (Ok b)) ps -> zsum ns <= 0.
Proof.
  induction 1 as [|n p ns ps Hn _ IH]; intros HF; simpl; [lia|]. apply Forall_cons in HF as [[b ->] HF].
  simpl in Hn. specialize (IH HF). lia.
Qed.
End Work.
