(* ===== verification/TestFuzzer.v ===== *)
(** * TestFuzzer: the worker threads of the tester

    Models [tester/fuzzer.rs]. A worker extends snapshots of the corpus with
    fresh calls, checks the harness after every call, and collects what breaks.
    Its own variables are local; counters, stop flag, corpus, coverage,
    findings and statistics are shared, and every access to them is one atomic
    action (a merge of coverage, which the code does cell by cell, is one
    action here). Log lines are left out. *)
From S2P Require Import Prelude.
From S2P Require Import Env.
From S2P Require Import Transaction.
From S2P Require Import Coverage.
From S2P Require Import ChainApi.
From S2P Require Import Stats.
From S2P Require Import Literal.
From S2P Require Import Rvg.
From S2P Require Import TestSequence.
From S2P Require Import Stop.
From S2P Require Import TestBroken.
From S2P Require Import TestCorpus.
From S2P Require Import Threads.

Section Fuzzer.
Context {Chain Trace R : Type} `{ChainOps Chain Trace} `{FastRand R} `{Abi} `{Text}.
Context `{Transaction.BrokenInvariantError} `{PanicError} `{SolErrors} `{HexNumber}.

(** The resolved inputs that do not change during a run. *)
Record Execution : Type := mkExecution {
  ex_chain : Chain;
  ex_target : Address;
  ex_deployer : Address;
  ex_handlers : list Function;
  ex_invariants : list Function;
  ex_literals : LiteralExtractor;
  ex_seed : Z;
  ex_threads : Z;
  ex_max_runs : Z;
  ex_max_calls : Z;
  ex_stop_on_revert : option StopOnRevert;
  ex_stop_on_panic : option StopOnPanic;
}.

(** What the workers share. [now] is the clock, in the unit of the deadline. *)
Record Shared : Type := mkShared {
  runs : Z;
  calls_made : Z;
  gas : Z;
  stop : bool;
  deadline : option Z;
  now : Z;
  corpus : Corpus Chain;
  coverage_map : SharedCoverage;
  broken : SharedBrokenInvariants;
  stats : SharedStats;
}.

Definition shared_new (deadline : option Z) (start : Z) (c : Corpus Chain) (cov : SharedCoverage)
    (b : SharedBrokenInvariants) (st : SharedStats) : Shared :=
  mkShared 0 0 0 false deadline start c cov b st.

Definition record_run (s : Shared) : Shared :=
  mkShared (add64 (runs s) 1) (calls_made s) (gas s) (stop s) (deadline s) (now s) (corpus s)
    (coverage_map s) (broken s) (stats s).
Definition record_call (s : Shared) : Shared :=
  mkShared (runs s) (add64 (calls_made s) 1) (gas s) (stop s) (deadline s) (now s) (corpus s)
    (coverage_map s) (broken s) (stats s).
Definition record_gas (rs : list TransactionResult) (s : Shared) : Shared :=
  mkShared (runs s) (calls_made s) (add64 (gas s) (foldl add64 0 (map gas_used rs))) (stop s)
    (deadline s) (now s) (corpus s) (coverage_map s) (broken s) (stats s).
Definition request_stop (s : Shared) : Shared :=
  mkShared (runs s) (calls_made s) (gas s) true (deadline s) (now s) (corpus s) (coverage_map s)
    (broken s) (stats s).
Definition timed_out (s : Shared) : bool :=
  match deadline s with Some d => d <=? now s | None => false end.

Definition set_corpus (c : Corpus Chain) (s : Shared) : Shared :=
  mkShared (runs s) (calls_made s) (gas s) (stop s) (deadline s) (now s) c (coverage_map s)
    (broken s) (stats s).
Definition set_coverage (cov : SharedCoverage) (s : Shared) : Shared :=
  mkShared (runs s) (calls_made s) (gas s) (stop s) (deadline s) (now s) (corpus s) cov
    (broken s) (stats s).
Definition set_broken (b : SharedBrokenInvariants) (s : Shared) : Shared :=
  mkShared (runs s) (calls_made s) (gas s) (stop s) (deadline s) (now s) (corpus s)
    (coverage_map s) b (stats s).
Definition set_stats (st : SharedStats) (s : Shared) : Shared :=
  mkShared (runs s) (calls_made s) (gas s) (stop s) (deadline s) (now s) (corpus s)
    (coverage_map s) (broken s) st.

(** Time passes. *)
Inductive tick : Shared -> Shared -> Prop :=
| tick_to s t : now s <= t ->
    tick s (mkShared (runs s) (calls_made s) (gas s) (stop s) (deadline s) t (corpus s)
              (coverage_map s) (broken s) (stats s)).

#[local] Abbreviation Worker := (Prog Shared).

(** ** Executing a sequence *)

Definition score (u : CoverageUpdate) : Z := wrap 64 (update_total u).

(** Merging the coverage of an execution, when there is any, adds to the
    novelty of the sequence. *)
Definition merge_coverage (o : ExecOutput Trace) (edges : Z) : Worker Z :=
  match coverage o with
  | None => mret edges
  | Some local_map =>
      u ← atomic (fun s => match merge (coverage_map s) local_map with
                  | Ok (cov, u) => (Ok u, set_coverage cov s)
                  | Err m => (Err m, s)
                  | Panic p => (Panic p, s)
                  end);
      mret (add64 edges (score u))
  end.

Definition add_finding (cs : list Call) (i d : string) : Worker unit :=
  modify (fun s =>
    let b := with_description (with_id (with_calls TestBroken.new (mkSequence cs)) i) d in
    set_broken (try_add b (broken s)).2 s).

Definition add_reports (cs : list Call) (reports : list Transaction.BrokenInvariant) : Worker unit :=
  for_each reports (fun r => add_finding cs (bi_id r) (bi_description r)).

(** The finding of a result that matches a stop filter. *)
Definition revert_stop (e : Execution) (r : TransactionResult) : option string :=
  f ← ex_stop_on_revert e; if revert_matches f r then Some (revert_finding_id r) else None.
Definition panic_stop (e : Execution) (r : TransactionResult) : option string :=
  f ← ex_stop_on_panic e; if panic_matches f r then Some (panic_finding_id r) else None.

(** [None]: the sequence ended early. *)
Definition halt {A} (cs : list Call) (i : string) : Worker (option A) :=
  _ ← add_finding cs i ""; _ ← modify request_stop; mret None.

Definition invariant_transaction (f : Function) (tgt clr : Address) : Transaction :=
  with_calldata (with_caller (Transaction_new tgt) clr) (selector f).

Definition invariant_call (f : Function) : Call := mkCall f (VTuple []).

(** The first invariant with a result that a filter stops on. *)
Fixpoint first_stop (find : TransactionResult -> option string) (fs : list Function)
    (rs : list TransactionResult) : option (Function * string) :=
  match fs, rs with
  | f :: fs', r :: rs' => match find r with Some i => Some (f, i) | None => first_stop find fs' rs' end
  | _, _ => None
  end.

(** Step 3: the invariants, on a clone of the state after the call. *)
Definition check_invariants (e : Execution) (cs : list Call) (ch : Chain) (edges : Z)
    : Worker (option Z) :=
  if bool_decide (ex_invariants e = []) then mret (Some edges)
  else
    match exec (map (fun f => invariant_transaction f (ex_target e) (ex_deployer e)) (ex_invariants e)) ch with
    | (Err m, _) => local (Err m)
    | (Panic p, _) => local (Panic p)
    | (Ok o, _) =>
        _ ← modify (record_gas (results o));
        _ ← for_each (enumerate (results o)) (fun ir =>
              modify (fun s => set_stats (record_invariant ir.1 ir.2 (stats s)) s));
        edges' ← merge_coverage o edges;
        _ ← for_each (zip (ex_invariants e) (ChainApi.broken_invariants o)) (fun fr =>
              add_reports (cs ++ [invariant_call fr.1]) fr.2);
        match first_stop (revert_stop e) (ex_invariants e) (results o) with
        | Some (f, i) => halt (cs ++ [invariant_call f]) i
        | None =>
            match first_stop (panic_stop e) (ex_invariants e) (results o) with
            | Some (f, i) => halt (cs ++ [invariant_call f]) i
            | None => mret (Some edges')
            end
        end
    end.

(** [handlers.iter().position(|handler| handler.selector() == ..)] *)
Definition handler_index (e : Execution) (c : Call) : option nat :=
  fst <$> list_find (fun h => selector h = selector (function c)) (ex_handlers e).

Definition record_handler_stats (e : Execution) (c : Call) (o : ExecOutput Trace) : Worker unit :=
  match handler_index e c with
  | None => mret tt
  | Some h =>
      r ← local (vec_index (results o) 0);
      modify (fun s => set_stats (record_handler h r (stats s)) s)
  end.

(** Steps 2a and 2b: [exec.results[0]] is read only when a filter is set. *)
Definition call_stop (e : Execution) (o : ExecOutput Trace) : Res (option string) :=
  match ex_stop_on_revert e, ex_stop_on_panic e with
  | None, None => Ok None
  | _, _ =>
      r ← vec_index (results o) 0;
      mret match revert_stop e r with Some i => Some i | None => panic_stop e r end
  end.

(** [done] are the calls before [pending]. *)
Fixpoint execute_loop (e : Execution) (before pending : list Call) (ch : Chain) (edges : Z)
    : Worker (option (Chain * Z)) :=
  match pending with
  | [] => mret (Some (ch, edges))
  | c :: pending' =>
      match exec [call_transaction c (ex_target e) (ex_deployer e)] ch with
      | (Err m, _) => local (Err m)
      | (Panic p, _) => local (Panic p)
      | (Ok o, ch') =>
          let cs := before ++ [c] in
          _ ← modify record_call;
          _ ← modify (record_gas (results o));
          _ ← record_handler_stats e c o;
          edges ← merge_coverage o edges;
          _ ← match ChainApi.broken_invariants o with
              | [] => mret tt
              | reports :: _ => add_reports cs reports
              end;
          stopped ← local (call_stop e o);
          match stopped with
          | Some i => halt cs i
          | None =>
              checked ← check_invariants e cs ch' edges;
              match checked with
              | None => mret None
              | Some edges => execute_loop e cs pending' ch' edges
              end
          end
      end
  end.

Definition add_to_corpus (s : Sequence) (edges : Z) (ch : Chain) : Worker unit :=
  atomic (fun sh => match TestCorpus.add s edges ch (corpus sh) with
    | Ok c => (Ok tt, set_corpus c sh)
    | Err m => (Err m, sh)
    | Panic p => (Panic p, sh)
    end).

(** A full collection of findings stops every worker. *)
Definition stop_when_full : Worker bool :=
  full ← get (fun s => is_full (broken s));
  if full : bool then _ ← modify request_stop; mret true else mret false.

Definition execute_sequence (e : Execution) (before pending : list Call) (base : Chain) : Worker unit :=
  r ← execute_loop e before pending base 0;
  match r with
  | None => mret tt
  | Some (ch, edges) =>
      _ ← (if 0 <? edges then add_to_corpus (mkSequence (before ++ pending)) edges ch else mret tt);
      _ ← stop_when_full; mret tt
  end.

(** ** The worker loop *)

Definition random_call_of (e : Execution) : M R Call :=
  f ← draw_item (ex_handlers e); random_call (gen_value (ex_literals e)) f.

Definition random_sequence (e : Execution) : M R Sequence :=
  random (gen_value (ex_literals e)) (ex_handlers e) (ex_max_calls e).

(** A fresh sequence runs from the initial state. *)
Definition plan_fresh (e : Execution) (r : R) : Worker (list Call * list Call * Chain * R) :=
  drawn ← draw_local (random_sequence e) r;
  mret ([], calls drawn.1, ex_chain e, drawn.2).

(** Step 1: the calls already made, the calls to make and the state they are
    made in. *)
Definition plan (e : Execution) (r : R) : Worker (list Call * list Call * Chain * R) :=
  fresh ← draw_local (draw_below 8) r;
  if fresh.1 =? 0 then plan_fresh e fresh.2
  else
    sampled ← get (fun s => random_base (corpus s) fresh.2);
    picked ← draw_local (fun _ => sampled) fresh.2;
    match picked.1 with
    | None => plan_fresh e picked.2
    | Some (base_sequence, base_chain) =>
        call ← draw_local (random_call_of e) picked.2;
        if ex_max_calls e <=? Z.of_nat (TestSequence.len base_sequence) then
          pos ← draw_local (draw_below (Z.of_nat (TestSequence.len base_sequence))) call.2;
          mret ([], <[Z.to_nat pos.1 := call.1]> (calls base_sequence), ex_chain e, pos.2)
        else mret (calls base_sequence, [call.1], base_chain, call.2)
    end.

Fixpoint worker_loop (e : Execution) (n : nat) (r : R) : Worker unit :=
  match n with
  | O => mret tt
  | S n' =>
      stopped ← get stop;
      if stopped : bool then mret tt
      else
        late ← get timed_out;
        if late : bool then mret tt
        else
          full ← stop_when_full;
          if full : bool then mret tt
          else
            _ ← modify record_run;
            planned ← plan e r;
            let '(before, pending, base, r') := planned : list Call * list Call * Chain * R in
            _ ← execute_sequence e before pending base;
            worker_loop e n' r'
  end.

Definition worker (e : Execution) (thread_id : nat) (budget : Z) : Worker unit :=
  worker_loop e (Z.to_nat budget) (rng_with_seed (wrap 64 (ex_seed e + Z.of_nat thread_id))).

(** ** The campaign *)
Record Output : Type := mkOutput {
  out_runs : Z;
  out_broken : list TestBroken.BrokenInvariant;
  out_stats : SharedStats;
}.

Definition finish (s : Shared) : Output := mkOutput (runs s) (TestBroken.broken_invariants (broken s)) (stats s).

Definition campaign (e : Execution) (s : Shared) (budgets : list Z) : System :=
  mkSystem s (imap (worker e) budgets).

(** Step 6: any failure fails the campaign. *)
Definition failures (sys : System (S := Shared) (A := unit)) : nat :=
  length (List.filter (fun p => match p with Ret (Ok _) => false | _ => true end) (workers sys)).

Definition collect (sys : System (S := Shared) (A := unit)) : Res Output :=
  if (failures sys =? 0)%nat then Ok (finish (shared sys))
  else Err (fmt_dec (Z.of_nat (failures sys)) +:+ " fuzzer(s) failed").

(** [Fuzzer::run] from the shared state [s]. *)
Inductive run (e : Execution) (s : Shared) : Res Output -> Prop :=
| run_no_handlers : ex_handlers e = [] -> run e s (Ok (finish s))
| run_no_threads p :
    ex_handlers e <> [] -> split_runs (ex_max_runs e) (ex_threads e) = Panic p -> run e s (Panic p)
| run_campaign budgets sys :
    ex_handlers e <> [] -> split_runs (ex_max_runs e) (ex_threads e) = Ok budgets ->
    rtc (step tick) (campaign e s budgets) sys -> finished sys -> run e s (collect sys).
End Fuzzer.
Arguments Execution : clear implicits.
Arguments Shared : clear implicits.

(** ** Soundness: snapshots and findings *)
Section Soundness.
Context {Chain Trace R : Type} `{ChainOps Chain Trace} `{FastRandLaws R} `{Abi} `{Text}.
Context `{Transaction.BrokenInvariantError} `{PanicError} `{SolErrors} `{HexNumber}.
Variable e : Execution Chain.
(** The corpus the campaign starts from: its snapshots are those of the
    replay, which makes the calls of an entry in one execution. *)
Variable loaded : Corpus Chain.

(** The state after making calls one at a time from the initial snapshot or
    from a loaded one. *)
Inductive reaches : list Call -> Chain -> Prop :=
| reaches_nil : reaches [] (ex_chain e)
| reaches_loaded en ch : en ∈ inner loaded -> chain en = Some ch ->
    reaches (calls (TestCorpus.sequence en)) ch
| reaches_snoc cs c ch o ch' :
    reaches cs ch -> exec [call_transaction c (ex_target e) (ex_deployer e)] ch = (Ok o, ch') ->
    reaches (cs ++ [c]) ch'.

(** What a run of transactions shows at position [k]: a report, or a result a
    stop filter matches. *)
Definition shows (o : ExecOutput Trace) (k : nat) (i : string) : Prop :=
  (exists reports bi, ChainApi.broken_invariants o !! k = Some reports /\ bi ∈ reports /\ bi_id bi = i) \/
  (exists r, results o !! k = Some r /\ (revert_stop e r = Some i \/ panic_stop e r = Some i)).

(** The calls of a finding, made one at a time from a snapshot, show
    its id: either at the last call, or, when the last one is an invariant, at
    the check of that invariant. *)
Inductive exposes : list Call -> string -> Prop :=
| exposes_call cs c ch o ch' i :
    reaches cs ch -> exec [call_transaction c (ex_target e) (ex_deployer e)] ch = (Ok o, ch') ->
    shows o 0 i -> exposes (cs ++ [c]) i
| exposes_invariant cs k f ch o ch' i :
    reaches cs ch -> ex_invariants e !! k = Some f ->
    exec (map (fun f => invariant_transaction f (ex_target e) (ex_deployer e)) (ex_invariants e)) ch =
      (Ok o, ch') ->
    shows o k i -> exposes (cs ++ [invariant_call f]) i.

(** Calls the fuzzer may make, up to a length. *)
Definition admissible (cs : list Call) : Prop := Forall (fun c => function c ∈ ex_handlers e) cs.

Variable limit : Z.

(** An entry of the corpus: its snapshot, if any, is the state its calls lead
    to. *)
Definition entry_ok (en : Entry Chain) : Prop :=
  admissible (calls (TestCorpus.sequence en)) /\
  Z.of_nat (TestSequence.len (TestCorpus.sequence en)) <= limit /\
  forall ch, chain en = Some ch -> reaches (calls (TestCorpus.sequence en)) ch.

Record shared_ok (s : Shared Chain) : Prop := {
  ok_corpus : Forall entry_ok (inner (corpus s));
  ok_size : (len (corpus s) <= MAX_ENTRIES)%nat;
  ok_findings : Forall (fun b => exposes (calls (TestBroken.sequence b)) (TestBroken.id b))
                  (TestBroken.broken_invariants (broken s));
  ok_runs : 0 <= runs s < 2 ^ 64;
}.

Lemma shared_ok_same s s' :
  corpus s' = corpus s -> broken s' = broken s -> (0 <= runs s < 2 ^ 64 -> 0 <= runs s' < 2 ^ 64) ->
  shared_ok s -> shared_ok s'.
Proof. intros Hc Hb Hr [Hent Hsize Hfind Hruns]. split; rewrite ?Hc, ?Hb; auto. Qed.

#[local] Abbreviation ok_prog := (safe shared_ok (fun _ => True)).

Lemma safe_then {A B} (k : A -> Prog (Shared Chain) B) p :
  ok_prog p -> (forall a, ok_prog (k a)) -> ok_prog (p ≫= k).
Proof. intros Hp Hk. by apply safe_seq. Qed.

Lemma safe_keep (f : Shared Chain -> Shared Chain) :
  (forall s, corpus (f s) = corpus s) -> (forall s, broken (f s) = broken s) ->
  (forall s, 0 <= runs s < 2 ^ 64 -> 0 <= runs (f s) < 2 ^ 64) -> ok_prog (modify f).
Proof. intros Hc Hb Hr. apply safe_modify; [|done]. intros s. apply shared_ok_same; auto. Qed.

Lemma merge_coverage_safe o edges : ok_prog (merge_coverage (Chain := Chain) (Trace := Trace) o edges).
Proof.
  unfold merge_coverage. destruct (ChainApi.coverage o) as [l|]; [|done].
  apply safe_then; [|done]. apply safe_atomic. intros s Hs. split; [|done].
  destruct (merge _ _) as [[cov u]| |]; [|done..]. by apply (shared_ok_same s).
Qed.

Lemma add_finding_safe cs i d : exposes cs i -> ok_prog (add_finding (Chain := Chain) cs i d).
Proof.
  intros He. apply safe_modify; [|done]. intros s [Hc Hs Hf Hn]. split; [done|done| |done].
  simpl. apply Forall_forall. intros b Hb. rewrite Forall_forall in Hf.
  apply elem_of_try_add in Hb as [?| ->]; [by apply Hf|done].
Qed.

Lemma halt_safe {A} cs i : exposes cs i -> ok_prog (halt (Chain := Chain) (A := A) cs i).
Proof.
  intros He. apply safe_then; [by apply add_finding_safe|]. intros _.
  apply safe_then; [by apply safe_keep|]. done.
Qed.

Lemma add_reports_safe cs reports :
  (forall bi, bi ∈ reports -> exposes cs (bi_id bi)) -> ok_prog (add_reports (Chain := Chain) cs reports).
Proof. intros Hr. apply safe_for_each. intros bi Hin. by apply add_finding_safe, Hr. Qed.

Lemma first_stop_Some find fs rs f i :
  first_stop find fs rs = Some (f, i) ->
  exists k r, fs !! k = Some f /\ rs !! k = Some r /\ find r = Some i.
Proof.
  revert rs. induction fs as [|g fs IH]; intros [|r rs]; simpl; try done.
  destruct (find r) as [j|] eqn:E.
  - intros [= -> ->]. by exists 0%nat, r.
  - intros Hs. destruct (IH rs Hs) as (k & r' & ? & ? & ?). by exists (S k), r'.
Qed.

Lemma first_stop_exposes find cs ch o ch' f i :
  (forall r i, find r = Some i -> revert_stop e r = Some i \/ panic_stop e r = Some i) ->
  reaches cs ch ->
  exec (map (fun f => invariant_transaction f (ex_target e) (ex_deployer e)) (ex_invariants e)) ch =
    (Ok o, ch') ->
  first_stop find (ex_invariants e) (results o) = Some (f, i) -> exposes (cs ++ [invariant_call f]) i.
Proof.
  intros Hfind Hr Hx Hs. destruct (first_stop_Some _ _ _ _ _ Hs) as (k & r & Hf & Hk & Hi).
  apply (exposes_invariant cs k f ch o ch' i); [done..|]. right. exists r. auto.
Qed.

Lemma check_invariants_safe cs ch edges :
  reaches cs ch -> ok_prog (check_invariants (Chain := Chain) (Trace := Trace) e cs ch edges).
Proof.
  intros Hr. unfold check_invariants. case_bool_decide; [done|].
  destruct (exec _ ch) as [[o|m|p] ch'] eqn:Hx; [|done..].
  apply safe_then; [by apply safe_keep|]. intros _.
  apply safe_then; [apply safe_for_each; intros; by apply safe_keep|]. intros _.
  apply safe_then; [apply merge_coverage_safe|]. intros edges'.
  apply safe_then.
  { apply safe_for_each. intros [f reports] Hin. apply add_reports_safe. intros bi Hbi. simpl.
    apply list_elem_of_lookup in Hin as [k Hk].
    apply lookup_zip_with_Some in Hk as (f' & rs' & [= -> ->] & Hf & Hrs).
    apply (exposes_invariant cs k f' ch o ch'); [done..|]. left. eauto. }
  intros _. destruct (first_stop (revert_stop e) _ _) as [[f i]|] eqn:E1.
  { apply halt_safe. eapply first_stop_exposes; [|done..]. auto. }
  destruct (first_stop (panic_stop e) _ _) as [[f i]|] eqn:E2; [|done].
  apply halt_safe. eapply first_stop_exposes; [|done..]. auto.
Qed.

Lemma call_stop_shows o i : call_stop e o = Ok (Some i) -> shows o 0 i.
Proof.
  unfold call_stop. intros Hs. right.
  assert (Hv : exists r, vec_index (results o) 0 = Ok r /\
    match revert_stop e r with Some i => Some i | None => panic_stop e r end = Some i).
  { destruct (ex_stop_on_revert e), (ex_stop_on_panic e); [| | |done];
      destruct (vec_index _ _) as [r| |]; try done; injection Hs as Hs; by exists r. }
  destruct Hv as (r & Hr & Hi). exists r. split.
  { unfold vec_index in Hr. by destruct (results o !! 0%nat); simplify_eq. }
  destruct (revert_stop e r); [left|right]; congruence.
Qed.

(** Executing the pending calls: the state that comes out is the one all the
    calls lead to. *)
Lemma execute_loop_safe before pending ch edges :
  reaches before ch ->
  safe shared_ok (fun r => forall ch' n, r = Ok (Some (ch', n)) -> reaches (before ++ pending) ch')
    (execute_loop (Trace := Trace) e before pending ch edges).
Proof.
  revert before ch edges. induction pending as [|c pending IH]; intros before ch edges Hr; cbn [execute_loop].
  { simpl. intros ch' n [= <- _]. by rewrite app_nil_r. }
  destruct (exec _ ch) as [[o|m|p] ch'] eqn:Hx; [|done..].
  assert (Hr' : reaches (before ++ [c]) ch') by (by eapply reaches_snoc).
  apply safe_seq; [done|done|by apply safe_keep|]. intros _.
  apply safe_seq; [done|done|by apply safe_keep|]. intros _.
  apply safe_seq; [done|done| |intros _].
  { unfold record_handler_stats. destruct (handler_index e c) as [h|]; [|done].
    destruct (vec_index (results o) 0); [by apply safe_keep|done..]. }
  apply safe_seq; [done|done|apply merge_coverage_safe|]. intros edges'.
  apply safe_seq; [done|done| |intros _].
  { destruct (ChainApi.broken_invariants o) as [|reports rest] eqn:Eb; [done|].
    apply add_reports_safe. intros bi Hbi. apply (exposes_call before c ch o ch'); [done..|].
    left. exists reports, bi. by rewrite Eb. }
  destruct (call_stop e o) as [[i|]|m|p] eqn:Es; [| |done..]; cbn [local mbind Prog_bind prog_bind].
  { apply safe_seq; [done|done|apply add_finding_safe|].
    - apply (exposes_call before c ch o ch'); [done..|]. by apply call_stop_shows.
    - intros _. by apply safe_seq; [done|done|apply safe_keep|]. }
  apply safe_seq; [done|done|by apply check_invariants_safe|]. intros [edges''|]; [|done].
  replace (before ++ c :: pending) with ((before ++ [c]) ++ pending) by (by rewrite <- app_assoc).
  by apply IH.
Qed.

Lemma stop_when_full_safe : ok_prog (stop_when_full (Chain := Chain)).
Proof.
  apply safe_then; [by apply safe_get|]. intros []; [|done].
  apply safe_then; [by apply safe_keep|done].
Qed.

Lemma add_to_corpus_safe cs edges ch :
  admissible cs -> Z.of_nat (length cs) <= limit -> reaches cs ch ->
  ok_prog (add_to_corpus (Chain := Chain) (mkSequence cs) edges ch).
Proof.
  intros Ha Hl Hr. apply safe_atomic. intros s [Hc Hs Hf Hn]. split; [|done].
  unfold TestCorpus.add, add_with_chain.
  destruct (add_entry _ _) as [es|m|p] eqn:Ea; [|done..]. simpl. split; simpl; [|by eapply add_entry_length|done|done].
  apply Forall_forall. intros en Hen. rewrite Forall_forall in Hc.
  destruct (elem_of_add_entry _ _ _ _ Ea Hen) as [?| ->]; [by apply Hc|].
  split; [done|]. split; [done|]. simpl. by intros ch' [= <-].
Qed.

Lemma execute_sequence_safe before pending base :
  reaches before base -> admissible (before ++ pending) ->
  Z.of_nat (length (before ++ pending)) <= limit ->
  ok_prog (execute_sequence (Trace := Trace) e before pending base).
Proof.
  intros Hr Ha Hl. unfold execute_sequence. apply safe_bind; [done..|].
  eapply safe_weaken; [|by apply (execute_loop_safe before pending base 0)].
  intros r Hres [[ch edges]|] ->; [|done].
  apply safe_then; [|intros _; apply safe_then; [apply stop_when_full_safe|done]].
  destruct (0 <? edges); [|done]. apply add_to_corpus_safe; [done..|]. by eapply Hres.
Qed.

(** ** The worker *)
Hypothesis Hlimit : Z.max 1 (ex_max_calls e) <= limit.

(** A plan: its calls before lead to its state, and the whole is admissible. *)
Definition plan_ok (r : Res (list Call * list Call * Chain * R)) : Prop :=
  forall before pending base r', r = Ok (before, pending, base, r') ->
    reaches before base /\ admissible (before ++ pending) /\
    Z.of_nat (length (before ++ pending)) <= limit.

Lemma plan_fresh_safe r : safe shared_ok plan_ok (plan_fresh (Chain := Chain) e r).
Proof.
  apply safe_draw; [done..|]. intros s r' Hs before pending base r'' [= <- <- <- _].
  apply random_len in Hs as [Hl Hf]. split; [constructor|]. split; [done|].
  unfold TestSequence.len in Hl. simpl in *. lia.
Qed.

Lemma random_call_function r c r' : random_call_of (Chain := Chain) e r = (Ok c, r') -> function c ∈ ex_handlers e.
Proof.
  unfold random_call_of. intros Hc. apply M_bind_Ok in Hc as (f & r1 & Hf & Hc).
  apply draw_item_Ok in Hf. unfold random_call in Hc. inv_ok. done.
Qed.

Lemma plan_safe r : safe shared_ok plan_ok (plan (Chain := Chain) e r).
Proof.
  unfold plan. apply safe_draw; [done..|]. intros fresh r1 _. cbn [fst snd].
  destruct (fresh =? 0); [apply plan_fresh_safe|].
  apply safe_bind; [done..|]. apply safe_get. intros s [Hc _ _ _] sampled [= <-].
  apply safe_draw; [done..|]. intros b r2 Hb. cbn [fst snd]. destruct b as [[bs bch]|]; [|apply plan_fresh_safe].
  apply Sampling.random_base_elem in Hb as (en & Hen & Hbase). rewrite Forall_forall in Hc.
  destruct (Hc en Hen) as (Ha & Hl & Hr). unfold base_of in Hbase.
  destruct (chain en) as [ch|]; [|done]. injection Hbase as <- <-. specialize (Hr ch eq_refl).
  apply safe_draw; [done..|]. intros c r3 Hcall. apply random_call_function in Hcall. cbn [fst snd].
  unfold TestSequence.len in *. destruct (Z.leb_spec (ex_max_calls e) (Z.of_nat (length (calls (TestCorpus.sequence en))))).
  - apply safe_draw; [done..|]. intros pos r4 _ before pending base r' [= <- <- <- _].
    split; [constructor|]. split; [by apply Forall_insert|]. simpl. by rewrite length_insert.
  - intros before pending base r' [= <- <- <- _]. split; [done|]. split.
    + apply Forall_app. split; [done|by constructor].
    + rewrite length_app. simpl. lia.
Qed.

Lemma worker_loop_safe n r : ok_prog (worker_loop (Trace := Trace) e n r).
Proof.
  revert r. induction n as [|n IH]; intros r; cbn [worker_loop]; [done|].
  apply safe_then; [by apply safe_get|]. intros []; [done|].
  apply safe_then; [by apply safe_get|]. intros []; [done|].
  apply safe_then; [apply stop_when_full_safe|]. intros []; [done|].
  apply safe_then; [apply safe_keep; [done..|]; intros; by apply wrap_range|]. intros _.
  apply safe_bind; [done..|]. eapply safe_weaken; [|apply plan_safe].
  intros res Hp [[[before pending] base] r'] ->. destruct (Hp _ _ _ _ eq_refl) as (Hr & Ha & Hl).
  apply safe_then; [by apply execute_sequence_safe|]. intros _. apply IH.
Qed.

Lemma campaign_safe s budgets sys :
  shared_ok s -> rtc (step (tick (Chain := Chain))) (campaign (Trace := Trace) (R := R) e s budgets) sys ->
  shared_ok (shared sys).
Proof.
  intros Hs Hrun. refine (proj1 (run_invariant tick shared_ok (fun _ => True) _ _ _ Hrun Hs _)).
  - intros s1 s2 [] Hok. by apply (shared_ok_same s0).
  - apply Forall_forall. intros p Hp. apply elem_of_lookup_imap in Hp as (i & b & -> & _).
    apply worker_loop_safe.
Qed.
End Soundness.

(** ** The run budget *)
Section Budget.
Context {Chain Trace R : Type} `{ChainOps Chain Trace} `{FastRand R} `{Abi} `{Text}.
Context `{Transaction.BrokenInvariantError} `{PanicError} `{SolErrors} `{HexNumber}.
Variable e : Execution Chain.

(** A finding has been collected, or none ever is. *)
Definition found (s : Shared Chain) : Prop :=
  TestBroken.broken_invariants (broken s) <> [] \/ TestBroken.max (broken s) = 0%nat.

(** How the shared state may change: the stop flag stays set, and is set for a
    finding only; findings are kept; the deadline stays and time passes. *)
Record progress (s s' : Shared Chain) : Prop := {
  keeps_stop : stop s = true -> stop s' = true;
  stops_for : stop s' = true -> stop s = true \/ found s';
  keeps_found : found s -> found s';
  keeps_max : TestBroken.max (broken s') = TestBroken.max (broken s);
  keeps_deadline : deadline s' = deadline s;
  time_passes : now s <= now s';
}.

#[export] Instance progress_preorder : PreOrder progress.
Proof.
  split; [by split; auto|]. intros s1 s2 s3 [A1 A2 A3 A4 A5 A6] [B1 B2 B3 B4 B5 B6].
  split; [auto|naive_solver|auto|congruence|congruence|lia].
Qed.

Definition same_runs (s s' : Shared Chain) : Prop := runs s' = runs s.
#[export] Instance same_runs_reflexive : Reflexive same_runs.
Proof. done. Qed.

(** A program that leaves the counter of runs alone and keeps to [progress]. *)
Definition calm {B} (p : Prog (Shared Chain) B) : Prop := steps same_runs p /\ guards progress anything p.

Lemma calm_ret {B} (r : Res B) : calm (Ret r).
Proof. done. Qed.

Lemma calm_then {B C} (k : B -> Prog (Shared Chain) C) p : calm p -> (forall b, calm (k b)) -> calm (p ≫= k).
Proof. intros [Hs Hg] Hk. split; [apply steps_bind|apply guards_bind]; (done || intros b; apply Hk). Qed.

Lemma calm_for_each {X} (l : list X) f : (forall x, x ∈ l -> calm (f x)) -> calm (for_each l f).
Proof. intros Hf. split; [apply steps_for_each|apply guards_for_each]; intros x Hx; by apply Hf. Qed.

Lemma calm_get {B} (f : Shared Chain -> B) : calm (get f).
Proof. split; [apply steps_get|apply guards_get]; apply _. Qed.

Lemma calm_draw {Rng A} (m : M Rng A) r : calm (draw_local m r).
Proof. split; [apply steps_draw|apply guards_draw]. Qed.

(** An update of the counters, the corpus, the coverage or the statistics. *)
Lemma progress_same (s s' : Shared Chain) :
  stop s' = stop s -> broken s' = broken s -> deadline s' = deadline s -> now s <= now s' -> progress s s'.
Proof. intros Hs Hb Hd Hn. split; unfold found; rewrite ?Hs, ?Hb; auto. Qed.

Lemma calm_keep (f : Shared Chain -> Shared Chain) :
  (forall s, runs (f s) = runs s) -> (forall s, stop (f s) = stop s) -> (forall s, broken (f s) = broken s) ->
  (forall s, deadline (f s) = deadline s) -> (forall s, now (f s) = now s) -> calm (modify f).
Proof.
  intros Hr Hs Hb Hd Hn. split; [by apply steps_modify|]. apply guards_modify. intros s _.
  apply progress_same; [done..|]. by rewrite Hn.
Qed.

Ltac calm_tac := repeat first
  [ apply calm_then; [|intros ?]
  | apply calm_for_each; intros ? _
  | by apply calm_keep
  | apply calm_get
  | apply calm_draw
  | apply calm_ret
  | match goal with |- calm (match ?x with _ => _ end) => destruct x end ].

Lemma merge_coverage_calm o edges : calm (merge_coverage (Chain := Chain) (Trace := Trace) o edges).
Proof.
  unfold merge_coverage. destruct (ChainApi.coverage o) as [l|]; [|apply calm_ret].
  apply calm_then; [|intros; apply calm_ret].
  split; [apply steps_atomic|apply guards_atomic]; intros s; destruct (merge _ _) as [[cov u]| |]; done || by apply progress_same.
Qed.

Definition with_finding (cs : list Call) (i d : string) (s : Shared Chain) : Shared Chain :=
  set_broken (try_add (with_description (with_id (with_calls TestBroken.new (mkSequence cs)) i) d) (broken s)).2 s.

Lemma finding_progress cs i d s : progress s (with_finding cs i d s) /\ found (with_finding cs i d s).
Proof.
  unfold with_finding. set (b := with_description _ _).
  assert (Hf : found (set_broken (try_add b (broken s)).2 s) /\ TestBroken.max (try_add b (broken s)).2 = TestBroken.max (broken s)).
  { unfold found. cbn [broken set_broken].
    destruct (try_add_cases b (broken s)) as [(j & x & Hj & _ & _ & [[_ ->]|[_ ->]])|[(_ & Hm & ->)|(_ & _ & ->)]];
      cbn [TestBroken.broken_invariants TestBroken.max snd]; (split; [|done]).
    - left. intros Hn. apply (f_equal length) in Hn. rewrite length_insert in Hn. apply nil_length_inv in Hn. by rewrite Hn in Hj.
    - left. intros Hn. by rewrite Hn in Hj.
    - destruct (TestBroken.broken_invariants (broken s)); [right; simpl in Hm; lia|by left].
    - left. by destruct (TestBroken.broken_invariants (broken s)). }
  destruct Hf as [Hf Hm]. split; [|done]. split; auto; done.
Qed.

Lemma add_finding_calm cs i d : calm (add_finding (Chain := Chain) cs i d).
Proof. split; [by apply steps_modify|]. apply guards_modify. intros s _. apply finding_progress. Qed.

Lemma found_stable : stable progress found.
Proof. intros s s' Hf [_ _ Hk _ _ _]. auto. Qed.

Lemma stop_progress s : found s -> progress s (request_stop s).
Proof. intros Hf. split; auto; done. Qed.

(** The stop flag is raised after the finding is collected. *)
Lemma halt_calm {A} cs i : calm (halt (Chain := Chain) (A := A) cs i).
Proof.
  split; [apply steps_bind; [by apply steps_modify|]; intros _; apply steps_bind; [by apply steps_modify|done]|].
  apply (guards_learn progress anything found (with_finding cs i "")); [|apply found_stable|].
  - intros s _. apply finding_progress.
  - apply guards_bind; [apply guards_modify, stop_progress|done].
Qed.

Lemma add_reports_calm cs reports : calm (add_reports (Chain := Chain) cs reports).
Proof. apply calm_for_each. intros r _. apply add_finding_calm. Qed.

Lemma check_invariants_calm cs ch edges : calm (check_invariants (Chain := Chain) (Trace := Trace) e cs ch edges).
Proof.
  unfold check_invariants. case_bool_decide; [apply calm_ret|]. destruct (exec _ ch) as [[o|m|p] ch']; [|apply calm_ret..].
  apply calm_then; [by apply calm_keep|]. intros _. apply calm_then; [calm_tac|]. intros _.
  apply calm_then; [apply merge_coverage_calm|]. intros edges'.
  apply calm_then; [apply calm_for_each; intros ? _; apply add_reports_calm|]. intros _.
  destruct (first_stop _ _ _) as [[f i]|]; [apply halt_calm|].
  destruct (first_stop _ _ _) as [[f i]|]; [apply halt_calm|apply calm_ret].
Qed.

Lemma execute_loop_calm before pending ch edges :
  calm (execute_loop (Chain := Chain) (Trace := Trace) e before pending ch edges).
Proof.
  revert before ch edges. induction pending as [|c pending IH]; intros before ch edges; cbn [execute_loop]; [apply calm_ret|].
  destruct (exec _ ch) as [[o|m|p] ch']; [|apply calm_ret..].
  apply calm_then; [by apply calm_keep|]. intros _. apply calm_then; [by apply calm_keep|]. intros _.
  apply calm_then; [unfold record_handler_stats; calm_tac|]. intros _.
  apply calm_then; [apply merge_coverage_calm|]. intros edges'.
  apply calm_then; [destruct (ChainApi.broken_invariants o); [apply calm_ret|apply add_reports_calm]|]. intros _.
  apply calm_then; [apply calm_ret|]. intros [i|]; [apply halt_calm|].
  apply calm_then; [apply check_invariants_calm|]. intros [edges''|]; [apply IH|apply calm_ret].
Qed.

(** A full collection holds a finding, or none was ever to be collected. *)
Lemma full_found s : is_full (broken s) = true -> found s.
Proof.
  unfold is_full, found. intros Hf%Nat.leb_le. destruct (TestBroken.broken_invariants (broken s)); [right; simpl in Hf; lia|by left].
Qed.

Lemma stop_when_full_calm : calm stop_when_full.
Proof.
  split.
  - apply steps_bind; [apply steps_get; apply _|]. intros []; [|done]. apply steps_bind; [by apply steps_modify|done].
  - intros s _. cbn. split; [done|]. destruct (is_full (broken s)) eqn:Ef; [|by exists anything].
    exists found. split; [apply found_stable|]. split; [by apply full_found|].
    intros s' Hf. split; [by apply stop_progress|]. by exists anything.
Qed.

Lemma execute_sequence_calm before pending base :
  calm (execute_sequence (Chain := Chain) (Trace := Trace) e before pending base).
Proof.
  apply calm_then; [apply execute_loop_calm|]. intros [[ch edges]|]; [|apply calm_ret].
  apply calm_then; [|intros _; apply calm_then; [apply stop_when_full_calm|intros _; apply calm_ret]].
  destruct (0 <? edges); [|apply calm_ret].
  split; [apply steps_atomic|apply guards_atomic]; intros s; destruct (TestCorpus.add _ _ _ _); done || by apply progress_same.
Qed.

Lemma plan_calm r : calm (plan (Chain := Chain) e r).
Proof.
  assert (Hf : forall r, calm (plan_fresh (Chain := Chain) e r)).
  { intros r'. apply calm_then; [apply calm_draw|]. intros. apply calm_ret. }
  unfold plan. apply calm_then; [apply calm_draw|]. intros fresh. destruct (_ =? _); [apply Hf|].
  apply calm_then; [apply calm_get|]. intros sampled. apply calm_then; [apply calm_draw|].
  intros [[[bs bch]|] r2]; cbn [fst snd]; [|apply Hf].
  apply calm_then; [apply calm_draw|]. intros call. destruct (_ <=? _); [|apply calm_ret].
  apply calm_then; [apply calm_draw|]. intros. apply calm_ret.
Qed.

(** ** No more runs than the budget *)
Lemma calm_within {B} (p : Prog (Shared Chain) B) : calm p -> within (runs_cost runs) 0 p.
Proof. intros [Hs _]. eapply steps_within; [|exact Hs]. intros s s' Hr. unfold runs_cost. by rewrite Hr. Qed.

Lemma worker_loop_within n r : within (runs_cost runs) (Z.of_nat n) (worker_loop (Trace := Trace) e n r).
Proof.
  revert r. induction n as [|n IH]; intros r; cbn [worker_loop]; [simpl; lia|].
  apply within_bind; [lia|by apply within_get|]. intros []; [simpl; lia|].
  apply within_bind; [lia|by apply within_get|]. intros []; [simpl; lia|].
  apply within_bind; [lia|apply calm_within, stop_when_full_calm|]. intros []; [simpl; lia|].
  rewrite Nat2Z.inj_succ. apply within_increment; [lia|done|].
  apply within_bind; [lia|apply calm_within, plan_calm|]. intros [[[before pending] base] r'].
  apply within_bind; [lia|apply calm_within, execute_sequence_calm|]. intros _. apply IH.
Qed.

(** ** No fewer, until it is over *)
Definition over (s : Shared Chain) : Prop := stop s = true \/ timed_out s = true.

Lemma over_stable : stable progress over.
Proof.
  intros s s' [Hs|Ht] [Hk _ _ _ Hd Hn]; [left; auto|right]. unfold timed_out in *. rewrite Hd.
  destruct (deadline s); [|done]. apply Z.leb_le in Ht. apply Z.leb_le. lia.
Qed.

(** The counter does not wrap around at the next run. *)
Definition countable (s : Shared Chain) : Prop := 0 <= runs s < u64_max.

#[local] Abbreviation spending := (spends (runs (Chain := Chain)) countable over).

Lemma calm_spends {B C} n (k : B -> Prog (Shared Chain) C) p : calm p -> (forall b, spending n (k b)) -> spending n (p ≫= k).
Proof. intros [Hs _]. apply (spends_bind _ _ _ same_runs); [|done]. unfold same_runs. lia. Qed.

Lemma full_spends {B} n (k : bool -> Prog (Shared Chain) B) : spending n (k false) -> spending n (stop_when_full ≫= k).
Proof.
  intros Hk s _. cbn. right. exists n. split; [lia|]. destruct (is_full (broken s)); [|exact Hk].
  intros s' _. cbn. left. by left.
Qed.

Lemma worker_loop_spends n r : spending (Z.of_nat n) (worker_loop (Trace := Trace) e n r).
Proof.
  revert r. induction n as [|n IH]; intros r; cbn [worker_loop]; [simpl; lia|].
  apply spends_check; [by left|]. apply spends_check; [by right|]. apply full_spends.
  rewrite Nat2Z.inj_succ. apply spends_raise.
  { intros s [Hr0 Hr1]. unfold u64_max in Hr1. cbn [runs record_run]. unfold add64. rewrite wrap_small; lia. }
  apply calm_spends; [apply plan_calm|]. intros [[[before pending] base] r'].
  apply calm_spends; [apply execute_sequence_calm|]. intros _. apply IH.
Qed.

Lemma worker_loop_guards n r : guards progress anything (worker_loop (Trace := Trace) e n r).
Proof.
  revert r. induction n as [|n IH]; intros r; cbn [worker_loop]; [done|].
  apply guards_bind; [apply guards_get; apply _|]. intros []; [done|].
  apply guards_bind; [apply guards_get; apply _|]. intros []; [done|].
  apply guards_bind; [apply stop_when_full_calm|]. intros []; [done|].
  apply guards_bind; [apply guards_modify; intros s _; by apply progress_same|]. intros _.
  apply guards_bind; [apply plan_calm|]. intros [[[before pending] base] r'].
  apply guards_bind; [apply execute_sequence_calm|]. intros _. apply IH.
Qed.

Lemma tick_progress s s' : tick s s' -> progress s s' /\ runs s <= runs s'.
Proof. intros [s0 t Ht]. split; [by apply progress_same|done]. Qed.
End Budget.

(** ** Properties *)
Section Properties.
Context {Chain Trace R : Type} `{ChainOps Chain Trace} `{FastRandLaws R} `{Abi} `{Text}.
Context `{Transaction.BrokenInvariantError} `{PanicError} `{SolErrors} `{HexNumber}.

Lemma worker_within (e : Execution Chain) i b :
  0 <= b -> within (runs_cost runs) b (worker (Trace := Trace) (R := R) e i b).
Proof. intros Hb. rewrite <- (Z2Nat.id b) at 1 by done. apply worker_loop_within. Qed.

Lemma campaign_findings (e : Execution Chain) limit s out :
  shared_ok e (corpus s) limit s -> Z.max 1 (ex_max_calls e) <= limit ->
  0 <= ex_max_runs e -> 0 <= ex_threads e -> runs s = 0 ->
  run (R := R) e s (Ok out) ->
  Forall (fun b => exposes e (corpus s) (calls (TestBroken.sequence b)) (TestBroken.id b)) (out_broken out) /\
  0 <= out_runs out <= ex_max_runs e.
Proof.
  intros Hs Hl Hm Ht Hr0 Hrun. inversion Hrun as [Hh|p Hh Hsp|budgets sys Hh Hsp Hsteps Hfin Hc]; subst.
  - split; [apply Hs|]. simpl. lia.
  - pose proof (campaign_safe e (corpus s) limit Hl s budgets sys Hs Hsteps) as [_ _ Hf Hn].
    unfold collect in Hc. destruct (failures sys =? 0)%nat; [|done]. injection Hc as <-. split; [done|].
    simpl. split; [lia|]. eapply (split_runs_cost tick runs ltac:(intros s1 s2 []; done) (worker (Trace := Trace) e)); [done..| |done|exact Hsteps|done].
    intros i b. apply worker_within.
Qed.

(** C3: What a campaign reports is real: whatever the interleaving of the
    workers, the calls of every finding, made one at a time from the initial
    snapshot or from one the replay loaded, show its id - the broken invariant
    it reports, or the result a stop filter matches - at the last call or at
    the invariant that ends it; and no more sequences were run than the budget,
    whatever the number of threads. *)
Theorem fuzz_findings_sound (e : Execution Chain) limit s out :
  shared_ok e (corpus s) limit s -> Z.max 1 (ex_max_calls e) <= limit ->
  0 <= ex_max_runs e -> 0 <= ex_threads e -> runs s = 0 ->
  run (R := R) e s (Ok out) ->
  Forall (fun b => exposes e (corpus s) (calls (TestBroken.sequence b)) (TestBroken.id b)) (out_broken out) /\
  0 <= out_runs out <= ex_max_runs e.
Proof. apply campaign_findings. Qed.

(** C9: The corpus stays a tree of states: at every moment of a campaign, in
    every interleaving, each snapshot in the corpus is the state its calls lead
    to from the initial one or from a loaded one; entries call handlers only,
    are no longer than the call limit or the longest entry loaded, and are at
    most 256. *)
Theorem fuzz_snapshots_coherent (e : Execution Chain) limit s budgets sys :
  shared_ok e (corpus s) limit s -> Z.max 1 (ex_max_calls e) <= limit ->
  rtc (step tick) (campaign (Trace := Trace) (R := R) e s budgets) sys ->
  (len (corpus (shared sys)) <= MAX_ENTRIES)%nat /\
  Forall (fun en =>
    Forall (fun c => function c ∈ ex_handlers e) (calls (TestCorpus.sequence en)) /\
    Z.of_nat (TestSequence.len (TestCorpus.sequence en)) <= limit /\
    forall ch, chain en = Some ch -> reaches e (corpus s) (calls (TestCorpus.sequence en)) ch)
    (inner (corpus (shared sys))).
Proof.
  intros Hs Hl Hsteps. destruct (campaign_safe e (corpus s) limit Hl s budgets sys Hs Hsteps) as [Hc Hsz _ _].
  by split.
Qed.

Lemma no_failures (sys : System (S := Shared Chain) (A := unit)) :
  finished sys -> failures sys = 0%nat -> Forall (fun p => exists b, p = Ret (Ok b)) (workers sys).
Proof.
  unfold finished, failures. intros Hf Hz. apply nil_length_inv in Hz. apply Forall_forall. intros p Hp.
  rewrite Forall_forall in Hf. specialize (Hf p Hp). destruct p as [[b|m|m]|f]; [by exists b| | |done].
  all: exfalso; apply list_elem_of_In in Hp; eapply (in_nil (A := Prog (Shared Chain) unit)); rewrite <- Hz;
    apply filter_In; by split; [exact Hp|].
Qed.

(** The work of the shares of the budget adds up. *)
Lemma campaign_work (e : Execution Chain) limit s budgets sys :
  shared_ok e (corpus s) limit s -> Z.max 1 (ex_max_calls e) <= limit ->
  0 <= ex_max_runs e < u64_max -> 0 <= ex_threads e -> runs s = 0 ->
  split_runs (ex_max_runs e) (ex_threads e) = Ok budgets ->
  rtc (step tick) (campaign (Trace := Trace) (R := R) e s budgets) sys -> finished sys -> failures sys = 0%nat ->
  progress s (shared sys) /\ (over (shared sys) \/ runs (shared sys) = ex_max_runs e).
Proof.
  intros Hs Hl [Hm0 Hm] Ht Hr0 Hsp Hrun Hfin Hfail.
  assert (Hle : forall sys1, rtc (step tick) (campaign (Trace := Trace) (R := R) e s budgets) sys1 ->
    0 <= runs (shared sys1) <= ex_max_runs e).
  { intros sys1 Hr1. pose proof (campaign_safe e (corpus s) limit Hl s budgets sys1 Hs Hr1) as [_ _ _ Hn]. split; [lia|].
    eapply (split_runs_cost tick runs ltac:(intros ? ? []; done) (worker (Trace := Trace) e)); [done|done|exact Hsp| |done|exact Hr1|done].
    intros i b. apply worker_within. }
  assert (Hgu : guarded progress (campaign (Trace := Trace) (R := R) e s budgets)).
  { apply guarded_start, Forall_forall. intros p Hp. apply elem_of_lookup_imap in Hp as (i & b & -> & _). apply worker_loop_guards. }
  split; [exact (proj2 (run_guarantee progress tick (fun s s' Ht => proj1 (tick_progress s s' Ht)) _ _ Hrun Hgu))|].
  assert (Ht' : 0 < ex_threads e) by (unfold split_runs in Hsp; destruct (Z.eqb_spec (ex_threads e) 0); [done|lia]).
  destruct (split_runs_exact _ _ Hm0 Ht') as (l & Hl' & _ & Hsum & Hb). rewrite Hsp in Hl'. injection Hl' as <-.
  assert (HF : Forall2 (spends runs countable over) budgets (workers (campaign (Trace := Trace) (R := R) e s budgets))).
  { unfold campaign. cbn [workers]. apply Forall2_same_length_lookup. split; [by rewrite length_imap|]. intros i b p Hi Hp.
    rewrite list_lookup_imap, Hi in Hp. injection Hp as <-. unfold worker.
    rewrite Forall_lookup in Hb. specialize (Hb i b Hi). pose proof (Z.div_pos (ex_max_runs e) (ex_threads e)).
    rewrite <- (Z2Nat.id b) at 1 by lia. apply worker_loop_spends. }
  destruct (run_spends runs countable over tick progress tick_progress over_stable _ _ budgets Hrun Hgu HF)
    as [Ho|(ns & HF' & Hge)]; [|by left|right].
  - intros sys1 Hr1. specialize (Hle sys1 Hr1). unfold countable. lia.
  - pose proof (spends_ended _ _ _ _ _ HF' (no_failures sys Hfin Hfail)). specialize (Hle sys Hrun).
    simpl in Hge. lia.
Qed.

End Properties.

(** ** Witnesses: a harness whose every call reports the invariant [INV] *)
Module ToyFuzz.
Import Toy.

#[export] Instance no_panic : PanicError := { panic_decode _ := None }.
#[export] Instance no_errors : SolErrors :=
  { error_decode _ := None; ERROR_SELECTOR := []; PANIC_SELECTOR := [] }.
#[export] Instance inv_error : Transaction.BrokenInvariantError :=
  { SELECTOR := [9; 9; 9; 9]; bie_decode _ := Some ("INV"%string, ""%string) }.
#[export] Instance hex_number : HexNumber := { hex02 := u256_to_string; from_str_radix16 := u256_parse }.

Definition reverting : TransactionResult := mkResult false 1 (Some [9; 9; 9; 9]) [] None 0 rpc_default.
#[export] Instance reverting_chain : ChainOps (list Transaction) unit :=
  ScriptedChain.ops (fun _ _ => reverting).

Definition spin : Function := mkFunction "spin" [] [] NonPayable.

Definition execution (threads : Z) : Execution (list Transaction) :=
  mkExecution [] 5 6 [spin] [] extractor_new 1 threads 3 2 None None.
Definition start : Shared (list Transaction) :=
  shared_new None 0 TestCorpus.new Coverage.shared_new (TestBroken.shared_new 4) (shared_stats_new 1 0).

Definition budgets : list Z := [2; 1].
Definition final : System (S := Shared (list Transaction)) (A := unit) :=
  drive 200 (campaign (Trace := unit) (R := Z) (execution 2) start budgets).

Lemma final_ended : all_ended final = true.
Proof. vm_compute. reflexivity. Qed.

Lemma final_run : run (Trace := unit) (R := Z) (execution 2) start (collect final).
Proof.
  apply (run_campaign _ _ budgets); [done|reflexivity|apply drive_reaches|].
  apply all_ended_finished, final_ended.
Qed.

Lemma toy_start_ok : shared_ok (execution 2) (corpus start) 2 start.
Proof. split; [constructor|unfold len, MAX_ENTRIES; simpl; lia|constructor|simpl; lia]. Qed.
End ToyFuzz.
Import Toy ToyFuzz.

Lemma fuzz_findings_sound_witness :
  exists out, collect final = Ok out /\ map TestBroken.id (out_broken out) = ["INV"%string] /\
    Forall (fun b => exposes (execution 2) (corpus start) (calls (TestBroken.sequence b)) (TestBroken.id b)) (out_broken out) /\
    out_runs out <= 3.
Proof.
  pose proof final_run as Hrun. destruct (collect final) as [out|m|p] eqn:E; [|vm_compute in E; discriminate E..].
  exists out. split; [reflexivity|].
  destruct (fuzz_findings_sound (execution 2) 2 start out toy_start_ok ltac:(vm_compute; discriminate)
    ltac:(vm_compute; discriminate) ltac:(vm_compute; discriminate) ltac:(reflexivity) Hrun) as [Hf [_ Hr]].
  split; [|split; [exact Hf|exact Hr]].
  assert (Hc : (fun o => map TestBroken.id (out_broken o)) <$> collect final = Ok ["INV"%string])
    by (vm_compute; reflexivity).
  rewrite E in Hc. injection Hc as Hc. exact Hc.
Defined.

Lemma fuzz_snapshots_coherent_witness : (len (corpus (shared final)) <= MAX_ENTRIES)%nat.
Proof.
  apply (fuzz_snapshots_coherent (Trace := unit) (R := Z) (execution 2) 2 start budgets final toy_start_ok);
    [vm_compute; discriminate|apply drive_reaches].
Defined.

(** No thread, no campaign: the budget is divided by the number of threads. *)
Example zero_threads_panic :
  run (Trace := unit) (R := Z) (execution 0) start (Panic "attempt to divide by zero").
Proof. apply run_no_threads; [done|reflexivity]. Qed.

(** A harness that never breaks: two threads run the three sequences. *)
Module ToyQuiet.
Import Toy ToyFuzz.
#[export] Instance quiet_chain : ChainOps (list Transaction) unit :=
  ScriptedChain.ops (fun _ _ => mkResult true 1 None [] None 0 rpc_default).
Definition quiet_end : System (S := Shared (list Transaction)) (A := unit) :=
  drive 200 (campaign (Trace := unit) (R := Z) (execution 2) start budgets).

Lemma quiet_out : exists out, collect quiet_end = Ok out /\ out_broken out = [].
Proof.
  destruct (collect quiet_end) as [out|m|p] eqn:E; [|vm_compute in E; discriminate E..]. exists out. split; [done|].
  assert (Hc : out_broken <$> collect quiet_end = Ok []) by (vm_compute; reflexivity). rewrite E in Hc. by injection Hc.
Qed.
End ToyQuiet.
Import ToyQuiet.

