(* ===== verification/MaxFuzzer.v ===== *)
(** * MaxFuzzer: the worker threads of the maximizer

    Models [maxer/fuzzer.rs]. A worker extends the best sequence or a snapshot
    of the corpus with a fresh call, measures the harness value after every
    call, and offers the whole sequence to the best tracker and its interesting
    prefixes to the corpus. Best, counters, stop flag, corpus, coverage and
    records are shared; every access to them is one atomic action. Log lines
    are left out. *)
From S2P Require Import Prelude.
From S2P Require Import Env.
From S2P Require Import Transaction.
From S2P Require Import Value.
From S2P Require Import Delta.
From S2P Require Import Call.
From S2P Require Import Sequence.
From S2P Require Import Best.
From S2P Require Import Records.
From S2P Require Import Coverage.
From S2P Require Import ChainApi.
From S2P Require Import MaxCorpus.
From S2P Require Import Threads.

Section Fuzzer.
Context {Chain Trace R : Type} `{ChainOps Chain Trace} `{FastRand R} `{Abi}.

(** The resolved inputs that do not change during a run. *)
Record Execution : Type := mkExecution {
  ex_chain : Chain;
  ex_target : Address;
  ex_deployer : Address;
  ex_value_calldata : Bytes;
  ex_handlers : list Function;
  ex_initial_value : Value;
  ex_seed : Z;
  ex_threads : Z;
  ex_max_runs : Z;
  ex_max_calls : Z;
  ex_target_value : option Value;
}.

#[local] Abbreviation BestOf := (@Best.Best Chain).
#[local] Abbreviation RecordMap := (gmap (list Selector * Selector) ClassRecord).

(** What the workers share. [now] is the clock, in the unit of the deadline. *)
Record Shared : Type := mkShared {
  best : BestOf;
  runs : Z;
  calls_made : Z;
  gas : Z;
  stop : bool;
  deadline : option Z;
  now : Z;
  corpus : Corpus Chain;
  coverage_map : SharedCoverage;
  records : RecordMap;
}.

Definition shared_new (b : BestOf) (deadline : option Z) (start : Z) (c : Corpus Chain)
    (cov : SharedCoverage) : Shared :=
  mkShared b 0 0 0 false deadline start c cov ∅.

Definition set_best (b : BestOf) (s : Shared) : Shared :=
  mkShared b (runs s) (calls_made s) (gas s) (stop s) (deadline s) (now s) (corpus s) (coverage_map s) (records s).
Definition record_run (s : Shared) : Shared :=
  mkShared (best s) (add64 (runs s) 1) (calls_made s) (gas s) (stop s) (deadline s) (now s) (corpus s)
    (coverage_map s) (records s).
Definition record_call (s : Shared) : Shared :=
  mkShared (best s) (runs s) (add64 (calls_made s) 1) (gas s) (stop s) (deadline s) (now s) (corpus s)
    (coverage_map s) (records s).
Definition record_gas (rs : list TransactionResult) (s : Shared) : Shared :=
  mkShared (best s) (runs s) (calls_made s) (add64 (gas s) (foldl add64 0 (map gas_used rs))) (stop s)
    (deadline s) (now s) (corpus s) (coverage_map s) (records s).
Definition set_stop (s : Shared) : Shared :=
  mkShared (best s) (runs s) (calls_made s) (gas s) true (deadline s) (now s) (corpus s) (coverage_map s) (records s).
Definition set_corpus (c : Corpus Chain) (s : Shared) : Shared :=
  mkShared (best s) (runs s) (calls_made s) (gas s) (stop s) (deadline s) (now s) c (coverage_map s) (records s).
Definition set_coverage (cov : SharedCoverage) (s : Shared) : Shared :=
  mkShared (best s) (runs s) (calls_made s) (gas s) (stop s) (deadline s) (now s) (corpus s) cov (records s).
Definition set_records (r : RecordMap) (s : Shared) : Shared :=
  mkShared (best s) (runs s) (calls_made s) (gas s) (stop s) (deadline s) (now s) (corpus s) (coverage_map s) r.

Definition timed_out (s : Shared) : bool :=
  match deadline s with Some d => d <=? now s | None => false end.

(** Time passes. *)
Inductive tick : Shared -> Shared -> Prop :=
| tick_to s t : now s <= t ->
    tick s (mkShared (best s) (runs s) (calls_made s) (gas s) (stop s) (deadline s) t (corpus s)
              (coverage_map s) (records s)).

#[local] Abbreviation Worker := (Prog Shared).

(** ** The best tracker *)

(** The stop flag is set after the lock is released. *)
Definition consider (e : Execution) (sq : Sequence) (v : Value) (ch : Chain) : Worker bool :=
  improved ← atomic (fun s => let '(b, best') := Best.consider (best s) sq v ch in (Ok b, set_best best' s));
  let target_reached := match ex_target_value e with
    | Some t => Value.get t <=? Value.get v
    | None => false
    end in
  if improved && target_reached then _ ← modify set_stop; mret improved else mret improved.

Definition best_base (s : Shared) : option (Sequence * Value * Chain) :=
  ch ← Best.chain (best s);
  if Sequence.is_empty (Best.sequence (best s)) then None
  else Some (Best.sequence (best s), Best.value (best s), ch).

(** ** Measuring *)
Definition value_transaction (e : Execution) : Transaction :=
  with_calldata (Transaction_new (ex_target e)) (ex_value_calldata e).

(** The value call runs on the working chain, which keeps its effects. *)
Definition measure_value (e : Execution) (ch : Chain) : Worker (option Value * Chain) :=
  match exec [value_transaction e] ch with
  | (Err m, _) => local (Err m)
  | (Panic p, _) => local (Panic p)
  | (Ok o, ch') =>
      _ ← modify (record_gas (results o));
      result ← local (context (head (results o)) "value call result missing");
      if success result then v ← local (Value.decode result); mret (Some v, ch')
      else mret (None, ch')
  end.

Record MeasuredPrefix : Type := mkPrefix {
  mp_sequence : Sequence;
  mp_value : Value;
  mp_chain : Chain;
  mp_new_edges : Z;
  mp_delta_activity : Z;
  mp_interesting : bool;
  mp_measured : bool;
}.

Definition merge_coverage (o : ExecOutput Trace) : Worker CoverageUpdate :=
  local_map ← local (context (coverage o) "execution coverage expected");
  atomic (fun s => match merge (coverage_map s) local_map with
    | Ok (cov, u) => (Ok u, set_coverage cov s)
    | Err m => (Err m, s)
    | Panic p => (Panic p, s)
    end).

Definition observe_delta (pre : Sequence) (c : Call.Call) (d : Delta) (below : bool) : Worker Observation :=
  atomic (fun s => let '(o, rs) := Records.observe pre c d below (records s) in (Ok o, set_records rs s)).

(** Step 2: each pending call is made and measured. [executed] are the calls
    before, [known] is this worker's mark. *)
Fixpoint execute_pending (e : Execution) (executed pending : list Call.Call) (ch : Chain)
    (prev known : Value) : Worker (list MeasuredPrefix * Value) :=
  match pending with
  | [] => mret ([], known)
  | c :: pending' =>
      match exec [Call.transaction c (ex_target e) (ex_deployer e)] ch with
      | (Err m, _) => local (Err m)
      | (Panic p, _) => local (Panic p)
      | (Ok o, ch1) =>
          _ ← modify record_call;
          _ ← modify (record_gas (results o));
          update ← merge_coverage o;
          measured ← measure_value e ch1;
          let value := default (Value.new 0) measured.1 in
          let delta := Delta.between prev value in
          let below_baseline := value_ltb prev (ex_initial_value e) in
          observation ← observe_delta (Sequence.new executed) c delta below_baseline;
          let beats_local := value_ltb known value in
          let known' := if beats_local then value else known in
          let this := mkPrefix (Sequence.new (executed ++ [c])) value measured.2
            (wrap 64 (update_total update)) (Delta.activity delta)
            (is_interesting update || beats_local || observation_interesting observation)
            (bool_decide (is_Some measured.1)) in
          rest ← execute_pending e (executed ++ [c]) pending' measured.2 value known';
          mret (this :: rest.1, rest.2)
      end
  end.

Definition add_prefix (p : MeasuredPrefix) : Worker unit :=
  atomic (fun s =>
    match MaxCorpus.add (mp_sequence p) (mp_value p) (mp_new_edges p) (mp_delta_activity p) (mp_chain p) (corpus s) with
    | Ok c => (Ok tt, set_corpus c s)
    | Err m => (Err m, s)
    | Panic x => (Panic x, s)
    end).

(** Steps 3 and 4. *)
Definition record_prefixes (e : Execution) (ps : list MeasuredPrefix) : Worker unit :=
  match last ps with
  | None => mret tt
  | Some l =>
      improved ← (if mp_measured l then consider e (mp_sequence l) (mp_value l) (mp_chain l) else mret false);
      for_each ps (fun p =>
        if mp_measured p && (improved || mp_interesting p) then add_prefix p else mret tt)
  end.

(** ** The worker loop *)

Definition random_call_of (e : Execution) : M R Call.Call :=
  f ← draw_item (ex_handlers e); Call.random f.

(** The calls before, the value they leave, the calls to make, and the state
    they are made in. *)
Definition Plan : Type := list Call.Call * Value * list Call.Call * Chain.

(** The base of an extension: the best three times in four, else an entry of
    the corpus; the initial state when there is none. *)
Definition pick_base (e : Execution) (r : R) : Worker (Sequence * Value * Chain * R) :=
  let fallback := (Sequence.empty, ex_initial_value e, ex_chain e) in
  coin ← draw_local (draw_below 4) r;
  if coin.1 =? 0 then
    sampled ← get (fun s => random_base (corpus s) coin.2);
    picked ← draw_local (fun _ => sampled) coin.2;
    mret (default fallback picked.1, picked.2)
  else
    b ← get best_base; mret (default fallback b, coin.2).

Definition plan (e : Execution) (r : R) : Worker (Plan * R) :=
  fresh ← draw_local (draw_below 8) r;
  if fresh.1 =? 0 then
    drawn ← draw_local (Sequence.random (ex_handlers e) (ex_max_calls e)) fresh.2;
    mret (([], ex_initial_value e, Sequence.calls drawn.1, ex_chain e), drawn.2)
  else
    based ← pick_base e fresh.2;
    let '(sq, v, ch, r1) := based : Sequence * Value * Chain * R in
    call ← draw_local (random_call_of e) r1;
    if ex_max_calls e <=? Z.of_nat (Sequence.len sq) then
      pos ← draw_local (draw_below (Z.of_nat (Sequence.len sq))) call.2;
      mret (([], ex_initial_value e, <[Z.to_nat pos.1 := call.1]> (Sequence.calls sq), ex_chain e), pos.2)
    else mret ((Sequence.calls sq, v, [call.1], ch), call.2).

Fixpoint worker_loop (e : Execution) (n : nat) (known : Value) (r : R) : Worker unit :=
  match n with
  | O => mret tt
  | S n' =>
      stopped ← get stop;
      if stopped : bool then mret tt
      else
        late ← get timed_out;
        if late : bool then mret tt
        else
          _ ← modify record_run;
          planned ← plan e r;
          let '(executed, base_value, pending, base) := planned.1 : Plan in
          done ← execute_pending e executed pending base base_value known;
          _ ← record_prefixes e done.1;
          worker_loop e n' done.2 planned.2
  end.

Definition worker (e : Execution) (thread_id : nat) (budget : Z) : Worker unit :=
  worker_loop e (Z.to_nat budget) (ex_initial_value e)
    (rng_with_seed (wrap 64 (ex_seed e + Z.of_nat thread_id))).

(** ** The campaign *)
Definition campaign (e : Execution) (s : Shared) (budgets : list Z) : System :=
  mkSystem s (imap (worker e) budgets).

Definition failures (sys : System (S := Shared) (A := unit)) : nat :=
  length (List.filter (fun p => match p with Ret (Ok _) => false | _ => true end) (workers sys)).

Definition collect (sys : System (S := Shared) (A := unit)) : Res BestOf :=
  if (failures sys =? 0)%nat then Ok (best (shared sys))
  else Err (fmt_dec (Z.of_nat (failures sys)) +:+ " fuzzer(s) failed").

(** Step 2 of [Fuzzer::run]: the best entry of the corpus seeds the best. *)
Definition seed_best (e : Execution) (c : Corpus Chain) : BestOf :=
  match best_entry c with
  | Some (sq, v, ch) => Best.with_chain sq v ch
  | None => Best.new Sequence.empty (ex_initial_value e)
  end.

Definition target_met (e : Execution) (b : BestOf) : bool :=
  match ex_target_value e with
  | Some t => Value.get t <=? Value.get (Best.value b)
  | None => false
  end.

(** [Fuzzer::run]: the best, or its failure, and the corpus it leaves. *)
Inductive run (e : Execution) (deadline : option Z) (start : Z) (c : Corpus Chain) (cov : SharedCoverage)
    : Res BestOf -> Corpus Chain -> Prop :=
| run_target_met : target_met e (seed_best e c) = true -> run e deadline start c cov (Ok (seed_best e c)) c
| run_no_handlers : target_met e (seed_best e c) = false -> ex_handlers e = [] ->
    run e deadline start c cov (Ok (seed_best e c)) c
| run_no_threads p : target_met e (seed_best e c) = false -> ex_handlers e <> [] ->
    split_runs (ex_max_runs e) (ex_threads e) = Panic p -> run e deadline start c cov (Panic p) c
| run_campaign budgets sys : target_met e (seed_best e c) = false -> ex_handlers e <> [] ->
    split_runs (ex_max_runs e) (ex_threads e) = Ok budgets ->
    rtc (step tick) (campaign e (shared_new (seed_best e c) deadline start c cov) budgets) sys ->
    finished sys -> run e deadline start c cov (collect sys) (corpus (shared sys)).
End Fuzzer.
Arguments Execution : clear implicits.
Arguments Shared : clear implicits.

(** ** Soundness: what the best and the corpus hold *)
Section Soundness.
Context {Chain Trace R : Type} `{ChainOps Chain Trace} `{FastRandLaws R} `{Abi}.
Variable e : Execution Chain.
(** The corpus the campaign starts from: its snapshots are those of the replay,
    which makes the calls of an entry in one execution. *)
Variable loaded : Corpus Chain.

(** The value call on a state: what it reads, if it does not revert, and the
    state it leaves. *)
Inductive reads (ch : Chain) : option Value -> Chain -> Prop :=
| reads_value o r v ch' :
    exec [value_transaction e] ch = (Ok o, ch') -> head (results o) = Some r ->
    Value.decode r = Ok v -> reads ch (Some v) ch'
| reads_reverted o r ch' :
    exec [value_transaction e] ch = (Ok o, ch') -> head (results o) = Some r ->
    success r = false -> reads ch None ch'.

(** Making calls one at a time from a snapshot and reading the value after each
    of them: the value read last, the activity of the last change, the state. *)
Inductive measures : list Call.Call -> option Value -> Z -> Chain -> Prop :=
| measures_nil : measures [] (Some (ex_initial_value e)) 0 (ex_chain e)
| measures_loaded en ch : en ∈ loaded -> MaxCorpus.chain en = Some ch ->
    measures (Sequence.calls (MaxCorpus.sequence en)) (Some (MaxCorpus.value en)) (delta_activity en) ch
| measures_snoc cs v0 a0 ch c o ch1 v ch2 :
    measures cs v0 a0 ch ->
    exec [Call.transaction c (ex_target e) (ex_deployer e)] ch = (Ok o, ch1) -> reads ch1 v ch2 ->
    measures (cs ++ [c]) v
      (Delta.activity (Delta.between (default (Value.new 0) v0) (default (Value.new 0) v))) ch2.

Variable limit : Z.

(** Calls the fuzzer may make, up to a length. *)
Definition admissible (cs : list Call.Call) : Prop :=
  Forall (fun c => Call.function c ∈ ex_handlers e) cs /\ Z.of_nat (length cs) <= limit.

Definition entry_ok (en : Entry Chain) : Prop :=
  admissible (Sequence.calls (MaxCorpus.sequence en)) /\
  forall ch, MaxCorpus.chain en = Some ch ->
    measures (Sequence.calls (MaxCorpus.sequence en)) (Some (MaxCorpus.value en)) (delta_activity en) ch.

(** The best is the seed, or a measured sequence with the state it leaves. *)
Definition best_ok (b : @Best.Best Chain) : Prop :=
  b = Best.new Sequence.empty (ex_initial_value e) \/
  exists ch a, Best.chain b = Some ch /\ admissible (Sequence.calls (Best.sequence b)) /\
    measures (Sequence.calls (Best.sequence b)) (Some (Best.value b)) a ch.

Variable floor : Z.

Record shared_ok (s : Shared Chain) : Prop := {
  ok_corpus : Forall entry_ok (corpus s);
  ok_size : (length (corpus s) <= MAX_ENTRIES)%nat;
  ok_best : best_ok (best s);
  ok_floor : floor <= Value.get (Best.value (best s));
  ok_runs : 0 <= runs s < 2 ^ 64;
}.

Lemma max_shared_ok_same s s' :
  corpus s' = corpus s -> best s' = best s -> (0 <= runs s < 2 ^ 64 -> 0 <= runs s' < 2 ^ 64) ->
  shared_ok s -> shared_ok s'.
Proof. intros Hc Hb Hr [Hent Hsize Hbest Hfl Hruns]. split; rewrite ?Hc, ?Hb; auto. Qed.

#[local] Abbreviation ok_prog := (safe shared_ok (fun _ => True)).

Lemma max_safe_then {A B} (k : A -> Prog (Shared Chain) B) p :
  ok_prog p -> (forall a, ok_prog (k a)) -> ok_prog (p ≫= k).
Proof. intros Hp Hk. by apply safe_seq. Qed.

Lemma max_safe_keep (f : Shared Chain -> Shared Chain) :
  (forall s, corpus (f s) = corpus s) -> (forall s, best (f s) = best s) ->
  (forall s, 0 <= runs s < 2 ^ 64 -> 0 <= runs (f s) < 2 ^ 64) -> ok_prog (modify f).
Proof. intros Hc Hb Hr. apply safe_modify; [|done]. intros s. apply max_shared_ok_same; auto. Qed.

(** *** Measuring *)
Lemma max_merge_coverage_safe o : ok_prog (merge_coverage (Chain := Chain) (Trace := Trace) o).
Proof.
  unfold merge_coverage. destruct (ChainApi.coverage o) as [l|]; [|done]. cbn [context local mbind Prog_bind prog_bind].
  apply safe_atomic. intros s Hs. split; [|done].
  destruct (merge _ _) as [[cov u]| |]; [|done..]. by apply (max_shared_ok_same s).
Qed.

Lemma observe_delta_safe pre c d below : ok_prog (observe_delta (Chain := Chain) pre c d below).
Proof.
  apply safe_atomic. intros s Hs. split; [|done].
  destruct (Records.observe _ _ _ _ _) as [o rs]. by apply (max_shared_ok_same s).
Qed.

Lemma measure_value_safe ch :
  safe shared_ok (fun r => forall v ch', r = Ok (v, ch') -> reads ch v ch')
    (measure_value (Trace := Trace) e ch).
Proof.
  unfold measure_value. destruct (exec _ ch) as [[o|m|p] ch'] eqn:Hx; [|done..].
  apply safe_seq; [done|done|by apply max_safe_keep|]. intros _.
  destruct (head (results o)) as [r|] eqn:Hh; [|done]. cbn [context local mbind Prog_bind prog_bind].
  destruct (success r) eqn:Hs; [|intros v ch'' [= <- <-]; by eapply reads_reverted].
  destruct (Value.decode r) as [v|m|p] eqn:Hd; [|done..]. intros v' ch'' [= <- <-].
  by eapply reads_value.
Qed.

(** A measured prefix of [executed ++ pending]. *)
Definition prefix_ok (executed pending : list Call.Call) (p : MeasuredPrefix (Chain := Chain)) : Prop :=
  exists pre suf, pending = pre ++ suf /\ Sequence.calls (mp_sequence p) = executed ++ pre /\
    (mp_measured p = true ->
     measures (executed ++ pre) (Some (mp_value p)) (mp_delta_activity p) (mp_chain p)).

Lemma prefix_ok_later executed c pending p :
  prefix_ok (executed ++ [c]) pending p -> prefix_ok executed (c :: pending) p.
Proof.
  intros (pre & suf & -> & Hc & Hm). exists (c :: pre), suf. split; [done|].
  by rewrite <- app_assoc in Hc, Hm.
Qed.

Lemma execute_pending_safe executed pending v a ch known :
  measures executed v a ch ->
  safe shared_ok (fun r => forall ps k, r = Ok (ps, k) -> Forall (prefix_ok executed pending) ps)
    (execute_pending (Trace := Trace) e executed pending ch (default (Value.new 0) v) known).
Proof.
  revert executed v a ch known.
  induction pending as [|c pending IH]; intros executed v a ch known Hm; cbn [execute_pending].
  { intros ps k [= <- _]. constructor. }
  destruct (exec _ ch) as [[o|m|p] ch1] eqn:Hx; [|done..].
  apply safe_seq; [done|done|by apply max_safe_keep|]. intros _.
  apply safe_seq; [done|done|by apply max_safe_keep|]. intros _.
  apply safe_seq; [done|done|apply max_merge_coverage_safe|]. intros update.
  apply safe_bind; [done..|]. eapply safe_weaken; [|apply measure_value_safe].
  intros res Hres [mv ch2] ->. specialize (Hres _ _ eq_refl). cbn [fst snd].
  assert (Hm' := measures_snoc _ _ _ _ _ _ _ _ _ Hm Hx Hres).
  apply safe_seq; [done|done|apply observe_delta_safe|]. intros obs.
  apply safe_bind; [done..|]. eapply safe_weaken; [|by eapply IH].
  intros res Hps [ps k] -> ps' k' [= <- _]. specialize (Hps _ _ eq_refl). cbn [fst snd]. constructor.
  - exists [c], pending. split; [done|]. split; [done|]. cbn [mp_measured mp_value mp_delta_activity mp_chain].
    rewrite bool_decide_eq_true. intros [mv' ->]. exact Hm'.
  - eapply Forall_impl; [exact Hps|]. intros p. apply prefix_ok_later.
Qed.

(** *** Recording *)
Lemma consider_safe sq v ch a :
  admissible (Sequence.calls sq) -> measures (Sequence.calls sq) (Some v) a ch ->
  ok_prog (consider e sq v ch).
Proof.
  intros Ha Hm. unfold consider. apply max_safe_then.
  - apply safe_atomic. intros s [Hc Hs Hb Hf Hr]. split; [|by destruct (Best.consider (best s) sq v ch)].
    pose proof (Best.consider_value_mono (best s) sq v ch) as Hmono.
    destruct (Best.consider_spec (best s) sq v ch) as [[_ Hq]|[_ Hq]]; rewrite Hq in Hmono |- *; simpl in *.
    + split; simpl; [done|done| |lia|done]. right. exists ch, a. done.
    + by split.
  - intros improved. destruct (improved && _); [|done].
    apply max_safe_then; [by apply max_safe_keep|done].
Qed.

Lemma add_prefix_safe p :
  admissible (Sequence.calls (mp_sequence p)) ->
  measures (Sequence.calls (mp_sequence p)) (Some (mp_value p)) (mp_delta_activity p) (mp_chain p) ->
  ok_prog (add_prefix (Chain := Chain) p).
Proof.
  intros Ha Hm. apply safe_atomic. intros s [Hc Hs Hb Hf Hr]. split; [|done]. unfold MaxCorpus.add.
  destruct (add_with_chain _ _) as [c'|m|x] eqn:E; [|done..]. simpl.
  split; simpl; [|by eapply add_length_le|done..]. apply Forall_forall. intros en Hen.
  rewrite Forall_forall in Hc. destruct (elem_of_add _ _ _ _ E Hen) as [?| ->]; [by apply Hc|].
  split; [done|]. simpl. by intros ch [= <-].
Qed.

Lemma admissible_prefix cs suf : admissible (cs ++ suf) -> admissible cs.
Proof. unfold admissible. rewrite Forall_app, length_app. intros [[? ?] ?]. split; [done|lia]. Qed.

Lemma record_prefixes_safe executed pending ps :
  admissible (executed ++ pending) -> Forall (prefix_ok executed pending) ps ->
  ok_prog (record_prefixes (Chain := Chain) e ps).
Proof.
  intros Ha HF.
  assert (Hall : forall p, p ∈ ps -> mp_measured p = true ->
    admissible (Sequence.calls (mp_sequence p)) /\
    measures (Sequence.calls (mp_sequence p)) (Some (mp_value p)) (mp_delta_activity p) (mp_chain p)).
  { intros p Hp Hmp. rewrite Forall_forall in HF. destruct (HF p Hp) as (pre & suf & -> & Hc & Hm).
    rewrite Hc. split; [|by apply Hm]. apply (admissible_prefix _ suf). by rewrite <- app_assoc. }
  unfold record_prefixes. destruct (last ps) as [l|] eqn:El; [|done].
  apply last_Some_elem_of in El. apply max_safe_then.
  - destruct (mp_measured l) eqn:Hml; [|done]. destruct (Hall l El Hml). by eapply consider_safe.
  - intros improved. apply safe_for_each. intros p Hp. destruct (mp_measured p) eqn:Hmp; [|done].
    destruct (improved || _); [|done]. destruct (Hall p Hp Hmp). by apply add_prefix_safe.
Qed.

(** *** The worker *)
Hypothesis Hlimit : Z.max 1 (ex_max_calls e) <= limit.

Definition base_ok (cs : list Call.Call) (v : Value) (ch : Chain) : Prop :=
  admissible cs /\ exists a, measures cs (Some v) a ch.

Lemma base_ok_initial : base_ok [] (ex_initial_value e) (ex_chain e).
Proof. split; [split; [constructor|simpl; lia]|]. exists 0. constructor. Qed.

Lemma pick_base_safe r :
  safe shared_ok (fun res => forall sq v ch r', res = Ok (sq, v, ch, r') -> base_ok (Sequence.calls sq) v ch)
    (pick_base (Chain := Chain) e r).
Proof.
  unfold pick_base. apply safe_draw; [done..|]. intros coin r1 _. cbn [fst snd].
  destruct (coin =? 0); apply safe_bind; try done; apply safe_get; intros s [Hc _ Hb _ _].
  - intros sampled [= <-]. apply safe_draw; [done..|]. intros b r2 Hr sq v ch r'. cbn [fst snd].
    destruct b as [[[bs bv] bch]|]; intros [= <- <- <- _]; [|apply base_ok_initial]. simpl.
    apply Sampling.random_base_elem in Hr as (en & Hen & Hbase). rewrite Forall_forall in Hc.
    destruct (Hc en Hen) as [Ha Hm]. unfold base_of in Hbase.
    destruct (MaxCorpus.chain en) as [ch'|]; [|done]. injection Hbase as <- <- <-.
    split; [done|]. eexists. by apply Hm.
  - intros b [= <-] sq v ch r'. unfold best_base.
    destruct (Best.chain (best s)) as [bch|] eqn:Ec; simpl; [|intros [= <- <- <- _]; apply base_ok_initial].
    destruct (Sequence.is_empty _) eqn:Ee; simpl; intros [= <- <- <- _]; [apply base_ok_initial|].
    destruct Hb as [Hb|(bch' & a & Hch & Ha & Hm)]; [by rewrite Hb in Ec|].
    rewrite Ec in Hch. injection Hch as <-. split; [done|]. by exists a.
Qed.

(** A plan: its calls before lead to its value and state, and the whole is
    admissible. *)
Definition plan_ok (res : Res (Plan (Chain := Chain) * R)) : Prop :=
  forall executed v pending base r', res = Ok (executed, v, pending, base, r') ->
    (exists a, measures executed (Some v) a base) /\ admissible (executed ++ pending).

Lemma max_random_call_function r c r' : random_call_of (Chain := Chain) e r = (Ok c, r') -> Call.function c ∈ ex_handlers e.
Proof.
  unfold random_call_of. intros Hc. apply M_bind_Ok in Hc as (f & r1 & Hf & Hc).
  apply draw_item_Ok in Hf. unfold Call.random in Hc. inv_ok. done.
Qed.

Lemma max_plan_safe r : safe shared_ok plan_ok (plan (Chain := Chain) e r).
Proof.
  unfold plan. apply safe_draw; [done..|]. intros fresh r1 _. cbn [fst snd]. destruct (fresh =? 0).
  - apply safe_draw; [done..|]. intros sq r2 Hs executed v pending base r' [= <- <- <- <- _].
    apply Sequence.random_sequence_Ok in Hs as [Hl Hf]. split; [exists 0; constructor|].
    split; [done|]. unfold Sequence.len in Hl. simpl. lia.
  - apply safe_bind; [done..|]. eapply safe_weaken; [|apply pick_base_safe].
    intros res Hbase [[[sq v] ch] r2] ->. destruct (Hbase _ _ _ _ eq_refl) as [[Hf Hl] Hm].
    apply safe_draw; [done..|]. intros c r3 Hcall. apply max_random_call_function in Hcall. cbn [fst snd].
    unfold Sequence.len. destruct (Z.leb_spec (ex_max_calls e) (Z.of_nat (length (Sequence.calls sq)))).
    + apply safe_draw; [done..|]. intros pos r4 _ executed v' pending base r' [= <- <- <- <- _].
      split; [exists 0; constructor|]. split; [by apply Forall_insert|]. simpl. by rewrite length_insert.
    + intros executed v' pending base r' [= <- <- <- <- _]. split; [done|]. split.
      * apply Forall_app. split; [done|by constructor].
      * rewrite length_app. simpl. lia.
Qed.

Lemma max_worker_loop_safe n known r : ok_prog (worker_loop (Trace := Trace) e n known r).
Proof.
  revert known r. induction n as [|n IH]; intros known r; cbn [worker_loop]; [done|].
  apply max_safe_then; [by apply safe_get|]. intros []; [done|].
  apply max_safe_then; [by apply safe_get|]. intros []; [done|].
  apply max_safe_then; [apply max_safe_keep; [done..|]; intros; by apply wrap_range|]. intros _.
  apply safe_bind; [done..|]. eapply safe_weaken; [|apply max_plan_safe].
  intros res Hp [[[[executed v] pending] base] r'] ->. destruct (Hp _ _ _ _ _ eq_refl) as ((a & Hm) & Ha).
  cbn [fst snd]. apply safe_bind; [done..|].
  eapply safe_weaken; [|by apply (execute_pending_safe executed pending (Some v) a base known)].
  intros res Hps [ps k] ->. specialize (Hps _ _ eq_refl). cbn [fst snd].
  apply max_safe_then; [by eapply record_prefixes_safe|]. intros _. apply IH.
Qed.

Lemma max_campaign_safe s budgets sys :
  shared_ok s -> rtc (step (tick (Chain := Chain))) (campaign (Trace := Trace) (R := R) e s budgets) sys ->
  shared_ok (shared sys).
Proof.
  intros Hs Hrun. refine (proj1 (run_invariant tick shared_ok (fun _ => True) _ _ _ Hrun Hs _)).
  - intros s1 s2 [] Hok. by apply (max_shared_ok_same s0).
  - apply Forall_forall. intros p Hp. apply elem_of_lookup_imap in Hp as (i & b & -> & _).
    apply max_worker_loop_safe.
Qed.

(** A loaded corpus is one the campaign can start from. *)
Lemma max_start_ok c deadline start cov :
  c = loaded -> Forall (fun en => admissible (Sequence.calls (MaxCorpus.sequence en))) c ->
  (length c <= MAX_ENTRIES)%nat -> floor = Value.get (Best.value (seed_best e c)) ->
  shared_ok (shared_new (seed_best e c) deadline start c cov).
Proof.
  intros -> Hc Hl ->. rewrite Forall_forall in Hc. split; simpl; [|done| |lia|lia].
  - apply Forall_forall. intros en Hen. split; [by apply Hc|]. intros ch Hch. by constructor.
  - unfold seed_best. destruct (best_entry loaded) as [[[sq v] ch]|] eqn:Eb; [right|by left].
    apply best_entry_Some in Eb as [(en & Hen & Hch & <- & <-) _]. exists ch, (delta_activity en). simpl.
    split; [done|]. split; [by apply Hc|]. by constructor.
Qed.
End Soundness.

(** ** The run budget *)
Section Budget.
Context {Chain Trace R : Type} `{ChainOps Chain Trace} `{FastRand R} `{Abi}.
Variable e : Execution Chain.

#[local] Abbreviation free p := (within (runs_cost (runs (Chain := Chain))) 0 p).

Lemma max_free_modify (f : Shared Chain -> Shared Chain) : (forall s, runs (f s) = runs s) -> free (modify f).
Proof. intros Hf. apply within_modify. intros s. unfold runs_cost. by rewrite Hf. Qed.

Lemma free_atomic {A} (m : M (Shared Chain) A) : (forall s, runs (m s).2 = runs s) -> free (atomic m).
Proof. intros Hm. apply within_atomic. intros s. unfold runs_cost. by rewrite Hm. Qed.

Ltac free_tac := repeat first
  [ apply within_then; [|intros ?]
  | apply within_for_each; intros ? _
  | by apply max_free_modify
  | by apply within_get
  | by apply within_draw
  | progress simpl; lia
  | match goal with |- within _ 0 (match ?x with _ => _ end) => destruct x end ].

Lemma max_merge_coverage_free o : free (merge_coverage (Chain := Chain) (Trace := Trace) o).
Proof.
  unfold merge_coverage. destruct (ChainApi.coverage o) as [l|]; [|simpl; lia].
  apply free_atomic. intros s. by destruct (merge _ _) as [[cov u]| |].
Qed.

Lemma measure_value_free ch : free (measure_value (Trace := Trace) e ch).
Proof.
  unfold measure_value. destruct (exec _ ch) as [[o|m|p] ch']; [|simpl; lia..].
  apply within_then; [by apply max_free_modify|]. intros _. apply within_then; [simpl; destruct (head (results o)); simpl; lia|].
  intros r. destruct (success r); [|simpl; lia]. apply within_then; [simpl; lia|]. intros. simpl. lia.
Qed.

Lemma execute_pending_free executed pending ch prev known :
  free (execute_pending (Trace := Trace) e executed pending ch prev known).
Proof.
  revert executed ch prev known.
  induction pending as [|c pending IH]; intros executed ch prev known; cbn [execute_pending]; [simpl; lia|].
  destruct (exec _ ch) as [[o|m|p] ch1]; [|simpl; lia..].
  apply within_then; [by apply max_free_modify|]. intros _. apply within_then; [by apply max_free_modify|]. intros _.
  apply within_then; [apply max_merge_coverage_free|]. intros update.
  apply within_then; [apply measure_value_free|]. intros [mv ch2].
  apply within_then; [|intros obs; apply within_then; [apply IH|intros; simpl; lia]].
  apply free_atomic. intros s. by destruct (Records.observe _ _ _ _ _).
Qed.

Lemma record_prefixes_free ps : free (record_prefixes (Chain := Chain) e ps).
Proof.
  unfold record_prefixes. destruct (last ps) as [l|]; [|simpl; lia]. apply within_then.
  - destruct (mp_measured l); [|simpl; lia]. apply within_then.
    + apply free_atomic. intros s. by destruct (Best.consider (best s) _ _ _).
    + intros improved. cbv zeta. case_match; free_tac.
  - intros improved. apply within_for_each. intros p _. case_match; [|simpl; lia].
    apply free_atomic. intros s. by destruct (MaxCorpus.add _ _ _ _ _ _).
Qed.

Lemma max_plan_free r : free (plan (Chain := Chain) e r).
Proof.
  unfold plan, pick_base. apply within_then; [by apply within_draw|]. intros fresh. destruct (_ =? _); [free_tac|].
  apply within_then; [free_tac|]. intros [[[sq v] ch] r2]. free_tac.
Qed.

Lemma max_worker_loop_within n known r :
  within (runs_cost runs) (Z.of_nat n) (worker_loop (Trace := Trace) e n known r).
Proof.
  revert known r. induction n as [|n IH]; intros known r; cbn [worker_loop]; [simpl; lia|].
  apply within_bind; [lia|by apply within_get|]. intros []; [simpl; lia|].
  apply within_bind; [lia|by apply within_get|]. intros []; [simpl; lia|].
  rewrite Nat2Z.inj_succ. apply within_increment; [lia|done|].
  apply within_bind; [lia|apply max_plan_free|]. intros [[[[executed v] pending] base] r']. cbn [fst snd].
  apply within_bind; [lia|apply execute_pending_free|]. intros done.
  apply within_bind; [lia|apply record_prefixes_free|]. intros _. apply IH.
Qed.

Lemma max_worker_within i b : 0 <= b -> within (runs_cost runs) b (worker (Trace := Trace) (R := R) e i b).
Proof. intros Hb. rewrite <- (Z2Nat.id b) at 1 by done. apply max_worker_loop_within. Qed.
End Budget.

(** ** Properties *)
Section Properties.
Context {Chain Trace R : Type} `{ChainOps Chain Trace} `{FastRandLaws R} `{Abi}.

(** A corpus the campaign may be given: loaded entries call handlers only. *)
Definition loadable (e : Execution Chain) (limit : Z) (c : Corpus Chain) : Prop :=
  Forall (fun en => admissible e limit (Sequence.calls (MaxCorpus.sequence en))) c /\
  (length c <= MAX_ENTRIES)%nat /\ Z.max 1 (ex_max_calls e) <= limit.

Lemma best_entry_None (c : Corpus Chain) en : best_entry c = None -> en ∈ c -> MaxCorpus.chain en = None.
Proof.
  unfold best_entry. intros Hb Hen. destruct (MaxCorpus.chain en) as [ch|] eqn:Ec; [|done].
  assert (Hin : (MaxCorpus.sequence en, MaxCorpus.value en, ch) ∈ omap base_of c).
  { apply list_elem_of_omap. exists en. unfold base_of. by rewrite Ec. }
  destruct (omap base_of c) as [|x l] eqn:El; [by apply not_elem_of_nil in Hin|].
  by apply max_by_key_None in Hb.
Qed.

Lemma seed_best_ge e (c : Corpus Chain) en :
  en ∈ c -> is_Some (MaxCorpus.chain en) ->
  Value.get (MaxCorpus.value en) <= Value.get (Best.value (seed_best e c)).
Proof.
  intros Hen [ch Hch]. unfold seed_best. destruct (best_entry c) as [[[sq v] ch']|] eqn:E.
  - apply best_entry_Some in E as [_ Hmax]. apply (Hmax en Hen). by exists ch.
  - by rewrite (best_entry_None c en E Hen) in Hch.
Qed.

Lemma campaign_best (e : Execution Chain) limit deadline start c cov b c' :
  loadable e limit c -> run (Trace := Trace) (R := R) e deadline start c cov (Ok b) c' ->
  best_ok e c limit b /\ Value.get (Best.value (seed_best e c)) <= Value.get (Best.value b) /\
  (length c' <= MAX_ENTRIES)%nat /\ Forall (entry_ok e c limit) c'.
Proof.
  intros (Hc & Hl & Hlim) Hrun.
  pose proof (max_start_ok e c limit (Value.get (Best.value (seed_best e c))) c deadline start cov
    eq_refl Hc Hl eq_refl) as Hstart.
  inversion Hrun as [Ht|Ht Hh|p Ht Hh Hsp|budgets sys Ht Hh Hsp Hsteps Hfin Hq]; subst.
  - split; [apply Hstart|]. split; [done|]. split; [done|apply Hstart].
  - split; [apply Hstart|]. split; [done|]. split; [done|apply Hstart].
  - match goal with Hq : collect sys = Ok b |- _ => unfold collect in Hq; destruct (failures sys =? 0)%nat; [|done]; injection Hq as <- end.
    by destruct (max_campaign_safe e c limit _ Hlim _ budgets sys Hstart Hsteps).
Qed.

(** C4: The best a campaign returns is real and never worse than what it
    started from: in every interleaving it is the initial value with no calls,
    or a sequence of handler calls, made one at a time from the initial
    snapshot or from a replayed one with the value read after each, whose last
    read is its value and whose state is its snapshot; its value is at least
    that of every replayed entry. *)
Theorem max_fuzz_best_sound (e : Execution Chain) limit deadline start c cov b c' :
  loadable e limit c -> run (Trace := Trace) (R := R) e deadline start c cov (Ok b) c' ->
  (b = Best.new Sequence.empty (ex_initial_value e) \/
   exists ch a, Best.chain b = Some ch /\
     Forall (fun cl => Call.function cl ∈ ex_handlers e) (Sequence.calls (Best.sequence b)) /\
     Z.of_nat (Sequence.len (Best.sequence b)) <= limit /\
     measures e c (Sequence.calls (Best.sequence b)) (Some (Best.value b)) a ch) /\
  forall en, en ∈ c -> is_Some (MaxCorpus.chain en) ->
    Value.get (MaxCorpus.value en) <= Value.get (Best.value b).
Proof.
  intros Hc Hrun. destruct (campaign_best _ _ _ _ _ _ _ _ Hc Hrun) as (Hb & Hge & _). split.
  - destruct Hb as [->|(ch & a & Hch & [Hf Hn] & Hm)]; [by left|right]. by exists ch, a.
  - intros en Hen Hch. pose proof (seed_best_ge e c en Hen Hch). lia.
Qed.

(** C8: The maximizer's corpus stays a tree of measured states: at every moment
    of a campaign, in every interleaving, a snapshot in it is the state its
    calls lead to, its value the one read there and its activity that of the
    last change; entries call handlers only and are at most 256; and never more
    sequences were run than the budget. *)
Theorem max_fuzz_corpus_coherent (e : Execution Chain) limit deadline start c cov budgets sys :
  loadable e limit c -> 0 <= ex_max_runs e -> 0 <= ex_threads e ->
  split_runs (ex_max_runs e) (ex_threads e) = Ok budgets ->
  rtc (step tick) (campaign (Trace := Trace) (R := R) e
    (shared_new (seed_best e c) deadline start c cov) budgets) sys ->
  (length (corpus (shared sys)) <= MAX_ENTRIES)%nat /\ 0 <= runs (shared sys) <= ex_max_runs e /\
  Forall (fun en =>
    Forall (fun cl => Call.function cl ∈ ex_handlers e) (Sequence.calls (MaxCorpus.sequence en)) /\
    Z.of_nat (Sequence.len (MaxCorpus.sequence en)) <= limit /\
    forall ch, MaxCorpus.chain en = Some ch ->
      measures e c (Sequence.calls (MaxCorpus.sequence en)) (Some (MaxCorpus.value en)) (delta_activity en) ch)
    (corpus (shared sys)).
Proof.
  intros (Hc & Hl & Hlim) Hm Ht Hsp Hsteps.
  pose proof (max_start_ok e c limit (Value.get (Best.value (seed_best e c))) c deadline start cov
    eq_refl Hc Hl eq_refl) as Hstart.
  destruct (max_campaign_safe e c limit _ Hlim _ budgets sys Hstart Hsteps) as [Hent Hsz _ _ Hn].
  split; [done|]. split.
  - split; [lia|].
    refine (split_runs_cost tick runs ltac:(intros s1 s2 []; done) (worker (Trace := Trace) (R := R) e)
      _ _ _ _ _ Hm Ht Hsp _ _ Hsteps Hn); [|reflexivity].
    intros i b. apply max_worker_within.
  - eapply Forall_impl; [exact Hent|]. by intros en [[Hf Hn'] Hms].
Qed.

(** A maximizer campaign with at least one thread always has a result, and
    no schedule of its workers is infinite. *)
Theorem max_fuzz_terminates (e : Execution Chain) deadline start c cov :
  ex_threads e <> 0 ->
  (exists r c', run (Trace := Trace) (R := R) e deadline start c cov r c') /\
  forall budgets sys, rtc (step tick) (campaign (Trace := Trace) (R := R) e
      (shared_new (seed_best e c) deadline start c cov) budgets) sys ->
    Acc (flip acts) (workers sys) /\
    (~ finished sys -> exists sys', step tick sys sys' /\ acts (workers sys) (workers sys')).
Proof.
  intros Ht. split; [|intros budgets sys _; apply system_terminates].
  destruct (target_met e (seed_best e c)) eqn:Etarget; [eexists _, _; by apply run_target_met|].
  destruct (decide (ex_handlers e = [])) as [Hh|Hh]; [eexists _, _; by apply run_no_handlers|].
  destruct (split_runs (ex_max_runs e) (ex_threads e)) as [bs|m|p] eqn:Hsp.
  - destruct (runs_to_end tick (campaign (Trace := Trace) (R := R) e
      (shared_new (seed_best e c) deadline start c cov) bs)) as (sys & Hr & Hf).
    eexists _, _. by eapply run_campaign.
  - unfold split_runs in Hsp. by destruct (_ =? 0).
  - eexists _, _. by eapply run_no_threads.
Qed.
End Properties.

(** ** Witnesses: a harness whose value reads 7 after any call *)
Module ToyMax.
Import Toy.

Definition seven (_ : list Transaction) (_ : Transaction) : TransactionResult :=
  mkResult true 1 (Some []) [] None 0 rpc_default.
#[export] Instance no_bie : BrokenInvariantError := { SELECTOR := [9; 9; 9; 9]; bie_decode _ := None }.
#[export] Instance seven_chain : ChainOps (list Transaction) unit := ScriptedChain.ops seven.

Definition climb : Function := mkFunction "climb" [] [] NonPayable.
Definition one_climb : Sequence := Sequence.new [Call.new climb (VTuple [])].

Definition execution (max_calls : Z) : Execution (list Transaction) :=
  mkExecution [] 5 6 [1; 1; 1; 1] [climb] (Value.new 3) 1 2 3 max_calls None.
Definition loaded : Corpus (list Transaction) := [mkEntry one_climb (Value.new 2) 1 0 (Some [])].

Definition system (max_calls : Z) (c : Corpus (list Transaction)) : System (S := Shared (list Transaction)) (A := unit) :=
  campaign (Trace := unit) (R := Z) (execution max_calls)
    (shared_new (seed_best (execution max_calls) c) None 0 c Coverage.shared_new) [2; 1].
Definition final : System (S := Shared (list Transaction)) (A := unit) := drive 300 (system 2 loaded).

Lemma max_final_run : run (Trace := unit) (R := Z) (execution 2) None 0 loaded Coverage.shared_new (collect final) (corpus (shared final)).
Proof.
  apply (run_campaign _ _ _ _ _ [2; 1]); [reflexivity|discriminate|reflexivity|apply drive_reaches|].
  apply all_ended_finished. vm_compute. reflexivity.
Qed.

Lemma loaded_ok : loadable (execution 2) 2 loaded.
Proof.
  split; [|split; [vm_compute; lia|vm_compute; discriminate]].
  constructor; [|constructor]. split; [|vm_compute; discriminate]. constructor; [left|constructor].
Qed.
End ToyMax.
Import Toy ToyMax.

Lemma max_fuzz_best_sound_witness :
  exists b, collect final = Ok b /\ Best.value b = Value.new 7 /\ 2 <= Value.get (Best.value b).
Proof.
  pose proof max_final_run as Hrun. destruct (collect final) as [b|m|p] eqn:E; [|vm_compute in E; discriminate E..].
  exists b. split; [reflexivity|].
  destruct (max_fuzz_best_sound (execution 2) 2 None 0 loaded Coverage.shared_new b _ loaded_ok Hrun) as [_ Hge].
  assert (Hv : Best.value <$> collect final = Ok (Value.new 7)) by (vm_compute; reflexivity).
  rewrite E in Hv. injection Hv as Hv. split; [exact Hv|].
  exact (Hge _ (list_elem_of_here _ _) ltac:(eexists; reflexivity)).
Defined.

Lemma max_fuzz_corpus_coherent_witness :
  (length (corpus (shared final)) <= MAX_ENTRIES)%nat /\ runs (shared final) <= 3.
Proof.
  destruct (max_fuzz_corpus_coherent (Trace := unit) (R := Z) (execution 2) 2 None 0 loaded Coverage.shared_new
    [2; 1] final loaded_ok) as (Hl & [_ Hr] & _);
    [vm_compute; discriminate|vm_compute; discriminate|reflexivity|apply drive_reaches|].
  split; [exact Hl|exact Hr].
Defined.

Lemma max_fuzz_terminates_witness :
  exists r c', run (Trace := unit) (R := Z) (execution 2) None 0 loaded Coverage.shared_new r c'.
Proof. apply (max_fuzz_terminates (execution 2)). discriminate. Defined.

(** The best is seeded from the corpus even when its best entry is below the
    value measured after setup. *)
Example seed_below_initial :
  Value.get (Best.value (seed_best (execution 2) loaded)) < Value.get (ex_initial_value (execution 2)).
Proof. reflexivity. Qed.

(** With a call limit of zero a worker that extends the empty base draws a
    position in no calls: it panics and the campaign fails. *)
Example zero_calls_panic :
  run (Trace := unit) (R := Z) (execution 0) None 0 [] Coverage.shared_new
    (Err (fmt_dec 2 +:+ " fuzzer(s) failed")) (corpus (shared (drive 300 (system 0 [])))).
Proof.
  assert (Hc : collect (drive 300 (system 0 [])) = Err (fmt_dec 2 +:+ " fuzzer(s) failed"))
    by (vm_compute; reflexivity).
  rewrite <- Hc. apply (run_campaign _ _ _ _ _ [2; 1]); [reflexivity|discriminate|reflexivity|apply drive_reaches|].
  apply all_ended_finished. vm_compute. reflexivity.
Qed.
