(* ===== verification/TestCommand.v ===== *)
(** * TestCommand: a campaign of the test command

    Models steps 10 to 13 of [cli/test.rs], from the deployed harness to the
    findings it returns: the corpus is loaded and replayed, the workers fuzz,
    and what they find is shrunk. The steps before prepare the deployed
    harness, those after write files. *)
From S2P Require Import Prelude.
From S2P Require Import Env.
From S2P Require Import HarnessId.
From S2P Require Import Transaction.
From S2P Require Import Coverage.
From S2P Require Import ChainApi.
From S2P Require Import CallCodec.
From S2P Require Import Literal.
From S2P Require Import TestSequence.
From S2P Require Import Stop.
From S2P Require Import TestBroken.
From S2P Require Import TestShrinker.
From S2P Require Import TestCorpus.
From S2P Require Import Stats.
From S2P Require Import Threads.
From S2P Require Import TestFuzzer.

(** The options of the command that the campaign uses. *)
Record TestArgs : Type := mkTestArgs {
  a_root : string;
  a_harness : HarnessId;
  a_threads : nat;
  a_max_fuzz_runs : Z;
  a_max_shrink_runs : Z;
  a_max_calls : Z;
  a_timeout : option Z;
  a_max_failures : nat;
  a_stop_on_revert : option StopOnRevert;
  a_stop_on_panic : option StopOnPanic;
  a_corpus_dir : string;
}.

Section Command.
Context {Chain Trace R W : Type} `{ChainOps Chain Trace} `{FastRand R} `{Abi} `{Text} `{CorpusFiles W}.
Context `{Transaction.BrokenInvariantError} `{PanicError} `{SolErrors} `{HexNumber}.

(** What the steps before leave: the chain after deployment and setup, the
    harness on it, and the coverage of both. *)
Record Deployed : Type := mkDeployed {
  d_chain : Chain;
  d_address : Address;
  d_deployer : Address;
  d_handlers : list Function;
  d_invariants : list Function;
  d_literals : LiteralExtractor;
  d_coverage : SharedCoverage;
}.

(** Step 10: the corpus of the harness, empty. *)
Definition corpus_start (a : TestArgs) (d : Deployed) : Corpus Chain :=
  mkCorpus [] (Some (a_root a)) (Some (a_corpus_dir a)) (Some (a_harness a)) (d_handlers d) (d_literals d).

(** Step 11 *)
Definition replayer (d : Deployed) : Replayer (Chain := Chain) :=
  with_coverage (d_coverage d) (with_deployer (d_deployer d) (with_target (d_address d) (with_chain (d_chain d) replayer_new))).

(** The corpus and the coverage a campaign starts from. *)
Definition load_corpus (a : TestArgs) (d : Deployed) (w : W) : Res (Corpus Chain * SharedCoverage) :=
  loaded ← (match load w (corpus_start a d) with (Ok _, c) => Ok c | (Err m, _) => Err m | (Panic p, _) => Panic p end);
  replayed ← replay (replayer d) loaded;
  _ ← replayed.1.1;
  mret (replayed.1.2, replayed.2).

(** Step 12: [start] is the time the campaign starts. *)
Definition fuzz_execution (a : TestArgs) (d : Deployed) (c : Corpus Chain) (seed : Z) : TestFuzzer.Execution Chain :=
  TestFuzzer.mkExecution (d_chain d) (d_address d) (d_deployer d) (d_handlers d) (d_invariants d) (literals c) seed
    (Z.of_nat (a_threads a)) (a_max_fuzz_runs a) (a_max_calls a) (a_stop_on_revert a) (a_stop_on_panic a).
Definition fuzz_start (a : TestArgs) (d : Deployed) (c : Corpus Chain) (cov : SharedCoverage) (start : Z) : TestFuzzer.Shared Chain :=
  TestFuzzer.shared_new ((fun t => start + t) <$> a_timeout a) start c cov (TestBroken.shared_new (a_max_failures a))
    (shared_stats_new (length (d_handlers d)) (length (d_invariants d))).

(** Step 13 *)
Definition shrinker (a : TestArgs) (d : Deployed) (seed : Z) : Shrinker (Chain := Chain) :=
  mkShrinker (Some (d_chain d)) (Some (d_address d)) (Some (d_deployer d)) (Some seed) (Some (a_threads a)) (Some (a_max_shrink_runs a))
    (Some (a_timeout a)).

(** The findings a campaign returns, or its failure. *)
Inductive test_campaign (a : TestArgs) (d : Deployed) (w : W) (seed start : Z) : Res (list BrokenInvariant) -> Prop :=
| corpus_failed m : load_corpus a d w = Err m -> test_campaign a d w seed start (Err m)
| corpus_panicked m : load_corpus a d w = Panic m -> test_campaign a d w seed start (Panic m)
| fuzz_failed c cov m :
    load_corpus a d w = Ok (c, cov) ->
    TestFuzzer.run (R := R) (fuzz_execution a d c seed) (fuzz_start a d c cov start) (Err m) -> test_campaign a d w seed start (Err m)
| fuzz_panicked c cov m :
    load_corpus a d w = Ok (c, cov) ->
    TestFuzzer.run (R := R) (fuzz_execution a d c seed) (fuzz_start a d c cov start) (Panic m) -> test_campaign a d w seed start (Panic m)
| nothing_found c cov out :
    load_corpus a d w = Ok (c, cov) ->
    TestFuzzer.run (R := R) (fuzz_execution a d c seed) (fuzz_start a d c cov start) (Ok out) -> out_broken out = [] ->
    test_campaign a d w seed start (Ok [])
| findings_shrunk c cov out r :
    load_corpus a d w = Ok (c, cov) ->
    TestFuzzer.run (R := R) (fuzz_execution a d c seed) (fuzz_start a d c cov start) (Ok out) -> out_broken out <> [] ->
    shrink (R := R) (shrinker a d seed) (out_broken out) r -> test_campaign a d w seed start r.

(** ** What a finding shows on the deployed chain *)

(** The state after making calls in batches, starting at the deployed chain. *)
Inductive reached (d : Deployed) : list Call -> Chain -> Prop :=
| reached_start : reached d [] (d_chain d)
| reached_batch cs ch more o ch' :
    reached d cs ch -> exec (transactions (mkSequence more) (d_address d) (d_deployer d)) ch = (Ok o, ch') ->
    reached d (cs ++ more) ch'.

Inductive shown (d : Deployed) (e : TestFuzzer.Execution Chain) : list Call -> string -> Prop :=
| shown_call cs c ch o ch' i :
    reached d cs ch -> exec [call_transaction c (d_address d) (d_deployer d)] ch = (Ok o, ch') ->
    shows e o 0 i -> shown d e (cs ++ [c]) i
| shown_invariant cs k f ch o ch' i :
    reached d cs ch -> d_invariants d !! k = Some f ->
    exec (map (fun f => invariant_transaction f (d_address d) (d_deployer d)) (d_invariants d)) ch = (Ok o, ch') ->
    shows e o k i -> shown d e (cs ++ [invariant_call f]) i.

Lemma decode_calls_admissible cs hs calls : decode_calls cs hs = Ok calls -> Forall (fun c => TestSequence.function c ∈ hs) calls.
Proof.
  revert calls. induction cs as [|c cs IH]; intros calls; cbn [decode_calls]; [by intros [= <-]|].
  destruct (decode_call c hs) as [call|m|p] eqn:E; [|by intros [= <-]|done].
  intros (rest & Hr & [= <-])%Res_bind_Ok. constructor; [|by apply IH].
  unfold decode_call in E. apply Res_bind_Ok in E as ([f args] & Hd & [= <-]). by apply decode_input_handler in Hd.
Qed.

Lemma load_entries_admissible es hs loaded : load_entries es hs = Ok loaded ->
  Forall (fun en : Entry Chain => Forall (fun c => TestSequence.function c ∈ hs) (TestSequence.calls (TestCorpus.sequence en))) loaded.
Proof.
  revert loaded. induction es as [|e es IH]; intros loaded; cbn [load_entries]; [by intros [= <-]|].
  intros (cs & Hc & Hr)%Res_bind_Ok. apply Res_bind_Ok in Hr as (rest & Hrest & Hr).
  case_bool_decide; injection Hr as <-; [constructor; [by eapply decode_calls_admissible|]|]; by apply IH.
Qed.
End Command.
Arguments Deployed : clear implicits.

Section Properties.
Context {Chain Trace R W : Type} `{ChainOps Chain Trace} `{FastRandLaws R} `{Abi} `{Text} `{CorpusFiles W}.
Context `{Transaction.BrokenInvariantError} `{PanicError} `{SolErrors} `{HexNumber}.
Variables (a : TestArgs) (d : Deployed Chain).

Lemma load_admissible (w : W) n c : load w (corpus_start a d) = (Ok n, c) ->
  TestCorpus.handlers c = d_handlers d /\
  Forall (fun en => Forall (fun c => TestSequence.function c ∈ d_handlers d) (TestSequence.calls (TestCorpus.sequence en))) (inner c).
Proof.
  unfold load. destruct (path _) as [p|m|m]; [|done..]. destruct (read_corpus p w) as [| | |doc]; [by intros [= _ <-]|done..|].
  destruct (cj_version doc =? CORPUS_VERSION); [|by intros [= _ <-]].
  destruct (load_entries _ _) as [es|m|m] eqn:E; [|done..]. intros [= _ <-]. split; [done|]. by apply load_entries_admissible in E.
Qed.

(** What a replay leaves: the loaded sequences on states of their own. *)
Record loaded_ok (c : Corpus Chain) : Prop := {
  loaded_size : (len c <= MAX_ENTRIES)%nat;
  loaded_entry : forall en, en ∈ inner c ->
    Forall (fun c => TestSequence.function c ∈ d_handlers d) (TestSequence.calls (TestCorpus.sequence en)) /\
    forall ch, chain en = Some ch -> reached d (TestSequence.calls (TestCorpus.sequence en)) ch;
}.

Lemma load_corpus_ok (w : W) c cov : load_corpus a d w = Ok (c, cov) -> loaded_ok c.
Proof.
  unfold load_corpus. intros (c0 & Hl & Hr)%Res_bind_Ok.
  destruct (load w (corpus_start a d)) as [[n|m|m] c1] eqn:El; [|done..]. injection Hl as ->.
  apply load_admissible in El as [_ Hadm].
  apply Res_bind_Ok in Hr as ([[res c1] cov1] & Hrep & Hr). apply Res_bind_Ok in Hr as (n' & Hn & [= <- <-]). cbn in Hn. subst res.
  apply tester_replay_sound in Hrep as (_ & Hlen & (ch & tgt & dep & Hch & Ht & Hd & Hent) & _). injection Hch as <-. injection Ht as <-. injection Hd as <-.
  split; [done|]. intros en Hen. destruct (Hent en Hen) as (snap & Hsnap & Hseq & o & ch' & Hex & Hc).
  rewrite Hseq. split.
  - unfold entries in Hsnap. apply list_elem_of_fmap in Hsnap as (en0 & -> & Hin). cbn. rewrite Forall_forall in Hadm. by apply Hadm.
  - intros ch0 Hc0. rewrite Hc in Hc0. injection Hc0 as <-. rewrite Hseq in Hex.
    rewrite <- (app_nil_l (TestSequence.calls _)). eapply reached_batch; [constructor|]. destruct (snap_sequence snap). exact Hex.
Qed.

(** Making calls one at a time from a snapshot is making batches of calls from
    the deployed chain. *)
Lemma reaches_reached c seed cs ch : loaded_ok c -> reaches (fuzz_execution a d c seed) c cs ch -> reached d cs ch.
Proof.
  intros Hc. induction 1 as [|en ch Hen Hch|cs x ch o ch' _ IH Hx]; [constructor|by apply (loaded_entry c Hc en Hen)|].
  by eapply reached_batch.
Qed.

Lemma exposes_shown c seed cs i : loaded_ok c -> exposes (fuzz_execution a d c seed) c cs i -> shown d (fuzz_execution a d c seed) cs i.
Proof.
  intros Hc. destruct 1 as [cs x ch o ch' i Hr Hx Hs|cs k f ch o ch' i Hr Hk Hx Hs].
  - eapply shown_call; [by eapply reaches_reached|exact Hx|exact Hs].
  - eapply shown_invariant; [by eapply reaches_reached|exact Hk|exact Hx|exact Hs].
Qed.

(** The longest sequence: of the corpus or of the call limit. *)
Definition length_limit (c : Corpus Chain) : Z :=
  Z.max (Z.max 1 (a_max_calls a)) (foldr (fun en m => Z.max (Z.of_nat (TestSequence.len (TestCorpus.sequence en))) m) 0 (inner c)).

Lemma entry_within (es : list (Entry Chain)) en : en ∈ es ->
  Z.of_nat (TestSequence.len (TestCorpus.sequence en)) <= foldr (fun en m => Z.max (Z.of_nat (TestSequence.len (TestCorpus.sequence en))) m) 0 es.
Proof. induction es as [|x es IH]; [by intros ?%elem_of_nil|]. intros [->|Hin]%elem_of_cons; cbn; [lia|]. specialize (IH Hin). lia. Qed.

Lemma fuzz_start_ok c cov seed start : loaded_ok c ->
  shared_ok (fuzz_execution a d c seed) c (length_limit c) (fuzz_start a d c cov start).
Proof.
  intros Hc. split; [|apply Hc|constructor|cbn; lia]. apply Forall_forall. intros en Hen. cbn in Hen. split; [by apply (loaded_entry c Hc en Hen)|]. split.
  - pose proof (entry_within (inner c) en Hen). unfold length_limit. lia.
  - intros ch Hch. by eapply reaches_loaded.
Qed.

(** C1: What the test command reports is real, from end to end: every finding
    it returns comes from one whose calls, made on the deployed chain with the
    calls of a saved corpus entry first, show its id; it has that id and
    description, and its own calls are a sublist that is unchanged or
    reproduces the id on a clean clone of the deployed chain - whatever the
    corpus on disk, the seed, and the interleaving of the workers. *)
Theorem test_reports_real (w : W) (seed start : Z) (rs : list BrokenInvariant) :
  0 <= a_max_fuzz_runs a ->
  test_campaign (Trace := Trace) (R := R) a d w seed start (Ok rs) ->
  exists c e found, TestShrinker.resolve (shrinker a d seed) = Ok e /\
    Forall (fun b => shown d (fuzz_execution a d c seed) (TestSequence.calls (TestBroken.sequence b)) (TestBroken.id b)) found /\
    Forall2 (fun b r => TestBroken.id r = TestBroken.id b /\ description r = description b /\
      TestSequence.calls (TestBroken.sequence r) `sublist_of` TestSequence.calls (TestBroken.sequence b) /\
      (r = b \/ reproduces e (TestBroken.sequence r) b = Ok true)) found rs.
Proof.
  intros Hruns. inversion 1 as [| | | |c cov out Hl Hf Hn|c cov out r Hl Hf Hn Hs]; subst.
  - exists c. eexists _, []. split; [done|]. split; constructor.
  - pose proof (load_corpus_ok w c cov Hl) as Hc.
    destruct (campaign_findings (fuzz_execution a d c seed) (length_limit c) (fuzz_start a d c cov start) out) as [Hfound _];
      [by apply fuzz_start_ok|unfold length_limit; cbn; lia|done|cbn; lia|done|exact Hf|].
    apply shrink_keeps in Hs as (e & He & Hk). exists c, e, (out_broken out). split; [exact He|]. split.
    + apply (Forall_impl _ _ _ Hfound). intros b. by apply exposes_shown.
    + eapply Forall2_impl; [exact Hk|]. by intros b r [Hkept _].
Qed.
End Properties.


(** ** Witness: a harness whose every call reports the invariant [INV] *)
Import Toy ToyCorpus ToyFuzz.

Definition toy_args : TestArgs :=
  mkTestArgs "/p" (mkHarnessId "src/Spin.sol" "Spin") 2 3 5 2 None 4 None None ".ripfuzz/corpus".
Definition toy_deployed : Deployed (list Transaction) := mkDeployed [] 5 6 [spin] [] extractor_new Coverage.shared_new.
Definition toy_corpus : Corpus (list Transaction) := corpus_start toy_args toy_deployed.
Definition toy_execution : TestFuzzer.Execution (list Transaction) := fuzz_execution toy_args toy_deployed toy_corpus 1.
Definition toy_start : TestFuzzer.Shared (list Transaction) := fuzz_start toy_args toy_deployed toy_corpus Coverage.shared_new 0.
Definition toy_final : System (S := TestFuzzer.Shared (list Transaction)) (A := unit) :=
  drive 200 (campaign (Trace := unit) (R := Z) toy_execution toy_start [2; 1]).

Lemma test_reports_real_witness : exists r c b,
  test_campaign (Trace := unit) (R := Z) (W := option (string * CorpusJson)) toy_args toy_deployed None 1 0 (Ok [r]) /\
  TestBroken.id r = "INV"%string /\ TestBroken.id r = TestBroken.id b /\
  shown toy_deployed (fuzz_execution toy_args toy_deployed c 1) (TestSequence.calls (TestBroken.sequence b)) (TestBroken.id b).
Proof.
  assert (Hrun : TestFuzzer.run (Trace := unit) (R := Z) toy_execution toy_start (collect toy_final)).
  { apply (run_campaign _ _ [2; 1]); [done|reflexivity|apply drive_reaches|]. apply all_ended_finished. vm_compute. reflexivity. }
  destruct (collect toy_final) as [out|m|p] eqn:E; [|vm_compute in E; discriminate E..].
  assert (Hb : exists b, out_broken out = [b] /\ (item_len b <= 1)%nat).
  { vm_compute in E. injection E as <-. eexists. split; [reflexivity|]. vm_compute. lia. }
  destruct Hb as (b & Hb & Hlen).
  assert (Hc : test_campaign (Trace := unit) (R := Z) (W := option (string * CorpusJson)) toy_args toy_deployed None 1 0 (Ok [b])).
  { eapply (findings_shrunk _ _ _ _ _ toy_corpus Coverage.shared_new out); [reflexivity|exact Hrun|by rewrite Hb|].
    rewrite Hb. eapply shrink_all; [reflexivity|]. apply each_cons; [by apply one_short|apply each_nil]. }
  destruct (test_reports_real toy_args toy_deployed None 1 0 [b] ltac:(vm_compute; discriminate) Hc) as (c & e & found & _ & Hs & HF).
  inversion HF as [|b0 ? found' ? [Hid _] Hrest]; subst. apply Forall_cons in Hs as [Hs _].
  exists b, c, b0. split; [exact Hc|]. split; [|split; [exact Hid|exact Hs]].
  assert (Hinv : (fun o => map TestBroken.id (out_broken o)) <$> collect toy_final = Ok ["INV"%string]) by (vm_compute; reflexivity).
  rewrite E in Hinv. injection Hinv as Hinv. rewrite Hb in Hinv. by injection Hinv.
Defined.
