(* ===== verification/MaxCommand.v ===== *)
(** * MaxCommand: a campaign of the max command

    Models steps 10 to 14 of [cli/max.rs] and the run of its summary: the value
    of the deployed harness is measured, the corpus is loaded and replayed, the
    workers fuzz, and the best sequence is shrunk and kept. The steps before
    prepare the deployed harness, those after write files. *)
From S2P Require Import Prelude.
From S2P Require Import Env.
From S2P Require Import HarnessId.
From S2P Require Import Paths.
From S2P Require Import Transaction.
From S2P Require Import Value.
From S2P Require Import Call.
From S2P Require Import Sequence.
From S2P Require Import Best.
From S2P Require Import Coverage.
From S2P Require Import ChainApi.
From S2P Require Import MaxCorpus.
From S2P Require Import ShrinkEngine.
From S2P Require Import MaxShrinker.
From S2P Require Import Threads.
From S2P Require Import MaxFuzzer.

(** ** Equality of sequences, as [PartialEq] derives it *)
#[export] Instance StateMutability_eq_dec : EqDecision StateMutability.
Proof. solve_decision. Defined.
#[export] Instance Param_eq_dec : EqDecision Param.
Proof.
  refine (fix go (p q : Param) : Decision (p = q) :=
    match p, q with
    | mkParam n t cs, mkParam n' t' cs' =>
        cast_if_and3 (decide (n = n')) (decide (t = t')) (@list_eq_dec _ go cs cs')
    end); congruence.
Defined.
#[export] Instance DynSolValue_eq_dec : EqDecision DynSolValue.
Proof.
  hnf. fix go 1. intros x y. pose proof (fun vs ws => @list_eq_dec _ go vs ws) as Hl.
  unfold Decision. destruct x, y; try (right; discriminate).
  all: try (destruct (Hl vs vs0) as [->|]; [by left|right; congruence]).
  all: repeat match goal with |- {?c ?a ?b = ?c ?a' ?b'} + {_} => destruct (decide (a = a')) as [->|]; [|right; congruence]; destruct (decide (b = b')) as [->|]; [by left|right; congruence] end.
  all: match goal with |- {?c ?a = ?c ?a'} + {_} => destruct (decide (a = a')) as [->|]; [by left|right; congruence] end.
Defined.
#[export] Instance Function_eq_dec : EqDecision Function.
Proof. solve_decision. Defined.
#[export] Instance Call_eq_dec : EqDecision Call.Call.
Proof. solve_decision. Defined.
#[export] Instance Sequence_eq_dec : EqDecision Sequence.
Proof. solve_decision. Defined.

(** The options of the command that the campaign uses. *)
Record MaxArgs : Type := mkMaxArgs {
  m_root : string;
  m_harness : HarnessId;
  m_threads : nat;
  m_max_fuzz_runs : Z;
  m_max_shrink_runs : Z;
  m_max_calls : Z;
  m_timeout : option Z;
  m_target_value : option Z;
  m_corpus_dir : string;
}.

Definition corpus_path (root corpus_dir : string) (h : HarnessId) : Res string :=
  let base := if is_absolute corpus_dir then corpus_dir else join root corpus_dir in
  f ← context (file_name (HarnessId.path h)) "harness path has no file name";
  mret (join (join (join base f) (name h)) "corpus.json").

Section Command.
Context {Chain Trace R : Type} `{ChainOps Chain Trace} `{FastRand R} `{Abi} `{Text} `{BrokenInvariantError}.

(** What the steps before leave: the chain after deployment and setup, the
    harness on it with its functions, and the coverage of both. *)
Record MaxDeployed : Type := mkMaxDeployed {
  md_chain : Chain;
  md_address : Address;
  md_deployer : Address;
  md_value : Function;
  md_handlers : list Function;
  md_coverage : SharedCoverage;
}.

Definition value_calldata (d : MaxDeployed) : Bytes := selector (md_value d).
Definition value_tx (d : MaxDeployed) : Transaction := with_calldata (Transaction_new (md_address d)) (value_calldata d).

(** Step 10, on a traced clone. The trace that a failing call writes is left
    out: the command fails with one message or another. *)
Definition measure_initial (d : MaxDeployed) : Res Value :=
  output ← (exec [value_tx d] (set_trace true (md_chain d))).1;
  result ← context (head (results output)) "value call result missing";
  if success result then with_context "harness contract returned an invalid value" (Value.decode result)
  else Err "harness contract value call failed".

(** Step 12 *)
Definition max_replayer (d : MaxDeployed) : CorpusReplayer (Chain := Chain) :=
  with_coverage (with_value_calldata (with_deployer (with_target (with_chain replayer_new
    (md_chain d)) (md_address d)) (md_deployer d)) (value_calldata d)) (md_coverage d).

(** Steps 11 and 12: the corpus and the coverage a campaign starts from;
    [files] is what reading a file gives. *)
Definition load_corpus (a : MaxArgs) (d : MaxDeployed) (files : string -> FileRead) : Res (Corpus Chain * SharedCoverage) :=
  p ← corpus_path (m_root a) (m_corpus_dir a) (m_harness a);
  loaded ← (match load (files p) (md_handlers d) [] with (Ok _, c) => Ok c | (Err m, _) => Err m | (Panic m, _) => Panic m end);
  replayed ← replay (max_replayer d) loaded;
  out ← replayed.1;
  mret (out.1, replayed.2).

(** Step 13 *)
Definition fuzz_execution (a : MaxArgs) (d : MaxDeployed) (initial : Value) (seed : Z) : MaxFuzzer.Execution Chain :=
  MaxFuzzer.mkExecution (md_chain d) (md_address d) (md_deployer d) (value_calldata d) (md_handlers d) initial seed
    (Z.of_nat (m_threads a)) (m_max_fuzz_runs a) (m_max_calls a) (Value.new <$> m_target_value a).
Definition fuzz_deadline (a : MaxArgs) (start : Z) : option Z := (fun t => start + t) <$> m_timeout a.

(** Step 14 *)
Definition max_shrinker (a : MaxArgs) (d : MaxDeployed) (b : @Best.Best Chain) (seed : Z) : Shrinker (Chain := Chain) :=
  mkShrinker (Some (md_chain d)) (Some (md_address d)) (Some (md_deployer d)) (Some (value_calldata d)) (Some (Best.value b))
    (Some seed) (Some (m_threads a)) (Some (m_max_shrink_runs a)) (Some (m_timeout a)).

(** The new edges of the first entry with the best sequence. *)
Definition inherited_edges (b : @Best.Best Chain) (c : Corpus Chain) : Z :=
  match head (filter (fun en => snap_sequence en = Best.sequence b) (entries c)) with Some en => snap_new_edges en | None => 0 end.

(** The shrunk sequence joins the corpus with the state after it, for a chain
    on which it runs. *)
Definition keep_shrunk (d : MaxDeployed) (b : @Best.Best Chain) (shrunk : Sequence) (c : Corpus Chain) : Res (Corpus Chain) :=
  match exec (Sequence.transactions shrunk (md_address d) (md_deployer d)) (md_chain d) with
  | (Ok _, final_chain) => MaxCorpus.add shrunk (Best.value b) (inherited_edges b c) 0 final_chain c
  | (Err m, _) => Err m
  | (Panic m, _) => Panic m
  end.

(** What a campaign leaves: the best it returns, the shrunk sequence for the
    summary, and the corpus it saves. *)
Record MaxOutcome : Type := mkOutcome {
  mo_best : @Best.Best Chain;
  mo_shrunk : option Sequence;
  mo_corpus : Corpus Chain;
}.

(** Steps 13 and 14, from the measured value and the replayed corpus. *)
Inductive max_search (a : MaxArgs) (d : MaxDeployed) (v0 : Value) (c : Corpus Chain) (cov : SharedCoverage) (seed start : Z)
    : Res MaxOutcome -> Prop :=
| fuzz_failed m c' :
    MaxFuzzer.run (R := R) (fuzz_execution a d v0 seed) (fuzz_deadline a start) start c cov (Err m) c' -> max_search a d v0 c cov seed start (Err m)
| fuzz_panicked m c' :
    MaxFuzzer.run (R := R) (fuzz_execution a d v0 seed) (fuzz_deadline a start) start c cov (Panic m) c' -> max_search a d v0 c cov seed start (Panic m)
| best_empty b c' :
    MaxFuzzer.run (R := R) (fuzz_execution a d v0 seed) (fuzz_deadline a start) start c cov (Ok b) c' ->
    Sequence.is_empty (Best.sequence b) = true -> max_search a d v0 c cov seed start (Ok (mkOutcome b None c'))
| best_shrunk b c' r :
    MaxFuzzer.run (R := R) (fuzz_execution a d v0 seed) (fuzz_deadline a start) start c cov (Ok b) c' ->
    Sequence.is_empty (Best.sequence b) = false -> shrink (R := R) (max_shrinker a d b seed) (Best.sequence b) r ->
    max_search a d v0 c cov seed start
      (shrunk ← r; c'' ← keep_shrunk d b shrunk c'; mret (mkOutcome b (Some shrunk) c'')).

Inductive max_campaign (a : MaxArgs) (d : MaxDeployed) (files : string -> FileRead) (seed start : Z) : Res MaxOutcome -> Prop :=
| initial_failed m : measure_initial d = Err m -> max_campaign a d files seed start (Err m)
| initial_panicked m : measure_initial d = Panic m -> max_campaign a d files seed start (Panic m)
| corpus_failed v0 m : measure_initial d = Ok v0 -> load_corpus a d files = Err m -> max_campaign a d files seed start (Err m)
| corpus_panicked v0 m : measure_initial d = Ok v0 -> load_corpus a d files = Panic m -> max_campaign a d files seed start (Panic m)
| searched v0 c cov r : measure_initial d = Ok v0 -> load_corpus a d files = Ok (c, cov) ->
    max_search a d v0 c cov seed start r -> max_campaign a d files seed start r.

(** Step 17: the shrunk sequence and the summary run on a traced clone; the
    success of the summary call and the trace. *)
Definition summary_transactions (d : MaxDeployed) (summary : Function) (shrunk : option Sequence) : list Transaction :=
  match shrunk with Some s => Sequence.transactions s (md_address d) (md_deployer d) | None => [] end ++
  [with_calldata (Transaction_new (md_address d)) (selector summary)].
Definition run_summary (d : MaxDeployed) (summary : Function) (shrunk : option Sequence) : Res (bool * Trace) :=
  output ← (exec (summary_transactions d summary shrunk) (set_trace true (md_chain d))).1;
  result ← context (last (results output)) "summary call result missing";
  t ← context (trace output) "summary call trace missing";
  mret (success result, t).

(** ** What the best value shows on the deployed chain *)

(** The value call on a state reads a value, or reverts, and leaves a state. *)
Definition value_read (d : MaxDeployed) (ch : Chain) (v : option Value) (ch' : Chain) : Prop :=
  exists o r, exec [value_tx d] ch = (Ok o, ch') /\ head (results o) = Some r /\
    match v with Some v => Value.decode r = Ok v | None => success r = false end.

(** The value read last, and the state, after calls on the deployed chain: the
    value is read after each call, or after a batch that begins there. *)
Inductive achieved (d : MaxDeployed) (v0 : Value) : list Call.Call -> option Value -> Chain -> Prop :=
| achieved_start : achieved d v0 [] (Some v0) (md_chain d)
| achieved_batch sq o ch v ch' :
    exec (Sequence.transactions sq (md_address d) (md_deployer d)) (md_chain d) = (Ok o, ch) -> value_read d ch (Some v) ch' ->
    achieved d v0 (Sequence.calls sq) (Some v) ch'
| achieved_call cs v ch c o ch1 v' ch' :
    achieved d v0 cs v ch -> exec [Call.transaction c (md_address d) (md_deployer d)] ch = (Ok o, ch1) -> value_read d ch1 v' ch' ->
    achieved d v0 (cs ++ [c]) v' ch'.

(** A clean replay of a sequence reads at least a value. *)
Definition replays_to (d : MaxDeployed) (s : Sequence) (least : Value) : Prop :=
  exists o ch v ch', exec (Sequence.transactions s (md_address d) (md_deployer d)) (md_chain d) = (Ok o, ch) /\
    value_read d ch (Some v) ch' /\ Value.get least <= Value.get v.
End Command.
Arguments MaxDeployed : clear implicits.
Arguments MaxOutcome : clear implicits.

Lemma Forall_sublist_of {A} (P : A -> Prop) l k : l `sublist_of` k -> Forall P k -> Forall P l.
Proof. induction 1 as [|x l k _ IH|x l k _ IH]; [done| |]; intros [Hx Hk]%Forall_cons; [constructor|]; auto. Qed.

(** ** The corpus the campaign starts from *)
Section Loaded.
Context {Chain Trace R : Type} `{ChainOps Chain Trace} `{FastRandLaws R} `{Abi} `{Text} `{BrokenInvariantError}.
Variables (a : MaxArgs) (d : MaxDeployed Chain).

Definition handled (cs : list Call.Call) : Prop := Forall (fun c => Call.function c ∈ md_handlers d) cs.

Lemma decode_calls_handled cs calls : decode_calls cs (md_handlers d) = Ok calls -> handled calls.
Proof.
  revert calls. induction cs as [|c cs IH]; intros calls; cbn [decode_calls]; [intros [= <-]; constructor|].
  destruct (decode_call c _) as [call|m|p] eqn:E; [|done..].
  destruct (decode_calls cs _) as [rest|m|p]; [|done..]. intros [= <-]. constructor; [|by apply IH].
  unfold decode_call in E. apply Res_bind_Ok in E as ([f args] & Hd & [= <-]). by apply decode_input_handler in Hd.
Qed.

Definition entry_handled (en : Entry Chain) : Prop := handled (Sequence.calls (MaxCorpus.sequence en)).

Lemma add_handled e c c' : add_with_chain e c = Ok c' -> entry_handled e -> Forall entry_handled c -> Forall entry_handled c'.
Proof.
  intros Ha He Hc. rewrite Forall_forall in Hc |- *. intros x Hx. destruct (elem_of_add _ _ _ _ Ha Hx) as [?| ->]; [by apply Hc|done].
Qed.

Lemma load_entries_handled es n n' c c' : load_entries es (md_handlers d) n c = (Ok n', c') ->
  Forall entry_handled c -> Forall entry_handled c'.
Proof.
  revert n c. induction es as [|e es IH]; intros n c; cbn [load_entries]; [by intros [= _ <-]|].
  destruct (decode_calls _ _) as [[|x cs]|m|p] eqn:E; [by apply IH| |by apply IH|done].
  destruct (u256_parse _) as [v|m|p]; [|done..]. destruct (add_with_chain _ c) as [c1|m|p] eqn:Ea; [|done..].
  intros Hl Hc. eapply IH; [exact Hl|]. eapply add_handled; [exact Ea| |done]. by apply decode_calls_handled in E.
Qed.

Lemma load_handled file n c : load file (md_handlers d) [] = (Ok n, c) -> Forall entry_handled c.
Proof.
  unfold load. destruct file as [| | |doc]; [intros [= _ <-]; constructor|done..|].
  destruct (_ =? _); [|done]. intros Hl. eapply load_entries_handled; [exact Hl|constructor].
Qed.

(** What a replay leaves: handler calls whose value is the one read. *)
Record loaded_ok (v0 : Value) (c : Corpus Chain) : Prop := {
  loaded_size : (length c <= MAX_ENTRIES)%nat;
  loaded_handled : Forall entry_handled c;
  loaded_entry : forall en, en ∈ c -> exists ch, MaxCorpus.chain en = Some ch /\
    achieved (Trace := Trace) d v0 (Sequence.calls (MaxCorpus.sequence en)) (Some (MaxCorpus.value en)) ch;
}.

Lemma max_load_corpus_ok files v0 c cov : load_corpus (Trace := Trace) a d files = Ok (c, cov) -> loaded_ok v0 c.
Proof.
  unfold load_corpus. intros (p & _ & Hr)%Res_bind_Ok. apply Res_bind_Ok in Hr as (c0 & Hl & Hr).
  destruct (load _ _ _) as [[n|m|m] c1] eqn:El; [|done..]. injection Hl as ->. apply load_handled in El.
  apply Res_bind_Ok in Hr as ([res cov1] & Hrep & Hr). apply Res_bind_Ok in Hr as ([c1 n1] & Hn & [= <- <-]). cbn in Hn |- *. subst res.
  destruct (replay_Ok _ _ _ _ _ _ _ _ _ Hrep eq_refl eq_refl eq_refl eq_refl) as (_ & Hlen & Hof).
  rewrite Forall_forall in Hof, El. split; [done| |].
  - apply Forall_forall. intros en (_ & s & ch & Hs & Hq & _)%Hof. unfold entry_handled. rewrite <- Hq.
    apply list_elem_of_fmap in Hs as (en0 & -> & Hin). by apply El.
  - intros en (_ & s & ch & _ & _ & Hch & o & ch1 & out & r & Hx & Hv & Hh & Hd)%Hof. exists ch. split; [done|].
    eapply achieved_batch; [exact Hx|]. by exists out, r.
Qed.
End Loaded.

(** ** From the workers' account of a value to the command's *)
Section Properties.
Context {Chain Trace R : Type} `{ChainOps Chain Trace} `{FastRandLaws R} `{Abi} `{Text} `{BrokenInvariantError}.
Variables (a : MaxArgs) (d : MaxDeployed Chain).

Lemma reads_value_read v0 seed ch v ch' : reads (Trace := Trace) (fuzz_execution a d v0 seed) ch v ch' -> value_read (Trace := Trace) d ch v ch'.
Proof. destruct 1 as [o r v ch' Hx Hh Hd|o r ch' Hx Hh Hs]; by exists o, r. Qed.

Lemma measures_achieved v0 c seed cs v act ch : loaded_ok (Trace := Trace) d v0 c ->
  measures (Trace := Trace) (fuzz_execution a d v0 seed) c cs v act ch -> achieved (Trace := Trace) d v0 cs v ch.
Proof.
  intros Hc. induction 1 as [|en ch Hen Hch|cs v act ch x o ch1 v' ch2 _ IH Hx Hr]; [constructor| |].
  - destruct (loaded_entry d v0 c Hc en Hen) as (ch' & Hch' & Ha). rewrite Hch in Hch'. by injection Hch' as <-.
  - eapply achieved_call; [exact IH|exact Hx|]. by eapply reads_value_read.
Qed.

(** The longest sequence: of the corpus or of the call limit. *)
Definition length_limit (c : Corpus Chain) : Z :=
  Z.max (Z.max 1 (m_max_calls a)) (foldr (fun en m => Z.max (Z.of_nat (Sequence.len (MaxCorpus.sequence en))) m) 0 c).

Lemma max_entry_within (es : Corpus Chain) en : en ∈ es ->
  Z.of_nat (Sequence.len (MaxCorpus.sequence en)) <= foldr (fun en m => Z.max (Z.of_nat (Sequence.len (MaxCorpus.sequence en))) m) 0 es.
Proof. induction es as [|x es IH]; [by intros ?%elem_of_nil|]. intros [->|Hin]%elem_of_cons; cbn; [lia|]. specialize (IH Hin). lia. Qed.

Lemma loaded_loadable v0 c seed : loaded_ok (Trace := Trace) d v0 c -> loadable (fuzz_execution a d v0 seed) (length_limit c) c.
Proof.
  intros Hc. split; [|split; [apply Hc|unfold length_limit; cbn; lia]]. apply Forall_forall. intros en Hen. split.
  - pose proof (loaded_handled d v0 c Hc) as Hh. rewrite Forall_forall in Hh. by apply Hh.
  - pose proof (max_entry_within c en Hen). unfold length_limit, Sequence.len in *. lia.
Qed.

(** The best of the workers, on the deployed chain. *)
Definition best_real (v0 : Value) (b : @Best.Best Chain) : Prop :=
  b = Best.new Sequence.empty v0 \/
  exists ch, Best.chain b = Some ch /\ handled d (Sequence.calls (Best.sequence b)) /\
    achieved (Trace := Trace) d v0 (Sequence.calls (Best.sequence b)) (Some (Best.value b)) ch.

Lemma searched_best v0 c cov seed start b c' : loaded_ok (Trace := Trace) d v0 c ->
  MaxFuzzer.run (Trace := Trace) (R := R) (fuzz_execution a d v0 seed) (fuzz_deadline a start) start c cov (Ok b) c' ->
  best_real v0 b /\ (forall en, en ∈ c -> Value.get (MaxCorpus.value en) <= Value.get (Best.value b)) /\
  (length c' <= MAX_ENTRIES)%nat /\ Forall (entry_handled d) c'.
Proof.
  intros Hc Hrun. destruct (campaign_best _ _ _ _ _ _ _ _ (loaded_loadable v0 c seed Hc) Hrun) as (Hb & Hge & Hlen & Hok).
  split; [|split; [|split; [done|]]].
  - destruct Hb as [->|(ch & act & Hch & [Hf _] & Hm)]; [by left|right]. exists ch. split; [done|]. split; [exact Hf|]. by eapply measures_achieved.
  - intros en Hen. destruct (loaded_entry d v0 c Hc en Hen) as (ch & Hch & _).
    pose proof (seed_best_ge (fuzz_execution a d v0 seed) c en Hen (mk_is_Some _ _ Hch)). lia.
  - eapply Forall_impl; [exact Hok|]. by intros en [[Hf _] _].
Qed.

Lemma reaches_replays b s seed e : resolve (max_shrinker a d b seed) = Ok e -> reaches_target (Trace := Trace) e s ->
  replays_to (Trace := Trace) d s (Best.value b).
Proof.
  intros [= <-] (v & Hv & Hge). unfold replay_value in Hv. cbn in Hv, Hge.
  destruct (exec (Sequence.transactions _ _ _) _) as [[o|m|m] ch] eqn:Hx; [|done..].
  destruct (exec [_] ch) as [[out|m|m] ch'] eqn:Hx'; [|done..].
  apply Res_bind_Ok in Hv as (r & Hh%context_Ok & Hv). destruct (success r); [|done].
  apply Res_bind_Ok in Hv as (w & Hd & [= ->]). exists o, ch, v, ch'. split; [exact Hx|]. split; [|done]. by exists out, r.
Qed.

Lemma keep_shrunk_ok b s c c' : keep_shrunk (Trace := Trace) d b s c = Ok c' -> (length c <= MAX_ENTRIES)%nat ->
  handled d (Sequence.calls s) -> Forall (entry_handled d) c -> (length c' <= MAX_ENTRIES)%nat /\ Forall (entry_handled d) c'.
Proof.
  unfold keep_shrunk. destruct (exec _ _) as [[o|m|m] ch]; [|done..]. unfold MaxCorpus.add. intros Ha Hl Hs Hc. split.
  - by eapply add_length_le.
  - by eapply add_handled.
Qed.

Lemma best_handled v0 b : best_real v0 b -> handled d (Sequence.calls (Best.sequence b)).
Proof. intros [->|(ch & _ & Hh & _)]; [constructor|done]. Qed.

(** C2: What the max command returns is real, from end to end: the best is the
    value measured after setup with no calls, or the value last read after a
    sequence of handler calls made on the deployed chain, and is at least that
    of every entry the replay kept; the shrunk sequence is a sublist of its
    calls that is unchanged or reaches the value on a clean replay; and the
    corpus that is saved has at most 256 entries of handler calls - whatever
    the corpus on disk, the seed, and the interleaving of the workers. *)
Theorem max_best_real (files : string -> FileRead) (seed start : Z) (out : MaxOutcome Chain) :
  max_campaign (Trace := Trace) (R := R) a d files seed start (Ok out) ->
  exists v0 c cov, measure_initial d = Ok v0 /\ load_corpus a d files = Ok (c, cov) /\
    best_real v0 (mo_best out) /\
    (forall en, en ∈ c -> Value.get (MaxCorpus.value en) <= Value.get (Best.value (mo_best out))) /\
    match mo_shrunk out with
    | None => Sequence.calls (Best.sequence (mo_best out)) = []
    | Some s => Sequence.calls s `sublist_of` Sequence.calls (Best.sequence (mo_best out)) /\
        (s = Best.sequence (mo_best out) \/ replays_to d s (Best.value (mo_best out)))
    end /\
    (length (mo_corpus out) <= MAX_ENTRIES)%nat /\ Forall (entry_handled d) (mo_corpus out).
Proof.
  inversion 1 as [| | | |v0 c cov r Hv Hl Hs]; subst. exists v0, c, cov. split; [exact Hv|]. split; [exact Hl|].
  pose proof (max_load_corpus_ok a d files v0 c cov Hl) as Hc.
  inversion Hs as [| |b c' Hrun He|b c' r Hrun He Hsh Hq]; subst.
  - destruct (searched_best v0 c cov seed start b c' Hc Hrun) as (Hb & Hge & Hlen & Hh).
    split; [exact Hb|]. split; [exact Hge|]. split; [|by split]. cbn. unfold Sequence.is_empty in He.
    apply bool_decide_eq_true in He. by apply nil_length_inv.
  - destruct (searched_best v0 c cov seed start b c' Hc Hrun) as (Hb & Hge & Hlen & Hh).
    apply Res_bind_Ok in Hq as (s & -> & Hq). apply Res_bind_Ok in Hq as (c'' & Hk & [= <-]). cbn.
    apply shrink_result in Hsh as (Hsub & _ & Hor). split; [exact Hb|]. split; [exact Hge|]. split.
    + split; [done|]. destruct Hor as [->|(e & He' & Hr)]; [by left|right]. by eapply reaches_replays.
    + eapply keep_shrunk_ok; [exact Hk|done| |done]. eapply Forall_sublist_of; [exact Hsub|by eapply best_handled].
Qed.
End Properties.

(** ** Witness: a harness whose value is the number of calls made so far *)
Module ToyMaxCommand.
Import Toy.

#[export] Instance counting_abi : Abi := {
  signature f := fn_name f +:+ "()";
  selector _ := [1; 2; 3; 4];
  resolve _ := Ok (TUint 256);
  abi_encode_params _ := [];
  abi_decode_input _ _ := Ok [];
  abi_decode _ out := Ok (VUint (default 0 (head out)) 256);
}.
#[export] Instance no_report : BrokenInvariantError := { SELECTOR := [9; 9; 9; 9]; bie_decode _ := None }.

(** The deployer 6 makes the calls; the value is read by another account. *)
Definition count_calls (history : list Transaction) (_ : Transaction) : TransactionResult :=
  mkResult true 1 (Some [Z.of_nat (length (List.filter (fun tx => caller tx =? 6) history))]) [] None 0 rpc_default.
#[export] Instance counting_chain : ChainOps (list Transaction) unit := ScriptedChain.ops count_calls.

Definition rise : Function := mkFunction "rise" [] [] NonPayable.
Definition one_rise : Sequence := Sequence.new [Call.new rise (VTuple [])].

Definition args : MaxArgs := mkMaxArgs "/p" (mkHarnessId "src/Rise.sol" "Rise") 1 3 2 2 None None ".ripfuzz/corpus".
Definition deployed : MaxDeployed (list Transaction) :=
  mkMaxDeployed [] 5 6 (mkFunction "value" [] [] View) [rise] Coverage.shared_new.

(** One saved sequence, at the path of the harness. *)
Definition disk (p : string) : FileRead :=
  if decide (p = "/p/.ripfuzz/corpus/Rise.sol/Rise/corpus.json") then Document (save (Chain := Z) [mkEntry one_rise (Value.new 9) 3 0 None])
  else NotFound.

Definition start_corpus : Res (Corpus (list Transaction) * SharedCoverage) := load_corpus args deployed disk.
Definition fuzzed (c : Corpus (list Transaction)) (cov : SharedCoverage) : System (S := Shared (list Transaction)) (A := unit) :=
  drive 400 (campaign (Trace := unit) (R := Z) (fuzz_execution args deployed (Value.new 0) 1)
    (shared_new (seed_best (fuzz_execution args deployed (Value.new 0) 1) c) (fuzz_deadline args 0) 0 c cov) [3]).
Definition start : Corpus (list Transaction) * SharedCoverage := default ([], Coverage.shared_new) (ok start_corpus).
Definition final : System (S := Shared (list Transaction)) (A := unit) := fuzzed start.1 start.2.
Definition top : @Best.Best (list Transaction) := best (shared final).

(** The one worker of the shrinker tries one deletion, which reads too little. *)
Definition shrink_execution : MaxShrinker.Execution (Chain := list Transaction) :=
  MaxShrinker.mkExecution [] 5 6 [1; 2; 3; 4] (Best.value top) 1 1 2 None.
Definition shrunk_final : ShrinkEngine.System (Item := Sequence) (R := Z) :=
  default (shrink_start shrink_execution (Best.sequence top))
    (schedule Sequence.len MaxShrinker.stop pick (validate shrink_execution) (MaxShrinker.ex_max_runs shrink_execution)
      (repeat (0%nat, false) 11) (shrink_start shrink_execution (Best.sequence top))).
End ToyMaxCommand.
Import Toy ToyMaxCommand.

Lemma final_reached : rtc (step tick) (campaign (Trace := unit) (R := Z) (fuzz_execution args deployed (Value.new 0) 1)
    (shared_new (seed_best (fuzz_execution args deployed (Value.new 0) 1) start.1) (fuzz_deadline args 0) 0 start.1 start.2) [3]) final.
Proof. unfold final, fuzzed. apply drive_reaches. Qed.

Lemma final_best : collect final = Ok top.
Proof. vm_compute. reflexivity. Qed.

Lemma final_finished : Threads.finished final.
Proof. apply all_ended_finished. vm_compute. reflexivity. Qed.

Lemma final_small : (length (corpus (shared final)) <= 3)%nat.
Proof. vm_compute. lia. Qed.

Lemma target_not_met : target_met (fuzz_execution args deployed (Value.new 0) 1) (seed_best (fuzz_execution args deployed (Value.new 0) 1) start.1) = false.
Proof. vm_compute. reflexivity. Qed.

Lemma one_budget : split_runs (ex_max_runs (fuzz_execution args deployed (Value.new 0) 1)) (MaxFuzzer.ex_threads (fuzz_execution args deployed (Value.new 0) 1)) = Ok [3].
Proof. vm_compute. reflexivity. Qed.

Lemma rise_run : MaxFuzzer.run (Trace := unit) (R := Z) (fuzz_execution args deployed (Value.new 0) 1)
  (fuzz_deadline args 0) 0 start.1 start.2 (collect final) (corpus (shared final)).
Proof. apply (run_campaign _ _ _ _ _ [3]); [exact target_not_met|discriminate|exact one_budget|exact final_reached|exact final_finished]. Qed.

Lemma max_final_search : exists c', MaxFuzzer.run (Trace := unit) (R := Z) (fuzz_execution args deployed (Value.new 0) 1)
  (fuzz_deadline args 0) 0 start.1 start.2 (Ok top) c' /\ (length c' <= 3)%nat.
Proof. exists (corpus (shared final)). split; [|exact final_small]. rewrite <- final_best. exact rise_run. Qed.

Lemma shrunk_some : schedule Sequence.len MaxShrinker.stop pick (validate shrink_execution) (MaxShrinker.ex_max_runs shrink_execution)
    (repeat (0%nat, false) 11) (shrink_start shrink_execution (Best.sequence top)) = Some shrunk_final.
Proof. vm_compute. reflexivity. Qed.

Lemma shrunk_reached : shrink_run shrink_execution 11 (shrink_start shrink_execution (Best.sequence top)) shrunk_final.
Proof. exact (schedule_run _ _ _ _ _ _ _ _ _ _ (run_nil _ _ _ _ _ _) shrunk_some). Qed.

Lemma shrunk_same : ShrinkEngine.current (ShrinkEngine.shared shrunk_final) = Best.sequence top.
Proof. vm_compute. reflexivity. Qed.

Lemma shrunk_done : Forall (fun w => ShrinkEngine.pc w = ShrinkEngine.Finished (Ok ())) (ShrinkEngine.workers shrunk_final).
Proof.
  assert (E : map ShrinkEngine.pc (ShrinkEngine.workers shrunk_final) = [ShrinkEngine.Finished (Ok ())]) by (vm_compute; reflexivity).
  destruct (ShrinkEngine.workers shrunk_final) as [|w [|w' ws]]; [discriminate E| |discriminate E]. injection E as E. by constructor.
Qed.

Lemma top_shrink : shrink (R := Z) (max_shrinker args deployed top 1) (Best.sequence top) (Ok (Best.sequence top)).
Proof.
  assert (Hl : (1 < Sequence.len (Best.sequence top))%nat) by (vm_compute; lia).
  assert (Hr : resolve (max_shrinker args deployed top 1) = Ok shrink_execution) by reflexivity.
  pose proof (shrink_done _ _ shrink_execution 11 shrunk_final Hl Hr shrunk_reached shrunk_done) as Hs.
  by rewrite shrunk_same in Hs.
Qed.

Lemma max_best_real_witness : exists out, max_campaign (Trace := unit) (R := Z) args deployed disk 1 0 (Ok out) /\
  Best.value (mo_best out) = Value.new 2 /\ best_real (Trace := unit) deployed (Value.new 0) (mo_best out) /\
  forall en, en ∈ start.1 -> Value.get (MaxCorpus.value en) <= 2.
Proof.
  destruct max_final_search as (c' & Hrun & Hlen).
  assert (Hk : exists c'', keep_shrunk (Trace := unit) deployed top (Best.sequence top) c' = Ok c'').
  { unfold keep_shrunk. destruct (exec _ _) as [[o|m|m] ch] eqn:E; [|vm_compute in E; discriminate E..].
    unfold MaxCorpus.add, add_with_chain. rewrite bool_decide_true by (unfold MAX_ENTRIES; lia). by eexists. }
  destruct Hk as (c'' & Hk).
  assert (Hs : max_campaign (Trace := unit) (R := Z) args deployed disk 1 0 (Ok (mkOutcome top (Some (Best.sequence top)) c''))).
  { assert (Hl : load_corpus (Trace := unit) args deployed disk = Ok (start.1, start.2)) by (vm_compute; reflexivity).
    eapply (searched _ _ _ _ _ (Value.new 0) start.1 start.2); [vm_compute; reflexivity|exact Hl|].
    pose proof (best_shrunk args deployed (Value.new 0) start.1 start.2 1 0 top c' _ Hrun ltac:(vm_compute; reflexivity) top_shrink) as Hb.
    cbn [mbind Res_bind] in Hb. rewrite Hk in Hb. exact Hb. }
  eexists. split; [exact Hs|]. split; [vm_compute; reflexivity|].
  destruct (max_best_real args deployed disk 1 0 _ Hs) as (v0 & c & cov & Hv & Hl & Hb & Hge & _).
  assert (v0 = Value.new 0) as -> by (vm_compute in Hv; by injection Hv).
  split; [exact Hb|]. intros en Hen.
  assert (Hc : c = start.1) by (vm_compute in Hl; injection Hl as <- _; vm_compute; reflexivity).
  rewrite Hc in Hge. exact (Hge en Hen).
Defined.

(** In a full corpus whose weakest entry is as strong, the shrunk sequence is
    not kept, although it is to be the start of the next campaign. *)
Definition old_best : Entry (list Transaction) := mkEntry (Sequence.new [Call.new rise (VTuple []); Call.new rise (VTuple [])]) (Value.new 2) 0 16 (Some []).
Definition full_corpus : Corpus (list Transaction) := old_best :: repeat (mkEntry one_rise (Value.new 1) 5 0 (Some [])) 255.
Example minimal_sequence_dropped :
  let b := Best.with_chain (MaxCorpus.sequence old_best) (Value.new 2) [] in
  keep_shrunk (Trace := unit) deployed b one_rise full_corpus = Ok full_corpus.
Proof. vm_compute. reflexivity. Qed.
