(* ===== verification/SolcOutput.v ===== *)
(** * SolcOutput: what the compiler returned

    Models the output type of [compilers/solc/mod.rs] with its accessors, and
    the part of the compiler's standard JSON output and of alloy's JSON ABI
    that the program reads. A [HashMap] is the list of its entries in the
    order of its iteration, which is not specified; paths are keys by their
    components. The items of an ABI are data of the compiler's crate, decoded
    by the ABI crate. *)
From stdpp Require Import sorting.
From S2P Require Import Prelude.
From S2P Require Import Env.
From S2P Require Import Paths.
From S2P Require Import Compare.
From S2P Require Import HarnessId.

(** ** Paths as keys

    Two [PathBuf]s are equal when their components are: a root and a leading
    dot are components, other dots and empty pieces are not. *)
Definition path_key (p : string) : list string :=
  if is_absolute p then "/" :: components p
  else match split_on "/" p with "." :: _ => "." :: components p | _ => components p end.

(** ** The ABI of a contract

    [functions] is alloy's map from a name to its overloads, in its order. *)
Record Constructor : Type := mkConstructor { ctor_inputs : list Param; ctor_mutability : StateMutability }.

Record JsonAbi : Type := mkJsonAbi {
  constructor : option Constructor;
  function_map : list (string * list Function);
}.

(** [JsonAbi::functions], [JsonAbi::function] *)
Definition functions (a : JsonAbi) : list Function := concat (snd <$> function_map a).
Definition function (a : JsonAbi) (n : string) : option (list Function) :=
  snd <$> find (fun kv => String.eqb kv.1 n) (function_map a).

(** [serde_json::to_value] on the compiler's items, and [from_value] into the
    ABI. *)
Class AbiJson : Type := {
  AbiItems : Type;
  json : Type;
  to_value : AbiItems -> Res json;
  from_value : json -> Res JsonAbi;
}.

(** A [BTreeMap]: strictly sorted names, each with the functions of that name. *)
Record abi_wf (a : JsonAbi) : Prop := {
  names_sorted : StronglySorted (fun x y => String.compare x y = Lt) (function_map a).*1;
  names_agree : Forall (fun kv => kv.2 <> [] /\ Forall (fun f => fn_name f = kv.1) kv.2) (function_map a);
}.

Class AbiJsonLaws `{AbiJson} : Prop := { from_value_wf : forall j a, from_value j = Ok a -> abi_wf a }.

(** ** The output *)

(** A position of bytes in a code: their first index and their number. *)
Record Position : Type := mkPosition { start : nat; size : nat }.
Definition LinkReferences : Type := list (string * list (string * list Position)).

Record Bytecode : Type := mkBytecode {
  object : option string;
  source_map : option string;
  link_references : option LinkReferences;
  immutable_references : option (list (string * list Position));
}.
Record Evm : Type := mkEvm { bytecode : option Bytecode; deployed_bytecode : option Bytecode }.

Inductive Severity : Type := SevError | SevWarning | SevInfo.
#[export] Instance Severity_eq_dec : EqDecision Severity.
Proof. solve_decision. Defined.

Record SolcError : Type := mkSolcError {
  severity : Severity;
  err_message : string;
  formatted_message : option string;
}.

Section Output.
Context `{AbiJson}.

Record ContractOutput : Type := mkContractOutput {
  abi_items : option AbiItems;
  evm : option Evm;
}.

Definition Contracts : Type := list (string * list (string * ContractOutput)).

(** [HashMap::get] for a path and for a name. *)
Definition get_path {A} (p : string) (m : list (string * A)) : option A :=
  snd <$> find (fun kv => bool_decide (path_key kv.1 = path_key p)) m.
Definition get_name {A} (n : string) (m : list (string * A)) : option A :=
  snd <$> find (fun kv => String.eqb kv.1 n) m.

Record SolcOutput : Type := mkSolcOutput {
  out_id : HarnessId;
  contracts : Contracts;
  out_errors : option (list SolcError);
}.

(** [contract.evm.as_ref().and_then(|evm| evm.bytecode.as_ref())] *)
Definition bytecode_of (c : ContractOutput) : option Bytecode := e ← evm c; bytecode e.

Definition sorted_names (m : list (string * ContractOutput)) : list string := sort_by String.compare m.*1.

(** The lookup of the target contract; [what] is the word of the message. *)
Definition find_contract (what : string) (o : SolcOutput) : Res ContractOutput :=
  let id := out_id o in
  cs ← context (get_path (path id) (contracts o))
         (what +:+ " source `" +:+ path id +:+ "` not found in compilation output");
  context (get_name (name id) cs)
    ("contract `" +:+ name id +:+ "` not found in `" +:+ path id +:+ "`, available contracts: "
     +:+ String.concat ", " (sorted_names cs)).

Definition contract (o : SolcOutput) : Res ContractOutput := find_contract "harness" o.

(** A contract with bytecode; [m] and [e] are the messages of a missing and of
    an empty one. *)
Definition find_initcode (m e : string) (c : ContractOutput) : Res string :=
  code ← context (b ← bytecode_of c; object b) m;
  _ ← ensure (negb (String.eqb code "")) e;
  mret code.

Definition initcode (o : SolcOutput) : Res string :=
  c ← contract o;
  find_initcode "harness initcode missing from compilation output"
    ("harness contract `" +:+ display (out_id o) +:+ "` has empty initcode") c.

Definition warnings (o : SolcOutput) : list string :=
  match out_errors o with
  | None => []
  | Some es =>
      map (fun e => default (err_message e) (formatted_message e))
        (filter (fun e => severity e = SevWarning) es)
  end.

Lemma find_contract_Ok what o c :
  find_contract what o = Ok c <->
  exists cs, get_path (path (out_id o)) (contracts o) = Some cs /\ get_name (name (out_id o)) cs = Some c.
Proof.
  unfold find_contract. destruct (get_path _ (contracts o)) as [cs|]; simpl; [|naive_solver].
  destruct (get_name _ cs) eqn:E; simpl; naive_solver.
Qed.

Lemma find_contract_what what o c : find_contract what o = Ok c -> contract o = Ok c.
Proof. by rewrite find_contract_Ok, <- (find_contract_Ok "harness"). Qed.

Lemma find_initcode_Ok m e c code :
  find_initcode m e c = Ok code <-> exists b, bytecode_of c = Some b /\ object b = Some code /\ code <> "".
Proof.
  unfold find_initcode. destruct (bytecode_of c) as [b|]; simpl; [|naive_solver].
  destruct (object b) as [x|] eqn:Eo; simpl; [|naive_solver].
  destruct (String.eqb_spec x "") as [E|E]; simpl; split.
  - done.
  - intros (b' & [= <-] & Hx & Hne). congruence.
  - intros [= <-]. eauto.
  - intros (b' & [= <-] & Hx & _). rewrite Eo in Hx. by injection Hx as <-.
Qed.
End Output.
Arguments Contracts : clear implicits.
Arguments Contracts {_}.

(** ** The functions of an ABI *)
Section Abi_lemmas.
Context (a : JsonAbi) (Hwf : abi_wf a).

Lemma functions_elem f : f ∈ functions a <-> exists n fs, (n, fs) ∈ function_map a /\ f ∈ fs.
Proof.
  unfold functions. rewrite list_elem_of_In, in_concat. split.
  - intros (fs & Hfs & Hf). apply list_elem_of_In in Hfs, Hf.
    apply list_elem_of_fmap in Hfs as ([n fs'] & -> & Hin). eauto.
  - intros (n & fs & Hin & Hf). exists fs. split; apply list_elem_of_In; [|done].
    apply list_elem_of_fmap. by exists (n, fs).
Qed.

Lemma function_entry n fs : function a n = Some fs -> (n, fs) ∈ function_map a.
Proof.
  unfold function. destruct (find _ _) as [[m gs]|] eqn:E; [|done]. intros [= <-].
  apply find_some in E as [Hin Hn%String.eqb_eq]. simpl in Hn. subst. by apply list_elem_of_In.
Qed.

Lemma entry_function n fs : (n, fs) ∈ function_map a -> function a n = Some fs.
Proof.
  pose proof (names_sorted _ Hwf) as Hs. unfold function. clear Hwf. revert Hs.
  induction (function_map a) as [|[m gs] l IH]; intros Hs Hin; [by apply not_elem_of_nil in Hin|].
  simpl in Hs. apply StronglySorted_inv in Hs as [Hs Hm]. simpl.
  apply elem_of_cons in Hin as [[= -> ->]|Hin]; [by rewrite String.eqb_refl|].
  rewrite Forall_forall in Hm. specialize (Hm n). rewrite list_elem_of_fmap in Hm.
  destruct (String.eqb_spec m n) as [->|_]; [|by apply IH].
  assert (String.compare n n = Lt) by (apply Hm; by exists (n, fs)).
  pose proof (lawful_refl _ n lawful_string). congruence.
Qed.

(** The overloads of a name are the functions of that name. *)
Lemma function_elem n f : (exists fs, function a n = Some fs /\ f ∈ fs) <-> f ∈ functions a /\ fn_name f = n.
Proof.
  pose proof (names_agree _ Hwf) as Hag. rewrite Forall_forall in Hag. split.
  - intros (fs & Hfs & Hf). apply function_entry in Hfs. split; [apply functions_elem; eauto|].
    destruct (Hag _ Hfs) as [_ Hn]. rewrite Forall_forall in Hn. by apply Hn.
  - intros [Hf <-]. apply functions_elem in Hf as (n & fs & Hin & Hf).
    destruct (Hag _ Hin) as [_ Hn]. rewrite Forall_forall in Hn.
    rewrite (Hn f Hf). exists fs. split; [by apply entry_function|done].
Qed.

Lemma function_nonempty n fs : function a n = Some fs -> fs <> [].
Proof.
  intros Hin%function_entry. pose proof (names_agree _ Hwf) as Hag. rewrite Forall_forall in Hag.
  by destruct (Hag _ Hin).
Qed.
End Abi_lemmas.
