(* ===== verification/Linker.v ===== *)
(** * Linker: the libraries of a compiled contract

    Models the resolving half of [evm/chain/linker.rs], and proves what
    resolving, deploying and linking give together: every placeholder of the
    bytecode is replaced. The recursion of [resolve_library] is bounded by the
    stack; a bound that is exhausted is a stack overflow. *)
From S2P Require Import Prelude.
From S2P Require Import Env.
From S2P Require Import Paths.
From S2P Require Import Transaction.
From S2P Require Import Chain.
From S2P Require Import HarnessId.
From S2P Require Import SolcOutput.

Definition STACK_OVERFLOW : string := "stack overflow".

(** The libraries a bytecode refers to, file and name, in the order of the
    maps. *)
Definition pairs_of (refs : LinkReferences) : list (string * string) :=
  refs ≫= fun '(file, names) => (fun n => (file, n)) <$> names.*1.
Definition references (b : Bytecode) : list (string * string) :=
  match link_references b with Some refs => pairs_of refs | None => [] end.

Definition identifier (k : string * string) : string := k.1 +:+ ":" +:+ k.2.

Section Resolve.
Context `{AbiJson}.

(** The contract of a library; both lookups have their message. *)
Definition find_library (cs : Contracts) (file name : string) : Res ContractOutput :=
  names ← context (get_path file cs) ("library source `" +:+ file +:+ "` not found in compilation output");
  context (get_name name names)
    ("library `" +:+ identifier (file, name) +:+ "` not found in compilation output").

Fixpoint resolve_library (stack : nat) (cs : Contracts) (k : string * string) : Res DeployLibraryInput :=
  match stack with
  | O => Panic STACK_OVERFLOW
  | S stack' =>
      let i := identifier k in
      let missing := "library `" +:+ i +:+ "` initcode missing from compilation output" in
      c ← find_library cs k.1 k.2;
      b ← context (bytecode_of c) missing;
      code ← context (object b) missing;
      _ ← ensure (negb (String.eqb code "")) ("library `" +:+ i +:+ "` has empty initcode");
      nested ← mapRes (resolve_library stack' cs) (references b);
      mret (foldl library_add (library_new i code) nested)
  end.

Definition resolve_libraries (stack : nat) (o : SolcOutput) : Res (list DeployLibraryInput) :=
  c ← contract o;
  match (b ← bytecode_of c; link_references b) with
  | None => Ok []
  | Some refs => mapRes (resolve_library stack (contracts o)) (pairs_of refs)
  end.

(** ** What the compilation says: a library, its code and its references *)
Definition library_of (cs : Contracts) (k : string * string) : option (string * list (string * string)) :=
  names ← get_path k.1 cs;
  c ← get_name k.2 names;
  b ← bytecode_of c;
  code ← object b;
  if String.eqb code "" then None else Some (code, references b).

Definition refers (cs : Contracts) (k k' : string * string) : Prop :=
  exists code refs, library_of cs k = Some (code, refs) /\ k' ∈ refs.

(** The references of the target. *)
Definition target_refs (o : SolcOutput) : list (string * string) :=
  match contract o with
  | Ok c => match bytecode_of c with Some b => references b | None => [] end
  | _ => []
  end.

Lemma fold_library_add i code ls :
  foldl library_add (library_new i code) ls = mkLibrary i code ls.
Proof.
  unfold library_new. assert (Hg : forall acc, foldl library_add (mkLibrary i code acc) ls = mkLibrary i code (acc ++ ls)).
  { induction ls as [|l ls IH]; intros acc; simpl; [by rewrite app_nil_r|].
    unfold library_add at 2. simpl. by rewrite IH, <- app_assoc. }
  apply Hg.
Qed.

(** One step of the recursion, on a library that the compilation has. *)
Lemma resolve_library_S n cs k :
  resolve_library (S n) cs k =
    match library_of cs k with
    | Some (code, refs) => mkLibrary (identifier k) code <$> mapRes (resolve_library n cs) refs
    | None => resolve_library 1 cs k
    end.
Proof.
  cbn [resolve_library]. unfold find_library, library_of.
  destruct (get_path k.1 cs) as [names|]; [|done]. simpl.
  destruct (get_name k.2 names) as [c|]; [|done]. simpl.
  destruct (bytecode_of c) as [b|]; [|done]. simpl.
  destruct (object b) as [code|]; [|done]. simpl.
  destruct (String.eqb code ""); simpl; [done|].
  destruct (mapRes _ (references b)); simpl; [|done..]. f_equal. apply fold_library_add.
Qed.

Lemma resolve_library_missing cs k n : library_of cs k = None -> exists e, resolve_library (S n) cs k = Err e.
Proof.
  intros Hl. rewrite resolve_library_S, Hl. cbn [resolve_library]. revert Hl. unfold find_library, library_of.
  destruct (get_path k.1 cs) as [names|]; [|eexists; reflexivity]. simpl.
  destruct (get_name k.2 names) as [c|]; [|eexists; reflexivity]. simpl.
  destruct (bytecode_of c) as [b|]; [|eexists; reflexivity]. simpl.
  destruct (object b) as [code|]; [|eexists; reflexivity]. simpl.
  destruct (String.eqb code ""); simpl; [eexists; reflexivity|done].
Qed.

Lemma resolve_libraries_eq n o c :
  contract o = Ok c -> resolve_libraries n o = mapRes (resolve_library n (contracts o)) (target_refs o).
Proof.
  intros Hc. unfold resolve_libraries, target_refs, references. rewrite Hc. simpl.
  destruct (bytecode_of c) as [b|]; [|done]. simpl. by destruct (link_references b).
Qed.
End Resolve.

(** ** What resolving gives *)
Section Resolved.
Context `{AbiJson}.
Implicit Types (cs : Contracts) (k : string * string).

(** The tree of a library: its own code, and the trees of its references. *)
Inductive resolved cs : string * string -> DeployLibraryInput -> Prop :=
| resolved_intro k code refs ls :
    library_of cs k = Some (code, refs) -> Forall2 (resolved cs) refs ls ->
    resolved cs k (mkLibrary (identifier k) code ls).

Lemma resolved_inv cs k j code ls :
  resolved cs k (mkLibrary j code ls) ->
  j = identifier k /\ exists refs, library_of cs k = Some (code, refs) /\ Forall2 (resolved cs) refs ls.
Proof. inversion 1; subst; eauto. Qed.

(** The libraries the target needs, directly or through others. *)
Definition needed (o : SolcOutput) k : Prop :=
  exists r, r ∈ target_refs o /\ rtc (refers (contracts o)) r k.

Lemma resolve_library_resolved n cs k l : resolve_library n cs k = Ok l -> resolved cs k l.
Proof.
  revert k l. induction n as [|n IH]; intros k l Hr; [done|].
  destruct (library_of cs k) as [[code refs]|] eqn:Hl.
  - rewrite resolve_library_S, Hl in Hr. destruct (mapRes _ refs) as [ls| |] eqn:Hm; [|done..].
    injection Hr as <-. apply mapRes_Ok in Hm. econstructor; [done|].
    eapply Forall2_impl; [exact Hm|]. auto.
  - destruct (resolve_library_missing cs k n Hl) as [e He]. congruence.
Qed.

Lemma libs_ids_elem i ls : i ∈ libs_ids ls <-> Exists (fun l => i ∈ lib_ids l) ls.
Proof.
  unfold libs_ids. induction ls as [|l ls IH]; simpl; [rewrite Exists_nil; set_solver|].
  rewrite Exists_cons, elem_of_union, IH. done.
Qed.

Lemma resolved_ids cs k l i :
  resolved cs k l -> i ∈ lib_ids l <-> exists k', rtc (refers cs) k k' /\ i = identifier k'.
Proof.
  revert k. induction l as [j code ls IH] using DeployLibraryInput_ind'. intros k Hr. apply resolved_inv in Hr as (-> & refs & Hl & Hf).
  cbn [lib_ids]. fold (libs_ids ls). rewrite elem_of_union, elem_of_singleton, libs_ids_elem, Exists_exists. split.
  - intros [->|(l & Hin & Hi)]; [exists k; split; [constructor|done]|].
    apply list_elem_of_lookup in Hin as [p Hp]. destruct (Forall2_lookup_r _ _ _ _ _ Hf Hp) as (r & Hr' & Hres).
    rewrite Forall_forall in IH.
    destruct (proj1 (IH l (list_elem_of_lookup_2 _ _ _ Hp) r Hres) Hi) as (k' & Hk & ->).
    exists k'. split; [|done]. eapply rtc_l; [|exact Hk]. exists code, refs. split; [done|by eapply list_elem_of_lookup_2].
  - intros (k' & Hk & ->). inversion Hk as [|? r ? (code' & refs' & Hl' & Hin) Hrest]; subst; [by left|right].
    rewrite Hl in Hl'. injection Hl' as <- <-. apply list_elem_of_lookup in Hin as [p Hp].
    destruct (Forall2_lookup_l _ _ _ _ _ Hf Hp) as (l & Hp' & Hres). exists l.
    split; [by eapply list_elem_of_lookup_2|]. rewrite Forall_forall in IH.
    apply (IH l (list_elem_of_lookup_2 _ _ _ Hp') r Hres). eauto.
Qed.

Lemma resolve_libraries_resolved n o ls :
  resolve_libraries n o = Ok ls -> Forall2 (resolved (contracts o)) (target_refs o) ls.
Proof.
  intros Hr. destruct (contract o) as [c| |] eqn:Hc; [|unfold resolve_libraries in Hr; by rewrite Hc in Hr..].
  rewrite (resolve_libraries_eq n o c Hc) in Hr. apply mapRes_Ok in Hr.
  eapply Forall2_impl; [exact Hr|]. intros k l. apply resolve_library_resolved.
Qed.

Lemma resolve_libraries_ids n o ls i :
  resolve_libraries n o = Ok ls -> i ∈ libs_ids ls <-> exists k, needed o k /\ i = identifier k.
Proof.
  intros Hr%resolve_libraries_resolved. rewrite libs_ids_elem, Exists_exists. split.
  - intros (l & Hin & Hi). apply list_elem_of_lookup in Hin as [p Hp].
    destruct (Forall2_lookup_r _ _ _ _ _ Hr Hp) as (r & Hr' & Hres).
    destruct (proj1 (resolved_ids _ _ _ _ Hres) Hi) as (k & Hk & ->). exists k. split; [|done].
    exists r. split; [by eapply list_elem_of_lookup_2|done].
  - intros (k & (r & Hin & Hk) & ->). apply list_elem_of_lookup in Hin as [p Hp].
    destruct (Forall2_lookup_l _ _ _ _ _ Hr Hp) as (l & Hp' & Hres). exists l.
    split; [by eapply list_elem_of_lookup_2|]. apply (resolved_ids _ _ _ _ Hres). eauto.
Qed.

(** ** Termination *)
Definition is_panic {A} (r : Res A) : bool := match r with Panic _ => true | _ => false end.

Lemma mapRes_stable {A B} (f g : A -> Res B) l :
  Forall (fun x => is_panic (f x) = false /\ g x = f x) l -> is_panic (mapRes f l) = false /\ mapRes g l = mapRes f l.
Proof.
  induction 1 as [|x l [Hp Hg] _ [IHp IHg]]; simpl; [done|]. rewrite Hg, IHg.
  destruct (f x); simpl in *; try done. split; [|done]. by destruct (mapRes f l).
Qed.

Lemma resolve_library_stable cs (rank : string * string -> nat) :
  (forall k k', refers cs k k' -> (rank k' < rank k)%nat) ->
  forall k n, (rank k < n)%nat ->
  is_panic (resolve_library (S (rank k)) cs k) = false /\
  resolve_library n cs k = resolve_library (S (rank k)) cs k.
Proof.
  intros Hrank k. induction k as [k IH] using (well_founded_induction (well_founded_ltof _ rank)).
  intros [|n] Hn; [lia|]. destruct (library_of cs k) as [[code refs]|] eqn:Hl.
  - rewrite (resolve_library_S n), (resolve_library_S (rank k)), Hl.
    assert (Hall : forall m, (rank k <= m)%nat -> Forall (fun r => is_panic (resolve_library (S (rank r)) cs r) = false /\
      resolve_library m cs r = resolve_library (S (rank r)) cs r) refs).
    { intros m Hm. apply Forall_forall. intros r Hin.
      assert (Hlt : (rank r < rank k)%nat) by (apply Hrank; exists code, refs; done). apply IH; [done|lia]. }
    destruct (mapRes_stable (fun r => resolve_library (S (rank r)) cs r) (resolve_library n cs) refs) as [Hp ->];
      [apply Hall; lia|].
    destruct (mapRes_stable (fun r => resolve_library (S (rank r)) cs r) (resolve_library (rank k) cs) refs) as [_ ->];
      [by apply Hall|].
    split; [|done]. by destruct (mapRes _ refs).
  - rewrite (resolve_library_S n), (resolve_library_S (rank k)), Hl. split; [|done].
    destruct (resolve_library_missing cs k 0 Hl) as [e He]. by rewrite He.
Qed.

(** Resolving the libraries of a target whose references have no cycle
    ends: with a rank that drops along every reference, a stack as deep as the
    ranks of the target's references gives the result of every deeper one, and
    does not overflow. *)
Theorem resolve_libraries_terminates o (rank : string * string -> nat) depth :
  (forall k k', refers (contracts o) k k' -> (rank k' < rank k)%nat) ->
  Forall (fun r => rank r < depth)%nat (target_refs o) ->
  exists r, is_panic r = false /\ forall n, (depth <= n)%nat -> resolve_libraries n o = r.
Proof.
  intros Hrank Hd. destruct (contract o) as [c|e|p] eqn:Hc.
  - exists (mapRes (fun r => resolve_library (S (rank r)) (contracts o) r) (target_refs o)).
    assert (Hall : forall n, (depth <= n)%nat ->
      is_panic (mapRes (fun r => resolve_library (S (rank r)) (contracts o) r) (target_refs o)) = false /\
      mapRes (resolve_library n (contracts o)) (target_refs o) =
        mapRes (fun r => resolve_library (S (rank r)) (contracts o) r) (target_refs o)).
    { intros n Hn. apply mapRes_stable. eapply Forall_impl; [exact Hd|]. intros r Hr.
      apply resolve_library_stable; [done|]. simpl in Hr. lia. }
    split; [by apply (Hall depth)|]. intros n Hn. rewrite (resolve_libraries_eq n o c Hc). by apply Hall.
  - exists (Err e). split; [done|]. intros n _. unfold resolve_libraries. by rewrite Hc.
  - exfalso. clear -Hc. unfold contract, find_contract in Hc. destruct (get_path _ (contracts o)) as [m|]; [|done].
    simpl in Hc. by destruct (get_name _ m).
Qed.

(** A library that refers to itself through others is never resolved. *)
Lemma cycle_never_resolves cs (cycle : string * string -> Prop) :
  (forall k, cycle k -> exists k', refers cs k k' /\ cycle k') ->
  forall n k, cycle k -> is_ok (resolve_library n cs k) = false.
Proof.
  intros Hc n k Hk. destruct (resolve_library n cs k) as [l| |] eqn:Hr; [exfalso|done..].
  apply resolve_library_resolved in Hr. revert k Hk Hr.
  induction l as [j code ls IH] using DeployLibraryInput_ind'. intros k Hk Hr.
  apply resolved_inv in Hr as (-> & refs & Hl & Hf). destruct (Hc k Hk) as (k' & (code' & refs' & Hl' & Hin) & Hk').
  rewrite Hl in Hl'. injection Hl' as <- <-. apply list_elem_of_lookup in Hin as [p Hp].
  destruct (Forall2_lookup_l _ _ _ _ _ Hf Hp) as (l & Hp' & Hres). rewrite Forall_forall in IH.
  by apply (IH l (list_elem_of_lookup_2 _ _ _ Hp') k').
Qed.
End Resolved.

(** ** Replacing text *)
Definition occurs (p s : string) : Prop := exists a b, s = a +:+ p +:+ b.

Lemma occurs_app_l p s t : occurs p s -> occurs p (s +:+ t).
Proof. intros (a & b & ->). exists a, (b +:+ t). by rewrite !str_app_assoc. Qed.

Lemma occurs_app_r p s t : occurs p t -> occurs p (s +:+ t).
Proof. intros (a & b & ->). exists (s +:+ a), b. by rewrite str_app_assoc. Qed.

(** Two ways to cut one text. *)
Lemma str_app_cut (a b c d : string) :
  a +:+ b = c +:+ d -> (exists m, c = a +:+ m /\ b = m +:+ d) \/ (exists m, a = c +:+ m /\ d = m +:+ b).
Proof.
  revert c. induction a as [|x a IH]; intros [|y c] Heq; simpl in Heq.
  - left. by exists "".
  - left. by exists (String y c).
  - right. by exists (String x a).
  - injection Heq as -> Heq. destruct (IH c Heq) as [(m & -> & ->)|(m & -> & ->)]; [left|right]; by exists m.
Qed.

Lemma prefix_app p s : String.prefix p s = true <-> exists t, s = p +:+ t.
Proof.
  revert s. induction p as [|x p IH]; intros s.
  - split; [by exists s|by destruct s].
  - destruct s as [|y s]; [split; [done|by intros [t [=]]]|]. cbn [String.prefix].
    destruct (ascii_dec x y) as [->|Hne].
    + rewrite IH. split; intros [t Ht]; exists t; [by rewrite Ht|by injection Ht].
    + split; [done|]. intros [t [=]]. congruence.
Qed.

(** A placeholder seen from an inserted text: it is no longer than the text,
    and its first and last characters are none of the text's. *)
Record apart (ins : ascii -> bool) (len : nat) (p : string) : Prop := {
  apart_nonempty : p <> "";
  apart_length : (String.length p <= len)%nat;
  apart_prefix : forall a b, p = a +:+ b -> a <> "" -> str_all ins a = false;
  apart_suffix : forall a b, p = a +:+ b -> b <> "" -> str_all ins b = false;
}.

(** An occurrence is on one side of an inserted text. *)
Lemma occurs_around ins p a h b :
  str_all ins h = true -> apart ins (String.length h) p -> occurs p (a +:+ h +:+ b) -> occurs p a \/ occurs p b.
Proof.
  intros Hh [Hne Hlen Hpre Hsuf] (x & y & Heq).
  assert (Hins : forall u v w, h = u +:+ v +:+ w -> str_all ins v = true).
  { intros u v w ->. rewrite !str_all_app in Hh. by apply andb_true_iff in Hh as [_ [Hh _]%andb_true_iff]. }
  assert (Hp : forall u w, h <> u +:+ p +:+ w).
  { intros u w E. pose proof (Hins _ _ _ E). by rewrite (Hpre p "") in * by (by rewrite ?str_app_nil). }
  destruct (str_app_cut _ _ _ _ Heq) as [(m & -> & Hm)|(m & -> & Hm)].
  - right. destruct (str_app_cut _ _ _ _ Hm) as [(m' & -> & Hm')|(m' & Eh & Hm')]; [by exists m', y|].
    destruct (str_app_cut _ _ _ _ Hm') as [(q & -> & Hq)|(q & Ep & Hq)]; [by apply Hp in Eh|].
    destruct m' as [|z m']; [exists "", y; by rewrite Ep|]. exfalso.
    pose proof (Hins m (String z m') "" ltac:(by rewrite str_app_nil)). by rewrite (Hpre (String z m') q) in *.
  - destruct (str_app_cut _ _ _ _ Hm) as [(m' & -> & Hm')|(m' & Ep & Hm')]; [by left; exists x, m'|].
    destruct (str_app_cut _ _ _ _ Hm') as [(q & -> & Hq)|(q & Eh & Hq)].
    + exfalso. subst p. rewrite !str_length_app in Hlen.
      assert (m = "") as -> by (destruct m; simpl in *; [done|lia]).
      assert (q = "") as -> by (destruct q; simpl in *; [done|lia]).
      apply (Hp "" ""). by rewrite ?str_app_nil.
    + destruct m' as [|z m']; [left; exists x, ""; by rewrite Ep, !str_app_nil|].
      exfalso. pose proof (Hins "" (String z m') q Eh). by rewrite (Hsuf m (String z m')) in *.
Qed.

Lemma replace_skip pat by_ t s : replace_from (String.length t) pat by_ (t +:+ s) = replace_from 0 pat by_ s.
Proof. by induction t. Qed.

(** Either nothing is replaced, or the leftmost occurrence is. *)
Lemma replace_cases pat by_ s :
  pat <> "" ->
  (~ occurs pat s /\ str_replace pat by_ s = s) \/
  (exists g t, s = g +:+ pat +:+ t /\ str_replace pat by_ s = g +:+ by_ +:+ str_replace pat by_ t /\ ~ occurs pat g).
Proof.
  intros Hne.
  assert (Hnil : ~ occurs pat "").
  { intros (a & b & E). by destruct a, pat. }
  induction s as [|x s IH]; [by left|]. unfold str_replace in *. cbn [replace_from].
  destruct (String.prefix pat (String x s)) eqn:Ep.
  - right. apply prefix_app in Ep as [t Ht]. exists "", t. split; [done|]. split; [|done].
    destruct pat as [|y pat]; [done|]. injection Ht as <- ->. cbn [String.length String.append].
    replace (S (String.length pat) - 1)%nat with (String.length pat) by lia. by rewrite replace_skip.
  - assert (Hstart : forall g t, s = g +:+ t -> ~ occurs pat g -> ~ occurs pat (String x g)).
    { intros g t -> Hg ([|y a] & b & E).
      - assert (Hp : String.prefix pat (String x (g +:+ t)) = true); [|congruence].
        apply prefix_app. exists (b +:+ t). transitivity (String x g +:+ t); [done|].
        rewrite E. exact (str_app_assoc pat b t).
      - injection E as -> ->. apply Hg. by exists a, b. }
    destruct IH as [[Hno ->]|(g & t & Hs & -> & Hg)].
    + left. split; [|done]. apply (Hstart s ""); [by rewrite str_app_nil|done].
    + right. exists (String x g), t. rewrite Hs. split; [done|]. split; [done|]. by eapply Hstart.
Qed.

Section Replace.
Context (ins : ascii -> bool) (h : string) (Hh : str_all ins h = true).

(** Inserting makes no new occurrence of a placeholder, and leaves none of the
    one replaced. *)
Lemma str_replace_occurs pat q s :
  apart ins (String.length h) pat -> apart ins (String.length h) q ->
  occurs q (str_replace pat h s) -> occurs q s /\ q <> pat.
Proof.
  intros Hpat Hq. induction s as [s IH] using (well_founded_induction (well_founded_ltof _ String.length)).
  destruct (replace_cases pat h s (apart_nonempty _ _ _ Hpat)) as [[Hno ->]|(g & t & -> & -> & Hg)].
  - intros Ho. split; [done|]. by intros ->.
  - intros Ho. destruct (occurs_around _ _ _ _ _ Hh Hq Ho) as [Ho'|Ho'].
    + split; [by apply occurs_app_l|by intros ->].
    + destruct (IH t) as [Hot Hne]; [|done|].
      * unfold ltof. rewrite !str_length_app. pose proof (apart_nonempty _ _ _ Hpat). destruct pat; simpl; [done|lia].
      * split; [by apply occurs_app_r, occurs_app_r|done].
Qed.

Lemma str_replace_length pat s :
  pat <> "" -> String.length pat = String.length h -> String.length (str_replace pat h s) = String.length s.
Proof.
  intros Hne Hl. induction s as [s IH] using (well_founded_induction (well_founded_ltof _ String.length)).
  destruct (replace_cases pat h s Hne) as [[_ ->]|(g & t & -> & -> & _)]; [done|].
  rewrite !str_length_app, IH, Hl; [done|]. unfold ltof. rewrite !str_length_app.
  destruct pat; simpl; [done|lia].
Qed.
End Replace.

(** ** Linking *)
Section Linking.
Context `{Keccak} `{TextLaws}.

Lemma substring_length_le n m s : (String.length (String.substring n m s) <= m)%nat.
Proof.
  revert n m. induction s as [|a s IH]; intros [|n] [|m]; simpl; try lia; [|apply IH|apply IH].
  specialize (IH 0%nat m). lia.
Qed.

Lemma placeholder_apart i : apart is_digit 40 (get_library_placeholder i).
Proof.
  unfold get_library_placeholder. set (mid := String.substring 0 34 _).
  assert (Hl : (String.length mid <= 34)%nat) by apply substring_length_le. clearbody mid. split.
  - done.
  - rewrite !str_length_app. simpl. lia.
  - intros [|x a] b E Ha; [done|]. by injection E as <- _.
  - intros a b E Hb.
    assert (E' : ("__$" +:+ mid +:+ "$_") +:+ "_" = a +:+ b) by (rewrite <- E; apply (str_app_assoc ("__$" +:+ mid) "$_" "_")).
    destruct (str_app_cut _ _ _ _ E') as [(m & _ & Hm)|(m & _ & Hm)].
    + destruct m as [|z m]; [by rewrite <- (Hm : "_" = b)|]. injection Hm as _ Hm. by destruct m, b.
    + rewrite Hm, str_all_app. apply andb_false_r.
Qed.

Lemma address_text addr : str_all is_digit (hex_encode (be_bytes 20 addr)) = true /\
  String.length (hex_encode (be_bytes 20 addr)) = 40%nat.
Proof.
  split; [apply Is_true_true, hex_encode_digits, be_bytes_ok|].
  by rewrite hex_encode_length, be_bytes_length.
Qed.

(** After linking no placeholder of a linked library is left, and no other one
    is new. *)
Lemma link_libraries_occurs code addrs i :
  occurs (get_library_placeholder i) (link_libraries code addrs) ->
  occurs (get_library_placeholder i) code /\ addrs !! i = None.
Proof.
  unfold link_libraries. intros Ho.
  assert (Hgo : forall kvs s, occurs (get_library_placeholder i)
      (foldl (fun hex '(j, addr) => str_replace (get_library_placeholder j) (hex_encode (be_bytes 20 addr)) hex) s kvs) ->
    occurs (get_library_placeholder i) s /\ i ∉ kvs.*1).
  { induction kvs as [|[j addr] kvs IH]; intros s Hs; simpl in *; [split; [done|set_solver]|].
    apply IH in Hs as [Hs Hin]. destruct (address_text addr) as [Hd Hl].
    destruct (str_replace_occurs is_digit (hex_encode (be_bytes 20 addr)) Hd (get_library_placeholder j)
      (get_library_placeholder i) s) as [Hs' Hne]; [rewrite Hl; apply placeholder_apart..|done|].
    split; [done|]. apply not_elem_of_cons. split; [by intros ->|done]. }
  apply Hgo in Ho as [Ho Hin]. split; [done|]. destruct (addrs !! i) as [addr|] eqn:E; [exfalso|done].
  apply Hin, list_elem_of_fmap. exists (i, addr). split; [done|]. by apply elem_of_map_to_list.
Qed.
End Linking.

(** ** Deploying what was resolved *)
Section Deploying.
Context `{AbiJson}.
Context {Database BlockEnv CfgEnv : Type} `{Revm Database BlockEnv CfgEnv}.
Context `{Keccak} `{TextLaws} `{BytesText}.
Context {CheatState CheatInspector Tracker TraceInspector Trace : Type}.
Context (cheat_from_state : CheatState -> CheatInspector) (cheat_state : CheatInspector -> CheatState).
Context (tracker_new : Tracker) (trace_new : TraceInspector) (into_trace : TraceInspector -> Trace).
Context (cheat_trait : RevmInspector CheatInspector) (tracker_trait : RevmInspector Tracker).
Context (trace_trait : RevmInspector TraceInspector) (coverage_trait : RevmInspector CoverageInspector.Inspector).

#[local] Abbreviation on f :=
  (f cheat_from_state cheat_state tracker_new trace_new into_trace cheat_trait tracker_trait trace_trait
     coverage_trait) (only parsing).

(** A library is deployed after the libraries it refers to. *)
Lemma deploy_library_linked cs k l dep a0 c0 out a1 c1 :
  resolved cs k l -> on deploy_library dep l (a0, c0) = (Ok out, (a1, c1)) ->
  exists code refs a c, library_of cs k = Some (code, refs) /\
    on deploy_resolved (identifier k) code dep (a, c) = (Ok out, (a1, c1)) /\
    forall k', refers cs k k' -> ~ occurs (get_library_placeholder (identifier k')) (link_libraries code a).
Proof.
  intros Hr Hd. destruct l as [j code ls]. apply resolved_inv in Hr as (-> & refs & Hl & Hf).
  cbn [deploy_library] in Hd. apply M_bind_Ok in Hd as (os & [a c] & Hos & Hres).
  exists code, refs, a, c. split; [done|]. split; [exact Hres|].
  intros k' (code' & refs' & Hl' & Hin) Ho. rewrite Hl in Hl'. injection Hl' as <- <-.
  apply deploy_list_Ok in Hos as [_ Hdom].
  2: { apply Forall_forall. intros l _ ????? Hx. by apply deploy_library_Ok in Hx as [? _]. }
  apply link_libraries_occurs in Ho as [_ Hnone]. apply not_elem_of_dom in Hnone. apply Hnone.
  rewrite Hdom. apply elem_of_union_r, libs_ids_elem, Exists_exists.
  apply list_elem_of_lookup in Hin as [p Hp]. destruct (Forall2_lookup_l _ _ _ _ _ Hf Hp) as (l & Hp' & Hres').
  exists l. split; [by eapply list_elem_of_lookup_2|]. apply (resolved_ids _ _ _ _ Hres').
  exists k'. split; [constructor|done].
Qed.

(** Deploying a contract with the libraries resolved for it deploys what
    the compilation says it needs, directly or through other libraries, and
    nothing else; the code that is run has no placeholder of any of them left;
    and every library in turn is linked after the libraries it refers to. *)
Theorem linked_deployment n o libs opts c out c' :
  resolve_libraries n o = Ok libs -> di_libraries opts = libs -> on deploy opts c = (Ok out, c') ->
  exists addrs c1 raw,
    on deploy_libraries libs (di_caller opts) c = (Ok addrs, c1) /\
    on deploy_raw (di_caller opts) (di_value opts) (parse_initcode (link_libraries (di_initcode opts) addrs))
      (di_gas_limit opts) c1 = (Ok raw, c') /\
    (forall i, (exists a, mkLibraryOutput i a ∈ do_libraries out) <-> exists k, needed o k /\ i = identifier k) /\
    (forall k, needed o k ->
       ~ occurs (get_library_placeholder (identifier k)) (link_libraries (di_initcode opts) addrs)) /\
    (forall k l a0 c0 d a1 c2, resolved (contracts o) k l ->
       on deploy_library (di_caller opts) l (a0, c0) = (Ok d, (a1, c2)) ->
       exists code refs a c, library_of (contracts o) k = Some (code, refs) /\
         on deploy_resolved (identifier k) code (di_caller opts) (a, c) = (Ok d, (a1, c2)) /\
         forall k', refers (contracts o) k k' ->
           ~ occurs (get_library_placeholder (identifier k')) (link_libraries code a)).
Proof.
  intros Hr Hl Hd. unfold deploy in Hd. rewrite Hl in Hd.
  apply M_bind_Ok in Hd as (addrs & c1 & Hlibs & Hd). apply M_bind_Ok in Hd as (raw & c2 & Hraw & Hout).
  injection Hout as <- <-. exists addrs, c1, raw. split; [exact Hlibs|].
  assert (Hlink : (if bool_decide (addrs = ∅) then di_initcode opts else link_libraries (di_initcode opts) addrs)
    = link_libraries (di_initcode opts) addrs).
  { case_bool_decide as He; [|done]. subst addrs. unfold link_libraries. by rewrite map_to_list_empty. }
  rewrite Hlink in Hraw. split; [exact Hraw|]. apply deploy_libraries_Ok in Hlibs.
  assert (Hids : forall i, is_Some (addrs !! i) <-> exists k, needed o k /\ i = identifier k).
  { intros i. rewrite <- elem_of_dom, Hlibs. by eapply resolve_libraries_ids. }
  split; [|split].
  - intros i. rewrite <- Hids. simpl. split.
    + intros [a Ha]. apply list_elem_of_fmap in Ha as ([i' a'] & [= -> ->] & Ha).
      apply elem_of_map_to_list in Ha. by eexists.
    + intros [a Ha]. exists a. apply list_elem_of_fmap. exists (i, a). split; [done|]. by apply elem_of_map_to_list.
  - intros k Hk Ho. apply link_libraries_occurs in Ho as [_ Hnone].
    destruct (proj2 (Hids (identifier k)) (ex_intro _ k (conj Hk eq_refl))) as [a Ha]. congruence.
  - intros k l a0 c0 d a1 c3 Hres Hdl. exact (deploy_library_linked _ _ _ _ _ _ _ _ _ Hres Hdl).
Qed.
End Deploying.

(** ** Witnesses: a target that uses a pool library, which uses a math one *)
Module ToyLinker.
Export ToyChain Toy.
#[export] Instance abi_json : AbiJson := {
  AbiItems := JsonAbi; json := JsonAbi; to_value a := Ok a; from_value a := Ok a }.

Definition library (code : string) (refs : LinkReferences) : ContractOutput :=
  mkContractOutput None (Some (mkEvm (Some (mkBytecode (Some code) None (Some refs) None)) None)).
Definition output : SolcOutput :=
  mkSolcOutput (mkHarnessId "src/V.sol" "V")
    [("src/V.sol", [("V", library "60" [("src/P.sol", [("Pool", [])])])]);
     ("src/P.sol", [("Pool", library "61" [("src/M.sol", [("Math", [])])])]);
     ("src/M.sol", [("Math", library "62" [])])] None.
Definition rank (k : string * string) : nat :=
  if String.eqb k.2 "V" then 3 else if String.eqb k.2 "Pool" then 2 else 1.

Definition toy_deploy : DeployInput ->
    M (Chain (Database := Z) (BlockEnv := unit) (CfgEnv := Z) (CheatState := unit)) (DeployOutput (Trace := unit)) :=
  deploy (fun _ => tt) (fun _ => tt) tt tt (fun _ => tt) tt tt tt tt (CheatInspector := unit)
    (Tracker := unit) (TraceInspector := unit).
Definition opts (libs : list DeployLibraryInput) : DeployInput := mkDeployInput DEFAULT_DEPLOYER 0 "60" libs u64_max.

(** Two libraries that call each other, which the compiler accepts. *)
Definition mutual : Contracts :=
  [("A.sol", [("A", library "60" [("B.sol", [("B", [])])])]);
   ("B.sol", [("B", library "61" [("A.sol", [("A", [])])])])].
End ToyLinker.
Import ToyLinker.

Example mutual_libraries_overflow n :
  resolve_library n mutual ("A.sol", "A") = Panic STACK_OVERFLOW /\
  resolve_library n mutual ("B.sol", "B") = Panic STACK_OVERFLOW.
Proof.
  induction n as [|n [IHA IHB]]; [done|].
  rewrite (resolve_library_S n mutual ("A.sol", "A")), (resolve_library_S n mutual ("B.sol", "B")).
  replace (library_of mutual ("A.sol", "A")) with (Some ("60", [("B.sol", "B")])) by (vm_compute; reflexivity).
  replace (library_of mutual ("B.sol", "B")) with (Some ("61", [("A.sol", "A")])) by (vm_compute; reflexivity).
  simpl. by rewrite IHA, IHB.
Qed.

Lemma resolve_libraries_terminates_witness :
  exists r, is_panic r = false /\ forall n, (3 <= n)%nat -> resolve_libraries n output = r.
Proof.
  apply (resolve_libraries_terminates output rank 3).
  - intros [f m] k' (code & refs & Hl & Hin).
    assert (Hall : Forall (fun kv => Forall (fun nc =>
      Forall (fun r => (rank r < rank ("", nc.1))%nat) (default [] (references <$> bytecode_of nc.2))) kv.2)
      (contracts output)) by (vm_compute; repeat constructor).
    unfold library_of, get_path, get_name in Hl. cbn [fst snd] in Hl.
    destruct (find _ (contracts output)) as [[p names]|] eqn:Ef; [|discriminate Hl]. simpl in Hl.
    destruct (find _ names) as [[m' c]|] eqn:Em; [|discriminate Hl]. simpl in Hl.
    apply find_some in Ef as [Hf _], Em as [Hm Em%String.eqb_eq]. simpl in Em. subst m'.
    rewrite List.Forall_forall in Hall. specialize (Hall _ Hf). rewrite List.Forall_forall in Hall. specialize (Hall _ Hm).
    cbn [fst snd] in Hall. destruct (bytecode_of c) as [b|]; [|discriminate Hl]. simpl in Hl.
    destruct (object b) as [x|]; [|discriminate Hl]. simpl in Hl.
    destruct (String.eqb x ""); [discriminate Hl|]. injection Hl as _ <-.
    rewrite Forall_forall in Hall. exact (Hall k' Hin).
  - vm_compute. repeat constructor.
Defined.

Lemma linked_deployment_witness :
  exists libs out c',
    resolve_libraries 3 output = Ok libs /\ toy_deploy (opts libs) toy_chain = (Ok out, c') /\
    exists a, mkLibraryOutput "src/M.sol:Math" a ∈ do_libraries out.
Proof.
  destruct (resolve_libraries 3 output) as [libs| |] eqn:Hr; [|vm_compute in Hr; discriminate Hr..].
  assert (Hok : match (resolve_libraries 3 output) with
    | Ok libs => is_ok (toy_deploy (opts libs) toy_chain).1 | _ => false end = true) by (vm_compute; reflexivity).
  rewrite Hr in Hok. destruct (toy_deploy (opts libs) toy_chain) as [[out| |] c'] eqn:Hd; [|discriminate Hok..].
  destruct (linked_deployment _ _ _ _ _ _ _ _ _ 3 output libs (opts libs) toy_chain out c' Hr eq_refl Hd)
    as (addrs & c1 & raw & Hlibs & Hraw & Hids & _).
  exists libs, out, c'. split; [reflexivity|]. split; [exact Hd|].
  apply Hids. exists ("src/M.sol", "Math"). split; [|reflexivity].
  exists ("src/P.sol", "Pool"). split; [vm_compute; left|].
  apply rtc_once. exists "61", [("src/M.sol", "Math")]. split; [vm_compute; reflexivity|left].
Defined.
