(* ===== verification/Harness.v ===== *)
(** * Harness: the rules of harnesses and scripts

    Models [tester/harness.rs], [maxer/harness.rs] and [executor/script.rs]:
    what the compiler returned becomes a structured harness, or the error of
    the first rule it breaks. The theorems say which contracts are accepted,
    and that an accepted one splits its functions as its command expects. *)
From stdpp Require Import sorting.
From S2P Require Import Prelude.
From S2P Require Import Env.
From S2P Require Import Chain.
From S2P Require Import Compare.
From S2P Require Import HarnessId.
From S2P Require Import SolcOutput.
From S2P Require Import Linker.

Definition is_payable (m : StateMutability) : bool := match m with Payable => true | _ => false end.
Definition is_nil {A} (l : list A) : bool := match l with [] => true | _ => false end.

(** [StateMutability::as_json_str] *)
Definition as_json_str (m : StateMutability) : string :=
  match m with Pure => "pure" | View => "view" | NonPayable => "nonpayable" | Payable => "payable" end.

Definition is_invariant (f : Function) : bool := starts_with "invariant_" (fn_name f).
Definition named (n : string) (f : Function) : bool := String.eqb (fn_name f) n.

Section Harnesses.
Context `{AbiJson}.

(** Steps 1 to 4, which the three have in common: the ABI, the initcode and the
    libraries of the target. [what] names the contract in the messages. *)
Definition load_abi (what : string) (c : ContractOutput) : Res JsonAbi :=
  items ← context (abi_items c) (what +:+ " ABI missing from compilation output");
  v ← with_context ("failed to serialize " +:+ what +:+ " ABI") (to_value items);
  with_context ("failed to decode " +:+ what +:+ " ABI") (from_value v).

Definition load (what : string) (stack : nat) (o : SolcOutput)
    : Res (JsonAbi * string * list DeployLibraryInput) :=
  c ← find_contract what o;
  a ← load_abi what c;
  code ← find_initcode (what +:+ " initcode missing from compilation output")
           (what +:+ " contract `" +:+ display (out_id o) +:+ "` has empty initcode") c;
  libs ← resolve_libraries stack o;
  mret (a, code, libs).

(** No arguments, then not payable. *)
Definition check_function (subject no_args : string) (f : Function) : Res unit :=
  _ ← ensure (is_nil (fn_inputs f)) (subject +:+ " " +:+ no_args);
  ensure (negb (is_payable (fn_mutability f))) (subject +:+ " must not be `payable`").

Definition check_constructor (subject no_args : string) (a : JsonAbi) : Res unit :=
  match constructor a with
  | None => mret tt
  | Some k =>
      _ ← ensure (is_nil (ctor_inputs k)) (subject +:+ " constructor " +:+ no_args);
      ensure (negb (is_payable (ctor_mutability k))) (subject +:+ " constructor must not be `payable`")
  end.

(** [abi.function(name).and_then(|functions| functions.first())] *)
Definition first_named (a : JsonAbi) (n : string) : option Function := fs ← function a n; head fs.

(** ** The tester's harness *)
Record TestHarness : Type := mkTestHarness {
  th_id : HarnessId;
  th_abi : JsonAbi;
  th_initcode : string;
  th_setup : option Function;
  th_summary : option Function;
  th_invariants : list Function;
  th_handlers : list Function;
  th_libraries : list DeployLibraryInput;
}.

Definition function_subject (what : string) (id : HarnessId) (n : string) : string :=
  what +:+ " `" +:+ display id +:+ "` function `" +:+ n +:+ "`".

Definition capture_optional (id : HarnessId) (a : JsonAbi) (n : string) : Res (option Function) :=
  match first_named a n with
  | None => Ok None
  | Some f =>
      _ ← check_function (function_subject "test harness" id n) "must not take arguments" f;
      mret (Some f)
  end.

Definition by_name (f g : Function) : comparison := String.compare (fn_name f) (fn_name g).

Definition invariants_of (a : JsonAbi) : list Function :=
  sort_by by_name (filter (fun f => is_invariant f = true) (functions a)).
Definition is_handler (f : Function) : bool :=
  negb (named "setup" f) && negb (named "summary" f) && negb (is_invariant f).
Definition handlers_of (a : JsonAbi) : list Function := filter (fun f => is_handler f = true) (functions a).

Definition test_harness (stack : nat) (o : SolcOutput) : Res TestHarness :=
  let id := out_id o in
  '(a, code, libs) ← load "harness" stack o;
  _ ← check_constructor ("test harness `" +:+ display id +:+ "`") "must not take arguments" a;
  setup ← capture_optional id a "setup";
  summary ← capture_optional id a "summary";
  let invariants := invariants_of a in
  _ ← mapRes (fun f => check_function (function_subject "test harness" id (fn_name f)) "must not take arguments" f)
        invariants;
  mret (mkTestHarness id a code setup summary invariants (handlers_of a) libs).

Definition test_deploy_input (h : TestHarness) : DeployInput :=
  let d := deploy_input_new (th_initcode h) in
  mkDeployInput (di_caller d) (di_value d) (di_initcode d) (th_libraries h) (di_gas_limit d).

(** ** The maximizer's harness *)
Record MaxHarness : Type := mkMaxHarness {
  mh_id : HarnessId;
  mh_abi : JsonAbi;
  mh_initcode : string;
  mh_value : Function;
  mh_setup : option Function;
  mh_summary : option Function;
  mh_libraries : list DeployLibraryInput;
}.

Definition value_subject (id : HarnessId) : string := function_subject "max harness" id "value".

Definition is_read_only (m : StateMutability) : bool := match m with View | Pure => true | _ => false end.

(** Steps 6 and 7: the only [value], its mutability and its result. *)
Definition check_value (id : HarnessId) (v : Function) : Res unit :=
  _ ← ensure (is_read_only (fn_mutability v))
        (value_subject id +:+ " must be `view` or `pure`, found `" +:+ as_json_str (fn_mutability v) +:+ "`");
  match fn_outputs v with
  | [p] => ensure (String.eqb (param_ty p) "uint256")
             (value_subject id +:+ " must return `uint256`, found `" +:+ param_ty p +:+ "`")
  | _ => Err (value_subject id +:+ " must return exactly one value")
  end.

Definition only_one (missing many : string) (candidates : option (list Function)) : Res Function :=
  fs ← context candidates missing;
  match fs with
  | [v] => Ok v
  | _ => Err (many +:+ fmt_dec (Z.of_nat (length fs)))
  end.

Definition max_harness (stack : nat) (o : SolcOutput) : Res MaxHarness :=
  let id := out_id o in
  let subject := "max harness `" +:+ display id +:+ "`" in
  '(a, code, libs) ← load "harness" stack o;
  let found := map fn_name (filter (fun f => is_invariant f = true) (functions a)) in
  _ ← ensure (is_nil found)
        (subject +:+ " must not define `invariant_*` functions, found: " +:+ String.concat ", " found);
  v ← only_one (subject +:+ " must define a `value` function")
        (subject +:+ " must define exactly one `value` function, found ") (function a "value");
  _ ← check_value id v;
  mret (mkMaxHarness id a code v (first_named a "setup") (first_named a "summary") libs).

Definition is_max_handler (f : Function) : bool :=
  negb (named "value" f) && negb (named "setup" f) && negb (named "summary" f).
Definition max_handlers (h : MaxHarness) : list Function :=
  filter (fun f => is_max_handler f = true) (functions (mh_abi h)).

Definition max_deploy_input (h : MaxHarness) : DeployInput :=
  let d := deploy_input_new (mh_initcode h) in
  mkDeployInput (di_caller d) (di_value d) (di_initcode d) (mh_libraries h) (di_gas_limit d).

(** ** The script of [exec] *)
Record Script : Type := mkScript {
  sc_id : HarnessId;
  sc_initcode : string;
  sc_exec : Function;
  sc_setup : option Function;
  sc_libraries : list DeployLibraryInput;
}.

Definition is_nonpayable (m : StateMutability) : bool := match m with NonPayable => true | _ => false end.

Definition check_script_function (id : HarnessId) (n : string) (f : Function) : Res unit :=
  _ ← ensure (is_nil (fn_inputs f)) (function_subject "script contract" id n +:+ " must take no arguments");
  ensure (is_nonpayable (fn_mutability f))
    (function_subject "script contract" id n +:+ " must be `external` or `public`, found `"
     +:+ as_json_str (fn_mutability f) +:+ "`").

Definition script (stack : nat) (o : SolcOutput) : Res Script :=
  let id := out_id o in
  let subject := "script contract `" +:+ display id +:+ "`" in
  '(a, code, libs) ← load "script" stack o;
  _ ← check_constructor subject "must take no arguments" a;
  _ ← mapRes (check_script_function id "setup") (default [] (function a "setup"));
  exec ← only_one (subject +:+ " must define an `exec` function")
           (subject +:+ " must define exactly one `exec` function, found ") (function a "exec");
  _ ← check_script_function id "exec" exec;
  mret (mkScript id code exec (first_named a "setup") libs).

Definition script_deploy_input (s : Script) : DeployInput :=
  let d := deploy_input_new (sc_initcode s) in
  mkDeployInput (di_caller d) (di_value d) (di_initcode d) (sc_libraries s) (di_gas_limit d).
End Harnesses.

(** ** The rules *)
Definition callable (f : Function) : Prop := fn_inputs f = [] /\ fn_mutability f <> Payable.
Definition deployable (a : JsonAbi) : Prop :=
  forall k, constructor a = Some k -> ctor_inputs k = [] /\ ctor_mutability k <> Payable.

Record test_rules (a : JsonAbi) : Prop := {
  rule_constructor : deployable a;
  rule_setup : forall f, first_named a "setup" = Some f -> callable f;
  rule_summary : forall f, first_named a "summary" = Some f -> callable f;
  rule_invariants : forall f, f ∈ functions a -> is_invariant f = true -> callable f;
}.

Definition measures (v : Function) : Prop :=
  is_read_only (fn_mutability v) = true /\ exists p, fn_outputs v = [p] /\ param_ty p = "uint256"%string.

Record max_rules (a : JsonAbi) (v : Function) : Prop := {
  rule_no_invariants : forall f, f ∈ functions a -> is_invariant f = false;
  rule_value : function a "value" = Some [v];
  rule_measures : measures v;
}.

Definition runs (f : Function) : Prop := fn_inputs f = [] /\ fn_mutability f = NonPayable.
Record script_rules (a : JsonAbi) (e : Function) : Prop := {
  rule_script_constructor : deployable a;
  rule_setups : forall f fs, function a "setup" = Some fs -> f ∈ fs -> runs f;
  rule_exec : function a "exec" = Some [e];
  rule_runs : runs e;
}.

(** ** The checks decide the rules *)
Lemma ensure_unit c m u : ensure c m = Ok u <-> c = true.
Proof. destruct u. unfold ensure. destruct c; split; congruence. Qed.

Lemma ensure_both c1 m1 c2 m2 u : (_ ← ensure c1 m1; ensure c2 m2) = Ok u <-> c1 = true /\ c2 = true.
Proof. destruct u. unfold ensure. destruct c1, c2; simpl; naive_solver. Qed.

Lemma is_nil_true {A} (l : list A) : is_nil l = true <-> l = [].
Proof. by destruct l. Qed.

Lemma is_payable_false m : negb (is_payable m) = true <-> m <> Payable.
Proof. by destruct m. Qed.

Lemma check_function_Ok s m f u : check_function s m f = Ok u <-> callable f.
Proof.
  unfold check_function, callable. by rewrite ensure_both, is_nil_true, is_payable_false.
Qed.

Lemma check_constructor_Ok s m a u : check_constructor s m a = Ok u <-> deployable a.
Proof.
  unfold check_constructor, deployable. destruct u, (constructor a) as [k|]; [|split; [by intros _ ?|done]].
  rewrite ensure_both, is_nil_true, is_payable_false. split; [by intros ? ? [= <-]|auto].
Qed.

Lemma check_script_function_Ok id n f u : check_script_function id n f = Ok u <-> runs f.
Proof.
  unfold check_script_function, runs. rewrite ensure_both, is_nil_true. destruct (fn_mutability f); simpl; naive_solver.
Qed.

Lemma check_value_Ok id v u : check_value id v = Ok u <-> measures v.
Proof.
  unfold check_value, measures. rewrite Res_bind_Ok. destruct u. split.
  - intros (u & Hr%ensure_unit & Hv). split; [done|]. destruct (fn_outputs v) as [|p [|]]; [done| |done].
    apply ensure_unit, String.eqb_eq in Hv. eauto.
  - intros [Hr (p & -> & Ht)]. exists tt. rewrite !ensure_unit. split; [done|]. by apply String.eqb_eq.
Qed.

Lemma mapRes_unit {A} (f : A -> Res unit) (P : A -> Prop) l :
  (forall x u, f x = Ok u <-> P x) -> (exists us, mapRes f l = Ok us) <-> Forall P l.
Proof.
  intros Hf. split.
  - intros [us Hus%mapRes_Ok]. apply Forall_forall. intros x [p Hp]%list_elem_of_lookup.
    destruct (Forall2_lookup_l _ _ _ _ _ Hus Hp) as (u & _ & Hu). by apply (Hf x u).
  - intros HP. exists (map (fun _ => tt) l). apply mapRes_Ok. induction HP; simpl; constructor; [by apply Hf|done].
Qed.

Lemma only_one_Ok missing many c v : only_one missing many c = Ok v <-> c = Some [v].
Proof. unfold only_one. destruct c as [[|x [|]]|]; simpl; naive_solver. Qed.

Lemma capture_optional_Ok id a n s :
  capture_optional id a n = Ok s <-> s = first_named a n /\ forall f, first_named a n = Some f -> callable f.
Proof.
  unfold capture_optional. destruct (first_named a n) as [f|]; [|naive_solver].
  rewrite Res_bind_Ok. split.
  - intros (u & Hc%check_function_Ok & [= <-]). split; [done|]. by intros ? [= <-].
  - intros [-> Hc]. exists tt. split; [by apply check_function_Ok, Hc|done].
Qed.

(** ** The functions of an ABI, by name *)
Section Partition.
Context (a : JsonAbi) (Hwf : abi_wf a).

(** Four classes that exclude each other split a list. *)
Lemma split_in_four {A} (p q r s : A -> bool) (l : list A) :
  Forall (fun x => (if p x then 1 else 0) + (if q x then 1 else 0) + (if r x then 1 else 0) + (if s x then 1 else 0) = 1) l ->
  l ≡ₚ filter (fun x => p x = true) l ++ filter (fun x => q x = true) l ++
       filter (fun x => r x = true) l ++ filter (fun x => s x = true) l.
Proof.
  induction 1 as [|x l Hx _ IH]; [done|]. rewrite !filter_cons.
  destruct (p x) eqn:Ep; destruct (q x) eqn:Eq; destruct (r x) eqn:Er; destruct (s x) eqn:Es; try lia;
    rewrite ?(decide_True (P := true = true)), ?(decide_False (P := false = true)) by done;
    simpl; rewrite <- ?Permutation_middle; apply perm_skip; exact IH.
Qed.

Lemma find_absent {A} (f : A -> bool) l : (forall x, In x l -> f x = false) -> find f l = None.
Proof. induction l as [|x l IH]; intros Hf; simpl; [done|]. rewrite (Hf x) by (by left). apply IH. intros. apply Hf. by right. Qed.

(** The overloads of a name, in order, are the functions with that name. *)
Lemma filter_named n : filter (fun f => named n f = true) (functions a) = default [] (function a n).
Proof.
  destruct Hwf as [Hs Hag]. unfold functions, function. revert Hs Hag.
  induction (function_map a) as [|[m fs] l IH]; intros Hs Hag; [done|].
  simpl in Hs. apply StronglySorted_inv in Hs as [Hs Hm]. apply Forall_cons in Hag as [[_ Hfs] Hag].
  specialize (IH Hs Hag). cbn [fst snd] in Hfs. change (concat (snd <$> ((m, fs) :: l))) with (fs ++ concat (snd <$> l)).
  rewrite filter_app, IH. cbn [find fst]. destruct (String.eqb_spec m n) as [->|Hne]; simpl.
  - replace (find (fun kv => String.eqb kv.1 n) l) with (@None (string * list Function)); [simpl; rewrite app_nil_r|].
    + clear -Hfs. induction Hfs as [|f fs Hf _ IH]; [done|]. rewrite filter_cons.
      assert (Hn : named n f = true) by (unfold named; rewrite Hf; apply String.eqb_refl).
      rewrite decide_True by done. by rewrite IH.
    + symmetry. apply find_absent. intros [m gs] Hin. simpl. apply String.eqb_neq. intros ->.
      rewrite Forall_forall in Hm. specialize (Hm n). rewrite list_elem_of_fmap in Hm.
      assert (Hlt : String.compare n n = Lt) by (apply Hm; exists (n, gs); split; [done|by apply list_elem_of_In]).
      pose proof (lawful_refl _ n lawful_string). congruence.
  - replace (filter (fun f => named n f = true) fs) with (@nil Function); [done|].
    clear -Hfs Hne. induction Hfs as [|f fs Hf _ IH]; [done|]. rewrite filter_cons.
    assert (Hn : named n f = false) by (unfold named; rewrite Hf; by apply String.eqb_neq).
    rewrite decide_False by (by rewrite Hn). done.
Qed.
End Partition.

(** ** What is accepted *)
Section Accepted.
Context `{AbiJson}.

(** What the three have in common: the target's ABI, code and libraries. *)
Record compiled (n : nat) (o : SolcOutput) (a : JsonAbi) (code : string) (libs : list DeployLibraryInput) : Prop := {
  compiled_abi : exists c items v, contract o = Ok c /\ abi_items c = Some items /\ to_value items = Ok v /\
    from_value v = Ok a /\ exists b, bytecode_of c = Some b /\ object b = Some code;
  compiled_code : code <> "";
  compiled_libraries : resolve_libraries n o = Ok libs;
}.

Lemma with_context_Ok {A} m (r : Res A) x : with_context m r = Ok x <-> r = Ok x.
Proof. by destruct r. Qed.

Lemma load_Ok what n o a code libs : load what n o = Ok (a, code, libs) <-> compiled n o a code libs.
Proof.
  unfold load, load_abi. split.
  - intros Hl. inv_ok.
    repeat match goal with
    | H : with_context _ _ = Ok _ |- _ => apply with_context_Ok in H
    | H : Prelude.context _ _ = Ok _ |- _ => apply context_Ok in H
    | H : find_contract _ _ = Ok _ |- _ => apply find_contract_what in H
    | H : find_initcode _ _ _ = Ok _ |- _ => apply find_initcode_Ok in H as (? & ? & ? & ?)
    end.
    split; [|done|done]. repeat (eexists; try done).
  - intros [(c & items & v & Hc & Hi & Hv & Ha & b & Hb & Hcode) Hne Hlibs].
    apply Res_bind_Ok. exists c. split; [by apply find_contract_Ok, (find_contract_Ok "harness")|].
    apply Res_bind_Ok. exists a. rewrite Hi. simpl. rewrite Hv. simpl. rewrite Ha. split; [done|].
    apply Res_bind_Ok. exists code. split; [apply find_initcode_Ok; eauto|].
    apply Res_bind_Ok. by exists libs.
Qed.

Lemma compiled_wf `{!AbiJsonLaws} n o a code libs : compiled n o a code libs -> abi_wf a.
Proof. intros [(c & items & v & _ & _ & _ & Ha & _) _ _]. by eapply from_value_wf. Qed.

Lemma invariants_of_elem a f : f ∈ invariants_of a <-> f ∈ functions a /\ is_invariant f = true.
Proof. unfold invariants_of. rewrite sort_by_perm, list_elem_of_filter. tauto. Qed.

Lemma test_harness_Ok n o h :
  test_harness n o = Ok h <->
  exists a code libs, compiled n o a code libs /\ test_rules a /\
    h = mkTestHarness (out_id o) a code (first_named a "setup") (first_named a "summary") (invariants_of a)
          (handlers_of a) libs.
Proof.
  unfold test_harness. rewrite Res_bind_Ok. split.
  - intros ([[a code] libs] & Hl%load_Ok & Hh). apply Res_bind_Ok in Hh as (u & Hk%check_constructor_Ok & Hh).
    apply Res_bind_Ok in Hh as (s & [-> Hs]%capture_optional_Ok & Hh).
    apply Res_bind_Ok in Hh as (m & [-> Hm]%capture_optional_Ok & Hh).
    apply Res_bind_Ok in Hh as (us & Hi & [= <-]). exists a, code, libs. split; [done|]. split; [|done].
    split; [done..|]. intros f Hf Hinv.
    assert (HF : Forall callable (invariants_of a)) by (eapply mapRes_unit; [|by exists us]; intros; apply check_function_Ok).
    rewrite Forall_forall in HF. by apply HF, invariants_of_elem.
  - intros (a & code & libs & Hc & [Hk Hs Hm Hi] & ->). exists (a, code, libs). split; [by apply load_Ok|].
    apply Res_bind_Ok. exists tt. split; [by apply check_constructor_Ok|].
    apply Res_bind_Ok. eexists. split; [by apply capture_optional_Ok|].
    apply Res_bind_Ok. eexists. split; [by apply capture_optional_Ok|]. apply Res_bind_Ok.
    edestruct (mapRes_unit (fun f => check_function (function_subject "test harness" (out_id o) (fn_name f))
      "must not take arguments" f) callable (invariants_of a)) as [_ Hback]; [intros; apply check_function_Ok|].
    destruct Hback as [us Hus]; [|by exists us]. apply Forall_forall.
    intros f [Hf Hinv]%invariants_of_elem. auto.
Qed.

Lemma max_harness_Ok n o h :
  max_harness n o = Ok h <->
  exists a code v libs, compiled n o a code libs /\ max_rules a v /\
    h = mkMaxHarness (out_id o) a code v (first_named a "setup") (first_named a "summary") libs.
Proof.
  assert (Hnone : forall a, is_nil (map fn_name (filter (fun f => is_invariant f = true) (functions a))) = true <->
    forall f, f ∈ functions a -> is_invariant f = false).
  { intros a. rewrite is_nil_true. split.
    - intros He%map_eq_nil f Hf. destruct (is_invariant f) eqn:E; [exfalso|done].
      apply (not_elem_of_nil f). rewrite <- He. by apply list_elem_of_filter.
    - intros Hn. destruct (filter _ (functions a)) as [|f fs] eqn:E; [done|exfalso].
      assert (Hf : f ∈ filter (fun f => is_invariant f = true) (functions a)) by (rewrite E; left).
      apply list_elem_of_filter in Hf as [Hi Hf]. rewrite Hn in Hi; done. }
  unfold max_harness. rewrite Res_bind_Ok. split.
  - intros ([[a code] libs] & Hl%load_Ok & Hh). apply Res_bind_Ok in Hh as (u & Hi%ensure_unit & Hh).
    apply Res_bind_Ok in Hh as (v & Hv%only_one_Ok & Hh). apply Res_bind_Ok in Hh as (u' & Hm%check_value_Ok & [= <-]).
    exists a, code, v, libs. split; [done|]. split; [|done]. split; [by apply Hnone|done|done].
  - intros (a & code & v & libs & Hc & [Hi Hv Hm] & ->). exists (a, code, libs). split; [by apply load_Ok|].
    apply Res_bind_Ok. exists tt. split; [by apply ensure_unit, Hnone|].
    apply Res_bind_Ok. exists v. split; [by apply only_one_Ok|].
    apply Res_bind_Ok. exists tt. split; [by apply check_value_Ok|done].
Qed.

Lemma script_Ok n o s :
  script n o = Ok s <->
  exists a code e libs, compiled n o a code libs /\ script_rules a e /\
    s = mkScript (out_id o) code e (first_named a "setup") libs.
Proof.
  assert (Hset : forall a id, (exists us, mapRes (check_script_function id "setup") (default [] (function a "setup")) = Ok us) <->
    forall f fs, function a "setup" = Some fs -> f ∈ fs -> runs f).
  { intros a id. rewrite (mapRes_unit _ runs) by (intros; apply check_script_function_Ok). rewrite Forall_forall.
    destruct (function a "setup") as [fs|]; simpl; [naive_solver|]. split; [done|]. by intros _ f Hf%not_elem_of_nil. }
  unfold script. rewrite Res_bind_Ok. split.
  - intros ([[a code] libs] & Hl%load_Ok & Hh). apply Res_bind_Ok in Hh as (u & Hk%check_constructor_Ok & Hh).
    apply Res_bind_Ok in Hh as (us & Hs & Hh). apply Res_bind_Ok in Hh as (e & He%only_one_Ok & Hh).
    apply Res_bind_Ok in Hh as (u' & Hr%check_script_function_Ok & [= <-]). exists a, code, e, libs.
    split; [done|]. split; [|done]. split; [done| |done|done]. by apply (Hset a (out_id o)); exists us.
  - intros (a & code & e & libs & Hc & [Hk Hs He Hr] & ->). exists (a, code, libs). split; [by apply load_Ok|].
    apply Res_bind_Ok. exists tt. split; [by apply check_constructor_Ok|]. apply Res_bind_Ok.
    destruct (proj2 (Hset a (out_id o)) Hs) as [us Hus]. exists us. split; [done|].
    apply Res_bind_Ok. exists e. split; [by apply only_one_Ok|].
    apply Res_bind_Ok. exists tt. split; [by apply check_script_function_Ok|done].
Qed.

Lemma named_true n f : named n f = true <-> fn_name f = n.
Proof. apply String.eqb_eq. Qed.

Lemma is_invariant_named n f : fn_name f = n -> starts_with "invariant_" n = false -> is_invariant f = false.
Proof. by unfold is_invariant; intros ->. Qed.

Context {Hlaws : AbiJsonLaws}.

(** The tester accepts exactly the contracts that follow its rules: no
    constructor arguments and no payable constructor, and [setup], [summary]
    (their first overload) and every invariant without arguments and not
    payable. An accepted harness has every function of the ABI once: as an
    invariant, as a handler, or under one of the two names; the invariants
    are sorted by name; and it is deployed with the libraries resolved for
    it. *)
Theorem test_harness_spec n o :
  (forall a code libs, compiled n o a code libs -> test_rules a -> exists h, test_harness n o = Ok h) /\
  forall h, test_harness n o = Ok h ->
    compiled n o (th_abi h) (th_initcode h) (th_libraries h) /\ test_rules (th_abi h) /\
    functions (th_abi h) ≡ₚ th_invariants h ++ th_handlers h ++
      default [] (function (th_abi h) "setup") ++ default [] (function (th_abi h) "summary") /\
    (forall f, f ∈ th_invariants h -> is_invariant f = true /\ callable f) /\
    (forall f, th_setup h = Some f -> fn_name f = "setup"%string /\ callable f) /\
    StronglySorted (cmp_le by_name) (th_invariants h) /\
    di_initcode (test_deploy_input h) = th_initcode h /\ di_libraries (test_deploy_input h) = th_libraries h.
Proof.
  split; [intros a code libs Hc Hr; eexists; apply test_harness_Ok; by exists a, code, libs|].
  intros h (a & code & libs & Hc & Hr & ->)%test_harness_Ok. pose proof (compiled_wf _ _ _ _ _ Hc) as Hwf. simpl.
  split; [done|]. split; [done|]. split; [|split; [|split; [|split; [|done]]]].
  - unfold invariants_of. rewrite sort_by_perm, <- !filter_named by done. apply split_in_four, Forall_forall.
    intros f _. unfold is_handler. destruct (named "setup" f) eqn:Es, (named "summary" f) eqn:Em;
      rewrite ?named_true in *; try congruence;
      rewrite ?(is_invariant_named "setup" f), ?(is_invariant_named "summary" f) by done; [done|done|].
    by destruct (is_invariant f).
  - intros f [Hf Hi]%invariants_of_elem. split; [done|]. by apply (rule_invariants a Hr).
  - intros f Hf. split; [|by apply (rule_setup a Hr)]. unfold first_named in Hf.
    destruct (function a "setup") as [[|g fs]|] eqn:E; [done| |done]. injection Hf as ->.
    apply (function_elem a Hwf "setup" f). exists (f :: fs). split; [done|left].
  - apply sort_by_sorted, (lawful_on fn_name String.compare lawful_string).
Qed.

(** The maximizer accepts exactly the contracts that define no invariant
    and one [value], read-only with one [uint256] result. An accepted harness
    has every function of the ABI once: the value function, a handler, or one
    of [setup] and [summary]; no invariant is among them. *)
Theorem max_harness_spec n o :
  (forall a code v libs, compiled n o a code libs -> max_rules a v -> exists h, max_harness n o = Ok h) /\
  forall h, max_harness n o = Ok h ->
    compiled n o (mh_abi h) (mh_initcode h) (mh_libraries h) /\ max_rules (mh_abi h) (mh_value h) /\
    functions (mh_abi h) ≡ₚ mh_value h :: max_handlers h ++
      default [] (function (mh_abi h) "setup") ++ default [] (function (mh_abi h) "summary") /\
    (forall f, f ∈ max_handlers h -> fn_name f <> "value"%string /\ is_invariant f = false) /\
    di_initcode (max_deploy_input h) = mh_initcode h /\ di_libraries (max_deploy_input h) = mh_libraries h.
Proof.
  split; [intros a code v libs Hc Hr; eexists; apply max_harness_Ok; by exists a, code, v, libs|].
  intros h (a & code & v & libs & Hc & Hr & ->)%max_harness_Ok. pose proof (compiled_wf _ _ _ _ _ Hc) as Hwf. simpl.
  split; [done|]. split; [done|]. split; [|split; [|done]].
  - change (v :: ?l) with ([v] ++ l). replace [v] with (default [] (function a "value")) by (by rewrite (rule_value a v Hr)).
    rewrite <- !filter_named by done. apply split_in_four, Forall_forall. intros f _. unfold is_max_handler.
    destruct (named "value" f) eqn:Ev, (named "setup" f) eqn:Es, (named "summary" f) eqn:Em;
      rewrite ?named_true in *; congruence || done.
  - unfold max_handlers. intros f [Hm Hf]%list_elem_of_filter. split; [|by apply (rule_no_invariants a v Hr)].
    intros Hn%named_true. unfold is_max_handler in Hm. by rewrite Hn in Hm.
Qed.
End Accepted.

(** ** Witnesses *)
Module ToyHarness.
Definition fn (n : string) (ins outs : list Param) (m : StateMutability) : Function := mkFunction n ins outs m.
Definition word (n : string) : Param := mkParam n "uint256" [].

Definition test_abi : JsonAbi := mkJsonAbi (Some (mkConstructor [] NonPayable))
  [("deposit", [fn "deposit" [word "amount"] [] Payable]); ("invariant_solvent", [fn "invariant_solvent" [] [] View]);
   ("setup", [fn "setup" [] [] NonPayable; fn "setup" [word "seed"] [] NonPayable])].
Definition max_abi : JsonAbi := mkJsonAbi None
  [("deposit", [fn "deposit" [word "amount"] [] Payable]); ("value", [fn "value" [word "at"] [word ""] View])].

#[export] Instance two_abis : AbiJson := {
  AbiItems := bool; json := bool; to_value b := Ok b; from_value b := Ok (if b then test_abi else max_abi) }.
#[export] Instance two_abis_laws : AbiJsonLaws.
Proof. split. intros [] a [= <-]; split; repeat constructor; done. Defined.

Definition output_of (items : bool) : SolcOutput :=
  mkSolcOutput (mkHarnessId "src/V.sol" "V")
    [("src/V.sol", [("V", mkContractOutput (Some items)
        (Some (mkEvm (Some (mkBytecode (Some "60") None None None)) None)))])] None.
End ToyHarness.
Import ToyHarness.

Lemma test_harness_spec_witness :
  exists h, test_harness 1 (output_of true) = Ok h /\ test_rules (th_abi h) /\
    length (th_invariants h) = 1%nat /\ length (th_handlers h) = 1%nat.
Proof.
  destruct (test_harness 1 (output_of true)) as [h| |] eqn:E; [|vm_compute in E; discriminate E..].
  exists h. destruct (test_harness_spec 1 (output_of true)) as [_ Hspec].
  split; [reflexivity|]. split; [apply (Hspec h E)|]. vm_compute in E. injection E as <-. split; reflexivity.
Defined.

Lemma max_harness_spec_witness :
  exists h, max_harness 1 (output_of false) = Ok h /\ max_rules (mh_abi h) (mh_value h).
Proof.
  destruct (max_harness 1 (output_of false)) as [h| |] eqn:E; [|vm_compute in E; discriminate E..].
  exists h. split; [reflexivity|]. apply (proj2 (max_harness_spec 1 (output_of false)) h E).
Defined.

(** A value function that takes an argument is accepted. *)
Example value_with_arguments :
  exists h, max_harness 1 (output_of false) = Ok h /\ fn_inputs (mh_value h) <> [].
Proof. eexists. split; [vm_compute; reflexivity|done]. Qed.
