(* ===== verification/SourceMap.v ===== *)
(** * SourceMap: from program counters to lines

    Models [evm/coverage/source_map.rs] and the walk of a code and the line
    arithmetic of [evm/coverage/reporter.rs]. A compressed source map is parsed
    back whatever its writer abbreviated; the entry of a program counter is
    that of the instruction that starts there; and every offset of a source
    falls on one of its lines. *)
From S2P Require Import Prelude.
From S2P Require Import Env.
From S2P Require Import Paths.

(** ** [str::parse] for [usize] and [isize] *)
Definition is_decimal (a : ascii) : bool :=
  let n := Z.of_nat (nat_of_ascii a) in (48 <=? n) && (n <=? 57).

Fixpoint dec_value (v : Z) (s : string) : option Z :=
  match s with
  | EmptyString => Some v
  | String a s' => if is_decimal a then dec_value (v * 10 + char_digit a) s' else None
  end.

(** The digits after the sign: at least one. *)
Definition parse_digits (s : string) : option Z := if String.eqb s "" then None else dec_value 0 s.
Definition in_range (lo hi : Z) (v : Z) : option Z := if (lo <=? v) && (v <=? hi) then Some v else None.

Definition parse_usize (s : string) : option Z :=
  match s with
  | String "+" s' => parse_digits s' ≫= in_range 0 u64_max
  | _ => parse_digits s ≫= in_range 0 u64_max
  end.
Definition isize_min : Z := - 2 ^ 63.
Definition isize_max : Z := 2 ^ 63 - 1.
Definition parse_isize (s : string) : option Z :=
  match s with
  | String "-" s' => parse_digits s' ≫= fun v => in_range isize_min isize_max (- v)
  | String "+" s' => parse_digits s' ≫= in_range isize_min isize_max
  | _ => parse_digits s ≫= in_range isize_min isize_max
  end.

Definition fmt_isize (v : Z) : string := if v <? 0 then String "-" (fmt_dec (- v)) else fmt_dec v.

(** ** Source maps *)
Record SourceMapEntry : Type := mkEntry {
  sm_offset : Z;
  sm_length : Z;
  source_index : Z;
  jump_type : ascii;
  modifier_depth : Z;
}.
Definition entry_default : SourceMapEntry := mkEntry 0 0 0 "000" 0.

#[export] Instance SourceMapEntry_eq_dec : EqDecision SourceMapEntry.
Proof. solve_decision. Defined.

(** A part that is there and not empty. *)
Definition part (parts : list string) (i : nat) : option string :=
  t ← parts !! i; if String.eqb t "" then None else Some t.

Definition read_part {A} (parts : list string) (i : nat) (old : A) (read : string -> A) : A :=
  match part parts i with Some t => read t | None => old end.

Definition read_segment (current : SourceMapEntry) (segment : string) : SourceMapEntry :=
  if String.eqb segment "" then current
  else
    let parts := split_on ":" segment in
    mkEntry (read_part parts 0 (sm_offset current) (fun t => default 0 (parse_usize t)))
      (read_part parts 1 (sm_length current) (fun t => default 0 (parse_usize t)))
      (read_part parts 2 (source_index current) (fun t => default 0 (parse_isize t)))
      (read_part parts 3 (jump_type current) (fun t => match t with String a _ => a | "" => "-"%char end))
      (read_part parts 4 (modifier_depth current) (fun t => default 0 (parse_usize t))).

Fixpoint read_segments (current : SourceMapEntry) (segments : list string) : list SourceMapEntry :=
  match segments with
  | [] => []
  | s :: rest => let next := read_segment current s in next :: read_segments next rest
  end.

Definition parse_source_map (source_map : string) : list SourceMapEntry :=
  if String.eqb source_map "" then [] else read_segments entry_default (split_on ";" source_map).

(** ** Program counters *)
Definition push_size (opcode : Z) : nat :=
  if (96 <=? opcode) && (opcode <=? 127) then Z.to_nat (opcode - 96 + 1) else 0.

(** The loop moves at least one byte at a time, so the length of the code is
    fuel enough. *)
Fixpoint pc_loop (fuel : nat) (code : Bytes) (sm : list SourceMapEntry) (pc opcode_idx : nat)
    (result : list (option SourceMapEntry)) : list (option SourceMapEntry) :=
  match fuel with
  | O => result
  | S fuel' =>
      match code !! pc with
      | None => result
      | Some opcode =>
          let result := match sm !! opcode_idx with Some e => <[pc := Some e]> result | None => result end in
          pc_loop fuel' code sm (pc + 1 + push_size opcode) (S opcode_idx) result
      end
  end.

Definition build_pc_to_source_map (code : Bytes) (sm : list SourceMapEntry) : list (option SourceMapEntry) :=
  pc_loop (length code) code sm 0 0 (replicate (length code) None).

(** ** Lines *)
Definition NEWLINE : ascii := "010".

Fixpoint newlines (s : string) : Z :=
  match s with
  | EmptyString => 0
  | String a s' => (if Ascii.eqb a NEWLINE then 1 else 0) + newlines s'
  end.

Fixpoint str_take (n : nat) (s : string) : string :=
  match n, s with
  | S n', String a s' => String a (str_take n' s')
  | _, _ => ""
  end.

Fixpoint str_drop (n : nat) (s : string) : string :=
  match n, s with S n', String _ s' => str_drop n' s' | _, _ => s end.

Definition str_len (s : string) : Z := Z.of_nat (String.length s).

Definition offset_to_line (content : string) (offset : Z) : Z :=
  let safe_offset := Z.min offset (str_len content) in
  let line := newlines (str_take (Z.to_nat safe_offset) content) + 1 in
  if (safe_offset =? str_len content) && ends_with_char NEWLINE content then sat_sub line 1 else line.

(** [str::lines]: a carriage return before a newline goes with it, and a last
    empty piece is no line. *)
Definition CARRIAGE_RETURN : ascii := "013".
Fixpoint strip_cr (s : string) : string :=
  match s with
  | EmptyString => ""
  | String a EmptyString => if Ascii.eqb a CARRIAGE_RETURN then "" else s
  | String a s' => String a (strip_cr s')
  end.
Fixpoint line_ends (pieces : list string) : list string :=
  match pieces with
  | [] => []
  | [s] => if String.eqb s "" then [] else [s]
  | s :: rest => strip_cr s :: line_ends rest
  end.
Definition lines (content : string) : list string := line_ends (split_on NEWLINE content).

(** ** Numbers are read back *)
Lemma dec_value_read v s : str_all is_decimal s -> dec_value v s = Some (read_digits 10 v s).
Proof.
  revert v. induction s as [|a s IH]; intros v; simpl; [done|]. intros [Ha Hs]%andb_prop_elim.
  apply Is_true_true in Ha. rewrite Ha. by apply IH.
Qed.

Lemma decimal_digit d : 0 <= d < 10 -> is_decimal (digit_char d) = true.
Proof.
  intros Hd. assert (Hall : forallb (fun k => is_decimal (digit_char (Z.of_nat k))) (seq 0 10) = true) by reflexivity.
  rewrite forallb_forall in Hall. specialize (Hall (Z.to_nat d) ltac:(apply in_seq; lia)).
  by rewrite Z2Nat.id in Hall by lia.
Qed.

Lemma fmt_dec_decimal fuel n acc : str_all is_decimal acc -> str_all is_decimal (digits_go 10 fuel n acc).
Proof.
  revert n acc. induction fuel as [|fuel IH]; intros n acc Ha; cbn [digits_go]; [done|].
  assert (Hs : Is_true (str_all is_decimal (String (digit_char (n mod 10)) acc))).
  { cbn [str_all]. rewrite decimal_digit by (apply Z.mod_pos_bound; lia). done. }
  destruct (n <? 10); [done|]. by apply IH.
Qed.

Lemma parse_digits_dec n : in_u64 n -> parse_digits (fmt_dec n) = Some n.
Proof.
  unfold in_u64, u64_max. intros Hn. unfold parse_digits.
  destruct (String.eqb_spec (fmt_dec n) "") as [E|_]; [by apply digits_go_nonempty in E; [|lia]|].
  rewrite dec_value_read by (by apply fmt_dec_decimal). f_equal. unfold fmt_dec.
  by rewrite digits_go_read by lia.
Qed.

(** A text of digits starts with no sign. *)
Lemma fmt_dec_head n : exists a s, fmt_dec n = String a s /\ a <> "+"%char /\ a <> "-"%char.
Proof.
  pose proof (fmt_dec_decimal 64 n "" I) as Hd. pose proof (digits_go_nonempty 10 64 n "" ltac:(lia)) as Hne.
  unfold fmt_dec. destruct (digits_go 10 64 n "") as [|a s]; [done|]. exists a, s. split; [done|].
  cbn [str_all] in Hd. apply andb_prop_elim in Hd as [Ha _]. by split; intros ->.
Qed.

Lemma parse_usize_dec n : in_u64 n -> parse_usize (fmt_dec n) = Some n.
Proof.
  intros Hn. pose proof (parse_digits_dec n Hn) as Hp. destruct (fmt_dec_head n) as (a & s & E & Hplus & _).
  rewrite E in *. unfold parse_usize. assert (Hr : in_range 0 u64_max n = Some n).
  { unfold in_range. unfold in_u64 in Hn. by rewrite (proj2 (Z.leb_le 0 n)), (proj2 (Z.leb_le n u64_max)) by lia. }
  destruct a as [[] [] [] [] [] [] [] []]; rewrite ?Hp; done.
Qed.

Lemma parse_isize_dec v : isize_min <= v <= isize_max -> parse_isize (fmt_isize v) = Some v.
Proof.
  unfold isize_min, isize_max, fmt_isize. intros Hv.
  assert (Hr : in_range isize_min isize_max v = Some v).
  { unfold in_range, isize_min, isize_max. by rewrite (proj2 (Z.leb_le _ v)), (proj2 (Z.leb_le v _)) by lia. }
  destruct (Z.ltb_spec v 0).
  - cbn [parse_isize]. rewrite parse_digits_dec by (unfold in_u64, u64_max; lia). simpl. by rewrite Z.opp_involutive.
  - pose proof (parse_digits_dec v ltac:(unfold in_u64, u64_max; lia)) as Hp.
    destruct (fmt_dec_head v) as (a & s & E & Hplus & Hminus). rewrite E in *. unfold parse_isize.
    destruct a as [[] [] [] [] [] [] [] []]; rewrite ?Hp; done.
Qed.

(** ** Splitting what was joined *)
Lemma split_on_app c p q : has_char c p = false -> split_on c (p +:+ String c q) = p :: split_on c q.
Proof.
  induction p as [|a p IH]; intros Hp.
  - change ("" +:+ String c q) with (String c q). simpl. by rewrite (Ascii.eqb_refl c).
  - unfold has_char in *. cbn [str_all] in Hp. apply negb_false_iff, andb_true_iff in Hp as [Ha Hp].
    change (String a p +:+ String c q) with (String a (p +:+ String c q)). cbn [split_on].
    apply negb_true_iff in Ha. rewrite Ha, IH by (by rewrite Hp). done.
Qed.

Lemma split_on_none c p : has_char c p = false -> split_on c p = [p].
Proof.
  induction p as [|a p IH]; intros Hp; [done|]. unfold has_char in *. cbn [str_all] in Hp.
  apply negb_false_iff, andb_true_iff in Hp as [Ha Hp]. apply negb_true_iff in Ha. cbn [split_on].
  by rewrite Ha, IH by (by rewrite Hp).
Qed.

Lemma split_on_concat c fs :
  fs <> [] -> Forall (fun f => has_char c f = false) fs -> split_on c (String.concat (String c "") fs) = fs.
Proof.
  intros Hne HF. induction HF as [|f fs Hf HF IH]; [done|]. destruct fs as [|g fs]; [by apply split_on_none|].
  change (String.concat (String c "") (f :: g :: fs)) with (f +:+ String c (String.concat (String c "") (g :: fs))).
  rewrite split_on_app, IH; done.
Qed.

(** ** Compressed source maps *)

(** The five fields of an entry as the compiler writes them. *)
Definition fields_of (e : SourceMapEntry) : list string :=
  [fmt_dec (sm_offset e); fmt_dec (sm_length e); fmt_isize (source_index e); String (jump_type e) "";
   fmt_dec (modifier_depth e)].

Record entry_ok (e : SourceMapEntry) : Prop := {
  ok_offset : in_u64 (sm_offset e);
  ok_length : in_u64 (sm_length e);
  ok_index : isize_min <= source_index e <= isize_max;
  ok_jump : jump_type e <> ":"%char /\ jump_type e <> ";"%char;
  ok_depth : in_u64 (modifier_depth e);
}.

(** An abbreviation of an entry after another one: any field that did not
    change may be empty, and missing when it is at the end. *)
Definition abbreviates (prev e : SourceMapEntry) (fs : list string) : Prop :=
  fs <> [] /\ (length fs <= 5)%nat /\
  forall i t, fields_of e !! i = Some t ->
    fs !! i = Some t \/ ((fs !! i = None \/ fs !! i = Some "") /\ fields_of prev !! i = Some t).

Fixpoint abbreviated (prev : SourceMapEntry) (es : list SourceMapEntry) (fss : list (list string)) : Prop :=
  match es, fss with
  | [], [] => True
  | e :: es', fs :: fss' => abbreviates prev e fs /\ abbreviated e es' fss'
  | _, _ => False
  end.

Lemma read_segment_parts cur seg :
  read_segment cur seg =
    let parts := split_on ":" seg in
    mkEntry (read_part parts 0 (sm_offset cur) (fun t => default 0 (parse_usize t)))
      (read_part parts 1 (sm_length cur) (fun t => default 0 (parse_usize t)))
      (read_part parts 2 (source_index cur) (fun t => default 0 (parse_isize t)))
      (read_part parts 3 (jump_type cur) (fun t => match t with String a _ => a | "" => "-"%char end))
      (read_part parts 4 (modifier_depth cur) (fun t => default 0 (parse_usize t))).
Proof. unfold read_segment. destruct (String.eqb_spec seg "") as [->|_]; [by destruct cur|done]. Qed.

Lemma read_part_abbreviated {A} (text : A -> string) (read : string -> A) fs i old new :
  (fs !! i = Some (text new) \/ ((fs !! i = None \/ fs !! i = Some "") /\ Some (text old) = Some (text new))) ->
  text new <> "" -> read (text new) = new -> read (text old) = old -> read_part fs i old read = new.
Proof.
  intros Hfs Hne Hnew Hold. unfold read_part, part. destruct Hfs as [->|[Hfs [= Heq]]].
  - simpl. by destruct (String.eqb_spec (text new) "").
  - assert (old = new) as -> by congruence. destruct Hfs as [->| ->]; done.
Qed.

Lemma fmt_dec_nonempty n : fmt_dec n <> "".
Proof. apply digits_go_nonempty. lia. Qed.
Lemma fmt_isize_nonempty v : fmt_isize v <> "".
Proof. unfold fmt_isize. destruct (v <? 0); [done|apply fmt_dec_nonempty]. Qed.

Lemma usize_text n : in_u64 n -> default 0 (parse_usize (fmt_dec n)) = n.
Proof. intros Hn. by rewrite parse_usize_dec. Qed.
Lemma isize_text v : isize_min <= v <= isize_max -> default 0 (parse_isize (fmt_isize v)) = v.
Proof. intros Hv. by rewrite parse_isize_dec. Qed.

Lemma read_segment_abbreviated prev e fs :
  entry_ok prev -> entry_ok e -> abbreviates prev e fs -> Forall (fun f => has_char ":" f = false) fs ->
  read_segment prev (String.concat ":" fs) = e.
Proof.
  intros [] [] (Hne & _ & Hfs) Hsep. rewrite read_segment_parts. cbv zeta.
  rewrite (split_on_concat ":" fs Hne Hsep).
  rewrite (read_part_abbreviated fmt_dec _ fs 0 (sm_offset prev) (sm_offset e)),
    (read_part_abbreviated fmt_dec _ fs 1 (sm_length prev) (sm_length e)),
    (read_part_abbreviated fmt_isize _ fs 2 (source_index prev) (source_index e)),
    (read_part_abbreviated (fun c => String c "") _ fs 3 (jump_type prev) (jump_type e)),
    (read_part_abbreviated fmt_dec _ fs 4 (modifier_depth prev) (modifier_depth e));
    auto using fmt_dec_nonempty, fmt_isize_nonempty, usize_text, isize_text; [by destruct e|..];
    first [apply (Hfs 0%nat)|apply (Hfs 1%nat)|apply (Hfs 2%nat)|apply (Hfs 3%nat)|apply (Hfs 4%nat)]; done.
Qed.

Lemma decimal_no_char c s : is_decimal c = false -> str_all is_decimal s -> has_char c s = false.
Proof.
  intros Hc. unfold has_char. induction s as [|a s IH]; [done|]. cbn [str_all]. intros [Ha Hs]%andb_prop_elim.
  destruct (Ascii.eqb_spec a c) as [->|_]; [by rewrite Hc in Ha|]. by apply IH.
Qed.

Lemma fields_no_char c e t :
  is_decimal c = false -> c <> "-"%char -> c <> jump_type e -> t ∈ fields_of e -> has_char c t = false.
Proof.
  intros Hc Hm Hj Ht. assert (Hd : forall n, has_char c (fmt_dec n) = false).
  { intros n. apply decimal_no_char; [done|by apply fmt_dec_decimal]. }
  unfold fields_of in Ht. rewrite !elem_of_cons in Ht. destruct Ht as [->|[->|[->|[->|[->|Ht]]]]]; auto.
  - unfold fmt_isize. destruct (source_index e <? 0); [|done]. unfold has_char in *. cbn [str_all].
    destruct (Ascii.eqb_spec "-" c); [by subst|exact (Hd _)].
  - unfold has_char. cbn [str_all]. by destruct (Ascii.eqb_spec (jump_type e) c); [subst|].
  - by apply not_elem_of_nil in Ht.
Qed.

Lemma abbreviates_no_char c prev e fs :
  is_decimal c = false -> c <> "-"%char -> c <> jump_type e -> abbreviates prev e fs ->
  Forall (fun f => has_char c f = false) fs.
Proof.
  intros Hc Hm Hj (_ & Hl & Hfs). apply Forall_forall. intros f [i Hi]%list_elem_of_lookup.
  destruct (lookup_lt_is_Some_2 (fields_of e) i) as [t Ht].
  { apply lookup_lt_Some in Hi. simpl. lia. }
  destruct (Hfs i t Ht) as [Hft|[[Hft|Hft] _]]; rewrite Hi in Hft; [|done|by injection Hft as ->].
  injection Hft as ->. eapply fields_no_char; eauto. by eapply list_elem_of_lookup_2.
Qed.

Lemma concat_no_char c d fs :
  c <> d -> Forall (fun f => has_char c f = false) fs -> has_char c (String.concat (String d "") fs) = false.
Proof.
  intros Hne HF. induction HF as [|f fs Hf HF IH]; [done|]. destruct fs as [|g fs]; [done|].
  change (String.concat (String d "") (f :: g :: fs)) with (f +:+ String d (String.concat (String d "") (g :: fs))).
  rewrite has_char_app, Hf. unfold has_char in *. cbn [str_all].
  destruct (Ascii.eqb_spec d c); [by subst|]. done.
Qed.

Lemma read_segments_abbreviated prev es fss :
  entry_ok prev -> Forall entry_ok es -> abbreviated prev es fss ->
  read_segments prev (map (String.concat ":") fss) = es /\
  Forall (fun s => has_char ";" s = false) (map (String.concat ":") fss).
Proof.
  revert prev fss. induction es as [|e es IH]; intros prev [|fs fss] Hp Hes Ha; simpl in *; try done.
  destruct Ha as [Hfs Ha]. apply Forall_cons in Hes as [He Hes]. destruct (ok_jump e He) as [Hj1 Hj2].
  assert (Hcolon : Forall (fun f => has_char ":" f = false) fs) by (eapply abbreviates_no_char; eauto; done).
  assert (Hsemi : Forall (fun f => has_char ";" f = false) fs) by (eapply abbreviates_no_char; eauto; done).
  rewrite (read_segment_abbreviated prev e fs) by done. destruct (IH e fss) as [-> HF]; [done..|].
  split; [done|]. constructor; [|done].
  apply (concat_no_char ";" ":"); [intros E; discriminate E|exact Hsemi].
Qed.

(** C30: A source map is parsed back from its compressed text: whatever
    unchanged fields the writer left out of each entry, the entries are the
    ones written. *)
Theorem source_map_roundtrip es fss :
  Forall entry_ok es -> abbreviated entry_default es fss ->
  String.concat ";" (map (String.concat ":") fss) <> "" ->
  parse_source_map (String.concat ";" (map (String.concat ":") fss)) = es.
Proof.
  intros Hes Ha Hne. unfold parse_source_map. destruct fss as [|fs fss]; [done|].
  apply String.eqb_neq in Hne as ->.
  assert (Hd : entry_ok entry_default) by (split; unfold in_u64, u64_max, isize_min, isize_max; simpl; done || lia).
  destruct (read_segments_abbreviated entry_default es (fs :: fss) Hd Hes Ha) as [Hr HF].
  by rewrite (split_on_concat ";") by done.
Qed.

Lemma source_map_roundtrip_witness :
  parse_source_map "7:3:-1:i:2;;:9::o" =
    [mkEntry 7 3 (-1) "i" 2; mkEntry 7 3 (-1) "i" 2; mkEntry 7 9 (-1) "o" 2].
Proof.
  apply (source_map_roundtrip [mkEntry 7 3 (-1) "i" 2; mkEntry 7 3 (-1) "i" 2; mkEntry 7 9 (-1) "o" 2]
    [["7"; "3"; "-1"; "i"; "2"]; [""]; [""; "9"; ""; "o"]]).
  - repeat constructor; unfold in_u64, u64_max, isize_min, isize_max; simpl; done || lia.
  - repeat split; try done; simpl; try lia;
      intros [|[|[|[|[|i]]]]] t; cbn; intros [= <-]; auto.
  - done.
Defined.

(** ** The instructions of a code *)

(** The k-th instruction of the code starts at this program counter. *)
Inductive starts (code : Bytes) : nat -> nat -> Prop :=
| starts_first op : code !! 0%nat = Some op -> starts code 0 0
| starts_next k pc op op' :
    starts code k pc -> code !! pc = Some op -> code !! (pc + 1 + push_size op)%nat = Some op' ->
    starts code (S k) (pc + 1 + push_size op).

Lemma starts_lookup code k pc : starts code k pc -> is_Some (code !! pc).
Proof. destruct 1; eauto. Qed.

Lemma starts_ge code k pc : starts code k pc -> (k <= pc)%nat.
Proof. induction 1; lia. Qed.

Lemma starts_fun code k pc pc' : starts code k pc -> starts code k pc' -> pc = pc'.
Proof.
  intros Hs. revert pc'. induction Hs as [|k pc op op' Hs IH Hop Hop']; intros pc2 Hs2;
    inversion Hs2 as [|? pc3 op3 ? Hs3 Hop3]; subst; [done|].
  assert (pc = pc3) as -> by auto. by simplify_eq.
Qed.

Lemma starts_mono code k k' pc pc' : starts code k pc -> starts code k' pc' -> (k < k')%nat -> (pc < pc')%nat.
Proof.
  intros Hs Hs'. revert k pc Hs. induction Hs' as [|k' pc' op op' Hs' IH Hop Hop']; intros k pc Hs Hk; [lia|].
  destruct (decide (k = k')) as [->|Hne]; [|specialize (IH k pc Hs ltac:(lia)); lia].
  rewrite (starts_fun _ _ _ _ Hs Hs'). lia.
Qed.

Lemma starts_inj code k k' pc : starts code k pc -> starts code k' pc -> k = k'.
Proof.
  intros H1 H2. destruct (Nat.lt_trichotomy k k') as [Hlt|[->|Hlt]]; [|done|].
  - pose proof (starts_mono _ _ _ _ _ H1 H2 Hlt). lia.
  - pose proof (starts_mono _ _ _ _ _ H2 H1 Hlt). lia.
Qed.

(** The instruction after which the code ends is the last one. *)
Lemma starts_last code k pc op j p :
  starts code k pc -> code !! pc = Some op -> code !! (pc + 1 + push_size op)%nat = None ->
  starts code j p -> (j <= k)%nat.
Proof.
  intros Hs Hop Hend Hj. induction Hj as [|j p o o' Hj IH Ho Ho']; [lia|].
  destruct (decide (j = k)) as [->|]; [|lia]. rewrite (starts_fun _ _ _ _ Hj Hs) in *. by simplify_eq.
Qed.

Section Walk.
Context (code : Bytes) (sm : list SourceMapEntry).

(** The entries of the first k instructions are written. *)
Definition written (k : nat) (result : list (option SourceMapEntry)) : Prop :=
  length result = length code /\
  forall pc e, result !! pc = Some (Some e) <-> exists j, (j < k)%nat /\ starts code j pc /\ sm !! j = Some e.

Lemma written_step k pc result :
  starts code k pc -> written k result ->
  written (S k) match sm !! k with Some e => <[pc := Some e]> result | None => result end.
Proof.
  intros Hs [Hl Hw]. destruct (starts_lookup _ _ _ Hs) as [op Hop].
  assert (Hpc : (pc < length result)%nat) by (rewrite Hl; by eapply lookup_lt_Some).
  split; [destruct (sm !! k); rewrite ?length_insert; done|]. intros pc' e.
  assert (Hsplit : (exists j, (j < S k)%nat /\ starts code j pc' /\ sm !! j = Some e) <->
    (pc' = pc /\ sm !! k = Some e) \/ result !! pc' = Some (Some e)).
  { rewrite Hw. split.
    - intros (j & Hj & Hsj & Ej). destruct (decide (j = k)) as [->|]; [left|right; exists j; split; [lia|done]].
      split; [by eapply starts_fun|done].
    - intros [[-> Ek]|(j & Hj & ?)]; [by exists k; split; [lia|]|exists j; split; [lia|done]]. }
  rewrite Hsplit. destruct (sm !! k) as [e'|] eqn:Ek; [|naive_solver].
  destruct (decide (pc' = pc)) as [->|Hne]; [rewrite list_lookup_insert_eq by done|rewrite list_lookup_insert_ne by done; naive_solver].
  split; [naive_solver|]. intros [[_ ?]|Hr]; [congruence|]. apply Hw in Hr as (j & Hj & Hsj & _).
  pose proof (starts_inj _ _ _ _ Hsj Hs). lia.
Qed.

Lemma pc_loop_written fuel k pc result :
  (length code <= pc + fuel)%nat -> written k result ->
  (starts code k pc \/ (code !! pc = None /\ forall j p, starts code j p -> (j < k)%nat)) ->
  exists n, written n (pc_loop fuel code sm pc k result) /\ forall j p, starts code j p -> (j < n)%nat.
Proof.
  revert k pc result. induction fuel as [|fuel IH]; intros k pc result Hf Hw Hs.
  - exists k. split; [done|]. destruct Hs as [Hs|[_ Hs]]; [|done]. apply starts_lookup in Hs as [op Hop].
    apply lookup_lt_Some in Hop. lia.
  - cbn [pc_loop]. destruct Hs as [Hs|[Hnone Hs]]; [|rewrite Hnone; by exists k].
    destruct (starts_lookup _ _ _ Hs) as [op Hop]. rewrite Hop. apply IH; [lia|by apply written_step|].
    destruct (code !! (pc + 1 + push_size op)%nat) as [op'|] eqn:En; [left; by econstructor|right].
    split; [done|]. intros j p Hj. pose proof (starts_last _ _ _ _ _ _ Hs Hop En Hj). lia.
Qed.
End Walk.

(** The table of a code has one cell per byte: the cell where the k-th
    instruction starts holds the k-th entry of the source map, and every other
    cell, those of push data among them, holds none. *)
Theorem pc_table_spec code sm :
  length (build_pc_to_source_map code sm) = length code /\
  forall pc e, build_pc_to_source_map code sm !! pc = Some (Some e) <->
    exists k, starts code k pc /\ sm !! k = Some e.
Proof.
  unfold build_pc_to_source_map. set (init := replicate (length code) None).
  assert (Hw : written code sm 0 init).
  { split; [apply length_replicate|]. intros pc e. split; [|intros (j & ? & _); lia].
    intros Hr. apply lookup_replicate in Hr as [? _]. done. }
  destruct (pc_loop_written code sm (length code) 0 0 init) as (n & [Hl Hn] & Hall); [lia|done| |].
  - destruct code as [|op code]; [right|left; by econstructor]. split; [done|].
    intros j p Hj. apply starts_lookup in Hj as [? ?]. done.
  - split; [done|]. intros pc e. rewrite Hn. split; [intros (j & _ & ?); eauto|].
    intros (k & Hk & Ek). exists k. split; [by eapply Hall|done].
Qed.

(** ** Lines of a source *)
Lemma newlines_nonneg s : 0 <= newlines s.
Proof. induction s as [|a s IH]; simpl; [lia|]. destruct (Ascii.eqb a NEWLINE); lia. Qed.

Lemma newlines_take_mono n m s : (n <= m)%nat -> newlines (str_take n s) <= newlines (str_take m s).
Proof.
  revert n m. induction s as [|a s IH]; intros [|n] [|m] Hnm; simpl; try lia.
  - pose proof (newlines_nonneg (str_take m s)). destruct (Ascii.eqb a NEWLINE); lia.
  - specialize (IH n m ltac:(lia)). destruct (Ascii.eqb a NEWLINE); lia.
Qed.

Lemma str_take_all n s : (String.length s <= n)%nat -> str_take n s = s.
Proof.
  revert n. induction s as [|a s IH]; intros [|n] Hn; simpl in *; try done; [lia|]. by rewrite IH by lia.
Qed.

(** Before a last newline there is one newline less. *)
Lemma str_take_app a b : str_take (String.length a) (a +:+ b) = a.
Proof. induction a as [|x a IH]; [by destruct b|]. exact (f_equal (String x) IH). Qed.

Lemma str_drop_app a b : str_drop (String.length a) (a +:+ b) = b.
Proof. induction a as [|x a IH]; [by destruct b|exact IH]. Qed.

Lemma newlines_take_last n s :
  ends_with_char NEWLINE s = true -> (n < String.length s)%nat -> newlines (str_take n s) + 1 <= newlines s.
Proof.
  revert n. induction s as [|a s IH]; intros n He Hn; [done|].
  destruct s as [|b s].
  - simpl in He. simpl in Hn. assert (n = 0%nat) as -> by lia. simpl. rewrite He. lia.
  - assert (He' : ends_with_char NEWLINE (String b s) = true) by exact He.
    destruct n as [|n].
    + specialize (IH 0%nat He' ltac:(simpl; lia)). cbn [str_take newlines] in *. destruct (Ascii.eqb a NEWLINE); lia.
    + specialize (IH n He' ltac:(simpl in *; lia)). cbn [str_take newlines] in *. destruct (Ascii.eqb a NEWLINE); lia.
Qed.

Lemma ends_with_newline_pos s : ends_with_char NEWLINE s = true -> 1 <= newlines s.
Proof.
  intros He. assert (Hl : (0 < String.length s)%nat) by (by destruct s; simpl in *; [|lia]).
  pose proof (newlines_take_last 0 s He Hl). destruct s; simpl in *; lia.
Qed.

Lemma split_newline_length s : Z.of_nat (length (split_on NEWLINE s)) = newlines s + 1.
Proof.
  induction s as [|a s IH]; [done|]. cbn [split_on newlines]. pose proof (newlines_nonneg s).
  destruct (Ascii.eqb a NEWLINE); [cbn [length]; lia|]. destruct (split_on NEWLINE s); cbn [length] in *; lia.
Qed.

Lemma line_ends_length l :
  length (line_ends l) = (length l - (if bool_decide (last l = Some "") then 1 else 0))%nat.
Proof.
  induction l as [|s l IH]; [done|]. destruct l as [|t l].
  - simpl. destruct (String.eqb_spec s "") as [->|]; [done|]. rewrite bool_decide_false by congruence. done.
  - change (line_ends (s :: t :: l)) with (strip_cr s :: line_ends (t :: l)). cbn [length]. rewrite IH.
    change (last (s :: t :: l)) with (last (t :: l)). case_bool_decide; simpl; lia.
Qed.

Lemma last_split_empty s :
  last (split_on NEWLINE s) = Some "" <-> s = "" \/ ends_with_char NEWLINE s = true.
Proof.
  induction s as [|a s IH]; [split; [by left|done]|]. cbn [split_on].
  destruct s as [|b s].
  - cbn. destruct (Ascii.eqb a NEWLINE); cbn; naive_solver.
  - change (ends_with_char NEWLINE (String a (String b s))) with (ends_with_char NEWLINE (String b s)).
    assert (Hb : String b s <> "") by done. set (t := String b s) in *. clearbody t.
    pose proof (split_newline_length t) as Hlen.
    assert (Hne : split_on NEWLINE t <> []).
    { intros E. rewrite E in Hlen. pose proof (newlines_nonneg t). simpl in Hlen. lia. }
    destruct (Ascii.eqb a NEWLINE).
    + destruct (split_on NEWLINE t) as [|h l]; [done|]. change (last ("" :: h :: l)) with (last (h :: l)). naive_solver.
    + destruct (split_on NEWLINE t) as [|h l]; [done|]. destruct l as [|x l].
      * split; [intros E; injection E as E; discriminate E|]. intros [?|He]; [done|].
        apply ends_with_newline_pos in He. simpl in Hlen. lia.
      * change (last (String a h :: x :: l)) with (last (x :: l)). change (last (h :: x :: l)) with (last (x :: l)) in IH. naive_solver.
Qed.

Lemma lines_count s :
  s <> "" -> Z.of_nat (length (lines s)) = newlines s + (if ends_with_char NEWLINE s then 0 else 1).
Proof.
  intros Hne. unfold lines. rewrite line_ends_length. pose proof (split_newline_length s) as Hl.
  pose proof (newlines_nonneg s). destruct (ends_with_char NEWLINE s) eqn:E.
  - rewrite bool_decide_true by (apply last_split_empty; by right). lia.
  - rewrite bool_decide_false; [lia|]. rewrite last_split_empty, E. naive_solver.
Qed.

Lemma offset_to_line_value content o :
  0 <= o -> offset_to_line content o =
    if o <? str_len content then newlines (str_take (Z.to_nat o) content) + 1
    else newlines content + (if ends_with_char NEWLINE content then 0 else 1).
Proof.
  intros Hpos. unfold offset_to_line, sat_sub. cbv zeta. destruct (Z.ltb_spec o (str_len content)).
  - rewrite Z.min_l by lia. destruct (Z.eqb_spec o (str_len content)); [lia|done].
  - rewrite Z.min_r by lia. rewrite Z.eqb_refl. unfold str_len. rewrite Nat2Z.id, str_take_all by lia.
    destruct (ends_with_char NEWLINE content) eqn:E; simpl; [pose proof (ends_with_newline_pos _ E)|]; lia.
Qed.

Lemma newlines_before content o :
  0 <= o < str_len content -> newlines (str_take (Z.to_nat o) content) + 1 <=
    newlines content + (if ends_with_char NEWLINE content then 0 else 1).
Proof.
  intros Hlt. unfold str_len in Hlt. destruct (ends_with_char NEWLINE content) eqn:E.
  - rewrite Z.add_0_r. apply newlines_take_last; [done|]. lia.
  - pose proof (newlines_take_mono (Z.to_nat o) (String.length content) content) as Hm.
    rewrite (str_take_all (String.length content)) in Hm by done. lia.
Qed.

Lemma offset_to_line_bounds content o :
  content <> "" -> 1 <= offset_to_line content o <= Z.of_nat (length (lines content)).
Proof.
  intros Hne. rewrite lines_count by done. destruct (Z.ltb_spec o 0) as [Hneg|Ho].
  { assert (Hlen : 1 <= str_len content) by (unfold str_len; destruct content; [done|simpl; lia]).
    pose proof (newlines_before content 0 ltac:(lia)) as Hb. simpl in Hb. unfold offset_to_line. cbv zeta.
    rewrite Z.min_l by lia. destruct (Z.eqb_spec o (str_len content)); [lia|]. cbn [andb].
    replace (Z.to_nat o) with 0%nat by lia. simpl. lia. }
  rewrite offset_to_line_value by done. pose proof (newlines_nonneg content).
  destruct (Z.ltb_spec o (str_len content)).
  - pose proof (newlines_before content o ltac:(lia)). pose proof (newlines_nonneg (str_take (Z.to_nat o) content)). lia.
  - destruct (ends_with_char NEWLINE content) eqn:E; [pose proof (ends_with_newline_pos _ E)|]; lia.
Qed.

(** Every offset of a source, and every offset past its end, falls on one
    of its lines, numbered from one; the lines of the offsets are in order;
    and a byte of the source is on the line that the newlines before it give. *)
Theorem offset_lines content offset offset' :
  content <> "" -> 0 <= offset <= offset' ->
  1 <= offset_to_line content offset <= Z.of_nat (length (lines content)) /\
  offset_to_line content offset <= offset_to_line content offset' /\
  (offset < str_len content ->
     offset_to_line content offset = newlines (str_take (Z.to_nat offset) content) + 1).
Proof.
  intros Hne Ho. split; [by apply offset_to_line_bounds|]. rewrite !offset_to_line_value by lia.
  destruct (Z.ltb_spec offset (str_len content)).
  - split; [|done]. pose proof (newlines_before content offset ltac:(lia)). destruct (Z.ltb_spec offset' (str_len content)); [|lia].
    pose proof (newlines_take_mono (Z.to_nat offset) (Z.to_nat offset') content). lia.
  - destruct (Z.ltb_spec offset' (str_len content)); lia.
Qed.

Lemma offset_lines_witness :
  let source := String "a" (String NEWLINE (String "b" (String NEWLINE ""))) in
  1 <= offset_to_line source 2 <= 2 /\ offset_to_line source 2 <= offset_to_line source 9.
Proof.
  intros source. destruct (offset_lines source 2 9) as (Hb & Hm & _); [discriminate|lia|]. split; [exact Hb|exact Hm].
Defined.
