(* ===== verification/BytecodeIndex.v ===== *)
(** * BytecodeIndex: which contract a code is

    Models the bytecode half of [evm/coverage/reporter.rs]: the code of a
    compiled contract with its placeholders, the masks of what differs between
    deployments, and the index that finds the contract of a deployed code. The
    index works in one buffer that it restores after each candidate; it finds
    what a search with a fresh copy per candidate would. *)
From S2P Require Import Prelude.
From S2P Require Import Env.
From S2P Require Import Compare.
From S2P Require Import SolcOutput.

Definition collect_link_positions (refs : LinkReferences) : list Position :=
  refs ≫= fun '(_, libs) => libs ≫= fun '(_, ps) => ps.

Definition bytes_of (p : Position) : list nat := seq (start p) (size p).

(** Positions past the end of the buffer are skipped. *)
Definition zero_position (buf : Bytes) (p : Position) : Bytes :=
  foldl (fun b i => <[i := 0]> b) buf (bytes_of p).
Definition zero_out_positions (buf : Bytes) (ps : list Position) : Bytes := foldl zero_position buf ps.

(** [hex[a..b]]: out of range or out of order it panics. *)
Definition slice (hex : list ascii) (a b : nat) : Res (list ascii) :=
  if (a <=? b)%nat && (b <=? length hex)%nat then Ok (take (b - a) (drop a hex))
  else Panic "slice index out of range".

Fixpoint clean (hex : list ascii) (last_end : nat) (ps : list (nat * nat)) : Res (list ascii) :=
  match ps with
  | [] => slice hex last_end (length hex)
  | (s, len) :: rest =>
      gap ← slice hex last_end s;
      tail ← clean hex (s + len) rest;
      mret (gap ++ replicate (len / 2 * 2) "0"%char ++ tail)
  end.

Definition by_start (p q : nat * nat) : comparison := Nat.compare p.1 q.1.
Definition hex_positions (refs : LinkReferences) : list (nat * nat) :=
  sort_by by_start (map (fun p => (start p * 2, size p * 2)%nat) (collect_link_positions refs)).

Section Placeholders.
Context `{Text}.
Definition parse_bytecode_with_placeholders (object : string) (refs : LinkReferences) : Res Bytes :=
  let hex := String.list_ascii_of_string (default object (strip_prefix "0x" object)) in
  cleaned ← clean hex 0 (hex_positions refs);
  mret (default [] (ok (hex_decode (String.string_of_list_ascii cleaned)))).
End Placeholders.

Definition bytecode_object (b : Bytecode) : string := default "" (object b).
Definition bytecode_source_map (b : Bytecode) : string := default "" (source_map b).
Definition bytecode_link_refs (b : Bytecode) : LinkReferences := default [] (link_references b).

Record CompiledContract : Type := mkCompiled {
  cc_path : string;
  cc_name : string;
  cc_bytecode : option Bytecode;
  cc_deployed : option Bytecode;
  cc_is_library : bool;
}.

Record BytecodeIndexEntry : Type := mkIndexEntry {
  contract_idx : nat;
  entry_hash : U256;
  positions : list Position;
  entry_is_initcode : bool;
  code_len : nat;
}.

Record BytecodeIndex : Type := mkIndex {
  entries : list BytecodeIndexEntry;
  entries_by_len : gmap nat (list nat);
}.

(** [keccak256] of a code. *)
Class KeccakCode : Type := { keccak_code : Bytes -> U256 }.

Section Index.
Context `{Text} `{KeccakCode}.

Definition index_entry (idx : nat) (init : bool) (code : Bytes) (ps : list Position) : option BytecodeIndexEntry :=
  if bool_decide (code = []) then None
  else Some (mkIndexEntry idx (keccak_code (zero_out_positions code ps)) ps init (length code)).

(** The links, the immutables, and the address that a library's code starts
    with. *)
Definition deployed_positions (c : CompiledContract) (deployed : Bytecode) (code : Bytes) : list Position :=
  collect_link_positions (bytecode_link_refs deployed) ++
  (default [] (immutable_references deployed) ≫= snd) ++
  (if cc_is_library c && bool_decide (head code = Some 115) then [mkPosition 1 20] else []).

Definition deployed_index_entry (idx : nat) (c : CompiledContract) : Res (option BytecodeIndexEntry) :=
  match cc_deployed c with
  | None => Ok None
  | Some deployed =>
      code ← parse_bytecode_with_placeholders (bytecode_object deployed) (bytecode_link_refs deployed);
      mret (index_entry idx false code (deployed_positions c deployed code))
  end.

Definition initcode_index_entry (idx : nat) (c : CompiledContract) : Res (option BytecodeIndexEntry) :=
  match cc_bytecode c with
  | None => Ok None
  | Some b =>
      code ← parse_bytecode_with_placeholders (bytecode_object b) (bytecode_link_refs b);
      mret (index_entry idx true code (collect_link_positions (bytecode_link_refs b)))
  end.

(** The entries of one contract, the deployed code first. *)
Definition contract_entries (ic : nat * CompiledContract) : Res (list BytecodeIndexEntry) :=
  d ← deployed_index_entry ic.1 ic.2;
  i ← initcode_index_entry ic.1 ic.2;
  mret (option_list d ++ option_list i).

Definition enumerate {A} (l : list A) : list (nat * A) := imap (fun i a => (i, a)) l.

Definition push_len (m : gmap nat (list nat)) (ie : nat * BytecodeIndexEntry) : gmap nat (list nat) :=
  <[code_len ie.2 := default [] (m !! code_len ie.2) ++ [ie.1]]> m.
Definition index_of (es : list BytecodeIndexEntry) : BytecodeIndex :=
  mkIndex es (foldl push_len ∅ (enumerate es)).

Definition index_new (contracts : list CompiledContract) : Res BytecodeIndex :=
  es ← mapRes contract_entries (enumerate contracts);
  mret (index_of (concat es)).

(** The bytes of the candidate's positions come back from the code. *)
Definition restore_byte (raw : Bytes) (masked : Bytes) (i : nat) : Bytes :=
  match raw !! i with Some b => <[i := b]> masked | None => masked end.
Definition restore_positions (raw masked : Bytes) (ps : list Position) : Bytes :=
  foldl (fun m p => foldl (restore_byte raw) m (bytes_of p)) masked ps.

Fixpoint try_candidates (es : list BytecodeIndexEntry) (raw masked : Bytes) (candidates : list nat)
    : Res (option (nat * bool)) :=
  match candidates with
  | [] => Ok None
  | idx :: rest =>
      e ← vec_index es idx;
      let masked := zero_out_positions masked (positions e) in
      if keccak_code masked =? entry_hash e then Ok (Some (contract_idx e, entry_is_initcode e))
      else try_candidates es raw (restore_positions raw masked (positions e)) rest
  end.

Definition find_code (x : BytecodeIndex) (raw : Bytes) : Res (option (nat * bool)) :=
  match entries_by_len x !! length raw with
  | None => Ok None
  | Some candidates => try_candidates (entries x) raw raw candidates
  end.
End Index.

(** ** Masks *)
Definition covers (ps : list Position) (i : nat) : bool :=
  existsb (fun p => (start p <=? i)%nat && (i <? start p + size p)%nat) ps.

Lemma bytes_of_elem p i : i ∈ bytes_of p <-> (start p <=? i)%nat && (i <? start p + size p)%nat = true.
Proof.
  unfold bytes_of. rewrite elem_of_seq, andb_true_iff, Nat.leb_le, Nat.ltb_lt. done.
Qed.

(** Writing [f i] at every index of a list. *)
Lemma foldl_insert_lookup (f : nat -> option Z) (js : list nat) (buf : list Z) i :
  foldl (fun b j => match f j with Some x => <[j := x]> b | None => b end) buf js !! i =
    if bool_decide (i ∈ js) then match buf !! i with Some old => Some (default old (f i)) | None => None end
    else buf !! i.
Proof.
  revert buf. induction js as [|j js IH]; intros buf; cbn [foldl]; [by rewrite bool_decide_false by set_solver|].
  rewrite IH. destruct (decide (i = j)) as [->|Hne].
  - rewrite (bool_decide_true (j ∈ j :: js)) by set_solver. destruct (f j) as [x|] eqn:Ef.
    + destruct (buf !! j) as [old|] eqn:Eb.
      * rewrite list_lookup_insert_eq by (by eapply lookup_lt_Some). simpl. by case_bool_decide.
      * apply lookup_ge_None in Eb. rewrite list_insert_ge by done. rewrite (proj2 (lookup_ge_None buf j)) by done.
        by case_bool_decide.
    + destruct (buf !! j); simpl; by case_bool_decide.
  - assert (Hl : match f j with Some x => <[j := x]> buf | None => buf end !! i = buf !! i)
      by (destruct (f j); [by rewrite list_lookup_insert_ne by done|done]).
    rewrite Hl. destruct (decide (i ∈ js)) as [Hin|Hin].
    + by rewrite !bool_decide_true by set_solver.
    + by rewrite !bool_decide_false by set_solver.
Qed.

Lemma foldl_insert_length (f : nat -> option Z) (js : list nat) (buf : list Z) :
  length (foldl (fun b j => match f j with Some x => <[j := x]> b | None => b end) buf js) = length buf.
Proof.
  revert buf. induction js as [|j js IH]; intros buf; simpl; [done|]. rewrite IH.
  destruct (f j); [apply length_insert|done].
Qed.

Lemma zero_out_lookup ps (buf : list Z) i :
  zero_out_positions buf ps !! i = if covers ps i then (fun _ => 0) <$> buf !! i else buf !! i.
Proof.
  revert buf. induction ps as [|p ps IH]; intros buf; simpl; [done|].
  rewrite IH. unfold zero_position. rewrite (foldl_insert_lookup (fun _ => Some 0)).
  destruct (decide (i ∈ bytes_of p)) as [Hin|Hin].
  - rewrite bool_decide_true by done. apply bytes_of_elem in Hin as ->. simpl. by destruct (buf !! i), (covers ps i).
  - rewrite bool_decide_false by done. rewrite bytes_of_elem in Hin. apply not_true_is_false in Hin as ->. done.
Qed.

Lemma restore_lookup (raw : list Z) ps (masked : list Z) i :
  length masked = length raw ->
  restore_positions raw masked ps !! i = if covers ps i then raw !! i else masked !! i.
Proof.
  unfold restore_positions. revert masked. induction ps as [|p ps IH]; intros masked Hl; simpl; [done|].
  assert (Hlook : forall k, foldl (restore_byte raw) masked (bytes_of p) !! k =
    if bool_decide (k ∈ bytes_of p) then raw !! k else masked !! k).
  { intros k. unfold restore_byte. rewrite (foldl_insert_lookup (fun j => raw !! j)). case_bool_decide; [|done].
    destruct (masked !! k) eqn:Em, (raw !! k) eqn:Er; simpl; try done.
    - apply lookup_lt_Some in Em. apply lookup_ge_None in Er. lia.
    - apply lookup_lt_Some in Er. apply lookup_ge_None in Em. lia. }
  rewrite IH by (rewrite <- Hl; exact (foldl_insert_length (fun j => raw !! j) (bytes_of p) masked)). rewrite Hlook.
  destruct (decide (i ∈ bytes_of p)) as [Hin|Hin].
  - rewrite bool_decide_true by done. apply bytes_of_elem in Hin as ->. simpl. by destruct (covers ps i).
  - rewrite bool_decide_false by done. rewrite bytes_of_elem in Hin. apply not_true_is_false in Hin as ->. done.
Qed.

Lemma zero_out_length ps (buf : list Z) : length (zero_out_positions buf ps) = length buf.
Proof.
  unfold zero_out_positions. revert buf. induction ps as [|p ps IH]; intros buf; simpl; [done|].
  rewrite IH. unfold zero_position. apply (foldl_insert_length (fun _ => Some 0)).
Qed.

(** The buffer is the code again. *)
Lemma restore_zero_out (raw : list Z) ps : restore_positions raw (zero_out_positions raw ps) ps = raw.
Proof.
  apply list_eq. intros i. rewrite restore_lookup by apply zero_out_length. rewrite zero_out_lookup.
  by destruct (covers ps i).
Qed.

(** Codes that differ in masked bytes only have one mask. *)
Lemma zero_out_agree ps (a b : list Z) :
  length a = length b -> (forall i, covers ps i = false -> a !! i = b !! i) ->
  zero_out_positions a ps = zero_out_positions b ps.
Proof.
  intros Hl Hab. apply list_eq. intros i. rewrite !zero_out_lookup. destruct (covers ps i) eqn:E; [|by apply Hab].
  destruct (a !! i) eqn:Ea, (b !! i) eqn:Eb; simpl; try done.
  - apply lookup_lt_Some in Ea. apply lookup_ge_None in Eb. lia.
  - apply lookup_lt_Some in Eb. apply lookup_ge_None in Ea. lia.
Qed.

(** ** The index *)
Section Search.
Context `{KeccakCode}.

(** The search without the index: the first entry of the right length whose
    masked code has its hash. *)
Definition is_code_of (raw : Bytes) (e : BytecodeIndexEntry) : bool :=
  (code_len e =? length raw)%nat && (keccak_code (zero_out_positions raw (positions e)) =? entry_hash e).

Definition search (raw : Bytes) (es : list BytecodeIndexEntry) : option (nat * bool) :=
  (fun e => (contract_idx e, entry_is_initcode e)) <$> find (is_code_of raw) es.

Lemma push_len_lookup es n m len :
  foldl push_len m (imap (fun i e => ((n + i)%nat, e)) es) !! len =
    match filter (fun ie => code_len ie.2 = len) (imap (fun i e => ((n + i)%nat, e)) es) with
    | [] => m !! len
    | ies => Some (default [] (m !! len) ++ ies.*1)
    end.
Proof.
  revert n m. induction es as [|e es IH]; intros n m; [done|]. simpl.
  assert (Hsh : imap ((fun i (x : BytecodeIndexEntry) => ((n + i)%nat, x)) ∘ S) es = imap (fun i x => ((S n + i)%nat, x)) es)
    by (apply imap_ext; intros i x _; simpl; f_equal; lia).
  rewrite Hsh, IH, filter_cons. unfold push_len. simpl. rewrite Nat.add_0_r.
  case_decide as Hd.
  - subst len. rewrite lookup_insert_eq. simpl.
    match goal with |- context [@filter ?A ?B ?F ?P ?D ?L] => destruct (@filter A B F P D L) end; simpl; [done|].
    unfold default, from_option, id. by rewrite <- app_assoc.
  - rewrite lookup_insert_ne by done. done.
Qed.

Lemma try_candidates_search es raw (ies : list (nat * BytecodeIndexEntry)) :
  Forall (fun ie => es !! ie.1 = Some ie.2) ies ->
  try_candidates es raw raw ies.*1 =
    Ok ((fun e => (contract_idx e, entry_is_initcode e)) <$>
        find (fun e => keccak_code (zero_out_positions raw (positions e)) =? entry_hash e) ies.*2).
Proof.
  induction 1 as [|[i e] ies Hie _ IH]; [done|]. cbn [fmap list_fmap fst snd] in *. cbn [try_candidates find].
  unfold vec_index. rewrite Hie. cbn [mbind Res_bind].
  destruct (keccak_code (zero_out_positions raw (positions e)) =? entry_hash e); [done|].
  rewrite restore_zero_out. exact IH.
Qed.

Lemma filter_snd {A} (P : A -> Prop) `{forall x, Decision (P x)} (l : list (nat * A)) :
  (filter (fun ie => P ie.2) l).*2 = filter P l.*2.
Proof.
  induction l as [|[i x] l IH]; [done|]. rewrite filter_cons. cbn [fmap list_fmap snd]. rewrite filter_cons.
  destruct (decide (P x)); cbn; by rewrite IH.
Qed.

(** C29: The index finds, without a panic, exactly what a search of all its
    entries finds, each compared with a fresh copy of the code. In particular
    a code that differs from a compiled one in its placeholders, immutables
    and library address only is always found. *)
Theorem index_finds es raw :
  find_code (index_of es) raw = Ok (search raw es) /\
  forall e code, e ∈ es -> code_len e = length code -> entry_hash e = keccak_code (zero_out_positions code (positions e)) ->
    length raw = length code -> (forall i, covers (positions e) i = false -> raw !! i = code !! i) ->
    exists found, search raw es = Some found.
Proof.
  split.
  - unfold find_code, index_of, enumerate, search. cbn [entries_by_len entries].
    pose proof (push_len_lookup es 0 ∅ (length raw)) as Hl. cbn [Nat.add] in Hl. rewrite Hl, lookup_empty. clear Hl.
    assert (Hf : find (is_code_of raw) es = find (fun e => keccak_code (zero_out_positions raw (positions e)) =? entry_hash e)
      (filter (fun ie => code_len ie.2 = length raw) (imap (fun i e => (i, e)) es)).*2).
    { unfold is_code_of. rewrite (find_filter (fun e => (code_len e =? length raw)%nat)). f_equal.
      replace es with (imap (fun i e => (i, e)) es).*2 at 1
        by (rewrite fmap_imap; etrans; [exact (imap_const id es)|apply list_fmap_id]).
      rewrite <- (filter_snd (fun e => (code_len e =? length raw)%nat = true)). f_equal.
      apply list_filter_iff. intros ie. apply Nat.eqb_eq. }
    rewrite Hf. set (ies := filter _ _).
    assert (Hies : Forall (fun ie => es !! ie.1 = Some ie.2) ies).
    { apply Forall_forall. intros [i e] [_ Hin]%list_elem_of_filter. apply elem_of_lookup_imap_1 in Hin as (j & y & [= -> ->] & Hj).
      done. }
    pose proof (try_candidates_search es raw ies Hies) as Ht. clearbody ies. destruct ies; [done|exact Ht].
  - intros e code Hin Hlen Hhash Hl Hag. unfold search.
    destruct (find (is_code_of raw) es) as [e'|] eqn:Ef; [eexists; reflexivity|exfalso].
    assert (Hnone := find_none _ _ Ef e (proj1 (list_elem_of_In _ _) Hin)). unfold is_code_of in Hnone.
    rewrite (zero_out_agree _ raw code), Hhash, Hlen, Hl, Nat.eqb_refl, Z.eqb_refl in Hnone by done. done.
Qed.
End Search.

(** Two codes of one length, the first a library whose address fills bytes 1
    and 2; the hash of a code is its sum. *)
Definition sum_code : KeccakCode := {| keccak_code := foldr Z.add 0 |}.
Definition two_codes : list BytecodeIndexEntry :=
  [mkIndexEntry 4 115 [mkPosition 1 2] false 4; mkIndexEntry 5 9 [mkPosition 3 1] true 4].

Lemma index_finds_witness :
  @find_code sum_code (index_of two_codes) [2; 3; 4; 200] = Ok (Some (5%nat, true)) /\
  exists found, @search sum_code [115; 77; 78; 0] two_codes = Some found.
Proof.
  split.
  - rewrite (proj1 (@index_finds sum_code two_codes [2; 3; 4; 200])). reflexivity.
  - apply (proj2 (@index_finds sum_code two_codes [115; 77; 78; 0]) (mkIndexEntry 4 115 [mkPosition 1 2] false 4) [115; 0; 0; 0]);
      [left|reflexivity|reflexivity|reflexivity|].
    intros [|[|[|[|i]]]] Hc; solve [reflexivity|discriminate Hc].
Defined.
