(* ===== verification/CoverageReport.v ===== *)
(** * CoverageReport: from hit counters to a line report

    Models [CoverageReporter::build] and the report of
    [evm/coverage/reporter.rs]. The syntax trees are data of the compiler's
    crate, with the fields the reporter reads; [read_file] is
    [fs::read_to_string] with its error dropped. A map keyed by a path is keyed
    by the path's components. A line of a report is a line of its source; a
    line that starts no function is hit exactly when a counted program counter
    of a code of the campaign is mapped to it. *)
From stdpp Require Import sorting.
From S2P Require Import Prelude.
From S2P Require Import Env.
From S2P Require Import Paths.
From S2P Require Import Compare.
From S2P Require Import Coverage.
From S2P Require Import SolcOutput.
From S2P Require Import SourceMap.
From S2P Require Import BytecodeIndex.

(** ** The syntax tree, as far as it is read *)
Record Src : Type := mkSrc { src_offset : Z; src_length : Z; src_source_index : Z }.

Inductive FunctionKind : Type := KConstructor | KFallback | KReceive | KFunction | KFreeFunction.
#[export] Instance FunctionKind_eq_dec : EqDecision FunctionKind.
Proof. solve_decision. Defined.

Record FunctionDefinition : Type := mkFunDef {
  fd_name : string;
  fd_kind : option FunctionKind;
  fd_src : Src;
  fd_has_body : bool;
}.

Inductive ContractNode : Type := CFunction (f : FunctionDefinition) | COther.
Inductive ContractKind : Type := KContract | KInterface | KLibrary.
#[export] Instance ContractKind_eq_dec : EqDecision ContractKind.
Proof. solve_decision. Defined.

Record ContractDefinition : Type := mkContractDef {
  cd_name : string;
  cd_kind : ContractKind;
  cd_src : Src;
  cd_nodes : list ContractNode;
}.

Inductive UnitNode : Type := UFunction (f : FunctionDefinition) | UContract (c : ContractDefinition) | UOther.
Definition SourceUnit : Type := list UnitNode.
Record Source : Type := mkSource { source_id : Z; ast : option SourceUnit }.

Definition unit_functions (u : SourceUnit) : list FunctionDefinition :=
  u ≫= fun n => match n with
                | UFunction f => [f]
                | UContract c => cd_nodes c ≫= fun m => match m with CFunction f => [f] | COther => [] end
                | UOther => []
                end.
Definition unit_contracts (u : SourceUnit) : list ContractDefinition :=
  u ≫= fun n => match n with UContract c => [c] | _ => [] end.

Definition is_library (u : SourceUnit) (n : string) : bool :=
  existsb (fun node => match node with
                       | UContract c => String.eqb (cd_name c) n && bool_decide (cd_kind c = KLibrary)
                       | _ => false
                       end) u.

(** ** The report *)
Record FunctionCoverage : Type := mkFunctionCoverage { fc_name : string; fc_line : Z; fc_hits : Z }.
Record FileCoverage : Type := mkFileCoverage {
  fc_path : string;
  line_hits : gmap Z Z;
  fc_functions : list FunctionCoverage;
}.
Definition CoverageReport : Type := list FileCoverage.

Abbreviation Key := (list string) (only parsing).
Abbreviation PcMaps := (gmap (nat * bool) (list (option SourceMapEntry))) (only parsing).

(** ** Maps of maps

    [map.entry(k).or_default()] *)
Section Nested.
Context {A : Type}.
Definition at_key (m : gmap Key (gmap Z A)) (k : Key) : gmap Z A := default ∅ (m !! k).
Definition or_default (k : Key) (m : gmap Key (gmap Z A)) : gmap Key (gmap Z A) := <[k := at_key m k]> m.
Definition insert_line (k : Key) (l : Z) (v : A) (m : gmap Key (gmap Z A)) : gmap Key (gmap Z A) :=
  <[k := <[l := v]> (at_key m k)]> m.
End Nested.

(** A set of lines is a map to [unit]. *)
Abbreviation LineSet := (gmap (list string) (gmap Z ())) (only parsing).
Definition add_line (k : Key) (l : Z) (m : LineSet) : LineSet := insert_line k l () m.
Definition has_line (m : LineSet) (k : Key) (l : Z) : bool := bool_decide (is_Some (at_key m k !! l)).

(** [entry(line).or_insert(1)] *)
Definition hit_line (k : Key) (l : Z) (m : gmap Key (gmap Z Z)) : gmap Key (gmap Z Z) :=
  insert_line k l (default 1 (at_key m k !! l)) m.

(** The order of paths: by component; the root, then the dots, then names. *)
Definition component_rank (s : string) : Z :=
  if String.eqb s "/" then 0 else if String.eqb s "." then 1 else if String.eqb s ".." then 2 else 3.
Definition component_cmp (a b : string) : comparison :=
  then_with (Z.compare (component_rank a) (component_rank b)) (String.compare a b).
Definition path_cmp (p q : string) : comparison := list_cmp component_cmp (path_key p) (path_key q).

(** ** Lines of a source *)

(** A text that can be executed: not blank, no closing brace, no comment. *)
Definition executable_text (text : string) : bool :=
  let trimmed := trim text in
  negb (String.eqb trimmed "}" || String.eqb trimmed "" || starts_with "//" trimmed).

Section Reporter.
Context `{AbiJson} `{Text} `{KeccakCode} (read_file : string -> option string).

Record Compilation : Type := mkCompilation {
  out_contracts : Contracts;
  out_sources : list (string * Source);
}.

Definition source_ast (out : Compilation) (p : string) : option SourceUnit :=
  s ← get_path p (out_sources out); ast s.

Definition compiled_contract (u : option SourceUnit) (p : string) (nc : string * ContractOutput) : list CompiledContract :=
  match evm nc.2 with
  | None => []
  | Some e => [mkCompiled p nc.1 (bytecode e) (deployed_bytecode e)
                 (match u with Some u => is_library u nc.1 | None => false end)]
  end.
Definition compiled_contracts (out : Compilation) : list CompiledContract :=
  out_contracts out ≫= fun '(p, named) => named ≫= compiled_contract (source_ast out p) p.

(** Step 2: the codes of the campaign that a contract is found for. *)
Fixpoint match_codes (index : BytecodeIndex) (codes : list (CoverageId * Bytes))
    : Res (list (CoverageId * (nat * bool))) :=
  match codes with
  | [] => Ok []
  | (i, code) :: rest =>
      found ← find_code index code;
      matched ← match_codes index rest;
      mret (match found with Some m => (i, m) :: matched | None => matched end)
  end.

(** Step 3: the source of a source index; a later source wins. *)
Definition add_source (m : gmap Z string) (ps : string * Source) : gmap Z string :=
  if 0 <=? source_id ps.2 then <[source_id ps.2 := ps.1]> m else m.
Definition sid_map_of (sources : list (string * Source)) : gmap Z string := foldl add_source ∅ sources.

(** Step 4: relative to the base first, then as it is. *)
Definition read_source (base : option string) (p : string) : option string :=
  match read_file (match base with Some b => join b p | None => p end) with
  | Some content => Some content
  | None => read_file p
  end.
Definition add_content (base : option string) (m : gmap Key string) (p : string) : gmap Key string :=
  match read_source base p with Some content => <[path_key p := content]> m | None => m end.
Definition source_cache_of (base : option string) (paths : list string) : gmap Key string :=
  foldl (add_content base) ∅ paths.

Section Cache.
Context (sid_map : gmap Z string) (cache : gmap Key string).

(** The path and the text of the source of an entry. *)
Definition entry_source (e : SourceMapEntry) : option (string * string) :=
  if source_index e <? 0 then None
  else p ← sid_map !! source_index e; content ← cache !! path_key p; Some (p, content).

(** The code of a contract with its source map. *)
Definition pc_map_of (b : Bytecode) : Res (list SourceMapEntry * list (option SourceMapEntry)) :=
  code ← parse_bytecode_with_placeholders (bytecode_object b) (bytecode_link_refs b);
  let sm := parse_source_map (bytecode_source_map b) in
  mret (sm, build_pc_to_source_map code sm).

Definition populate_line (m : LineSet) (e : SourceMapEntry) : LineSet :=
  match entry_source e with
  | Some (p, content) => add_line (path_key p) (offset_to_line content (sm_offset e)) m
  | None => m
  end.

Definition populate_source_map_lines_from_deployed (idx : nat) (deployed : Bytecode) (st : LineSet * PcMaps)
    : Res (LineSet * PcMaps) :=
  '(sm, pm) ← pc_map_of deployed;
  mret (foldl populate_line st.1 sm, <[(idx, false) := pm]> st.2).

(** Step 5, first half: the maps of the matched contracts. *)
Definition load_contract (contracts : list CompiledContract) (st : LineSet * PcMaps) (idx : nat)
    : Res (LineSet * PcMaps) :=
  c ← vec_index contracts idx;
  st ← match cc_bytecode c with
       | Some b => '(_, pm) ← pc_map_of b; mret (st.1, <[(idx, true) := pm]> st.2)
       | None => mret st
       end;
  match cc_deployed c with
  | Some d => populate_source_map_lines_from_deployed idx d st
  | None => mret st
  end.

Fixpoint load_contracts (contracts : list CompiledContract) (st : LineSet * PcMaps) (idxs : list nat)
    : Res (LineSet * PcMaps) :=
  match idxs with
  | [] => Ok st
  | i :: rest => st ← load_contract contracts st i; load_contracts contracts st rest
  end.

(** Step 5, second half: a program counter with a count marks the line that
    its entry maps to. *)
Definition mark_of (pm : list (option SourceMapEntry)) (pc : nat) (count : Z) : option (Key * Z) :=
  if count =? 0 then None
  else
    e ← mjoin (pm !! pc);
    '(p, content) ← entry_source e;
    if String.eqb content "" then None
    else Some (path_key p, offset_to_line content (sm_offset e)).

Definition Lines : Type := LineSet * gmap Key (gmap Z Z).
Definition record_mark (st : Lines) (mark : option (Key * Z)) : Lines :=
  match mark with
  | Some (k, l) => (add_line k l st.1, hit_line k l st.2)
  | None => st
  end.
Definition record_counts (matched : gmap CoverageId (nat * bool)) (pcs : PcMaps) (st : Lines) (counts : RawEdgeCounts) : Lines :=
  match matched !! contract_id counts ≫= fun im => pcs !! im with
  | Some pm => foldl record_mark st (imap (mark_of pm) (raw_edges counts))
  | None => st
  end.

(** Step 6 *)
Definition collect_contract_definition (m : LineSet) (c : ContractDefinition) : LineSet :=
  match p ← sid_map !! src_source_index (cd_src c); content ← cache !! path_key p; Some (p, content) with
  | Some (p, content) =>
      if String.eqb content "" then m
      else add_line (path_key p) (offset_to_line content (src_offset (cd_src c))) m
  | None => m
  end.
Definition collect_contract_definition_lines (asts : list SourceUnit) : LineSet :=
  foldl collect_contract_definition ∅ (asts ≫= unit_contracts).

Definition is_executable (sm cd : LineSet) (k : Key) (l : Z) (text : string) : bool :=
  executable_text text && negb (has_line cd k l) && has_line sm k l.
Definition execute_line (sm cd : LineSet) (hits : gmap Key (gmap Z Z)) (k : Key)
    (m : gmap Key (gmap Z Z)) (line : nat * string) : gmap Key (gmap Z Z) :=
  let l := Z.of_nat line.1 + 1 in
  if is_executable sm cd k l line.2 then insert_line k l (default 0 (at_key hits k !! l)) m else m.
Definition execute_file (sm cd : LineSet) (hits : gmap Key (gmap Z Z)) (m : gmap Key (gmap Z Z)) (p : string)
    : gmap Key (gmap Z Z) :=
  match cache !! path_key p with
  | None => m
  | Some content => foldl (execute_line sm cd hits (path_key p)) m (enumerate (lines content))
  end.

(** Step 7 *)
Definition function_name (f : FunctionDefinition) : option string :=
  match fd_kind f with
  | Some KConstructor => Some "constructor"
  | Some KFallback => Some "fallback"
  | Some KReceive => Some "receive"
  | _ => if String.eqb (fd_name f) "" then None else Some (fd_name f)
  end.

Definition src_end (s : Src) : Z := sat_add64 (src_offset s) (src_length s).

(** The entry is of the source and the range of the function. *)
Definition in_function (f : FunctionDefinition) (p : string) (e : SourceMapEntry) : bool :=
  if source_index e <? 0 then false
  else match sid_map !! source_index e with
       | None => false
       | Some q => bool_decide (path_key q = path_key p) &&
                   ((src_offset (fd_src f) <=? sm_offset e) && (sm_offset e <? src_end (fd_src f)))
       end.
Definition better_pc (f : FunctionDefinition) (p : string) (best : option nat) (pe : nat * option SourceMapEntry) : option nat :=
  match pe.2 with
  | Some e => if in_function f p e then Some (match best with None => pe.1 | Some prev => Nat.min prev pe.1 end) else best
  | None => best
  end.
Definition best_pc (f : FunctionDefinition) (p : string) (pm : list (option SourceMapEntry)) : option nat :=
  foldl (better_pc f p) None (enumerate pm).

(** Constructors are in the initcode only, the other functions in the
    deployed code. *)
Definition entry_count (matched : gmap CoverageId (nat * bool)) (pcs : PcMaps) (f : FunctionDefinition) (p : string)
    (hits : Z) (counts : RawEdgeCounts) : Z :=
  match matched !! contract_id counts with
  | None => hits
  | Some im =>
      if negb (Bool.eqb im.2 (bool_decide (fd_kind f = Some KConstructor))) then hits
      else match pcs !! im with
           | None => hits
           | Some pm => match best_pc f p pm ≫= fun pc => raw_edges counts !! pc with
                        | Some h => Z.max hits h
                        | None => hits
                        end
           end
  end.

Definition function_coverage (sm : LineSet) (matched : gmap CoverageId (nat * bool)) (pcs : PcMaps)
    (counts : list RawEdgeCounts) (f : FunctionDefinition) : option (Key * FunctionCoverage) :=
  if negb (fd_has_body f) then None
  else
    name ← function_name f;
    p ← sid_map !! src_source_index (fd_src f);
    let content := default "" (cache !! path_key p) in
    if String.eqb content "" then None
    else
      let start := offset_to_line content (src_offset (fd_src f)) in
      let stop := offset_to_line content (src_end (fd_src f)) in
      if existsb (fun lu => (start <=? lu.1) && (lu.1 <=? stop)) (map_to_list (at_key sm (path_key p)))
      then Some (path_key p, mkFunctionCoverage name start (foldl (entry_count matched pcs f p) 0 counts))
      else None.

(** [file_functions.entry(path).or_default().push(function)] *)
Definition push_function (m : gmap Key (list FunctionCoverage)) (kf : option (Key * FunctionCoverage))
    : gmap Key (list FunctionCoverage) :=
  match kf with Some (k, fc) => <[k := default [] (m !! k) ++ [fc]]> m | None => m end.
Definition collect_function (sm : LineSet) (matched : gmap CoverageId (nat * bool)) (pcs : PcMaps)
    (counts : list RawEdgeCounts) (m : gmap Key (list FunctionCoverage)) (f : FunctionDefinition)
    : gmap Key (list FunctionCoverage) :=
  push_function m (function_coverage sm matched pcs counts f).
Definition collect_function_coverage (sm : LineSet) (matched : gmap CoverageId (nat * bool)) (pcs : PcMaps)
    (counts : list RawEdgeCounts) (asts : list SourceUnit) : gmap Key (list FunctionCoverage) :=
  foldl (collect_function sm matched pcs counts) ∅ (asts ≫= unit_functions).

(** Every function's first line has an entry, 1 when the function was entered. *)
Definition start_line (k : Key) (m : gmap Key (gmap Z Z)) (f : FunctionCoverage) : gmap Key (gmap Z Z) :=
  insert_line k (fc_line f) (if 0 <? fc_hits f then 1 else 0) m.
Definition start_lines (m : gmap Key (gmap Z Z)) (kfs : Key * list FunctionCoverage) : gmap Key (gmap Z Z) :=
  foldl (start_line kfs.1) (or_default kfs.1 m) kfs.2.
End Cache.

(** Step 8 *)
Definition file_of (executable : gmap Key (gmap Z Z)) (functions : gmap Key (list FunctionCoverage)) (p : string)
    : option FileCoverage :=
  let hits := at_key executable (path_key p) in
  let fs := default [] (functions !! path_key p) in
  if bool_decide (hits = ∅) && bool_decide (fs = []) then None else Some (mkFileCoverage p hits fs).

Record CoverageReporter : Type := mkReporter {
  r_output : option Compilation;
  r_coverage : SharedCoverage;
  r_base : option string;
}.

(** The indices of a hash set, in some order. *)
Definition matched_indices (matched : list (CoverageId * (nat * bool))) : list nat :=
  elements (list_to_set (C := gset nat) (map (fun m => m.2.1) matched)).

Definition build_with (out : Compilation) (coverage : SharedCoverage) (base : option string)
    (contracts : list CompiledContract) (matched_list : list (CoverageId * (nat * bool))) : Res CoverageReport :=
  let sid_map := sid_map_of (out_sources out) in
  let all_files := map fst (out_sources out) in
  if bool_decide (all_files = []) then Ok []
  else
    let cache := source_cache_of base all_files in
    let asts := omap (fun ps => ast ps.2) (out_sources out) in
    let matched := list_to_map matched_list in
    let counts := raw_edge_counts_with_bytecodes_for_ids coverage (map fst matched_list) in
    '(sm, pcs) ← load_contracts sid_map cache contracts (∅, ∅) (matched_indices matched_list);
    let '(sm, hits) := foldl (record_counts sid_map cache matched pcs) (sm, ∅) counts in
    let cd := collect_contract_definition_lines sid_map cache asts in
    let executable := foldl (execute_file cache sm cd hits) ∅ all_files in
    let functions := collect_function_coverage sid_map cache sm matched pcs counts asts in
    let executable := foldl start_lines executable (map_to_list functions) in
    let executable := foldl (fun m p => or_default (path_key p) m) executable all_files in
    mret (omap (file_of executable functions) (sort_by path_cmp all_files)).

Definition build (r : CoverageReporter) : Res CoverageReport :=
  match r_output r with
  | None => Ok []
  | Some out =>
      let contracts := compiled_contracts out in
      index ← index_new contracts;
      matched ← match_codes index (all_bytecodes (r_coverage r));
      if bool_decide (matched = []) then Ok []
      else build_with out (r_coverage r) (r_base r) contracts matched
  end.
End Reporter.

(** ** The text of a report: lcov records *)
Definition function_cmp (a b : FunctionCoverage) : comparison :=
  then_with (Z.compare (fc_line a) (fc_line b)) (String.compare (fc_name a) (fc_name b)).
Definition sorted_functions (f : FileCoverage) : list FunctionCoverage := sort_by function_cmp (fc_functions f).
Definition sorted_lines (f : FileCoverage) : list (Z * Z) :=
  sort_by (fun a b => Z.compare a.1 b.1) (map_to_list (line_hits f)).

Definition fmt_len {A} (l : list A) : string := fmt_dec (Z.of_nat (length l)).
Definition display_file (f : FileCoverage) : list string :=
  let fns := sorted_functions f in
  let lns := sorted_lines f in
  ["TN:"; "SF:" +:+ fc_path f]
  ++ map (fun fn => "FN:" +:+ fmt_dec (fc_line fn) +:+ "," +:+ fc_name fn) fns
  ++ map (fun fn => "FNDA:" +:+ fmt_dec (fc_hits fn) +:+ "," +:+ fc_name fn) fns
  ++ (if bool_decide (fns = []) then []
      else ["FNF:" +:+ fmt_len fns; "FNH:" +:+ fmt_len (filter (fun fn => 0 < fc_hits fn) fns)])
  ++ map (fun lh => "DA:" +:+ fmt_dec lh.1 +:+ "," +:+ fmt_dec lh.2) lns
  ++ ["LF:" +:+ fmt_len lns; "LH:" +:+ fmt_len (filter (fun lh => 0 < lh.2) lns); "end_of_record"].
Definition display (r : CoverageReport) : string :=
  String.concat "" (map (fun line => line +:+ String NEWLINE "") (r ≫= display_file)).

Definition hit_lines (f : FileCoverage) : list (Z * Z) :=
  filter (fun lh => (0 < lh.2)%Z) (map_to_list (line_hits f)).
(** The numbers that [coverage] divides. *)
Definition coverage_totals (r : CoverageReport) : nat * nat :=
  foldl (fun '(total, hit) f =>
           (total + base.size (line_hits f), hit + length (hit_lines f)))%nat
    (0, 0)%nat r.

(** ** Maps of maps *)
Section Nested_lemmas.
Context {A : Type}.
Implicit Types (m : gmap Key (gmap Z A)).

Lemma at_key_insert_line k l v m k' l' :
  at_key (insert_line k l v m) k' !! l' = if decide (k' = k /\ l' = l) then Some v else at_key m k' !! l'.
Proof.
  unfold insert_line, at_key at 1. destruct (decide (k' = k)) as [->|Hk].
  - rewrite lookup_insert_eq. simpl. destruct (decide (l' = l)) as [->|Hl].
    + rewrite lookup_insert_eq. by rewrite decide_True.
    + rewrite lookup_insert_ne by done. by rewrite decide_False by naive_solver.
  - rewrite lookup_insert_ne by done. by rewrite decide_False by naive_solver.
Qed.

Lemma at_key_or_default k m k' : at_key (or_default k m) k' = at_key m k'.
Proof.
  unfold or_default, at_key at 1. destruct (decide (k' = k)) as [->|Hk]; [by rewrite lookup_insert_eq|].
  by rewrite lookup_insert_ne.
Qed.

(** A loop of writes: every value found was there or was written, and a write
    leaves a value. *)
Context {B : Type} (step : gmap Key (gmap Z A) -> B -> gmap Key (gmap Z A)) (writes : B -> Key -> Z -> A -> Prop).

Definition step_writes : Prop := forall m b k l,
  at_key (step m b) k !! l = at_key m k !! l /\ (forall v, ~ writes b k l v) \/
  exists v, at_key (step m b) k !! l = Some v /\ writes b k l v.

Lemma foldl_writes m bs k l v :
  step_writes -> at_key (foldl step m bs) k !! l = Some v ->
  at_key m k !! l = Some v \/ exists b, b ∈ bs /\ writes b k l v.
Proof.
  intros Hs. revert m. induction bs as [|b bs IH]; intros m Hv; [by left|].
  destruct (IH _ Hv) as [Hm|(b' & Hb & Hw)]; [|right; exists b'; set_solver].
  destruct (Hs m b k l) as [[Heq _]|(v' & Heq & Hw)]; [left; congruence|right; exists b].
  split; [set_solver|]. congruence.
Qed.

Lemma foldl_writes_none m bs k l :
  step_writes -> (forall b v, b ∈ bs -> ~ writes b k l v) -> at_key (foldl step m bs) k !! l = at_key m k !! l.
Proof.
  intros Hs. revert m. induction bs as [|b bs IH]; intros m Hn; [done|]. simpl.
  rewrite IH by (intros ???; apply Hn; set_solver).
  destruct (Hs m b k l) as [[Heq _]|(v' & _ & Hw)]; [done|]. exfalso. apply (Hn b v'); [set_solver|done].
Qed.

Lemma foldl_writes_keep m bs k l v :
  step_writes -> (forall b v', b ∈ bs -> writes b k l v' -> v' = v) ->
  at_key m k !! l = Some v -> at_key (foldl step m bs) k !! l = Some v.
Proof.
  intros Hs. revert m. induction bs as [|b bs IH]; intros m Hd Hm; [done|]. apply IH.
  - intros b' v' Hb. apply Hd. set_solver.
  - destruct (Hs m b k l) as [[Heq _]|(v' & Heq & Hw)]; rewrite Heq; [done|]. f_equal. apply (Hd b v'); [set_solver|done].
Qed.

Lemma foldl_writes_some m bs k l b v :
  step_writes -> (forall b v', b ∈ bs -> writes b k l v' -> v' = v) ->
  b ∈ bs -> writes b k l v -> at_key (foldl step m bs) k !! l = Some v.
Proof.
  intros Hs Hd Hb Hw. apply list_elem_of_split in Hb as (bs1 & bs2 & ->). rewrite foldl_app. cbn [foldl].
  apply foldl_writes_keep; [done|intros b' v' Hb'; apply Hd; set_solver|].
  destruct (Hs (foldl step m bs1) b k l) as [[_ Hn]|(v' & Heq & Hw')]; [by destruct (Hn v)|].
  rewrite Heq. f_equal. apply (Hd b v'); [set_solver|done].
Qed.
End Nested_lemmas.

Lemma at_key_empty {A} k l : at_key (A := A) ∅ k !! l = None.
Proof. unfold at_key. by rewrite lookup_empty. Qed.

Lemma enumerate_elem {A} (l : list A) i x : (i, x) ∈ enumerate l <-> l !! i = Some x.
Proof.
  unfold enumerate. rewrite elem_of_lookup_imap. split; [intros (j & y & [= -> ->] & Hl); done|].
  intros Hl. by exists i, x.
Qed.

Lemma lawful_path : lawful path_cmp.
Proof.
  apply (lawful_on path_key), lawful_list. unfold component_cmp.
  apply lawful_then; [apply (lawful_on component_rank), lawful_Z|apply lawful_string].
Qed.

(** ** The lines that can be executed *)
Section Lines_lemmas.
Context (sid_map : gmap Z string) (cache : gmap Key string).
Context (sm cd : LineSet) (hits : gmap Key (gmap Z Z)).

Definition exec_value (k : Key) (l : Z) : option Z :=
  if l <? 1 then None
  else
    content ← cache !! k;
    text ← lines content !! Z.to_nat (l - 1);
    if is_executable sm cd k l text then Some (default 0 (at_key hits k !! l)) else None.

Lemma execute_line_writes k0 :
  step_writes (execute_line sm cd hits k0) (fun line k l v =>
    k = k0 /\ l = Z.of_nat line.1 + 1 /\ is_executable sm cd k l line.2 = true /\ v = default 0 (at_key hits k !! l)).
Proof.
  intros m [i text] k l. unfold execute_line. cbn [fst snd].
  destruct (is_executable sm cd k0 (Z.of_nat i + 1) text) eqn:E; [|left; split; [done|intros v (-> & -> & ? & _); congruence]].
  rewrite at_key_insert_line. destruct (decide _) as [[-> ->]|Hn]; [right; eauto 10|left].
  split; [done|]. intros v (-> & -> & _). by apply Hn.
Qed.

Lemma execute_file_at m p k l :
  at_key (execute_file cache sm cd hits m p) k !! l =
    if decide (k = path_key p) then match exec_value k l with Some v => Some v | None => at_key m k !! l end
    else at_key m k !! l.
Proof.
  unfold execute_file. set (w := fun (line : nat * string) k l v => k = path_key p /\ l = Z.of_nat line.1 + 1 /\
    is_executable sm cd k l line.2 = true /\ v = default 0 (at_key hits k !! l)).
  pose proof (execute_line_writes (path_key p) : step_writes _ w) as Hw.
  destruct (decide (k = path_key p)) as [->|Hk].
  - unfold exec_value. destruct (cache !! path_key p) as [content|] eqn:Ec; [|by destruct (l <? 1)].
    cbn [mbind option_bind]. destruct (Z.ltb_spec l 1).
    { rewrite (foldl_writes_none _ w); [done|done|]. intros [i text] v _ (_ & -> & _). simpl in *. lia. }
    destruct (lines content !! Z.to_nat (l - 1)) as [text|] eqn:El; cbn [mbind option_bind].
    + destruct (is_executable sm cd (path_key p) l text) eqn:Ex.
      * apply (foldl_writes_some _ w) with (b := (Z.to_nat (l - 1), text)); [done| |by apply enumerate_elem|].
        -- intros b v' _ (_ & _ & _ & ->). done.
        -- split_and!; [done|simpl; lia|done|done].
      * rewrite (foldl_writes_none _ w); [done|done|]. intros [i t] v Hin%enumerate_elem (_ & Hl & He & _).
        cbn [fst snd] in *. replace (Z.to_nat (l - 1)) with i in El by lia. congruence.
    + rewrite (foldl_writes_none _ w); [done|done|]. intros [i t] v Hin%enumerate_elem (_ & Hl & _).
      cbn [fst snd] in *. replace (Z.to_nat (l - 1)) with i in El by lia. congruence.
  - destruct (cache !! path_key p); [|done]. apply (foldl_writes_none _ w); [done|]. by intros b v _ (? & _).
Qed.

Lemma execute_files_at files p l :
  p ∈ files -> at_key (foldl (execute_file cache sm cd hits) ∅ files) (path_key p) !! l = exec_value (path_key p) l.
Proof.
  intros Hp. set (w := fun q k l v => path_key q = k /\ exec_value k l = Some v).
  assert (Hw : step_writes (execute_file cache sm cd hits) w).
  { intros m q k l'. rewrite execute_file_at. destruct (decide _) as [->|Hn]; [|left; split; [done|by intros v [<- _]]].
    destruct (exec_value (path_key q) l') as [v|] eqn:E; [right; exists v; done|left]. split; [done|]. intros v [_ ?]. congruence. }
  destruct (exec_value (path_key p) l) as [v|] eqn:E.
  - apply (foldl_writes_some _ w) with (b := p); [done| |done|done]. intros q v' _ [_ ?]. congruence.
  - rewrite (foldl_writes_none _ w); [apply at_key_empty|done|]. intros q v _ [_ ?]. congruence.
Qed.
End Lines_lemmas.

(** ** The lines that start functions *)
Definition start_value (fs : list FunctionCoverage) (l : Z) : option Z :=
  foldl (fun o f => if fc_line f =? l then Some (if 0 <? fc_hits f then 1 else 0) else o) None fs.

Lemma start_line_at k m fs k' l :
  at_key (foldl (start_line k) m fs) k' !! l =
    if decide (k' = k) then match start_value fs l with Some v => Some v | None => at_key m k' !! l end
    else at_key m k' !! l.
Proof.
  unfold start_value. induction fs as [|f fs IH] using rev_ind; [by destruct (decide _)|].
  rewrite !foldl_snoc. unfold start_line at 1. rewrite at_key_insert_line, IH.
  destruct (decide (k' = k)) as [->|Hk]; [|by rewrite decide_False by naive_solver].
  destruct (Z.eqb_spec (fc_line f) l) as [<-|Hl]; [by rewrite decide_True|by rewrite decide_False by naive_solver].
Qed.

Lemma start_lines_at m functions k l :
  at_key (foldl start_lines m (map_to_list functions)) k !! l =
    match start_value (default [] (functions !! k)) l with Some v => Some v | None => at_key m k !! l end.
Proof.
  set (w := fun (kfs : Key * list FunctionCoverage) k l v => kfs.1 = k /\ start_value kfs.2 l = Some v).
  assert (Hw : step_writes start_lines w).
  { intros m' [k' fs] k0 l'. unfold start_lines. rewrite start_line_at, at_key_or_default. unfold w. cbn [fst snd].
    destruct (decide (k0 = k')) as [->|Hn]; [|left; split; [done|by intros v [<- _]]].
    destruct (start_value fs l') as [v|] eqn:E; [right; exists v; done|left]. split; [done|]. intros v [_ ?]. congruence. }
  destruct (functions !! k) as [fs|] eqn:Ek; simpl.
  - destruct (start_value fs l) as [v|] eqn:E.
    + apply (foldl_writes_some _ w) with (b := (k, fs)); [done| |by apply elem_of_map_to_list|done].
      intros [k' fs'] v' Hin%elem_of_map_to_list [Hk Hv]. simpl in *. congruence.
    + apply (foldl_writes_none _ w); [done|]. intros [k' fs'] v' Hin%elem_of_map_to_list [Hk Hv]. simpl in *. congruence.
  - apply (foldl_writes_none _ w); [done|]. intros [k' fs'] v' Hin%elem_of_map_to_list [Hk Hv]. simpl in *. congruence.
Qed.

Lemma or_defaults_at {A} m ps k : at_key (A := A) (foldl (fun m p => or_default (path_key p) m) m ps) k = at_key m k.
Proof. revert m. induction ps as [|p ps IH]; intros m; [done|]. simpl. by rewrite IH, at_key_or_default. Qed.

(** ** The lines that counters mark *)
Lemma foldl_bind {A B C} (step : A -> C -> A) (f : B -> list C) a l :
  foldl (fun a b => foldl step a (f b)) a l = foldl step a (l ≫= f).
Proof. revert a. induction l as [|b l IH]; intros a; [done|]. simpl. by rewrite foldl_app, IH. Qed.

Lemma foldl_ext {A B} (f g : A -> B -> A) a l : (forall a b, f a b = g a b) -> foldl f a l = foldl g a l.
Proof. intros Hfg. revert a. induction l as [|b l IH]; intros a; [done|]. simpl. by rewrite Hfg, IH. Qed.

Section Marks.
Context (sid_map : gmap Z string) (cache : gmap Key string).

Definition marks_of (matched : gmap CoverageId (nat * bool)) (pcs : PcMaps) (counts : RawEdgeCounts) : list (option (Key * Z)) :=
  match matched !! contract_id counts ≫= fun im => pcs !! im with
  | Some pm => imap (mark_of sid_map cache pm) (raw_edges counts)
  | None => []
  end.

Lemma record_counts_marks matched pcs st counts :
  foldl (record_counts sid_map cache matched pcs) st counts = foldl record_mark st (counts ≫= marks_of matched pcs).
Proof.
  rewrite <- foldl_bind. apply foldl_ext. intros st' c. unfold record_counts, marks_of.
  destruct (matched !! contract_id c ≫= _); done.
Qed.

Definition all_ones (hits : gmap Key (gmap Z Z)) : Prop := forall k l v, at_key hits k !! l = Some v -> v = 1.

Lemma record_marks_hits st ms k l :
  all_ones st.2 ->
  at_key (foldl record_mark st ms).2 k !! l = if decide (Some (k, l) ∈ ms) then Some 1 else at_key st.2 k !! l.
Proof.
  revert st. induction ms as [|[[k' l']|] ms IH]; intros [s h] Hones; cbn [foldl record_mark fst snd].
  - by rewrite decide_False by set_solver.
  - assert (Hv : default 1 (at_key h k' !! l') = 1) by (destruct (at_key h k' !! l') eqn:E; simpl; [exact (Hones _ _ _ E)|done]).
    unfold hit_line. rewrite Hv. rewrite IH; cbn [snd].
    + rewrite at_key_insert_line. destruct (decide (Some (k, l) ∈ ms)) as [Hin|Hin].
      * by rewrite decide_True by set_solver.
      * destruct (decide (k = k' /\ l = l')) as [[-> ->]|Hne]; [by rewrite decide_True by set_solver|].
        rewrite decide_False; [done|]. rewrite elem_of_cons. naive_solver.
    + intros k0 l0 v. rewrite at_key_insert_line. destruct (decide (k0 = k' /\ l0 = l')); intros E; [congruence|exact (Hones _ _ _ E)].
  - rewrite IH by done. destruct (decide (Some (k, l) ∈ ms)) as [Hin|Hin].
    + by rewrite decide_True by set_solver.
    + rewrite decide_False; [done|]. rewrite elem_of_cons. naive_solver.
Qed.

Lemma has_line_add k l m k' l' : has_line (add_line k l m) k' l' = true <-> k' = k /\ l' = l \/ has_line m k' l' = true.
Proof.
  unfold has_line, add_line. rewrite !bool_decide_eq_true, at_key_insert_line. destruct (decide _); naive_solver.
Qed.

Lemma has_line_empty k l : has_line ∅ k l = true <-> False.
Proof. unfold has_line. rewrite bool_decide_eq_true, at_key_empty. split; [by intros [? ?]|done]. Qed.

Lemma record_marks_lines st ms k l :
  has_line (foldl record_mark st ms).1 k l = true <-> Some (k, l) ∈ ms \/ has_line st.1 k l = true.
Proof.
  revert st. induction ms as [|[[k' l']|] ms IH]; intros st; cbn [foldl].
  - set_solver.
  - rewrite IH. cbn [fst record_mark]. rewrite has_line_add, elem_of_cons. naive_solver.
  - rewrite IH. cbn [record_mark]. rewrite elem_of_cons. naive_solver.
Qed.

(** A mark is of a counted program counter. *)
Lemma marks_of_elem matched pcs c k l :
  Some (k, l) ∈ marks_of matched pcs c <->
  exists im pm pc n e p content, matched !! contract_id c = Some im /\ pcs !! im = Some pm /\
    raw_edges c !! pc = Some n /\ n <> 0 /\ pm !! pc = Some (Some e) /\
    entry_source sid_map cache e = Some (p, content) /\ content <> "" /\
    k = path_key p /\ l = offset_to_line content (sm_offset e).
Proof.
  unfold marks_of. split.
  - destruct (matched !! contract_id c) as [im|] eqn:Em; simpl; [|by intros ?%not_elem_of_nil].
    destruct (pcs !! im) as [pm|] eqn:Ep; [|by intros ?%not_elem_of_nil].
    intros (pc & n & Hm & Hn)%elem_of_lookup_imap. unfold mark_of in Hm.
    destruct (Z.eqb_spec n 0); [done|]. destruct (pm !! pc) as [[e|]|] eqn:Epc; simpl in Hm; [|done..].
    destruct (entry_source sid_map cache e) as [[p content]|] eqn:Ee; [|done]. simpl in Hm.
    destruct (String.eqb_spec content ""); [done|]. injection Hm as -> ->. by exists im, pm, pc, n, e, p, content.
  - intros (im & pm & pc & n & e & p & content & -> & Hp & Hn & Hnz & Hpc & He & Hc & -> & ->). simpl. rewrite Hp.
    apply elem_of_lookup_imap. exists pc, n. split; [|done]. unfold mark_of.
    destruct (Z.eqb_spec n 0); [done|]. rewrite Hpc. simpl. rewrite He. simpl. by destruct (String.eqb_spec content "").
Qed.
End Marks.

(** ** What is loaded *)
Section Loading.
Context `{Text} (sid_map : gmap Z string) (cache : gmap Key string) (contracts : list CompiledContract).

Definition code_of (c : CompiledContract) (init : bool) : option Bytecode := if init then cc_bytecode c else cc_deployed c.

(** The table of program counters of a contract's code. *)
Definition table_of (i : nat) (init : bool) (pm : list (option SourceMapEntry)) : Prop :=
  exists c b sm, contracts !! i = Some c /\ code_of c init = Some b /\ pc_map_of b = Ok (sm, pm).

Lemma table_of_fun i init pm pm' : table_of i init pm -> table_of i init pm' -> pm = pm'.
Proof. intros (c & b & sm & Hc & Hb & Hm) (c' & b' & sm' & Hc' & Hb' & Hm'). congruence. Qed.

Definition sound_pcs (pcs : PcMaps) : Prop := forall i init pm, pcs !! (i, init) = Some pm -> table_of i init pm.

Lemma sound_insert pcs i init pm : sound_pcs pcs -> table_of i init pm ->
  sound_pcs (<[(i, init) := pm]> pcs) /\
  forall j init' pm', <[(i, init) := pm]> pcs !! (j, init') = Some pm' <->
    pcs !! (j, init') = Some pm' \/ (j = i /\ init' = init /\ table_of j init' pm').
Proof.
  intros Hs Ht. assert (Hl : forall j init' pm', <[(i, init) := pm]> pcs !! (j, init') = Some pm' <->
    pcs !! (j, init') = Some pm' \/ (j = i /\ init' = init /\ table_of j init' pm')).
  { intros j init' pm'. rewrite lookup_insert_Some. split.
    - intros [[[= <- <-] <-]|[_ ?]]; auto.
    - intros [Hp|(-> & -> & Ht')]; [|left; split; [done|by eapply table_of_fun]].
      destruct (decide ((i, init) = (j, init'))) as [[= <- <-]|]; [|by right].
      left. split; [done|]. eapply table_of_fun; [exact Ht|]. by apply Hs. }
  split; [|exact Hl]. intros j init' pm' [Hp|(-> & -> & Hp)]%Hl; [by apply Hs|done].
Qed.

Lemma load_contract_pcs st i st' :
  load_contract sid_map cache contracts st i = Ok st' -> sound_pcs st.2 ->
  sound_pcs st'.2 /\
  forall j init pm, st'.2 !! (j, init) = Some pm <-> st.2 !! (j, init) = Some pm \/ (j = i /\ table_of j init pm).
Proof.
  unfold load_contract, vec_index, populate_source_map_lines_from_deployed.
  destruct (contracts !! i) as [c|] eqn:Ec; cbn [mbind Res_bind]; [|done]. intros Hload Hs.
  apply Res_bind_Ok in Hload as (st1 & H1 & H2).
  assert (Hst1 : sound_pcs st1.2 /\ forall j init pm, st1.2 !! (j, init) = Some pm <->
    st.2 !! (j, init) = Some pm \/ (j = i /\ init = true /\ table_of j init pm)).
  { destruct (cc_bytecode c) as [b|] eqn:Eb.
    - apply Res_bind_Ok in H1 as ([sm pm] & Hm & [= <-]). apply sound_insert; [done|]. by exists c, b, sm.
    - injection H1 as <-. split; [done|]. intros j init pm. split; [auto|]. intros [?|(-> & -> & c' & b & sm & Hc & Hb & _)]; [done|].
      simpl in Hb. congruence. }
  destruct Hst1 as [Hs1 Hl1]. destruct (cc_deployed c) as [b|] eqn:Eb.
  - apply Res_bind_Ok in H2 as ([sm pm] & Hm & [= <-]). cbn [snd].
    destruct (sound_insert st1.2 i false pm Hs1) as [Hs2 Hl2]; [by exists c, b, sm|].
    split; [done|]. intros j init pm'. rewrite Hl2, Hl1. destruct init; naive_solver.
  - injection H2 as <-. split; [done|]. intros j init pm'. rewrite Hl1. split; [naive_solver|].
    intros [?|(-> & Ht)]; [by left|]. destruct init; [naive_solver|].
    destruct Ht as (c' & b & sm & Hc & Hb & _). simpl in Hb. congruence.
Qed.

Lemma load_contracts_pcs st idxs st' :
  load_contracts sid_map cache contracts st idxs = Ok st' -> sound_pcs st.2 ->
  forall j init pm, st'.2 !! (j, init) = Some pm <-> st.2 !! (j, init) = Some pm \/ (j ∈ idxs /\ table_of j init pm).
Proof.
  revert st. induction idxs as [|i idxs IH]; intros st Hload Hs j init pm; cbn [load_contracts] in Hload.
  - injection Hload as <-. set_solver.
  - apply Res_bind_Ok in Hload as (st1 & H1 & H2). destruct (load_contract_pcs _ _ _ H1 Hs) as [Hs1 Hl1].
    rewrite (IH _ H2 Hs1), Hl1, elem_of_cons. naive_solver.
Qed.
End Loading.

(** The contracts' matches. *)
Lemma match_codes_elem `{KeccakCode} index codes ms :
  match_codes index codes = Ok ms ->
  forall i m, (i, m) ∈ ms <-> exists code, (i, code) ∈ codes /\ find_code index code = Ok (Some m).
Proof.
  revert ms. induction codes as [|[i0 code0] codes IH]; intros ms Hms i m; cbn [match_codes] in Hms.
  - injection Hms as <-. set_solver.
  - apply Res_bind_Ok in Hms as (found & Hf & Hms). apply Res_bind_Ok in Hms as (ms' & Hms' & [= <-]).
    specialize (IH _ Hms' i m). destruct found as [m0|]; rewrite ?elem_of_cons, IH; split.
    + intros [[= -> ->]|(code & Hc & Hfc)]; [exists code0|exists code]; set_solver.
    + intros (code & [[= -> ->]|Hc]%elem_of_cons & Hfc); [left; congruence|right; eauto].
    + intros (code & Hc & Hfc). exists code. set_solver.
    + intros (code & [[= -> ->]|Hc]%elem_of_cons & Hfc); [congruence|eauto].
Qed.

(** ** The report as a whole *)
Lemma match_codes_keys `{KeccakCode} index codes ms :
  match_codes index codes = Ok ms -> NoDup codes.*1 -> NoDup ms.*1.
Proof.
  revert ms. induction codes as [|[i0 code0] codes IH]; intros ms Hms Hnd; cbn [match_codes] in Hms.
  - injection Hms as <-. constructor.
  - apply Res_bind_Ok in Hms as (found & Hf & Hms). apply Res_bind_Ok in Hms as (ms' & Hms' & [= <-]).
    cbn [fmap list_fmap fst] in Hnd. apply NoDup_cons in Hnd as [Hi Hnd]. specialize (IH _ Hms' Hnd).
    destruct found as [m0|]; [|done]. cbn [fmap list_fmap fst]. constructor; [|done].
    intros ([i m] & -> & Hin)%list_elem_of_fmap. apply (match_codes_elem _ _ _ Hms') in Hin as (code & Hc & _).
    apply Hi, list_elem_of_fmap. by exists (i, code).
Qed.

Lemma all_bytecodes_keys s : NoDup (all_bytecodes s).*1.
Proof.
  pose proof (NoDup_fst_map_to_list (s_contracts s)) as Hnd. unfold all_bytecodes.
  replace (map _ (map_to_list (s_contracts s))).*1 with (map_to_list (s_contracts s)).*1; [done|].
  clear Hnd. induction (map_to_list (s_contracts s)) as [|[i c] l IH]; [done|]. exact (f_equal (cons i) IH).
Qed.

Lemma counts_elem s ids c :
  c ∈ raw_edge_counts_with_bytecodes_for_ids s ids <->
  exists i g, i ∈ ids /\ s_contracts s !! i = Some g /\ c = mkRaw i (default [] (s_bytecodes s !! i)) (g_raw_edges g).
Proof.
  unfold raw_edge_counts_with_bytecodes_for_ids. rewrite list_elem_of_omap. split.
  - intros (i & Hi & Hc). destruct (s_contracts s !! i) as [g|] eqn:Eg; [|done]. injection Hc as <-. eauto.
  - intros (i & g & Hi & Hg & ->). exists i. by rewrite Hg.
Qed.

Lemma matched_indices_elem ms j : j ∈ matched_indices ms <-> exists i b, (i, (j, b)) ∈ ms.
Proof.
  unfold matched_indices. rewrite elem_of_elements, elem_of_list_to_set. change (map ?f ms) with (f <$> ms).
  rewrite list_elem_of_fmap. split.
  - intros ([i [j' b]] & -> & Hin). by exists i, b.
  - intros (i & b & Hin). by exists (i, (j, b)).
Qed.

Lemma collect_functions_elem {F} (step : F -> option (Key * FunctionCoverage)) m fs k fc :
  fc ∈ default [] (foldl (fun m f => push_function m (step f)) m fs !! k)
  <-> fc ∈ default [] (m !! k) \/ exists f, f ∈ fs /\ step f = Some (k, fc).
Proof.
  revert m. induction fs as [|f fs IH]; intros m; cbn [foldl]; [set_solver|]. rewrite IH.
  assert (Hin : (exists f0, f0 ∈ f :: fs /\ step f0 = Some (k, fc)) <-> step f = Some (k, fc) \/ exists f0, f0 ∈ fs /\ step f0 = Some (k, fc))
    by (setoid_rewrite elem_of_cons; naive_solver).
  rewrite Hin. unfold push_function. destruct (step f) as [[k' fc']|]; [|naive_solver].
  destruct (decide (k' = k)) as [->|Hk].
  - rewrite lookup_insert_eq. simpl. rewrite elem_of_app, list_elem_of_singleton. naive_solver.
  - rewrite lookup_insert_ne by done. naive_solver.
Qed.

Section Spec.
Context `{AbiJson} `{Text} `{KeccakCode} (read_file : string -> option string).
Context (out : Compilation) (coverage : SharedCoverage) (base : option string).

Definition report_sids : gmap Z string := sid_map_of (out_sources out).
Definition report_cache : gmap Key string := source_cache_of read_file base (map fst (out_sources out)).
Definition report_asts : list SourceUnit := omap (fun ps => ast ps.2) (out_sources out).

(** A code of the campaign, of a compiled contract, has a counted program
    counter that its source map puts on the line. *)
Definition counted (index : BytecodeIndex) (k : Key) (l : Z) : Prop :=
  exists i code im pm g pc n e p content,
    (i, code) ∈ all_bytecodes coverage /\ find_code index code = Ok (Some im) /\
    table_of (compiled_contracts out) im.1 im.2 pm /\
    s_contracts coverage !! i = Some g /\ g_raw_edges g !! pc = Some n /\ n <> 0 /\ pm !! pc = Some (Some e) /\
    entry_source report_sids report_cache e = Some (p, content) /\ content <> "" /\
    k = path_key p /\ l = offset_to_line content (sm_offset e).

(** A contract, interface or library is defined from the line on. *)
Definition contract_starts (k : Key) (l : Z) : Prop :=
  exists c p content, c ∈ report_asts ≫= unit_contracts /\ report_sids !! src_source_index (cd_src c) = Some p /\
    report_cache !! path_key p = Some content /\ content <> "" /\
    k = path_key p /\ l = offset_to_line content (src_offset (cd_src c)).

Lemma contract_starts_line k l :
  has_line (collect_contract_definition_lines report_sids report_cache report_asts) k l = true <-> contract_starts k l.
Proof.
  unfold collect_contract_definition_lines, contract_starts. generalize (report_asts ≫= unit_contracts). intros cs.
  assert (Hfold : forall m, has_line (foldl (collect_contract_definition report_sids report_cache) m cs) k l = true <->
    has_line m k l = true \/ exists c p content, c ∈ cs /\ report_sids !! src_source_index (cd_src c) = Some p /\
    report_cache !! path_key p = Some content /\ content <> "" /\
    k = path_key p /\ l = offset_to_line content (src_offset (cd_src c))).
  { induction cs as [|c cs IH]; intros m; cbn [foldl]; [set_solver|]. rewrite IH. setoid_rewrite elem_of_cons.
    unfold collect_contract_definition at 1.
    destruct (report_sids !! src_source_index (cd_src c)) as [p|] eqn:Ep; cbn [mbind option_bind]; [|naive_solver].
    destruct (report_cache !! path_key p) as [content|] eqn:Ec; cbn [mbind option_bind]; [|naive_solver].
    destruct (String.eqb_spec content ""); [naive_solver|]. rewrite has_line_add. naive_solver. }
  rewrite Hfold, has_line_empty. split; [intros [?|?]; done|auto].
Qed.

(** Runs of [build] with a report. *)
Record built (index : BytecodeIndex) (report : CoverageReport) (ms : list (CoverageId * (nat * bool)))
    (sm : LineSet) (pcs : PcMaps) : Prop := {
  b_index : index_new (compiled_contracts out) = Ok index;
  b_matched : match_codes index (all_bytecodes coverage) = Ok ms;
  b_loaded : load_contracts report_sids report_cache (compiled_contracts out) (∅, ∅) (matched_indices ms) = Ok (sm, pcs);
  b_files :
    let st := foldl record_mark (sm, ∅)
      (raw_edge_counts_with_bytecodes_for_ids coverage (map fst ms) ≫= marks_of report_sids report_cache (list_to_map ms) pcs) in
    let cd := collect_contract_definition_lines report_sids report_cache report_asts in
    let functions := collect_function_coverage report_sids report_cache st.1 (list_to_map ms) pcs
      (raw_edge_counts_with_bytecodes_for_ids coverage (map fst ms)) report_asts in
    forall f, f ∈ report -> exists p, p ∈ map fst (out_sources out) /\ fc_path f = p /\
      fc_functions f = default [] (functions !! path_key p) /\
      forall l, line_hits f !! l =
        match start_value (fc_functions f) l with
        | Some v => Some v
        | None => exec_value report_cache st.1 cd st.2 (path_key p) l
        end;
}.

Lemma build_built report :
  build read_file (mkReporter (Some out) coverage base) = Ok report -> report <> [] ->
  exists index ms sm pcs, built index report ms sm pcs.
Proof.
  unfold build. cbn [r_output r_coverage r_base]. intros Hb Hne. apply Res_bind_Ok in Hb as (index & Hi & Hb).
  apply Res_bind_Ok in Hb as (ms & Hms & Hb). case_bool_decide; [by injection Hb as <-|].
  unfold build_with in Hb. case_bool_decide; [by injection Hb as <-|].
  apply Res_bind_Ok in Hb as ([sm pcs] & Hl & Hb). rewrite record_counts_marks in Hb.
  exists index, ms, sm, pcs. split; [done..|]. cbv zeta. fold report_sids report_cache report_asts in Hb.
  destruct (foldl record_mark _ _) as [sm' hits]. injection Hb as <-. cbn [fst snd].
  intros f (p & Hp & Hf)%list_elem_of_omap. rewrite sort_by_perm in Hp. exists p. split; [done|].
  unfold file_of in Hf. destruct (bool_decide _ && bool_decide _); [done|]. injection Hf as <-. cbn [fc_path fc_functions line_hits].
  split; [done|]. split; [done|]. intros l. by rewrite or_defaults_at, start_lines_at, execute_files_at.
Qed.

Section Built.
Context (index : BytecodeIndex) (report : CoverageReport) (ms : list (CoverageId * (nat * bool))).
Context (sm : LineSet) (pcs : PcMaps) (Hb : built index report ms sm pcs).

Lemma built_matched i im :
  (list_to_map ms : gmap CoverageId (nat * bool)) !! i = Some im <->
  exists code, (i, code) ∈ all_bytecodes coverage /\ find_code index code = Ok (Some im).
Proof.
  rewrite <- (match_codes_elem _ _ _ (b_matched _ _ _ _ _ Hb)), elem_of_list_to_map; [done|].
  apply (match_codes_keys _ _ _ (b_matched _ _ _ _ _ Hb)), all_bytecodes_keys.
Qed.

Lemma built_pcs i j init pm :
  (i, (j, init)) ∈ ms -> pcs !! (j, init) = Some pm <-> table_of (compiled_contracts out) j init pm.
Proof.
  intros Hi. pose proof (load_contracts_pcs _ _ _ _ _ _ (b_loaded _ _ _ _ _ Hb)) as Hl. cbn [snd] in Hl.
  rewrite Hl by (intros ??? Hx; by rewrite lookup_empty in Hx). rewrite lookup_empty. split; [by intros [?|[_ ?]]|].
  intros Ht. right. split; [|done]. apply matched_indices_elem. eauto.
Qed.

Lemma built_marks k l :
  Some (k, l) ∈ raw_edge_counts_with_bytecodes_for_ids coverage (map fst ms)
    ≫= marks_of report_sids report_cache (list_to_map ms) pcs <-> counted index k l.
Proof.
  rewrite list_elem_of_bind. split.
  - intros (c & Hm & (i & g & Hi & Hg & ->)%counts_elem).
    apply marks_of_elem in Hm as (im & pm & pc & n & e & p & content & Him & Hpm & Hrest).
    cbn [contract_id raw_edges] in *. assert (Hin : (i, im) ∈ ms) by (apply elem_of_list_to_map_2 in Him; exact Him).
    apply built_matched in Him as (code & Hc & Hf). destruct im as [j init]. apply (built_pcs i) in Hpm; [|done].
    exists i, code, (j, init), pm, g, pc, n, e, p, content. naive_solver.
  - intros (i & code & [j init] & pm & g & pc & n & e & p & content & Hc & Hf & Ht & Hg & Hrest).
    assert (Him : (list_to_map ms : gmap CoverageId (nat * bool)) !! i = Some (j, init)) by (apply built_matched; eauto).
    pose proof (elem_of_list_to_map_2 _ _ _ Him) as Hin.
    exists (mkRaw i (default [] (s_bytecodes coverage !! i)) (g_raw_edges g)). split.
    + apply marks_of_elem. exists (j, init), pm, pc, n, e, p, content. split; [exact Him|].
      split; [by apply (built_pcs i)|exact Hrest].
    + apply counts_elem. exists i, g. split; [|done]. change (map fst ms) with (ms.*1). apply list_elem_of_fmap.
      by exists (i, (j, init)).
Qed.
End Built.

(** C28: What a report says of a line. Where functions start on it, the last of
    them decides: 1 when it was entered, else 0, and not the number of its
    calls, which the documentation of the reporter announces there. Any other
    line is in the report with 1 exactly when its text is executable, it is not
    the first of a contract, and a counted program counter of a code of the
    campaign is mapped to it; its only other value is 0. *)
Theorem line_hits_exact index report f :
  build read_file (mkReporter (Some out) coverage base) = Ok report ->
  index_new (compiled_contracts out) = Ok index -> f ∈ report ->
  (forall l v, start_value (fc_functions f) l = Some v -> line_hits f !! l = Some v) /\
  (forall l, start_value (fc_functions f) l = None ->
     (line_hits f !! l = Some 1 <->
        counted index (path_key (fc_path f)) l /\ ~ contract_starts (path_key (fc_path f)) l /\
        1 <= l /\ exists content text, report_cache !! path_key (fc_path f) = Some content /\
          lines content !! Z.to_nat (l - 1) = Some text /\ executable_text text = true) /\
     (forall v, line_hits f !! l = Some v -> v = 0 \/ v = 1)).
Proof.
  intros Hbuild Hi Hf. destruct (build_built report Hbuild) as (index' & ms & sm & pcs & Hb); [by intros ->; apply not_elem_of_nil in Hf|].
  assert (index' = index) as -> by (pose proof (b_index _ _ _ _ _ Hb); congruence).
  destruct (b_files _ _ _ _ _ Hb f Hf) as (p & Hp & Hfp & Hfs & Hl). rewrite Hfp.
  split; [intros l v Hs; by rewrite Hl, Hs|]. intros l Hs. rewrite Hl, Hs.
  rewrite <- (built_marks _ _ _ _ _ Hb), <- contract_starts_line.
  set (st := foldl record_mark _ _) in *. set (cd := collect_contract_definition_lines _ _ _) in *.
  assert (Hhits : at_key st.2 (path_key p) !! l = if decide (Some (path_key p, l) ∈ raw_edge_counts_with_bytecodes_for_ids coverage (map fst ms)
    ≫= marks_of report_sids report_cache (list_to_map ms) pcs) then Some 1 else None).
  { unfold st. rewrite record_marks_hits by (intros ???; cbn [snd]; by rewrite at_key_empty). cbn [snd]. by rewrite at_key_empty. }
  assert (Hsm : forall k, Some (k, l) ∈ raw_edge_counts_with_bytecodes_for_ids coverage (map fst ms)
    ≫= marks_of report_sids report_cache (list_to_map ms) pcs -> has_line st.1 k l = true)
    by (intros k Hk; apply record_marks_lines; by left).
  unfold exec_value. rewrite Hhits. destruct (Z.ltb_spec l 1); [split; [split; [done|lia]|done]|].
  destruct (report_cache !! path_key p) as [content|]; cbn [mbind option_bind];
    [|split; [split; [done|by intros (_ & _ & _ & ? & ? & [=] & _)]|done]].
  destruct (lines content !! Z.to_nat (l - 1)) as [text|] eqn:El; cbn [mbind option_bind];
    [|split; [split; [done|intros (_ & _ & _ & ? & ? & [= <-] & ? & _); congruence]|done]].
  unfold is_executable. destruct (executable_text text) eqn:Et; cbn [andb];
    [|split; [split; [done|intros (_ & _ & _ & ? & ? & [= <-] & ? & ?); congruence]|done]].
  destruct (has_line cd (path_key p) l) eqn:Ecd; cbn [andb negb];
    [split; [split; [done|by intros (_ & Hn & _)]|done]|].
  case_decide as Hd.
  - rewrite (Hsm _ Hd). split; [split; [intros _|done]|by intros v [= <-]; right].
    split; [done|]. split; [done|]. split; [lia|]. by exists content, text.
  - split; [split; [|by intros [? _]]; by destruct (has_line st.1 (path_key p) l)|].
    intros v. destruct (has_line st.1 (path_key p) l); [intros [= <-]; by left|done].
Qed.

(** The order of the files. *)
Lemma build_sorted report :
  build read_file (mkReporter (Some out) coverage base) = Ok report ->
  StronglySorted (cmp_le path_cmp) (map fc_path report).
Proof.
  unfold build. cbn [r_output r_coverage r_base]. intros Hb. apply Res_bind_Ok in Hb as (index & Hi & Hb).
  apply Res_bind_Ok in Hb as (ms & Hms & Hb). case_bool_decide; [injection Hb as <-; constructor|].
  unfold build_with in Hb. case_bool_decide; [injection Hb as <-; constructor|].
  apply Res_bind_Ok in Hb as ([sm pcs] & Hl & Hb). destruct (foldl _ _ _) as [sm' hits]. injection Hb as <-.
  pose proof (sort_by_sorted path_cmp lawful_path (map fst (out_sources out))) as Hs.
  induction Hs as [|p ps _ IH HF]; [constructor|]. cbn [omap list_omap].
  unfold file_of at 1. destruct (bool_decide _ && bool_decide _); [done|]. cbn [map fc_path]. constructor; [done|].
  clear IH. induction HF as [|q qs Hq _ IH]; [constructor|]. cbn [omap list_omap].
  unfold file_of at 1. destruct (bool_decide _ && bool_decide _); [done|]. by constructor.
Qed.

Lemma report_cache_read k content :
  report_cache !! k = Some content ->
  exists p, p ∈ map fst (out_sources out) /\ path_key p = k /\ read_source read_file base p = Some content.
Proof.
  unfold report_cache, source_cache_of. generalize (map fst (out_sources out)). intros ps.
  assert (Hfold : forall m, foldl (add_content read_file base) m ps !! k = Some content ->
    m !! k = Some content \/ exists p, p ∈ ps /\ path_key p = k /\ read_source read_file base p = Some content).
  { induction ps as [|p ps IH]; intros m Hm; [by left|]. cbn [foldl] in Hm. apply IH in Hm as [Hm|(q & Hq & Hr)]; [|right; exists q; set_solver].
    unfold add_content in Hm. destruct (read_source read_file base p) as [c|] eqn:Er; [|by left].
    apply lookup_insert_Some in Hm as [[Hk ->]|[_ Hm]]; [right; exists p; set_solver|by left]. }
  intros [Hm|Hx]%Hfold; [by rewrite lookup_empty in Hm|done].
Qed.

Lemma start_value_some fs l v : start_value fs l = Some v -> (v = 0 \/ v = 1) /\ exists fc, fc ∈ fs /\ fc_line fc = l.
Proof.
  unfold start_value. revert v. induction fs as [|fc fs IH] using rev_ind; intros v; [done|]. rewrite foldl_snoc.
  destruct (Z.eqb_spec (fc_line fc) l) as [<-|].
  - intros [= <-]. split; [destruct (0 <? _); auto|]. exists fc. split; [set_solver|done].
  - intros Hv. destruct (IH v Hv) as [? (fc' & ? & ?)]. split; [done|]. exists fc'. split; [set_solver|done].
Qed.

Lemma function_coverage_Some sids cache sm matched pcs counts d k fc :
  function_coverage sids cache sm matched pcs counts d = Some (k, fc) ->
  fd_has_body d = true /\ function_name d = Some (fc_name fc) /\
  exists p content, sids !! src_source_index (fd_src d) = Some p /\ cache !! path_key p = Some content /\ content <> "" /\
    k = path_key p /\ fc_line fc = offset_to_line content (src_offset (fd_src d)) /\
    fc_hits fc = foldl (entry_count sids matched pcs d p) 0 counts.
Proof.
  unfold function_coverage. destruct (fd_has_body d); cbn [negb]; [|done].
  destruct (function_name d) as [n|]; cbn [mbind option_bind]; [|done].
  destruct (sids !! _) as [p|] eqn:Ep; cbn [mbind option_bind]; [|done].
  destruct (cache !! path_key p) as [content|] eqn:Ec; cbn [default from_option id]; [|done].
  destruct (String.eqb_spec content ""); [done|]. destruct (existsb _ _); [|done]. intros [= <- <-].
  split; [done|]. split; [done|]. by exists p, content.
Qed.

Lemma built_function index report ms sm pcs f fc :
  built index report ms sm pcs -> f ∈ report -> fc ∈ fc_functions f ->
  exists d p content, d ∈ report_asts ≫= unit_functions /\ fd_has_body d = true /\ function_name d = Some (fc_name fc) /\
    report_sids !! src_source_index (fd_src d) = Some p /\ report_cache !! path_key p = Some content /\ content <> "" /\
    path_key (fc_path f) = path_key p /\ fc_line fc = offset_to_line content (src_offset (fd_src d)) /\
    fc_hits fc = foldl (entry_count report_sids (list_to_map ms) pcs d p) 0 (raw_edge_counts_with_bytecodes_for_ids coverage (map fst ms)).
Proof.
  intros Hb Hf Hfc. destruct (b_files _ _ _ _ _ Hb f Hf) as (p & Hp & Hfp & Hfs & _). rewrite Hfs in Hfc.
  unfold collect_function_coverage, collect_function in Hfc.
  apply collect_functions_elem in Hfc as [Hfc|(d & Hd & Hfc)]; [by rewrite lookup_empty in Hfc; apply not_elem_of_nil in Hfc|].
  apply function_coverage_Some in Hfc as (Hbody & Hn & q & content & Hq & Hc & Hne & Hk & Hl & Hh).
  exists d, q, content. rewrite Hfp. done.
Qed.

(** The files of a report are sources in the order of their paths, and
    every line of a file is a line of the text that was read for it, with the
    value 0 or 1. *)
Theorem report_lines_real report :
  build read_file (mkReporter (Some out) coverage base) = Ok report ->
  StronglySorted (cmp_le path_cmp) (map fc_path report) /\
  forall f, f ∈ report -> fc_path f ∈ map fst (out_sources out) /\
    forall l v, line_hits f !! l = Some v ->
      (v = 0 \/ v = 1) /\ exists p content, p ∈ map fst (out_sources out) /\ path_key p = path_key (fc_path f) /\
        read_source read_file base p = Some content /\ 1 <= l <= Z.of_nat (length (lines content)).
Proof.
  intros Hbuild. split; [by apply build_sorted|]. intros f Hf.
  destruct (build_built report Hbuild) as (index & ms & sm & pcs & Hb); [by intros ->; apply not_elem_of_nil in Hf|].
  destruct (b_files _ _ _ _ _ Hb f Hf) as (p & Hp & Hfp & Hfs & Hl). rewrite Hfp. split; [done|]. intros l v Hv.
  rewrite Hl in Hv. destruct (start_value (fc_functions f) l) as [v'|] eqn:Es.
  - injection Hv as ->. apply start_value_some in Es as [Hv (fc & Hfc & <-)]. split; [done|].
    destruct (built_function _ _ _ _ _ _ _ Hb Hf Hfc) as (d & q & content & _ & _ & _ & _ & Hc & Hne & Hk & -> & _).
    rewrite Hfp in Hk. apply report_cache_read in Hc as (q' & Hq' & Hk' & Hr). exists q', content.
    split_and!; [done|congruence|done|by apply offset_to_line_bounds..].
  - revert Hv. unfold exec_value. destruct (Z.ltb_spec l 1); [done|].
    destruct (report_cache !! path_key p) as [content|] eqn:Ec; cbn [mbind option_bind]; [|done].
    destruct (lines content !! Z.to_nat (l - 1)) as [t|] eqn:Et; cbn [mbind option_bind]; [|done].
    destruct (is_executable _ _ _ _ _); [|done]. rewrite record_marks_hits by (intros ???; cbn [snd]; by rewrite at_key_empty).
    intros [= <-]. split; [case_decide; [by right|left; cbn [snd]; by rewrite at_key_empty]|].
    apply report_cache_read in Ec as (q & Hq & Hk & Hr). exists q, content. apply lookup_lt_Some in Et.
    split_and!; [done..|lia|lia].
Qed.

(** ** The entries of functions *)

(** The first program counter that the source map puts in the function. *)
Definition first_pc (d : FunctionDefinition) (p : string) (pm : list (option SourceMapEntry)) (pc : nat) : Prop :=
  (exists e, pm !! pc = Some (Some e) /\ in_function report_sids d p e = true) /\
  forall pc' e, (pc' < pc)%nat -> pm !! pc' = Some (Some e) -> in_function report_sids d p e = false.

Lemma best_pc_spec d p pm :
  match best_pc report_sids d p pm with
  | Some pc => first_pc d p pm pc
  | None => forall pc e, pm !! pc = Some (Some e) -> in_function report_sids d p e = false
  end.
Proof.
  unfold best_pc, enumerate. induction pm as [|x pm IH] using rev_ind; [done|]. rewrite imap_app, foldl_app.
  cbn [imap foldl]. rewrite Nat.add_0_r. unfold better_pc at 1. cbn [fst snd].
  assert (Hlast : forall e, (pm ++ [Some e]) !! length pm = Some (Some e)) by (intros e; by apply list_lookup_middle).
  destruct (foldl _ None _) as [pc|] eqn:E.
  - destruct IH as [(e & He & Hin) Hfirst]. pose proof (lookup_lt_Some _ _ _ He) as Hlt.
    assert (Hkeep : first_pc d p (pm ++ [x]) pc).
    { split; [exists e; split; [by apply lookup_app_l_Some|done]|]. intros pc' e' Hpc' He'.
      rewrite lookup_app_l in He' by lia. by apply (Hfirst pc'). }
    destruct x as [e'|]; [|done]. destruct (in_function report_sids d p e'); [|done].
    by replace (Nat.min pc (length pm)) with pc by lia.
  - assert (Hnone : forall pc e, (pc < length pm)%nat -> (pm ++ [x]) !! pc = Some (Some e) -> in_function report_sids d p e = false)
      by (intros pc e Hlt He; rewrite lookup_app_l in He by done; by apply (IH pc)).
    destruct x as [e|].
    + destruct (in_function report_sids d p e) eqn:Ee.
      * split; [exists e; split; [apply Hlast|done]|]. intros pc' e' Hlt. by apply Hnone.
      * intros pc e' He'. destruct (decide (pc < length pm)%nat); [by apply (Hnone pc)|].
        assert (pc = length pm) as -> by (apply lookup_lt_Some in He'; rewrite length_app in He'; simpl in He'; lia).
        rewrite Hlast in He'. by injection He' as <-.
    + intros pc e' He'. destruct (decide (pc < length pm)%nat); [by apply (Hnone pc)|].
      rewrite lookup_app_r in He' by lia. destruct (pc - length pm)%nat; done.
Qed.

Lemma best_pc_first d p pm pc : best_pc report_sids d p pm = Some pc <-> first_pc d p pm pc.
Proof.
  pose proof (best_pc_spec d p pm) as Hs. destruct (best_pc report_sids d p pm) as [q|]; split.
  - by intros [= <-].
  - intros [(e & He & Hin) Hfirst]. f_equal. destruct Hs as [(e' & He' & Hin') Hfirst'].
    destruct (Nat.lt_trichotomy q pc) as [Hlt|[->|Hlt]]; [|done|].
    + pose proof (Hfirst _ _ Hlt He'). congruence.
    + pose proof (Hfirst' _ _ Hlt He). congruence.
  - done.
  - intros [(e & He & Hin) _]. pose proof (Hs _ _ He). congruence.
Qed.

Definition is_constructor (d : FunctionDefinition) : bool := bool_decide (fd_kind d = Some KConstructor).

(** A code of the campaign of the right kind counted [n] entries. *)
Definition entered (index : BytecodeIndex) (d : FunctionDefinition) (p : string) (n : Z) : Prop :=
  exists i code im pm g pc,
    (i, code) ∈ all_bytecodes coverage /\ find_code index code = Ok (Some im) /\ im.2 = is_constructor d /\
    table_of (compiled_contracts out) im.1 im.2 pm /\ s_contracts coverage !! i = Some g /\
    first_pc d p pm pc /\ g_raw_edges g !! pc = Some n.

Definition entry_value (matched : gmap CoverageId (nat * bool)) (pcs : PcMaps) (d : FunctionDefinition) (p : string)
    (c : RawEdgeCounts) : option Z :=
  im ← matched !! contract_id c;
  if Bool.eqb im.2 (is_constructor d) then
    pm ← pcs !! im; pc ← best_pc report_sids d p pm; raw_edges c !! pc
  else None.

Lemma entry_count_value matched pcs d p hits c :
  entry_count report_sids matched pcs d p hits c =
    match entry_value matched pcs d p c with Some h => Z.max hits h | None => hits end.
Proof.
  unfold entry_count, entry_value, is_constructor. destruct (matched !! contract_id c) as [im|]; cbn [mbind option_bind]; [|done].
  destruct (Bool.eqb im.2 _); cbn [negb]; [|done]. by destruct (pcs !! im).
Qed.

Lemma entry_counts_max matched pcs d p cs hits :
  let r := foldl (entry_count report_sids matched pcs d p) hits cs in
  (r = hits \/ exists c, c ∈ cs /\ entry_value matched pcs d p c = Some r) /\
  hits <= r /\ forall c n, c ∈ cs -> entry_value matched pcs d p c = Some n -> n <= r.
Proof.
  cbv zeta. revert hits. induction cs as [|c cs IH]; intros hits; cbn [foldl].
  { split; [by left|]. split; [lia|]. by intros c n ?%not_elem_of_nil. }
  rewrite entry_count_value. set (h := match entry_value matched pcs d p c with Some x => Z.max hits x | None => hits end).
  assert (Hh : hits <= h /\ forall n, entry_value matched pcs d p c = Some n -> n <= h)
    by (unfold h; destruct (entry_value matched pcs d p c); split; [lia|intros ? [= <-]; lia|lia|done]).
  destruct Hh as [Hh Hc], (IH h) as (Hr & Hle & Hall). split; [|split; [lia|]].
  - destruct Hr as [Hr|(c' & Hc' & Hr)]; [|right; exists c'; set_solver]. rewrite Hr. unfold h.
    destruct (entry_value matched pcs d p c) as [x|] eqn:Ex; [|by left].
    destruct (Z.max_spec hits x) as [[_ ->]|[_ ->]]; [right; exists c; set_solver|by left].
  - intros c0 n [->|Hc0]%elem_of_cons Hn; [specialize (Hc n Hn); lia|by apply (Hall c0)].
Qed.

Lemma built_entered index report ms sm pcs d p n :
  built index report ms sm pcs ->
  (exists c, c ∈ raw_edge_counts_with_bytecodes_for_ids coverage (map fst ms) /\ entry_value (list_to_map ms) pcs d p c = Some n)
  <-> entered index d p n.
Proof.
  intros Hb. split.
  - intros (c & (i & g & Hi & Hg & ->)%counts_elem & Hn). unfold entry_value in Hn. cbn [contract_id raw_edges] in Hn.
    destruct (list_to_map ms !! i) as [[j init]|] eqn:Him; cbn [mbind option_bind snd] in Hn; [|done].
    destruct (Bool.eqb_spec init (is_constructor d)) as [Hinit|]; [|done].
    destruct (pcs !! (j, init)) as [pm|] eqn:Hpm; cbn [mbind option_bind] in Hn; [|done].
    destruct (best_pc report_sids d p pm) as [pc|] eqn:Hpc; cbn [mbind option_bind] in Hn; [|done].
    pose proof (elem_of_list_to_map_2 _ _ _ Him) as Hin.
    apply (built_pcs _ _ _ _ _ Hb i) in Hpm; [|done]. apply (built_matched _ _ _ _ _ Hb) in Him as (code & Hc & Hf).
    exists i, code, (j, init), pm, g, pc. split_and!; try done. by apply best_pc_first.
  - intros (i & code & [j init] & pm & g & pc & Hc & Hf & Hinit & Ht & Hg & Hpc & Hn). cbn [fst snd] in *.
    assert (Him : (list_to_map ms : gmap CoverageId (nat * bool)) !! i = Some (j, init)) by (apply (built_matched _ _ _ _ _ Hb); eauto).
    pose proof (elem_of_list_to_map_2 _ _ _ Him) as Hin.
    exists (mkRaw i (default [] (s_bytecodes coverage !! i)) (g_raw_edges g)). split.
    + apply counts_elem. exists i, g. split; [|done]. change (map fst ms) with (ms.*1). apply list_elem_of_fmap.
      by exists (i, (j, init)).
    + unfold entry_value. cbn [contract_id raw_edges].
      replace ((list_to_map ms : gmap CoverageId (nat * bool)) !! i) with (Some (j, init)) by (symmetry; exact Him).
      cbn [mbind option_bind snd]. rewrite Hinit, Bool.eqb_reflx.
      rewrite <- Hinit, (proj2 (built_pcs _ _ _ _ _ Hb i j init pm Hin) Ht). cbn [mbind option_bind].
      by rewrite (proj2 (best_pc_first d p pm pc) Hpc).
Qed.

(** The count of a function is the largest count of its first program
    counter in the codes of the campaign that can contain it: the initcodes
    for a constructor, the deployed codes for any other function; 0 when it
    was in none. *)
Theorem function_hits_entries index report f fc :
  build read_file (mkReporter (Some out) coverage base) = Ok report ->
  index_new (compiled_contracts out) = Ok index -> f ∈ report -> fc ∈ fc_functions f ->
  exists d p content, d ∈ report_asts ≫= unit_functions /\ fd_has_body d = true /\ function_name d = Some (fc_name fc) /\
    path_key p = path_key (fc_path f) /\ report_cache !! path_key p = Some content /\
    fc_line fc = offset_to_line content (src_offset (fd_src d)) /\
    (fc_hits fc = 0 \/ entered index d p (fc_hits fc)) /\ forall n, entered index d p n -> n <= fc_hits fc.
Proof.
  intros Hbuild Hi Hf Hfc. destruct (build_built report Hbuild) as (index' & ms & sm & pcs & Hb); [by intros ->; apply not_elem_of_nil in Hf|].
  assert (index' = index) as -> by (pose proof (b_index _ _ _ _ _ Hb); congruence).
  destruct (built_function _ _ _ _ _ _ _ Hb Hf Hfc) as (d & p & content & Hd & Hbody & Hn & Hp & Hc & Hne & Hk & Hl & Hh).
  exists d, p, content. split_and!; try done.
  - rewrite Hh. destruct (entry_counts_max (list_to_map ms) pcs d p (raw_edge_counts_with_bytecodes_for_ids coverage (map fst ms)) 0)
      as ([Hr|(c & Hin & Hr)] & _); [by left|right]. apply (built_entered _ _ _ _ _ _ _ _ Hb). eauto.
  - intros n Hent. apply (built_entered _ _ _ _ _ _ _ _ Hb) in Hent as (c & Hin & Hv). rewrite Hh.
    destruct (entry_counts_max (list_to_map ms) pcs d p (raw_edge_counts_with_bytecodes_for_ids coverage (map fst ms)) 0) as (_ & _ & Hall).
    by apply (Hall c).
Qed.
End Spec.

(** ** Witnesses: one contract with one function that was entered three times *)
Module ToyReport.
Export Toy.
#[export] Instance abi_json : AbiJson := {
  AbiItems := JsonAbi; json := JsonAbi; to_value a := Ok a; from_value a := Ok a }.
#[export] Instance sums : KeccakCode := sum_code.

Definition line_of (s : string) : string := s +:+ String NEWLINE "".
Definition source : string :=
  String.concat "" (map line_of ["contract C {"; "  function f() {"; "    g();"; "  }"; "}"]).
Definition read_toy (p : string) : option string := if String.eqb p "src/C.sol" then Some source else None.

(** PUSH1 1, JUMPDEST, STOP; the push is of the contract, the rest of the
    function and its call. *)
Definition toy_code : string := "60015b00".
Definition toy_map : string := "0:60:0:-:0;15:26:0:-:0;34:4:0:-:0".
Definition unit : SourceUnit :=
  [UContract (mkContractDef "C" KContract (mkSrc 0 60 0)
     [CFunction (mkFunDef "f" (Some KFunction) (mkSrc 15 26 0) true)])].
Definition out : Compilation :=
  mkCompilation [("src/C.sol", [("C", mkContractOutput None
      (Some (mkEvm None (Some (mkBytecode (Some toy_code) (Some toy_map) None None)))))])]
    [("src/C.sol", mkSource 0 (Some unit))].
Definition coverage : SharedCoverage :=
  let g := mkContract [1; 0; 1; 1] [3; 0; 3; 3] [] [] ∅ false in
  mkShared {[ Runtime 7 9 := g ]} {[ Runtime 7 9 := [96; 1; 91; 0] ]}.
Definition reporter : CoverageReporter := mkReporter (Some out) coverage None.
Definition toy_file : FileCoverage :=
  mkFileCoverage "src/C.sol" {[ 2 := 1; 3 := 1 ]} [mkFunctionCoverage "f" 2 3].
Definition toy_index : BytecodeIndex := index_of [mkIndexEntry 0 188 [] false 4].
End ToyReport.

Section Witnesses.
Import ToyReport.

Lemma toy_report : build ToyReport.read_toy ToyReport.reporter = Ok [ToyReport.toy_file].
Proof. vm_compute. reflexivity. Qed.

Lemma line_hits_exact_witness :
  line_hits ToyReport.toy_file !! 2 = Some 1 /\
  counted ToyReport.read_toy ToyReport.out ToyReport.coverage None ToyReport.toy_index ["src"; "C.sol"] 3.
Proof.
  destruct (line_hits_exact ToyReport.read_toy ToyReport.out ToyReport.coverage None ToyReport.toy_index
    [ToyReport.toy_file] ToyReport.toy_file toy_report) as [Hstart Hline].
  - vm_compute. reflexivity.
  - left.
  - split; [apply Hstart; reflexivity|].
    destruct (Hline 3) as [[Hhit _] _]; [reflexivity|]. apply Hhit. reflexivity.
Defined.

Lemma report_lines_real_witness :
  fc_path ToyReport.toy_file ∈ ["src/C.sol"] /\ exists v : Z, v = 1 /\ (v = 0 \/ v = 1).
Proof.
  destruct (report_lines_real ToyReport.read_toy ToyReport.out ToyReport.coverage None [ToyReport.toy_file] toy_report)
    as [_ Hfiles].
  destruct (Hfiles ToyReport.toy_file) as [Hin Hl]; [left|]. split; [exact Hin|].
  exists 1. split; [reflexivity|]. apply (Hl 2 1). reflexivity.
Defined.

Lemma function_hits_entries_witness :
  exists d p, entered ToyReport.out ToyReport.coverage ToyReport.toy_index d p 3.
Proof.
  destruct (function_hits_entries ToyReport.read_toy ToyReport.out ToyReport.coverage None ToyReport.toy_index
    [ToyReport.toy_file] ToyReport.toy_file (mkFunctionCoverage "f" 2 3) toy_report)
    as (d & p & content & _ & _ & _ & _ & _ & _ & [Hz|He] & _).
  - vm_compute. reflexivity.
  - left.
  - left.
  - discriminate Hz.
  - exists d, p. exact He.
Defined.
End Witnesses.
