(* ===== verification/MappingSlots.v ===== *)
(** * MappingSlots: which mapping entry a storage slot is

    Models [MappingSlots] of [evm/trace/mod.rs]: the hashes seen while a
    contract ran, the slots of mapping entries found among them, and the chain
    of keys that leads from a mapping to an entry. A 32-byte word is a number.
    The insertion recurses through the parents of a slot and always ends; the
    walk of a chain ends when no slot is its own ancestor. *)
From S2P Require Import Prelude.
From S2P Require Import Env.

Record MappingSlots : Type := mkSlots {
  parent_slots : gmap U256 U256;
  slot_keys : gmap U256 U256;
  seen_sha3 : gmap U256 (U256 * U256);
  array_starts : gmap U256 U256;
}.
Definition slots_default : MappingSlots := mkSlots ∅ ∅ ∅ ∅.

Definition record_sha3 (ms : MappingSlots) (result key parent : U256) : MappingSlots :=
  mkSlots (parent_slots ms) (slot_keys ms) (<[result := (key, parent)]> (seen_sha3 ms)) (array_starts ms).
Definition record_array_start (ms : MappingSlots) (result parent : U256) : MappingSlots :=
  mkSlots (parent_slots ms) (slot_keys ms) (seen_sha3 ms) (<[result := parent]> (array_starts ms)).

Definition register (ms : MappingSlots) (slot key parent : U256) : MappingSlots :=
  mkSlots (<[slot := parent]> (parent_slots ms)) (<[slot := key]> (slot_keys ms)) (seen_sha3 ms) (array_starts ms).
Definition has_key (ms : MappingSlots) (slot : U256) : bool := bool_decide (is_Some (slot_keys ms !! slot)).

(** Every call of the recursion registers a slot that was seen, so the number
    of seen slots bounds its depth. *)
Fixpoint insert_go (fuel : nat) (ms : MappingSlots) (slot : U256) : MappingSlots * bool :=
  match fuel with
  | O => (ms, false)
  | S fuel' =>
      match seen_sha3 ms !! slot with
      | None => (ms, false)
      | Some (key, parent) =>
          if has_key ms slot then (ms, false)
          else ((insert_go fuel' (register ms slot key parent) parent).1, true)
      end
  end.
Definition insert (ms : MappingSlots) (slot : U256) : MappingSlots * bool :=
  insert_go (S (size (seen_sha3 ms))) ms slot.

(** The loop over the seen slots, in the order of the map. *)
Fixpoint nearby_go (ms : MappingSlots) (slot : U256) (seen : list (U256 * (U256 * U256))) : MappingSlots * bool :=
  match seen with
  | [] => (ms, false)
  | (known, (key, parent)) :: rest =>
      if (known <=? slot) && (slot - known <? 128) then
        (if has_key ms known then ms else (insert (register ms known key parent) parent).1, true)
      else nearby_go ms slot rest
  end.
Definition insert_nearby (ms : MappingSlots) (slot : U256) : MappingSlots * bool :=
  let '(ms, found) := insert ms slot in
  if found then (ms, true) else nearby_go ms slot (map_to_list (seen_sha3 ms)).

(** The loops that walk to the ultimate parent. The outer [None] is a walk
    that has not ended when the fuel is used up. *)
Fixpoint chain_go (fuel : nat) (ms : MappingSlots) (current : U256) (chain : list U256) : option (option (list U256)) :=
  match fuel with
  | O => None
  | S fuel' =>
      match slot_keys ms !! current with
      | None => Some (Some chain)
      | Some key =>
          match parent_slots ms !! current with
          | None => Some None
          | Some parent =>
              if has_key ms parent then chain_go fuel' ms parent (key :: chain) else Some (Some (key :: chain))
          end
      end
  end.
Fixpoint base_go (fuel : nat) (ms : MappingSlots) (current : U256) : option (option U256) :=
  match fuel with
  | O => None
  | S fuel' =>
      match slot_keys ms !! current with
      | None => Some None
      | Some _ =>
          match parent_slots ms !! current with
          | None => Some None
          | Some parent => if has_key ms parent then base_go fuel' ms parent else Some (Some parent)
          end
      end
  end.

Definition walk_fuel (ms : MappingSlots) : nat := S (size (slot_keys ms)).
Definition key_chain (ms : MappingSlots) (slot : U256) : option (option (list U256)) :=
  if has_key ms slot then chain_go (walk_fuel ms) ms slot [] else Some None.
Definition base_slot (ms : MappingSlots) (slot : U256) : option (option U256) :=
  if has_key ms slot then base_go (walk_fuel ms) ms slot else Some None.

Definition array_start_parent (ms : MappingSlots) (slot : U256) : option U256 := array_starts ms !! slot.
Definition array_start_entries (ms : MappingSlots) : list (U256 * U256) := map_to_list (array_starts ms).
Definition is_mapping_result (ms : MappingSlots) (slot : U256) : bool :=
  match seen_sha3 ms !! slot with Some (k, _) => negb (k =? 0) | None => false end.

(** ** The recursion of the insertion *)

(** The seen slots that are not registered. *)
Definition fresh_slots (ms : MappingSlots) : gmap U256 (U256 * U256) :=
  filter (fun '(s, _) => slot_keys ms !! s = None) (seen_sha3 ms).

Lemma has_key_true ms slot : has_key ms slot = true <-> is_Some (slot_keys ms !! slot).
Proof. apply bool_decide_eq_true. Qed.
Lemma has_key_false ms slot : has_key ms slot = false <-> slot_keys ms !! slot = None.
Proof. unfold has_key. rewrite bool_decide_eq_false, <- eq_None_not_Some. done. Qed.

Lemma fresh_register ms slot key parent :
  seen_sha3 ms !! slot = Some (key, parent) -> slot_keys ms !! slot = None ->
  (size (fresh_slots (register ms slot key parent)) < size (fresh_slots ms))%nat.
Proof.
  intros Hs Hk.
  assert (Hin : fresh_slots ms !! slot = Some (key, parent)) by (by apply map_lookup_filter_Some).
  assert (Hf : fresh_slots (register ms slot key parent) = delete slot (fresh_slots ms)).
  { unfold fresh_slots, register. cbn [slot_keys seen_sha3]. apply map_eq. intros s. destruct (decide (s = slot)) as [->|Hne].
    - rewrite lookup_delete_eq. apply map_lookup_filter_None. right. intros [k p] _. by rewrite lookup_insert_eq.
    - rewrite lookup_delete_ne by done. apply option_eq. intros [k p]. rewrite !map_lookup_filter_Some.
      by rewrite lookup_insert_ne. }
  rewrite Hf, map_size_delete_Some by eauto. assert (size (fresh_slots ms) <> 0%nat); [|lia].
  intros Hz%map_size_empty_inv. rewrite Hz in Hin. by rewrite lookup_empty in Hin.
Qed.

Lemma insert_go_enough n m ms slot :
  (size (fresh_slots ms) < n)%nat -> (size (fresh_slots ms) < m)%nat -> insert_go n ms slot = insert_go m ms slot.
Proof.
  revert m ms slot. induction n as [|n IH]; intros [|m] ms slot Hn Hm; [lia..|]. cbn [insert_go].
  destruct (seen_sha3 ms !! slot) as [[key parent]|] eqn:Es; [|done].
  destruct (has_key ms slot) eqn:Ek; [done|]. apply has_key_false in Ek.
  pose proof (fresh_register _ _ _ _ Es Ek). rewrite (IH m) by lia. done.
Qed.

Lemma fresh_le ms : (size (fresh_slots ms) <= size (seen_sha3 ms))%nat.
Proof. apply map_subseteq_size, map_filter_subseteq. Qed.

(** The recursive equation of the code. *)
Lemma insert_unfold ms slot :
  insert ms slot =
    match seen_sha3 ms !! slot with
    | None => (ms, false)
    | Some (key, parent) =>
        if has_key ms slot then (ms, false) else ((insert (register ms slot key parent) parent).1, true)
    end.
Proof.
  unfold insert. cbn [insert_go]. destruct (seen_sha3 ms !! slot) as [[key parent]|] eqn:Es; [|done].
  destruct (has_key ms slot) eqn:Ek; [done|]. apply has_key_false in Ek.
  pose proof (fresh_register _ _ _ _ Es Ek). pose proof (fresh_le ms).
  change (seen_sha3 (register ms slot key parent)) with (seen_sha3 ms).
  by rewrite (insert_go_enough (size (seen_sha3 ms)) (S (size (seen_sha3 ms)))) by lia.
Qed.

(** ** The invariant: what is registered was seen *)

(** Every registered slot has a key and a parent that stand in the relation
    [R] to it. *)
Definition registered (R : U256 -> U256 -> U256 -> Prop) (ms : MappingSlots) : Prop :=
  dom (parent_slots ms) = dom (slot_keys ms) /\
  forall s k p, slot_keys ms !! s = Some k -> parent_slots ms !! s = Some p -> R s k p.

(** Every hash seen has a key and a parent that stand in the relation to it. *)
Definition seen_as (R : U256 -> U256 -> U256 -> Prop) (ms : MappingSlots) : Prop :=
  forall s k p, seen_sha3 ms !! s = Some (k, p) -> R s k p.

(** Every registered slot has the key and parent of its hash. *)
Definition sound (ms : MappingSlots) : Prop := registered (fun s k p => seen_sha3 ms !! s = Some (k, p)) ms.

(** A parent that was seen is registered with its entry. *)
Definition closed (ms : MappingSlots) : Prop :=
  forall s p, parent_slots ms !! s = Some p -> is_Some (seen_sha3 ms !! p) -> is_Some (slot_keys ms !! p).

Lemma sound_parent ms s k :
  sound ms -> slot_keys ms !! s = Some k -> exists p, parent_slots ms !! s = Some p /\ seen_sha3 ms !! s = Some (k, p).
Proof.
  intros [Hd Hs] Hk. assert (Hin : s ∈ dom (parent_slots ms)) by (rewrite Hd; by eapply elem_of_dom_2).
  apply elem_of_dom in Hin as [p Hp]. eauto.
Qed.

Lemma registered_register R ms s k p : registered R ms -> R s k p -> registered R (register ms s k p).
Proof.
  intros [Hd Hs] Hk. split; cbn [parent_slots slot_keys seen_sha3 register].
  - by rewrite !dom_insert_L, Hd.
  - intros s' k' p'. rewrite !lookup_insert_Some. intros [[<- <-]|[Hne Hk']] [[? <-]|[? Hp']]; [done|done|done|eauto].
Qed.

Lemma sound_register ms s k p :
  sound ms -> seen_sha3 ms !! s = Some (k, p) -> sound (register ms s k p).
Proof. intros Hs Hk. exact (registered_register _ ms s k p Hs Hk). Qed.

(** Whatever holds of all hashes seen holds of what is registered. *)
Lemma insert_registered R ms slot :
  seen_as R ms -> registered R ms -> registered R (insert ms slot).1 /\ seen_sha3 (insert ms slot).1 = seen_sha3 ms.
Proof.
  remember (size (fresh_slots ms)) as n eqn:Hn. revert ms slot Hn.
  induction (lt_wf n) as [n _ IH]. intros ms slot -> Hseen Hs. rewrite insert_unfold.
  destruct (seen_sha3 ms !! slot) as [[key parent]|] eqn:Es; [|done]. destruct (has_key ms slot) eqn:Ek; [done|].
  apply has_key_false in Ek. pose proof (fresh_register _ _ _ _ Es Ek) as Hlt.
  by destruct (IH _ Hlt (register ms slot key parent) parent eq_refl) as [Hs' Heq]; [done|apply registered_register; auto|].
Qed.

Lemma nearby_registered R ms slot seen :
  seen_as R ms -> registered R ms -> (forall s k p, (s, (k, p)) ∈ seen -> seen_sha3 ms !! s = Some (k, p)) ->
  registered R (nearby_go ms slot seen).1 /\ seen_sha3 (nearby_go ms slot seen).1 = seen_sha3 ms.
Proof.
  intros Hseen Hs. induction seen as [|[known [key parent]] seen IH]; intros Hin; [done|]. cbn [nearby_go].
  destruct ((known <=? slot) && _); [|apply IH; intros s k p Hk; apply Hin; set_solver].
  cbn [fst]. destruct (has_key ms known); [done|]. apply (insert_registered R (register ms known key parent)); [done|].
  apply registered_register; [done|]. apply Hseen, Hin. set_solver.
Qed.

Lemma insert_nearby_registered R ms slot :
  seen_as R ms -> registered R ms ->
  registered R (insert_nearby ms slot).1 /\ seen_sha3 (insert_nearby ms slot).1 = seen_sha3 ms.
Proof.
  intros Hseen Hs. unfold insert_nearby. destruct (insert_registered R ms slot Hseen Hs) as [Hs' Heq].
  destruct (insert ms slot) as [ms' found]. cbn [fst] in *. destruct found; [done|].
  assert (Hseen' : seen_as R ms') by (intros s k p; rewrite Heq; apply Hseen).
  destruct (nearby_registered R ms' slot (map_to_list (seen_sha3 ms')) Hseen' Hs') as [Hs'' Heq'];
    [intros s k p; apply elem_of_map_to_list|].
  split; [done|]. by rewrite Heq'.
Qed.

(** The parents of the slots of a registered state, except one. *)
Definition closed_but (x : option U256) (ms : MappingSlots) : Prop :=
  forall s p, parent_slots ms !! s = Some p -> is_Some (seen_sha3 ms !! p) -> is_Some (slot_keys ms !! p) \/ x = Some p.

Lemma insert_spec ms slot :
  sound ms -> closed_but (Some slot) ms ->
  let ms' := (insert ms slot).1 in
  sound ms' /\ closed ms' /\ seen_sha3 ms' = seen_sha3 ms /\ slot_keys ms ⊆ slot_keys ms' /\
  (is_Some (seen_sha3 ms !! slot) -> is_Some (slot_keys ms' !! slot)).
Proof.
  remember (size (fresh_slots ms)) as n eqn:Hn. revert ms slot Hn.
  induction (lt_wf n) as [n _ IH]. intros ms slot -> Hs Hc. rewrite insert_unfold.
  destruct (seen_sha3 ms !! slot) as [[key parent]|] eqn:Es; cbn [fst].
  - destruct (has_key ms slot) eqn:Ek.
    + apply has_key_true in Ek. split; [done|]. split; [|split; [done|split; [done|by intros _]]].
      intros s p Hp Hseen. destruct (Hc s p Hp Hseen) as [?|[= ->]]; done.
    + apply has_key_false in Ek. pose proof (fresh_register _ _ _ _ Es Ek) as Hlt.
      destruct (IH _ Hlt (register ms slot key parent) parent eq_refl) as (Hs' & Hc' & Hseen & Hsub & _).
      * by apply sound_register.
      * intros s p. cbn [parent_slots slot_keys seen_sha3 register]. rewrite lookup_insert_Some.
        intros [[-> ->]|[Hne Hp]] Hse; [by right|]. left. rewrite lookup_insert_is_Some'.
        destruct (Hc s p Hp Hse) as [?|[= ->]]; auto.
      * cbn [fst]. split; [done|]. split; [done|]. split; [done|]. split.
        -- etrans; [|exact Hsub]. cbn [slot_keys register]. by apply insert_subseteq.
        -- intros _. eapply lookup_weaken_is_Some; [|exact Hsub]. cbn [slot_keys register]. rewrite lookup_insert_eq. by eexists.
  - split; [done|]. split; [|split; [done|split; [done|by intros [? ?]]]].
    intros s p Hp Hseen. destruct (Hc s p Hp Hseen) as [?|[= ->]]; [done|]. rewrite Es in Hseen. by destruct Hseen.
Qed.

(** ** Chains *)

(** [s] is reached from [base] through the keys: each hash was seen. *)
Inductive entry_of (ms : MappingSlots) (base : U256) : U256 -> list U256 -> Prop :=
| entry_first s k : seen_sha3 ms !! s = Some (k, base) -> entry_of ms base s [k]
| entry_next s k p ks : seen_sha3 ms !! s = Some (k, p) -> entry_of ms base p ks -> entry_of ms base s (ks ++ [k]).

(** No slot is its own ancestor: a rank drops from each slot to its parent. *)
Definition acyclic (ms : MappingSlots) : Prop :=
  exists rank : U256 -> nat, forall s k p, seen_sha3 ms !! s = Some (k, p) -> (rank p < rank s)%nat.

Lemma entry_of_nonempty ms base s ks : entry_of ms base s ks -> ks <> [].
Proof. by intros [|? ? ? [|]]. Qed.

Lemma entry_of_seen ms base s ks : entry_of ms base s ks -> is_Some (seen_sha3 ms !! s).
Proof. intros [? ? E|? ? ? ? E _]; rewrite E; by eexists. Qed.

(** The registered ancestors of a slot, while there are any. *)
Inductive ancestors (ms : MappingSlots) : U256 -> list U256 -> Prop :=
| anc_last s k p : slot_keys ms !! s = Some k -> parent_slots ms !! s = Some p -> slot_keys ms !! p = None ->
    ancestors ms s [s]
| anc_next s k p l : slot_keys ms !! s = Some k -> parent_slots ms !! s = Some p -> ancestors ms p l ->
    ancestors ms s (s :: l).

Section Walks.
Context (ms : MappingSlots) (Hs : sound ms) (rank : U256 -> nat).
Context (Hrank : forall s k p, seen_sha3 ms !! s = Some (k, p) -> (rank p < rank s)%nat).

Lemma ancestors_exist s : is_Some (slot_keys ms !! s) -> exists l, ancestors ms s l.
Proof.
  remember (rank s) as n eqn:Hn. revert s Hn. induction (lt_wf n) as [n _ IH]. intros s -> [k Hk].
  destruct (sound_parent ms s k Hs Hk) as (p & Hp & Hseen).
  destruct (slot_keys ms !! p) as [k'|] eqn:Ep; [|exists [s]; by econstructor].
  destruct (IH (rank p)) with (s := p) as [l Hl]; [by eapply Hrank|done|by rewrite Ep|]. exists (s :: l). by econstructor.
Qed.

Lemma ancestors_distinct s l : ancestors ms s l ->
  NoDup l /\ Forall (fun x => (rank x <= rank s)%nat /\ x ∈ dom (slot_keys ms)) l.
Proof.
  induction 1 as [s k p Hk Hp _|s k p l Hk Hp _ [Hnd Hall]].
  - split; [apply NoDup_singleton|]. repeat constructor. by eapply elem_of_dom_2.
  - destruct (sound_parent ms s k Hs Hk) as (p' & Hp' & Hseen). assert (p' = p) as -> by congruence.
    pose proof (Hrank _ _ _ Hseen). split.
    + constructor; [|done]. intros Hin. rewrite Forall_forall in Hall. destruct (Hall s Hin). lia.
    + constructor; [split; [done|by eapply elem_of_dom_2]|]. eapply Forall_impl; [exact Hall|]. intros x [? ?]. split; [lia|done].
Qed.

Lemma ancestors_short s l : ancestors ms s l -> (length l < walk_fuel ms)%nat.
Proof.
  intros Ha. destruct (ancestors_distinct s l Ha) as [Hnd Hall]. unfold walk_fuel.
  rewrite <- size_dom, <- (size_list_to_set (C := gset U256) l Hnd).
  assert (list_to_set l ⊆ dom (slot_keys ms)); [|apply Nat.lt_succ_r; by apply subseteq_size].
  intros x. rewrite elem_of_list_to_set. rewrite Forall_forall in Hall. intros Hx. apply (Hall x Hx).
Qed.

(** The walks along the ancestors. *)
Lemma walk_ancestors fuel s l : ancestors ms s l -> (length l < fuel)%nat -> forall acc,
  exists ks base, chain_go fuel ms s acc = Some (Some (ks ++ acc)) /\ base_go fuel ms s = Some (Some base) /\
    forall base0 ks0, closed ms -> seen_sha3 ms !! base0 = None -> entry_of ms base0 s ks0 -> ks = ks0 /\ base = base0.
Proof.
  intros Ha. revert fuel. induction Ha as [s k p Hk Hp Hnone|s k p l Hk Hp Ha IH]; intros [|fuel] Hf acc; try (simpl in Hf; lia);
    cbn [chain_go base_go]; rewrite Hk, Hp; destruct (sound_parent ms s k Hs Hk) as (p' & Hp' & Hseen);
    assert (p' = p) as -> by congruence.
  - rewrite (proj2 (has_key_false ms p)) by done. exists [k], p. split; [done|]. split; [done|].
    intros base0 ks0 Hc Hb0 He0; inversion He0 as [? k0 He|? k0 p0 ks1 He He1]; subst; rewrite Hseen in He; injection He as <- <-; [done|].
    apply entry_of_seen in He1. destruct (Hc s p Hp He1) as [x Hx]. congruence.
  - assert (Hkp : has_key ms p = true) by (apply has_key_true; inversion Ha; by eexists). rewrite Hkp.
    simpl in Hf. destruct (IH fuel ltac:(lia) (k :: acc)) as (ks & base & Hch & Hba & Huniq).
    exists (ks ++ [k]), base. split; [by rewrite <- app_assoc|]. split; [done|].
    intros base0 ks0 Hc Hb0 He0; inversion He0 as [? k0 He|? k0 p0 ks1 He He1]; subst; rewrite Hseen in He; injection He as <- <-.
    + apply has_key_true in Hkp as [x Hx]. destruct (sound_parent ms p x Hs Hx) as (q & _ & Hq). congruence.
    + destruct (Huniq base0 ks1 Hc Hb0 He1) as [-> ->]. done.
Qed.
End Walks.

(** The walks to the keys and to the base slot of a slot end when no slot
    is its own ancestor. *)
Theorem walks_end ms slot :
  sound ms -> acyclic ms -> is_Some (key_chain ms slot) /\ is_Some (base_slot ms slot).
Proof.
  intros Hs [rank Hrank]. unfold key_chain, base_slot. destruct (has_key ms slot) eqn:Ek; [|split; by eexists].
  apply has_key_true in Ek. destruct (ancestors_exist ms Hs rank Hrank slot Ek) as [l Hl].
  pose proof (ancestors_short ms Hs rank Hrank slot l Hl) as Hshort.
  destruct (walk_ancestors ms Hs (walk_fuel ms) slot l Hl Hshort []) as (ks & base & Hch & Hba & _).
  rewrite Hch, Hba. split; by eexists.
Qed.

Lemma entry_keys_found ms base slot ks :
  sound ms -> closed ms -> acyclic ms -> seen_sha3 ms !! base = None -> entry_of ms base slot ks ->
  let ms' := (insert ms slot).1 in
  sound ms' /\ closed ms' /\ key_chain ms' slot = Some (Some ks) /\ base_slot ms' slot = Some (Some base).
Proof.
  intros Hs Hc [rank Hrank] Hb He ms'.
  destruct (insert_spec ms slot Hs) as (Hs' & Hc' & Hseen & _ & Hin); [intros s p Hp Hse; left; by apply (Hc s p)|].
  fold ms' in Hs', Hc', Hseen, Hin. split; [done|]. split; [done|].
  assert (Hr' : forall s k p, seen_sha3 ms' !! s = Some (k, p) -> (rank p < rank s)%nat) by (intros s k p; rewrite Hseen; apply Hrank).
  assert (He' : entry_of ms' base slot ks).
  { clear -He Hseen. clearbody ms'. induction He as [s k E|s k p ks E _ IH]; [constructor|econstructor; [|exact IH]]; by rewrite Hseen. }
  assert (Hk : is_Some (slot_keys ms' !! slot)) by (apply Hin; by apply (entry_of_seen ms base slot ks)).
  unfold key_chain, base_slot. rewrite (proj2 (has_key_true ms' slot) Hk).
  destruct (ancestors_exist ms' Hs' rank Hr' slot Hk) as [l Hl].
  pose proof (ancestors_short ms' Hs' rank Hr' slot l Hl) as Hshort.
  destruct (walk_ancestors ms' Hs' (walk_fuel ms') slot l Hl Hshort []) as (ks' & base' & Hch & Hba & Huniq).
  destruct (Huniq base ks Hc') as [-> ->]; [by rewrite Hseen|done|]. by rewrite Hch, Hba, app_nil_r.
Qed.

(** Storing to an entry of a mapping, nested to any depth, makes its slot
    known: when the hashes from the mapping's slot [base] through the keys
    [ks] to it were seen and [base] is no hash, the keys found for it are [ks],
    the outermost first, and its base slot is [base]. *)
Theorem mapping_entry_keys ms base slot ks :
  sound ms -> closed ms -> acyclic ms -> seen_sha3 ms !! base = None -> entry_of ms base slot ks ->
  let ms' := (insert ms slot).1 in
  sound ms' /\ closed ms' /\ key_chain ms' slot = Some (Some ks) /\ base_slot ms' slot = Some (Some base).
Proof. exact (entry_keys_found ms base slot ks). Qed.

(** A slot without keys has no base slot. *)
Lemma walks_agree_go fuel ms s acc : has_key ms s = true ->
  match chain_go fuel ms s acc with
  | None => base_go fuel ms s = None
  | Some None => base_go fuel ms s = Some None
  | Some (Some _) => exists b, base_go fuel ms s = Some (Some b)
  end.
Proof.
  revert s acc. induction fuel as [|fuel IH]; intros s acc [k Hk]%has_key_true; [done|]. cbn [chain_go base_go]. rewrite Hk.
  destruct (parent_slots ms !! s) as [p|]; [|done]. destruct (has_key ms p) eqn:Ep; [by apply IH|by eexists].
Qed.

Lemma walks_agree ms s :
  match key_chain ms s with
  | None => base_slot ms s = None
  | Some None => base_slot ms s = Some None
  | Some (Some _) => exists b, base_slot ms s = Some (Some b)
  end.
Proof. unfold key_chain, base_slot. destruct (has_key ms s) eqn:E; [by apply walks_agree_go|done]. Qed.

(** Storing near a slot keeps the state sound and closed too. *)
Lemma nearby_invariant ms slot seen :
  sound ms -> closed ms -> (forall s k p, (s, (k, p)) ∈ seen -> seen_sha3 ms !! s = Some (k, p)) ->
  let ms' := (nearby_go ms slot seen).1 in sound ms' /\ closed ms' /\ seen_sha3 ms' = seen_sha3 ms.
Proof.
  intros Hs Hc. induction seen as [|[known [key parent]] seen IH]; intros Hin; [done|]. cbn [nearby_go].
  destruct ((known <=? slot) && _); [|apply IH; intros s k p Hk; apply Hin; set_solver].
  cbn [fst]. destruct (has_key ms known) eqn:Ek; [done|].
  pose proof (Hin known key parent ltac:(set_solver)) as Hseen.
  destruct (insert_spec (register ms known key parent) parent) as (Hs' & Hc' & Heq & _); [by apply sound_register| |done].
  intros s p. cbn [parent_slots slot_keys seen_sha3 register]. rewrite lookup_insert_Some.
  intros [[-> ->]|[_ Hp]] Hse; [by right|left]. rewrite lookup_insert_is_Some'. right. by apply (Hc s p).
Qed.

Lemma insert_nearby_invariant ms slot :
  sound ms -> closed ms -> let ms' := (insert_nearby ms slot).1 in sound ms' /\ closed ms' /\ seen_sha3 ms' = seen_sha3 ms.
Proof.
  intros Hs Hc. unfold insert_nearby.
  destruct (insert_spec ms slot Hs) as (Hs' & Hc' & Heq & _); [intros s p Hp Hse; left; by apply (Hc s p)|].
  destruct (insert ms slot) as [ms' found]. cbn [fst] in *. destruct found; [done|].
  destruct (nearby_invariant ms' slot (map_to_list (seen_sha3 ms')) Hs' Hc') as (? & ? & Heq').
  - intros s k p. apply elem_of_map_to_list.
  - split; [done|]. split; [done|]. etrans; [exact Heq'|exact Heq].
Qed.

(** ** Hashes: what is registered is a hash of its key and parent

    A later hash may take the place of an equal one among those seen; what is
    registered stays a hash of its key and parent either way. *)
Section Recording.
Context (H : U256 -> U256 -> U256).

Definition hash_of (s k p : U256) : Prop := s = H k p.
Definition hashed (ms : MappingSlots) : Prop := registered hash_of ms /\ seen_as hash_of ms.

Lemma record_sha3_hashed ms k p : hashed ms -> hashed (record_sha3 ms (H k p) k p).
Proof.
  intros [Hr Hs]. split; [exact Hr|]. intros s k' p'. cbn [seen_sha3 record_sha3]. rewrite lookup_insert_Some.
  intros [[<- [= <- <-]]|[_ Hse]]; [done|by apply Hs].
Qed.

Lemma insert_nearby_hashed ms slot : hashed ms -> hashed (insert_nearby ms slot).1.
Proof.
  intros [Hr Hs]. destruct (insert_nearby_registered hash_of ms slot Hs Hr) as [Hr' Heq].
  split; [done|]. intros s k p. rewrite Heq. apply Hs.
Qed.

(** The hash of the keys [ks] from the slot [base]. *)
Definition hash_keys (base : U256) (ks : list U256) : U256 := foldl (fun p k => H k p) base ks.

Lemma walks_hash fuel ms s acc ks base :
  registered hash_of ms -> chain_go fuel ms s acc = Some (Some ks) -> base_go fuel ms s = Some (Some base) ->
  exists ks', ks = ks' ++ acc /\ s = hash_keys base ks'.
Proof.
  intros [_ Hr]. revert s acc. induction fuel as [|fuel IH]; intros s acc; [done|].
  cbn [chain_go base_go]. destruct (slot_keys ms !! s) as [k|] eqn:Hk; [|done].
  destruct (parent_slots ms !! s) as [p|] eqn:Hp; [|done]. rewrite (Hr s k p Hk Hp). destruct (has_key ms p) eqn:Ep.
  - intros Hc Hb. destruct (IH p (k :: acc) Hc Hb) as (ks' & -> & ->). exists (ks' ++ [k]).
    split; [by rewrite <- app_assoc|]. unfold hash_keys. by rewrite foldl_snoc.
  - intros [= <-] [= <-]. by exists [k].
Qed.

(** The keys found for a slot are the ones it is the hash of. *)
Lemma entry_hash ms s ks base :
  hashed ms -> key_chain ms s = Some (Some ks) -> base_slot ms s = Some (Some base) -> s = hash_keys base ks.
Proof.
  unfold key_chain, base_slot. intros [Hr _]. destruct (has_key ms s) eqn:E; [|done]. intros Hc Hb.
  destruct (walks_hash _ ms s [] ks base Hr Hc Hb) as (ks' & -> & ->). by rewrite app_nil_r.
Qed.
End Recording.

(** ** Witnesses: [balances[7][9]] of a mapping at slot 3 *)
Definition toy_hash (k p : U256) : U256 := 1000 * (k + 1) + p.
Definition two_hashes : MappingSlots :=
  record_sha3 (record_sha3 slots_default (toy_hash 7 3) 7 3) (toy_hash 9 (toy_hash 7 3)) 9 (toy_hash 7 3).

Lemma two_hashes_acyclic : acyclic two_hashes.
Proof.
  exists Z.to_nat. intros s k p. unfold two_hashes, record_sha3, toy_hash, slots_default. cbn [seen_sha3].
  rewrite !lookup_insert_Some, lookup_empty. intros [[<- [= <- <-]]|[_ [[<- [= <- <-]]|[_ ?]]]]; [lia|lia|done].
Qed.

Lemma walks_end_witness : is_Some (key_chain two_hashes 5).
Proof.
  apply (walks_end two_hashes 5); [|apply two_hashes_acyclic].
  split; [reflexivity|]. intros s k p Hk. discriminate Hk.
Defined.

Lemma mapping_entry_keys_witness :
  let ms' := (insert two_hashes (toy_hash 9 (toy_hash 7 3))).1 in
  key_chain ms' (toy_hash 9 (toy_hash 7 3)) = Some (Some [7; 9]) /\
  base_slot ms' (toy_hash 9 (toy_hash 7 3)) = Some (Some 3).
Proof.
  apply (mapping_entry_keys two_hashes 3 (toy_hash 9 (toy_hash 7 3)) [7; 9]).
  - split; [reflexivity|]. intros s k p Hk. discriminate Hk.
  - intros s p Hp. discriminate Hp.
  - apply two_hashes_acyclic.
  - reflexivity.
  - apply (entry_next _ _ _ 9 (toy_hash 7 3) [7]); [reflexivity|]. apply entry_first. reflexivity.
Defined.

(** A slot that is its own parent is walked without end. *)
Example own_parent_loops :
  let ms := (insert (record_sha3 slots_default 5 1 5) 5).1 in
  forall fuel, chain_go fuel ms 5 [] = None.
Proof.
  cbv zeta. enough (Hgo : forall fuel acc, chain_go fuel (insert (record_sha3 slots_default 5 1 5) 5).1 5 acc = None) by auto.
  induction fuel as [|fuel IH]; intros acc; [done|]. change (chain_go fuel (insert (record_sha3 slots_default 5 1 5) 5).1 5 (1 :: acc) = None).
  apply IH.
Qed.
