(* ===== verification/StorageType.v ===== *)
(** * StorageType: the types of storage variables

    Models [StorageType] of [evm/trace/mod.rs]: the compiler's names of storage
    types, read back into types, and the text of a variable that shares its
    word with others. Sizes and offsets are numbers of bits or bytes. The
    checksum text of an address and the decoding of UTF-8 are parameters. *)
From S2P Require Import Prelude.
From S2P Require Import Env.
From S2P Require Import Paths.
From S2P Require Import SourceMap.

Inductive StorageType : Type :=
| StBool
| StUint (bits : Z)
| StInt (bits : Z)
| StAddress
| StFixedBytes (size : Z)
| StDynamicBytes
| StString
| StArray (element : StorageType) (len : option Z)
| StMapping
| StStruct.

#[export] Instance StorageType_eq_dec : EqDecision StorageType.
Proof. solve_decision. Defined.

(** ** Reading a type's name *)

(** The index of the parenthesis that closes [depth] open ones. *)
Fixpoint closing_paren (depth : Z) (i : nat) (s : string) : option nat :=
  match s with
  | EmptyString => None
  | String a s' =>
      if Ascii.eqb a "(" then closing_paren (depth + 1) (S i) s'
      else if Ascii.eqb a ")" then if depth - 1 =? 0 then Some i else closing_paren (depth - 1) (S i) s'
      else closing_paren depth (S i) s'
  end.
Definition find_matching_paren (s : string) : option nat := closing_paren 1 0 s.

(** [if let Some(x) = t.strip_prefix(p)] *)
Definition with_prefix {A} (p t : string) (some : string -> A) (none : A) : A :=
  match strip_prefix p t with Some rest => some rest | None => none end.

Definition array_len (rest : string) : option (option Z) :=
  if starts_with "dyn_" rest then Some None
  else n ← head (split_on "_" rest); v ← parse_usize n; Some (Some v).

(** An element's name is shorter than the array's, so the length of the name
    is fuel enough. *)
Fixpoint parse_go (fuel : nat) (t : string) : option StorageType :=
  match fuel with
  | O => None
  | S fuel' =>
      if String.eqb t "t_bool" then Some StBool
      else if String.eqb t "t_address" then Some StAddress
      else if String.eqb t "t_bytes_storage" then Some StDynamicBytes
      else if String.eqb t "t_string_storage" then Some StString
      else
        with_prefix "t_uint" t (fun bits => StUint <$> parse_usize bits)
        (with_prefix "t_int" t (fun bits => StInt <$> parse_usize bits)
        (with_prefix "t_bytes" t (fun sz => StFixedBytes <$> parse_usize sz)
        (with_prefix "t_array(" t (fun inner =>
           end_ ← find_matching_paren inner;
           element ← parse_go fuel' (str_take end_ inner);
           len ← array_len (str_drop (S end_) inner);
           Some (StArray element len))
        (if starts_with "t_mapping(" t then Some StMapping
         else if starts_with "t_struct(" t then Some StStruct
         else if starts_with "t_contract(" t then Some StAddress
         else None))))
  end.
Definition parse (t : string) : option StorageType := parse_go (S (String.length t)) t.

Definition slot_size (ty : StorageType) : Z :=
  match ty with
  | StBool => 1
  | StUint bits | StInt bits => bits / 8
  | StAddress => 20
  | StFixedBytes sz => sz
  | StDynamicBytes | StString | StArray _ _ | StMapping | StStruct => 32
  end.

(** ** The text of a value *)

(** [U256]'s operators: a shift by the width or more gives 0, a difference
    wraps around. *)
Definition shl256 (x n : Z) : Z := wrap 256 (Z.shiftl x n).
Definition sub256 (x y : Z) : Z := wrap 256 (x - y).

(** The bytes of a variable in its word. *)
Definition extract (value : U256) (offset bytes : Z) : U256 :=
  if (offset =? 0) && (32 <=? bytes) then value
  else Z.land (Z.shiftr value (offset * 8)) (sub256 (shl256 1 (bytes * 8)) 1).

(** [Address::to_checksum], [str::from_utf8] *)
Class TraceText : Type := { to_checksum : Address -> string; from_utf8 : Bytes -> option string }.

(** [str::trim_start_matches] on a character *)
Fixpoint trim_zeros (s : string) : string :=
  match s with String "0" s' => trim_zeros s' | _ => s end.

Definition QUOTE : ascii := "034".
Definition quoted (s : string) : string := String QUOTE (s +:+ String QUOTE "").

Section Format.
Context `{Text} `{TraceText}.

Definition format_hex (bytes : Bytes) : string :=
  let trimmed := trim_zeros (hex_encode bytes) in
  if String.eqb trimmed "" then "0x00" else "0x" +:+ trimmed.

(** A number in two's complement of 256 bits. *)
Definition format_i256 (u : U256) : string :=
  let i := I256_from_raw u in
  if i <? 0 then "-" +:+ u256_to_string (- i) else u256_to_string i.

(** A short string is kept in its word with twice its length; a length past
    the word is out of range of the slice. *)
Definition format_short_string (value : U256) : Res (option string) :=
  let len := value mod 256 / 2 in
  if Z.odd (value mod 256) then Ok None
  else if len =? 0 then Ok (Some (quoted ""))
  else if len <=? 32 then Ok (quoted <$> from_utf8 (take (Z.to_nat len) (be_bytes 32 value)))
  else Panic "slice index out of range".

Definition format_int (bits : Z) (extracted : U256) : string :=
  if (bits <? 256) && (shl256 1 (wrap 64 (bits - 1)) <=? extracted)
  then "-" +:+ u256_to_string (sub256 (shl256 1 bits) extracted)
  else format_i256 extracted.

Definition format_value (ty : StorageType) (value : U256) (offset bytes : Z) : Res string :=
  let extracted := extract value offset bytes in
  match ty with
  | StBool => Ok (if extracted =? 0 then "false" else "true")
  | StAddress => Ok (to_checksum (wrap 160 extracted))
  | StFixedBytes _ | StDynamicBytes => Ok (format_hex (be_bytes 32 extracted))
  | StString => s ← format_short_string value; mret (default (format_hex (be_bytes 32 value)) s)
  | StInt bits => Ok (format_int bits extracted)
  | StUint _ | StArray _ _ | StMapping | StStruct => Ok (u256_to_string extracted)
  end.
End Format.

(** ** The names that the compiler gives *)

(** No prefix closes more parentheses than it opens. *)
Fixpoint balanced_from (depth : nat) (s : string) : bool :=
  match s with
  | EmptyString => (depth =? 0)%nat
  | String a s' =>
      if Ascii.eqb a "(" then balanced_from (S depth) s'
      else if Ascii.eqb a ")" then match depth with O => false | S d => balanced_from d s' end
      else balanced_from depth s'
  end.
Definition balanced (s : string) : bool := balanced_from 0 s.

Definition no_parens (s : string) : bool := str_all (fun a => negb (Ascii.eqb a "(" || Ascii.eqb a ")")) s.

(** The compiler's name of a type. *)
Inductive solc_name : StorageType -> string -> Prop :=
| name_bool : solc_name StBool "t_bool"
| name_uint n : in_u64 n -> solc_name (StUint n) ("t_uint" +:+ fmt_dec n)
| name_int n : in_u64 n -> solc_name (StInt n) ("t_int" +:+ fmt_dec n)
| name_address : solc_name StAddress "t_address"
| name_contract body suffix : balanced body -> no_parens suffix -> solc_name StAddress ("t_contract(" +:+ body +:+ ")" +:+ suffix)
| name_fixed_bytes n : in_u64 n -> solc_name (StFixedBytes n) ("t_bytes" +:+ fmt_dec n)
| name_bytes : solc_name StDynamicBytes "t_bytes_storage"
| name_string : solc_name StString "t_string_storage"
| name_array el s n : solc_name el s -> in_u64 n ->
    solc_name (StArray el (Some n)) ("t_array(" +:+ s +:+ ")" +:+ fmt_dec n +:+ "_storage")
| name_dyn_array el s : solc_name el s ->
    solc_name (StArray el None) ("t_array(" +:+ s +:+ ")dyn_storage")
| name_mapping body : balanced body -> solc_name StMapping ("t_mapping(" +:+ body +:+ ")")
| name_struct body suffix : balanced body -> no_parens suffix ->
    solc_name StStruct ("t_struct(" +:+ body +:+ ")" +:+ suffix).

Lemma str_cons_app a s t : String a s +:+ t = String a (s +:+ t).
Proof. done. Qed.

Lemma balanced_from_app k a d b : balanced_from k a = true -> balanced_from (k + d) (a +:+ b) = balanced_from d b.
Proof.
  revert k. induction a as [|c a IH]; intros k; [by intros ->%Nat.eqb_eq|]. rewrite str_cons_app. cbn [balanced_from].
  destruct (Ascii.eqb c "("); [intros H; exact (IH (S k) H)|].
  destruct (Ascii.eqb c ")"); [|by apply IH]. destruct k as [|k]; [done|]. intros H. exact (IH k H).
Qed.

Lemma balanced_app a b : balanced a = true -> balanced b = true -> balanced (a +:+ b) = true.
Proof. intros Ha Hb. unfold balanced. change 0%nat with (0 + 0)%nat. by rewrite balanced_from_app. Qed.

Lemma no_parens_balanced s : Is_true (no_parens s) -> balanced s = true.
Proof.
  unfold balanced, no_parens. induction s as [|a s IH]; cbn [str_all balanced_from]; [done|].
  intros [Ha Hs]%andb_prop_elim. apply negb_prop_elim in Ha.
  destruct (Ascii.eqb a "("); [done|]. destruct (Ascii.eqb a ")"); [done|]. auto.
Qed.

Lemma closing_paren_balanced d i s r :
  balanced_from d s = true -> closing_paren (1 + Z.of_nat d) i (s +:+ String ")" r) = Some (i + String.length s)%nat.
Proof.
  revert d i. induction s as [|a s IH]; intros d i; rewrite ?str_cons_app; cbn [balanced_from closing_paren String.length].
  - intros ->%Nat.eqb_eq. simpl. f_equal. lia.
  - destruct (Ascii.eqb a "(").
    + intros H. replace (1 + Z.of_nat d + 1) with (1 + Z.of_nat (S d)) by lia. rewrite (IH _ _ H). f_equal. lia.
    + destruct (Ascii.eqb a ")"); [|intros H; rewrite (IH _ _ H); f_equal; lia].
      destruct d as [|d]; [done|]. intros H. destruct (Z.eqb_spec (1 + Z.of_nat (S d) - 1) 0); [lia|].
      replace (1 + Z.of_nat (S d) - 1) with (1 + Z.of_nat d) by lia. rewrite (IH _ _ H). f_equal. lia.
Qed.

Lemma find_matching_balanced s r : balanced s = true -> find_matching_paren (s +:+ String ")" r) = Some (String.length s).
Proof. apply (closing_paren_balanced 0 0). Qed.

Lemma str_drop_sep s c r : str_drop (S (String.length s)) (s +:+ String c r) = r.
Proof. induction s as [|a s IH]; [by destruct r|]. exact IH. Qed.

Lemma fmt_dec_no_parens n s : no_parens s -> no_parens (fmt_dec n +:+ s).
Proof.
  intros Hs. pose proof (fmt_dec_decimal 64 n "" I) as Hd. change (digits_go 10 64 n "") with (fmt_dec n) in Hd.
  unfold no_parens. induction (fmt_dec n) as [|a t IH]; [done|]. rewrite str_cons_app. cbn [str_all] in *.
  apply andb_prop_elim in Hd as [Ha Ht]. apply andb_prop_intro. split; [|by apply IH].
  destruct (Ascii.eqb_spec a "("%char) as [->|]; [done|]. by destruct (Ascii.eqb_spec a ")"%char) as [->|].
Qed.

Lemma fmt_dec_no_parens' n : no_parens (fmt_dec n).
Proof. pose proof (fmt_dec_no_parens n "" I) as H. by rewrite str_app_nil in H. Qed.

(** A prefix that opens a parenthesis, what is inside, and the rest. *)
Lemma balanced_group p body suffix :
  (forall b, balanced_from 0 (p +:+ b) = balanced_from 1 b) -> balanced body = true -> Is_true (no_parens suffix) ->
  balanced (p +:+ body +:+ ")" +:+ suffix) = true.
Proof.
  intros Hp Hb Hs. unfold balanced. rewrite Hp. change 1%nat with (0 + 1)%nat. rewrite balanced_from_app by done.
  by apply no_parens_balanced.
Qed.

Lemma solc_name_balanced ty s : solc_name ty s -> balanced s = true.
Proof.
  assert (Hnum : forall p n, balanced p = true -> balanced (p +:+ fmt_dec n) = true)
    by (intros p n Hp; apply balanced_app; [done|]; apply no_parens_balanced, fmt_dec_no_parens').
  induction 1 as [|n _|n _| |body suffix Hb Hs|n _| | |el s n _ IH _|el s _ IH|body Hb|body suffix Hb Hs]; try done;
    try (apply Hnum; done).
  - apply (balanced_group "t_contract("); [done|by apply Is_true_true|done].
  - apply (balanced_group "t_array("); [done|done|by apply fmt_dec_no_parens].
  - by apply (balanced_group "t_array(" s "dyn_storage").
  - apply (balanced_group "t_mapping(" body ""); [done|by apply Is_true_true|done].
  - apply (balanced_group "t_struct("); [done|by apply Is_true_true|done].
Qed.

(** No digit begins what a name may continue with. *)
Lemma fmt_dec_not n s c r : is_decimal c = false -> fmt_dec n +:+ s <> String c r.
Proof.
  intros Hc E. destruct (fmt_dec_head n) as (a & t & Ht & _). pose proof (fmt_dec_decimal 64 n "" I) as Hd.
  change (digits_go 10 64 n "") with (fmt_dec n) in Hd. rewrite Ht in E, Hd. injection E as -> _.
  cbn [str_all] in Hd. apply andb_prop_elim in Hd as [Hd _]. by rewrite Hc in Hd.
Qed.

Lemma array_len_dec n : in_u64 n -> array_len (fmt_dec n +:+ "_storage") = Some (Some n).
Proof.
  intros Hn. unfold array_len, starts_with. destruct (strip_prefix "dyn_" _) as [r|] eqn:E.
  - apply strip_prefix_Some in E. by apply fmt_dec_not in E.
  - rewrite (split_on_app "_" (fmt_dec n) "storage"); [cbn; by rewrite parse_usize_dec|].
    apply decimal_no_char; [done|]. apply (fmt_dec_decimal 64 n "" I).
Qed.

Lemma with_prefix_app {A} p t (some : string -> A) none : with_prefix p (p +:+ t) some none = some t.
Proof. unfold with_prefix. by rewrite strip_prefix_app. Qed.

Lemma eqb_app_false p t q : (forall r, p +:+ r = q -> t <> r) -> String.eqb (p +:+ t) q = false.
Proof. intros H. destruct (String.eqb_spec (p +:+ t) q) as [E|]; [|done]. by destruct (H t E). Qed.

Lemma str_nil_app t : "" +:+ t = t.
Proof. done. Qed.

(** Compares the letters that a name starts with. *)
Ltac read_letters :=
  rewrite ?str_cons_app, ?str_nil_app; cbn -[parse_usize find_matching_paren array_len str_take str_drop String.append].

(** Every name the compiler gives to a type of a storage variable is read
    as that type, whatever is nested in it. *)
Theorem parse_solc_name ty s : solc_name ty s -> parse s = Some ty.
Proof.
  unfold parse. intros Hn. enough (Hgo : forall fuel, (String.length s < fuel)%nat -> parse_go fuel s = Some ty) by (apply Hgo; lia).
  induction Hn as [|n Hn|n Hn| |body suffix Hb Hs|n Hn| | |el s n Hel IH Hn|el s Hel IH|body Hb|body suffix Hb Hs];
    intros [|fuel] Hf; try lia; try reflexivity; cbn [parse_go].
  - pose proof (parse_usize_dec n Hn) as Hp. clear Hf. revert Hp. generalize (fmt_dec n). intros x Hp. read_letters. by rewrite Hp.
  - pose proof (parse_usize_dec n Hn) as Hp. clear Hf. revert Hp. generalize (fmt_dec n). intros x Hp. read_letters. by rewrite Hp.
  - pose proof (parse_usize_dec n Hn) as Hp. clear Hf.
    assert (Hne : fmt_dec n <> "_storage") by (rewrite <- (str_app_nil (fmt_dec n)); by apply fmt_dec_not).
    revert Hp Hne. generalize (fmt_dec n). intros x Hp Hne. apply String.eqb_neq in Hne. read_letters. rewrite Hne. by rewrite Hp.
  - pose proof (array_len_dec n Hn) as Hlen. revert Hf Hlen. generalize (fmt_dec n +:+ "_storage"). intros x Hf Hlen.
    assert (Hlt : (String.length s < fuel)%nat) by (rewrite !str_length_app in Hf; simpl in Hf; lia).
    read_letters. rewrite (find_matching_balanced s x) by (by eapply solc_name_balanced). cbn [mbind option_bind].
    rewrite str_take_app, (IH fuel Hlt). cbn [mbind option_bind]. rewrite (str_drop_sep s ")" x). by rewrite Hlen.
  - assert (Hlt : (String.length s < fuel)%nat) by (rewrite !str_length_app in Hf; simpl in Hf; lia).
    read_letters. rewrite (find_matching_balanced s "dyn_storage") by (by eapply solc_name_balanced). cbn [mbind option_bind].
    rewrite str_take_app, (IH fuel Hlt). cbn [mbind option_bind]. by rewrite (str_drop_sep s ")" "dyn_storage").
Qed.

(** A variable of an unknown kind has no type. *)
Example enums_are_not_read : parse "t_enum(Side)12" = None /\ parse "t_address_payable" = None.
Proof. done. Qed.

(** ** Variables that share a word *)
Definition bit_mask (bytes : Z) : Z := Z.ones (8 * bytes).

(** The word with the variable at [offset] set to [v]. *)
Definition with_field (w : U256) (offset bytes v : Z) : U256 :=
  Z.lor (Z.ldiff w (Z.shiftl (bit_mask bytes) (8 * offset))) (Z.shiftl v (8 * offset)).

Record in_word (offset bytes : Z) : Prop := { offset_pos : 0 <= offset; bytes_pos : 1 <= bytes; field_fits : offset + bytes <= 32 }.

Lemma extract_bits w offset bytes i :
  in_u256 w -> in_word offset bytes -> 0 <= i ->
  Z.testbit (extract w offset bytes) i = (i <? 8 * bytes) && Z.testbit w (i + 8 * offset).
Proof.
  intros Hw [Ho Hb Hf] Hi. unfold extract. destruct ((offset =? 0) && (32 <=? bytes)) eqn:E.
  - apply andb_true_iff in E as [->%Z.eqb_eq E%Z.leb_le]. assert (bytes = 32) as -> by lia. rewrite Z.add_0_r.
    destruct (Z.ltb_spec i (8 * 32)); [done|]. apply Z.bits_above_log2; [unfold in_u256, u256_max in Hw; lia|].
    destruct (Z.eq_dec w 0) as [->|]; [simpl; lia|]. apply Z.log2_lt_pow2; [unfold in_u256 in Hw; lia|].
    apply Z.lt_le_trans with (2 ^ 256); [unfold in_u256, u256_max in Hw; lia|]. apply Z.pow_le_mono_r; lia.
  - assert (Hlt : bytes < 32).
    { destruct (Z.eqb_spec offset 0), (Z.leb_spec 32 bytes); simpl in E; first [discriminate E|lia]. }
    assert (Hmask : sub256 (shl256 1 (bytes * 8)) 1 = Z.ones (8 * bytes)).
    { unfold sub256, shl256, wrap. rewrite Z.shiftl_1_l, Z.ones_equiv.
      assert (2 ^ (bytes * 8) < 2 ^ 256) by (apply Z.pow_lt_mono_r; lia).
      assert (1 <= 2 ^ (bytes * 8)) by (apply (Z.pow_le_mono_r 2 0); lia).
      rewrite (Z.mod_small (2 ^ (bytes * 8))) by lia. rewrite Z.mod_small by lia. replace (8 * bytes) with (bytes * 8) by lia. lia. }
    rewrite Hmask, Z.land_spec, Z.shiftr_spec by lia. rewrite Z.testbit_ones by lia.
    rewrite andb_comm. f_equal; [destruct (Z.leb_spec 0 i); [done|lia]|]. f_equal. lia.
Qed.

Lemma bit_mask_bits bytes i : 0 <= bytes -> Z.testbit (bit_mask bytes) i = (0 <=? i) && (i <? 8 * bytes).
Proof. intros Hb. unfold bit_mask. apply Z.testbit_ones. lia. Qed.

Lemma with_field_bits w offset bytes v i :
  0 <= offset -> 0 <= bytes -> 0 <= i ->
  Z.testbit (with_field w offset bytes v) i =
    (Z.testbit w i && negb ((8 * offset <=? i) && (i <? 8 * (offset + bytes)))) || Z.testbit v (i - 8 * offset).
Proof.
  intros Ho Hb Hi. unfold with_field. rewrite Z.lor_spec, Z.ldiff_spec, !Z.shiftl_spec by lia. rewrite bit_mask_bits by lia.
  do 3 f_equal. f_equal; [destruct (Z.leb_spec 0 (i - 8 * offset)), (Z.leb_spec (8 * offset) i); lia|].
  destruct (Z.ltb_spec (i - 8 * offset) (8 * bytes)), (Z.ltb_spec i (8 * (offset + bytes))); lia.
Qed.

Lemma bits_above v n i : 0 <= v < 2 ^ n -> 0 <= n -> n <= i -> Z.testbit v i = false.
Proof.
  intros Hv Hn Hi. destruct (Z.eq_dec v 0) as [->|]; [by rewrite Z.bits_0|]. apply Z.bits_above_log2; [lia|].
  apply Z.lt_le_trans with n; [apply Z.log2_lt_pow2; lia|lia].
Qed.

Lemma bits_below_bound x n : 0 <= n -> 0 <= x -> (forall i, n <= i -> Z.testbit x i = false) -> x < 2 ^ n.
Proof.
  intros Hn Hx Hbits. destruct (Z.eq_dec x 0) as [->|]; [lia|]. apply Z.log2_lt_pow2; [lia|].
  destruct (Z.lt_ge_cases (Z.log2 x) n) as [|Hge]; [done|]. pose proof (Hbits _ Hge) as Hb. rewrite Z.bit_log2 in Hb; [done|lia].
Qed.

Lemma with_field_u256 w offset bytes v :
  in_u256 w -> in_word offset bytes -> 0 <= v < 2 ^ (8 * bytes) -> in_u256 (with_field w offset bytes v).
Proof.
  intros Hw [Ho Hb Hf] Hv. unfold in_u256, u256_max in *.
  assert (Hpos : 0 <= with_field w offset bytes v).
  { unfold with_field. apply Z.lor_nonneg. split; [apply Z.ldiff_nonneg; lia|]. apply Z.shiftl_nonneg. lia. }
  enough (with_field w offset bytes v < 2 ^ 256) by lia. apply bits_below_bound; [lia|done|]. intros i Hi.
  rewrite with_field_bits by lia. rewrite (bits_above w 256) by lia. rewrite (bits_above v (8 * bytes)) by lia. done.
Qed.

(** What is written is read, and nothing else changes. *)
Lemma extract_with_field w offset bytes v :
  in_u256 w -> in_word offset bytes -> 0 <= v < 2 ^ (8 * bytes) -> extract (with_field w offset bytes v) offset bytes = v.
Proof.
  intros Hw Hf Hv. pose proof (with_field_u256 w offset bytes v Hw Hf Hv) as Hw'. apply Z.bits_inj'. intros i Hi.
  rewrite extract_bits by done. destruct Hf as [Ho Hb Hf]. rewrite with_field_bits by lia.
  replace (i + 8 * offset - 8 * offset) with i by lia.
  destruct (Z.ltb_spec i (8 * bytes)); [|by rewrite (bits_above v (8 * bytes)) by lia].
  destruct (Z.leb_spec (8 * offset) (i + 8 * offset)), (Z.ltb_spec (i + 8 * offset) (8 * (offset + bytes))); try lia.
  simpl. by rewrite andb_false_r.
Qed.

Definition disjoint_fields (o b o' b' : Z) : Prop := o + b <= o' \/ o' + b' <= o.

Lemma extract_other_field w offset bytes v offset' bytes' :
  in_u256 w -> in_word offset bytes -> in_word offset' bytes' -> 0 <= v < 2 ^ (8 * bytes) ->
  disjoint_fields offset bytes offset' bytes' ->
  extract (with_field w offset bytes v) offset' bytes' = extract w offset' bytes'.
Proof.
  intros Hw Hf Hf' Hv Hd. pose proof (with_field_u256 w offset bytes v Hw Hf Hv) as Hw'. apply Z.bits_inj'. intros i Hi.
  rewrite !extract_bits by done. destruct (Z.ltb_spec i (8 * bytes')); [|done]. cbn [andb].
  destruct Hf as [Ho Hb Hf], Hf' as [Ho' Hb' Hf']. rewrite with_field_bits by lia. destruct Hd as [Hd|Hd].
  - rewrite (bits_above v (8 * bytes)) by lia.
    destruct (Z.ltb_spec (i + 8 * offset') (8 * (offset + bytes))); [lia|]. by rewrite andb_false_r, andb_true_r, orb_false_r.
  - rewrite (Z.testbit_neg_r v) by lia.
    destruct (Z.leb_spec (8 * offset) (i + 8 * offset')); [lia|]. by rewrite andb_true_r, orb_false_r.
Qed.

(** ** The text of a variable *)
Section Texts.
Context `{Text} `{TraceText}.

Definition signed_text (i : Z) : string := if i <? 0 then "-" +:+ u256_to_string (- i) else u256_to_string i.

(** A value of a type, kept in [bytes] bytes as [raw], has the text. *)
Inductive shows : StorageType -> Z -> Z -> string -> Prop :=
| shows_bool (b : bool) : shows StBool 1 (if b then 1 else 0) (if b then "true" else "false")
| shows_uint bytes n : 1 <= bytes <= 32 -> 0 <= n < 2 ^ (8 * bytes) -> shows (StUint (8 * bytes)) bytes n (u256_to_string n)
| shows_int bytes i : 1 <= bytes <= 32 -> - 2 ^ (8 * bytes - 1) <= i < 2 ^ (8 * bytes - 1) ->
    shows (StInt (8 * bytes)) bytes (i mod 2 ^ (8 * bytes)) (signed_text i)
| shows_address a : 0 <= a <= address_max -> shows StAddress 20 a (to_checksum a).

Lemma shows_size ty bytes raw text : shows ty bytes raw text -> 1 <= bytes <= 32 /\ 0 <= raw < 2 ^ (8 * bytes).
Proof.
  intros [b|? n Hb Hn|? i Hb Hi|a Ha]; [split; [lia|destruct b; lia]|done| |unfold address_max in Ha; lia].
  split; [done|]. apply Z.mod_pos_bound. lia.
Qed.

Lemma format_int_signed bytes i :
  1 <= bytes <= 32 -> - 2 ^ (8 * bytes - 1) <= i < 2 ^ (8 * bytes - 1) ->
  format_int (8 * bytes) (i mod 2 ^ (8 * bytes)) = signed_text i.
Proof.
  intros Hb Hi. unfold format_int, signed_text.
  assert (Hpow : 2 ^ (8 * bytes) = 2 * 2 ^ (8 * bytes - 1)) by (rewrite <- Z.pow_succ_r by lia; f_equal; lia).
  assert (Hpos : 0 < 2 ^ (8 * bytes - 1)) by lia. destruct (Z.ltb_spec (8 * bytes) 256) as [Hlt|Hge]; cbn [andb].
  - assert (Hle : 2 ^ (8 * bytes) < 2 ^ 256) by (apply Z.pow_lt_mono_r; lia).
    assert (Hhalf : shl256 1 (wrap 64 (8 * bytes - 1)) = 2 ^ (8 * bytes - 1)).
    { unfold shl256, wrap. rewrite (Z.mod_small (8 * bytes - 1)) by lia. rewrite Z.shiftl_1_l. apply Z.mod_small. lia. }
    assert (Hmask : shl256 1 (8 * bytes) = 2 ^ (8 * bytes)).
    { unfold shl256, wrap. rewrite Z.shiftl_1_l. apply Z.mod_small. lia. }
    rewrite Hhalf, Hmask. destruct (Z.ltb_spec i 0) as [Hneg|Hnn].
    + assert (Hm : i mod 2 ^ (8 * bytes) = i + 2 ^ (8 * bytes)) by (symmetry; apply Z.mod_unique with (-1); lia).
      rewrite Hm. destruct (Z.leb_spec (2 ^ (8 * bytes - 1)) (i + 2 ^ (8 * bytes))); [|lia].
      unfold sub256, wrap. do 2 f_equal. rewrite Z.mod_small by lia. lia.
    + rewrite Z.mod_small by lia. destruct (Z.leb_spec (2 ^ (8 * bytes - 1)) i); [lia|].
      unfold format_i256, I256_from_raw. assert (2 ^ (8 * bytes - 1) <= 2 ^ 255) by (apply Z.pow_le_mono_r; lia).
      destruct (Z.ltb_spec i (2 ^ 255)); [|lia]. destruct (Z.ltb_spec i 0); [lia|done].
  - assert (bytes = 32) as -> by lia. unfold format_i256, I256_from_raw. change (8 * 32 - 1) with 255 in *. change (8 * 32) with 256 in *.
    destruct (Z.ltb_spec i 0) as [Hneg|Hnn].
    + assert (Hm : i mod 2 ^ 256 = i + 2 ^ 256) by (symmetry; apply Z.mod_unique with (-1); lia). rewrite Hm.
      destruct (Z.ltb_spec (i + 2 ^ 256) (2 ^ 255)); [lia|]. replace (i + 2 ^ 256 - 2 ^ 256) with i by lia.
      destruct (Z.ltb_spec i 0); [done|lia].
    + rewrite Z.mod_small by lia. destruct (Z.ltb_spec i (2 ^ 255)); [|lia]. destruct (Z.ltb_spec i 0); [lia|done].
Qed.

(** A variable that is stored in some bytes of a word is shown with its
    value, signed ones with their sign, whatever else the word holds; and the
    store changes no other variable of the word. *)
Theorem packed_variable_text ty bytes raw text w offset :
  shows ty bytes raw text -> in_u256 w -> 0 <= offset -> offset + bytes <= 32 ->
  let w' := with_field w offset bytes raw in
  format_value ty w' offset bytes = Ok text /\
  forall offset' bytes', in_word offset' bytes' -> disjoint_fields offset bytes offset' bytes' ->
    extract w' offset' bytes' = extract w offset' bytes'.
Proof.
  intros Hs Hw Ho Hfit w'. destruct (shows_size _ _ _ _ Hs) as [Hb Hraw].
  assert (Hf : in_word offset bytes) by (split; lia). split.
  - assert (He : extract w' offset bytes = raw) by (by apply extract_with_field). unfold format_value. rewrite He.
    destruct Hs as [b|? n _ Hn|? i Hb' Hi|a Ha]; [by destruct b|done| |].
    + by rewrite format_int_signed.
    + unfold wrap. rewrite Z.mod_small; [done|]. unfold address_max in Ha. lia.
  - intros offset' bytes' Hf' Hd. by apply extract_other_field.
Qed.
End Texts.

(** ** Witnesses *)
Section Witness.
Import Toy.
#[local] Instance toy_trace_text : TraceText :=
  {| to_checksum a := u256_to_string a; from_utf8 bs := Some (hex_encode bs) |}.

Lemma parse_solc_name_witness : parse "t_array(t_uint8)3_storage" = Some (StArray (StUint 8) (Some 3)).
Proof.
  apply (parse_solc_name (StArray (StUint 8) (Some 3))). apply (name_array (StUint 8) "t_uint8" 3); [|unfold in_u64, u64_max; lia].
  apply (name_uint 8). unfold in_u64, u64_max. lia.
Defined.

(** An [int8] of -5 at byte 3 of a word that is full of other bits. *)
Lemma packed_variable_text_witness :
  format_value (StInt 8) (with_field u256_max 3 1 251) 3 1 = Ok (signed_text (-5)) /\
  extract (with_field u256_max 3 1 251) 4 2 = extract u256_max 4 2.
Proof.
  destruct (packed_variable_text (StInt 8) 1 251 (signed_text (-5)) u256_max 3) as [Htext Hother].
  - apply (shows_int 1 (-5)); lia.
  - unfold in_u256, u256_max. lia.
  - lia.
  - lia.
  - split; [exact Htext|]. apply Hother; [split; lia|left; lia].
Defined.

(** The word of a string that claims more than 32 bytes. *)
Example long_short_string_panics : format_value StString 128 0 32 = Panic "slice index out of range".
Proof. done. Qed.
End Witness.
