(* ===== verification/StorageNames.v ===== *)
(** * StorageNames: the variable a storage slot belongs to

    Models the storage half of [evm/trace/context.rs]: the layout that the
    compiler prints is read into names, arrays and mappings; a slot is resolved
    to the text of a variable, an array element or a mapping entry and to its
    type; and a changed word to the variables that changed in it. A hash map is
    walked in the order of [map_to_list]; an early [return] or [?] of a loop is
    a [Done]. Flattening nested structs recurses as deep as they nest, with a
    stack as fuel; the walk along the values of a mapping loops for as long as
    they are mappings, with the number of types as fuel. *)
From S2P Require Import Prelude.
From S2P Require Import Env.
From S2P Require Import Compare.
From S2P Require Import SolcOutput.
From S2P Require Import SourceMap.
From S2P Require Import BytecodeIndex.
From S2P Require Import MappingSlots.
From S2P Require Import StorageType.

(** ** The layout, as the compiler prints it *)
Record LayoutEntry : Type := mkLayoutEntry { le_label : string; le_offset : Z; le_slot : string; le_type : string }.
Record TypeInfo : Type := mkTypeInfo {
  number_of_bytes : string;
  ti_key : option string;
  ti_value : option string;
  ti_base : option string;
  ti_members : option (list LayoutEntry);
}.
Definition Types : Type := list (string * TypeInfo).
Record StorageLayout : Type := mkLayout { storage : list LayoutEntry; types : option Types }.

(** ** The index *)
Record StructField : Type := mkField { sf_name : string; slot_offset : Z; sf_type : StorageType; sf_bytes : Z }.
Record ArrayInfo : Type := mkArray {
  ar_name : string;
  element_type : StorageType;
  element_slots : Z;
  start_slot : U256;
  ar_len : option Z;
  struct_fields : option (list StructField);
}.
Record StorageEntry : Type := mkStorageEntry { se_offset : Z; se_name : string; se_type : StorageType; se_bytes : Z }.
Record MappingInfo : Type := mkMapping {
  mi_name : string;
  mi_base : U256;
  key_types : list string;
  value_storage_type : StorageType;
  value_struct_fields : option (list StructField);
  value_element_slots : Z;
}.

Definition div_ceil (x y : Z) : Z := (x + y - 1) / y.

(** [numberOfBytes] of a type. *)
Definition type_bytes (ts : Types) (t : string) : option Z := i ← get_name t ts; parse_usize (number_of_bytes i).

Definition element_byte_slots (l : StorageLayout) (array_type : string) : Z :=
  match types l with
  | None => 1
  | Some ts =>
      let info := get_name array_type ts in
      let of_base := i ← info; b ← ti_base i; type_bytes ts b in
      let own := i ← info; parse_usize (number_of_bytes i) in
      div_ceil (default 32 (match of_base with Some n => Some n | None => own end)) 32
  end.

(** The loops along the values of a mapping. *)
Fixpoint key_types_go (fuel : nat) (ts : Types) (current : string) : Res (list string) :=
  match fuel with
  | O => Panic "endless loop"
  | S fuel' =>
      match get_name current ts with
      | None => Ok []
      | Some i =>
          match ti_key i with
          | None => Ok []
          | Some k => match ti_value i with
                      | Some v => ks ← key_types_go fuel' ts v; mret (k :: ks)
                      | None => Ok [k]
                      end
          end
      end
  end.
Fixpoint value_type_go (fuel : nat) (ts : Types) (current : string) : Res string :=
  match fuel with
  | O => Panic "endless loop"
  | S fuel' =>
      match get_name current ts with
      | None => Ok current
      | Some i =>
          match ti_key i, ti_value i with
          | Some _, Some v => value_type_go fuel' ts v
          | _, _ => Ok current
          end
      end
  end.
Definition resolve_mapping_key_types (l : StorageLayout) (t : string) : Res (list string) :=
  match types l with None => Ok [] | Some ts => key_types_go (S (length ts)) ts t end.
Definition resolve_mapping_value_type (l : StorageLayout) (t : string) : Res string :=
  match types l with None => Ok t | Some ts => value_type_go (S (length ts)) ts t end.

(** ** Structs, flattened *)
Definition STACK_OVERFLOW : string := "stack overflow".

Section Fields.
Context (collect : string -> string -> Z -> Res (option (list StructField))) (ts : Types).

(** The fields of one member: its own when it is a struct that can be read. *)
Definition member_fields (prefix : string) (base_offset : Z) (m : LayoutEntry) : Res (option (list StructField)) :=
  match parse_usize (le_slot m), parse (le_type m) with
  | Some slot_off, Some ty =>
      let bytes := default 32 (type_bytes ts (le_type m)) in
      let abs_offset := base_offset + slot_off in
      let name := if String.eqb prefix "" then le_label m else prefix +:+ "." +:+ le_label m in
      let single := [mkField name abs_offset ty bytes] in
      if bool_decide (ty = StStruct) then
        sub ← collect (le_type m) name abs_offset;
        mret (Some (default single sub))
      else mret (Some single)
  | _, _ => mret None
  end.

Fixpoint members_fields (prefix : string) (base_offset : Z) (ms : list LayoutEntry) : Res (option (list StructField)) :=
  match ms with
  | [] => Ok (Some [])
  | m :: rest =>
      fs ← member_fields prefix base_offset m;
      match fs with
      | None => Ok None
      | Some fs => more ← members_fields prefix base_offset rest; mret (option_map (app fs) more)
      end
  end.
End Fields.

Fixpoint collect_fields (stack : nat) (ts : Types) (type_name prefix : string) (base_offset : Z)
    : Res (option (list StructField)) :=
  match stack with
  | O => Panic STACK_OVERFLOW
  | S stack' =>
      match get_name type_name ts with
      | None => Ok None
      | Some i => members_fields (collect_fields stack' ts) ts prefix base_offset (default [] (ti_members i))
      end
  end.

Definition parse_struct_fields (stack : nat) (l : StorageLayout) (type_name : string) : Res (option (list StructField)) :=
  match (ts ← types l;
         i ← get_name type_name ts;
         let struct_type := default type_name (ti_base i) in
         si ← get_name struct_type ts;
         if bool_decide (default [] (ti_members si) = []) then None else Some (ts, struct_type)) with
  | None => Ok None
  | Some (ts, struct_type) => collect_fields stack ts struct_type "" 0
  end.

(** ** Reading the layout *)
Section Layout.
Context `{Text} `{KeccakCode} (stack : nat) (l : StorageLayout) (ts : Types).

(** [keccak256] of a word. *)
Definition keccak_word (w : U256) : U256 := keccak_code (be_bytes 32 w).

Definition array_info (e : LayoutEntry) (slot : U256) (element : StorageType) (len : option Z) : Res ArrayInfo :=
  fields ← parse_struct_fields stack l (le_type e);
  mret (mkArray (le_label e) element (element_byte_slots l (le_type e))
          (match len with Some _ => slot | None => keccak_word slot end) len fields).

Definition mapping_info (e : LayoutEntry) (slot : U256) : Res (option MappingInfo) :=
  match i ← get_name (le_type e) ts; ti_key i with
  | None => Ok None
  | Some _ =>
      keys ← resolve_mapping_key_types l (le_type e);
      value ← resolve_mapping_value_type l (le_type e);
      fields ← parse_struct_fields stack l value;
      mret (Some (mkMapping (le_label e) slot keys (default StMapping (parse value)) fields (element_byte_slots l value)))
  end.

Definition Names : Type := gmap U256 (list StorageEntry).
Record Layout : Type := mkParsed { names : Names; arrays : list ArrayInfo; mappings : list MappingInfo }.

(** One variable of the layout. *)
Definition read_entry (r : Layout) (e : LayoutEntry) : Res (option Layout) :=
  match ok (u256_parse (le_slot e)), parse (le_type e), in_range 0 u64_max (le_offset e) with
  | Some slot, Some ty, Some offset =>
      let entry := mkStorageEntry offset (le_label e) ty (default 32 (type_bytes ts (le_type e))) in
      let ns := <[slot := default [] (names r !! slot) ++ [entry]]> (names r) in
      match ty with
      | StArray element len =>
          a ← array_info e slot element len;
          mret (Some (mkParsed ns (arrays r ++ [a]) (mappings r)))
      | StMapping =>
          m ← mapping_info e slot;
          mret (Some (mkParsed ns (arrays r) (mappings r ++ option_list m)))
      | _ => mret (Some (mkParsed ns (arrays r) (mappings r)))
      end
  | _, _, _ => mret None
  end.

(** The first variable that cannot be read ends the reading. *)
Fixpoint read_entries (r : Layout) (es : list LayoutEntry) : Res (option Layout) :=
  match es with
  | [] => Ok (Some r)
  | e :: rest => r' ← read_entry r e; match r' with Some r' => read_entries r' rest | None => Ok None end
  end.
End Layout.

Definition latest_first (a b : ArrayInfo) : comparison := Z.compare (start_slot b) (start_slot a).

Definition parse_storage_layout `{Text} `{KeccakCode} (stack : nat) (l : StorageLayout) : Res (option Layout) :=
  match types l with
  | None => Ok None
  | Some ts =>
      r ← read_entries stack l ts (mkParsed ∅ [] []) (storage l);
      mret (r ← r;
            if bool_decide (names r = ∅) then None
            else Some (mkParsed (names r) (sort_by latest_first (arrays r)) (mappings r)))
  end.

(** ** Loops with early returns *)
Inductive Flow (A : Type) : Type := Next | Done (r : option A).
Arguments Next {A}.
Arguments Done {A} r.

Definition then_do {A} (m : Res (Flow A)) (k : Res (Flow A)) : Res (Flow A) :=
  f ← m; match f with Done r => mret (Done r) | Next => k end.
Fixpoint loop {A X} (body : X -> Res (Flow A)) (xs : list X) : Res (Flow A) :=
  match xs with [] => Ok Next | x :: rest => then_do (body x) (loop body rest) end.
Definition finish {A} (m : Res (Flow A)) : Res (option A) :=
  f ← m; mret (match f with Done r => r | Next => None end).

(** A division of [U256] or [usize]. *)
Definition divide (x y : Z) : Res Z := if y =? 0 then Panic "division by zero" else Ok (x / y).
Definition modulo (x y : Z) : Res Z := if y =? 0 then Panic "division by zero" else Ok (x mod y).

(** A walk that must have ended. *)
Definition walked {A} (w : option A) : Res A := match w with Some a => Ok a | None => Panic "endless loop" end.

(** ** Resolution *)
Record StorageContext : Type := mkStorageContext {
  storage_names : gmap string Names;
  array_infos : gmap string (list ArrayInfo);
  mapping_infos : gmap string (list MappingInfo);
}.

Definition MAX_DYNAMIC : Z := 10000000.
Definition in_usize (z : Z) : bool := z <=? u64_max.

(** The index of a slot in an array, when the array reaches to it. *)
Definition array_index (slot : U256) (a : ArrayInfo) : Res (option U256) :=
  if start_slot a <=? slot then
    idx ← divide (slot - start_slot a) (element_slots a);
    mret (if match ar_len a with
             | Some len => in_usize idx && (idx <? len)
             | None => Z.min idx u64_max <? MAX_DYNAMIC
             end then Some idx else None)
  else Ok None.

(** The last start wins, the first array among equal ones. *)
Fixpoint best_array_go (slot : U256) (best : option (ArrayInfo * U256)) (l : list ArrayInfo) : Res (option (ArrayInfo * U256)) :=
  match l with
  | [] => Ok best
  | a :: rest =>
      idx ← array_index slot a;
      best_array_go slot
        (match idx with
         | None => best
         | Some i => if match best with Some (b, _) => start_slot b <? start_slot a | None => true end
                     then Some (a, i) else best
         end) rest
  end.
Definition best_array (slot : U256) (l : list ArrayInfo) : Res (option (ArrayInfo * U256)) := best_array_go slot None l.

Definition field_at (fields : option (list StructField)) (offset : Z) : option StructField :=
  fs ← fields; find (fun f => slot_offset f =? offset) fs.

Definition is_dynamic (ty : StorageType) : bool := match ty with StArray _ None => true | _ => false end.
Definition is_fixed (ty : StorageType) : bool := match ty with StArray _ (Some _) => true | _ => false end.

Definition named_entry (e : StorageEntry) : string :=
  if is_fixed (se_type e) then se_name e +:+ "[0]"
  else if is_dynamic (se_type e) then se_name e +:+ ".length" else se_name e.

Definition indexed (name index : string) : string := name +:+ "[" +:+ index +:+ "]".
Definition dotted (name field : string) : string := name +:+ "." +:+ field.

Section Resolve.
Context `{Text} `{TraceText} `{KeccakCode} (ctx : StorageContext) (contract : string) (slot : U256).

(** The first variable of a slot. *)
Definition direct_entry : option StorageEntry :=
  ns ← storage_names ctx !! contract; es ← ns !! slot; head es.

(** The array that the slot is in, the index and the slot within the element. *)
Definition array_slot : Res (option (ArrayInfo * U256 * Z)) :=
  match array_infos ctx !! contract with
  | None => Ok None
  | Some l =>
      best ← best_array slot l;
      match best with
      | None => Ok None
      | Some (a, index) =>
          off ← modulo (slot - start_slot a) (element_slots a);
          mret (Some (a, index, if off <=? u64_max then off else 0))
      end
  end.

(** The text of an entry: the mapping's name with its keys. *)
Fixpoint label_keys (label : string) (keys : list (U256 * string)) : Res (option string) :=
  match keys with
  | [] => Ok (Some label)
  | (key, key_type) :: rest =>
      match parse key_type with
      | None => Ok None
      | Some ty => text ← format_value ty key 0 32; label_keys (indexed label text) rest
      end
  end.
Definition entry_label (info : MappingInfo) (keys : list U256) : Res (option string) :=
  label_keys (mi_name info) (zip keys (key_types info)).

(** The mapping with a base slot. *)
Definition find_mapping (infos : list MappingInfo) (b : U256) : option MappingInfo :=
  find (fun i => mi_base i =? b) infos.

Section Names.

Definition name_direct : Res (Flow string) :=
  Ok (match direct_entry with Some e => Done (Some (named_entry e)) | None => Next end).

Definition name_array : Res (Flow string) :=
  found ← array_slot;
  mret (match found with
        | None => Next
        | Some (a, index, off) =>
            let name := indexed (ar_name a) (u256_to_string index) in
            Done (Some (match field_at (struct_fields a) off with Some f => dotted name (sf_name f) | None => name end))
        end).

(** The slot of an entry itself. *)
Definition name_entry (ms : MappingSlots) : Res (Flow string) :=
  keys ← walked (key_chain ms slot);
  match keys with
  | None => mret Next
  | Some keys =>
      b ← walked (base_slot ms slot);
      match b, mapping_infos ctx !! contract with
      | Some b, Some infos =>
          match find_mapping infos b with
          | None => mret Next
          | Some info =>
              label ← entry_label info keys;
              mret (Done (label ← label;
                Some (if is_dynamic (value_storage_type info) then dotted label "length"
                      else match field_at (value_struct_fields info) 0 with
                           | Some f => dotted label (sf_name f)
                           | None => label
                           end)))
          end
      | _, _ => mret (Done None)
      end
  end.

(** A slot in a fixed array that is a field of a struct. *)
Definition name_field_array (label : string) (offset : Z) (f : StructField) : Res (Flow string) :=
  match sf_type f with
  | StArray element (Some len) =>
      if (slot_offset f <=? offset) && (offset <? slot_offset f + div_ceil (sf_bytes f) 32) then
        let slot_index := offset - slot_offset f in
        let slots := div_ceil (slot_size element) 32 in
        index ← (if 1 <? slots then divide slot_index slots
                 else per ← divide 32 (slot_size element); mret (slot_index * per));
        mret (if index <? len then Done (Some (indexed (dotted label (sf_name f)) (fmt_dec index))) else Next)
      else Ok Next
  | _ => Ok Next
  end.

(** A slot at an offset from an entry: a field of a struct or an element of a
    fixed array. *)
Definition name_within (info : MappingInfo) (label : string) (offset : Z) : Res (Flow string) :=
  then_do
    (match field_at (value_struct_fields info) offset with
     | Some f => Ok (Done (Some (if is_fixed (sf_type f) then indexed (dotted label (sf_name f)) "0"
                                 else dotted label (sf_name f))))
     | None => loop (name_field_array label offset) (default [] (value_struct_fields info))
     end)
  (then_do
    (match value_storage_type info with
     | StArray _ (Some len) =>
         index ← divide offset (value_element_slots info);
         if index <? len then
           off ← modulo offset (value_element_slots info);
           let name := indexed label (fmt_dec index) in
           mret (Done (Some (match field_at (value_struct_fields info) off with
                             | Some f => dotted name (sf_name f)
                             | None => name
                             end)))
         else mret Next
     | _ => Ok Next
     end)
    (Ok (if is_dynamic (value_storage_type info) && (offset =? 0) then Done (Some (dotted label "length")) else Next))).

(** The mapping that a registered slot is an entry of; the outer [None] is the
    return when the contract has no mappings. *)
Definition mapping_at (b : option U256) : option (option MappingInfo) :=
  match b with
  | None => Some None
  | Some b => infos ← mapping_infos ctx !! contract; Some (find_mapping infos b)
  end.
Definition entry_mapping (ms : MappingSlots) (m_slot : U256) : Res (option (option (MappingInfo * list U256))) :=
  keys ← walked (key_chain ms m_slot);
  match keys with
  | None => mret (Some None)
  | Some keys =>
      b ← walked (base_slot ms m_slot);
      mret (option_map (option_map (fun i => (i, keys))) (mapping_at b))
  end.

Definition name_near (ms : MappingSlots) (m_slot : U256) : Res (Flow string) :=
  if (m_slot <=? slot) && in_usize (slot - m_slot) then
    found ← entry_mapping ms m_slot;
    match found with
    | None => mret (Done None)
    | Some None => mret Next
    | Some (Some (info, keys)) =>
        label ← entry_label info keys;
        match label with
        | None => mret (Done None)
        | Some label => name_within info label (slot - m_slot)
        end
    end
  else Ok Next.

(** The data of a dynamic array that is the value of an entry. *)
Definition name_dynamic (ms : MappingSlots) (m_slot : U256) : Res (Flow string) :=
  let data_start := keccak_word m_slot in
  let index := slot - data_start in
  if (data_start <=? slot) && (index <? MAX_DYNAMIC) then
    found ← entry_mapping ms m_slot;
    match found with
    | None => mret (Done None)
    | Some None => mret Next
    | Some (Some (info, keys)) =>
        if is_dynamic (value_storage_type info) then
          label ← entry_label info keys;
          match label with
          | None => mret (Done None)
          | Some label =>
              off ← modulo index (value_element_slots info);
              let name := indexed label (fmt_dec index) in
              mret (Done (Some (match field_at (value_struct_fields info) off with
                                | Some f => dotted name (sf_name f)
                                | None => name
                                end)))
          end
        else mret Next
    end
  else Ok Next.

(** The data of a dynamic array that is a field of an array's elements. *)
Definition nested_array (ms : MappingSlots) (dp : U256 * U256)
    : Res (option (ArrayInfo * U256 * StructField * StorageType * Z)) :=
  let '(data_start, parent) := dp in
  let offset := slot - data_start in
  if is_mapping_result ms parent || negb ((data_start <=? slot) && in_usize offset) then Ok None
  else
    match array_infos ctx !! contract with
    | None => Ok None
    | Some l =>
        best ← best_array parent l;
        match best with
        | None => Ok None
        | Some (a, elem_idx) =>
            rel ← modulo (parent - start_slot a) (element_slots a);
            match field_at (struct_fields a) (if rel <=? u64_max then rel else 0) with
            | None => Ok None
            | Some f =>
                match sf_type f with
                | StArray element None =>
                    index ← divide offset (div_ceil (slot_size element) 32);
                    mret (if MAX_DYNAMIC <=? index then None else Some (a, elem_idx, f, element, index))
                | _ => Ok None
                end
            end
        end
    end.
Definition name_nested (ms : MappingSlots) (dp : U256 * U256) : Res (Flow string) :=
  found ← nested_array ms dp;
  mret (match found with
        | None => Next
        | Some (a, elem_idx, f, _, index) =>
            Done (Some (indexed (dotted (indexed (ar_name a) (u256_to_string elem_idx)) (sf_name f)) (fmt_dec index)))
        end).

Definition registered_slots (ms : MappingSlots) : list U256 := (map_to_list (slot_keys ms)).*1.

Definition in_entries (ms : option MappingSlots) {A} (entry : MappingSlots -> Res (Flow A))
    (near dynamic : MappingSlots -> U256 -> Res (Flow A)) (nested : MappingSlots -> U256 * U256 -> Res (Flow A)) : Res (Flow A) :=
  match ms with
  | None => Ok Next
  | Some ms =>
      then_do (entry ms)
     (then_do (loop (near ms) (registered_slots ms))
     (then_do (loop (dynamic ms) (registered_slots ms))
       (loop (nested ms) (array_start_entries ms))))
  end.

Definition resolve_storage_name (ms : option MappingSlots) : Res (option string) :=
  finish (then_do name_direct (then_do name_array (in_entries ms name_entry name_near name_dynamic name_nested))).
End Names.

(** *** The type of a slot *)
Section Kinds.

Definition kind_direct : Res (Flow StorageType) :=
  Ok (match direct_entry with
      | Some e => Done (Some (match se_type e with StArray element (Some _) => element | ty => ty end))
      | None => Next
      end).

Definition field_kind (fields : option (list StructField)) (off : Z) (otherwise : StorageType) : StorageType :=
  match field_at fields off with Some f => sf_type f | None => otherwise end.

Definition kind_array : Res (Flow StorageType) :=
  found ← array_slot;
  mret (match found with
        | None => Next
        | Some (a, _, off) => Done (Some (field_kind (struct_fields a) off (element_type a)))
        end).

Definition kind_entry (ms : MappingSlots) : Res (Flow StorageType) :=
  keys ← walked (key_chain ms slot);
  match keys with
  | None => mret Next
  | Some _ =>
      b ← walked (base_slot ms slot);
      match b, mapping_infos ctx !! contract with
      | Some b, Some infos =>
          mret (match find_mapping infos b with Some info => Done (Some (value_storage_type info)) | None => Next end)
      | _, _ => mret (Done None)
      end
  end.

Definition kind_field_array (offset : Z) (f : StructField) : Res (Flow StorageType) :=
  Ok (match sf_type f with
      | StArray element _ =>
          if (slot_offset f <=? offset) && (offset <? slot_offset f + div_ceil (sf_bytes f) 32)
          then Done (Some element) else Next
      | _ => Next
      end).

Definition kind_within (info : MappingInfo) (offset : Z) : Res (Flow StorageType) :=
  then_do
    (match field_at (value_struct_fields info) offset with
     | Some f => Ok (Done (Some (match sf_type f with StArray element _ => element | ty => ty end)))
     | None => loop (kind_field_array offset) (default [] (value_struct_fields info))
     end)
  (then_do
    (match value_storage_type info with
     | StArray element (Some _) =>
         off ← modulo offset (value_element_slots info);
         mret (Done (Some (field_kind (value_struct_fields info) off element)))
     | _ => Ok Next
     end)
    (Ok (if is_dynamic (value_storage_type info) && (offset =? 0) then Done (Some (value_storage_type info)) else Next))).

Definition kind_near (ms : MappingSlots) (m_slot : U256) : Res (Flow StorageType) :=
  if (m_slot <=? slot) && in_usize (slot - m_slot) then
    b ← walked (base_slot ms m_slot);
    match mapping_at b with
    | None => mret (Done None)
    | Some None => mret Next
    | Some (Some info) => kind_within info (slot - m_slot)
    end
  else Ok Next.

Definition kind_dynamic (ms : MappingSlots) (m_slot : U256) : Res (Flow StorageType) :=
  let data_start := keccak_word m_slot in
  let index := slot - data_start in
  if (data_start <=? slot) && (index <? MAX_DYNAMIC) then
    b ← walked (base_slot ms m_slot);
    match mapping_at b with
    | None => mret (Done None)
    | Some None => mret Next
    | Some (Some info) =>
        match value_storage_type info with
        | StArray element None =>
            off ← modulo index (value_element_slots info);
            mret (Done (Some (field_kind (value_struct_fields info) off element)))
        | _ => mret Next
        end
    end
  else Ok Next.

Definition kind_nested (ms : MappingSlots) (dp : U256 * U256) : Res (Flow StorageType) :=
  found ← nested_array ms dp;
  mret (match found with Some (_, element, _) => Done (Some element) | None => Next end).

Definition resolve_storage_type (ms : option MappingSlots) : Res (option StorageType) :=
  finish (then_do kind_direct (then_do kind_array (in_entries ms kind_entry kind_near kind_dynamic kind_nested))).
End Kinds.

(** *** The variables that a change of the word changed *)
Definition has_storage : bool :=
  bool_decide (is_Some (storage_names ctx !! contract)) || bool_decide (is_Some (mapping_infos ctx !! contract)).

Record StorageChangeInfo : Type := mkChange { ch_name : string; ch_type : StorageType; ch_offset : Z; ch_bytes : Z }.

Definition entry_change (old_value new_value : U256) (e : StorageEntry) : option StorageChangeInfo :=
  if extract old_value (se_offset e) (se_bytes e) =? extract new_value (se_offset e) (se_bytes e) then None
  else Some (mkChange (named_entry e) (se_type e) (se_offset e) (se_bytes e)).

Definition resolve_storage_changes (old_value new_value : U256) : list StorageChangeInfo :=
  match ns ← storage_names ctx !! contract; ns !! slot with
  | Some entries => omap (entry_change old_value new_value) entries
  | None => []
  end.
End Resolve.

(** ** Changes of a packed word *)
Definition entry_fits (e : StorageEntry) : Prop := in_word (se_offset e) (se_bytes e).
Definition entries_apart (e e' : StorageEntry) : Prop := disjoint_fields (se_offset e) (se_bytes e) (se_offset e') (se_bytes e').
Definition change_of (e : StorageEntry) : StorageChangeInfo := mkChange (named_entry e) (se_type e) (se_offset e) (se_bytes e).

Lemma disjoint_fields_sym o b o' b' : disjoint_fields o b o' b' -> disjoint_fields o' b' o b.
Proof. unfold disjoint_fields. tauto. Qed.

Lemma others_unchanged w v e es :
  in_u256 w -> entry_fits e -> 0 <= v < 2 ^ (8 * se_bytes e) -> Forall entry_fits es -> Forall (entries_apart e) es ->
  omap (entry_change w (with_field w (se_offset e) (se_bytes e) v)) es = [].
Proof.
  intros Hw He Hv Hf Ha. induction es as [|e' es IH]; [done|]. inversion Hf; inversion Ha; subst. cbn [omap list_omap].
  unfold entry_change at 1. rewrite extract_other_field by done. by rewrite Z.eqb_refl, IH.
Qed.

(** Storing a value to one variable of a packed word is listed as a change
    of that variable alone, and as no change at all when the variable has that
    value before. *)
Theorem stored_variable_change ctx contract slot ns before e after w v :
  storage_names ctx !! contract = Some ns -> ns !! slot = Some (before ++ e :: after) ->
  in_u256 w -> Forall entry_fits (before ++ e :: after) -> Forall (entries_apart e) (before ++ after) ->
  0 <= v < 2 ^ (8 * se_bytes e) ->
  resolve_storage_changes ctx contract slot w (with_field w (se_offset e) (se_bytes e) v) =
    if extract w (se_offset e) (se_bytes e) =? v then [] else [change_of e].
Proof.
  intros Hns Hes Hw [Hfb [He Hfa]%Forall_cons]%Forall_app [Hab Haa]%Forall_app Hv. unfold resolve_storage_changes.
  rewrite Hns. cbn [mbind option_bind]. rewrite Hes, omap_app. cbn [omap list_omap].
  rewrite !others_unchanged by done. cbn [app]. unfold entry_change. rewrite extract_with_field by done.
  by destruct (_ =? v).
Qed.

(** ** Elements of arrays *)
Definition within_len (a : ArrayInfo) (i : Z) : Prop := 0 <= i /\ match ar_len a with Some len => i < len /\ i <= u64_max | None => i < MAX_DYNAMIC end.
Definition element_at (a : ArrayInfo) (i off slot : Z) : Prop :=
  within_len a i /\ 0 <= off < element_slots a /\ slot = start_slot a + i * element_slots a + off.
(** [slot] is in no other array, or in arrays that start before [a]. *)
Definition innermost (a : ArrayInfo) (l : list ArrayInfo) (slot : U256) : Prop :=
  a ∈ l /\ forall b, b ∈ l -> 1 <= element_slots b /\ (b = a \/ start_slot b < start_slot a \/ array_index slot b = Ok None).

Lemma array_index_total slot b : 1 <= element_slots b -> exists r, array_index slot b = Ok r.
Proof.
  intros Hb. unfold array_index, divide. destruct (start_slot b <=? slot); [|by eexists].
  destruct (Z.eqb_spec (element_slots b) 0); [lia|]. cbn. by eexists.
Qed.

Lemma array_index_element a i off slot : element_at a i off slot -> array_index slot a = Ok (Some i).
Proof.
  intros ([Hi Hlen] & Hoff & ->). unfold array_index, divide. destruct (Z.leb_spec (start_slot a) (start_slot a + i * element_slots a + off)); [|nia].
  destruct (Z.eqb_spec (element_slots a) 0); [lia|]. cbn [mbind Res_bind mret Res_ret].
  replace (start_slot a + i * element_slots a + off - start_slot a) with (i * element_slots a + off) by lia.
  rewrite Z.div_add_l, Z.div_small, Z.add_0_r by lia. unfold in_usize. destruct (ar_len a) as [len|].
  - destruct (Z.leb_spec i u64_max), (Z.ltb_spec i len); try lia. done.
  - destruct (Z.ltb_spec (Z.min i u64_max) MAX_DYNAMIC); [done|lia].
Qed.

Lemma best_array_go_innermost slot a i l best :
  array_index slot a = Ok (Some i) ->
  (forall b, b ∈ l -> 1 <= element_slots b /\ (b = a \/ start_slot b < start_slot a \/ array_index slot b = Ok None)) ->
  match best with Some (b, j) => (b, j) = (a, i) \/ start_slot b < start_slot a | None => True end ->
  a ∈ l \/ best = Some (a, i) -> best_array_go slot best l = Ok (Some (a, i)).
Proof.
  intros Ha. revert best. induction l as [|b l IH]; intros best Hl Hbest Hin; cbn [best_array_go].
  { destruct Hin as [Hin| ->]; [set_solver|done]. }
  destruct (Hl b) as [Hb Hcase]; [set_solver|]. destruct (array_index_total slot b Hb) as [r Hr]. rewrite Hr. cbn [mbind Res_bind].
  assert (Hl' : forall b', b' ∈ l -> 1 <= element_slots b' /\ (b' = a \/ start_slot b' < start_slot a \/ array_index slot b' = Ok None))
    by (intros b' ?; apply Hl; set_solver).
  destruct r as [j|]; [|apply IH; [done|done|destruct Hin as [[->|?]%elem_of_cons|]; [congruence|by left|by right]]].
  destruct Hcase as [->|[Hlt|?]]; [| |congruence].
  - assert (j = i) as -> by congruence. apply IH; [done| |right].
    + destruct best as [[b j']|]; [|by left]. destruct (Z.ltb_spec (start_slot b) (start_slot a)); [by left|exact Hbest].
    + destruct best as [[b j']|]; [|done]. destruct Hbest as [[= -> ->]|?]; [by destruct (_ <? _)|].
      destruct (Z.ltb_spec (start_slot b) (start_slot a)); [done|lia].
  - apply IH; [done| |].
    + destruct best as [[b' j']|]; [|by right]. by destruct (_ <? _); [right|].
    + destruct Hin as [[->|?]%elem_of_cons|Hbesteq]; [lia|by left|].
      rewrite Hbesteq. destruct (Z.ltb_spec (start_slot a) (start_slot b)); [lia|by right].
Qed.

Section Elements.
Context `{Text} `{TraceText} `{KeccakCode} (ctx : StorageContext) (contract : string) (slot : U256).

Lemma array_slot_element l a i off :
  array_infos ctx !! contract = Some l -> element_slots a <= u64_max ->
  element_at a i off slot -> innermost a l slot -> array_slot ctx contract slot = Ok (Some (a, i, off)).
Proof.
  intros Hl Hmax He [Hin Hall]. unfold array_slot. rewrite Hl. unfold best_array.
  rewrite (best_array_go_innermost slot a i l None) by (eauto using array_index_element). cbn [mbind Res_bind].
  destruct He as (_ & Hoff & ->). unfold modulo. destruct (Z.eqb_spec (element_slots a) 0); [lia|]. cbn [mbind Res_bind mret Res_ret].
  replace (start_slot a + i * element_slots a + off - start_slot a) with (off + i * element_slots a) by lia.
  rewrite Z.mod_add, Z.mod_small by lia. destruct (Z.leb_spec off u64_max); [done|lia].
Qed.

(** A slot of the [i]-th element of an array, in no variable of its own and
    in no array that starts later, is named after the element, with its field
    when the element is a struct with a field at that slot, and has the type of
    the field or of the element. *)
Theorem array_element_name l a i off ms :
  direct_entry ctx contract slot = None ->
  array_infos ctx !! contract = Some l -> element_slots a <= u64_max ->
  element_at a i off slot -> innermost a l slot ->
  let element := indexed (ar_name a) (u256_to_string i) in
  resolve_storage_name ctx contract slot ms =
    Ok (Some (match field_at (struct_fields a) off with Some f => dotted element (sf_name f) | None => element end)) /\
  resolve_storage_type ctx contract slot ms = Ok (Some (field_kind (struct_fields a) off (element_type a))).
Proof.
  intros Hd Hl Hmax He Hin element. pose proof (array_slot_element l a i off Hl Hmax He Hin) as Hslot.
  unfold resolve_storage_name, resolve_storage_type, name_direct, kind_direct, name_array, kind_array. by rewrite Hd, Hslot.
Qed.
End Elements.

(** ** Entries of mappings *)
Section Entries.
Context `{Text} `{TraceText} `{KeccakCode} (ctx : StorageContext) (contract : string).

(** The text of a key. *)
Definition key_text (key : U256) (key_type text : string) : Prop :=
  exists ty, parse key_type = Some ty /\ format_value ty key 0 32 = Ok text.

Fixpoint with_indices (name : string) (texts : list string) : string :=
  match texts with [] => name | t :: rest => with_indices (indexed name t) rest end.

Lemma label_keys_texts name keys tys texts :
  Forall3 key_text keys tys texts -> label_keys name (zip keys tys) = Ok (Some (with_indices name texts)).
Proof.
  intros Hall. revert name. induction Hall as [|k t x ks ts xs (ty & Hty & Hx) _ IH]; intros name; [done|].
  cbn [zip zip_with label_keys with_indices]. rewrite Hty, Hx. apply IH.
Qed.

Lemma entry_named seen base slot ks infos info texts :
  sound seen -> closed seen -> acyclic seen -> seen_sha3 seen !! base = None -> entry_of seen base slot ks ->
  direct_entry ctx contract slot = None -> array_slot ctx contract slot = Ok None ->
  mapping_infos ctx !! contract = Some infos -> find_mapping infos base = Some info ->
  Forall3 key_text ks (key_types info) texts ->
  let ms := (insert seen slot).1 in
  let entry := with_indices (mi_name info) texts in
  resolve_storage_name ctx contract slot (Some ms) =
    Ok (Some (if is_dynamic (value_storage_type info) then dotted entry "length"
              else match field_at (value_struct_fields info) 0 with Some f => dotted entry (sf_name f) | None => entry end)) /\
  resolve_storage_type ctx contract slot (Some ms) = Ok (Some (value_storage_type info)).
Proof.
  intros Hs Hc Ha Hb He Hd Harr Hinfos Hinfo Htexts ms entry.
  destruct (entry_keys_found seen base slot ks Hs Hc Ha Hb He) as (_ & _ & Hkeys & Hbase). fold ms in Hkeys, Hbase.
  unfold resolve_storage_name, resolve_storage_type, name_direct, kind_direct, name_array, kind_array.
  rewrite Hd, Harr. cbn [mbind Res_bind then_do mret Res_ret in_entries]. unfold name_entry, kind_entry.
  rewrite Hkeys, Hbase. cbn [walked mbind Res_bind]. rewrite Hinfos, Hinfo. unfold entry_label.
  rewrite (label_keys_texts _ _ _ _ Htexts). cbn. by destruct (is_dynamic _).
Qed.

(** The slot of an entry of a mapping, nested to any depth, is named
    [m[k1][k2]...] once a store to it was seen, and has the type of the
    mapping's values: a hash of each key with the slot above it was seen, and
    the slot is in no variable and no array. A struct is named after its first
    field, a dynamic array after its length. *)
Theorem mapping_entry_name seen base slot ks infos info texts :
  sound seen -> closed seen -> acyclic seen -> seen_sha3 seen !! base = None -> entry_of seen base slot ks ->
  direct_entry ctx contract slot = None -> array_slot ctx contract slot = Ok None ->
  mapping_infos ctx !! contract = Some infos -> find_mapping infos base = Some info ->
  Forall3 key_text ks (key_types info) texts ->
  let ms := (insert seen slot).1 in
  let entry := with_indices (mi_name info) texts in
  resolve_storage_name ctx contract slot (Some ms) =
    Ok (Some (if is_dynamic (value_storage_type info) then dotted entry "length"
              else match field_at (value_struct_fields info) 0 with Some f => dotted entry (sf_name f) | None => entry end)) /\
  resolve_storage_type ctx contract slot (Some ms) = Ok (Some (value_storage_type info)).
Proof. exact (entry_named seen base slot ks infos info texts). Qed.
End Entries.

(** ** Names and types agree *)

(** Where the search for a name finds one or goes on, the search for a type
    finds one or goes on too. *)
Definition agrees (fn : Res (Flow string)) (fk : Res (Flow StorageType)) : Prop :=
  match fn with
  | Ok Next => fk = Ok Next \/ exists t, fk = Ok (Done (Some t))
  | Ok (Done (Some _)) => exists t, fk = Ok (Done (Some t))
  | _ => True
  end.

Lemma agrees_some fn t : agrees fn (Ok (Done (Some t))).
Proof. destruct fn as [[|[]]| |]; cbn; eauto. Qed.

Lemma agrees_then fn fk gn gk : agrees fn fk -> agrees gn gk -> agrees (then_do fn gn) (then_do fk gk).
Proof.
  intros Hf Hg. destruct fn as [[|[]]| |]; cbn in *; try done.
  - destruct Hf as [->|[t ->]]; [exact Hg|apply agrees_some].
  - destruct Hf as [t ->]. by eexists.
Qed.

Lemma agrees_loop {X} (f : X -> Res (Flow string)) g xs : (forall x, agrees (f x) (g x)) -> agrees (loop f xs) (loop g xs).
Proof. intros H. induction xs as [|x xs IH]; [by left|]. cbn [loop]. by apply agrees_then. Qed.

Section Agree.
Context `{Text} `{TraceText} `{KeccakCode} (ctx : StorageContext) (contract : string) (slot : U256).

Lemma agrees_within info label offset : agrees (name_within info label offset) (kind_within info offset).
Proof.
  unfold name_within, kind_within. repeat apply agrees_then.
  - destruct (field_at _ _) as [f|]; [by eexists|]. apply agrees_loop. intros f. unfold name_field_array, kind_field_array.
    destruct (sf_type f) as [| | | | | | |element [len|]| |]; try by left.
    + destruct (_ && _); [apply agrees_some|by left].
    + destruct (_ && _); [apply agrees_some|by left].
  - destruct (value_storage_type info) as [| | | | | | |element [len|]| |]; try by left.
    unfold divide, modulo. destruct (_ =? 0); [done|]. cbn [mbind Res_bind mret Res_ret]. apply agrees_some.
  - destruct (_ && _); [by eexists|by left].
Qed.

Lemma agrees_entry ms : agrees (name_entry ctx contract slot ms) (kind_entry ctx contract slot ms).
Proof.
  unfold name_entry, kind_entry. pose proof (walks_agree ms slot) as Hw. destruct (key_chain ms slot) as [[ks|]|]; cbn; [|by left|done].
  destruct Hw as [b ->]. cbn. destruct (mapping_infos ctx !! contract) as [infos|]; [|done].
  destruct (find_mapping infos b) as [info|]; [apply agrees_some|by left].
Qed.

Lemma agrees_mapping ms m_slot fn fk (cond : bool) :
  (forall info keys, agrees (fn info keys) (fk info)) ->
  agrees (if cond then found ← entry_mapping ctx contract ms m_slot;
                       match found with
                       | None => mret (Done None)
                       | Some None => mret Next
                       | Some (Some (info, keys)) => fn info keys
                       end
          else Ok Next)
         (if cond then b ← walked (base_slot ms m_slot);
                       match mapping_at ctx contract b with
                       | None => mret (Done None)
                       | Some None => mret Next
                       | Some (Some info) => fk info
                       end
          else Ok Next).
Proof.
  intros Hk. destruct cond; [|by left]. unfold entry_mapping. pose proof (walks_agree ms m_slot) as Hw.
  destruct (key_chain ms m_slot) as [[ks|]|]; cbn; [|rewrite Hw; by left|done].
  destruct Hw as [b ->]. cbn. destruct (mapping_infos ctx !! contract) as [infos|]; [|done]. cbn.
  destruct (find_mapping infos b) as [info|]; [apply Hk|by left].
Qed.

Lemma agrees_near ms m_slot : agrees (name_near ctx contract slot ms m_slot) (kind_near ctx contract slot ms m_slot).
Proof.
  apply agrees_mapping. intros info keys. destruct (entry_label info keys) as [[label|]| |]; cbn; [apply agrees_within|done..].
Qed.

Lemma agrees_dynamic ms m_slot : agrees (name_dynamic ctx contract slot ms m_slot) (kind_dynamic ctx contract slot ms m_slot).
Proof.
  apply (agrees_mapping _ _ _ _ ((keccak_word m_slot <=? slot) && (slot - keccak_word m_slot <? MAX_DYNAMIC))).
  intros info keys. destruct (value_storage_type info) as [| | | | | | |element [len|]| |]; try by left. cbn [is_dynamic].
  destruct (entry_label info keys) as [[label|]| |]; cbn; [|done..]. unfold modulo. destruct (_ =? 0); [done|]. apply agrees_some.
Qed.

Lemma agrees_nested ms dp : agrees (name_nested ctx contract slot ms dp) (kind_nested ctx contract slot ms dp).
Proof.
  unfold name_nested, kind_nested. destruct (nested_array ctx contract slot ms dp) as [[[[[[a i] f] element] index]|]| |]; cbn; [by eexists|by left|done..].
Qed.

Lemma agrees_in_entries ms :
  agrees (in_entries ms (name_entry ctx contract slot) (name_near ctx contract slot) (name_dynamic ctx contract slot) (name_nested ctx contract slot))
         (in_entries ms (kind_entry ctx contract slot) (kind_near ctx contract slot) (kind_dynamic ctx contract slot) (kind_nested ctx contract slot)).
Proof.
  destruct ms as [ms|]; [|by left]. cbn [in_entries].
  repeat first [apply agrees_then | apply agrees_entry | apply agrees_loop; intros ?; auto using agrees_near, agrees_dynamic, agrees_nested].
Qed.

(** A slot that has a name has a type: whatever way the name of a slot was
    found, the search for its type ends with one, without a panic, so that its
    value is shown by its type next to its name. *)
Theorem named_slot_has_type ms name :
  resolve_storage_name ctx contract slot ms = Ok (Some name) ->
  exists ty, resolve_storage_type ctx contract slot ms = Ok (Some ty).
Proof.
  assert (Hc : agrees (then_do (name_direct ctx contract slot) (then_do (name_array ctx contract slot)
      (in_entries ms (name_entry ctx contract slot) (name_near ctx contract slot) (name_dynamic ctx contract slot) (name_nested ctx contract slot))))
    (then_do (kind_direct ctx contract slot) (then_do (kind_array ctx contract slot)
      (in_entries ms (kind_entry ctx contract slot) (kind_near ctx contract slot) (kind_dynamic ctx contract slot) (kind_nested ctx contract slot))))).
  { repeat apply agrees_then; [| |apply agrees_in_entries].
    - unfold name_direct, kind_direct. destruct (direct_entry ctx contract slot); [by eexists|by left].
    - unfold name_array, kind_array. destruct (array_slot ctx contract slot) as [[[[a i] off]|]| |]; cbn; [by eexists|by left|done..]. }
  unfold resolve_storage_name, resolve_storage_type, finish. destruct (then_do (name_direct _ _ _) _) as [[|[n|]]| |]; cbn in *; try done.
  intros _. destruct Hc as [t ->]. by eexists.
Qed.
End Agree.

(** ** Witnesses: a contract with two packed variables, a nested mapping and a
    dynamic array of structs *)
Section Witnesses.
#[local] Instance decimal : Text := {|
  u256_to_string := fmt_dec;
  u256_parse s := match parse_usize s with Some n => Ok n | None => Err "invalid digit" end;
  hex_encode := Toy.encode;
  hex_decode := Toy.decode |}.
#[local] Instance toy_trace_text : TraceText :=
  {| to_checksum a := u256_to_string a; from_utf8 bs := Some (hex_encode bs) |}.
#[local] Instance toy_keccak : KeccakCode := {| keccak_code bs := 1000000 * (1 + default 0 (last bs)) |}.

Definition toy_types : Types :=
  [("t_uint128", mkTypeInfo "16" None None None None);
   ("t_uint256", mkTypeInfo "32" None None None None);
   ("t_mapping(t_uint256,t_mapping(t_uint256,t_uint256))",
     mkTypeInfo "32" (Some "t_uint256") (Some "t_mapping(t_uint256,t_uint256)") None None);
   ("t_mapping(t_uint256,t_uint256)", mkTypeInfo "32" (Some "t_uint256") (Some "t_uint256") None None);
   ("t_struct(S)8_storage", mkTypeInfo "64" None None None
     (Some [mkLayoutEntry "x" 0 "0" "t_uint256"; mkLayoutEntry "y" 0 "1" "t_uint256"]));
   ("t_array(t_struct(S)8_storage)dyn_storage", mkTypeInfo "32" None None (Some "t_struct(S)8_storage") None);
   ("t_mapping(t_uint256,t_array(t_struct(S)8_storage)dyn_storage)",
     mkTypeInfo "32" (Some "t_uint256") (Some "t_array(t_struct(S)8_storage)dyn_storage") None None);
   ("t_array(t_uint8)dyn_storage", mkTypeInfo "32" None None (Some "t_uint8") None);
   ("t_uint8", mkTypeInfo "1" None None None None)].
Definition toy_layout (storage : list LayoutEntry) : StorageLayout := mkLayout storage (Some toy_types).
Definition toy_storage : list LayoutEntry :=
  [mkLayoutEntry "a" 0 "0" "t_uint128"; mkLayoutEntry "b" 16 "0" "t_uint128";
   mkLayoutEntry "m" 0 "3" "t_mapping(t_uint256,t_mapping(t_uint256,t_uint256))";
   mkLayoutEntry "xs" 0 "4" "t_array(t_struct(S)8_storage)dyn_storage";
   mkLayoutEntry "q" 0 "5" "t_mapping(t_uint256,t_array(t_struct(S)8_storage)dyn_storage)";
   mkLayoutEntry "bs" 0 "6" "t_array(t_uint8)dyn_storage"].
Definition toy_parsed : Layout :=
  match parse_storage_layout 10 (toy_layout toy_storage) with Ok (Some r) => r | _ => mkParsed ∅ [] [] end.
Definition toy_context : StorageContext :=
  mkStorageContext {["C" := names toy_parsed]} {["C" := arrays toy_parsed]} {["C" := mappings toy_parsed]}.

Lemma stored_variable_change_witness :
  resolve_storage_changes toy_context "C" 0 (2 ^ 200 + 5) (with_field (2 ^ 200 + 5) 16 16 9) = [mkChange "b" (StUint 128) 16 16].
Proof.
  etrans; [apply (stored_variable_change toy_context "C" 0 (names toy_parsed) [mkStorageEntry 0 "a" (StUint 128) 16]
    (mkStorageEntry 16 "b" (StUint 128) 16) [] (2 ^ 200 + 5) 9)|vm_compute; reflexivity].
  - reflexivity.
  - vm_compute. reflexivity.
  - unfold in_u256, u256_max. lia.
  - repeat constructor; cbn; lia.
  - constructor; [right; cbn; lia|constructor].
  - cbn. lia.
Defined.

(** [xs[7].y] *)
Definition xs_array : ArrayInfo :=
  mkArray "xs" StStruct 2 5000000 None (Some [mkField "x" 0 (StUint 256) 32; mkField "y" 1 (StUint 256) 32]).

Lemma array_element_name_witness :
  resolve_storage_name toy_context "C" 5000015 None = Ok (Some "xs[7].y") /\
  resolve_storage_type toy_context "C" 5000015 None = Ok (Some (StUint 256)).
Proof.
  destruct (array_element_name toy_context "C" 5000015 (arrays toy_parsed) xs_array 7 1 None) as [Hname Htype].
  - vm_compute. reflexivity.
  - reflexivity.
  - vm_compute. discriminate.
  - split; [split; [lia|vm_compute; reflexivity]|]. cbn. lia.
  - replace (arrays toy_parsed) with [mkArray "bs" (StUint 8) 1 7000000 None None; xs_array] by (vm_compute; reflexivity).
    split; [set_solver|]. intros b [->|[->|Hb]%elem_of_cons]%elem_of_cons; [| |by apply elem_of_nil in Hb]; cbn; (split; [lia|]).
    + right; right. reflexivity.
    + by left.
  - split; [rewrite Hname|rewrite Htype]; vm_compute; reflexivity.
Defined.

(** [m[7][9]] *)
Lemma mapping_entry_name_witness :
  let slot := toy_hash 9 (toy_hash 7 3) in
  resolve_storage_name toy_context "C" slot (Some (insert two_hashes slot).1) = Ok (Some "m[7][9]").
Proof.
  intros slot.
  destruct (mapping_entry_name toy_context "C" two_hashes 3 slot [7; 9] (mappings toy_parsed)
    (mkMapping "m" 3 ["t_uint256"; "t_uint256"] (StUint 256) None 1) ["7"; "9"]) as [Hname _].
  - split; [done|]. intros s k p. cbn. by rewrite lookup_empty.
  - intros s p. cbn. by rewrite lookup_empty.
  - apply two_hashes_acyclic.
  - vm_compute. reflexivity.
  - apply (entry_next two_hashes 3 slot 9 (toy_hash 7 3) [7]); [vm_compute; reflexivity|].
    apply entry_first. vm_compute. reflexivity.
  - vm_compute. reflexivity.
  - vm_compute. reflexivity.
  - reflexivity.
  - vm_compute. reflexivity.
  - cbn. repeat constructor; (exists (StUint 256)); (split; [done|vm_compute; reflexivity]).
  - rewrite Hname. vm_compute. reflexivity.
Defined.

Lemma named_slot_has_type_witness : exists ty, resolve_storage_type toy_context "C" 5000015 None = Ok (Some ty).
Proof. apply (named_slot_has_type toy_context "C" 5000015 None "xs[7].y"). vm_compute. reflexivity. Defined.

(** A dynamic array of structs in a mapping: the fourth element of [q[7]] has
    the number of its slot. *)
Definition q_entry : U256 := toy_hash 7 5.
Definition q_slots : MappingSlots := (insert (record_sha3 slots_default q_entry 7 5) q_entry).1.
Example mapped_struct_index :
  resolve_storage_name toy_context "C" (keccak_word q_entry + 2 * 3) (Some q_slots) = Ok (Some "q[7][6].x").
Proof. vm_compute. reflexivity. Qed.

(** The bytes [bs[32]] to [bs[63]] of a packed array have the number of their
    slot. *)
Example packed_array_index : resolve_storage_name toy_context "C" (keccak_word 6 + 1) None = Ok (Some "bs[1]").
Proof. vm_compute. reflexivity. Qed.

(** One variable of an enum's type, and the layout has no names at all. *)
Example unread_variable_loses_layout :
  parse_storage_layout 10 (toy_layout (toy_storage ++ [mkLayoutEntry "side" 0 "7" "t_enum(Side)12"])) = Ok None.
Proof. vm_compute. reflexivity. Qed.
End Witnesses.
