(* ===== verification/TraceInspector.v ===== *)
(** * TraceInspector: the tree of frames of a transaction

    Models [evm/trace/inspector.rs] and the data of a trace in
    [evm/trace/mod.rs]. The hooks of the interpreter are the constructors of
    [Hook]; what a hook reads from the interpreter and the journal (operands,
    memory, the stored word) is part of the event. The stack of open frames has
    the innermost first. An execution is a tree; running its hooks is shown to
    build exactly its frames. *)
From S2P Require Import Prelude.
From S2P Require Import Env.
From S2P Require Import BytecodeIndex.
From S2P Require Import MappingSlots.

Definition KECCAK256 : Z := 0x20.
Definition SSTORE : Z := 0x55.

(** ** Traces *)
Inductive CallScheme : Type := SchemeCall | SchemeCallCode | SchemeDelegateCall | SchemeStaticCall.
Inductive CallFrameKind : Type := KindCall (scheme : CallScheme) | KindCreate.
Record StorageChange : Type := mkStorageChange { change_slot : U256; old_value : U256; new_value : U256 }.
Record Log : Type := mkLog { log_address : Address; topics : list U256; log_data : Bytes }.

Inductive CallFrame : Type := mkFrame {
  depth : nat;
  kind : CallFrameKind;
  address : option Address;
  code_address : option Address;
  code_bytes : option Bytes;
  caller : Address;
  value : U256;
  timestamp : U256;
  number : U256;
  input : Bytes;
  output : Bytes;
  gas_used : Z;
  success : bool;
  children : list CallFrame;
  storage_changes : list StorageChange;
  logs : list Log;
}.

Record Trace : Type := mkTrace { roots : list CallFrame; mapping_slots : gmap Address MappingSlots }.

Definition with_child (c f : CallFrame) : CallFrame :=
  mkFrame (depth f) (kind f) (address f) (code_address f) (code_bytes f) (caller f) (value f) (timestamp f) (number f)
    (input f) (output f) (gas_used f) (success f) (children f ++ [c]) (storage_changes f) (logs f).
Definition with_change (c : StorageChange) (f : CallFrame) : CallFrame :=
  mkFrame (depth f) (kind f) (address f) (code_address f) (code_bytes f) (caller f) (value f) (timestamp f) (number f)
    (input f) (output f) (gas_used f) (success f) (children f) (storage_changes f ++ [c]) (logs f).
Definition with_log (l : Log) (f : CallFrame) : CallFrame :=
  mkFrame (depth f) (kind f) (address f) (code_address f) (code_bytes f) (caller f) (value f) (timestamp f) (number f)
    (input f) (output f) (gas_used f) (success f) (children f) (storage_changes f) (logs f ++ [l]).

(** ** The inspector *)
Record Inspector : Type := mkInspector {
  stack : list CallFrame;
  insp_roots : list CallFrame;
  insp_slots : gmap Address MappingSlots;
}.
Definition new : Inspector := mkInspector [] [] ∅.
Definition into_trace (s : Inspector) : Trace := mkTrace (insp_roots s) (insp_slots s).

(** What [step] reads: the operands, the top last; [memory.slice_len], which
    panics out of range; and the journal's word of a slot, when it loads. *)
Record Interp : Type := mkInterp {
  target_address : Address;
  opcode : Z;
  operands : list U256;
  memory : Z -> Z -> Res Bytes;
  sload : U256 -> option U256;
}.
Definition peek (i : Interp) (n : nat) : option U256 := reverse (operands i) !! n.

Record CallInputs : Type := mkCallInputs {
  scheme : CallScheme;
  in_target : Address;
  bytecode_address : Address;
  in_caller : Address;
  in_value : U256;
  in_input : Bytes;
  known_bytecode : Bytes;
}.
Record CreateInputs : Type := mkCreateInputs { cr_caller : Address; cr_value : U256; init_code : Bytes }.
Record Block : Type := mkBlock { block_timestamp : U256; block_number : U256 }.
Record Outcome : Type := mkOutcome { total_gas_spent : Z; is_ok : bool; out_output : Bytes; created : option Address }.

(** The slots of an account, changed in place or added. *)
Definition at_slots (a : Address) (f : MappingSlots -> MappingSlots) (s : Inspector) : Inspector :=
  mkInspector (stack s) (insp_roots s) (<[a := f (default slots_default (insp_slots s !! a))]> (insp_slots s)).

(** The innermost open frame, changed in place. *)
Definition at_last (f : CallFrame -> CallFrame) (s : Inspector) : Inspector :=
  match stack s with [] => s | x :: rest => mkInspector (f x :: rest) (insp_roots s) (insp_slots s) end.

Section Hooks.
Context `{KeccakCode}.

Definition step_keccak (i : Interp) (s : Inspector) : Res Inspector :=
  match peek i 1 with
  | None => Ok s
  | Some size =>
      if size =? 0x40 then
        match peek i 0 with
        | None => Ok s
        | Some offset =>
            data ← memory i (Z.min offset u64_max) 0x40;
            let key := be_number (take 32 data) in
            let parent := be_number (drop 32 data) in
            mret (at_slots (target_address i) (fun ms => record_sha3 ms (keccak_code data) key parent) s)
        end
      else if size =? 0x20 then
        match peek i 0 with
        | None => Ok s
        | Some offset =>
            data ← memory i (Z.min offset u64_max) 0x20;
            mret (at_slots (target_address i) (fun ms => record_array_start ms (keccak_code data) (be_number (take 32 data))) s)
        end
      else Ok s
  end.

(** A load that fails counts as zero. *)
Definition change_at (i : Interp) : option StorageChange :=
  match peek i 0, peek i 1 with
  | Some slot, Some new_value => Some (mkStorageChange slot (default 0 (sload i slot)) new_value)
  | _, _ => None
  end.

Definition near_slots (a : Address) (slot : U256) (m : gmap Address MappingSlots) : gmap Address MappingSlots :=
  match m !! a with Some ms => <[a := (insert_nearby ms slot).1]> m | None => m end.

Definition step_sstore (i : Interp) (s : Inspector) : Inspector :=
  match change_at i with
  | None => s
  | Some c =>
      at_last (with_change c)
        (mkInspector (stack s) (insp_roots s) (near_slots (target_address i) (change_slot c) (insp_slots s)))
  end.

Definition step (i : Interp) (s : Inspector) : Res Inspector :=
  if opcode i =? KECCAK256 then step_keccak i s
  else if opcode i =? SSTORE then Ok (step_sstore i s)
  else Ok s.

Definition call_frame (d : nat) (b : Block) (i : CallInputs) : CallFrame :=
  mkFrame d (KindCall (scheme i)) (Some (in_target i)) (Some (bytecode_address i))
    (if bool_decide (known_bytecode i = []) then None else Some (known_bytecode i))
    (in_caller i) (in_value i) (block_timestamp b) (block_number b) (in_input i) [] 0 false [] [] [].
Definition create_frame (d : nat) (b : Block) (i : CreateInputs) : CallFrame :=
  mkFrame d KindCreate None None None (cr_caller i) (cr_value i) (block_timestamp b) (block_number b) (init_code i) [] 0 false [] [] [].

Definition push (f : nat -> CallFrame) (s : Inspector) : Inspector :=
  mkInspector (f (length (stack s)) :: stack s) (insp_roots s) (insp_slots s).
Definition call (b : Block) (i : CallInputs) : Inspector -> Inspector := push (fun d => call_frame d b i).
Definition create (b : Block) (i : CreateInputs) : Inspector -> Inspector := push (fun d => create_frame d b i).

(** The frame that [call_end] and [create_end] make up when none is open. *)
Definition no_frame (k : CallFrameKind) : CallFrame := mkFrame 0 k None None None 0 0 0 0 [] [] 0 false [] [] [].

Definition end_frame (o : Outcome) (f : CallFrame) : CallFrame :=
  mkFrame (depth f) (kind f) (address f) (code_address f) (code_bytes f) (caller f) (value f) (timestamp f) (number f)
    (input f) (out_output o) (total_gas_spent o) (is_ok o) (children f) (storage_changes f) (logs f).
Definition set_created (o : Outcome) (f : CallFrame) : CallFrame :=
  mkFrame (depth f) (kind f) (match created o with Some a => Some a | None => address f end) (code_address f) (code_bytes f)
    (caller f) (value f) (timestamp f) (number f) (input f) (output f) (gas_used f) (success f) (children f)
    (storage_changes f) (logs f).

(** A finished frame goes to the frame around it, or to the roots. *)
Definition add_frame (f : CallFrame) (s : Inspector) : Inspector :=
  match stack s with
  | [] => mkInspector [] (insp_roots s ++ [f]) (insp_slots s)
  | parent :: rest => mkInspector (with_child f parent :: rest) (insp_roots s) (insp_slots s)
  end.
Definition pop_or (k : CallFrameKind) (s : Inspector) : CallFrame * Inspector :=
  match stack s with
  | [] => (no_frame k, s)
  | f :: rest => (f, mkInspector rest (insp_roots s) (insp_slots s))
  end.
Definition call_end (o : Outcome) (s : Inspector) : Inspector :=
  let '(f, s) := pop_or (KindCall SchemeCall) s in add_frame (end_frame o f) s.
Definition create_end (o : Outcome) (s : Inspector) : Inspector :=
  let '(f, s) := pop_or KindCreate s in add_frame (set_created o (end_frame o f)) s.

Definition log (l : Log) : Inspector -> Inspector := at_last (with_log l).

(** ** Runs *)
Inductive Hook : Type :=
| Step (i : Interp)
| CallHook (b : Block) (i : CallInputs)
| CallEnd (o : Outcome)
| CreateHook (b : Block) (i : CreateInputs)
| CreateEnd (o : Outcome)
| LogHook (l : Log).

Definition on_hook (h : Hook) (s : Inspector) : Res Inspector :=
  match h with
  | Step i => step i s
  | CallHook b i => Ok (call b i s)
  | CallEnd o => Ok (call_end o s)
  | CreateHook b i => Ok (create b i s)
  | CreateEnd o => Ok (create_end o s)
  | LogHook l => Ok (log l s)
  end.

Fixpoint run (hs : list Hook) (s : Inspector) : Res Inspector :=
  match hs with [] => Ok s | h :: rest => s' ← on_hook h s; run rest s' end.
End Hooks.

(** ** Executions as trees *)
Inductive Enter : Type := EnterCall (b : Block) (i : CallInputs) | EnterCreate (b : Block) (i : CreateInputs).

Inductive Exec : Type := mkExec (enter : Enter) (body : list Event) (o : Outcome)
with Event : Type := OnStep (i : Interp) | OnLog (l : Log) | Sub (e : Exec).

Section ExecInd.
Context (P : Exec -> Prop) (Hexec : forall enter body o, (forall e, Sub e ∈ body -> P e) -> P (mkExec enter body o)).

Fixpoint Exec_tree_ind (e : Exec) : P e :=
  match e with
  | mkExec enter body o =>
      Hexec enter body o
        ((fix subs (evs : list Event) : forall e, Sub e ∈ evs -> P e :=
            match evs with
            | [] => fun e Hin => False_ind _ (not_elem_of_nil _ Hin)
            | ev :: rest => fun e Hin =>
                match proj1 (elem_of_cons rest (Sub e) ev) Hin with
                | or_introl Heq =>
                    match ev return Sub e = ev -> P e with
                    | Sub e' => fun Heq => eq_ind e' P (Exec_tree_ind e') e (eq_sym (f_equal (fun x => match x with Sub y => y | _ => e' end) Heq))
                    | _ => fun Heq => False_ind _ (eq_ind (Sub e) (fun x => match x with Sub _ => True | _ => False end) I _ Heq)
                    end Heq
                | or_intror Hin' => subs rest e Hin'
                end
            end) body)
  end.
End ExecInd.

Definition enter_hook (e : Enter) : Hook := match e with EnterCall b i => CallHook b i | EnterCreate b i => CreateHook b i end.
Definition end_hook (e : Enter) (o : Outcome) : Hook := match e with EnterCall _ _ => CallEnd o | EnterCreate _ _ => CreateEnd o end.

(** The hooks of an execution, in order, and its steps. *)
Fixpoint exec_hooks (e : Exec) : list Hook :=
  let '(mkExec enter body o) := e in
  enter_hook enter :: flat_map event_hooks body ++ [end_hook enter o]
with event_hooks (ev : Event) : list Hook :=
  match ev with OnStep i => [Step i] | OnLog l => [LogHook l] | Sub e => exec_hooks e end.

Fixpoint exec_steps (e : Exec) : list Interp := let '(mkExec _ body _) := e in flat_map event_steps body
with event_steps (ev : Event) : list Interp :=
  match ev with OnStep i => [i] | OnLog _ => [] | Sub e => exec_steps e end.

(** The changes, the logs and the frames of what ran in a frame itself. *)
Definition event_change (ev : Event) : option StorageChange :=
  match ev with OnStep i => if opcode i =? SSTORE then change_at i else None | _ => None end.
Definition event_log (ev : Event) : option Log := match ev with OnLog l => Some l | _ => None end.

Definition enter_frame (d : nat) (e : Enter) : CallFrame :=
  match e with EnterCall b i => call_frame d b i | EnterCreate b i => create_frame d b i end.
Definition enter_address (e : Enter) (o : Outcome) : option Address :=
  match e with EnterCall _ i => Some (in_target i) | EnterCreate _ _ => created o end.

Fixpoint frame_of (d : nat) (e : Exec) : CallFrame :=
  let '(mkExec enter body o) := e in
  let f := enter_frame d enter in
  mkFrame d (kind f) (enter_address enter o) (code_address f) (code_bytes f) (caller f) (value f) (timestamp f) (number f)
    (input f) (out_output o) (total_gas_spent o) (is_ok o)
    (flat_map (event_frames (S d)) body) (omap event_change body) (omap event_log body)
with event_frames (d : nat) (ev : Event) : list CallFrame :=
  match ev with Sub e => [frame_of d e] | _ => [] end.

(** ** The frames of a run *)
Section Frames.
Context `{KeccakCode}.

Definition slots_step (i : Interp) (m : gmap Address MappingSlots) : Res (gmap Address MappingSlots) :=
  s ← step i (mkInspector [] [] m); mret (insp_slots s).
Fixpoint slots_run (steps : list Interp) (m : gmap Address MappingSlots) : Res (gmap Address MappingSlots) :=
  match steps with [] => Ok m | i :: rest => m' ← slots_step i m; slots_run rest m' end.

Lemma slots_run_app xs ys m : slots_run (xs ++ ys) m = (m' ← slots_run xs m; slots_run ys m').
Proof. revert m. induction xs as [|i xs IH]; intros m; [done|]. cbn. destruct (slots_step i m); cbn; [apply IH|done..]. Qed.

Lemma run_app hs hs' s : run (hs ++ hs') s = (s' ← run hs s; run hs' s').
Proof. revert s. induction hs as [|h hs IH]; intros s; [done|]. cbn. destruct (on_hook h s); cbn; [apply IH|done..]. Qed.

(** A frame with what a list of events adds to it. *)
Definition extend (d : nat) (body : list Event) (f : CallFrame) : CallFrame :=
  mkFrame (depth f) (kind f) (address f) (code_address f) (code_bytes f) (caller f) (value f) (timestamp f) (number f)
    (input f) (output f) (gas_used f) (success f) (children f ++ flat_map (event_frames d) body)
    (storage_changes f ++ omap event_change body) (logs f ++ omap event_log body).

Lemma extend_nil d f : extend d [] f = f.
Proof. unfold extend. cbn. rewrite !app_nil_r. by destruct f. Qed.

Lemma extend_cons d ev body f : extend d (ev :: body) f = extend d body (extend d [ev] f).
Proof.
  unfold extend. cbn [flat_map omap list_omap children storage_changes logs depth kind address code_address code_bytes caller value timestamp number
    input output gas_used success]. rewrite !app_nil_r.
  f_equal; [by rewrite app_assoc|by destruct (event_change ev); rewrite <- ?app_assoc, ?app_nil_r|by destruct (event_log ev); rewrite <- ?app_assoc, ?app_nil_r].
Qed.

Lemma step_last d i f rest rs m :
  step i (mkInspector (f :: rest) rs m) = (m' ← slots_step i m; Ok (mkInspector (extend d [OnStep i] f :: rest) rs m')).
Proof.
  assert (Hsame : event_change (OnStep i) = None -> extend d [OnStep i] f = f).
  { intros Hn. unfold extend. cbn [flat_map event_frames omap list_omap event_log]. rewrite Hn. cbn. rewrite !app_nil_r. by destruct f. }
  unfold slots_step, step. destruct (opcode i =? KECCAK256) eqn:Ek.
  - rewrite Hsame; [|cbn [event_change]; destruct (Z.eqb_spec (opcode i) KECCAK256) as [->|]; [done|done]].
    unfold step_keccak. destruct (peek i 1); [|done]. destruct (_ =? 0x40); [|destruct (_ =? 0x20); [|done]].
    all: destruct (peek i 0); [|done]; destruct (memory i _ _); done.
  - destruct (opcode i =? SSTORE) eqn:Es; [|rewrite Hsame; [done|cbn; by rewrite Es]].
    unfold step_sstore. destruct (change_at i) as [c|] eqn:Ec; [|rewrite Hsame; [done|cbn; by rewrite Es]].
    cbn. unfold with_change, extend. cbn. rewrite Es, Ec, !app_nil_r. done.
Qed.

(** The hooks of an execution add its frame, and nothing else, to the frame
    around it or to the roots. *)
Definition exec_adds (e : Exec) : Prop := forall s,
  run (exec_hooks e) s =
    (m ← slots_run (exec_steps e) (insp_slots s);
     Ok (add_frame (frame_of (length (stack s)) e) (mkInspector (stack s) (insp_roots s) m))).

Lemma body_run body f rest rs m :
  (forall e, Sub e ∈ body -> exec_adds e) ->
  run (flat_map event_hooks body) (mkInspector (f :: rest) rs m) =
    (m' ← slots_run (flat_map event_steps body) m; Ok (mkInspector (extend (S (length rest)) body f :: rest) rs m')).
Proof.
  revert f m. induction body as [|ev body IH]; intros f m Hsub; [cbn; by rewrite extend_nil|].
  cbn [flat_map]. rewrite run_app, slots_run_app, extend_cons.
  assert (Hev : run (event_hooks ev) (mkInspector (f :: rest) rs m) =
    (m' ← slots_run (event_steps ev) m; Ok (mkInspector (extend (S (length rest)) [ev] f :: rest) rs m'))).
  { destruct ev as [i|l|e].
    - cbn [event_hooks run on_hook event_steps slots_run]. rewrite (step_last (S (length rest))). by destruct (slots_step i m).
    - cbn. unfold with_log, extend. cbn. by rewrite !app_nil_r.
    - cbn [event_hooks event_steps]. rewrite (Hsub e) by set_solver. cbn [insp_slots stack]. destruct (slots_run (exec_steps e) m); cbn; try done.
      unfold with_child, extend. cbn. by rewrite !app_nil_r. }
  rewrite Hev. destruct (slots_run (event_steps ev) m); cbn; [|done..]. apply IH. intros e He. apply Hsub. set_solver.
Qed.

Lemma exec_run e : exec_adds e.
Proof.
  induction e as [enter body o IH] using Exec_tree_ind. intros [st rs m]. cbn [exec_hooks exec_steps stack insp_roots insp_slots].
  cbn [run]. replace (on_hook (enter_hook enter) (mkInspector st rs m)) with (Ok (mkInspector (enter_frame (length st) enter :: st) rs m))
    by (by destruct enter). cbn [mbind Res_bind]. rewrite run_app, body_run by done.
  destruct (slots_run _ m) as [m'| |]; cbn [mbind Res_bind]; [|done..]. destruct enter, st; cbn; unfold set_created; cbn; by destruct (created o).
Qed.

Lemma run_frames es :
  run (flat_map exec_hooks es) new =
    (m ← slots_run (flat_map exec_steps es) ∅; Ok (mkInspector [] (map (frame_of 0) es) m)).
Proof.
  unfold new. change (map (frame_of 0) es) with ([] ++ map (frame_of 0) es). generalize (@nil CallFrame) at 2 4. generalize (∅ : gmap Address MappingSlots).
  induction es as [|e es IH]; intros m rs; [cbn; by rewrite app_nil_r|]. cbn [flat_map map]. rewrite run_app, slots_run_app.
  rewrite exec_run. cbn [insp_slots stack insp_roots]. destruct (slots_run (exec_steps e) m) as [m'| |]; cbn; [|done..].
  rewrite IH. by rewrite <- app_assoc.
Qed.

(** C37: The trace of executions that follow one another has one root for each,
    in order: the frame with its inputs and outcome, the depth at which it ran,
    the frames of its own calls in order, and the storage changes and logs of
    its own code. Nothing stays on the stack. The hashes seen are those of all
    the steps, in order. *)
Theorem trace_frames es :
  run (flat_map exec_hooks es) new =
    (m ← slots_run (flat_map exec_steps es) ∅; Ok (mkInspector [] (map (frame_of 0) es) m)).
Proof. exact (run_frames es). Qed.
End Frames.

(** ** The hashes seen are true *)
Lemma be_bytes_number bs : Forall byte_ok bs -> be_bytes (length bs) (be_number bs) = bs.
Proof.
  induction bs as [|b bs IH] using rev_ind; [done|]. intros [Hbs [Hb _]%Forall_cons]%Forall_app. unfold byte_ok in Hb.
  rewrite length_app, Nat.add_1_r, be_number_snoc. cbn [be_bytes]. rewrite Z.div_add_l, Z.div_small, Z.add_0_r, IH by (done || lia).
  do 2 f_equal. rewrite Z.add_comm, Z.mod_add, Z.mod_small by lia. done.
Qed.

Section Truth.
Context `{KeccakCode}.

(** The slot of an entry: the hash of its key with the slot of the mapping. *)
Definition slot_hash (k p : U256) : U256 := keccak_code (be_bytes 32 k ++ be_bytes 32 p).

(** A read of memory has the length that was asked for. *)
Definition memory_ok (i : Interp) : Prop :=
  forall off len d, memory i off len = Ok d -> length d = Z.to_nat len /\ Forall byte_ok d.

Definition slots_true (m : gmap Address MappingSlots) : Prop :=
  map_Forall (fun _ ms => hashed slot_hash ms) m.

Lemma default_true : hashed slot_hash slots_default.
Proof. split; [split; [done|]|]; intros s k p; cbn; by rewrite lookup_empty. Qed.

Lemma at_slots_true a f s :
  slots_true (insp_slots s) ->
  (forall ms, hashed slot_hash ms -> hashed slot_hash (f ms)) -> slots_true (insp_slots (at_slots a f s)).
Proof.
  intros Hm Hf. apply map_Forall_insert_2; [|done].
  apply Hf. destruct (insp_slots s !! a) as [ms|] eqn:E; cbn; [exact (Hm a ms E)|exact default_true].
Qed.

Lemma slots_step_true i m m' : memory_ok i -> slots_true m -> slots_step i m = Ok m' -> slots_true m'.
Proof.
  intros Hi Hm. unfold slots_step, step. destruct (_ =? KECCAK256).
  - unfold step_keccak. destruct (peek i 1); [|by intros [= <-]]. destruct (_ =? 0x40); [|destruct (_ =? 0x20); [|by intros [= <-]]].
    all: destruct (peek i 0) as [off|]; [|by intros [= <-]]; destruct (memory i _ _) as [d| |] eqn:Ed; try done; intros [= <-].
    2: { refine (at_slots_true (target_address i) (fun ms => record_array_start ms (keccak_code d) (be_number (take 32 d)))
           (mkInspector [] [] m) Hm _). by intros ms [Hd Hs]. }
    refine (at_slots_true (target_address i) (fun ms => record_sha3 ms (keccak_code d) (be_number (take 32 d)) (be_number (drop 32 d)))
      (mkInspector [] [] m) Hm _). intros ms Hh.
    destruct (Hi _ _ _ Ed) as [Hlen Hb]. change (Z.to_nat 0x40) with 64%nat in Hlen.
    assert (Hlt : length (take 32 d) = 32%nat) by (rewrite length_take; lia).
    assert (Hld : length (drop 32 d) = 32%nat) by (rewrite length_drop; lia).
    pose proof (Forall_take _ 32 d Hb) as Hbt. pose proof (Forall_drop _ 32 d Hb) as Hbd.
    replace (keccak_code d) with (slot_hash (be_number (take 32 d)) (be_number (drop 32 d))).
    + by apply record_sha3_hashed.
    + pose proof (be_bytes_number (take 32 d) Hbt) as Et. pose proof (be_bytes_number (drop 32 d) Hbd) as Edr.
      rewrite Hlt in Et. rewrite Hld in Edr. unfold slot_hash. by rewrite Et, Edr, take_drop.
  - destruct (_ =? SSTORE); [|by intros [= <-]]. unfold step_sstore. destruct (change_at i) as [c|]; [|by intros [= <-]].
    intros [= <-]. cbn. unfold near_slots. destruct (m !! target_address i) as [ms|] eqn:E; [|done].
    apply map_Forall_insert_2; [|done]. by apply insert_nearby_hashed, (Hm _ _ E).
Qed.

Lemma slots_run_true steps m m' : Forall memory_ok steps -> slots_true m -> slots_run steps m = Ok m' -> slots_true m'.
Proof.
  revert m. induction steps as [|i steps IH]; intros m Hok Hm; cbn; [by intros [= <-]|]. inversion Hok; subst.
  destruct (slots_step i m) as [m1| |] eqn:E; cbn; [|done..]. apply IH; [done|]. by eapply slots_step_true.
Qed.

(** C38: A slot of a trace is taken for an entry of a mapping only when it is
    one: the keys found for it are those that, hashed one after another from
    the slot found for the mapping, give the slot. *)
Theorem entry_keys_true es s a ms slot ks base :
  Forall memory_ok (flat_map exec_steps es) -> run (flat_map exec_hooks es) new = Ok s ->
  mapping_slots (into_trace s) !! a = Some ms ->
  key_chain ms slot = Some (Some ks) -> base_slot ms slot = Some (Some base) ->
  slot = hash_keys slot_hash base ks.
Proof.
  rewrite run_frames. intros Hok Hrun Hms Hks Hbase. destruct (slots_run _ ∅) as [m| |] eqn:E; try done. injection Hrun as <-.
  pose proof (slots_run_true _ ∅ m Hok (map_Forall_empty _) E a ms Hms) as Hh. by apply (entry_hash slot_hash ms slot ks base).
Qed.
End Truth.

(** ** Witness: [m[9] = 1] in a call, for a mapping at slot 3 *)
Section Witness.
#[local] Instance number_keccak : KeccakCode :=
  {| keccak_code d := (1000 * be_number (take 32 d) + be_number (drop 32 d) + 7) mod 2 ^ 256 |}.

Definition toy_read (d : Bytes) (off len : Z) : Res Bytes :=
  if len =? Z.of_nat (length d) then Ok d else Panic "out of range".
Definition toy_hash_step : Interp :=
  mkInterp 7 KECCAK256 [0x40; 0] (toy_read (be_bytes 32 9 ++ be_bytes 32 3)) (fun _ => None).
Definition toy_store_step : Interp :=
  mkInterp 7 SSTORE [1; slot_hash 9 3] (toy_read []) (fun _ => Some 0).
Definition toy_exec : Exec :=
  mkExec (EnterCall (mkBlock 1 2) (mkCallInputs SchemeCall 7 7 8 0 [] [1])) [OnStep toy_hash_step; OnStep toy_store_step]
    (mkOutcome 21000 true [] None).
Definition toy_end : Inspector := match run (flat_map exec_hooks [toy_exec]) new with Ok s => s | _ => new end.
Definition toy_slots : MappingSlots := default slots_default (mapping_slots (into_trace toy_end) !! 7).

Lemma toy_read_ok d a o ops l : Forall byte_ok d -> memory_ok (mkInterp a o ops (toy_read d) l).
Proof.
  intros Hd off len x. cbn. unfold toy_read. destruct (Z.eqb_spec len (Z.of_nat (length d))) as [->|]; [|done].
  intros [= <-]. by rewrite Nat2Z.id.
Qed.

Lemma entry_keys_true_witness : slot_hash 9 3 = hash_keys slot_hash 3 [9].
Proof.
  apply (entry_keys_true) with (es := [toy_exec]) (s := toy_end) (a := 7) (ms := toy_slots).
  - cbn [flat_map exec_steps event_steps toy_exec app]. constructor; [|constructor; [|constructor]]; apply toy_read_ok; [|constructor].
    apply Forall_app. split; apply be_bytes_ok.
  - vm_compute. reflexivity.
  - vm_compute. reflexivity.
  - vm_compute. reflexivity.
  - vm_compute. reflexivity.
Defined.
End Witness.
