(* ===== verification/TraceContext.v ===== *)
(** * TraceContext: what a trace is decoded with

    Models the context half of [evm/trace/context.rs]: labels, ABIs, the codes
    of the compiled contracts, the functions and structs of their sources and
    their storage. The two searches for a code work in one buffer that they
    restore after each candidate; they find what a search with a fresh copy per
    candidate would. The conversion of the compiler's ABIs is a parameter; hash
    maps of the output are walked in the order of their lists. *)
From S2P Require Import Prelude.
From S2P Require Import Env.
From S2P Require Import Compare.
From S2P Require Import Transaction.
From S2P Require Import Database.
From S2P Require Import SolcOutput.
From S2P Require Import BytecodeIndex.
From S2P Require Import MappingSlots.
From S2P Require Import StorageType.
From S2P Require Import StorageNames.

(** ** ABIs *)

(** A parameter: [struct_name] is the name of the struct in its internal type. *)
Inductive AbiParam : Type := mkAbiParam {
  ap_name : string;
  ap_is_struct : bool;
  struct_name : option string;
  selector_type : string;
  ap_components : list AbiParam;
}.
Record EventParam : Type := mkEventParam { ev_param : AbiParam; ev_indexed : bool }.
Record AbiFunction : Type := mkAbiFunction {
  af_name : string; af_selector : Selector; af_inputs : list AbiParam; af_outputs : list AbiParam }.
Record AbiEvent : Type := mkAbiEvent { ae_name : string; ae_selector : U256; ae_inputs : list EventParam }.
Record AbiError : Type := mkAbiError { er_name : string; er_selector : Selector; er_inputs : list AbiParam }.
Record JsonAbi : Type := mkAbi { abi_functions : list AbiFunction; abi_events : list AbiEvent; abi_errors : list AbiError }.
Definition abi_default : JsonAbi := mkAbi [] [] [].

Definition function_by_selector (a : JsonAbi) (sel : Selector) : option AbiFunction :=
  find (fun f => bool_decide (af_selector f = sel)) (abi_functions a).

(** ** Sources *)
Inductive StorageLocation : Type := LocDefault | LocStorage | LocMemory | LocCalldata.
Inductive ElementaryType : Type :=
| ElUint (bits : Z) | ElInt (bits : Z) | ElAddress | ElPayable | ElBool | ElString | ElBytes
| ElFixedBytes (size : nat) | ElUfixed (m n : Z) | ElFixed (m n : Z).
Inductive TypeName : Type :=
| TyElementary (e : ElementaryType)
| TyMapping
| TyUserDefined (referenced_declaration : option Z)
| TyArray (base : TypeName) (has_length : bool)
| TyFunction.
Record VariableDeclaration : Type := mkVariable { type_name : TypeName; storage_location : StorageLocation }.
Record FunctionDefinition : Type := mkFunctionDef {
  fd_name : string; function_selector : option string; fd_parameters : list VariableDeclaration }.
Inductive ContractNode : Type :=
| NFunction (f : FunctionDefinition) | NStruct (id : Z) (members : list VariableDeclaration) | NOther.
Record ContractDefinition : Type := mkContractDef { cd_name : string; cd_is_library : bool; cd_nodes : list ContractNode }.
Inductive UnitNode : Type := UContract (c : ContractDefinition) | UOther.
Definition SourceUnit : Type := list UnitNode.

Definition unit_contracts (u : SourceUnit) : list ContractDefinition :=
  omap (fun n => match n with UContract c => Some c | UOther => None end) u.

Definition contract_definition (u : SourceUnit) (n : string) : option ContractDefinition :=
  find (fun d => String.eqb (cd_name d) n) (unit_contracts u).

Abbreviation AstFunctions := (gmap Selector FunctionDefinition) (only parsing).
Abbreviation StructIndex := (gmap Z (list VariableDeclaration)) (only parsing).

(** [entry(k).or_insert(v)] *)
Definition or_insert {K V} `{Countable K} (k : K) (v : V) (m : gmap K V) : gmap K V :=
  match m !! k with Some _ => m | None => <[k := v]> m end.

Section Sources.
Context `{Text}.

(** The key of a function with a selector of four bytes. *)
Definition function_key (f : FunctionDefinition) : option Selector :=
  s ← function_selector f;
  bytes ← ok (hex_decode (default s (strip_prefix "0x" s)));
  if (length bytes =? 4)%nat then Some bytes else None.

Definition collect_contract_functions (m : AstFunctions) (d : ContractDefinition) : AstFunctions :=
  foldl (fun m n => match n with
                    | NFunction f => match function_key f with Some k => or_insert k f m | None => m end
                    | _ => m
                    end) m (cd_nodes d).
Definition collect_ast_functions (m : AstFunctions) (u : SourceUnit) : AstFunctions :=
  foldl collect_contract_functions m (unit_contracts u).

Definition collect_contract_structs (m : StructIndex) (d : ContractDefinition) : StructIndex :=
  foldl (fun m n => match n with NStruct id members => or_insert id members m | _ => m end) m (cd_nodes d).
Definition collect_struct_defs (m : StructIndex) (u : SourceUnit) : StructIndex :=
  foldl collect_contract_structs m (unit_contracts u).
End Sources.

(** ** Codes *)
Record BytecodeEntry : Type := mkEntry { be_name : string; base_hash : U256; be_positions : list Position }.

Section Codes.
Context `{Text} `{KeccakCode}.

Definition code_positions (b : Bytecode) (is_library : bool) (code : Bytes) : list Position :=
  collect_link_positions (bytecode_link_refs b) ++
  (default [] (immutable_references b) ≫= snd) ++
  (if is_library && bool_decide (head code = Some 115) then [mkPosition 1 20] else []).

Definition bytecode_entry (n : string) (b : option Bytecode) (is_library : bool) : Res (option BytecodeEntry) :=
  match b with
  | None => Ok None
  | Some b =>
      code ← parse_bytecode_with_placeholders (bytecode_object b) (bytecode_link_refs b);
      mret (if bool_decide (code = []) then None
            else let ps := code_positions b is_library code in
                 Some (mkEntry n (keccak_code (zero_out_positions code ps)) ps))
  end.

(** The loop of both searches: the masked buffer is restored after each entry. *)
Fixpoint resolve_go (code masked : Bytes) (es : list BytecodeEntry) : option string :=
  match es with
  | [] => None
  | e :: rest =>
      let masked := zero_out_positions masked (be_positions e) in
      if keccak_code masked =? base_hash e then Some (be_name e)
      else resolve_go code (restore_positions code masked (be_positions e)) rest
  end.
End Codes.

(** ** The context *)
Record TraceContext : Type := mkContext {
  labels : gmap Address string;
  abis : list JsonAbi;
  bytecode_entries : list BytecodeEntry;
  initcode_entries : list BytecodeEntry;
  ast_functions : AstFunctions;
  struct_field_index : StructIndex;
  ctx_storage : StorageContext;
}.

(** [serde_json]'s conversion of the compiler's ABI. *)
Class AbiRetype : Type := {
  RawAbi : Type;
  JsonValue : Type;
  to_json : RawAbi -> option JsonValue;
  json_default : JsonValue;
  of_json : JsonValue -> option JsonAbi;
}.

Section Context_.
Context `{Text} `{KeccakCode} `{AbiRetype}.

Definition retype (a : RawAbi) : JsonAbi := default abi_default (of_json (default json_default (to_json a))).

Record ContractOutput : Type := mkContractOutput {
  co_abi : option RawAbi;
  co_evm : option Evm;
  co_layout : option StorageLayout;
}.
Record StandardOutput : Type := mkOutput {
  out_contracts : list (string * list (string * ContractOutput));
  out_sources : list (string * option SourceUnit);
}.

Definition context_default : TraceContext :=
  mkContext (<[DEFAULT_DEPLOYER := "RipfuzzDeployer"]> {[VM_ADDRESS := "RipfuzzVM"]}) [] [] [] ∅ ∅ (mkStorageContext ∅ ∅ ∅).
Definition with_abi (a : JsonAbi) (c : TraceContext) : TraceContext :=
  mkContext (labels c) (abis c ++ [a]) (bytecode_entries c) (initcode_entries c) (ast_functions c) (struct_field_index c) (ctx_storage c).
Definition with_label (a : Address) (l : string) (c : TraceContext) : TraceContext :=
  mkContext (<[a := l]> (labels c)) (abis c) (bytecode_entries c) (initcode_entries c) (ast_functions c) (struct_field_index c) (ctx_storage c).
Definition context_new (common : JsonAbi) : TraceContext := with_abi common context_default.

(** The layout of a contract replaces one of the same name. *)
Definition add_layout (n : string) (l : Layout) (c : StorageContext) : StorageContext :=
  mkStorageContext (<[n := names l]> (storage_names c)) (<[n := arrays l]> (array_infos c)) (<[n := mappings l]> (mapping_infos c)).

(** One contract that has a definition and an ABI. *)
Definition index_contract (stack : nat) (u : SourceUnit) (c : TraceContext) (nc : string * ContractOutput) : Res TraceContext :=
  let '(n, out) := nc in
  match contract_definition u n, co_abi out with
  | Some def, Some abi =>
      deployed ← bytecode_entry n (e ← co_evm out; deployed_bytecode e) (cd_is_library def);
      init ← bytecode_entry n (e ← co_evm out; bytecode e) false;
      layout ← match co_layout out with Some l => parse_storage_layout stack l | None => Ok None end;
      mret (mkContext (labels c) (abis c ++ [retype abi])
              (bytecode_entries c ++ option_list deployed) (initcode_entries c ++ option_list init)
              (ast_functions c) (struct_field_index c)
              (match layout with Some l => add_layout n l (ctx_storage c) | None => ctx_storage c end))
  | _, _ => Ok c
  end.

Fixpoint fold_res {A B} (f : B -> A -> Res B) (b : B) (l : list A) : Res B :=
  match l with [] => Ok b | a :: rest => b' ← f b a; fold_res f b' rest end.

Definition index_source (stack : nat) (sources : list (string * option SourceUnit)) (c : TraceContext)
    (pc : string * list (string * ContractOutput)) : Res TraceContext :=
  match (s ← get_path pc.1 sources; s) with
  | None => Ok c
  | Some u =>
      fold_res (index_contract stack u)
        (mkContext (labels c) (abis c) (bytecode_entries c) (initcode_entries c)
           (collect_ast_functions (ast_functions c) u) (collect_struct_defs (struct_field_index c) u) (ctx_storage c)) pc.2
  end.

(** The common events come last. *)
Definition from_solc_output (stack : nat) (common : JsonAbi) (out : StandardOutput) : Res TraceContext :=
  c ← fold_res (index_source stack (out_sources out)) context_default (out_contracts out);
  mret (with_abi common c).

Definition get_label (c : TraceContext) (a : Address) : option string := labels c !! a.
Definition get_abi (c : TraceContext) (sel : Selector) : option JsonAbi :=
  find (fun a => bool_decide (is_Some (function_by_selector a sel))) (abis c).

Definition resolve_by_bytecode (c : TraceContext) (code : Bytes) : option string := resolve_go code code (bytecode_entries c).
Definition resolve_by_initcode (c : TraceContext) (code : Bytes) : option string := resolve_go code code (initcode_entries c).
Definition resolve_by_code_hash (c : TraceContext) (hash : U256) : option string :=
  be_name <$> find (fun e => base_hash e =? hash) (bytecode_entries c).
End Context_.

(** ** The searches for a code *)
Section Searches.
Context `{KeccakCode}.

Definition is_code_of (code : Bytes) (e : BytecodeEntry) : bool :=
  keccak_code (zero_out_positions code (be_positions e)) =? base_hash e.

Lemma resolve_go_find code es : resolve_go code code es = be_name <$> find (is_code_of code) es.
Proof.
  induction es as [|e es IH]; [done|]. cbn [resolve_go find]. unfold is_code_of at 1.
  destruct (keccak_code _ =? base_hash e); [done|]. by rewrite restore_zero_out.
Qed.

(** A code that differs from an entry's in masked bytes only is found. *)
Lemma masked_code_found code raw e es :
  e ∈ es -> base_hash e = keccak_code (zero_out_positions code (be_positions e)) ->
  @length Z raw = length code -> (forall i, covers (be_positions e) i = false -> raw !! i = code !! i) ->
  is_Some (resolve_go raw raw es).
Proof.
  intros He Hhash Hlen Hagree. rewrite resolve_go_find. destruct (find (is_code_of raw) es) as [e'|] eqn:Ef; [by eexists|exfalso].
  assert (Hnone := find_none _ _ Ef e (proj1 (list_elem_of_In _ _) He)). unfold is_code_of in Hnone.
  by rewrite (zero_out_agree _ raw code), Hhash, Z.eqb_refl in Hnone.
Qed.
End Searches.

(** ** What the compiler's output gives *)
Section Indexed.
Context `{Text} `{KeccakCode} `{AbiRetype}.

(** What was known stays known, and stays in front. *)
Record extends (c c' : TraceContext) : Prop := {
  extends_codes : exists l, bytecode_entries c' = bytecode_entries c ++ l;
  extends_initcodes : exists l, initcode_entries c' = initcode_entries c ++ l;
  extends_abis : exists l, abis c' = abis c ++ l;
}.

#[local] Instance extends_preorder : PreOrder extends.
Proof.
  split; [intros c; by split; exists []; rewrite app_nil_r|].
  intros x y z [[l1 E1] [l2 E2] [l3 E3]] [[k1 F1] [k2 F2] [k3 F3]].
  split; [exists (l1 ++ k1)|exists (l2 ++ k2)|exists (l3 ++ k3)]; rewrite ?F1, ?F2, ?F3, ?E1, ?E2, ?E3; by rewrite app_assoc.
Qed.

Lemma fold_res_extends {A} (f : TraceContext -> A -> Res TraceContext) c l c' :
  (forall c a c', f c a = Ok c' -> extends c c') -> fold_res f c l = Ok c' -> extends c c'.
Proof.
  intros Hf. revert c. induction l as [|a l IH]; intros c; cbn; [by intros [= ->]|].
  destruct (f c a) as [c1| |] eqn:E; cbn; [|done..]. intros Hc. etrans; [by eapply Hf|by apply IH].
Qed.

Lemma fold_res_elem {A B} (f : B -> A -> Res B) b l r a :
  a ∈ l -> fold_res f b l = Ok r ->
  exists b1 b2 l2, f b1 a = Ok b2 /\ fold_res f b2 l2 = Ok r.
Proof.
  intros Ha. revert b. induction l as [|x l IH]; intros b; [by apply elem_of_nil in Ha|]. cbn.
  destruct (f b x) as [b'| |] eqn:E; cbn; [|done..]. apply elem_of_cons in Ha as [->|Ha]; intros Hr; [by exists b, b', l|by apply (IH Ha b')].
Qed.

Lemma index_contract_extends stack u c nc c' : index_contract stack u c nc = Ok c' -> extends c c'.
Proof.
  destruct nc as [n out]. cbn. destruct (contract_definition u n) as [def|]; [|by intros [= ->]].
  destruct (co_abi out) as [abi|]; [|by intros [= ->]].
  destruct (bytecode_entry n _ (cd_is_library def)) as [d| |]; cbn; [|done..]. destruct (bytecode_entry n _ false) as [i| |]; cbn; [|done..].
  destruct (match co_layout out with Some l => _ | None => _ end) as [l| |]; cbn; [|done..]. intros [= <-]. split; cbn; by eexists.
Qed.

Lemma index_source_extends stack sources c pc c' : index_source stack sources c pc = Ok c' -> extends c c'.
Proof.
  unfold index_source. destruct (s ← _; s) as [u|]; [|by intros [= ->]]. intros Hf.
  apply fold_res_extends in Hf; [|intros; by eapply index_contract_extends]. destruct Hf as [Hl Hi Ha]. by split.
Qed.

(** The deployed code of a compiled contract with an ABI is given a name,
    whatever the deployment filled in for its libraries, its immutables and,
    for a library, its own address. *)
Theorem deployed_code_named stack common out c p cs u n co def abi b code raw :
  from_solc_output stack common out = Ok c ->
  (p, cs) ∈ out_contracts out -> get_path p (out_sources out) = Some (Some u) -> (n, co) ∈ cs ->
  contract_definition u n = Some def -> co_abi co = Some abi -> (e ← co_evm co; deployed_bytecode e) = Some b ->
  parse_bytecode_with_placeholders (bytecode_object b) (bytecode_link_refs b) = Ok code -> code <> [] ->
  length raw = length code -> (forall i, covers (code_positions b (cd_is_library def) code) i = false -> raw !! i = code !! i) ->
  is_Some (resolve_by_bytecode c raw).
Proof.
  unfold from_solc_output. destruct (fold_res _ _ _) as [c0| |] eqn:E0; cbn; [|done..]. intros [= <-] Hp Hu Hn Hdef Habi Hb Hcode Hne Hlen Hag.
  destruct (fold_res_elem _ _ _ _ _ Hp E0) as (c1 & c2 & l2 & E1 & E2).
  apply fold_res_extends in E2 as [[k Hk] _ _]; [|intros; by eapply index_source_extends].
  unfold index_source in E1. cbn [fst snd] in E1. rewrite Hu in E1. cbn in E1.
  destruct (fold_res_elem _ _ _ _ _ Hn E1) as (c3 & c4 & l4 & E3 & E4).
  apply fold_res_extends in E4 as [[k' Hk'] _ _]; [|intros; by eapply index_contract_extends].
  unfold index_contract in E3. rewrite Hdef, Habi, Hb in E3. cbn [bytecode_entry] in E3. rewrite Hcode in E3. cbn in E3.
  rewrite bool_decide_false in E3 by done. destruct (bytecode_entry n _ false) as [i| |]; cbn in E3; [|done..].
  destruct (match co_layout co with Some l => _ | None => _ end) as [l| |]; cbn in E3; [|done..]. injection E3 as <-.
  unfold resolve_by_bytecode. cbn [with_abi bytecode_entries]. rewrite Hk, Hk'. cbn [bytecode_entries].
  set (ps := code_positions b (cd_is_library def) code) in *.
  apply (masked_code_found code raw (mkEntry n (keccak_code (zero_out_positions code ps)) ps)); [|done|exact Hlen|exact Hag].
  rewrite <- !app_assoc. cbn [option_list]. set_solver.
Qed.
End Indexed.

(** ** Witness: a deployed library, whose code starts with its address *)
Section Witness.
Import Toy.
#[local] Instance sum_keccak : KeccakCode := {| keccak_code bs := foldr Z.add 0 bs |}.
#[local] Instance unit_abi : AbiRetype :=
  {| RawAbi := unit; JsonValue := unit; to_json _ := Some tt; json_default := tt; of_json _ := Some abi_default |}.

Definition library_code : Bytecode := mkBytecode (Some "0x73000102") None None None.
Definition library_output : StandardOutput :=
  mkOutput [("src/L.sol", [("L", @mkContractOutput unit_abi (Some tt) (Some (SolcOutput.mkEvm None (Some library_code))) None)])]
    [("src/L.sol", Some [UContract (mkContractDef "L" true [])])].
Definition library_context : TraceContext :=
  match from_solc_output 9 abi_default library_output with Ok c => c | _ => context_default end.

Lemma deployed_code_named_witness : is_Some (resolve_by_bytecode library_context [115; 7; 8; 9]).
Proof.
  apply (deployed_code_named 9 abi_default library_output library_context "src/L.sol"
    [("L", @mkContractOutput unit_abi (Some tt) (Some (SolcOutput.mkEvm None (Some library_code))) None)]
    [UContract (mkContractDef "L" true [])] "L" (@mkContractOutput unit_abi (Some tt) (Some (SolcOutput.mkEvm None (Some library_code))) None)
    (mkContractDef "L" true []) tt library_code [115; 0; 1; 2]).
  - vm_compute. reflexivity.
  - by left.
  - vm_compute. reflexivity.
  - by left.
  - reflexivity.
  - reflexivity.
  - reflexivity.
  - vm_compute. reflexivity.
  - done.
  - reflexivity.
  - intros i. destruct i as [|[|[|[|i]]]]; cbn; done.
Defined.
End Witness.
