(* ===== verification/TraceDecode.v ===== *)
(** * TraceDecode: the text of calls, results, events and reverts

    Models the decoding half of [evm/trace/context.rs] and [evm/trace/evmole.rs]:
    the arguments of a call by the project's ABIs, by the functions of its
    sources or by the analysis of the code, in this order; the results of a
    call, events, logged messages and revert reasons. The ABI library, the
    analysis of codes and the text of rare values are parameters. The types of
    nested structs are found with a stack as fuel. *)
From S2P Require Import Prelude.
From S2P Require Import Env.
From S2P Require Import StorageType.
From S2P Require Import TraceInspector.
From S2P Require Import TraceContext.

Inductive PanicKind : Type :=
| PkGeneric | PkAssert | PkUnderOverflow | PkDivisionByZero | PkEnumConversionError | PkStorageEncodingError
| PkEmptyArrayPop | PkArrayOutOfBounds | PkResourceError | PkInvalidInternalFunction | PkOther (as_str : string).

(** [DynSolType::parse], [abi_decode_params], [abi_decode_sequence] and
    [abi_decode]; [DynSolEvent::new] and [decode_log_data], which gives the
    indexed values and the others; [Revert::abi_decode], [Panic::abi_decode]
    with [kind]; the [Debug] text of a value; [evmole::contract_info]. *)
Class TraceAbi : Type := {
  parse_type : string -> option DynSolType;
  decode_params : DynSolType -> Bytes -> option DynSolValue;
  decode_sequence : DynSolType -> Bytes -> option DynSolValue;
  decode_single : DynSolType -> Bytes -> option DynSolValue;
  event_new : list DynSolType -> DynSolType -> bool;
  decode_log_data : U256 -> list DynSolType -> DynSolType -> Log -> option (list DynSolValue * list DynSolValue);
  revert_decode : Bytes -> option string;
  panic_decode : Bytes -> option (option PanicKind);
  debug_value : DynSolValue -> string;
  contract_info : Bytes -> list (Selector * option (list DynSolType));
}.

Definition join (l : list string) : string := String.concat ", " l.

(** [split('[').next()] *)
Fixpoint before_bracket (s : string) : string :=
  match s with String a s' => if Ascii.eqb a "[" then "" else String a (before_bracket s') | EmptyString => "" end.

(** ** Values *)
Section Values.
Context `{Text} `{TraceText} `{TraceAbi} (labels : gmap Address string).

Definition hex_text (bs : Bytes) : string := "0x" +:+ hex_encode bs.

Fixpoint format_value (v : DynSolValue) : string :=
  match v with
  | VBool b => if b then "true" else "false"
  | VUint n _ => u256_to_string n
  | VInt i _ => signed_text i
  | VAddress a => match labels !! a with Some l => l +:+ ": [" +:+ to_checksum a +:+ "]" | None => to_checksum a end
  | VString s => quoted s
  | VBytes b | VFixedBytes b _ => hex_text b
  | VArray vs | VFixedArray vs => "[" +:+ join (map format_value vs) +:+ "]"
  | VTuple vs => "(" +:+ join (map format_value vs) +:+ ")"
  | VFunction _ => debug_value v
  end.

(** A value with its parameter: structs have their name and field names. *)
Fixpoint format_abi_value (v : DynSolValue) (p : AbiParam) : string :=
  let fields :=
    (fix fields (vs : list DynSolValue) (ps : list AbiParam) : list string :=
       match vs, ps with
       | v :: vs, q :: ps =>
           (if ap_is_struct p then ap_name q +:+ ": " +:+ format_abi_value v q else format_abi_value v q) :: fields vs ps
       | _, _ => []
       end) in
  match v with
  | VTuple vs =>
      if ap_is_struct p
      then match struct_name p with Some n => before_bracket n | None => "tuple" end +:+ "({ " +:+ join (fields vs (ap_components p)) +:+ " })"
      else "(" +:+ join (fields vs (ap_components p)) +:+ ")"
  | VArray vs | VFixedArray vs => "[" +:+ join (map (fun v => format_abi_value v p) vs) +:+ "]"
  | _ => format_value v
  end.

Definition format_abi_args (vs : list DynSolValue) (ps : list AbiParam) : string :=
  join (zip_with format_abi_value vs ps).

(** The result of decoding a tuple. *)
Definition tuple_text (d : option DynSolValue) (text : list DynSolValue -> string) : string :=
  match d with Some (VTuple vs) => text vs | Some other => text [other] | None => "..." end.

(** [DynSolType::parse] of the parameters' types; what does not parse is
    dropped. *)
Definition param_types (ps : list AbiParam) : list DynSolType := omap (fun p => parse_type (selector_type p)) ps.
End Values.

(** ** Types of the sources *)
Definition elementary_to_dyn_sol_type (e : ElementaryType) : DynSolType :=
  match e with
  | ElUint bits => TUint bits
  | ElInt bits => TInt bits
  | ElAddress | ElPayable => TAddress
  | ElBool => TBool
  | ElString => TString
  | ElBytes => TBytes
  | ElFixedBytes n => TFixedBytes n
  | ElUfixed _ _ | ElFixed _ _ => TUint 256
  end.

Definition is_storage (l : StorageLocation) : bool := match l with LocStorage => true | _ => false end.

Section AstTypes.
Context (fields_of : VariableDeclaration -> Res DynSolType) (index : StructIndex).
(** One type, with the types of the fields of structs. *)
Fixpoint ast_type_go (ty : TypeName) (loc : StorageLocation) : Res DynSolType :=
  match ty with
  | TyElementary e => Ok (elementary_to_dyn_sol_type e)
  | TyMapping => Ok (TUint 256)
  | TyUserDefined ref =>
      if is_storage loc then Ok (TUint 256)
      else match (r ← ref; index !! r) with
           | Some fields => tys ← mapRes fields_of fields; mret (TTuple tys)
           | None => Ok TBytes
           end
  | TyArray b has_length =>
      if is_storage loc then Ok (TUint 256)
      else if has_length then Ok TBytes
      else inner ← ast_type_go b loc; mret (TArray inner)
  | TyFunction => Ok TBytes
  end.
End AstTypes.

Fixpoint ast_type_to_dyn_sol_type (stack : nat) (index : StructIndex) (ty : TypeName) (loc : StorageLocation) : Res DynSolType :=
  match stack with
  | O => Panic "stack overflow"
  | S stack' =>
      ast_type_go (fun v => ast_type_to_dyn_sol_type stack' index (type_name v) (storage_location v)) index ty loc
  end.

(** ** The analysis of a code *)
Abbreviation Evmole := (gmap Selector (list DynSolType)) (only parsing).
Definition evmole_extract `{TraceAbi} (code : Bytes) : Evmole :=
  foldl (fun m fn => <[fn.1 := default [] fn.2]> m) ∅ (contract_info code).
Definition arguments (e : Evmole) (sel : Selector) : option (list DynSolType) := e !! sel.

(** ** Decoding *)
Section Decode.
Context `{Text} `{TraceText} `{TraceAbi} (stack : nat) (ctx : TraceContext).

Definition sel_of (data : Bytes) : Selector := take 4 data.

(** The function of the first ABI that has one for a selector. *)
Definition known_function (sel : Selector) : option AbiFunction :=
  match omap (fun a => function_by_selector a sel) (abis ctx) with f :: _ => Some f | [] => None end.

Definition abi_args (f : AbiFunction) (data : Bytes) : string :=
  match param_types (af_inputs f) with
  | [] => ""
  | tys => tuple_text (decode_params (TTuple tys) (drop 4 data)) (fun vs => format_abi_args (labels ctx) vs (af_inputs f))
  end.

Definition plain_args (ls : gmap Address string) (tys : list DynSolType) (data : Bytes) : string :=
  match tys with
  | [] => ""
  | _ => tuple_text (decode_params (TTuple tys) (drop 4 data)) (fun vs => join (map (format_value ls) vs))
  end.

Definition decode_ast_call (f : FunctionDefinition) (data : Bytes) : Res (string * string) :=
  if (length data <=? 4)%nat then Ok (fd_name f, "")
  else
    tys ← mapRes (fun v => ast_type_to_dyn_sol_type stack (struct_field_index ctx) (type_name v) (storage_location v)) (fd_parameters f);
    mret (fd_name f, plain_args ∅ tys data).

Definition decode_call (data : Bytes) (evmole : option Evmole) : Res (option string * string) :=
  if (length data <? 4)%nat then Ok (None, "")
  else
    let sel := sel_of data in
    match known_function sel with
    | Some f => Ok (Some (af_name f), abi_args f data)
    | None =>
        match ast_functions ctx !! sel with
        | Some f => r ← decode_ast_call f data; mret (Some r.1, r.2)
        | None =>
            match (e ← evmole; arguments e sel) with
            | Some tys => Ok (None, plain_args (labels ctx) tys data)
            | None => Ok (None, "...")
            end
        end
    end.

Definition decode_return (input output : Bytes) : option string :=
  if (length input <? 4)%nat || bool_decide (output = []) then None
  else
    match known_function (sel_of input) with
    | None => None
    | Some f =>
        match param_types (af_outputs f) with
        | [] => None
        | tys => Some (tuple_text (decode_params (TTuple tys) output) (fun vs => format_abi_args (labels ctx) vs (af_outputs f)))
        end
    end.

(** *** Events *)
Fixpoint event_args (ps : list EventParam) (ix body : list DynSolValue) : list string :=
  let text q v := ap_name (ev_param q) +:+ ": " +:+ format_abi_value (labels ctx) v (ev_param q) in
  match ps with
  | [] => []
  | q :: rest =>
      if ev_indexed q then
        match ix with v :: ix' => text q v :: event_args rest ix' body | [] => event_args rest ix body end
      else
        match body with v :: body' => text q v :: event_args rest ix body' | [] => event_args rest ix body end
  end.

Definition indexed_params (e : AbiEvent) : list AbiParam := map ev_param (filter (fun q => ev_indexed q = true) (ae_inputs e)).
Definition body_params (e : AbiEvent) : list AbiParam := map ev_param (filter (fun q => ev_indexed q = false) (ae_inputs e)).

Definition event_text (e : AbiEvent) (topic : U256) (l : Log) : string :=
  let ix := param_types (indexed_params e) in
  let body := TTuple (param_types (body_params e)) in
  if event_new ix body then
    match decode_log_data topic ix body l with
    | Some (ivs, bvs) => join (event_args (ae_inputs e) ivs bvs)
    | None => "..."
    end
  else "...".

Definition known_event (topic : U256) : option AbiEvent :=
  find (fun e => ae_selector e =? topic) (abis ctx ≫= abi_events).
Definition decode_known_event (topic : U256) (l : Log) : option (string * string) :=
  e ← known_event topic; Some (ae_name e, event_text e topic l).

Definition decode_event (l : Log) : option string * string :=
  match topics l with
  | [] => (None, hex_text (log_data l))
  | topic :: _ =>
      match decode_known_event topic l with
      | Some (n, args) => (Some n, args)
      | None => (None, hex_text (log_data l))
      end
  end.

(** *** Logged messages *)
Definition LOG_STRING : U256 := 0xcf34ef537ac33ee1ac626ca1587a0a7e8e51561e5514f8cb36afa1c5102b3bab.
Definition LOG_STRING_STRING : U256 := 0x821f337ab34a905a52ea2a22aa6b9ef872196a034e37c2bc08d88e21d8cece09.
Definition LOG_STRING_UINT256 : U256 := 0xdd970dd9b5bfe707922155b058a407655cb18288b807e2216442bca8ad83d6b5.
Definition LOG_STRING_ADDRESS : U256 := 0x1dfffa052d4a63bd70f14b863e128979d1c59e3589a0a3beb2633a120047042d.
Definition LOG_STRING_BYTES : U256 := 0x381e6feca73f11fec6ca464f9d2a06ae1bb0ee33a55355e128d2d3aca53cc5f4.
Definition LOG_STRING_BOOL : U256 := 0x52dd9d08c343f72c69027ade2a075f6242dba2eeca3a3c61bfd8d00d32f6bd20.

(** The type of the second value of a message. *)
Definition log_value_type (topic : U256) : option DynSolType :=
  if topic =? LOG_STRING_STRING then Some TString
  else if topic =? LOG_STRING_UINT256 then Some (TUint 256)
  else if topic =? LOG_STRING_ADDRESS then Some TAddress
  else if topic =? LOG_STRING_BYTES then Some TBytes
  else if topic =? LOG_STRING_BOOL then Some TBool
  else None.

Definition decode_log_event (l : Log) : option string :=
  match topics l with
  | [] => None
  | topic :: _ =>
      if topic =? LOG_STRING then
        match decode_single TString (log_data l) with Some (VString msg) => Some msg | _ => None end
      else
        ty ← log_value_type topic;
        match decode_sequence (TTuple [TString; ty]) (log_data l) with
        | Some (VTuple [VString msg; v]) => Some (msg +:+ format_value (labels ctx) v)
        | _ => None
        end
  end.

(** *** Reverts *)
Definition REVERT_SELECTOR : Selector := [0x08; 0xc3; 0x79; 0xa0].
Definition PANIC_SELECTOR : Selector := [0x4e; 0x48; 0x7b; 0x71].

Definition panic_text (k : option PanicKind) : string :=
  match k with
  | Some PkGeneric => "generic panic"
  | Some PkAssert => "assertion failed"
  | Some PkUnderOverflow => "arithmetic overflow/underflow"
  | Some PkDivisionByZero => "division by zero"
  | Some PkEnumConversionError => "enum conversion error"
  | Some PkStorageEncodingError => "storage encoding error"
  | Some PkEmptyArrayPop => "empty array pop"
  | Some PkArrayOutOfBounds => "array out of bounds"
  | Some PkResourceError => "resource error"
  | Some PkInvalidInternalFunction => "invalid internal function"
  | Some (PkOther s) => s
  | None => "unknown code"
  end.

Definition error_text (e : AbiError) (data : Bytes) : string :=
  match er_inputs e, param_types (er_inputs e) with
  | [], _ => er_name e +:+ "()"
  | _, [] => er_name e +:+ "(...)"
  | ps, tys =>
      er_name e +:+ "(" +:+ tuple_text (decode_params (TTuple tys) (drop 4 data)) (fun vs => format_abi_args (labels ctx) vs ps) +:+ ")"
  end.

Definition known_error (sel : Selector) : option AbiError :=
  find (fun e => bool_decide (er_selector e = sel)) (abis ctx ≫= abi_errors).

Definition abi_revert (data : Bytes) : string :=
  match (if (length data <? 4)%nat then None else known_error (sel_of data)) with
  | Some e => error_text e data
  | None => hex_text data
  end.

Definition decode_revert (data : Bytes) : string :=
  if bool_decide (data = []) then "reverted"
  else
    match (if bool_decide (sel_of data = REVERT_SELECTOR) then revert_decode data else None) with
    | Some reason => reason
    | None =>
        match (if bool_decide (sel_of data = PANIC_SELECTOR) then panic_decode data else None) with
        | Some k => "panic: " +:+ panic_text k
        | None => abi_revert data
        end
    end.
End Decode.

(** ** Calls *)

(** Decoding gives back what was encoded. [typed] relates values and types. *)
Class TraceAbiLaws `{Abi} `{TraceAbi} : Type := {
  typed : list DynSolValue -> list DynSolType -> Prop;
  decode_params_encode : forall vs tys, typed vs tys -> decode_params (TTuple tys) (abi_encode_params (VTuple vs)) = Some (VTuple vs);
}.

Section Calls.
Context `{Text} `{TraceText} `{TraceAbi} (stack : nat) (ctx : TraceContext).

Lemma known_function_abi sel :
  known_function ctx sel = (a ← get_abi ctx sel; function_by_selector a sel).
Proof.
  unfold known_function, get_abi. induction (abis ctx) as [|a l IH]; [done|]. cbn [omap list_omap find].
  destruct (function_by_selector a sel) eqn:E; [|exact IH]. cbn. by rewrite E.
Qed.

Context `{Abi} `{!TraceAbiLaws}.

Lemma sel_of_app sel rest : length sel = 4%nat -> sel_of (sel ++ rest) = sel /\ drop 4 (sel ++ rest) = rest.
Proof. intros Hl. unfold sel_of. rewrite <- Hl. by rewrite take_app_length, drop_app_length. Qed.

Lemma tuple_text_encoded tys vs text : typed vs tys ->
  tuple_text (decode_params (TTuple tys) (abi_encode_params (VTuple vs))) text = text vs.
Proof. intros Ht. by rewrite decode_params_encode. Qed.

(** A call of a function of a known ABI is shown with the function's name
    and its arguments, each with its own parameter, in order; and what the
    function returns is shown the same way. No analysis of the code changes
    it. *)
Theorem call_text sel f tys vs rtys rvs evmole :
  length sel = 4%nat -> known_function ctx sel = Some f ->
  Forall2 (fun p ty => parse_type (selector_type p) = Some ty) (af_inputs f) tys -> typed vs tys ->
  Forall2 (fun p ty => parse_type (selector_type p) = Some ty) (af_outputs f) rtys -> typed rvs rtys ->
  (tys = [] -> vs = []) -> rtys <> [] -> abi_encode_params (VTuple rvs) <> [] ->
  let input := sel ++ abi_encode_params (VTuple vs) in
  decode_call stack ctx input evmole = Ok (Some (af_name f), join (zip_with (format_abi_value (labels ctx)) vs (af_inputs f))) /\
  decode_return ctx input (abi_encode_params (VTuple rvs)) =
    Some (join (zip_with (format_abi_value (labels ctx)) rvs (af_outputs f))).
Proof.
  intros Hl Hf Htys Hvs Hrtys Hrvs Hnil Hrne Hrenc input. destruct (sel_of_app sel (abi_encode_params (VTuple vs)) Hl) as [Hsel Hdrop].
  fold input in Hsel, Hdrop.
  assert (Hlen : (length input <? 4)%nat = false) by (apply Nat.ltb_ge; unfold input; rewrite length_app; lia).
  assert (Hparams : forall ps ts, Forall2 (fun p ty => parse_type (selector_type p) = Some ty) ps ts -> param_types ps = ts).
  { intros ps ts Hall. unfold param_types. induction Hall as [|p t ps ts Hp _ IH]; [done|]. cbn [omap list_omap]. by rewrite Hp, IH. }
  split.
  - unfold decode_call. rewrite Hlen, Hsel, Hf. unfold abi_args. rewrite (Hparams _ _ Htys), Hdrop.
    destruct tys as [|t ts]; [rewrite Hnil by done; done|]. by rewrite tuple_text_encoded.
  - unfold decode_return. rewrite Hlen, bool_decide_false by done. cbn [orb]. rewrite Hsel, Hf, (Hparams _ _ Hrtys).
    destruct rtys as [|t ts]; [done|]. by rewrite tuple_text_encoded.
Qed.
End Calls.

(** ** Events *)
Section Events.
Context `{Text} `{TraceText} `{TraceAbi} (ctx : TraceContext).

Definition param_text (q : EventParam) (v : DynSolValue) : string :=
  ap_name (ev_param q) +:+ ": " +:+ format_abi_value (labels ctx) v (ev_param q).

(** The values of the parameters that are indexed, or that are not. *)
Definition values_where (ix : bool) (ps : list EventParam) (vs : list DynSolValue) : list DynSolValue :=
  (filter (fun qv => ev_indexed qv.1 = ix) (zip ps vs)).*2.

(** The two lists of values are put back in the order of the parameters. *)
Lemma event_args_merge ps vs :
  length vs = length ps ->
  event_args ctx ps (values_where true ps vs) (values_where false ps vs) = zip_with param_text ps vs.
Proof.
  revert vs. induction ps as [|q ps IH]; intros [|v vs] Hl; try done. injection Hl as Hl. specialize (IH vs Hl).
  cbn [event_args zip_with]. unfold values_where in *. cbn [zip zip_with]. rewrite !filter_cons. cbn [fst].
  destruct (ev_indexed q); cbn; f_equal; exact IH.
Qed.

(** An event is shown with the name of the first event of the ABIs with its
    topic and all its parameters in the order of the declaration, whether
    their values came from the topics or the data, when the ABI library reads
    the log as those values. *)
Theorem event_shown l topic rest e vs :
  topics l = topic :: rest -> known_event ctx topic = Some e -> length vs = length (ae_inputs e) ->
  event_new (param_types (indexed_params e)) (TTuple (param_types (body_params e))) = true ->
  decode_log_data topic (param_types (indexed_params e)) (TTuple (param_types (body_params e))) l =
    Some (values_where true (ae_inputs e) vs, values_where false (ae_inputs e) vs) ->
  decode_event ctx l = (Some (ae_name e), join (zip_with param_text (ae_inputs e) vs)).
Proof.
  intros Ht He Hl Hnew Hdec. unfold decode_event, decode_known_event, event_text. rewrite Ht, He. cbn [mbind option_bind].
  by rewrite Hnew, Hdec, event_args_merge.
Qed.
End Events.

(** ** The types of structs *)

(** The structs that a type mentions. *)
Fixpoint type_refs (ty : TypeName) : list Z :=
  match ty with TyUserDefined (Some r) => [r] | TyArray b _ => type_refs b | _ => [] end.

Lemma mapRes_total {A B} (f : A -> Res B) l : (forall x, x ∈ l -> exists y, f x = Ok y) -> exists ys, mapRes f l = Ok ys.
Proof.
  induction l as [|x l IH]; intros Hf; [by eexists|]. cbn [mapRes]. destruct (Hf x) as [y ->]; [set_solver|].
  destruct IH as [ys ->]; [intros z Hz; apply Hf; set_solver|]. by eexists.
Qed.

Section Ranks.
Context (index : StructIndex) (rank : Z -> nat).
(** The fields of a struct mention structs of a lower rank. *)
Definition ranked : Prop := forall id fields v r,
  index !! id = Some fields -> v ∈ fields -> r ∈ type_refs (type_name v) -> is_Some (index !! r) -> (rank r < rank id)%nat.

Lemma ast_type_go_ends (fields_of : VariableDeclaration -> Res DynSolType) ty loc :
  (forall r fields v, r ∈ type_refs ty -> index !! r = Some fields -> v ∈ fields -> exists t, fields_of v = Ok t) ->
  exists t, ast_type_go fields_of index ty loc = Ok t.
Proof.
  induction ty as [e| |ref|b IH has_length|]; cbn [ast_type_go type_refs]; intros Hf; try by eexists.
  - destruct (is_storage loc); [by eexists|]. destruct ref as [r|]; cbn; [|by eexists].
    destruct (index !! r) as [fields|] eqn:E; [|by eexists].
    destruct (mapRes_total fields_of fields) as [tys ->]; [|by eexists]. intros v Hv. apply (Hf r fields v); [set_solver|done|done].
  - destruct (is_storage loc); [by eexists|]. destruct has_length; [by eexists|].
    destruct (IH Hf) as [t ->]. by eexists.
Qed.

Lemma struct_type_found stack ty loc :
  ranked -> (0 < stack)%nat -> (forall r, r ∈ type_refs ty -> is_Some (index !! r) -> (S (rank r) < stack)%nat) ->
  exists t, ast_type_to_dyn_sol_type stack index ty loc = Ok t.
Proof.
  intros Hr. revert ty loc. induction stack as [|stack IH]; intros ty loc H0 Hty; [lia|]. cbn [ast_type_to_dyn_sol_type].
  apply ast_type_go_ends. intros r fields v Hin Hlook Hv. specialize (Hty r Hin (mk_is_Some _ _ Hlook)).
  apply IH; [lia|]. intros r' Hin' Hsome. pose proof (Hr r fields v r' Hlook Hv Hin' Hsome). lia.
Qed.

(** The type of a parameter is found when its structs are not recursive,
    with one level of stack for each level of nesting. *)
Theorem struct_types_end stack ty loc :
  ranked -> (0 < stack)%nat -> (forall r, r ∈ type_refs ty -> is_Some (index !! r) -> (S (rank r) < stack)%nat) ->
  exists t, ast_type_to_dyn_sol_type stack index ty loc = Ok t.
Proof. exact (struct_type_found stack ty loc). Qed.
End Ranks.

(** Every parameter of the sources' functions has a type. *)
Definition decodable (stack : nat) (ctx : TraceContext) : Prop := exists rank,
  ranked (struct_field_index ctx) rank /\ (0 < stack)%nat /\
  forall sel f v r, ast_functions ctx !! sel = Some f -> v ∈ fd_parameters f -> r ∈ type_refs (type_name v) ->
    is_Some (struct_field_index ctx !! r) -> (S (rank r) < stack)%nat.

Lemma decode_call_total `{Text} `{TraceText} `{TraceAbi} stack ctx data evmole :
  decodable stack ctx -> exists r, decode_call stack ctx data evmole = Ok r.
Proof.
  intros (rank & Hr & Hpos & Hs). unfold decode_call. destruct (_ <? _)%nat; [by eexists|].
  destruct (known_function ctx (sel_of data)); [by eexists|].
  destruct (ast_functions ctx !! sel_of data) as [f|] eqn:Ef; [|destruct (e ← evmole; arguments e (sel_of data)); by eexists].
  unfold decode_ast_call. destruct (_ <=? _)%nat; [by eexists|].
  destruct (mapRes_total (fun v => ast_type_to_dyn_sol_type stack (struct_field_index ctx) (type_name v) (storage_location v)) (fd_parameters f))
    as [tys ->]; [|by eexists].
  intros v Hv. apply (struct_type_found (struct_field_index ctx) rank); [done|done|]. intros r Hin Hsome. by eapply Hs.
Qed.

(** ** Witnesses *)
Section Witnesses.
Import Toy.
#[local] Instance toy_trace_text : TraceText :=
  {| to_checksum a := u256_to_string a; from_utf8 bs := Some (hex_encode bs) |}.
#[local] Instance toy_encoding : Abi :=
  {| signature _ := ""; selector _ := [1; 2; 3; 4]; resolve _ := Err ""; abi_decode_input _ _ := Err ""; abi_decode _ _ := Err "";
     abi_encode_params v := match v with VTuple vs => map (fun v => match v with VUint u _ => u | _ => 0 end) vs | _ => [] end |}.
Definition uints (bs : Bytes) : list DynSolValue := map (fun b => VUint b 256) bs.
#[local] Instance toy_trace_abi : TraceAbi :=
  {| parse_type s := if String.eqb s "uint256" then Some (TUint 256) else None;
     decode_params _ bs := Some (VTuple (uints bs)); decode_sequence _ _ := None; decode_single _ _ := None;
     event_new _ _ := true; decode_log_data _ _ _ l := Some (uints (drop 1 (topics l)), uints (log_data l));
     revert_decode _ := None; panic_decode _ := None; debug_value _ := ""; contract_info _ := [] |}.
#[local] Instance toy_trace_laws : TraceAbiLaws.
Proof.
  refine {| typed vs tys := vs = uints (map (fun v => match v with VUint u _ => u | _ => 0 end) vs) |}.
  intros vs tys Hvs. exact (f_equal (fun x => Some (VTuple x)) (eq_sym Hvs)).
Defined.

Definition uint_param (n : string) : AbiParam := mkAbiParam n false None "uint256" [].
Definition toy_function : AbiFunction := mkAbiFunction "add" [1; 2; 3; 4] [uint_param "a"; uint_param "b"] [uint_param "sum"].
Definition toy_event : AbiEvent :=
  mkAbiEvent "Moved" 77 [mkEventParam (uint_param "n") false; mkEventParam (uint_param "to") true].
Definition toy_decoding : TraceContext := context_new (mkAbi [toy_function] [toy_event] []).

Lemma call_text_witness :
  decode_call 9 toy_decoding [1; 2; 3; 4; 1; 1] None = Ok (Some "add", "1, 1") /\
  decode_return toy_decoding [1; 2; 3; 4; 1; 1] [1] = Some "1".
Proof.
  destruct (call_text 9 toy_decoding [1; 2; 3; 4] toy_function [TUint 256; TUint 256] [VUint 1 256; VUint 1 256] [TUint 256] [VUint 1 256] None)
    as [Hcall Hreturn].
  - done.
  - vm_compute. reflexivity.
  - repeat constructor.
  - reflexivity.
  - repeat constructor.
  - reflexivity.
  - done.
  - done.
  - done.
  - split; [etrans; [exact Hcall|vm_compute; reflexivity]|etrans; [exact Hreturn|vm_compute; reflexivity]].
Defined.

Lemma event_shown_witness : decode_event toy_decoding (mkLog 5 [77; 3] [1]) = (Some "Moved", "n: 1, to: 11").
Proof.
  etrans; [apply (event_shown toy_decoding (mkLog 5 [77; 3] [1]) 77 [3] toy_event [VUint 1 256; VUint 3 256])|]; vm_compute; reflexivity.
Defined.

(** A struct with a field that is an array of another struct. *)
Definition toy_structs : gmap Z (list VariableDeclaration) :=
  {[7 := [mkVariable (TyArray (TyUserDefined (Some 8)) false) LocDefault];
    8 := [mkVariable (TyElementary ElBool) LocDefault]]}.
Lemma struct_types_end_witness : exists t, ast_type_to_dyn_sol_type 3 toy_structs (TyUserDefined (Some 7)) LocMemory = Ok t.
Proof.
  apply (struct_types_end toy_structs (fun id => if id =? 7 then 1%nat else 0%nat)).
  - intros id fields v r. unfold toy_structs. rewrite lookup_insert_Some, lookup_singleton_Some.
    intros [[<- <-]|[_ [<- <-]]] Hv Hr Hsome; apply list_elem_of_singleton in Hv as ->; cbn in Hr.
    + apply list_elem_of_singleton in Hr as ->. cbn. lia.
    + by apply elem_of_nil in Hr.
  - lia.
  - intros r Hr _. apply list_elem_of_singleton in Hr as ->. cbn. lia.
Defined.
End Witnesses.
