(* ===== verification/TraceDisplay.v ===== *)
(** * TraceDisplay: the text of a trace

    Models the display half of [evm/trace/mod.rs]: the labels found in a trace,
    the lines of a frame with those of its calls, and the logged messages. The
    text is a list of lines, as each [writeln!] adds one; writing never fails,
    and the panics are those of the texts of values. Whether an address is a
    precompile is a parameter. *)
From S2P Require Import Prelude.
From S2P Require Import Env.
From S2P Require Import Database.
From S2P Require Import Paths.
From S2P Require Import BytecodeIndex.
From S2P Require Import MappingSlots.
From S2P Require Import StorageType.
From S2P Require Import StorageNames.
From S2P Require Import TraceInspector.
From S2P Require Import TraceContext.
From S2P Require Import TraceDecode.

(** [Precompiles::latest().contains] *)
Class Precompiles : Type := { is_precompile : Address -> bool }.

(** A visit of a frame and then of its calls, in order. *)
Fixpoint walk {A} (visit : CallFrame -> A -> A) (f : CallFrame) (acc : A) : A :=
  foldl (fun acc c => walk visit c acc) (visit f acc) (children f).

Abbreviation Labels := (gmap Address string) (only parsing).

Section Display.
Context `{Text} `{TraceText} `{TraceAbi} `{KeccakCode} `{Precompiles} (stack : nat).

(** ** The labels of a trace *)
Definition LABEL_SELECTOR : Selector := [0xc6; 0x57; 0xc7; 0x18].

(** The decoded tuple has the two values of its type. *)
Definition visit_vm_label (f : CallFrame) (m : Labels) : Labels :=
  if bool_decide (address f = Some VM_ADDRESS) && bool_decide (take 4 (input f) = LABEL_SELECTOR) then
    match decode_params (TTuple [TAddress; TString]) (drop 4 (input f)) with
    | Some (VTuple (VAddress a :: VString l :: _)) => <[a := l]> m
    | _ => m
    end
  else m.
Definition collect_vm_labels : CallFrame -> Labels -> Labels := walk visit_vm_label.

Definition or_else {A} (x y : option A) : option A := match x with Some _ => x | None => y end.
Definition is_create (f : CallFrame) : bool := match kind f with KindCreate => true | KindCall _ => false end.

Definition visit_create_label (ctx : TraceContext) (f : CallFrame) (m : Labels) : Labels :=
  match (if is_create f then address f else None) with
  | None => m
  | Some a =>
      match or_else (or_else (resolve_by_bytecode ctx (output f)) (resolve_by_initcode ctx (input f))) (get_label ctx a) with
      | Some n => <[a := n]> m
      | None => m
      end
  end.
Definition collect_create_labels (ctx : TraceContext) : CallFrame -> Labels -> Labels := walk (visit_create_label ctx).

Definition visit_code_label (ctx : TraceContext) (f : CallFrame) (m : Labels) : Labels :=
  match code_address f, code_bytes f with
  | Some a, Some code =>
      match m !! a, get_label ctx a, resolve_by_bytecode ctx code with
      | None, None, Some n => <[a := n]> m
      | _, _, _ => m
      end
  | _, _ => m
  end.
Definition collect_code_hash_labels (ctx : TraceContext) : CallFrame -> Labels -> Labels := walk (visit_code_label ctx).

Definition visit_evmole (f : CallFrame) (m : gmap U256 Evmole) : gmap U256 Evmole :=
  match code_bytes f with Some code => or_insert (keccak_code code) (evmole_extract code) m | None => m end.
Definition collect_evmole : CallFrame -> gmap U256 Evmole -> gmap U256 Evmole := walk visit_evmole.

Record TraceDisplay : Type := mkDisplay {
  d_trace : Trace;
  d_ctx : TraceContext;
  d_labels : Labels;
  d_compact : bool;
  d_evmole : gmap U256 Evmole;
  d_logs_only : bool;
}.

(** The labels of one root after those of another. *)
Definition root_labels (ctx : TraceContext) (m : Labels) (root : CallFrame) : Labels :=
  collect_code_hash_labels ctx root (collect_vm_labels root (collect_create_labels ctx root m)).

Definition display_impl (t : Trace) (ctx : TraceContext) (compact : bool) : TraceDisplay :=
  mkDisplay t ctx (foldl (root_labels ctx) ∅ (roots t)) compact (foldl (fun m r => collect_evmole r m) ∅ (roots t)) false.
Definition display_with (t : Trace) (ctx : TraceContext) : TraceDisplay := display_impl t ctx false.
Definition display_compact_with (t : Trace) (ctx : TraceContext) : TraceDisplay := display_impl t ctx true.
Definition display_logs_with (t : Trace) (ctx : TraceContext) : TraceDisplay :=
  let d := display_impl t ctx true in mkDisplay (d_trace d) (d_ctx d) (d_labels d) (d_compact d) (d_evmole d) true.

(** ** The shape of the tree *)
Fixpoint spaces (n : nat) : string := match n with O => "" | S n => String " " (spaces n) end.

(** Bars at the columns, then spaces up to the target. *)
Fixpoint tree_prefix_go (pos : nat) (cols : list nat) (target : nat) : string :=
  match cols with
  | [] => spaces (target - pos)
  | col :: rest => spaces (col - pos) +:+ "│" +:+ tree_prefix_go (S col) rest target
  end.
Definition append_tree_prefix (cols : list nat) (target : nat) : string := tree_prefix_go 0 cols target.

Definition bar_line (cols : list nat) (col : nat) (glyph text : string) : string := append_tree_prefix cols col +:+ glyph +:+ text.
Definition BRANCH : string := "├─ ".
Definition DETAIL : string := "│   ".
Definition LAST : string := "└─ ".

Definition gas_len (f : CallFrame) : nat := String.length (fmt_dec (gas_used f)).

(** The frame's own column is that of the calls of the frame around it; a root
    has the number of its call instead. *)
Definition frame_prefix (cols : list nat) (index : option nat) : string :=
  match last cols, index with
  | Some col, _ => append_tree_prefix (removelast cols) col +:+ BRANCH
  | None, Some i => "[" +:+ fmt_dec (Z.of_nat i) +:+ "] "
  | None, None => ""
  end.
Definition name_col (f : CallFrame) (cols : list nat) (index : option nat) : nat :=
  match last cols with
  | Some col => col + gas_len f + 6
  | None => String.length (frame_prefix cols index) + gas_len f + 3
  end.

(** ** The line of a frame *)
Definition is_empty_code_call (f : CallFrame) : bool :=
  match kind f, code_bytes f, or_else (address f) (code_address f) with
  | KindCall _, None, Some a => negb (is_precompile a)
  | _, _, _ => false
  end.

(** The most recent call of an account without code. *)
Definition empty_code_revert_reason (f : CallFrame) : option string :=
  if bool_decide (output f = []) then
    head (omap (fun c => if is_empty_code_call c
                         then (fun a => "no contract code at " +:+ to_checksum a) <$> or_else (address c) (code_address c)
                         else None) (reverse (children f)))
  else None.

Context (d : TraceDisplay).
Let ctx : TraceContext := d_ctx d.

Definition label_of (a : Address) : option string := or_else (d_labels d !! a) (get_label ctx a).

(** A delegated call runs the code of another address. *)
Definition shown_address (f : CallFrame) : option Address :=
  match code_address f, address f with
  | Some ca, Some a => if ca =? a then Some a else Some ca
  | _, a => a
  end.

Definition scheme_suffix (k : CallFrameKind) : string :=
  match k with
  | KindCall SchemeStaticCall => " [staticcall]"
  | KindCall SchemeDelegateCall => " [delegatecall]"
  | KindCall SchemeCallCode => " [callcode]"
  | _ => ""
  end.

Definition create_line (f : CallFrame) : string :=
  let label := or_else (resolve_by_bytecode ctx (output f)) (a ← address f; label_of a) in
  "[" +:+ fmt_dec (gas_used f) +:+ "] → new " +:+ default "<unknown>" label +:+ "@"
  +:+ match address f with Some a => to_checksum a | None => "unknown" end.

Definition call_line (f : CallFrame) : Res string :=
  let addr := match shown_address f with Some a => default (to_checksum a) (label_of a) | None => "unknown" end in
  let evmole := code ← code_bytes f; d_evmole d !! keccak_code code in
  r ← decode_call stack ctx (input f) evmole;
  mret ("[" +:+ fmt_dec (gas_used f) +:+ "] " +:+ addr +:+ "::" +:+ default (hex_text (take 4 (input f))) r.1
        +:+ "(" +:+ r.2 +:+ ")" +:+ scheme_suffix (kind f)).

Definition frame_line (f : CallFrame) (cols : list nat) (index : option nat) : Res string :=
  line ← (if is_create f then Ok (create_line f) else call_line f);
  mret (frame_prefix cols index +:+ line).

(** ** The context of a call *)
Definition who_text (a : Address) : string :=
  match label_of a with Some l => l +:+ " [" +:+ to_checksum a +:+ "]" | None => to_checksum a end.
Definition sender_text (f : CallFrame) : string := "@ msg.sender: " +:+ who_text (caller f).
Definition value_text (f : CallFrame) : string := "@ msg.value: " +:+ u256_to_string (value f).
Definition timestamp_text (f : CallFrame) : string := "@ block.timestamp: " +:+ u256_to_string (timestamp f).
Definition number_text (f : CallFrame) : string := "@ block.number: " +:+ u256_to_string (number f).

(** What differs from the frame around. *)
Definition context_diff (f p : CallFrame) : list string :=
  (if caller f =? caller p then [] else [sender_text f]) ++
  (if value f =? value p then [] else [value_text f]) ++
  (if timestamp f =? timestamp p then [] else [timestamp_text f]) ++
  (if number f =? number p then [] else [number_text f]).

Definition context_lines (f : CallFrame) (parent : option CallFrame) (cols : list nat) (col : nat) : list string :=
  if d_compact d then []
  else
    let '(title, details) :=
      match parent with
      | None => (" call context:", [sender_text f; value_text f; timestamp_text f; number_text f])
      | Some p => (" call context changes:", context_diff f p)
      end in
    match details with [] => [] | _ => bar_line cols col BRANCH title :: map (bar_line cols col DETAIL) details end.

(** ** Logs *)
Definition is_message (l : Log) : bool := match decode_log_event ctx l with Some _ => true | None => false end.
Definition emit_text (l : Log) : string :=
  let '(n, args) := decode_event ctx l in "emit " +:+ default "Log" n +:+ "(" +:+ args +:+ ")".
Definition log_lines (f : CallFrame) (cols : list nat) (col : nat) : list string :=
  map (fun l => bar_line cols col BRANCH (emit_text l)) (filter (fun l => is_message l = false) (logs f)).

Definition collect_log_events (f : CallFrame) (acc : list string) : list string :=
  walk (fun f acc => acc ++ omap (decode_log_event ctx) (logs f)) f acc.

(** ** Storage changes *)

(** The compiled contract whose layout names the slots: the frame's own code,
    or that of the frame around it. *)
Definition storage_code_name (f : CallFrame) : option string :=
  code ← code_bytes f; n ← resolve_by_bytecode ctx code; if has_storage (ctx_storage ctx) n then Some n else None.
Definition storage_contract_name (f : CallFrame) (parent : option CallFrame) : option string :=
  or_else (storage_code_name f) (p ← parent; storage_code_name p).
Definition storage_owner (f : CallFrame) (parent : option CallFrame) : option string :=
  or_else (storage_contract_name f parent) (a ← address f; label_of a).

Definition typed_text (ty : option StorageType) (v : U256) : Res string :=
  match ty with Some t => StorageType.format_value t v 0 32 | None => Ok (u256_to_string v) end.

Definition changed (n old new : string) : string := "@ " +:+ n +:+ ": " +:+ old +:+ " -> " +:+ new.

(** The whole word, when no packed variable changed. *)
Definition word_text (owner : option string) (ms : option MappingSlots) (c : StorageChange) : Res string :=
  found ← match owner with
          | Some n =>
              name ← resolve_storage_name (ctx_storage ctx) n (change_slot c) ms;
              match name with
              | Some name => ty ← resolve_storage_type (ctx_storage ctx) n (change_slot c) ms; mret (name, ty)
              | None => mret (u256_to_string (change_slot c), None)
              end
          | None => Ok (u256_to_string (change_slot c), None)
          end;
  old ← typed_text found.2 (old_value c);
  new ← typed_text found.2 (new_value c);
  mret (changed found.1 old new).

Definition variable_text (c : StorageChange) (i : StorageChangeInfo) : Res string :=
  old ← StorageType.format_value (ch_type i) (old_value c) (ch_offset i) (ch_bytes i);
  new ← StorageType.format_value (ch_type i) (new_value c) (ch_offset i) (ch_bytes i);
  mret (changed (ch_name i) old new).

Definition change_texts (owner : option string) (ms : option MappingSlots) (c : StorageChange) : Res (list string) :=
  match (match owner with
         | Some n => resolve_storage_changes (ctx_storage ctx) n (change_slot c) (old_value c) (new_value c)
         | None => []
         end) with
  | [] => t ← word_text owner ms c; mret [t]
  | packed => mapRes (variable_text c) packed
  end.

Definition actual_changes (f : CallFrame) : list StorageChange :=
  if d_compact d then [] else filter (fun c => old_value c <> new_value c) (storage_changes f).

Definition change_lines (f : CallFrame) (parent : option CallFrame) (cols : list nat) (col : nat) : Res (list string) :=
  match actual_changes f with
  | [] => Ok []
  | cs =>
      let ms := a ← address f; mapping_slots (d_trace d) !! a in
      texts ← mapRes (change_texts (storage_owner f parent) ms) cs;
      mret (bar_line cols col BRANCH " storage changes:" :: map (bar_line cols col DETAIL) (concat texts))
  end.

(** ** The result *)
Definition result_text (f : CallFrame) : string :=
  if success f then
    if is_create f then
      if bool_decide (output f = []) then "← [stop]"
      else "← [return] " +:+ fmt_dec (Z.of_nat (length (output f))) +:+ " bytes of code"
    else
      let out := match decode_return ctx (input f) (output f) with
                 | Some t => t
                 | None => if bool_decide (output f = []) then "" else hex_text (output f)
                 end in
      if String.eqb out "" then (if is_empty_code_call f then "← [stop] (no code)" else "← [stop]")
      else "← [return] " +:+ out
  else "← [revert] " +:+ default (decode_revert ctx (output f)) (empty_code_revert_reason f).

(** ** All lines of a frame *)
Fixpoint write_frame (f : CallFrame) (parent : option CallFrame) (cols : list nat) (index : option nat) : Res (list string) :=
  let col := name_col f cols index in
  first ← frame_line f cols index;
  sub ← mapRes (fun c => write_frame c (Some f) (cols ++ [col]) None) (children f);
  changes ← change_lines f parent cols col;
  mret (first :: context_lines f parent cols col ++ concat sub ++ log_lines f cols col ++ changes
        ++ [bar_line cols col LAST (result_text f)]).

(** An empty line between roots, each with its number. *)
Definition root_lines (ir : nat * CallFrame) : Res (list string) :=
  lines ← write_frame ir.2 None [] (Some (S ir.1));
  mret (if (0 <? ir.1)%nat then "" :: lines else lines).

Definition messages : list string := foldl (fun acc r => collect_log_events r acc) [] (roots (d_trace d)).
Definition message_lines : list string :=
  match messages with
  | [] => []
  | ms => (if d_logs_only d then [""; ""] else [""; "Logs:"]) ++ map (fun m => "  " +:+ m) ms
  end.

Definition display_lines : Res (list string) :=
  tree ← (if d_logs_only d then Ok [] else mapRes root_lines (enumerate (roots (d_trace d))));
  mret (concat tree ++ message_lines).
End Display.

(** ** The shape of the text *)
Section FrameInd.
Context (P : CallFrame -> Prop) (Hframe : forall f, (forall c, c ∈ children f -> P c) -> P f).
Fixpoint CallFrame_tree_ind (f : CallFrame) : P f :=
  Hframe f
    ((fix go (l : list CallFrame) : forall c, c ∈ l -> P c :=
        match l with
        | [] => fun c Hin => False_ind _ (not_elem_of_nil _ Hin)
        | x :: rest => fun c Hin =>
            match proj1 (elem_of_cons rest c x) Hin with
            | or_introl Heq => eq_ind_r P (CallFrame_tree_ind x) Heq
            | or_intror Hin' => go rest c Hin'
            end
        end) (children f)).
End FrameInd.

Lemma tree_prefix_snoc pos cols c t :
  tree_prefix_go pos (cols ++ [c]) t = tree_prefix_go pos cols c +:+ "│" +:+ spaces (t - S c).
Proof. revert pos. induction cols as [|x cols IH]; intros pos; [done|]. cbn [app tree_prefix_go]. by rewrite IH, !str_app_assoc. Qed.

(** A line under the bar of a column. *)
Definition under_bar (cols : list nat) (c : nat) (line : string) : Prop :=
  exists t, line = append_tree_prefix cols c +:+ "│" +:+ t.

Lemma bar_line_under cols c col glyph t : under_bar cols c (bar_line (cols ++ [c]) col glyph t).
Proof. eexists. unfold bar_line, append_tree_prefix. rewrite tree_prefix_snoc, !str_app_assoc. done. Qed.

Lemma under_bar_outer cols c col line : under_bar (cols ++ [c]) col line -> under_bar cols c line.
Proof. intros [t ->]. exact (bar_line_under cols c col "│" t). Qed.

Section Shape.
Context `{Text} `{TraceText} `{TraceAbi} `{KeccakCode} `{Precompiles} (stack : nat) (d : TraceDisplay).

(** The lines of a frame below another: the first branches off the bar of the
    column, the others are under it. *)
Definition branch_shape (cols : list nat) (c : nat) (lines : list string) : Prop :=
  exists t rest, lines = (append_tree_prefix cols c +:+ BRANCH +:+ t) :: rest /\ Forall (under_bar cols c) rest.

Lemma context_under f parent cols c col : Forall (under_bar cols c) (context_lines d f parent (cols ++ [c]) col).
Proof.
  unfold context_lines. destruct (d_compact d); [constructor|]. destruct parent as [p|]; cbn.
  - destruct (context_diff d f p) as [|x xs]; [constructor|]. constructor; [apply bar_line_under|].
    apply Forall_map, Forall_forall. intros y _. apply bar_line_under.
  - repeat constructor; apply bar_line_under.
Qed.

Lemma change_under f parent cols c col lines :
  change_lines d f parent (cols ++ [c]) col = Ok lines -> Forall (under_bar cols c) lines.
Proof.
  unfold change_lines. destruct (actual_changes d f) as [|x xs]; [intros [= <-]; constructor|].
  destruct (mapRes _ _) as [texts| |]; cbn; [|done..]. intros [= <-]. constructor; [apply bar_line_under|].
  apply Forall_map, Forall_forall. intros y _. apply bar_line_under.
Qed.

Lemma branch_shape_under cols c col lines : branch_shape (cols ++ [c]) col lines -> Forall (under_bar cols c) lines.
Proof.
  intros (t & rest & -> & Hr). constructor; [apply (bar_line_under cols c col BRANCH)|].
  eapply Forall_impl; [exact Hr|]. intros l. apply under_bar_outer.
Qed.

Lemma write_frame_Ok f parent cols index lines :
  write_frame stack d f parent cols index = Ok lines <->
  let col := name_col f cols index in
  exists first sub changes,
    frame_line stack d f cols index = Ok first /\
    Forall2 (fun c ls => write_frame stack d c (Some f) (cols ++ [col]) None = Ok ls) (children f) sub /\
    change_lines d f parent cols col = Ok changes /\
    lines = first :: context_lines d f parent cols col ++ concat sub ++ log_lines d f cols col ++ changes
            ++ [bar_line cols col LAST (result_text d f)].
Proof.
  destruct f. cbn [write_frame]. match goal with |- context [frame_line _ _ ?x _ _] => set (f := x) end. cbn zeta.
  rewrite Res_bind_Ok. setoid_rewrite Res_bind_Ok. setoid_rewrite Res_bind_Ok. setoid_rewrite mapRes_Ok.
  split; [intros (x & Hx & y & Hy & z & Hz & [= <-])|intros (x & y & z & Hx & Hy & Hz & ->)]; naive_solver.
Qed.

(** The line of a frame starts with its branch. *)
Lemma frame_line_prefix f cols index first :
  frame_line stack d f cols index = Ok first -> exists t, first = frame_prefix cols index +:+ t.
Proof. unfold frame_line. rewrite Res_bind_Ok. intros (t & _ & [= <-]). by exists t. Qed.

Lemma write_frame_shape f : forall parent cols c lines,
  write_frame stack d f parent (cols ++ [c]) None = Ok lines -> branch_shape cols c lines.
Proof.
  induction f as [f IH] using CallFrame_tree_ind. intros parent cols c lines.
  intros (first & sub & changes & (t & ->)%frame_line_prefix & Hsub & Hch & ->)%write_frame_Ok.
  exists t. eexists. split.
  - unfold frame_prefix. rewrite last_snoc, removelast_last. by rewrite str_app_assoc.
  - repeat (apply Forall_app; split); [apply context_under| | |by eapply change_under|repeat constructor; apply bar_line_under].
    + apply Forall_concat, Forall_forall. intros ls [i Hi]%list_elem_of_lookup.
      destruct (Forall2_lookup_r _ _ _ _ _ Hsub Hi) as (x & Hx & Hw).
      eapply branch_shape_under, (IH x); [by eapply list_elem_of_lookup_2|exact Hw].
    + apply Forall_map, Forall_forall. intros y _. apply bar_line_under.
Qed.

(** In the text of a trace every line of a call, and of the calls inside it,
    hangs below the frame around it: its first line branches off the bar at
    that frame's column, all others continue the bar, and its last line is its
    own result, below its own name. *)
Theorem call_under_bar f parent cols c lines :
  write_frame stack d f parent (cols ++ [c]) None = Ok lines ->
  branch_shape cols c lines /\
  exists body, lines = body ++ [append_tree_prefix (cols ++ [c]) (name_col f (cols ++ [c]) None) +:+ LAST +:+ result_text d f].
Proof.
  intros Hw. split; [by eapply write_frame_shape|].
  apply write_frame_Ok in Hw as (first & sub & changes & _ & _ & _ & ->). unfold bar_line.
  exists (first :: context_lines d f parent (cols ++ [c]) (name_col f (cols ++ [c]) None) ++ concat sub
            ++ log_lines d f (cols ++ [c]) (name_col f (cols ++ [c]) None) ++ changes).
  by rewrite <- app_comm_cons, <- !app_assoc.
Qed.

(** ** Compact traces *)
Fixpoint count_frames (f : CallFrame) : nat := S (sum_list (map count_frames (children f))).
Fixpoint count_logs (f : CallFrame) : nat := length (logs f) + sum_list (map count_logs (children f)).
Fixpoint count_messages (f : CallFrame) : nat :=
  length (omap (decode_log_event (d_ctx d)) (logs f)) + sum_list (map count_messages (children f)).

Lemma walk_eq {A} (visit : CallFrame -> A -> A) f acc :
  walk visit f acc = foldl (fun acc c => walk visit c acc) (visit f acc) (children f).
Proof. by destruct f. Qed.
Lemma count_frames_eq f : count_frames f = S (sum_list (map count_frames (children f))).
Proof. by destruct f. Qed.
Lemma count_logs_eq f : count_logs f = (length (logs f) + sum_list (map count_logs (children f)))%nat.
Proof. by destruct f. Qed.
Lemma count_messages_eq f :
  count_messages f = (length (omap (decode_log_event (d_ctx d)) (logs f)) + sum_list (map count_messages (children f)))%nat.
Proof. by destruct f. Qed.

Lemma collect_log_count f acc : length (collect_log_events d f acc) = (length acc + count_messages f)%nat.
Proof.
  revert acc. induction f as [f IH] using CallFrame_tree_ind. intros acc. unfold collect_log_events in *.
  rewrite walk_eq, count_messages_eq, Nat.add_assoc, <- length_app. generalize (acc ++ omap (decode_log_event (d_ctx d)) (logs f)). clear acc.
  induction (children f) as [|c cs IHcs]; intros acc; cbn [foldl map]; [cbn; lia|].
  rewrite IHcs by (intros x Hx; apply IH; set_solver). rewrite IH by set_solver. cbn. lia.
Qed.

(** Every log of a frame is a line or a message. *)
Lemma log_lines_count f cols col :
  (length (log_lines d f cols col) + length (omap (decode_log_event (d_ctx d)) (logs f)) = length (logs f))%nat.
Proof.
  unfold log_lines. rewrite length_map. induction (logs f) as [|l ls IH]; [done|]. rewrite filter_cons. cbn [omap list_omap].
  destruct (decide (is_message d l = false)) as [E|E]; unfold is_message in E; destruct (decode_log_event (d_ctx d) l); try done;
    cbn [length]; lia.
Qed.

Lemma compact_frame_size f : d_compact d = true -> decodable stack (d_ctx d) -> forall parent cols index,
  exists lines, write_frame stack d f parent cols index = Ok lines /\
    (length lines + count_messages f = 2 * count_frames f + count_logs f)%nat.
Proof.
  intros Hc Hdec. induction f as [f IH] using CallFrame_tree_ind. intros parent cols index.
  set (col := name_col f cols index).
  assert (Hsub : exists sub, Forall2 (fun c ls => write_frame stack d c (Some f) (cols ++ [col]) None = Ok ls) (children f) sub /\
    (length (concat sub) + sum_list (map count_messages (children f)) =
     2 * sum_list (map count_frames (children f)) + sum_list (map count_logs (children f)))%nat).
  { induction (children f) as [|x xs IHxs]; [by exists []|]. destruct IHxs as (sub & Hsub & Hlen); [intros y Hy; apply IH; set_solver|].
    destruct (IH x ltac:(set_solver) (Some f) (cols ++ [col]) None) as (ls & Hls & Hl). exists (ls :: sub). split; [by constructor|].
    cbn in *. rewrite length_app. lia. }
  destruct Hsub as (sub & Hsub & Hlen).
  assert (Hfirst : exists first, frame_line stack d f cols index = Ok first).
  { unfold frame_line. destruct (is_create f); [by eexists|]. unfold call_line.
    destruct (decode_call_total stack (d_ctx d) (input f) (code ← code_bytes f; d_evmole d !! keccak_code code) Hdec) as [r Hr].
    rewrite Hr. by eexists. }
  destruct Hfirst as [first Hfirst].
  assert (Hch : change_lines d f parent cols col = Ok []) by (unfold change_lines, actual_changes; by rewrite Hc).
  eexists. split; [apply write_frame_Ok; exists first, sub, []; eauto|]. pose proof (log_lines_count f cols col) as Hlog. fold col.
  unfold context_lines. rewrite Hc, count_frames_eq, count_logs_eq, count_messages_eq. cbn. rewrite !length_app. cbn. lia.
Qed.

(** C40: A compact trace can always be shown when the functions of the sources
    have no recursive structs, and shows everything once: two lines for each
    frame, its call and its result, and each log either as a line or as a
    message. *)
Theorem compact_trace_complete f parent cols index :
  d_compact d = true -> decodable stack (d_ctx d) ->
  exists lines, write_frame stack d f parent cols index = Ok lines /\
    (length lines + length (collect_log_events d f []) = 2 * count_frames f + count_logs f)%nat.
Proof.
  intros Hc Hdec. destruct (compact_frame_size f Hc Hdec parent cols index) as (lines & Hl & Hlen).
  exists lines. split; [done|]. rewrite collect_log_count. exact Hlen.
Qed.
End Shape.

(** ** Changes of mapping entries *)
Section Entries.
Context `{Text} `{TraceText} `{TraceAbi} `{KeccakCode} (d : TraceDisplay).

Lemma no_packed_change ctx contract slot old new :
  direct_entry ctx contract slot = None -> resolve_storage_changes ctx contract slot old new = [].
Proof.
  unfold direct_entry, resolve_storage_changes. destruct (storage_names ctx !! contract) as [ns|]; [|done]. cbn.
  destruct (ns !! slot) as [[|e es]|]; done.
Qed.

(** The name of an entry: that of the first field for a mapping to structs, of the
    length for a mapping to dynamic arrays. *)
Definition entry_name (info : MappingInfo) (texts : list string) : string :=
  let entry := with_indices (mi_name info) texts in
  if is_dynamic (value_storage_type info) then dotted entry "length"
  else match field_at (value_struct_fields info) 0 with Some f => dotted entry (sf_name f) | None => entry end.

End Entries.

(** ** Witnesses: a call that calls another, and a store to [m[7][9]] *)
Section Witnesses.
#[local] Existing Instances StorageNames.decimal StorageNames.toy_trace_text TraceDecode.toy_trace_abi StorageNames.toy_keccak.
#[local] Instance no_precompiles : Precompiles := {| is_precompile _ := false |}.

Definition toy_frame (subs : list CallFrame) (ls : list Log) : CallFrame :=
  mkFrame 0 (KindCall SchemeCall) (Some 7) (Some 7) (Some [1]) 8 0 1 2 [1; 2; 3; 4] [] 21 true subs [] ls.
Definition toy_context' : TraceContext :=
  mkContext ∅ [mkAbi [] [toy_event] []] [] [] ∅ ∅ toy_context.
Definition toy_display : TraceDisplay :=
  display_compact_with (mkTrace [toy_frame [toy_frame [] [mkLog 5 [77; 3] [1]]] []] ∅) toy_context'.

Lemma call_under_bar_witness :
  branch_shape [] 9 ["         ├─ [21] 7::0x01020304(...)"; "         │       ├─ emit Moved(n: 1, to: 3)"; "         │       └─ ← [stop]"].
Proof.
  apply (call_under_bar 9 toy_display (toy_frame [] [mkLog 5 [77; 3] [1]]) None [] 9). vm_compute. reflexivity.
Defined.

Lemma toy_decodable : decodable 9 (d_ctx toy_display).
Proof.
  exists (fun _ => O). split; [|split; [lia|]].
  - intros id fields v r. cbn. by rewrite lookup_empty.
  - intros sel f v r. cbn. by rewrite lookup_empty.
Qed.

Definition toy_tree : CallFrame := toy_frame [toy_frame [] [mkLog 5 [77; 3] [1]]] [].
Lemma compact_trace_complete_witness :
  exists lines, write_frame 9 toy_display toy_tree None [] (Some 1%nat) = Ok lines /\ length lines = 5%nat.
Proof.
  destruct (compact_trace_complete 9 toy_display toy_tree None [] (Some 1%nat)) as (lines & Hl & Hn).
  - reflexivity.
  - exact toy_decodable.
  - exists lines. split; [exact Hl|].
    assert (Hm : length (collect_log_events toy_display toy_tree []) = 0%nat) by (vm_compute; reflexivity).
    assert (H5 : (2 * count_frames toy_tree + count_logs toy_tree = 5)%nat) by (vm_compute; reflexivity). lia.
Defined.


(** A mapping to structs whose first field is a flag: the word is shown next to
    the name of that field, as the decimal of a struct and not as the flag. *)
Definition struct_context : StorageContext :=
  mkStorageContext ∅ ∅ {["C" := [mkMapping "s" 5 ["t_uint256"] StStruct (Some [mkField "open" 0 StBool 1]) 2]]}.
Definition struct_display : TraceDisplay := display_compact_with (mkTrace [] ∅) (mkContext ∅ [] [] [] ∅ ∅ struct_context).
Example struct_flag_shown_as_decimal :
  let slot := toy_hash 7 5 in
  change_texts struct_display (Some "C") (Some (insert (record_sha3 slots_default slot 7 5) slot).1) (mkStorageChange slot 0 1) =
    Ok ["@ s[7].open: 0 -> 1"] /\
  StorageType.format_value StBool 1 0 32 = Ok "true".
Proof. split; vm_compute; reflexivity. Qed.
End Witnesses.
