(* ===== verification/Graphs.v ===== *)
(** * Graphs: the two walks of a finite graph

    A walk of the nodes reachable from a root, breadth first over a growing
    vector ([breadth_first]) or depth first over a stack ([closure]), as the
    inspectors of compiled code write them. Each lists exactly the reachable
    nodes, each once; the fuel is a bound on the number of nodes. *)
From stdpp Require Import relations.
From S2P Require Import Prelude.

Definition edge {A} (next : A -> list A) (a b : A) : Prop := b ∈ next a.

(** ** Breadth first

    The vector holds the nodes found; those before [head] have been expanded. *)
Section BreadthFirst.
Context {K : Type} `{Countable K}.

Definition visit (acc : list K * gset K) (b : K) : list K * gset K :=
  let '(found, seen) := acc in
  if bool_decide (b ∈ seen) then acc else (found ++ [b], {[b]} ∪ seen).

(** What [visit] keeps: the set is that of the vector. *)
Definition in_step (acc : list K * gset K) : Prop := NoDup acc.1 /\ forall x, x ∈ acc.2 <-> x ∈ acc.1.

Lemma visit_in_step acc b : in_step acc -> in_step (visit acc b).
Proof.
  destruct acc as [found seen]. intros [Hn Hs]. cbn in *. unfold visit. case_bool_decide as Hb; [by split|].
  rewrite Hs in Hb. split; cbn; [|set_solver].
  apply NoDup_app. repeat split; [done| |apply NoDup_singleton]. set_solver.
Qed.

Lemma visit_found acc b : in_step acc -> exists more,
  (visit acc b).1 = acc.1 ++ more /\ (forall x, x ∈ more -> x = b) /\ b ∈ (visit acc b).1.
Proof.
  destruct acc as [found seen]. intros [Hn Hs]. cbn in *. unfold visit. case_bool_decide as Hb; cbn.
  - exists []. rewrite app_nil_r. set_solver.
  - exists [b]. set_solver.
Qed.

Lemma visits_found bs : forall acc, in_step acc -> in_step (foldl visit acc bs) /\ exists more,
  (foldl visit acc bs).1 = acc.1 ++ more /\ (forall x, x ∈ more -> x ∈ bs) /\ (forall b, b ∈ bs -> b ∈ acc.1 ++ more).
Proof.
  induction bs as [|b bs IH]; intros acc Hacc; cbn [foldl].
  - split; [done|]. exists []. rewrite app_nil_r. set_solver.
  - destruct (visit_found acc b Hacc) as (m1 & E1 & H1 & H1').
    destruct (IH _ (visit_in_step acc b Hacc)) as (Hs & m2 & E2 & H2 & H2').
    split; [done|]. exists (m1 ++ m2). rewrite E2, E1, app_assoc in *. split; [done|]. set_solver.
Qed.

Section Walk.
Variable next : K -> list K.

Fixpoint breadth_first_go (fuel head : nat) (acc : list K * gset K) : list K :=
  match acc.1 !! head, fuel with
  | Some current, S fuel => breadth_first_go fuel (S head) (foldl visit acc (next current))
  | _, _ => acc.1
  end.
Definition breadth_first (fuel : nat) (root : K) : list K := breadth_first_go fuel 0 ([root], {[root]}).

(** The nodes before [head] are expanded, all the nodes are reachable. *)
Record walked (root : K) (head : nat) (acc : list K * gset K) : Prop := {
  w_step : in_step acc;
  w_root : acc.1 !! 0%nat = Some root;
  w_sound : forall x, x ∈ acc.1 -> rtc (edge next) root x;
  w_expanded : forall i x y, (i < head)%nat -> acc.1 !! i = Some x -> y ∈ next x -> y ∈ acc.1;
}.

Lemma walked_step root head acc current :
  walked root head acc -> acc.1 !! head = Some current -> walked root (S head) (foldl visit acc (next current)).
Proof.
  intros [Hs Hr Hw He] Hc. destruct (visits_found (next current) acc Hs) as (Hs' & more & E & Hin & Hall).
  split; [done|rewrite E..].
  - by apply lookup_app_l_Some.
  - intros x [Hx|Hx]%elem_of_app; [auto|]. eapply rtc_r; [apply Hw; eapply list_elem_of_lookup_2; exact Hc|by apply Hin].
  - intros i x y Hi Hx Hy. apply lookup_app_Some in Hx as [Hx|[Hl _]].
    + destruct (decide (i = head)) as [->|]; [simplify_eq; auto|]. apply elem_of_app. left. eapply (He i); eauto with lia.
    + apply lookup_lt_Some in Hc. lia.
Qed.

Lemma rtc_closed (P : K -> Prop) root x :
  P root -> (forall x y, P x -> y ∈ next x -> P y) -> rtc (edge next) root x -> P x.
Proof. intros Hr Hc Hx. revert Hr. induction Hx; eauto. Qed.

Lemma walked_end root head acc : walked root head acc -> acc.1 !! head = None ->
  forall x, x ∈ acc.1 <-> rtc (edge next) root x.
Proof.
  intros Hw Hn x. split; [apply (w_sound _ _ _ Hw)|]. apply (rtc_closed (fun x => x ∈ acc.1)).
  - eapply list_elem_of_lookup_2. apply (w_root _ _ _ Hw).
  - intros a b (i & Ha)%list_elem_of_lookup_1 Hb. eapply (w_expanded _ _ _ Hw i); eauto.
    apply lookup_lt_Some in Ha. apply lookup_ge_None in Hn. lia.
Qed.

Section Bounded.
Variables (nodes : list K) (root : K).
Hypothesis root_in : root ∈ nodes.
Hypothesis nodes_closed : forall x y, x ∈ nodes -> y ∈ next x -> y ∈ nodes.

Lemma walked_length head acc : walked root head acc -> (length acc.1 <= length nodes)%nat.
Proof.
  intros Hw. apply submseteq_length, NoDup_submseteq; [apply (w_step _ _ _ Hw)|].
  intros x Hx%(w_sound _ _ _ Hw). by apply (rtc_closed (fun x => x ∈ nodes) root x).
Qed.

Lemma breadth_first_go_spec fuel : forall head acc, (length nodes <= fuel + head)%nat -> walked root head acc ->
  let r := breadth_first_go fuel head acc in
  NoDup r /\ r !! 0%nat = Some root /\ forall x, x ∈ r <-> rtc (edge next) root x.
Proof.
  assert (Hend : forall head acc, walked root head acc -> acc.1 !! head = None ->
    NoDup acc.1 /\ acc.1 !! 0%nat = Some root /\ forall x, x ∈ acc.1 <-> rtc (edge next) root x).
  { intros head acc Hw Hn. split_and!; [apply (w_step _ _ _ Hw)|apply (w_root _ _ _ Hw)|by eapply walked_end]. }
  induction fuel as [|fuel IH]; intros head acc Hf Hw; cbn [breadth_first_go];
    destruct (acc.1 !! head) as [current|] eqn:Hc; try by eapply Hend.
  - pose proof (walked_length _ _ Hw). apply lookup_lt_Some in Hc. lia.
  - apply IH; [lia|by apply walked_step].
Qed.

Lemma breadth_first_spec fuel : (length nodes <= fuel)%nat ->
  NoDup (breadth_first fuel root) /\ breadth_first fuel root !! 0%nat = Some root /\
  forall x, x ∈ breadth_first fuel root <-> rtc (edge next) root x.
Proof.
  intros Hf. apply breadth_first_go_spec; [lia|]. split; cbn; [|done|set_solver by constructor|lia].
  split; cbn; [apply NoDup_singleton|set_solver].
Qed.
End Bounded.
End Walk.
End BreadthFirst.

(** ** The order of a walk from the left

    A path gives the position of each edge in the list of its node. Paths are
    ordered by length, and from the left among paths of one length: this orders
    the nodes of a breadth first walk. *)
Fixpoint lex (p q : list nat) : Prop :=
  match p, q with i :: p, j :: q => (i < j)%nat \/ i = j /\ lex p q | _, _ => False end.
Definition precedes (p q : list nat) : Prop := (length p < length q)%nat \/ length p = length q /\ lex p q.
Definition not_after (p q : list nat) : Prop := precedes p q \/ p = q.

Lemma lex_irrefl p : ~ lex p p.
Proof. induction p as [|i p IH]; cbn; [by intros ?|]. intros [?|[_ ?]]; [lia|auto]. Qed.
Lemma lex_trans p : forall q r, lex p q -> lex q r -> lex p r.
Proof. induction p as [|i p IH]; intros [|j q] [|k r]; cbn; try done. intros [?|[-> ?]] [?|[-> ?]]; eauto with lia. Qed.
Lemma lex_snoc p : forall q i j, lex p q -> lex (p ++ [i]) (q ++ [j]).
Proof. induction p as [|a p IH]; intros [|b q] i j; cbn; try done. intros [?|[-> ?]]; eauto. Qed.
Lemma lex_last p i j : (i < j)%nat -> lex (p ++ [i]) (p ++ [j]).
Proof. induction p; cbn; eauto. Qed.
Lemma lex_total p : forall q, length p = length q -> lex p q \/ p = q \/ lex q p.
Proof.
  induction p as [|i p IH]; intros [|j q]; cbn; try done; [auto|]. intros [= Hl].
  destruct (Nat.lt_trichotomy i j) as [?|[->|?]]; [auto| |auto]. destruct (IH q Hl) as [?|[->|?]]; auto.
Qed.

Lemma precedes_irrefl p : ~ precedes p p.
Proof. intros [?|[_ ?%lex_irrefl]]; [lia|done]. Qed.
Lemma precedes_trans p q r : precedes p q -> precedes q r -> precedes p r.
Proof. unfold precedes. intros [?|[? ?]] [?|[? ?]]; try (left; lia). right. split; [lia|]. by eapply lex_trans. Qed.
Lemma precedes_snoc p q i j : precedes p q -> precedes (p ++ [i]) (q ++ [j]).
Proof. unfold precedes. rewrite !length_app. cbn. intros [?|[? ?]]; [left; lia|]. right. split; [lia|by apply lex_snoc]. Qed.
Lemma precedes_last p i j : (i < j)%nat -> precedes (p ++ [i]) (p ++ [j]).
Proof. intros Hi. right. rewrite !length_app. split; [done|by apply lex_last]. Qed.
Lemma not_after_trans p q r : not_after p q -> not_after q r -> not_after p r.
Proof. unfold not_after. intros [Hp| ->] [Hq| ->]; eauto using precedes_trans. Qed.
Lemma not_after_snoc p q i : not_after p q -> not_after (p ++ [i]) (q ++ [i]).
Proof. intros [Hp| ->]; [left; by apply precedes_snoc|by right]. Qed.
Lemma not_after_antisym p q : not_after p q -> not_after q p -> p = q.
Proof. intros [Hp|?] [Hq|?]; [|done..]. by destruct (precedes_irrefl p); eapply precedes_trans. Qed.
Lemma not_after_total p q : not_after p q \/ precedes q p.
Proof.
  unfold not_after, precedes. destruct (Nat.lt_trichotomy (length p) (length q)) as [?|[Hl|?]]; [auto| |auto].
  destruct (lex_total p q Hl) as [?|[->|?]]; auto.
Qed.

Section Nearest.
Context {K : Type} `{Countable K}.
Variables (next : K -> list K) (root : K).

Fixpoint follow (p : list nat) (x : K) : option K :=
  match p with [] => Some x | i :: p => y ← next x !! i; follow p y end.

(** The node with the first path among those that satisfy [P]. *)
Definition nearest_node (P : K -> Prop) (a : K) : Prop :=
  exists p, follow p root = Some a /\ P a /\ forall q b, follow q root = Some b -> P b -> not_after p q.

Lemma nearest_node_unique P a b : nearest_node P a -> nearest_node P b -> a = b.
Proof.
  intros (p & Hp & Ha & Hpm) (q & Hq & Hb & Hqm). assert (p = q) as -> by (apply not_after_antisym; eauto). congruence.
Qed.

Lemma follow_snoc p i x : follow (p ++ [i]) x = (y ← follow p x; next y !! i).
Proof.
  revert x. induction p as [|j p IH]; intros x; cbn; [by destruct (next x !! i)|].
  destruct (next x !! j); cbn; [apply IH|done].
Qed.

Lemma follow_rtc p : forall x y, follow p x = Some y -> rtc (edge next) x y.
Proof.
  induction p as [|i p IH]; intros x y; cbn; [by intros [= ->]|]. destruct (next x !! i) as [z|] eqn:E; [|done].
  intros Hy%IH. eapply rtc_l; [|done]. by eapply list_elem_of_lookup_2.
Qed.

(** [pc] is the path of the node that is expanded, its children before [k] have
    been visited. *)
Record ordered (head k : nat) (pc : list nat) (fs : list (K * list nat)) : Prop := {
  o_root : fs !! 0%nat = Some (root, []);
  o_paths : forall x p, (x, p) ∈ fs -> follow p root = Some x;
  o_sorted : forall i j x y p q, (i < j)%nat -> fs !! i = Some (x, p) -> fs !! j = Some (y, q) -> precedes p q;
  o_parents : forall y q, (y, q) ∈ fs -> q = [] \/ exists i x p l, q = p ++ [l] /\ fs !! i = Some (x, p) /\
    ((i < head)%nat \/ p = pc /\ (l < k)%nat);
  o_reached : forall i x p l y, fs !! i = Some (x, p) -> next x !! l = Some y -> (i < head)%nat \/ p = pc /\ (l < k)%nat ->
    exists q, (y, q) ∈ fs /\ not_after q (p ++ [l]);
}.

Lemma ordered_position head k pc fs i j x y p : ordered head k pc fs ->
  fs !! i = Some (x, p) -> fs !! j = Some (y, p) -> i = j.
Proof.
  intros Ho Hi Hj. destruct (Nat.lt_trichotomy i j) as [Hlt|[->|Hlt]]; [|done|]; destruct (precedes_irrefl p);
    eauto using o_sorted.
Qed.

Lemma ordered_before head k cur pc fs : ordered head k pc fs -> fs !! head = Some (cur, pc) ->
  forall y q, (y, q) ∈ fs -> precedes q (pc ++ [k]).
Proof.
  intros [_ _ Hs Hp _] Hc y q Hq. destruct (Hp y q Hq) as [->|(i & x & p & l & -> & Hi & [Hlt|[-> Hl]])].
  - left. rewrite length_app. cbn. lia.
  - apply precedes_snoc. by eapply (Hs i head).
  - by apply precedes_last.
Qed.

Lemma ordered_visit head k cur pc fs acc b :
  ordered head k pc fs -> fs !! head = Some (cur, pc) -> in_step acc -> acc.1 = fs.*1 -> next cur !! k = Some b ->
  exists fs', ordered head (S k) pc fs' /\ fs' !! head = Some (cur, pc) /\ (visit acc b).1 = fs'.*1.
Proof.
  intros Ho Hc [Hn Hsn] Hf Hb. pose proof (ordered_before _ _ _ _ _ Ho Hc) as Hlast.
  pose proof (fun i x => ordered_position _ _ _ _ i head x cur pc Ho) as Hpos. destruct Ho as [H0 Hp Hs Hpar Hr].
  destruct acc as [found seen]. cbn in *. unfold visit. case_bool_decide as Hin; cbn [fst].
  - exists fs. split_and!; [split; try done|done|done].
    + intros y q Hq. destruct (Hpar y q Hq) as [->|(i & x & p & l & -> & Hi & Hor)]; [by left|right].
      exists i, x, p, l. split_and!; [done..|]. destruct Hor as [?|[? ?]]; eauto with lia.
    + intros i x p l y Hi Hl [?|[-> ?]]; [eauto|]. destruct (decide (l = k)) as [->|]; [|eapply Hr; eauto with lia].
      assert (i = head) as -> by eauto.
      simplify_eq. rewrite Hsn in Hin. apply list_elem_of_fmap in Hin as ([y' q] & -> & Hq). exists q. split; [done|]. left. by eapply Hlast.
  - exists (fs ++ [(b, pc ++ [k])]). split_and!; [split| |by rewrite fmap_app, Hf]; [by apply lookup_app_l_Some|..].
    + intros x p [Hx|Hx%list_elem_of_singleton]%elem_of_app; [auto|]. simplify_eq. rewrite follow_snoc, (Hp cur pc); [done|]. by eapply list_elem_of_lookup_2.
    + intros i j x y p q Hij Hi Hj. apply lookup_app_Some in Hj as [Hj|[Hj Hj']].
      * rewrite lookup_app_l in Hi by (apply lookup_lt_Some in Hj; lia). eauto.
      * apply list_lookup_singleton_Some in Hj' as [? ?]. simplify_eq. rewrite lookup_app_l in Hi by lia. eapply Hlast. by eapply list_elem_of_lookup_2.
    + intros y q [Hq|Hq%list_elem_of_singleton]%elem_of_app.
      * destruct (Hpar y q Hq) as [->|(i & x & p & l & -> & Hi & Hor)]; [by left|right]. exists i, x, p, l.
        split_and!; [done|by apply lookup_app_l_Some|]. destruct Hor as [?|[? ?]]; eauto with lia.
      * simplify_eq. right. exists head, cur, pc, k. split_and!; [done|by apply lookup_app_l_Some|right; split; [done|lia]].
    + intros i x p l y Hi Hl Hor. setoid_rewrite elem_of_app. setoid_rewrite list_elem_of_singleton.
      apply lookup_app_Some in Hi as [Hi|[Hi Hi']].
      * destruct Hor as [?|[-> ?]]; [destruct (Hr i x p l y) as (q & ? & ?); eauto|].
        assert (i = head) as -> by eauto.
        simplify_eq. destruct (decide (l = k)) as [->|]; [|destruct (Hr head cur pc l y) as (q & ? & ?); eauto with lia].
        simplify_eq. exists (pc ++ [k]). split; [by right|by right].
      * apply list_lookup_singleton_Some in Hi' as [? ?]. simplify_eq. apply lookup_lt_Some in Hc as Hlt. destruct Hor as [?|[Hpc _]]; [lia|].
        apply (f_equal length) in Hpc. rewrite length_app in Hpc. cbn in Hpc. lia.
    + by apply lookup_app_l_Some.
Qed.

Lemma ordered_visits head cur pc bs : forall k fs acc, (k <= length (next cur))%nat ->
  ordered head k pc fs -> fs !! head = Some (cur, pc) -> in_step acc -> acc.1 = fs.*1 -> drop k (next cur) = bs ->
  exists fs', ordered head (length (next cur)) pc fs' /\ fs' !! head = Some (cur, pc) /\ (foldl visit acc bs).1 = fs'.*1.
Proof.
  induction bs as [|b bs IH]; intros k fs acc Hle Ho Hc Hs Hf Hb; cbn [foldl].
  - apply (f_equal length) in Hb. rewrite length_drop in Hb. cbn in Hb. replace (length (next cur)) with k by lia. by exists fs.
  - assert (Hk : next cur !! k = Some b) by (rewrite <-(Nat.add_0_r k), <-lookup_drop, Hb; done).
    destruct (ordered_visit head k cur pc fs acc b Ho Hc Hs Hf Hk) as (fs' & Ho' & Hc' & Hf').
    apply lookup_lt_Some in Hk as Hlt. apply (IH (S k) fs'); [lia|done|done|by apply visit_in_step|done|].
    by rewrite (drop_S _ b k Hk) in Hb; injection Hb.
Qed.

Lemma ordered_next head cur pc pc' fs :
  ordered head (length (next cur)) pc fs -> fs !! head = Some (cur, pc) -> ordered (S head) 0 pc' fs.
Proof.
  intros Ho Hc. pose proof (fun i x => ordered_position _ _ _ _ i head x cur pc Ho) as Hpos. destruct Ho as [H0 Hp Hs Hpar Hr].
  split; [done..| |].
  - intros y q Hq. destruct (Hpar y q Hq) as [->|(i & x & p & l & -> & Hi & Hor)]; [by left|right].
    exists i, x, p, l. split_and!; [done..|left]. destruct Hor as [?|[-> _]]; [lia|]. rewrite (Hpos i x Hi Hc). lia.
  - intros i x p l y Hi Hl [Hlt|[_ Hlt]]; [|lia]. destruct (decide (i = head)) as [->|]; [|eapply Hr; eauto with lia].
    simplify_eq. eapply Hr; [done..|]. right. split; [done|]. by apply lookup_lt_Some in Hl.
Qed.

Lemma ordered_complete pc fs p x : ordered (length fs) 0 pc fs -> follow p root = Some x ->
  exists q, (x, q) ∈ fs /\ not_after q p.
Proof.
  intros Ho. revert x. induction p as [|l p IH] using rev_ind; intros x Hx.
  - injection Hx as <-. exists []. split; [|by right]. eapply list_elem_of_lookup_2, o_root, Ho.
  - rewrite follow_snoc in Hx. destruct (follow p root) as [y|]; [|done]. destruct (IH y eq_refl) as (q & (i & Hi)%list_elem_of_lookup_1 & Hqp).
    destruct (o_reached _ _ _ _ Ho i y q l x Hi Hx) as (q' & Hq' & Hle); [left; by eapply lookup_lt_Some|].
    exists q'. split; [done|]. eapply not_after_trans; [done|]. by apply not_after_snoc.
Qed.

Section Bounded.
Variable nodes : list K.
Hypothesis root_in : root ∈ nodes.
Hypothesis nodes_closed : forall x y, x ∈ nodes -> y ∈ next x -> y ∈ nodes.

Lemma breadth_first_go_ordered fuel : forall head acc (fs : list (K * list nat)), (length nodes <= fuel + head)%nat ->
  walked next root head acc -> (forall pc, ordered head 0 pc fs) -> acc.1 = fs.*1 -> (head <= length fs)%nat ->
  exists fs' : list (K * list nat), breadth_first_go next fuel head acc = fs'.*1 /\ ordered (length fs') 0 [] fs'.
Proof.
  assert (Hend : forall head (acc : list K * gset K) (fs : list (K * list nat)), acc.1 !! head = None -> (forall pc, ordered head 0 pc fs) -> acc.1 = fs.*1 ->
    (head <= length fs)%nat -> exists fs' : list (K * list nat), acc.1 = fs'.*1 /\ ordered (length fs') 0 [] fs').
  { intros head acc fs Hc Ho Hf Hh. exists fs. split; [done|]. apply lookup_ge_None in Hc. rewrite Hf, length_fmap in Hc.
    by replace (length fs) with head by lia. }
  induction fuel as [|fuel IH]; intros head acc fs Hb Hw Ho Hf Hh; cbn [breadth_first_go];
    destruct (acc.1 !! head) as [cur|] eqn:Hc; try by eapply Hend.
  - pose proof (walked_length next nodes root root_in nodes_closed _ _ Hw). apply lookup_lt_Some in Hc. lia.
  - assert (exists pc, fs !! head = Some (cur, pc)) as [pc Hcur].
    { rewrite Hf, list_lookup_fmap in Hc. destruct (fs !! head) as [[x pc]|]; simplify_eq/=. by exists pc. }
    destruct (ordered_visits head cur pc (next cur) 0 fs acc ltac:(lia) (Ho pc) Hcur (w_step _ _ _ _ Hw) Hf eq_refl) as (fs' & Ho' & Hcur' & Hf').
    apply (IH (S head) _ fs'); [lia|by apply walked_step| |done|by eapply lookup_lt_Some].
    intros pc'. by eapply ordered_next.
Qed.

(** The first node of the walk that satisfies [P] is the nearest. *)
Lemma breadth_first_nearest fuel P l1 a l2 : (length nodes <= fuel)%nat ->
  breadth_first next fuel root = l1 ++ a :: l2 -> P a -> (forall b, b ∈ l1 -> ~ P b) -> nearest_node P a.
Proof.
  intros Hfuel Hl Ha Hl1.
  destruct (breadth_first_go_ordered fuel 0 ([root], {[root]}) [(root, [])]) as (fs & Hfs & Ho); [lia| | |done|cbn; lia|].
  - split; cbn; [split; cbn; [apply NoDup_singleton|set_solver]|done|set_solver by constructor|lia].
  - intros pc. split; cbn; [done| | |..].
    + by intros x p [= -> ->]%list_elem_of_singleton.
    + intros [|i] [|j]; cbn; [lia|done..].
    + intros y q [= -> ->]%list_elem_of_singleton. by left.
    + intros i x p l y _ _ [?|[_ ?]]; lia.
  - fold (breadth_first next fuel root) in Hfs. rewrite Hl in Hfs.
    assert (Hget : forall i x, (l1 ++ a :: l2) !! i = Some x -> exists p, fs !! i = Some (x, p)).
    { intros i x. rewrite Hfs, list_lookup_fmap. destruct (fs !! i) as [[y p]|]; [|done]. intros [= ->]. by exists p. }
    destruct (Hget (length l1) a) as [p Hp]; [by rewrite list_lookup_middle|].
    exists p. split_and!; [by eapply (o_paths _ _ _ _ Ho), list_elem_of_lookup_2|done|].
    intros q b Hq Hb. destruct (ordered_complete _ _ _ _ Ho Hq) as (q' & (j & Hj)%list_elem_of_lookup_1 & Hle).
    eapply not_after_trans; [|exact Hle]. destruct (Nat.lt_trichotomy (length l1) j) as [Hlt|[<-|Hlt]].
    + left. by eapply (o_sorted _ _ _ _ Ho).
    + simplify_eq. by right.
    + destruct (Hl1 b); [|done]. apply list_elem_of_lookup. exists j. rewrite <-(lookup_app_l l1 (a :: l2)) by done.
      by rewrite Hfs, list_lookup_fmap, Hj.
Qed.
End Bounded.
End Nearest.

(** ** Depth first

    The top of the stack is its head: what the code pushes last. A node is
    expanded when it is popped for the first time; [key] is what says so. *)
Section DepthFirst.
Context {E K : Type} `{Countable K}.
Variables (key : E -> K) (next : E -> list E).

Fixpoint drop_seen (seen : gset K) (stack : list E) : list E :=
  match stack with e :: rest => if bool_decide (key e ∈ seen) then drop_seen seen rest else stack | [] => [] end.

Fixpoint closure_go (fuel : nat) (seen : gset K) (stack out : list E) : list E :=
  match drop_seen seen stack, fuel with
  | e :: rest, S fuel => closure_go fuel ({[key e]} ∪ seen) (reverse (next e) ++ rest) (out ++ [e])
  | _, _ => out
  end.
Definition closure (fuel : nat) (root : E) : list E := closure_go fuel ∅ [root] [].

(** A key stands for one reachable element. *)
Variables (good : E -> Prop) (nodes : list K).
Hypothesis good_next : forall e e', good e -> e' ∈ next e -> good e'.
Hypothesis good_key : forall e e', good e -> good e' -> key e = key e' -> e = e'.
Hypothesis good_nodes : forall e, good e -> key e ∈ nodes.

Record explored (root : E) (seen : gset K) (stack out : list E) : Prop := {
  e_seen : forall k, k ∈ seen <-> k ∈ key <$> out;
  e_nodup : NoDup (key <$> out);
  e_sound : forall e, e ∈ stack ++ out -> good e /\ rtc (edge next) root e;
  e_root : root ∈ stack ++ out;
  e_first : out = [] /\ stack = [root] \/ out !! 0%nat = Some root;
  e_next : forall e e', e ∈ out -> e' ∈ next e -> e' ∈ stack ++ out;
}.

Lemma explored_drop root seen e stack out :
  key e ∈ seen -> explored root seen (e :: stack) out -> explored root seen stack out.
Proof.
  intros Hk [Hs Hn Hr Ho Hf He].
  assert (Hin : e ∈ out).
  { apply Hs, list_elem_of_fmap in Hk as (e' & Hk & He'). replace e with e'; [done|].
    apply good_key; [| |done]; apply Hr, elem_of_app; [right|left; left]; done. }
  assert (Hdrop : forall x, x ∈ (e :: stack) ++ out -> x ∈ stack ++ out).
  { intros x [->|Hx]%elem_of_cons; [apply elem_of_app; by right|done]. }
  split; eauto.
  - intros x Hx. apply Hr. by right.
  - destruct Hf as [[-> _]|Hf]; [by apply elem_of_nil in Hin|by right].
Qed.

Lemma explored_drops root seen stack out :
  explored root seen stack out -> explored root seen (drop_seen seen stack) out.
Proof. induction stack as [|e stack IH]; cbn; [done|]. intros Hx. case_bool_decide; [|done]. eauto using explored_drop. Qed.

Lemma drop_seen_head seen stack e rest : drop_seen seen stack = e :: rest -> key e ∉ seen.
Proof. induction stack as [|x stack IH]; cbn; [done|]. case_bool_decide; [done|]. by intros [= -> ->]. Qed.

Lemma explored_step root seen e stack out : key e ∉ seen ->
  explored root seen (e :: stack) out ->
  explored root ({[key e]} ∪ seen) (reverse (next e) ++ stack) (out ++ [e]).
Proof.
  intros Hk [Hs Hn Hr Ho Hf He].
  assert (Hmove : forall x, x ∈ (e :: stack) ++ out -> x ∈ (reverse (next e) ++ stack) ++ out ++ [e]).
  { intros x. rewrite !elem_of_app, elem_of_cons, list_elem_of_singleton. tauto. }
  split.
  - intros k. rewrite fmap_app, elem_of_app, elem_of_union, elem_of_singleton, Hs. cbn. rewrite list_elem_of_singleton. tauto.
  - rewrite fmap_app. apply NoDup_app. split_and!; [done| |apply NoDup_singleton].
    intros k Hk' ->%list_elem_of_singleton. by apply Hk, Hs.
  - destruct (Hr e) as [Hg Hre]; [left|].
    intros x [[Hx|Hx]%elem_of_app|[Hx|Hx%list_elem_of_singleton]%elem_of_app]%elem_of_app.
    + rewrite elem_of_reverse in Hx. split; [eauto|]. by eapply rtc_r.
    + apply Hr. right. apply elem_of_app. by left.
    + apply Hr. right. apply elem_of_app. by right.
    + by subst.
  - by apply Hmove.
  - right. destruct Hf as [[-> [= -> ->]]|Hf]; [done|by apply lookup_app_l_Some].
  - intros x x' [Hx|Hx%list_elem_of_singleton]%elem_of_app Hx'.
    + apply Hmove. eauto.
    + subst. rewrite !elem_of_app, elem_of_reverse. auto.
Qed.

Lemma explored_end root seen out : explored root seen [] out ->
  NoDup (key <$> out) /\ out !! 0%nat = Some root /\ forall e, e ∈ out <-> rtc (edge next) root e.
Proof.
  intros [Hs Hn Hr Ho Hf He]. split_and!; [done|destruct Hf as [[_ ?]|?]; done|]. intros e. split; [apply Hr|].
  intros Hx. revert Ho. cbn in *. clear Hr Hf. induction Hx as [|x y z Hxy _ IH]; [done|]. intros Ho. apply IH. exact (He x y Ho Hxy).
Qed.

Lemma explored_length root seen stack out : explored root seen stack out -> (length out <= length nodes)%nat.
Proof.
  intros [Hs Hn Hr Ho Hf He]. rewrite <-(length_fmap key). apply submseteq_length, NoDup_submseteq; [done|].
  intros k (e & -> & Hin)%list_elem_of_fmap. apply good_nodes, Hr, elem_of_app. by right.
Qed.

Lemma closure_go_spec root fuel : forall seen stack out, (length nodes <= fuel + length out)%nat ->
  explored root seen stack out ->
  let r := closure_go fuel seen stack out in
  NoDup (key <$> r) /\ r !! 0%nat = Some root /\ forall e, e ∈ r <-> rtc (edge next) root e.
Proof.
  induction fuel as [|fuel IH]; intros seen stack out Hf Hx%explored_drops; cbn [closure_go];
    destruct (drop_seen seen stack) as [|e rest] eqn:Hd; try by eapply explored_end.
  - apply drop_seen_head in Hd. apply explored_step, explored_length in Hx; [|done].
    rewrite length_app in Hx. cbn in Hx. lia.
  - apply drop_seen_head in Hd. apply IH; [rewrite length_app; cbn; lia|]. by apply explored_step.
Qed.

Lemma closure_spec root fuel : good root -> (length nodes <= fuel)%nat ->
  NoDup (key <$> closure fuel root) /\ closure fuel root !! 0%nat = Some root /\
  forall e, e ∈ closure fuel root <-> rtc (edge next) root e.
Proof.
  intros Hg Hf. apply closure_go_spec; [cbn; lia|]. split; cbn; [set_solver|constructor| |left|auto|by intros ?? ?%elem_of_nil].
  intros e ->%list_elem_of_singleton. split; [done|constructor].
Qed.
End DepthFirst.
