(* ===== verification/SolcAst.v ===== *)
(** * SolcAst: the syntax tree of the compiler

    The parts of the compiler's syntax tree that the inspectors of compiled
    code read ([inspectors/function_source.rs],
    [inspectors/external_functions.rs]), and the names they give to types and
    kinds of functions. Of the parameters of function types and errors only the
    types are read. *)
From S2P Require Import Prelude.
From S2P Require Import SolcOutput.

(** ** Types and expressions *)
Record Location : Type := mkLocation { loc_offset : nat; loc_length : nat }.

Inductive ElementaryType : Type :=
| ElUint (bits : Z) | ElInt (bits : Z) | ElAddress | ElPayable | ElBool | ElString | ElBytes
| ElFixedBytes (size : Z) | ElUfixed (m n : Z) | ElFixed (m n : Z).

Inductive TypeName : Type :=
| TyElementary (e : ElementaryType)
| TyUserDefined (referenced : option Z) (path : option string) (name : option string)
| TyArray (base : TypeName)
| TyMapping (key_type value_type : TypeName)
| TyFunction (parameters returns : list TypeName).

Inductive Expression : Type :=
| EFunctionCall (call : FunctionCall)
| EAssignment (left_side right_side : Expression)
| EMemberAccess (referenced : option Z) (e : Expression)
| EIdentifier (referenced : option Z)
| EBinaryOperation (l r : Expression)
| EUnaryOperation (e : Expression)
| EConditional (c t f : Expression)
| ETupleExpression (components : list (option Expression))
| EIndexAccess (base : Expression) (index : option Expression)
| EIndexRangeAccess (base : Expression) (start stop : option Expression)
| EOther
with FunctionCall : Type :=
| mkFunctionCall (callee : Callee) (arguments : list Expression)
with Callee : Type :=
| CMemberAccess (referenced : option Z) (e : Expression)
| CIdentifier (referenced : option Z)
| CFunctionCallOptions (e : Expression) (options : list Expression)
| CNewExpression (type_name : TypeName)
| COther.

(** ** Statements *)
Inductive Statement : Type :=
| SExpression (e : Expression)
| SBlock (statements : list Statement)
| SIf (condition : Expression) (true_body : Statement) (false_body : option Statement)
| SFor (init : option Expression) (condition : Expression) (loop : option Expression) (body : Statement)
| SWhile (condition : Expression) (body : Statement)
| SDoWhile (condition : Expression) (body : Statement)
| SReturn (e : option Expression)
| SVariableDeclaration (init : option Expression) (declarations : list (option TypeName))
| SRevert (call : FunctionCall)
| SEmit (call : FunctionCall)
| STry (external_call : Expression) (clauses : list (list Statement))
| SUncheckedBlock (statements : list Statement)
| SOther.

(** ** Declarations *)
Inductive Visibility : Type := VExternal | VPublic | VInternal | VPrivate.
Inductive FunctionKind : Type := KConstructor | KFallback | KReceive | KFunction | KFreeFunction.
Inductive ContractKind : Type := KContract | KInterface | KLibrary.
Inductive ModifierKind : Type := MkModifier | MkBaseConstructor.
#[global] Instance Visibility_eq_dec : EqDecision Visibility.
Proof. solve_decision. Defined.
#[global] Instance FunctionKind_eq_dec : EqDecision FunctionKind.
Proof. solve_decision. Defined.
#[global] Instance ContractKind_eq_dec : EqDecision ContractKind.
Proof. solve_decision. Defined.

Record VariableDeclaration : Type := mkVariable {
  vd_id : Z; vd_name : string; vd_src : Location;
  vd_type : TypeName;
  vd_type_string : option string;
  vd_visibility : Visibility;
  vd_selector : option string;
  vd_value : option Expression;
}.

Record ModifierInvocation : Type := mkInvocation {
  mi_name : string;
  mi_referenced : option Z;
  mi_kind : option ModifierKind;
  mi_arguments : option (list Expression);
}.

Record Block : Type := mkBlock { bl_src : Location; bl_statements : list Statement }.

Record FunctionDefinition : Type := mkFunctionDef {
  fd_id : Z; fd_name : string; fd_src : Location;
  fd_kind : option FunctionKind;
  fd_is_constructor : bool;
  fd_visibility : Visibility;
  fd_implemented : bool;
  fd_virtual : option bool;
  fd_overrides : bool;
  fd_selector : option string;
  fd_parameters : list VariableDeclaration;
  fd_returns : list VariableDeclaration;
  fd_modifiers : list ModifierInvocation;
  fd_body : option Block;
}.

(** What a unit and a contract may both hold; modifiers are of contracts. *)
Inductive Declaration : Type :=
| DFunction (f : FunctionDefinition)
| DModifier (id : Z) (n : string) (src : Location) (parameters : list VariableDeclaration) (body : Block)
| DVariable (v : VariableDeclaration)
| DStruct (id : Z) (n : string) (src : Location) (members : list TypeName)
| DEnum (id : Z) (n : string) (src : Location)
| DError (id : Z) (n : string) (src : Location) (parameters : list TypeName)
| DEvent (id : Z) (n : string) (src : Location) (parameters : list TypeName)
| DValueType (id : Z) (n : string) (src : Location) (underlying : TypeName)
| DOther.

Record ContractDefinition : Type := mkContractDef {
  cd_id : Z; cd_name : string; cd_src : Location;
  cd_kind : ContractKind;
  cd_abstract : option bool;
  cd_fully_implemented : bool;
  cd_bases : list (string * option Z);
  cd_nodes : list Declaration;
}.

Inductive UnitNode : Type := UContract (c : ContractDefinition) | UDeclaration (d : Declaration).
Definition SourceUnit : Type := list UnitNode.
(** The sources of an output, in the order of its map. *)
Definition Sources : Type := list (string * option SourceUnit).

Definition ast_of (output : Sources) (file : string) : option SourceUnit :=
  ast ← get_path file output; ast.

(** ** Kinds, keys and names *)
Definition function_kind (f : FunctionDefinition) : FunctionKind :=
  default (if fd_is_constructor f then KConstructor
           else if String.eqb (fd_name f) "" then KFallback else KFunction) (fd_kind f).

(** [str::replace] by nothing: the occurrences from the left, [skip] characters
    of one being left. *)
Fixpoint remove_go (needle : string) (skip : nat) (s : string) : string :=
  match s with
  | EmptyString => EmptyString
  | String a rest =>
      match skip with
      | S skip => remove_go needle skip rest
      | O => if starts_with needle s then remove_go needle (String.length needle - 1) rest
             else String a (remove_go needle 0 rest)
      end
  end.
Definition remove_all (needle s : string) : string := remove_go needle 0 s.

Definition normalize_text (kind : string) : string :=
  remove_all " payable" (remove_all " storage" (remove_all " calldata" (remove_all " memory" kind))).
Definition normalize_type (kind : option string) : string :=
  match kind with None => "" | Some kind => normalize_text kind end.

Definition comma (l : list string) : string := String.concat "," l.
Definition ast_param_key (parameters : list VariableDeclaration) : string :=
  comma ((fun p => normalize_type (vd_type_string p)) <$> parameters).

Definition elementary_text (e : ElementaryType) : string :=
  match e with
  | ElUint bits => "uint" +:+ fmt_dec bits
  | ElInt bits => "int" +:+ fmt_dec bits
  | ElAddress => "address"
  | ElPayable => "address payable"
  | ElBool => "bool"
  | ElString => "string"
  | ElBytes => "bytes"
  | ElFixedBytes n => "bytes" +:+ fmt_dec n
  | ElUfixed m n => "ufixed" +:+ fmt_dec m +:+ "x" +:+ fmt_dec n
  | ElFixed m n => "fixed" +:+ fmt_dec m +:+ "x" +:+ fmt_dec n
  end.

Fixpoint format_type_name (t : TypeName) : string :=
  match t with
  | TyElementary e => elementary_text e
  | TyArray base => format_type_name base +:+ "[]"
  | TyUserDefined _ path n => default "unknown" (match path with Some p => Some p | None => n end)
  | TyMapping _ _ => "mapping"
  | TyFunction _ _ => "function"
  end.
Definition format_params (parameters : list VariableDeclaration) : string :=
  comma ((fun p => format_type_name (vd_type p)) <$> parameters).

(** [str::to_lowercase], on the ASCII text that selectors and names are. *)
Definition lower_char (a : ascii) : ascii :=
  let n := nat_of_ascii a in if (65 <=? n)%nat && (n <=? 90)%nat then ascii_of_nat (n + 32) else a.
Fixpoint to_lowercase (s : string) : string :=
  match s with EmptyString => EmptyString | String a s' => String (lower_char a) (to_lowercase s') end.

(** ** The normal form of a type has no data location *)
Lemma remove_all_none needle s : contains needle s = false -> remove_all needle s = s.
Proof.
  unfold remove_all. induction s as [|a s IH]; [done|]. cbn [contains remove_go]. intros [Hp Hs]%orb_false_iff.
  by rewrite Hp, IH.
Qed.

Example normal_keys :
  normalize_text "struct Voter.Point memory[]" = "struct Voter.Point[]" /\
  normalize_text "address payable" = "address" /\
  ast_param_key [mkVariable 1 "a" (mkLocation 0 0) (TyElementary ElBool) (Some "bytes calldata") VInternal None None;
                 mkVariable 2 "b" (mkLocation 0 0) (TyElementary ElBool) (Some "uint256") VInternal None None] = "bytes,uint256".
Proof. done. Qed.
