(* ===== verification/Parts.v ===== *)
(** * Parts: the syntax tree of a declaration, as a tree

    The specification of what a declaration refers to, apart from the walk that
    collects it ([RefWalk] of [inspectors/function_source.rs]): the parts of a
    node of the tree, the name that a node holds itself, and the parts that the
    walk leaves out. The tree is that of [SolcAst]: inline assembly, the lengths
    of arrays and the variables of the clauses of a [try] are not in it, and the
    code does not read them either. *)
From stdpp Require Import relations.
From S2P Require Import Prelude.
From S2P Require Import SolcOutput.
From S2P Require Import SolcAst.

(** A node of the tree. *)
Inductive Part : Type :=
| PDeclaration (d : Declaration)
| PInvocation (m : ModifierInvocation)
| PStatement (s : Statement)
| PExpression (e : Expression)
| PCall (c : FunctionCall)
| PCallee (c : Callee)
| PType (t : TypeName).

(** [Called] is an unqualified call, [Invoked] a modifier or a base constructor. *)
Inductive Mention : Type := Plain (id : Z) | Called (id : Z) | Invoked (kind : option ModifierKind) (id : Z).

(** The name that a node holds itself. *)
Definition named (p : Part) : option Mention :=
  match p with
  | PExpression (EMemberAccess id _) | PExpression (EIdentifier id) | PCallee (CMemberAccess id _)
  | PType (TyUserDefined id _ _) => Plain <$> id
  | PCallee (CIdentifier id) => Called <$> id
  | PInvocation m => Invoked (mi_kind m) <$> mi_referenced m
  | _ => None
  end.

Definition types_of (ps : list VariableDeclaration) : list Part := map (fun p => PType (vd_type p)) ps.
Definition optional {A} (wrap : A -> Part) (o : option A) : list Part := match o with Some a => [wrap a] | None => [] end.

(** The parts of a type, of an expression and of a statement that are read. *)
Definition type_parts (t : TypeName) : list Part :=
  match t with
  | TyElementary _ | TyUserDefined _ _ _ => []
  | TyArray base => [PType base]
  | TyMapping k v => [PType k; PType v]
  | TyFunction ps rs => map PType ps ++ map PType rs
  end.
Definition expression_parts (e : Expression) : list Part :=
  match e with
  | EFunctionCall call => [PCall call]
  | EAssignment l r => [PExpression r; PExpression l]
  | EMemberAccess _ e | EUnaryOperation e => [PExpression e]
  | EIdentifier _ | EOther => []
  | EBinaryOperation l r => [PExpression l; PExpression r]
  | EConditional c t f => [PExpression c; PExpression t; PExpression f]
  | ETupleExpression components => components ≫= optional PExpression
  | EIndexAccess base index => PExpression base :: optional PExpression index
  | EIndexRangeAccess base start _ => PExpression base :: optional PExpression start
  end.
Definition statement_parts (s : Statement) : list Part :=
  match s with
  | SExpression e => [PExpression e]
  | SBlock ss | SUncheckedBlock ss => map PStatement ss
  | SIf c t f => PExpression c :: PStatement t :: optional PStatement f
  | SFor init c loop body => optional PExpression init ++ PExpression c :: optional PExpression loop ++ [PStatement body]
  | SWhile c body => [PExpression c; PStatement body]
  | SDoWhile c body => [PStatement body; PExpression c]
  | SReturn e => optional PExpression e
  | SVariableDeclaration init ds => optional PExpression init ++ (ds ≫= optional PType)
  | SRevert call | SEmit call => [PCall call]
  | STry e clauses => PExpression e :: (clauses ≫= map PStatement)
  | SOther => []
  end.
Definition declaration_parts (d : Declaration) : list Part :=
  match d with
  | DFunction f =>
      match fd_body f with
      | Some body => types_of (fd_parameters f) ++ types_of (fd_returns f) ++ map PInvocation (fd_modifiers f) ++
                     map PStatement (bl_statements body)
      | None => []
      end
  | DModifier _ _ _ ps body => types_of ps ++ map PStatement (bl_statements body)
  | DVariable v => PType (vd_type v) :: optional PExpression (vd_value v)
  | DStruct _ _ _ types | DError _ _ _ types | DEvent _ _ _ types => map PType types
  | DValueType _ _ _ t => [PType t]
  | DEnum _ _ _ | DOther => []
  end.

Definition read_parts (p : Part) : list Part :=
  match p with
  | PDeclaration d => declaration_parts d
  | PInvocation m => map PExpression (default [] (mi_arguments m))
  | PStatement s => statement_parts s
  | PExpression e => expression_parts e
  | PCall (mkFunctionCall callee arguments) => PCallee callee :: map PExpression arguments
  | PCallee (CMemberAccess _ e) => [PExpression e]
  | PCallee (CFunctionCallOptions e options) => PExpression e :: map PExpression options
  | PCallee (CNewExpression (TyUserDefined id path n)) => [PType (TyUserDefined id path n)]
  | PCallee _ => []
  | PType t => type_parts t
  end.

(** What is left out: the types and modifiers of a function without a body, the
    end of an index range, the type of a [new] of an array. *)
Definition unread_parts (p : Part) : list Part :=
  match p with
  | PDeclaration (DFunction f) =>
      match fd_body f with
      | Some _ => []
      | None => types_of (fd_parameters f) ++ types_of (fd_returns f) ++ map PInvocation (fd_modifiers f)
      end
  | PExpression (EIndexRangeAccess _ _ stop) => optional PExpression stop
  | PCallee (CNewExpression (TyUserDefined _ _ _)) => []
  | PCallee (CNewExpression t) => [PType t]
  | _ => []
  end.

(** All the parts of a node. *)
Definition all_parts (p : Part) : list Part := read_parts p ++ unread_parts p.

(** The node [q] is below [p]. *)
Definition below (parts : Part -> list Part) : relation Part := rtc (fun p q => q ∈ parts p).

(** The tree of [d] holds the name [m]. *)
Definition holds (parts : Part -> list Part) (d : Declaration) (m : Mention) : Prop :=
  exists p, below parts (PDeclaration d) p /\ named p = Some m.

(** When nothing is left out the two trees are the same. *)
Lemma holds_all d m : (forall p, below read_parts (PDeclaration d) p -> unread_parts p = []) ->
  holds all_parts d m <-> holds read_parts d m.
Proof.
  intros Hu. split; intros (p & Hp & Hm); exists p; (split; [|exact Hm]).
  - revert p Hp Hm. enough (Hall : forall p, below all_parts (PDeclaration d) p -> below read_parts (PDeclaration d) p) by auto.
    apply rtc_ind_r; [constructor|]. intros p q _ Hq Hp. unfold all_parts in Hq. rewrite Hu, app_nil_r in Hq by done. by eapply rtc_r.
  - eapply rtc_subrel; [|exact Hp]. intros x y Hxy. apply elem_of_app. by left.
Qed.
