(* ===== verification/SymbolIndex.v ===== *)
(** * SymbolIndex: the declarations of a compilation

    Models [SymbolIndex] and [OverrideTable] of
    [inspectors/function_source.rs]: every declaration by its node id, the
    chain of bases of a contract, and the most derived function that an
    unqualified call dispatches to. *)
From stdpp Require Import relations.
From S2P Require Import Prelude.
From S2P Require Import SolcAst.
From S2P Require Import Graphs.

(** ** Symbols *)
Inductive SymbolKind : Type :=
| Function | Modifier | Variable_ | Struct_ | Enum_ | Error_ | Event_ | UserDefinedValueType
| Contract_ (kind : ContractKind) (is_abstract : bool).
#[global] Instance SymbolKind_eq_dec : EqDecision SymbolKind.
Proof. solve_decision. Defined.

Definition heading (k : SymbolKind) : string :=
  match k with
  | Function => "Function"
  | Modifier => "Modifier"
  | Variable_ => "Variable"
  | Struct_ => "Struct"
  | Enum_ => "Enum"
  | Error_ => "Error"
  | Event_ => "Event"
  | UserDefinedValueType => "User Defined Value Type"
  | Contract_ KContract true => "Abstract Contract"
  | Contract_ KContract false => "Contract"
  | Contract_ KInterface _ => "Interface"
  | Contract_ KLibrary _ => "Library"
  end.
Definition is_contract (k : SymbolKind) : bool := match k with Contract_ _ _ => true | _ => false end.

Record ResolvedSymbol : Type := mkSymbol {
  rs_symbol : string; rs_file : string; rs_offset : nat; rs_length : nat; rs_kind : SymbolKind }.

(** ** The index *)
Record IndexEntry : Type := mkEntry {
  ie_id : Z;
  ie_file : string; ie_offset : nat; ie_length : nat;
  ie_name : string;
  ie_contract_id : option Z; ie_contract : string;
  ie_kind : SymbolKind;
  ie_params : string; ie_formatted : option string;
  ie_function_kind : FunctionKind;
  ie_visibility : Visibility;
  ie_implemented : bool; ie_overridable : bool;
  ie_selector : option string;
}.

Record SymbolIndex : Type := mkIndex {
  entries : gmap Z IndexEntry;
  bases : gmap Z (list Z);
  contracts : gmap string (list (Z * string));
  members : gmap Z (list Z);
  constructors : gmap Z Z;
}.
Definition index_empty : SymbolIndex := mkIndex ∅ ∅ ∅ ∅ ∅.

(** [entry(k).or_default().push(v)] *)
Definition push_to {K V} `{Countable K} (k : K) (v : V) (m : gmap K (list V)) : gmap K (list V) :=
  <[k := default [] (m !! k) ++ [v]]> m.

(** The owner of a declaration: the id and the name of its contract. *)
Definition Owner : Type := option (Z * string).

(** [Self::declaration] followed by the assignment of the kind. *)
Definition declaration (id : Z) (name : string) (src : Location) (file : string) (owner : Owner) (k : SymbolKind) : IndexEntry :=
  mkEntry id file (loc_offset src) (loc_length src) name (fst <$> owner) (default "" (snd <$> owner)) k
    "" None KFunction VPublic false false None.

Definition push (e : IndexEntry) (ix : SymbolIndex) : SymbolIndex :=
  mkIndex (<[ie_id e := e]> (entries ix)) (bases ix) (contracts ix) (members ix) (constructors ix).
Definition track_member (c m : Z) (ix : SymbolIndex) : SymbolIndex :=
  mkIndex (entries ix) (bases ix) (contracts ix) (push_to c m (members ix)) (constructors ix).
Definition track_owned (owner : Owner) (m : Z) (ix : SymbolIndex) : SymbolIndex :=
  match owner with Some (c, _) => track_member c m ix | None => ix end.

Definition function_entry (f : FunctionDefinition) (file : string) (owner : Owner) : IndexEntry :=
  mkEntry (fd_id f) file (loc_offset (fd_src f)) (loc_length (fd_src f)) (fd_name f)
    (fst <$> owner) (default "" (snd <$> owner)) Function
    (ast_param_key (fd_parameters f)) (Some (format_params (fd_parameters f)))
    (function_kind f) (fd_visibility f) (fd_implemented f)
    (default true (fd_virtual f) || fd_overrides f) (to_lowercase <$> fd_selector f).
Definition set_constructor (f : FunctionDefinition) (owner : Owner) (ix : SymbolIndex) : SymbolIndex :=
  match owner with
  | Some (c, _) =>
      if bool_decide (function_kind f = KConstructor) && fd_implemented f
      then mkIndex (entries ix) (bases ix) (contracts ix) (members ix) (<[c := fd_id f]> (constructors ix))
      else ix
  | None => ix
  end.
Definition index_function (f : FunctionDefinition) (file : string) (owner : Owner) (ix : SymbolIndex) : SymbolIndex :=
  push (function_entry f file owner) (set_constructor f owner (track_owned owner (fd_id f) ix)).

Definition variable_entry (v : VariableDeclaration) (file : string) (owner : Owner) : IndexEntry :=
  mkEntry (vd_id v) file (loc_offset (vd_src v)) (loc_length (vd_src v)) (vd_name v)
    (fst <$> owner) (default "" (snd <$> owner)) Variable_
    "" None KFunction (vd_visibility v) true false (to_lowercase <$> vd_selector v).
Definition index_variable (v : VariableDeclaration) (file : string) (owner : Owner) (ix : SymbolIndex) : SymbolIndex :=
  push (variable_entry v file owner) ix.

Definition modifier_entry (id : Z) (n : string) (src : Location) (ps : list VariableDeclaration) (file : string) (owner : Owner) : IndexEntry :=
  mkEntry id file (loc_offset src) (loc_length src) n (fst <$> owner) (default "" (snd <$> owner)) Modifier
    (ast_param_key ps) None KFunction VPublic true false None.

Definition index_plain (id : Z) (n : string) (src : Location) (file : string) (owner : Owner) (k : SymbolKind)
    (ix : SymbolIndex) : SymbolIndex :=
  push (declaration id n src file owner k) (track_owned owner id ix).

(** One declaration of a unit or of a contract. *)
Definition index_declaration (file : string) (owner : Owner) (ix : SymbolIndex) (d : Declaration) : SymbolIndex :=
  match d with
  | DFunction f => index_function f file owner ix
  | DModifier id n src ps _ =>
      match owner with
      | Some (c, _) => push (modifier_entry id n src ps file owner) (track_member c id ix)
      | None => ix
      end
  | DVariable v => track_owned owner (vd_id v) (index_variable v file owner ix)
  | DStruct id n src _ => index_plain id n src file owner Struct_ ix
  | DEnum id n src => index_plain id n src file owner Enum_ ix
  | DError id n src _ => index_plain id n src file owner Error_ ix
  | DEvent id n src _ => index_plain id n src file owner Event_ ix
  | DValueType id n src _ => index_plain id n src file owner UserDefinedValueType ix
  | DOther => ix
  end.

Definition contract_entry (c : ContractDefinition) (file : string) : IndexEntry :=
  mkEntry (cd_id c) file (loc_offset (cd_src c)) (loc_length (cd_src c)) (cd_name c) (Some (cd_id c)) (cd_name c)
    (Contract_ (cd_kind c) (default false (cd_abstract c))) "" None KFunction VPublic (cd_fully_implemented c) false None.
Definition add_contract (c : ContractDefinition) (file : string) (ix : SymbolIndex) : SymbolIndex :=
  let ix := push (contract_entry c file) ix in
  mkIndex (entries ix) (bases ix) (push_to (cd_name c) (cd_id c, file) (contracts ix)) (members ix) (constructors ix).
Definition add_base (c : Z) (ix : SymbolIndex) (base : string * option Z) : SymbolIndex :=
  match base.2 with
  | Some id => mkIndex (entries ix) (push_to c id (bases ix)) (contracts ix) (members ix) (constructors ix)
  | None => ix
  end.
Definition index_contract (c : ContractDefinition) (file : string) (ix : SymbolIndex) : SymbolIndex :=
  foldl (index_declaration file (Some (cd_id c, cd_name c)))
    (foldl (add_base (cd_id c)) (add_contract c file ix) (cd_bases c)) (cd_nodes c).

Definition index_node (file : string) (ix : SymbolIndex) (n : UnitNode) : SymbolIndex :=
  match n with
  | UContract c => index_contract c file ix
  | UDeclaration d => index_declaration file None ix d
  end.
Definition index_source (ix : SymbolIndex) (s : string * option SourceUnit) : SymbolIndex :=
  match s.2 with Some ast => foldl (index_node s.1) ix ast | None => ix end.
Definition build (output : Sources) : SymbolIndex := foldl index_source index_empty output.

(** ** Lookups *)
Definition direct_bases (ix : SymbolIndex) (c : Z) : list Z := default [] (bases ix !! c).
Definition all_bases (ix : SymbolIndex) : list Z := (map_to_list (bases ix)).*2 ≫= id.
Definition ancestors (ix : SymbolIndex) (c : Z) : list Z :=
  breadth_first (direct_bases ix) (S (length (all_bases ix))) c.

Definition symbol_text (e : IndexEntry) : string :=
  match ie_kind e with
  | Function =>
      let params := default (ie_params e) (ie_formatted e) in
      (if String.eqb (ie_contract e) "" then ie_name e else ie_contract e +:+ "." +:+ ie_name e) +:+ "(" +:+ params +:+ ")"
  | Variable_ => if String.eqb (ie_contract e) "" then ie_name e else ie_contract e +:+ "." +:+ ie_name e
  | _ => ie_name e
  end.
Definition entry_symbol (e : IndexEntry) : ResolvedSymbol :=
  mkSymbol (symbol_text e) (ie_file e) (ie_offset e) (ie_length e) (ie_kind e).
Definition symbol (ix : SymbolIndex) (id : Z) : option ResolvedSymbol := entry_symbol <$> entries ix !! id.

Definition member_entries (ix : SymbolIndex) (c : Z) : list (Z * IndexEntry) :=
  omap (fun m => (fun e => (m, e)) <$> entries ix !! m) (default [] (members ix !! c)).
Definition member_function (ix : SymbolIndex) (c : Z) (n : string) : option IndexEntry :=
  find (fun e => bool_decide (ie_kind e = Function) && String.eqb (ie_name e) n) (member_entries ix c).*2.

(** ** The override table *)
Abbreviation Signature := (string * string)%type (only parsing).
Record OverrideTable : Type := mkTable {
  chain : gset Z;
  most_derived : gmap (string * string) Z;
  dispatchable : gset (Z * (string * string));
}.
Definition table_empty : OverrideTable := mkTable ∅ ∅ ∅.
Definition signature (e : IndexEntry) : string * string := (ie_name e, ie_params e).

Definition may_dispatch (e : IndexEntry) : bool :=
  bool_decide (ie_kind e = Function) && bool_decide (ie_function_kind e = KFunction) &&
  negb (bool_decide (ie_visibility e = VPrivate)).
Definition add_function (ancestor : Z) (t : OverrideTable) (me : Z * IndexEntry) : OverrideTable :=
  let '(m, e) := me in
  if may_dispatch e then
    mkTable (chain t)
      (if ie_implemented e
       then match most_derived t !! signature e with Some _ => most_derived t | None => <[signature e := m]> (most_derived t) end
       else most_derived t)
      (if ie_overridable e then {[(ancestor, signature e)]} ∪ dispatchable t else dispatchable t)
  else t.
Definition add_ancestor (ix : SymbolIndex) (t : OverrideTable) (ancestor : Z) : OverrideTable :=
  foldl (add_function ancestor) (mkTable ({[ancestor]} ∪ chain t) (most_derived t) (dispatchable t)) (member_entries ix ancestor).
Definition table_build (ix : SymbolIndex) (c : Z) : OverrideTable := foldl (add_ancestor ix) table_empty (ancestors ix c).

Definition redirect (t : OverrideTable) (ix : SymbolIndex) (referenced : Z) : option Z :=
  e ← entries ix !! referenced;
  if bool_decide (ie_kind e = Function) then
    c ← ie_contract_id e;
    if bool_decide (c ∈ chain t) && bool_decide ((c, signature e) ∈ dispatchable t) then
      best ← most_derived t !! signature e;
      if best =? referenced then None else Some best
    else None
  else None.

(** ** The chain of a contract *)
Definition inherits (ix : SymbolIndex) : relation Z := edge (direct_bases ix).

Lemma direct_base_in ix c b : b ∈ direct_bases ix c -> b ∈ all_bases ix.
Proof.
  unfold direct_bases, all_bases. destruct (bases ix !! c) as [bs|] eqn:Hc; cbn; [|by intros ?%elem_of_nil].
  intros Hb. apply list_elem_of_bind. exists bs. split; [done|].
  apply list_elem_of_fmap. exists (c, bs). split; [done|]. by apply elem_of_map_to_list.
Qed.

Lemma ancestors_spec ix c :
  NoDup (ancestors ix c) /\ ancestors ix c !! 0%nat = Some c /\ forall a, a ∈ ancestors ix c <-> rtc (inherits ix) c a.
Proof.
  apply (breadth_first_spec (direct_bases ix) (c :: all_bases ix)); [left| |done].
  intros x y _ Hy%direct_base_in. by right.
Qed.

(** ** What the override table holds *)
Definition functions_of (ix : SymbolIndex) (l : list Z) : list (Z * (Z * IndexEntry)) :=
  l ≫= fun a => pair a <$> filter (fun me => may_dispatch me.2 = true) (member_entries ix a).

(** The nearest function of a signature that has a body. *)
Definition nearest (l : list (Z * (Z * IndexEntry))) (s : string * string) : option Z :=
  (fst ∘ snd) <$> find (fun f => ie_implemented f.2.2 && bool_decide (signature f.2.2 = s)) l.

Record table_of (l : list Z) (fs : list (Z * (Z * IndexEntry))) (t : OverrideTable) : Prop := {
  t_chain : forall a, a ∈ chain t <-> a ∈ l;
  t_derived : forall s, most_derived t !! s = nearest fs s;
  t_dispatch : forall a s, (a, s) ∈ dispatchable t <->
    exists m e, (a, (m, e)) ∈ fs /\ ie_overridable e = true /\ signature e = s;
}.

Lemma nearest_snoc fs f s : nearest (fs ++ [f]) s =
  match nearest fs s with
  | Some m => Some m
  | None => if ie_implemented f.2.2 && bool_decide (signature f.2.2 = s) then Some f.2.1 else None
  end.
Proof. unfold nearest. rewrite find_app. destruct (find _ fs); cbn; [done|]. by case_match. Qed.

Lemma add_function_table l fs a t m e : table_of l fs t ->
  table_of l (fs ++ if may_dispatch e then [(a, (m, e))] else []) (add_function a t (m, e)).
Proof.
  intros [Hc Hd Hp]. unfold add_function.
  destruct (may_dispatch e); [|rewrite app_nil_r; by split]. split; cbn -[nearest]; [done| |].
  - intros s. rewrite nearest_snoc. cbn -[nearest]. destruct (ie_implemented e); cbn; [|rewrite Hd; by case_match].
    rewrite Hd. destruct (decide (signature e = s)) as [<-|Hs].
    + rewrite bool_decide_true by done. destruct (nearest fs (signature e)) eqn:En; [by rewrite Hd|]. by rewrite lookup_insert_eq.
    + rewrite bool_decide_false by done. destruct (nearest fs (signature e)); rewrite ?lookup_insert_ne, Hd by done; by case_match.
  - intros a' s. setoid_rewrite elem_of_app. setoid_rewrite list_elem_of_singleton.
    destruct (ie_overridable e) eqn:Eo; [rewrite elem_of_union, elem_of_singleton|]; rewrite Hp; naive_solver congruence.
Qed.

Lemma add_ancestor_table ix l fs t a : table_of l fs t ->
  table_of (l ++ [a]) (fs ++ functions_of ix [a]) (add_ancestor ix t a).
Proof.
  intros [Hc Hd Hp]. unfold add_ancestor, functions_of. cbn. rewrite app_nil_r. generalize (member_entries ix a). intros ms.
  assert (Ht : table_of (l ++ [a]) fs (mkTable ({[a]} ∪ chain t) (most_derived t) (dispatchable t))).
  { split; [|done..]. intros x. cbn. rewrite elem_of_app, elem_of_union, Hc, elem_of_singleton, list_elem_of_singleton. tauto. }
  revert Ht. generalize (mkTable ({[a]} ∪ chain t) (most_derived t) (dispatchable t)). clear. revert fs.
  induction ms as [|[m e] ms IH]; intros fs t Ht; cbn [foldl].
  - by rewrite filter_nil, app_nil_r.
  - rewrite filter_cons. cbn [snd]. apply (add_function_table _ _ a _ m e) in Ht. destruct (may_dispatch e).
    + rewrite decide_True by done. apply IH in Ht. by rewrite <-app_assoc in Ht.
    + rewrite decide_False by done. rewrite app_nil_r in Ht. by apply IH.
Qed.

Lemma table_build_spec ix c : table_of (ancestors ix c) (functions_of ix (ancestors ix c)) (table_build ix c).
Proof.
  unfold table_build.
  assert (H : forall l l0 t, table_of l0 (functions_of ix l0) t ->
    table_of (l0 ++ l) (functions_of ix (l0 ++ l)) (foldl (add_ancestor ix) t l)).
  { induction l as [|a l IH]; intros l0 t Ht; cbn [foldl]; [by rewrite app_nil_r|].
    rewrite cons_middle, app_assoc. apply IH. unfold functions_of. rewrite bind_app. by apply add_ancestor_table. }
  apply (H _ []). split; cbn; [set_solver|intros s; by rewrite lookup_empty|].
  intros a s. split; [set_solver|]. intros (m & e & Hm & _). by apply elem_of_nil in Hm.
Qed.

(** ** Dispatch *)

(** A function of [c] that may be overridden has the signature [s]. *)
Definition overridable_in (ix : SymbolIndex) (c : Z) (s : string * string) : Prop :=
  exists m e, (m, e) ∈ member_entries ix c /\ may_dispatch e = true /\ ie_overridable e = true /\ signature e = s.
(** The member [m] of [c] is a function with a body and the signature [s]. *)
Definition implements (ix : SymbolIndex) (c : Z) (s : string * string) (m : Z) : Prop :=
  exists e, (m, e) ∈ member_entries ix c /\ may_dispatch e = true /\ ie_implemented e = true /\ signature e = s.

Lemma elem_of_functions ix l a m e :
  (a, (m, e)) ∈ functions_of ix l <-> a ∈ l /\ (m, e) ∈ member_entries ix a /\ may_dispatch e = true.
Proof.
  unfold functions_of. rewrite list_elem_of_bind. split.
  - intros (b & ([m' e'] & [= -> -> ->] & [Hd Hm]%list_elem_of_filter)%list_elem_of_fmap & Hb). done.
  - intros (Ha & Hm & Hd). exists a. split; [|done]. apply list_elem_of_fmap. exists (m, e). split; [done|].
    by apply list_elem_of_filter.
Qed.

Lemma find_split {A} (P : A -> bool) l x : find P l = Some x ->
  P x = true /\ exists l1 l2, l = l1 ++ x :: l2 /\ forall y, y ∈ l1 -> P y = false.
Proof.
  induction l as [|y l IH]; cbn; [done|]. destruct (P y) eqn:Hy.
  - intros [= ->]. split; [done|]. exists [], l. split; [done|]. by intros ? ?%elem_of_nil.
  - intros (Hx & l1 & l2 & -> & Hl)%IH. split; [done|]. exists (y :: l1), l2. split; [done|].
    by intros z [->|Hz]%elem_of_cons; auto.
Qed.

(** The nearest function is one of the first contract of the list that has one. *)
Lemma nearest_first ix l s m : nearest (functions_of ix l) s = Some m ->
  exists l1 a l2, l = l1 ++ a :: l2 /\ implements ix a s m /\ forall b m', b ∈ l1 -> ~ implements ix b s m'.
Proof.
  induction l as [|a l IH]; [done|]. unfold nearest, functions_of. cbn [mbind list_bind]. rewrite find_app.
  destruct (find _ (pair a <$> _)) as [[a' [m' e]]|] eqn:Hf; cbn.
  - intros [= ->]. apply find_some in Hf as [Hin [Hi Hs]%andb_true_iff].
    apply list_elem_of_In, list_elem_of_fmap in Hin as ([m0 e0] & [= -> -> ->] & [Hd Hm]%list_elem_of_filter).
    apply bool_decide_eq_true in Hs. exists [], a, l. split_and!; [done|by exists e0|]. by intros ? ? ?%elem_of_nil.
  - intros Hn. apply IH in Hn as (l1 & b & l2 & -> & Hb & Hl). exists (a :: l1), b, l2. split_and!; [done..|].
    intros c m' [->|Hc]%elem_of_cons; [|by apply Hl]. intros (e & Hm & Hd & Hi & Hs).
    assert (Hno : (a, (m', e)) ∈ pair a <$> filter (fun me => may_dispatch me.2 = true) (member_entries ix a)).
    { apply list_elem_of_fmap. exists (m', e). split; [done|]. by apply list_elem_of_filter. }
    apply list_elem_of_In, (find_none _ _ Hf) in Hno. cbn in Hno. by rewrite Hi, Hs, bool_decide_true in Hno.
Qed.

Lemma redirect_Some ix c r best : redirect (table_build ix c) ix r = Some best <->
  exists e o, entries ix !! r = Some e /\ ie_kind e = Function /\ ie_contract_id e = Some o /\
    rtc (inherits ix) c o /\ overridable_in ix o (signature e) /\
    nearest (functions_of ix (ancestors ix c)) (signature e) = Some best /\ best <> r.
Proof.
  destruct (table_build_spec ix c) as [Hc Hd Hp]. destruct (ancestors_spec ix c) as (_ & _ & Ha).
  assert (Ho : forall o s, rtc (inherits ix) c o -> (o, s) ∈ dispatchable (table_build ix c) <-> overridable_in ix o s).
  { intros o s Hr%Ha. rewrite Hp. unfold overridable_in. setoid_rewrite elem_of_functions. split; [intros (m & e & (? & ? & ?) & ? & ?)|intros (m & e & ? & ? & ? & ?)]; by exists m, e. }
  unfold redirect. split.
  - intros Hr. destruct (entries ix !! r) as [e|]; [|done]. cbn in Hr. case_bool_decide as Hk; [|done].
    destruct (ie_contract_id e) as [o|] eqn:Eo; [|done]. cbn in Hr.
    case_bool_decide as Hch; [|done]. case_bool_decide as Hdis; [|done]. cbn in Hr. rewrite Hd in Hr.
    destruct (nearest _ _) as [b|] eqn:En; [|done]. cbn in Hr. destruct (Z.eqb_spec b r) as [|Hb]; simplify_eq.
    apply Hc, Ha in Hch. apply Ho in Hdis; [|done]. by exists e, o.
  - intros (e & o & -> & Hk & Eo & Hch & Hdis & Hn & Hb). cbn. rewrite bool_decide_true, Eo by done. cbn.
    rewrite bool_decide_true by (by apply Hc, Ha). rewrite bool_decide_true by (by apply Ho). cbn.
    rewrite Hd, Hn. cbn. by rewrite (proj2 (Z.eqb_neq best r)).
Qed.

(** ** The invariant of the index

    Entries are under their own ids, and every tracked member has an entry. *)
Record index_ok (ix : SymbolIndex) : Prop := {
  ok_ids : forall k e, entries ix !! k = Some e -> ie_id e = k;
  ok_members : forall c m, m ∈ default [] (members ix !! c) -> is_Some (entries ix !! m);
  ok_constructors : forall c k, constructors ix !! c = Some k -> exists e, entries ix !! k = Some e;
}.

(** One more entry, which the lists may mention. *)
Record grown (e : IndexEntry) (ix ix' : SymbolIndex) : Prop := {
  g_entries : entries ix' = <[ie_id e := e]> (entries ix);
  g_members : forall c m, m ∈ default [] (members ix' !! c) -> m ∈ default [] (members ix !! c) \/ m = ie_id e;
  g_constructors : forall c k, constructors ix' !! c = Some k -> constructors ix !! c = Some k \/ k = ie_id e;
}.

Lemma grown_ok e ix ix' : grown e ix ix' -> index_ok ix -> index_ok ix'.
Proof.
  intros [He Hm Hc] [Hi Hms Hcs].
  assert (Hmono : forall k, is_Some (entries ix !! k) \/ k = ie_id e -> is_Some (entries ix' !! k)).
  { intros k. rewrite He. destruct (decide (ie_id e = k)) as [->|]; [by rewrite lookup_insert_eq|].
    rewrite lookup_insert_ne by done. by intros [?|?]. }
  split.
  - intros k x. rewrite He, lookup_insert_Some. intros [[<- <-]|[_ Hx]]; [done|by apply Hi].
  - intros c m [Hin|Hin]%Hm; apply Hmono; [left; by eapply Hms|by right].
  - intros c k [Hin|Hin]%Hc; apply Hmono; [left|by right]. by apply (Hcs c).
Qed.

Lemma elem_of_push_to {K V} `{Countable K} (k c : K) (v x : V) m :
  x ∈ default [] (push_to k v m !! c) -> x ∈ default [] (m !! c) \/ x = v.
Proof.
  unfold push_to. destruct (decide (k = c)) as [->|Hk].
  - rewrite lookup_insert_eq. cbn. rewrite elem_of_app, list_elem_of_singleton. done.
  - rewrite lookup_insert_ne by done. auto.
Qed.

Lemma grown_track owner e ix : grown e ix (push e (track_owned owner (ie_id e) ix)).
Proof. destruct owner as [[c n]|]; split; cbn; eauto using elem_of_push_to. Qed.

Lemma grown_function f file owner ix : grown (function_entry f file owner) ix (index_function f file owner ix).
Proof.
  unfold index_function, set_constructor. destruct owner as [[c n]|]; [|by split; cbn; eauto].
  case_match; split; cbn; eauto using elem_of_push_to. intros c' k. rewrite lookup_insert_Some. naive_solver.
Qed.

Lemma grown_variable v file owner ix :
  grown (variable_entry v file owner) ix (track_owned owner (vd_id v) (index_variable v file owner ix)).
Proof. destruct owner as [[c n]|]; split; cbn; eauto using elem_of_push_to. Qed.

Lemma index_declaration_ok file owner ix d : index_ok ix -> index_ok (index_declaration file owner ix d).
Proof.
  destruct d; cbn [index_declaration]; [eapply grown_ok, grown_function| |eapply grown_ok, grown_variable| | | | | |done];
    try exact (grown_ok _ _ _ (grown_track owner (declaration _ _ _ file owner _) ix)).
  destruct owner as [[c n']|]; [|done]. exact (grown_ok _ _ _ (grown_track (Some (c, n')) (modifier_entry _ _ _ _ file _) ix)).
Qed.

Lemma foldl_ok {A B} (P : A -> Prop) (f : A -> B -> A) (Hf : forall a b, P a -> P (f a b)) l : forall a, P a -> P (foldl f a l).
Proof. induction l; cbn; auto. Qed.

Lemma index_contract_ok c file ix : index_ok ix -> index_ok (index_contract c file ix).
Proof.
  intros Hix. unfold index_contract. apply foldl_ok; [intros; by apply index_declaration_ok|].
  apply foldl_ok; [by intros [????] [? [?|]] [???]|].
  destruct (grown_ok _ _ _ (grown_track None (contract_entry c file) ix) Hix) as [???]. by split.
Qed.

Lemma build_ok output : index_ok (build output).
Proof.
  unfold build. apply foldl_ok; [|by split; cbn; [intros ?? ?%lookup_empty_Some|intros ?? ?%elem_of_nil|intros ?? ?%lookup_empty_Some]].
  intros ix [file [ast|]]; [|done]. unfold index_source. cbn [snd fst]. apply foldl_ok. intros ix' [c|d]; [apply index_contract_ok|apply index_declaration_ok].
Qed.

Lemma member_entries_elem ix c m e : (m, e) ∈ member_entries ix c <-> m ∈ default [] (members ix !! c) /\ entries ix !! m = Some e.
Proof.
  unfold member_entries. rewrite list_elem_of_omap. split.
  - intros (x & Hx & He). destruct (entries ix !! x) as [e'|] eqn:E; simplify_eq/=. done.
  - intros [Hm He]. exists m. by rewrite He.
Qed.

(** ** The nearest member of a chain

    The contracts of a chain are ordered by the length of the path of bases that
    leads to them, then from the left; the members of one contract as they are
    declared. *)
Definition nearest_member (ix : SymbolIndex) (c : Z) (P : IndexEntry -> Prop) (m : Z) : Prop :=
  exists a i e, nearest_node (direct_bases ix) c (fun b => exists me, me ∈ member_entries ix b /\ P me.2) a /\
    member_entries ix a !! i = Some (m, e) /\ P e /\
    forall j m' e', (j < i)%nat -> member_entries ix a !! j = Some (m', e') -> ~ P e'.

Lemma nearest_member_unique ix c P m m' : nearest_member ix c P m -> nearest_member ix c P m' -> m = m'.
Proof.
  intros (a & i & e & Ha & Hi & He & Hmin) (a' & i' & e' & Ha' & Hi' & He' & Hmin').
  rewrite (nearest_node_unique _ _ _ _ _ Ha' Ha) in *. destruct (Nat.lt_trichotomy i i') as [Hlt|[<-|Hlt]].
  - by destruct (Hmin' i m e).
  - congruence.
  - by destruct (Hmin i' m' e').
Qed.

Lemma nearest_member_iff ix c (P Q : IndexEntry -> Prop) m : (forall e, P e <-> Q e) -> nearest_member ix c P m -> nearest_member ix c Q m.
Proof.
  intros HPQ (a & i & e & (p & Hp & (me & Hme & HP) & Hmin) & Hi & He & Hj). exists a, i, e. split_and!; [|done|by apply HPQ|].
  - exists p. split_and!; [done|exists me; split; [done|by apply HPQ]|]. intros q b Hq (me' & Hme' & HQ). apply (Hmin q b Hq).
    exists me'. split; [done|by apply HPQ].
  - intros j m' e' Hlt Hm' HQ%HPQ. by eapply Hj.
Qed.

Lemma ancestors_nearest ix c P l1 a l2 : ancestors ix c = l1 ++ a :: l2 -> P a -> (forall b, b ∈ l1 -> ~ P b) ->
  nearest_node (direct_bases ix) c P a.
Proof.
  intros Hl Ha Hl1.
  apply (breadth_first_nearest (direct_bases ix) c (c :: all_bases ix)) with (fuel := S (length (all_bases ix))) (l1 := l1) (l2 := l2);
    [left| |done..].
  intros x y _ Hy%direct_base_in. by right.
Qed.

Lemma find_bind {A B} (P : B -> bool) (f : A -> list B) l x : find P (l ≫= f) = Some x ->
  exists l1 a l2, l = l1 ++ a :: l2 /\ find P (f a) = Some x /\ forall b, b ∈ l1 -> find P (f b) = None.
Proof.
  induction l as [|a l IH]; [done|]. cbn [mbind list_bind]. rewrite find_app. destruct (find P (f a)) as [y|] eqn:E.
  - intros [= ->]. exists [], a, l. split_and!; [done..|]. by intros b ?%elem_of_nil.
  - intros (l1 & b & l2 & -> & Hb & Hl)%IH. exists (a :: l1), b, l2. split_and!; [done..|].
    by intros c [->|Hc]%elem_of_cons; auto.
Qed.

(** A search of the members of the chain finds the nearest. *)
Lemma find_member_nearest ix c (P : IndexEntry -> bool) m e :
  find (fun me => P me.2) (ancestors ix c ≫= member_entries ix) = Some (m, e) ->
  nearest_member ix c (fun e => P e = true) m /\ entries ix !! m = Some e /\ P e = true.
Proof.
  intros (l1 & a & l2 & Ha & (Hp & k1 & k2 & Hk & Hk1)%find_split & Hl)%find_bind. cbn in Hp.
  assert (Hm : member_entries ix a !! length k1 = Some (m, e)) by (by rewrite Hk, list_lookup_middle).
  split_and!; [|by apply list_elem_of_lookup_2, member_entries_elem in Hm as [_ ?]|done].
  exists a, (length k1), e. split_and!; [|done|done|].
  - eapply ancestors_nearest; [exact Ha| |].
    + exists (m, e). split; [by eapply list_elem_of_lookup_2|done].
    + intros b Hb (me & Hin%list_elem_of_In & Hpm). apply Hl in Hb. pose proof (find_none _ _ Hb me Hin) as Hn. cbn in Hn. congruence.
  - intros j m' e' Hj Hm'. rewrite Hk, lookup_app_l in Hm' by done. apply list_elem_of_lookup_2, Hk1 in Hm'. cbn in Hm'. congruence.
Qed.

(** The function that an unqualified call of [id] runs in the chain of [c], when
    it is another: the nearest with a body and the signature of [id], which is
    itself a function of the chain that may be overridden. *)
Definition same_function (s : string * string) (e : IndexEntry) : bool :=
  may_dispatch e && (ie_implemented e && bool_decide (signature e = s)).
Definition overridden (ix : SymbolIndex) (c id best : Z) : Prop :=
  exists e o, entries ix !! id = Some e /\ ie_kind e = Function /\ ie_contract_id e = Some o /\
    rtc (inherits ix) c o /\ overridable_in ix o (signature e) /\
    nearest_member ix c (fun x => same_function (signature e) x = true) best /\ best <> id.

Lemma nearest_find ix l s :
  nearest (functions_of ix l) s = fst <$> find (fun me => same_function s me.2) (l ≫= member_entries ix).
Proof.
  induction l as [|a l IH]; [done|]. unfold nearest, functions_of. cbn [mbind list_bind]. rewrite !find_app.
  rewrite find_map, <-find_filter. unfold compose at 2. cbn [snd fst].
  change (fun x : Z * IndexEntry => may_dispatch x.2 && (ie_implemented x.2 && bool_decide (signature x.2 = s)))
    with (fun me : Z * IndexEntry => same_function s me.2).
  destruct (find _ (member_entries ix a)) as [[m e]|]; [done|]. exact IH.
Qed.

Lemma member_nearest ix c (P : IndexEntry -> bool) m : nearest_member ix c (fun e => P e = true) m ->
  exists e, find (fun me => P me.2) (ancestors ix c ≫= member_entries ix) = Some (m, e).
Proof.
  intros Hm. destruct (find (fun me => P me.2) (ancestors ix c ≫= member_entries ix)) as [[m' e']|] eqn:E.
  - apply find_member_nearest in E as (Hn & _). rewrite (nearest_member_unique _ _ _ _ _ Hm Hn). by exists e'.
  - destruct Hm as (a & i & e & (p & Hp & _) & Hi & He & _). destruct (ancestors_spec ix c) as (_ & _ & Hanc).
    assert (Hin : (m, e) ∈ ancestors ix c ≫= member_entries ix).
    { apply list_elem_of_bind. exists a. split; [by eapply list_elem_of_lookup_2|]. apply Hanc. by eapply follow_rtc. }
    apply list_elem_of_In, (find_none _ _ E) in Hin. cbn in Hin. congruence.
Qed.

Lemma redirect_overridden ix c id best : redirect (table_build ix c) ix id = Some best <-> overridden ix c id best.
Proof.
  rewrite redirect_Some. unfold overridden. setoid_rewrite nearest_find. split.
  - intros (e & o & He & Hk & Ho & Hr & Hv & Hn & Hb). exists e, o. split_and!; [done..| |done].
    destruct (find _ _) as [[m x]|] eqn:E; [|done]. injection Hn as ->. by apply find_member_nearest in E as (? & _).
  - intros (e & o & He & Hk & Ho & Hr & Hv & (x & Hn)%member_nearest & Hb). exists e, o. by rewrite Hn.
Qed.
