(* ===== verification/References.v ===== *)
(** * References: what a declaration mentions, and what that mentions in turn

    Models [RefWalk], [collect_references], [resolve_root] and
    [resolve_recursive] of [inspectors/function_source.rs]. The walk of one
    declaration collects the ids it mentions, calls of overridden functions
    being redirected; the walk over declarations is a depth first closure. *)
From stdpp Require Import relations.
From S2P Require Import Prelude.
From S2P Require Import Graphs.
From S2P Require Import SolcOutput.
From S2P Require Import SolcAst.
From S2P Require Import Parts.
From S2P Require Import SymbolIndex.

(** ** The walk of one declaration

    The state is the vector of results with the set of its elements. *)
Definition Walk : Type := (list Z * gset Z)%type.
Definition walk_empty : Walk := ([], ∅).

Definition called_id (e : Expression) : option Z :=
  match e with EMemberAccess id _ => id | EIdentifier id => id | _ => None end.

(** [src] intersects the window; sources are shorter than [usize::MAX]. *)
Definition overlaps (src : Location) (range_start range_end : nat) : bool :=
  (loc_offset src <? range_end)%nat && (range_start <? loc_offset src + loc_length src)%nat.

Definition is_base_constructor (m : ModifierInvocation) (ix : SymbolIndex) : bool :=
  match mi_kind m with
  | Some MkBaseConstructor => true
  | Some MkModifier => false
  | None => match (r ← mi_referenced m; entries ix !! r) with Some e => is_contract (ie_kind e) | None => false end
  end.

Definition walk_list {A} (f : A -> Walk -> Walk) (l : list A) (w : Walk) : Walk := foldl (fun w a => f a w) w l.
Definition walk_option {A} (f : A -> Walk -> Walk) (o : option A) (w : Walk) : Walk :=
  match o with Some a => f a w | None => w end.

Section Walk.
Variables (symbol_id : Z) (ix : SymbolIndex) (overrides : OverrideTable).

Definition add (id : Z) (w : Walk) : Walk :=
  if bool_decide (id = symbol_id) || negb (bool_decide (is_Some (entries ix !! id))) then w else visit w id.
Definition add_option : option Z -> Walk -> Walk := walk_option add.
Definition add_dispatchable (id : Z) (w : Walk) : Walk :=
  match redirect overrides ix id with Some best => visit w best | None => add id w end.

Fixpoint type_name (t : TypeName) (w : Walk) : Walk :=
  match t with
  | TyUserDefined id _ _ => add_option id w
  | TyArray base => type_name base w
  | TyMapping k v => type_name v (type_name k w)
  | TyFunction ps rs => walk_list type_name rs (walk_list type_name ps w)
  | TyElementary _ => w
  end.

Fixpoint expression (e : Expression) (w : Walk) : Walk :=
  match e with
  | EFunctionCall call => function_call call w
  | EAssignment l r => expression l (expression r w)
  | EMemberAccess id e => expression e (add_option id w)
  | EIdentifier id => add_option id w
  | EBinaryOperation l r => expression r (expression l w)
  | EUnaryOperation e => expression e w
  | EConditional c t f => expression f (expression t (expression c w))
  | ETupleExpression components => walk_list (walk_option expression) components w
  | EIndexAccess base index => walk_option expression index (expression base w)
  | EIndexRangeAccess base start _ => walk_option expression start (expression base w)
  | EOther => w
  end
with function_call (call : FunctionCall) (w : Walk) : Walk :=
  match call with
  | mkFunctionCall callee arguments => walk_list expression arguments (walk_callee callee w)
  end
with walk_callee (callee : Callee) (w : Walk) : Walk :=
  match callee with
  | CMemberAccess id e => expression e (add_option id w)
  | CIdentifier id => walk_option add_dispatchable id w
  | CFunctionCallOptions e options => walk_list expression options (expression e (add_option (called_id e) w))
  | CNewExpression (TyUserDefined id _ _) => add_option id w
  | CNewExpression _ | COther => w
  end.

Fixpoint statement (s : Statement) (w : Walk) : Walk :=
  match s with
  | SExpression e => expression e w
  | SBlock ss | SUncheckedBlock ss => walk_list statement ss w
  | SIf c t f => walk_option statement f (statement t (expression c w))
  | SFor init c loop body =>
      statement body (walk_option expression loop (expression c (walk_option expression init w)))
  | SWhile c body => statement body (expression c w)
  | SDoWhile c body => expression c (statement body w)
  | SReturn e => walk_option expression e w
  | SVariableDeclaration init ds => walk_list (walk_option type_name) ds (walk_option expression init w)
  | SRevert call | SEmit call => function_call call w
  | STry e clauses => walk_list (walk_list statement) clauses (expression e w)
  | SOther => w
  end.
Definition statements : list Statement -> Walk -> Walk := walk_list statement.

Definition parameter_types : list VariableDeclaration -> Walk -> Walk := walk_list (fun p => type_name (vd_type p)).

Definition modifier (m : ModifierInvocation) (w : Walk) : Walk :=
  match mi_referenced m with
  | None => w
  | Some id =>
      let w := add id w in
      if is_base_constructor m ix then add_option (constructors ix !! id) w else w
  end.
Definition modifier_use (m : ModifierInvocation) (w : Walk) : Walk :=
  walk_option (walk_list expression) (mi_arguments m) (modifier m w).

Definition walk_function (f : FunctionDefinition) (range_start range_end : nat) (w : Walk) : Walk :=
  match fd_body f with
  | None => w
  | Some body =>
      if overlaps (bl_src body) range_start range_end then
        statements (bl_statements body)
          (walk_list modifier_use (fd_modifiers f) (parameter_types (fd_returns f) (parameter_types (fd_parameters f) w)))
      else w
  end.

Definition walk_variable (v : VariableDeclaration) (range_start range_end : nat) (w : Walk) : Walk :=
  if overlaps (vd_src v) range_start range_end
  then walk_option expression (vd_value v) (type_name (vd_type v) w) else w.

(** [struct_definition], [parameters] and [value_type]. *)
Definition walk_types (types : list TypeName) (src : Location) (range_start range_end : nat) (w : Walk) : Walk :=
  if overlaps src range_start range_end then walk_list type_name types w else w.

Definition walk_modifier (ps : list VariableDeclaration) (body : Block) (range_start range_end : nat) (w : Walk) : Walk :=
  if overlaps (bl_src body) range_start range_end
  then statements (bl_statements body) (parameter_types ps w) else w.

Definition member (range_start range_end : nat) (d : Declaration) (w : Walk) : Walk :=
  match d with
  | DFunction f => walk_function f range_start range_end w
  | DModifier _ _ _ ps body => walk_modifier ps body range_start range_end w
  | DVariable v => walk_variable v range_start range_end w
  | DStruct _ _ src types | DError _ _ src types | DEvent _ _ src types => walk_types types src range_start range_end w
  | DValueType _ _ src t => walk_types [t] src range_start range_end w
  | DEnum _ _ _ | DOther => w
  end.
End Walk.

(** The declarations of a unit, with those of its contracts; a unit has no
    modifier of its own. *)
Definition node_declarations (n : UnitNode) : list Declaration :=
  match n with UContract c => cd_nodes c | UDeclaration (DModifier _ _ _ _ _) => [] | UDeclaration d => [d] end.
Definition declarations (ast : SourceUnit) : list Declaration := ast ≫= node_declarations.

Definition collect_references (ast : SourceUnit) (s : ResolvedSymbol) (symbol_id : Z) (ix : SymbolIndex)
    (overrides : OverrideTable) : list Z :=
  (walk_list (member symbol_id ix overrides (rs_offset s) (rs_offset s + rs_length s)) (declarations ast) walk_empty).1.

(** ** The walk over declarations *)
Definition overrides_of (ix : SymbolIndex) (root_id : Z) : OverrideTable :=
  match (e ← entries ix !! root_id; ie_contract_id e) with Some c => table_build ix c | None => table_empty end.

Definition referenced (output : Sources) (ix : SymbolIndex) (overrides : OverrideTable) (item : Z * ResolvedSymbol)
    : list (Z * ResolvedSymbol) :=
  let '(id, s) := item in
  if is_contract (rs_kind s) then []
  else match ast_of output (rs_file s) with
       | Some ast => omap (fun r => pair r <$> symbol ix r) (collect_references ast s id ix overrides)
       | None => []
       end.

Definition resolve_recursive (root : ResolvedSymbol) (root_id : Z) (output : Sources) (ix : SymbolIndex) : list ResolvedSymbol :=
  (closure fst (referenced output ix (overrides_of ix root_id)) (base.size (entries ix)) (root_id, root)).*2.

(** ** What a declaration mentions

    The mentions in the order of the text the walk takes, without state; they
    are the names in the tree of the declaration ([Refers.mentions_holds]). *)

Definition plain (id : option Z) : list Mention := match id with Some id => [Plain id] | None => [] end.
Definition on_option {A} (f : A -> list Mention) (o : option A) : list Mention := match o with Some a => f a | None => [] end.
Definition on_list {A} (f : A -> list Mention) (l : list A) : list Mention := concat (map f l).

Fixpoint in_type (t : TypeName) : list Mention :=
  match t with
  | TyUserDefined id _ _ => plain id
  | TyArray base => in_type base
  | TyMapping k v => in_type k ++ in_type v
  | TyFunction ps rs => on_list in_type ps ++ on_list in_type rs
  | TyElementary _ => []
  end.

Fixpoint in_expression (e : Expression) : list Mention :=
  match e with
  | EFunctionCall call => in_call call
  | EAssignment l r => in_expression r ++ in_expression l
  | EMemberAccess id e => plain id ++ in_expression e
  | EIdentifier id => plain id
  | EBinaryOperation l r => in_expression l ++ in_expression r
  | EUnaryOperation e => in_expression e
  | EConditional c t f => in_expression c ++ in_expression t ++ in_expression f
  | ETupleExpression components => on_list (on_option in_expression) components
  | EIndexAccess base index => in_expression base ++ on_option in_expression index
  | EIndexRangeAccess base start _ => in_expression base ++ on_option in_expression start
  | EOther => []
  end
with in_call (call : FunctionCall) : list Mention :=
  match call with mkFunctionCall callee arguments => in_callee callee ++ on_list in_expression arguments end
with in_callee (callee : Callee) : list Mention :=
  match callee with
  | CMemberAccess id e => plain id ++ in_expression e
  | CIdentifier id => match id with Some id => [Called id] | None => [] end
  | CFunctionCallOptions e options => plain (called_id e) ++ in_expression e ++ on_list in_expression options
  | CNewExpression (TyUserDefined id _ _) => plain id
  | CNewExpression _ | COther => []
  end.

Fixpoint in_statement (s : Statement) : list Mention :=
  match s with
  | SExpression e => in_expression e
  | SBlock ss | SUncheckedBlock ss => on_list in_statement ss
  | SIf c t f => in_expression c ++ in_statement t ++ on_option in_statement f
  | SFor init c loop body =>
      on_option in_expression init ++ in_expression c ++ on_option in_expression loop ++ in_statement body
  | SWhile c body => in_expression c ++ in_statement body
  | SDoWhile c body => in_statement body ++ in_expression c
  | SReturn e => on_option in_expression e
  | SVariableDeclaration init ds => on_option in_expression init ++ on_list (on_option in_type) ds
  | SRevert call | SEmit call => in_call call
  | STry e clauses => in_expression e ++ on_list (on_list in_statement) clauses
  | SOther => []
  end.

Definition in_parameters : list VariableDeclaration -> list Mention := on_list (fun p => in_type (vd_type p)).
Definition in_modifier (m : ModifierInvocation) : list Mention :=
  on_option (fun id => [Invoked (mi_kind m) id]) (mi_referenced m) ++ on_option (on_list in_expression) (mi_arguments m).
Definition in_statements : list Statement -> list Mention := on_list in_statement.

Definition mentions (d : Declaration) : list Mention :=
  match d with
  | DFunction f =>
      match fd_body f with
      | Some body => in_parameters (fd_parameters f) ++ in_parameters (fd_returns f) ++
                     on_list in_modifier (fd_modifiers f) ++ in_statements (bl_statements body)
      | None => []
      end
  | DModifier _ _ _ ps body => in_parameters ps ++ in_statements (bl_statements body)
  | DVariable v => in_type (vd_type v) ++ on_option in_expression (vd_value v)
  | DStruct _ _ _ types | DError _ _ _ types | DEvent _ _ _ types => on_list in_type types
  | DValueType _ _ _ t => in_type t
  | DEnum _ _ _ | DOther => []
  end.

(** The range of a declaration that is compared with the window. *)
Definition extent (d : Declaration) : option Location :=
  match d with
  | DFunction f => bl_src <$> fd_body f
  | DModifier _ _ _ _ body => Some (bl_src body)
  | DVariable v => Some (vd_src v)
  | DStruct _ _ src _ | DError _ _ src _ | DEvent _ _ src _ | DValueType _ _ src _ => Some src
  | DEnum _ _ _ | DOther => None
  end.

Section Mentions.
Variables (symbol_id : Z) (ix : SymbolIndex) (overrides : OverrideTable).

Definition visit_mention (m : Mention) (w : Walk) : Walk :=
  match m with
  | Plain id => add symbol_id ix id w
  | Called id => add_dispatchable symbol_id ix overrides id w
  | Invoked kind id => modifier symbol_id ix (mkInvocation "" (Some id) kind None) w
  end.
Definition run (ms : list Mention) (w : Walk) : Walk := walk_list visit_mention ms w.

Lemma run_mentions_app a b w : run (a ++ b) w = run b (run a w).
Proof. apply foldl_app. Qed.

Lemma run_list {A} (f : A -> Walk -> Walk) (g : A -> list Mention) l :
  Forall (fun a => forall w, f a w = run (g a) w) l -> forall w, walk_list f l w = run (on_list g l) w.
Proof.
  unfold on_list. induction 1 as [|a l Ha _ IH]; intros w; [done|].
  cbn [map concat]. rewrite run_mentions_app, <-Ha. apply IH.
Qed.

Lemma run_lists {A} (f : A -> Walk -> Walk) (g : A -> list Mention) l :
  (forall a w, f a w = run (g a) w) -> forall w, walk_list f l w = run (on_list g l) w.
Proof. intros Hf. apply run_list, Forall_true, Hf. Qed.

Lemma run_plain id w : add_option symbol_id ix id w = run (plain id) w.
Proof. by destruct id. Qed.

Lemma run_option {A} (f : A -> Walk -> Walk) (g : A -> list Mention) o w :
  (forall a w, f a w = run (g a) w) -> walk_option f o w = run (on_option g o) w.
Proof. intros Hf. destruct o; [apply Hf|done]. Qed.

Fixpoint run_type (t : TypeName) : forall w, type_name symbol_id ix t w = run (in_type t) w.
Proof.
  destruct t as [e|id p n|base|k v|ps rs]; intros w; cbn [type_name in_type]; rewrite ?run_mentions_app.
  - done.
  - apply run_plain.
  - apply run_type.
  - by rewrite !run_type.
  - rewrite (run_list _ in_type ps), (run_list _ in_type rs); [done| |].
    + clear ps. induction rs; constructor; auto.
    + clear rs. induction ps; constructor; auto.
Qed.

Lemma run_types ts w : walk_list (type_name symbol_id ix) ts w = run (on_list in_type ts) w.
Proof. apply run_lists, run_type. Qed.
Lemma run_parameters ps w : parameter_types symbol_id ix ps w = run (in_parameters ps) w.
Proof. apply run_lists. intros p. apply run_type. Qed.

Fixpoint run_expression (e : Expression) : forall w, expression symbol_id ix overrides e w = run (in_expression e) w
with run_call (c : FunctionCall) : forall w, function_call symbol_id ix overrides c w = run (in_call c) w
with run_callee (c : Callee) : forall w, walk_callee symbol_id ix overrides c w = run (in_callee c) w.
Proof.
  - assert (Hopt : forall (o : option Expression) w, (forall e, o = Some e -> forall w, expression symbol_id ix overrides e w = run (in_expression e) w) ->
      walk_option (expression symbol_id ix overrides) o w = run (on_option in_expression o) w).
    { intros [e'|] w He; [by apply He|done]. }
    destruct e as [call|l r|id e|id|l r|e|c t f|cs|b i|b i j|]; intros w; cbn [expression in_expression]; rewrite ?run_mentions_app.
    + apply run_call.
    + by rewrite !run_expression.
    + by rewrite run_plain, run_expression.
    + apply run_plain.
    + by rewrite !run_expression.
    + apply run_expression.
    + by rewrite !run_expression.
    + apply run_list. induction cs as [|[c|] cs IH]; constructor; auto.
    + rewrite run_expression. destruct i as [i|]; [apply run_expression|done].
    + rewrite run_expression. destruct i as [i|]; [apply run_expression|done].
    + done.
  - destruct c as [callee arguments]; intros w; cbn [function_call in_call]. rewrite run_mentions_app, <-run_callee.
    apply run_list. induction arguments as [|a l IH]; constructor; auto.
  - destruct c as [id e|id|e options|t|]; intros w; cbn [walk_callee in_callee]; rewrite ?run_mentions_app.
    + by rewrite run_plain, run_expression.
    + by destruct id.
    + rewrite run_plain, run_expression. apply run_list. induction options as [|a l IH]; constructor; auto.
    + destruct t; [done|apply run_plain|done..].
    + done.
Qed.

Lemma run_expressions es w : walk_list (expression symbol_id ix overrides) es w = run (on_list in_expression es) w.
Proof. apply run_lists, run_expression. Qed.

Lemma run_maybe (o : option Expression) w :
  walk_option (expression symbol_id ix overrides) o w = run (on_option in_expression o) w.
Proof. apply run_option, run_expression. Qed.

Fixpoint run_statement (s : Statement) : forall w, statement symbol_id ix overrides s w = run (in_statement s) w.
Proof.
  destruct s as [e|ss|c t f|init c loop body|c body|body c|e|init ds|call|call|e clauses|ss|]; intros w;
    cbn [statement in_statement]; rewrite ?run_mentions_app, ?run_expression, ?run_maybe.
  - done.
  - apply run_list. induction ss as [|s ss IH]; constructor; auto.
  - rewrite run_statement. destruct f as [f|]; [apply run_statement|done].
  - by rewrite run_statement.
  - apply run_statement.
  - by rewrite run_statement.
  - done.
  - apply run_lists. intros o w'. apply run_option, run_type.
  - apply run_call.
  - apply run_call.
  - apply run_list. induction clauses as [|ss cs IH]; constructor; [|done].
    intros w'. apply run_list. induction ss as [|s ss IHs]; constructor; auto.
  - apply run_list. induction ss as [|s ss IH]; constructor; auto.
  - done.
Qed.

Lemma run_statements ss w : statements symbol_id ix overrides ss w = run (in_statements ss) w.
Proof. apply run_lists, run_statement. Qed.

Lemma run_modifier m w : modifier_use symbol_id ix overrides m w = run (in_modifier m) w.
Proof.
  unfold modifier_use, in_modifier. rewrite run_mentions_app. destruct m as [n [id|] kind args]; cbn [mi_referenced mi_kind mi_arguments on_option];
    apply run_option, run_expressions.
Qed.

(** The walk of a declaration visits its mentions when it overlaps the window. *)
Lemma run_member range_start range_end d w :
  member symbol_id ix overrides range_start range_end d w =
  match extent d with
  | Some src => if overlaps src range_start range_end then run (mentions d) w else w
  | None => w
  end.
Proof.
  destruct d as [f|id n src ps body|v|id n src ts|id n src|id n src ts|id n src ts|id n src t|]; cbn [member extent mentions fmap option_fmap].
  - unfold walk_function. destruct (fd_body f) as [body|]; [|done]. cbn. case_match; [|done].
    rewrite !run_mentions_app, !run_parameters, run_statements. f_equal. apply run_lists, run_modifier.
  - unfold walk_modifier. case_match; [|done]. by rewrite run_mentions_app, run_parameters, run_statements.
  - unfold walk_variable. case_match; [|done]. by rewrite run_mentions_app, run_type, run_maybe.
  - unfold walk_types. case_match; [apply run_types|done].
  - done.
  - unfold walk_types. case_match; [apply run_types|done].
  - unfold walk_types. case_match; [apply run_types|done].
  - unfold walk_types. case_match; [apply run_type|done].
  - done.
Qed.
End Mentions.

(** ** What the walk collects *)
Section Collect.
Variables (symbol_id : Z) (ix : SymbolIndex) (overrides : OverrideTable).

Definition known (id : Z) : list Z := match entries ix !! id with Some _ => [id] | None => [] end.

(** The declarations that a mention stands for. *)
Definition targets (m : Mention) : list Z :=
  match m with
  | Plain id => known id
  | Called id => match redirect overrides ix id with Some best => [best] | None => known id end
  | Invoked kind id =>
      known id ++ (if is_base_constructor (mkInvocation "" (Some id) kind None) ix
                   then match constructors ix !! id with Some c => known c | None => [] end else [])
  end.

(** [w'] is [w] with the elements of [xs], but perhaps for the walked symbol. *)
Record collected (xs : list Z) (w w' : Walk) : Prop := {
  c_step : in_step w';
  c_sound : forall x, x ∈ w'.1 -> x ∈ w.1 \/ x ∈ xs;
  c_keeps : forall x, x ∈ w.1 -> x ∈ w'.1;
  c_complete : forall x, x ∈ xs -> x <> symbol_id -> x ∈ w'.1;
}.

Lemma collected_nil w : in_step w -> collected [] w w.
Proof. intros Hw. split; [done|auto|auto|by intros ? ?%elem_of_nil]. Qed.

Lemma collected_app xs ys w1 w2 w3 : collected xs w1 w2 -> collected ys w2 w3 -> collected (xs ++ ys) w1 w3.
Proof.
  intros [_ Hs1 Hk1 Hc1] [Hw Hs2 Hk2 Hc2]. split; [done| |auto|].
  - intros x [[Hx|Hx]%Hs1|Hx]%Hs2; rewrite elem_of_app; auto.
  - intros x [Hx|Hx]%elem_of_app Hne; auto.
Qed.

Lemma collected_visit w x : in_step w -> collected [x] w (visit w x).
Proof.
  intros Hw. destruct (visits_found [x] w Hw) as (Hw' & more & E & Hin & Hall). cbn [foldl] in E, Hw'.
  split; [done|intros y; rewrite E; intros [Hy|Hy]%elem_of_app; auto|intros y Hy; rewrite E|intros y Hy _; rewrite E; by apply Hall].
  apply elem_of_app. by left.
Qed.

Lemma collected_add w id : in_step w -> collected (known id) w (add symbol_id ix id w).
Proof.
  intros Hw. unfold add, known. destruct (entries ix !! id) eqn:He.
  - rewrite (bool_decide_true (is_Some (Some i))) by done. rewrite orb_false_r. case_bool_decide as Hid; [|by apply collected_visit].
    subst. split; [done|auto|auto|by intros x ->%list_elem_of_singleton].
  - rewrite (bool_decide_false (is_Some None)) by (by intros [? ?]). rewrite orb_true_r. by apply collected_nil.
Qed.

Lemma collected_mention w m : in_step w -> collected (targets m) w (visit_mention symbol_id ix overrides m w).
Proof.
  intros Hw. destruct m as [id|id|kind id]; cbn [targets visit_mention].
  - by apply collected_add.
  - unfold add_dispatchable. destruct (redirect overrides ix id); [by apply collected_visit|by apply collected_add].
  - unfold modifier. cbn [mi_referenced]. pose proof (collected_add w id Hw) as Ha.
    eapply collected_app; [exact Ha|]. destruct Ha as [Hw' _ _ _]. case_match; [|by apply collected_nil].
    destruct (constructors ix !! id); [by apply collected_add|by apply collected_nil].
Qed.

Lemma collected_run ms : forall w, in_step w -> collected (ms ≫= targets) w (run symbol_id ix overrides ms w).
Proof.
  induction ms as [|m ms IH]; intros w Hw; [by apply collected_nil|].
  pose proof (collected_mention w m Hw) as Hm. eapply collected_app; [exact Hm|]. apply IH, Hm.
Qed.

(** The declarations whose range meets the window. *)
Definition within (range_start range_end : nat) (d : Declaration) : bool :=
  match extent d with Some src => overlaps src range_start range_end | None => false end.

Lemma collected_members range_start range_end ds : forall w, in_step w ->
  collected (filter (fun d => within range_start range_end d = true) ds ≫= fun d => mentions d ≫= targets) w
    (walk_list (member symbol_id ix overrides range_start range_end) ds w).
Proof.
  induction ds as [|d ds IH]; intros w Hw; [by apply collected_nil|]. cbn [walk_list foldl].
  assert (Hd : member symbol_id ix overrides range_start range_end d w =
    if within range_start range_end d then run symbol_id ix overrides (mentions d) w else w).
  { rewrite run_member. unfold within. by destruct (extent d). }
  rewrite Hd, filter_cons. destruct (within range_start range_end d).
  - rewrite decide_True by done. pose proof (collected_run (mentions d) w Hw) as Hm.
    eapply collected_app; [exact Hm|]. apply IH, Hm.
  - rewrite decide_False by done. by apply IH.
Qed.

(** [x] is mentioned in the range of [s]. *)
Definition mentioned (ast : SourceUnit) (s : ResolvedSymbol) (x : Z) : Prop :=
  exists d m, d ∈ declarations ast /\ within (rs_offset s) (rs_offset s + rs_length s) d = true /\
    m ∈ mentions d /\ x ∈ targets m.

Lemma collect_references_elem ast s :
  let refs := collect_references ast s symbol_id ix overrides in
  NoDup refs /\ (forall x, x ∈ refs -> mentioned ast s x) /\ (forall x, mentioned ast s x -> x <> symbol_id -> x ∈ refs).
Proof.
  assert (H0 : in_step walk_empty) by (split; cbn; [constructor|set_solver]).
  destruct (collected_members (rs_offset s) (rs_offset s + rs_length s) (declarations ast) _ H0) as [[Hn _] Hs _ Hc].
  split_and!; [done| |].
  - intros x [Hx|Hx]%Hs; [by apply elem_of_nil in Hx|].
    apply list_elem_of_bind in Hx as (d & (m & Hm & Hmd)%list_elem_of_bind & [Hw Hd]%list_elem_of_filter).
    by exists d, m.
  - intros x (d & m & Hd & Hw & Hm & Hx) Hne. apply Hc; [|done]. apply list_elem_of_bind. exists d.
    split; [apply list_elem_of_bind; by exists m|by apply list_elem_of_filter].
Qed.

Lemma known_entry x id : x ∈ known id -> is_Some (entries ix !! x).
Proof. unfold known. destruct (entries ix !! id) eqn:E; [intros ->%list_elem_of_singleton|intros ?%elem_of_nil; done]. by eexists. Qed.

Lemma targets_entry m x : (forall id best, redirect overrides ix id = Some best -> is_Some (entries ix !! best)) ->
  x ∈ targets m -> is_Some (entries ix !! x).
Proof.
  intros Hr. destruct m as [id|id|kind id]; cbn [targets]; [apply known_entry| |].
  - destruct (redirect overrides ix id) eqn:E; [intros ->%list_elem_of_singleton; by eapply Hr|apply known_entry].
  - rewrite elem_of_app. intros [Hx|Hx]; [by eapply known_entry|]. case_match; [|by apply elem_of_nil in Hx].
    destruct (constructors ix !! id); [by eapply known_entry|by apply elem_of_nil in Hx].
Qed.
End Collect.

(** ** The closure *)
Section Closure.
Variables (output : Sources) (ix : SymbolIndex) (root_id : Z).

(** The declaration [b] is mentioned in the source of [a]. *)
Definition uses (a b : Z) : Prop :=
  exists s ast, symbol ix a = Some s /\ is_contract (rs_kind s) = false /\ ast_of output (rs_file s) = Some ast /\
    mentioned ix (overrides_of ix root_id) ast s b.

Definition good_item (item : Z * ResolvedSymbol) : Prop := symbol ix item.1 = Some item.2.

Lemma overrides_entry id best : redirect (overrides_of ix root_id) ix id = Some best -> is_Some (entries ix !! best).
Proof.
  unfold overrides_of. destruct (e ← entries ix !! root_id; ie_contract_id e) as [c|].
  - intros (e & o & _ & _ & _ & _ & _ & Hn & _)%redirect_Some.
    apply nearest_first in Hn as (l1 & a & l2 & _ & (e' & [_ He]%member_entries_elem & _) & _). by eexists.
  - unfold redirect, table_empty. destruct (entries ix !! id) as [e|]; cbn; [|done]. case_match; [|done].
    destruct (ie_contract_id e); cbn; [|done]. rewrite bool_decide_false by set_solver. done.
Qed.

Lemma referenced_item item item' : item' ∈ referenced output ix (overrides_of ix root_id) item ->
  good_item item' /\ (good_item item -> uses item.1 item'.1).
Proof.
  destruct item as [id s]. unfold referenced. destruct (is_contract (rs_kind s)) eqn:Hk; [by intros ?%elem_of_nil|].
  destruct (ast_of output (rs_file s)) as [ast|] eqn:Ha; [|by intros ?%elem_of_nil].
  intros (r & Hr & Hs)%list_elem_of_omap. destruct (symbol ix r) as [s'|] eqn:Es; simplify_eq/=.
  split; [done|]. intros Hg. exists s, ast. split_and!; [done..|]. by eapply collect_references_elem.
Qed.

Lemma referenced_uses a s b : symbol ix a = Some s -> uses a b -> a <> b ->
  exists s', (b, s') ∈ referenced output ix (overrides_of ix root_id) (a, s) /\ symbol ix b = Some s'.
Proof.
  intros Hs (s0 & ast & Hs0 & Hk & Ha & Hm) Hab. simplify_eq.
  assert (Hb : is_Some (entries ix !! b)).
  { destruct Hm as (d & m & _ & _ & _ & Hx). eapply targets_entry; [|exact Hx]. apply overrides_entry. }
  destruct Hb as [e He]. exists (entry_symbol e). assert (Hsb : symbol ix b = Some (entry_symbol e)) by (unfold symbol; by rewrite He).
  split; [|done]. unfold referenced. rewrite Hk, Ha. apply list_elem_of_omap. exists b. split; [|by rewrite Hsb].
  by eapply collect_references_elem.
Qed.

Lemma reached_items root item : good_item (root_id, root) ->
  rtc (edge (referenced output ix (overrides_of ix root_id))) (root_id, root) item ->
  good_item item /\ rtc uses root_id item.1.
Proof.
  intros Hg. revert item. apply rtc_ind_r; [by split|]. intros y z _ Hyz [Hy Hry]. apply referenced_item in Hyz as [Hz Hu]. split; [done|]. eapply rtc_r; [done|by apply Hu].
Qed.

Lemma items_reached root b : good_item (root_id, root) -> rtc uses root_id b ->
  exists s, symbol ix b = Some s /\ rtc (edge (referenced output ix (overrides_of ix root_id))) (root_id, root) (b, s).
Proof.
  intros Hg. revert b. apply rtc_ind_r; [by exists root|]. intros y z _ Hyz (s & Hs & Hy).
  destruct (decide (y = z)) as [<-|Hne]; [by exists s|].
  destruct (referenced_uses y s z Hs Hyz Hne) as (s' & Hin & Hs'). exists s'. split; [done|]. by eapply rtc_r.
Qed.

Lemma resolve_recursive_closure root : symbol ix root_id = Some root ->
  exists ids, resolve_recursive root root_id output ix = omap (symbol ix) ids /\
    length ids = length (resolve_recursive root root_id output ix) /\
    NoDup ids /\ ids !! 0%nat = Some root_id /\ forall id, id ∈ ids <-> rtc uses root_id id.
Proof.
  intros Hroot. set (items := closure fst (referenced output ix (overrides_of ix root_id)) (base.size (entries ix)) (root_id, root)).
  destruct (closure_spec fst (referenced output ix (overrides_of ix root_id)) good_item (map_to_list (entries ix)).*1)
    with (root := (root_id, root)) (fuel := base.size (entries ix)) as (Hn & Hf & He).
  - intros e e' _ Hin. by apply referenced_item in Hin as [? _].
  - intros [a s] [b s'] Ha Hb Hab. unfold good_item in *. cbn in *. subst. congruence.
  - intros [a s] Ha. unfold good_item, symbol in Ha. cbn in Ha. destruct (entries ix !! a) as [e|] eqn:E; [|done].
    apply list_elem_of_fmap. exists (a, e). split; [done|]. by apply elem_of_map_to_list.
  - done.
  - rewrite length_fmap, length_map_to_list. done.
  - fold items in Hn, Hf, He. exists items.*1. unfold resolve_recursive. fold items.
    assert (Hgood : Forall good_item items).
    { apply Forall_forall. intros item Hin%He. by apply reached_items in Hin as [? _]. }
    split_and!.
    + clear -Hgood. induction Hgood as [|[a s] l Ha _ IH]; [done|]. cbn in *. unfold good_item in Ha. cbn in Ha. by rewrite Ha, IH.
    + by rewrite !length_fmap.
    + done.
    + by rewrite list_lookup_fmap, Hf.
    + intros id. rewrite list_elem_of_fmap. split.
      * intros ([a s] & -> & Hin%He). by apply reached_items in Hin as [_ ?].
      * intros Hu. destruct (items_reached root id Hroot Hu) as (s & _ & Hin). exists (id, s). split; [done|]. by apply He.
Qed.
End Closure.
