(* ===== verification/Refers.v ===== *)
(** * Refers: the walk of references against the syntax tree

    What [RefWalk] and [collect_references] of [inspectors/function_source.rs]
    collect for a symbol is what the tree of its own declaration holds: the
    mentions of the walk are the names of the tree ([mentions_holds]), a window
    of the source holds one declaration ([tidy_window]), and the targets of the
    walk are what the names stand for in the chain ([uses_refers]). *)
From stdpp Require Import relations.
From S2P Require Import Prelude.
From S2P Require Import Graphs.
From S2P Require Import SolcOutput.
From S2P Require Import SolcAst.
From S2P Require Import Parts.
From S2P Require Import SymbolIndex.
From S2P Require Import References.

(** ** The mentions are the names of the tree *)
Definition in_part (p : Part) : list Mention :=
  match p with
  | PDeclaration d => mentions d
  | PInvocation m => in_modifier m
  | PStatement s => in_statement s
  | PExpression e => in_expression e
  | PCall c => in_call c
  | PCallee c => in_callee c
  | PType t => in_type t
  end.
Definition in_parts : list Part -> list Mention := on_list in_part.
Definition own_name (p : Part) : list Mention := match named p with Some m => [m] | None => [] end.

Lemma in_parts_app a b : in_parts (a ++ b) = in_parts a ++ in_parts b.
Proof. unfold in_parts, on_list. by rewrite map_app, concat_app. Qed.
Lemma in_parts_map {A} (wrap : A -> Part) l : in_parts (map wrap l) = on_list (fun a => in_part (wrap a)) l.
Proof. unfold in_parts, on_list. by rewrite map_map. Qed.
Lemma in_parts_optional {A} (wrap : A -> Part) o : in_parts (optional wrap o) = on_option (fun a => in_part (wrap a)) o.
Proof. destruct o; [apply app_nil_r|done]. Qed.
Lemma in_parts_bind {A} (f : A -> list Part) (g : A -> list Mention) l :
  (forall a, in_parts (f a) = g a) -> in_parts (l ≫= f) = on_list g l.
Proof.
  intros Hf. induction l as [|a l IH]; [done|]. cbn [mbind list_bind]. rewrite in_parts_app, Hf. unfold on_list in *. cbn. by rewrite IH.
Qed.
Lemma in_parts_cons p l : in_parts (p :: l) = in_part p ++ in_parts l.
Proof. done. Qed.

Lemma in_part_expression e : in_expression e = own_name (PExpression e) ++ in_parts (expression_parts e).
Proof.
  destruct e as [call|l r|[id|] e|[id|]|l r|e|c t f|cs|b i|b i j|]; cbn [expression_parts in_expression own_name named fmap option_fmap plain];
    rewrite ?in_parts_cons, ?in_parts_optional; cbn [in_parts on_list map concat app in_part]; rewrite ?app_nil_r; try done.
  symmetry. apply in_parts_bind. intros o. apply in_parts_optional.
Qed.

Lemma in_part_statement s : in_statement s = in_parts (statement_parts s).
Proof.
  destruct s as [e|ss|c t f|init c loop body|c body|body c|e|init ds|call|call|e clauses|ss|]; cbn [statement_parts in_statement];
    rewrite ?in_parts_app, ?in_parts_cons, ?in_parts_app, ?in_parts_optional, ?in_parts_map; cbn [in_parts on_list map concat app in_part];
    rewrite ?app_nil_r; try done.
  - f_equal. symmetry. apply in_parts_bind. intros o. apply in_parts_optional.
  - f_equal. symmetry. apply in_parts_bind. intros ss. apply in_parts_map.
Qed.

Lemma in_part_declaration d : mentions d = in_parts (declaration_parts d).
Proof.
  destruct d as [f|id n src ps body|v|id n src ts|id n src|id n src ts|id n src ts|id n src t|]; cbn [mentions declaration_parts]; try done.
  - destruct (fd_body f) as [body|]; [|done]. unfold types_of. by rewrite !in_parts_app, !in_parts_map.
  - unfold types_of. by rewrite in_parts_app, !in_parts_map.
  - by rewrite in_parts_cons, in_parts_optional.
  - by rewrite in_parts_map.
  - by rewrite in_parts_map.
  - by rewrite in_parts_map.
  - symmetry. apply app_nil_r.
Qed.

Lemma elem_on_list {A} (f : A -> list Mention) l m : m ∈ on_list f l <-> exists a, a ∈ l /\ m ∈ f a.
Proof.
  unfold on_list. induction l as [|a l IH]; cbn; [rewrite elem_of_nil; split; [done|by intros (? & ?%elem_of_nil & _)]|].
  rewrite elem_of_app, IH. setoid_rewrite elem_of_cons. naive_solver.
Qed.

(** The mentions of a node are its own name and those of its parts; a call with
    options names the function it calls twice. *)
Lemma in_part_unfold p m : m ∈ in_part p <-> named p = Some m \/ exists q, q ∈ read_parts p /\ m ∈ in_part q.
Proof.
  assert (Hown : named p = Some m <-> m ∈ own_name p).
  { unfold own_name. destruct (named p); rewrite ?list_elem_of_singleton; split; [by intros [= ->]|by intros ->|done|by intros ?%elem_of_nil]. }
  rewrite Hown, <-elem_on_list, <-elem_of_app. fold (in_parts (read_parts p)).
  destruct p as [d|[n [id|] kind args]|s|e|[callee args]|[id e|id|e options|t|]|t]; cbn [in_part read_parts].
  - by rewrite in_part_declaration.
  - unfold in_modifier. cbn [mi_arguments]. rewrite in_parts_map. by destruct args.
  - unfold in_modifier. cbn [mi_arguments]. rewrite in_parts_map. by destruct args.
  - by rewrite in_part_statement.
  - by rewrite in_part_expression.
  - cbn [in_call]. by rewrite in_parts_cons, in_parts_map.
  - cbn [in_callee]. rewrite in_parts_cons, app_nil_r. by destruct id.
  - by destruct id.
  - cbn [in_callee]. rewrite in_parts_cons, in_parts_map. cbn [own_name named app in_part]. rewrite !elem_of_app.
    enough (m ∈ plain (called_id e) -> m ∈ in_expression e) by tauto. destruct e as [| |[id|] e|[id|]| | | | | | |]; cbn; set_solver.
  - destruct t as [|[id|]| | |]; done.
  - done.
  - destruct t as [e|[id|] path n|base|k v|ps rs]; cbn [in_type type_parts own_name named fmap option_fmap plain];
      rewrite ?in_parts_app, ?in_parts_map, ?in_parts_cons; cbn [in_parts on_list map concat app in_part]; by rewrite ?app_nil_r.
Qed.

(** The tree is finite. *)
Definition part_of (q p : Part) : Prop := q ∈ read_parts p.

Lemma parts_of {A} (wrap : A -> Part) l q : Forall (fun a => Acc part_of (wrap a)) l -> q ∈ map wrap l -> Acc part_of q.
Proof. intros Hl (a & -> & Ha)%list_elem_of_fmap. by eapply Forall_forall in Hl. Qed.
Lemma part_of_bind {B} (f : B -> list Part) l q :
  Forall (fun b => forall q, q ∈ f b -> Acc part_of q) l -> q ∈ l ≫= f -> Acc part_of q.
Proof. intros Hl (b & Hq & Hb)%list_elem_of_bind. eapply Forall_forall in Hl; eauto. Qed.

Fixpoint type_finite (t : TypeName) : Acc part_of (PType t).
Proof.
  constructor. unfold part_of. cbn. destruct t as [e|id path n|base|k v|ps rs]; cbn; intros q Hq.
  - by apply elem_of_nil in Hq.
  - by apply elem_of_nil in Hq.
  - apply list_elem_of_singleton in Hq as ->. apply type_finite.
  - rewrite elem_of_cons, list_elem_of_singleton in Hq. destruct Hq as [->| ->]; apply type_finite.
  - apply elem_of_app in Hq as [Hq|Hq]; (eapply parts_of; [|exact Hq]).
    + clear Hq rs. induction ps; constructor; auto.
    + clear Hq ps. induction rs; constructor; auto.
Qed.

Lemma option_finite {A} (wrap : A -> Part) o q :
  (forall a, o = Some a -> Acc part_of (wrap a)) -> q ∈ optional wrap o -> Acc part_of q.
Proof. destruct o; cbn; [|by intros _ ?%elem_of_nil]. intros Ha ->%list_elem_of_singleton. by apply Ha. Qed.

Fixpoint expression_finite (e : Expression) : Acc part_of (PExpression e)
with call_finite (c : FunctionCall) : Acc part_of (PCall c)
with callee_finite (c : Callee) : Acc part_of (PCallee c).
Proof.
  - constructor. unfold part_of. cbn. destruct e as [call|l r|id e|id|l r|e|c t f|cs|b i|b i j|]; cbn [expression_parts]; intros q Hq;
      rewrite ?elem_of_cons, ?elem_of_nil in Hq.
    + destruct Hq as [->|[]]. apply call_finite.
    + destruct Hq as [->|[->|[]]]; apply expression_finite.
    + destruct Hq as [->|[]]. apply expression_finite.
    + done.
    + destruct Hq as [->|[->|[]]]; apply expression_finite.
    + destruct Hq as [->|[]]. apply expression_finite.
    + destruct Hq as [->|[->|[->|[]]]]; apply expression_finite.
    + eapply part_of_bind; [|exact Hq]. clear q Hq. induction cs as [|o cs IH]; constructor; [|exact IH].
      intros q Hq. destruct o as [c|]; [|by apply elem_of_nil in Hq]. apply list_elem_of_singleton in Hq as ->. apply expression_finite.
    + destruct Hq as [->|Hq]; [apply expression_finite|]. destruct i as [i|]; [|by apply elem_of_nil in Hq].
      apply list_elem_of_singleton in Hq as ->. apply expression_finite.
    + destruct Hq as [->|Hq]; [apply expression_finite|]. destruct i as [i|]; [|by apply elem_of_nil in Hq].
      apply list_elem_of_singleton in Hq as ->. apply expression_finite.
    + done.
  - constructor. unfold part_of. destruct c as [callee arguments]. cbn [read_parts]. intros q [->|Hq]%elem_of_cons; [apply callee_finite|].
    eapply parts_of; [|exact Hq]. clear q Hq. induction arguments; constructor; auto.
  - constructor. unfold part_of. destruct c as [id e|id|e options|t|]; cbn [read_parts]; intros q Hq.
    + apply list_elem_of_singleton in Hq as ->. apply expression_finite.
    + by apply elem_of_nil in Hq.
    + apply elem_of_cons in Hq as [->|Hq]; [apply expression_finite|]. eapply parts_of; [|exact Hq]. clear q Hq. induction options; constructor; auto.
    + destruct t; try (by apply elem_of_nil in Hq). apply list_elem_of_singleton in Hq as ->. apply type_finite.
    + by apply elem_of_nil in Hq.
Qed.

Fixpoint statement_finite (s : Statement) : Acc part_of (PStatement s).
Proof.
  pose proof expression_finite as He. pose proof call_finite as Hcall.
  assert (Hopt : forall (o : option Expression) q, q ∈ optional PExpression o -> Acc part_of q).
  { intros o q. by apply option_finite. }
  constructor. unfold part_of. destruct s as [e|ss|c t f|init c loop body|c body|body c|e|init ds|call|call|e clauses|ss|];
    cbn [read_parts statement_parts]; intros q Hq; rewrite ?elem_of_app, ?elem_of_cons, ?elem_of_nil in Hq.
  - destruct Hq as [->|[]]. apply He.
  - eapply parts_of; [|exact Hq]. clear q Hq. induction ss; constructor; auto.
  - destruct Hq as [->|[->|Hq]]; [apply He|apply statement_finite|]. destruct f as [f|]; [|by apply elem_of_nil in Hq].
    apply list_elem_of_singleton in Hq as ->. apply statement_finite.
  - rewrite elem_of_app, list_elem_of_singleton in Hq. destruct Hq as [Hq|[->|[Hq| ->]]]; eauto.
  - destruct Hq as [->|[->|[]]]; auto.
  - destruct Hq as [->|[->|[]]]; auto.
  - eauto.
  - destruct Hq as [Hq|Hq]; [eauto|]. eapply part_of_bind; [|exact Hq]. apply Forall_true. intros o q' Hq'.
    eapply option_finite; [|exact Hq']. intros t _. apply type_finite.
  - destruct Hq as [->|[]]. apply Hcall.
  - destruct Hq as [->|[]]. apply Hcall.
  - destruct Hq as [->|Hq]; [apply He|]. eapply part_of_bind; [|exact Hq]. clear q Hq. induction clauses as [|ss cs IH]; constructor; [|done].
    intros q Hq. eapply parts_of; [|exact Hq]. clear q Hq IH. induction ss; constructor; auto.
  - eapply parts_of; [|exact Hq]. clear q Hq. induction ss; constructor; auto.
  - done.
Qed.

Lemma part_finite p : Acc part_of p.
Proof.
  assert (Hlist : forall {A} (wrap : A -> Part) l q, (forall a, Acc part_of (wrap a)) -> q ∈ map wrap l -> Acc part_of q).
  { intros A wrap l q Ha. apply parts_of, Forall_true, Ha. }
  assert (Hinv : forall m, Acc part_of (PInvocation m)).
  { intros m. constructor. intros q. apply Hlist, expression_finite. }
  destruct p as [d|m|s|e|c|c|t];
    [|apply Hinv|apply statement_finite|apply expression_finite|apply call_finite|apply callee_finite|apply type_finite].
  constructor. unfold part_of. cbn [read_parts].
  destruct d as [f|id n src ps body|v|id n src ts|id n src|id n src ts|id n src ts|id n src t|]; cbn [declaration_parts];
    unfold types_of; intros q Hq; rewrite ?elem_of_cons, ?elem_of_nil in Hq; [| | | |destruct Hq| | | |destruct Hq].
  - destruct (fd_body f); [|by apply elem_of_nil in Hq]. rewrite !elem_of_app in Hq.
    destruct Hq as [Hq|[Hq|[Hq|Hq]]]; (eapply Hlist; [|exact Hq]); intros a; [apply type_finite..|apply Hinv|apply statement_finite].
  - apply elem_of_app in Hq as [Hq|Hq]; (eapply Hlist; [|exact Hq]); intros a; [apply type_finite|apply statement_finite].
  - destruct Hq as [->|Hq]; [apply type_finite|]. eapply option_finite; [|exact Hq]. intros a _. apply expression_finite.
  - eapply Hlist; [|exact Hq]. apply type_finite.
  - eapply Hlist; [|exact Hq]. apply type_finite.
  - eapply Hlist; [|exact Hq]. apply type_finite.
  - destruct Hq as [->|[]]. apply type_finite.
Qed.

(** The mentions of a declaration are the names its tree holds. *)
Lemma mentions_holds d m : m ∈ mentions d <-> holds read_parts d m.
Proof.
  change (mentions d) with (in_part (PDeclaration d)). unfold holds. split.
  - induction (part_finite (PDeclaration d)) as [p _ IH]. intros [Hm|(q & Hq & Hm)]%in_part_unfold; [exists p; by split; [constructor|]|].
    destruct (IH q Hq Hm) as (r & Hr & Hn). exists r. split; [by eapply rtc_l|done].
  - intros (p & Hp & Hn). induction Hp as [p|p q r Hq _ IH]; apply in_part_unfold; eauto.
Qed.

(** ** A window holds one declaration

    In a tree whose declarations do not overlap, the window of a declaration
    meets that declaration only, and the entries of the index are the windows
    of declarations. *)
Definition declared (d : Declaration) : option (Z * Location) :=
  match d with
  | DFunction f => Some (fd_id f, fd_src f)
  | DVariable v => Some (vd_id v, vd_src v)
  | DModifier id _ src _ _ | DStruct id _ src _ | DEnum id _ src | DError id _ src _ | DEvent id _ src _
  | DValueType id _ src _ => Some (id, src)
  | DOther => None
  end.
Definition loc_end (l : Location) : nat := (loc_offset l + loc_length l)%nat.
Definition disjoint_locations (a b : Location) : Prop := (loc_end a <= loc_offset b)%nat \/ (loc_end b <= loc_offset a)%nat.
Definition inside (a b : Location) : Prop := (loc_offset b <= loc_offset a)%nat /\ (loc_end a <= loc_end b)%nat.

Record tidy (ast : SourceUnit) : Prop := {
  tidy_inside : forall d src, d ∈ declarations ast -> extent d = Some src ->
    exists id l, declared d = Some (id, l) /\ inside src l /\ (0 < loc_length src)%nat;
  tidy_disjoint : forall i j d d' a b, (i <> j)%nat -> declarations ast !! i = Some d -> declarations ast !! j = Some d' ->
    declared d = Some a -> declared d' = Some b -> disjoint_locations a.2 b.2;
}.

Lemma tidy_window ast d id l d' : tidy ast -> d ∈ declarations ast -> declared d = Some (id, l) ->
  d' ∈ declarations ast -> within (loc_offset l) (loc_end l) d' = true -> d' = d.
Proof.
  intros Ht (i & Hi)%list_elem_of_lookup_1 Hd (j & Hj)%list_elem_of_lookup_1 Hw.
  unfold within in Hw. destruct (extent d') as [src|] eqn:He; [|done].
  apply andb_true_iff in Hw as [H1%Nat.ltb_lt H2%Nat.ltb_lt].
  destruct (tidy_inside _ Ht d' src) as (id' & l' & Hd' & [Ha Hb] & _); [by eapply list_elem_of_lookup_2|done|].
  destruct (decide (i = j)) as [->|Hij]; [congruence|].
  pose proof (tidy_disjoint _ Ht i j d d' (id, l) (id', l') Hij Hi Hj Hd Hd') as [H|H];
    unfold loc_end in *; cbn in *; lia.
Qed.

(** An entry that is not of a contract is the window of a declaration. *)
Definition window_of (output : Sources) (k : Z) (e : IndexEntry) : Prop :=
  exists file ast d l, (file, Some ast) ∈ output /\ d ∈ declarations ast /\ declared d = Some (k, l) /\
    ie_file e = file /\ ie_offset e = loc_offset l /\ ie_length e = loc_length l.
Definition entry_from (output : Sources) (k : Z) (e : IndexEntry) : Prop :=
  is_contract (ie_kind e) = true \/ window_of output k e.
Definition index_from (output : Sources) (ix : SymbolIndex) : Prop :=
  forall k e, entries ix !! k = Some e -> entry_from output k e.

Lemma push_from output e ix : entry_from output (ie_id e) e -> index_from output ix -> index_from output (push e ix).
Proof. intros He Hix k x. cbn. rewrite lookup_insert_Some. intros [[<- <-]|[_ Hx]]; [done|by apply Hix]. Qed.

Lemma grown_from output e ix ix' : grown e ix ix' -> entry_from output (ie_id e) e -> index_from output ix -> index_from output ix'.
Proof. intros [He _ _] Hf Hix k x. rewrite He. exact (push_from output e ix Hf Hix k x). Qed.

Lemma index_declaration_from output file owner ix d ast : (file, Some ast) ∈ output -> d ∈ declarations ast ->
  index_from output ix -> index_from output (index_declaration file owner ix d).
Proof.
  intros Hf Hd Hix.
  assert (Hw : forall e l, declared d = Some (ie_id e, l) -> ie_file e = file -> ie_offset e = loc_offset l ->
    ie_length e = loc_length l -> entry_from output (ie_id e) e).
  { intros e l ????. right. by exists file, ast, d, l. }
  destruct d; cbn [index_declaration];
    [eapply grown_from; [apply grown_function|by eapply Hw|done]| |eapply grown_from; [apply grown_variable|by eapply Hw|done]| | | | | |done];
    try (eapply grown_from; [exact (grown_track owner (declaration _ _ _ file owner _) ix)|by eapply Hw|done]).
  destruct owner as [[c n']|]; [|done].
  eapply grown_from; [exact (grown_track (Some (c, n')) (modifier_entry _ _ _ _ file _) ix)|by eapply Hw|done].
Qed.

Lemma foldl_ok_elem {A B} (P : A -> Prop) (f : A -> B -> A) l :
  (forall a b, b ∈ l -> P a -> P (f a b)) -> forall a, P a -> P (foldl f a l).
Proof.
  induction l as [|b l IH]; intros Hf a Ha; [done|]. cbn. apply IH; [|apply Hf; [left|done]].
  intros a' b' Hb. apply Hf. by right.
Qed.

Lemma index_node_from output file ast n ix : (file, Some ast) ∈ output -> n ∈ ast ->
  index_from output ix -> index_from output (index_node file ix n).
Proof.
  intros Hf Hn Hix.
  assert (Hin : forall d, d ∈ node_declarations n -> d ∈ declarations ast).
  { intros d Hd. apply list_elem_of_bind. by exists n. }
  destruct n as [c|d].
  - unfold index_node, index_contract. apply foldl_ok_elem; [intros ix' d Hd; eapply index_declaration_from; [exact Hf|by apply Hin]|].
    apply foldl_ok; [by intros [????] [? [?|]] ?|]. intros k e He. apply (push_from output (contract_entry c file) ix) with (k := k); [by left|done|done].
  - destruct d; try (apply (index_declaration_from output file None ix _ ast Hf); [apply Hin; left|done]). done.
Qed.

Lemma build_from output : index_from output (build output).
Proof.
  unfold build. apply foldl_ok_elem; [|intros k e He; cbn in He; by apply lookup_empty_Some in He].
  intros ix [file [ast|]] Hs Hix; [|done]. unfold index_source. cbn [fst snd].
  apply foldl_ok_elem; [|done]. intros ix' n Hn. by eapply index_node_from.
Qed.

(** The paths of an output are different, and its trees are tidy. *)
Record tidy_output (output : Sources) : Prop := {
  tidy_paths : NoDup (path_key <$> output.*1);
  tidy_asts : forall file ast, (file, Some ast) ∈ output -> tidy ast;
}.

Lemma get_path_elem {A} (l : list (string * A)) p x :
  NoDup (path_key <$> l.*1) -> (p, x) ∈ l -> get_path p l = Some x.
Proof.
  unfold get_path. induction l as [|[q y] l IH]; cbn; [by intros _ ?%elem_of_nil|].
  intros [Hq Hn]%NoDup_cons [[= -> ->]|Hin]%elem_of_cons; [by rewrite bool_decide_true|].
  rewrite bool_decide_false; [by apply IH|]. intros Hk. apply Hq. rewrite Hk. apply list_elem_of_fmap. exists p.
  split; [done|]. apply list_elem_of_fmap. by exists (p, x).
Qed.

Lemma get_path_in {A} p (l : list (string * A)) x : get_path p l = Some x -> exists q, (q, x) ∈ l.
Proof.
  unfold get_path. destruct (find _ l) as [[q y]|] eqn:E; [|done]. intros [= ->].
  apply find_some in E as [Hin _]. exists q. by apply list_elem_of_In.
Qed.

(** ** What a declaration refers to

    The specification, on the syntax tree alone: the declaration of a symbol
    holds a name, and the name stands for another symbol. *)
Section Refers.
Variables (parts : Part -> list Part) (output : Sources) (ix : SymbolIndex).

Definition indexed (id : Z) : Prop := is_Some (entries ix !! id).
Definition contract_of_symbol (id : Z) : option Z := e ← entries ix !! id; ie_contract_id e.
Definition names_base (kind : option ModifierKind) (id : Z) : Prop :=
  kind = Some MkBaseConstructor \/ kind = None /\ exists e, entries ix !! id = Some e /\ is_contract (ie_kind e) = true.

(** What a name stands for in the chain of [c]: an unqualified call the function
    that overrides the one it names, an invocation of a base the contract and
    its constructor, any other the declaration it names. *)
Inductive stands_for (c : option Z) : Mention -> Z -> Prop :=
| stands_plain id : indexed id -> stands_for c (Plain id) id
| stands_override c' id best : c = Some c' -> overridden ix c' id best -> stands_for c (Called id) best
| stands_called id : indexed id -> (forall c' best, c = Some c' -> ~ overridden ix c' id best) -> stands_for c (Called id) id
| stands_invoked kind id : indexed id -> stands_for c (Invoked kind id) id
| stands_constructor kind id k :
    names_base kind id -> constructors ix !! id = Some k -> indexed k -> stands_for c (Invoked kind id) k.

(** The declaration [d] is the one of the symbol [a]; contracts contribute their
    headers only. *)
Definition declares (a : Z) (d : Declaration) : Prop :=
  exists s ast, symbol ix a = Some s /\ is_contract (rs_kind s) = false /\ ast_of output (rs_file s) = Some ast /\
    d ∈ declarations ast /\ declared d = Some (a, mkLocation (rs_offset s) (rs_length s)).

Definition refers (root a b : Z) : Prop :=
  exists d m, declares a d /\ holds parts d m /\ stands_for (contract_of_symbol root) m b.
End Refers.

Lemma known_elem ix id x : x ∈ known ix id <-> x = id /\ indexed ix id.
Proof.
  unfold known, indexed. destruct (entries ix !! id); [rewrite list_elem_of_singleton|rewrite elem_of_nil]; split; [done|by intros [-> _]|done|].
  by intros [_ [? ?]].
Qed.

Lemma names_base_spec ix kind id : is_base_constructor (mkInvocation "" (Some id) kind None) ix = true <-> names_base ix kind id.
Proof.
  unfold is_base_constructor, names_base. cbn. destruct kind as [[|]|]; cbn.
  - split; [done|]. by intros [?|[? _]].
  - split; [by left|done].
  - destruct (entries ix !! id) as [e|]; (split; [intros He; right|]).
    + split; [done|]. by exists e.
    + by intros [?|(_ & ? & [= ->] & ?)].
    + done.
    + by intros [?|(_ & ? & ? & _)].
Qed.

Lemma overrides_redirect ix root id best :
  redirect (overrides_of ix root) ix id = Some best <-> exists c, contract_of_symbol ix root = Some c /\ overridden ix c id best.
Proof.
  unfold overrides_of, contract_of_symbol. destruct (e ← entries ix !! root; ie_contract_id e) as [c|].
  - rewrite redirect_overridden. split; [by exists c|]. by intros (? & [= <-] & ?).
  - split; [|by intros (? & ? & _)]. unfold redirect, table_empty. destruct (entries ix !! id) as [e|]; cbn; [|done]. case_match; [|done].
    destruct (ie_contract_id e); cbn; [|done]. by rewrite bool_decide_false by set_solver.
Qed.

Lemma targets_stand ix root m x :
  x ∈ targets ix (overrides_of ix root) m <-> stands_for ix (contract_of_symbol ix root) m x.
Proof.
  destruct m as [id|id|kind id]; cbn [targets].
  - rewrite known_elem. split; [intros [-> ?]; by constructor|by inversion 1; subst].
  - destruct (redirect (overrides_of ix root) ix id) as [best|] eqn:E.
    + rewrite list_elem_of_singleton. apply overrides_redirect in E as Ho. destruct Ho as (c & Hc & Ho). split.
      * intros ->. by eapply stands_override.
      * inversion 1 as [|c' ? ? Hc' Ho'|? ? Hno| |]; subst.
        -- assert (redirect (overrides_of ix root) ix id = Some x) by (apply overrides_redirect; eauto). congruence.
        -- by destruct (Hno c best).
    + rewrite known_elem. split.
      * intros [-> Hi]. constructor; [done|]. intros c best Hc Ho.
        assert (redirect (overrides_of ix root) ix id = Some best) by (apply overrides_redirect; eauto). congruence.
      * inversion 1 as [|c' ? ? Hc' Ho'| | |]; subst; [|done].
        assert (redirect (overrides_of ix root) ix id = Some x) by (apply overrides_redirect; eauto). congruence.
  - rewrite elem_of_app, known_elem. split.
    + intros [[-> ?]|Hx]; [by constructor|]. destruct (is_base_constructor _ ix) eqn:Hb; [|by apply elem_of_nil in Hx].
      destruct (constructors ix !! id) as [k|] eqn:Hk; [|by apply elem_of_nil in Hx]. apply known_elem in Hx as [-> ?].
      eapply stands_constructor; [by apply names_base_spec|done..].
    + inversion 1 as [| | | |? ? ? Hb Hk Hi]; subst; [by left|right]. apply names_base_spec in Hb. rewrite Hb, Hk. by apply known_elem.
Qed.

Lemma mentions_extent d m : m ∈ mentions d -> is_Some (extent d).
Proof. destruct d as [f| | | | | | | |]; cbn; try (by eexists); [|by intros ?%elem_of_nil..].
  destruct (fd_body f) as [body|]; [by eexists|by intros ?%elem_of_nil].
Qed.

(** What the walk finds in the source of a symbol is what the declaration of
    that symbol refers to. *)
Lemma uses_refers output root a b : tidy_output output ->
  uses output (build output) root a b <-> refers read_parts output (build output) root a b.
Proof.
  intros Ht. split.
  - intros (s & ast & Hs & Hk & Ha & d & m & Hd & Hw & Hm & Hb). exists d, m. split_and!; [|by apply mentions_holds|by apply targets_stand].
    exists s, ast. split_and!; [done..|]. unfold symbol in Hs. destruct (entries (build output) !! a) as [e|] eqn:He; simplify_eq/=.
    destruct (build_from output a e He) as [Hc|(file & ast' & d' & l & Hf & Hd' & Hl & <- & Ho & Hn)]; [congruence|].
    unfold ast_of in Ha. rewrite (get_path_elem output (ie_file e) (Some ast')) in Ha; [|apply Ht|done]. simplify_eq/=.
    rewrite Ho, Hn in *. destruct l as [o n]. cbn in *. replace d with d'; [done|]. symmetry.
    by eapply tidy_window; [eapply Ht|exact Hd'|exact Hl|done|exact Hw].
  - intros (d & m & (s & ast & Hs & Hk & Ha & Hd & Hl) & Hm%mentions_holds & Hb%targets_stand). exists s, ast. split_and!; [done..|].
    exists d, m. split_and!; [done| |done..]. destruct (mentions_extent d m Hm) as [src He]. unfold within. rewrite He.
    assert (Htidy : tidy ast).
    { unfold ast_of in Ha. destruct (get_path (rs_file s) output) as [o|] eqn:Hp; simplify_eq/=.
      apply get_path_in in Hp as (file & Hp). by eapply Ht. }
    destruct (tidy_inside _ Htidy d src Hd He) as (id & l & Hl' & [H1 H2] & H3). simplify_eq. unfold loc_end in *. cbn in *.
    unfold overlaps. apply andb_true_iff. split; apply Nat.ltb_lt; lia.
Qed.

(** Where no listed declaration has a part that is left out, the list is closed
    under every name. *)
Lemma refers_all output ix root (ids : list Z) :
  (forall id, id ∈ ids <-> rtc (refers read_parts output ix root) root id) ->
  (forall id d p, id ∈ ids -> declares output ix id d -> below read_parts (PDeclaration d) p -> unread_parts p = []) ->
  forall id, id ∈ ids <-> rtc (refers all_parts output ix root) root id.
Proof.
  intros Hids Hu.
  assert (Hstep : forall a b, a ∈ ids -> refers all_parts output ix root a b <-> refers read_parts output ix root a b).
  { intros a b Ha. split; intros (d & m & Hd & Hm & Hb); exists d, m; (split_and!; [done| |done]); (apply holds_all; [|done]); eauto. }
  intros id. rewrite Hids. split; revert id; apply rtc_ind_r; try constructor.
  - intros y z Hy Hyz IH. eapply rtc_r; [exact IH|]. apply Hstep; [by apply Hids|done].
  - intros y z _ Hyz IH. eapply rtc_r; [exact IH|]. apply Hstep; [by apply Hids|done].
Qed.

(** What the walk leaves out: the types of a function without a body, the end of
    an index range, and the type of the elements of a new array. *)
Definition struct_parameter : VariableDeclaration :=
  mkVariable 2 "p" (mkLocation 0 0) (TyUserDefined (Some 1) None None) None VInternal None None.
Definition bodyless : Declaration :=
  DFunction (mkFunctionDef 3 "f" (mkLocation 0 9) (Some KFunction) false VExternal false (Some true) false None
    [struct_parameter] [] [] None).
Definition value_of (e : Expression) : Declaration :=
  DVariable (mkVariable 4 "v" (mkLocation 0 9) (TyElementary ElBool) None VInternal None (Some e)).

(** [holds] by a path to the name. *)
Ltac holds_at p := exists p; split; [|reflexivity].
Ltac down q := apply rtc_l with (y := q); [apply list_elem_of_In; cbn; tauto|].

Example bodyless_function_unreferenced : mentions bodyless = [] /\ holds all_parts bodyless (Plain 1).
Proof. split; [done|]. holds_at (PType (TyUserDefined (Some 1) None None)). down (PType (TyUserDefined (Some 1) None None)). constructor. Qed.

Example range_end_unreferenced :
  let d := value_of (EIndexRangeAccess (EIdentifier (Some 1)) None (Some (EIdentifier (Some 2)))) in
  mentions d = [Plain 1] /\ holds all_parts d (Plain 2).
Proof.
  split; [done|]. holds_at (PExpression (EIdentifier (Some 2))).
  down (PExpression (EIndexRangeAccess (EIdentifier (Some 1)) None (Some (EIdentifier (Some 2))))).
  down (PExpression (EIdentifier (Some 2))). constructor.
Qed.

Example new_array_unreferenced :
  let t := TyUserDefined (Some 1) None None in
  let d := value_of (EFunctionCall (mkFunctionCall (CNewExpression (TyArray t)) [])) in
  mentions d = [] /\ holds all_parts d (Plain 1).
Proof.
  intros t. split; [done|]. holds_at (PType t).
  down (PExpression (EFunctionCall (mkFunctionCall (CNewExpression (TyArray t)) []))).
  down (PCall (mkFunctionCall (CNewExpression (TyArray t)) [])). down (PCallee (CNewExpression (TyArray t))).
  down (PType (TyArray t)). down (PType t). constructor.
Qed.
