(* ===== verification/SourceText.v ===== *)
(** * SourceText: declarations cut out of their sources

    Models the text half of [inspectors/function_source.rs]: the comment before
    a declaration, its indentation, its slice, its line and the names in the
    headings. A [str] is its bytes; [chars] groups them into characters, since
    the code counts characters where it slices bytes. A slice that cuts a
    character is a panic. *)
From S2P Require Import Prelude.
From S2P Require Import Paths.
From S2P Require Import SourceMap.
From S2P Require Import SolcOutput.
From S2P Require Import SolcAst.
From S2P Require Import SymbolIndex.

(** ** Characters *)
Definition is_continuation (a : ascii) : bool := let n := nat_of_ascii a in (128 <=? n)%nat && (n <? 192)%nat.

Fixpoint chars (s : string) : list string :=
  match s with
  | EmptyString => []
  | String a rest =>
      let cs := chars rest in
      match rest, cs with
      | String b _, c :: cs' => if is_continuation b then String a c :: cs' else String a "" :: cs
      | _, _ => [String a ""]
      end
  end.

Definition text_of (cs : list string) : string := String.concat "" cs.

(** [char::is_whitespace]: the Unicode property, on the bytes of a character. *)
Definition codes (c : string) : list nat := map nat_of_ascii (String.list_ascii_of_string c).
Definition is_space_char (c : string) : bool :=
  match codes c with
  | [n] => (n =? 32)%nat || ((9 <=? n)%nat && (n <=? 13)%nat)
  | [194; n] => (n =? 133)%nat || (n =? 160)%nat
  | [225; 154; 128] => true
  | [226; 128; n] => (n <=? 138)%nat || (n =? 168)%nat || (n =? 169)%nat || (n =? 175)%nat
  | [226; 129; 159] => true
  | [227; 128; 128] => true
  | _ => false
  end%nat.

Fixpoint drop_spaces (cs : list string) : list string :=
  match cs with c :: rest => if is_space_char c then drop_spaces rest else cs | [] => [] end.
Fixpoint take_spaces (cs : list string) : list string :=
  match cs with c :: rest => if is_space_char c then c :: take_spaces rest else [] | [] => [] end.
Definition trim_chars (cs : list string) : list string := reverse (drop_spaces (reverse (drop_spaces cs))).
Definition str_trim (s : string) : string := text_of (trim_chars (chars s)).
Definition str_trim_end (s : string) : string := text_of (reverse (drop_spaces (reverse (chars s)))).

(** [writeln!] *)
Definition NL : string := String NEWLINE "".
Definition writeln (s : string) : string := s +:+ NL.

(** ** Slices *)
Definition is_char_boundary (s : string) (n : nat) : bool :=
  match String.get n s with Some a => negb (is_continuation a) | None => (n =? String.length s)%nat end.
Definition BOUNDARY : string := "byte index is not a char boundary".
Definition slice_to (s : string) (n : nat) : Res string :=
  if is_char_boundary s n then Ok (str_take n s) else Panic BOUNDARY.
Definition slice_from (s : string) (n : nat) : Res string :=
  if is_char_boundary s n then Ok (str_drop n s) else Panic BOUNDARY.

Definition clamp (s : string) (offset : nat) : nat := (offset `min` String.length s)%nat.

(** [content[start..end].to_owned()] *)
Definition slice (content : string) (offset len : nat) : Res string :=
  let start := clamp content offset in
  let stop := ((start + len) `min` String.length content)%nat in
  up_to ← slice_to content stop;
  slice_from up_to start.

Definition line_of (content : string) (offset : nat) : Res Z :=
  prefix ← slice_to content (clamp content offset);
  mret (newlines prefix + 1).

(** [rfind('\n')] and the text after it. *)
Definition last_line (s : string) : string := match rsplit NEWLINE s with Some (_, l) => l | None => s end.
Definition base_indent (content : string) (offset : nat) : Res nat :=
  prefix ← slice_to content (clamp content offset);
  mret (length (take_spaces (chars (last_line prefix)))).

Definition unlines (ls : list string) : string := text_of (map (fun l => l +:+ String NEWLINE "") ls).

(** Characters are counted, bytes are cut. *)
Definition dedent_line (base : nat) (line : string) : Res string :=
  slice_from line (length (take_spaces (chars line)) `min` base)%nat.
Definition dedent (text : string) (base : nat) : Res string :=
  if (base =? 0)%nat then Ok text else ls ← mapRes (dedent_line base) (lines text); mret (unlines ls).

Definition BRACE : ascii := "{".
Definition contract_header (content : string) (offset : nat) : Res string :=
  remaining ← slice_from content (clamp content offset);
  mret (str_trim_end (match split_once BRACE remaining with Some (header, _) => header | None => remaining end)).

(** ** The comment before a declaration *)
Definition is_blank (line : string) : bool := String.eqb (str_trim line) "".
Definition is_doc (line : string) : bool := starts_with "///" (str_trim line).
Definition opens_block (line : string) : bool := starts_with "/*" (str_trim line).
Definition in_block (line : string) : bool := opens_block line || starts_with "*" (str_trim line).

(** The lines from the last to the first; [acc] holds those taken. *)
Fixpoint natspec_lines (reversed acc : list string) : list string :=
  match reversed with
  | [] => acc
  | line :: rest =>
      if is_doc line then natspec_lines rest (line :: acc)
      else if in_block line then if opens_block line then line :: acc else natspec_lines rest (line :: acc)
      else if is_blank line then natspec_lines rest (line :: acc)
      else acc
  end.
Fixpoint drop_blank (ls : list string) : list string :=
  match ls with l :: rest => if is_blank l then drop_blank rest else ls | [] => [] end.
Definition strip_blank (ls : list string) : list string := drop_blank (reverse (drop_blank (reverse ls))).

Definition extract_natspec (content : string) (offset : nat) : Res string :=
  prefix ← (if (String.length content <? offset)%nat then Ok content else slice_to content offset);
  mret (unlines (strip_blank (natspec_lines (reverse (lines prefix)) []))).

(** ** [@inheritdoc] *)
Definition INHERITDOC : string := "/// @inheritdoc".
Definition inheritdoc_line (natspec : string) : option string :=
  find (fun l => starts_with INHERITDOC (str_trim l)) (lines natspec).
Definition last_piece (c : ascii) (s : string) : string := match rsplit c s with Some (_, q) => q | None => s end.
Definition first_piece (c : ascii) (s : string) : string := match split_once c s with Some (p, _) => p | None => s end.

(** The contract that the directive names and the function of the symbol. *)
Definition inherited_contract (natspec : string) : option string :=
  line ← inheritdoc_line natspec;
  rest ← strip_prefix INHERITDOC (str_trim line);
  Some (last_piece "." (str_trim rest)).
Definition inherited_function (symbol : string) : option string :=
  after ← split_on "." symbol !! 1%nat;
  let n := first_piece "(" after in
  if String.eqb n "" then None else Some n.

Section Inheritdoc.
Variables (ix : SymbolIndex) (sources : list (string * string)).

Fixpoint inherited_natspec (candidates : list (Z * string)) (n natspec : string) : Res string :=
  match candidates with
  | [] => Ok natspec
  | (c, _) :: rest =>
      match (e ← member_function ix c n; content ← get_path (ie_file e) sources; Some (e, content)) with
      | None => inherited_natspec rest n natspec
      | Some (e, content) =>
          resolved ← extract_natspec content (ie_offset e);
          if String.eqb resolved "" then Ok natspec
          else base ← base_indent content (ie_offset e); dedent resolved base
      end
  end.

Definition resolve_inheritdoc (symbol natspec : string) : Res string :=
  match (c ← inherited_contract natspec; n ← inherited_function symbol; cs ← SymbolIndex.contracts ix !! c; Some (n, cs)) with
  | None => Ok natspec
  | Some (n, cs) => inherited_natspec cs n natspec
  end.
End Inheritdoc.

(** ** Names in headings *)
Definition after_dot (s : string) : string := match split_once "." s with Some (_, r) => r | None => s end.
Definition display_name (symbol : string) (k : SymbolKind) : string :=
  match k with
  | Function => first_piece "(" (after_dot symbol)
  | Variable_ => after_dot symbol
  | _ => symbol
  end.
Definition contract_of (symbol : string) : string := first_piece "." symbol.

(** ** Text and characters *)
Lemma text_of_cons c cs : text_of (c :: cs) = c +:+ text_of cs.
Proof. destruct cs; [symmetry; apply str_app_nil|done]. Qed.

Lemma text_of_app a b : text_of (a ++ b) = text_of a +:+ text_of b.
Proof. induction a as [|c a IH]; [done|]. cbn [app]. by rewrite !text_of_cons, IH, str_app_assoc. Qed.

Lemma chars_text s : text_of (chars s) = s.
Proof.
  induction s as [|a s IH]; [done|]. cbn [chars]. destruct s as [|b s]; [done|].
  destruct (chars (String b s)) as [|c cs]; [done|]. rewrite text_of_cons in IH.
  destruct (is_continuation b); rewrite !text_of_cons; exact (f_equal (String a) IH).
Qed.

(** A text that begins with a character, or is empty. *)
Definition starts_char (s : string) : bool :=
  match s with String b _ => negb (is_continuation b) | EmptyString => true end.

Lemma chars_cons a s : starts_char s = true -> chars (String a s) = String a "" :: chars s.
Proof.
  intros Hs. cbn [chars]. destruct s as [|b s]; [done|]. cbn in Hs. apply negb_true_iff in Hs. rewrite Hs.
  pose proof (chars_text (String b s)) as Ht. destruct (chars (String b s)); [discriminate Ht|done].
Qed.

Lemma chars_app a b : starts_char b = true -> chars (a +:+ b) = chars a ++ chars b.
Proof.
  intros Hb. induction a as [|x a IH]; [done|]. destruct a as [|y a].
  - change (String x "" +:+ b) with (String x b). by rewrite chars_cons.
  - change (String x (String y a) +:+ b) with (String x (String y a +:+ b)).
    change (chars (String x (String y a +:+ b))) with
      (match chars (String y a +:+ b) with
       | c :: cs' => if is_continuation y then String x c :: cs' else String x "" :: chars (String y a +:+ b)
       | [] => [String x ""] end).
    rewrite IH. change (chars (String x (String y a))) with
      (match chars (String y a) with
       | c :: cs' => if is_continuation y then String x c :: cs' else String x "" :: chars (String y a)
       | [] => [String x ""] end).
    pose proof (chars_text (String y a)) as Ht. destruct (chars (String y a)) as [|c cs]; [discriminate Ht|].
    cbn [app]. by destruct (is_continuation y).
Qed.

Fixpoint indent (n : nat) (s : string) : string := match n with O => s | S n => String " " (indent n s) end.

Lemma starts_char_indent n s : starts_char s = true -> starts_char (indent n s) = true.
Proof. by destruct n. Qed.

Lemma chars_indent n s : starts_char s = true -> chars (indent n s) = replicate n " " ++ chars s.
Proof.
  intros Hs. induction n as [|n IH]; [done|]. cbn [indent replicate app]. rewrite chars_cons by (by apply starts_char_indent).
  by rewrite IH.
Qed.

Lemma take_spaces_indent n cs : (n <= length (take_spaces (replicate n " " ++ cs)))%nat.
Proof.
  induction n as [|n IH]; cbn [replicate app take_spaces length]; [lia|].
  change (is_space_char " ") with true. cbn [length]. lia.
Qed.

Lemma str_drop_indent n s : str_drop n (indent n s) = s.
Proof. induction n as [|n IH]; [by destruct s|done]. Qed.

Lemma boundary_indent n s : starts_char s = true -> is_char_boundary (indent n s) n = true.
Proof.
  intros Hs. unfold is_char_boundary. induction n as [|n IH]; cbn [indent String.get String.length]; [|exact IH].
  destruct s as [|b s]; [done|exact Hs].
Qed.

Lemma dedent_line_indent n s : starts_char s = true -> dedent_line n (indent n s) = Ok s.
Proof.
  intros Hs. unfold dedent_line. rewrite chars_indent by done. rewrite Nat.min_r by apply take_spaces_indent.
  unfold slice_from. by rewrite boundary_indent, str_drop_indent.
Qed.

(** ** Lines *)

(** A line of a text: no newline, no carriage return at its end. *)
Definition line_ok (l : string) : bool :=
  negb (has_char NEWLINE l) && negb (ends_with_char CARRIAGE_RETURN l) && starts_char l.

Lemma strip_cr_none l : ends_with_char CARRIAGE_RETURN l = false -> strip_cr l = l.
Proof.
  induction l as [|a l IH]; [done|]. cbn. destruct l as [|b l]; [by intros ->|]. intros H. f_equal. by apply IH.
Qed.

Lemma unlines_cons l ls : unlines (l :: ls) = l +:+ String NEWLINE (unlines ls).
Proof. unfold unlines. cbn [map]. rewrite text_of_cons, str_app_assoc. done. Qed.

Lemma lines_unlines ls : Forall (fun l => line_ok l = true) ls -> lines (unlines ls) = ls.
Proof.
  unfold lines. induction 1 as [|l ls Hl _ IH]; [done|]. rewrite unlines_cons.
  apply andb_true_iff in Hl as [[Hn%negb_true_iff Hc%negb_true_iff]%andb_true_iff _].
  rewrite split_on_app by done. destruct (split_on NEWLINE (unlines ls)) as [|p ps] eqn:E.
  - by destruct (unlines ls) as [|b u]; cbn in E; repeat case_match.
  - change (strip_cr l :: line_ends (p :: ps) = l :: ls). by rewrite IH, strip_cr_none.
Qed.

Lemma indent_no_char c n s : c <> " "%char -> has_char c (indent n s) = has_char c s.
Proof.
  intros Hc. induction n as [|n IH]; [done|]. rewrite <-IH. unfold has_char. cbn [indent str_all].
  destruct (Ascii.eqb_spec " " c) as [E|_]; [by symmetry in E|done].
Qed.

Lemma indent_ends c n s : c <> " "%char -> ends_with_char c (indent n s) = ends_with_char c s.
Proof.
  intros Hc. induction n as [|n IH]; [done|]. rewrite <-IH. cbn [indent ends_with_char].
  destruct (indent n s) as [|a r]; [|done].
  change (Ascii.eqb " " c = false). apply Ascii.eqb_neq. congruence.
Qed.

Lemma line_ok_indent n l : line_ok l = true -> line_ok (indent n l) = true.
Proof.
  unfold line_ok. rewrite indent_no_char, indent_ends by done. intros [H Hs]%andb_true_iff. by rewrite H, starts_char_indent.
Qed.

Lemma dedent_indent n ls : Forall (fun l => line_ok l = true) ls ->
  dedent (unlines (map (indent n) ls)) n = Ok (unlines ls).
Proof.
  intros Hls. unfold dedent. destruct (Nat.eqb_spec n 0) as [->|Hn]; [by rewrite map_id|].
  rewrite lines_unlines.
  - assert (Hm : forall ls, Forall (fun l => line_ok l = true) ls -> mapRes (dedent_line n) (map (indent n) ls) = Ok ls).
    { clear ls Hls. induction 1 as [|l ls Hl _ IH]; [done|]. cbn. rewrite dedent_line_indent; [by rewrite IH|].
      by apply andb_true_iff in Hl as [_ ?]. }
    by rewrite Hm.
  - apply Forall_map. eapply Forall_impl; [exact Hls|]. intros l. apply line_ok_indent.
Qed.

(** ** Slices *)
Lemma boundary_app a b : starts_char b = true -> is_char_boundary (a +:+ b) (String.length a) = true.
Proof.
  intros Hb. unfold is_char_boundary. rewrite str_length_app. induction a as [|x a IH]; [|exact IH].
  destruct b as [|y b]; [done|exact Hb].
Qed.

Lemma slice_to_app a b : starts_char b = true -> slice_to (a +:+ b) (String.length a) = Ok a.
Proof. intros Hb. unfold slice_to. by rewrite boundary_app, str_take_app. Qed.

Lemma slice_from_app a b : starts_char b = true -> slice_from (a +:+ b) (String.length a) = Ok b.
Proof. intros Hb. unfold slice_from. by rewrite boundary_app, str_drop_app. Qed.

Lemma clamp_app a b : clamp (a +:+ b) (String.length a) = String.length a.
Proof. unfold clamp. rewrite str_length_app. lia. Qed.

(** The range of a part of a text is sliced to that part. *)
Lemma slice_part a b c : starts_char b = true -> starts_char c = true ->
  slice (a +:+ b +:+ c) (String.length a) (String.length b) = Ok b.
Proof.
  intros Hb Hc. unfold slice. rewrite clamp_app, <-str_app_assoc, <-str_length_app.
  rewrite Nat.min_l by (rewrite !str_length_app; lia). rewrite slice_to_app by done. cbn.
  by apply slice_from_app.
Qed.

Lemma line_of_part a b : starts_char b = true -> line_of (a +:+ b) (String.length a) = Ok (newlines a + 1).
Proof. intros Hb. unfold line_of. rewrite clamp_app, slice_to_app by done. done. Qed.

(** ** The comment before a declaration *)

(** A line that the search takes without stopping at it. *)
Definition continues (l : string) : bool := is_doc l || (in_block l && negb (opens_block l)).
(** A line that the search stops before. *)
Definition stops (l : string) : bool := negb (is_doc l || in_block l || is_blank l).

Lemma blank_no_comment l : is_blank l = true -> is_doc l = false /\ in_block l = false.
Proof. unfold is_blank, is_doc, in_block, opens_block. intros ->%String.eqb_eq. done. Qed.

Lemma comment_not_blank l : is_doc l || in_block l = true -> is_blank l = false.
Proof. intros H. destruct (is_blank l) eqn:E; [|done]. apply blank_no_comment in E as [E1 E2]. by rewrite E1, E2 in H. Qed.

Lemma continues_comment l : continues l = true -> is_doc l || in_block l = true.
Proof. unfold continues. destruct (is_doc l), (in_block l); done. Qed.

Lemma natspec_blanks bs rest acc : Forall (fun l => is_blank l = true) bs ->
  natspec_lines (bs ++ rest) acc = natspec_lines rest (reverse bs ++ acc).
Proof.
  intros H. revert acc. induction H as [|b bs Hb _ IH]; intros acc; [done|]. cbn [app natspec_lines].
  destruct (blank_no_comment b Hb) as [-> ->]. rewrite Hb, IH. f_equal. by rewrite reverse_cons, <-app_assoc.
Qed.

Lemma natspec_continues ls rest acc : Forall (fun l => continues l = true) ls ->
  natspec_lines (ls ++ rest) acc = natspec_lines rest (reverse ls ++ acc).
Proof.
  intros H. revert acc. induction H as [|l ls Hl _ IH]; intros acc; [done|]. cbn [app natspec_lines].
  rewrite reverse_cons, <-app_assoc. cbn [app]. unfold continues in Hl. destruct (is_doc l); [apply IH|].
  cbn in Hl. apply andb_true_iff in Hl as [-> ->%negb_true_iff]. apply IH.
Qed.

Lemma drop_blank_none ls : (forall l, head ls = Some l -> is_blank l = false) -> drop_blank ls = ls.
Proof. destruct ls as [|l ls]; [done|]. intros H. cbn. by rewrite (H l). Qed.

Lemma drop_blanks bs ls : Forall (fun l => is_blank l = true) bs -> drop_blank (bs ++ ls) = drop_blank ls.
Proof. induction 1 as [|b bs Hb _ IH]; [done|]. cbn. by rewrite Hb. Qed.

Lemma strip_blank_doc doc bs : Forall (fun l => is_blank l = true) bs ->
  Forall (fun l => is_blank l = false) doc -> strip_blank (doc ++ bs) = doc.
Proof.
  intros Hb Hd. assert (Hhead : forall d l, Forall (fun l => is_blank l = false) d -> head d = Some l -> is_blank l = false).
  { intros d l. induction 1; [done|]. by intros [= <-]. }
  unfold strip_blank. rewrite reverse_app, drop_blanks by (by apply Forall_reverse).
  rewrite (drop_blank_none (reverse doc)) by (intros l; apply Hhead; by apply Forall_reverse).
  rewrite reverse_involutive. apply drop_blank_none. intros l. by apply Hhead.
Qed.

(** The comment is the lines of [///], up to a line that is code, or a block
    comment whose other lines begin with a star. *)
Definition comment_of (before doc : list string) : Prop :=
  (Forall (fun l => continues l = true) doc /\ (forall l, last before = Some l -> stops l = true)) \/
  (exists o ls, doc = o :: ls /\ opens_block o = true /\ is_doc o = false /\ Forall (fun l => continues l = true) ls).

Lemma comment_not_blanks before doc : comment_of before doc -> Forall (fun l => is_blank l = false) doc.
Proof.
  assert (Hc : forall ls, Forall (fun l => continues l = true) ls -> Forall (fun l => is_blank l = false) ls).
  { intros ls Hls. apply (Forall_impl _ _ _ Hls). intros l Hl. by apply comment_not_blank, continues_comment. }
  intros [[Hd _]|(o & ls & -> & Ho & _ & Hls)]; [auto|]. constructor; [|auto].
  apply comment_not_blank. unfold in_block. by rewrite Ho, orb_true_r.
Qed.

Lemma natspec_lines_comment before doc blanks : comment_of before doc -> Forall (fun l => is_blank l = true) blanks ->
  natspec_lines (reverse (before ++ doc ++ blanks)) [] = doc ++ blanks.
Proof.
  intros Hc Hb. rewrite !reverse_app, <-app_assoc, natspec_blanks by (by apply Forall_reverse).
  rewrite reverse_involutive, app_nil_r. destruct Hc as [[Hd Hs]|(o & ls & -> & Ho & Hno & Hls)].
  - rewrite natspec_continues, reverse_involutive by (by apply Forall_reverse).
    destruct before as [|l before _] using rev_ind; [done|]. rewrite reverse_app. cbn.
    specialize (Hs l (last_snoc _ _)). unfold stops in Hs. apply negb_true_iff in Hs.
    apply orb_false_iff in Hs as [[-> ->]%orb_false_iff ->]. done.
  - rewrite reverse_cons, <-app_assoc, natspec_continues, reverse_involutive by (by apply Forall_reverse).
    cbn [app natspec_lines]. unfold in_block. by rewrite Hno, Ho.
Qed.

Lemma extract_natspec_comment content offset prefix before doc blanks :
  (offset <= String.length content)%nat -> slice_to content offset = Ok prefix ->
  lines prefix = before ++ doc ++ blanks -> comment_of before doc -> Forall (fun l => is_blank l = true) blanks ->
  extract_natspec content offset = Ok (unlines doc).
Proof.
  intros Ho Hp Hl Hc Hb. unfold extract_natspec. rewrite (proj2 (Nat.ltb_ge _ _)) by done. rewrite Hp. cbn.
  rewrite Hl, natspec_lines_comment by done. by rewrite strip_blank_doc; [|done|eapply comment_not_blanks].
Qed.

(** Whatever is extracted is a block of lines, and all of them are comments or
    blank. *)
Lemma natspec_lines_split reversed : forall acc, exists taken rest, reversed = taken ++ rest /\
  natspec_lines reversed acc = reverse taken ++ acc /\ Forall (fun l => stops l = false) taken.
Proof.
  assert (Hnil : forall l (acc : list string), exists taken rest, l = taken ++ rest /\ acc = reverse taken ++ acc /\ Forall (fun l => stops l = false) taken)
    by (intros l acc; by exists [], l).
  induction reversed as [|l rest IH]; intros acc; [by apply Hnil|]. cbn [natspec_lines].
  assert (Htake : stops l = false -> exists taken rest', l :: rest = taken ++ rest' /\
    natspec_lines rest (l :: acc) = reverse taken ++ acc /\ Forall (fun l => stops l = false) taken).
  { intros Hl. destruct (IH (l :: acc)) as (t & r & -> & E & Ht). exists (l :: t), r. rewrite E, reverse_cons, <-app_assoc. auto. }
  unfold stops in Htake. destruct (is_doc l) eqn:E1; [by apply Htake|]. destruct (in_block l) eqn:E2.
  - destruct (opens_block l); [|by apply Htake]. exists [l], rest. split_and!; [done..|]. constructor; [|done].
    unfold stops. by rewrite E2, orb_true_r.
  - destruct (is_blank l); [by apply Htake|apply Hnil].
Qed.

Lemma drop_blank_suffix ls : exists bs, ls = bs ++ drop_blank ls.
Proof. induction ls as [|l ls [bs IH]]; [by exists []|]. cbn. destruct (is_blank l); [exists (l :: bs); cbn; by f_equal|by exists []]. Qed.

Lemma extract_natspec_block content offset t : extract_natspec content offset = Ok t ->
  exists prefix before ls after, lines prefix = before ++ ls ++ after /\ t = unlines ls /\
    (slice_to content offset = Ok prefix \/ prefix = content) /\ Forall (fun l => stops l = false) ls.
Proof.
  unfold extract_natspec. intros (prefix & Hp & [= <-])%Res_bind_Ok.
  destruct (natspec_lines_split (reverse (lines prefix)) []) as (taken & rest & Hr & -> & Ht).
  rewrite app_nil_r. apply (f_equal reverse) in Hr. rewrite reverse_involutive, reverse_app in Hr.
  unfold strip_blank. rewrite reverse_involutive.
  destruct (drop_blank_suffix taken) as [after Ha]. destruct (drop_blank_suffix (reverse (drop_blank taken))) as [before' Hb].
  exists prefix, (reverse rest ++ before'), (drop_blank (reverse (drop_blank taken))), (reverse after). split_and!.
  - rewrite Hr. rewrite Ha at 1. rewrite reverse_app. rewrite Hb at 1. by rewrite <-!app_assoc.
  - done.
  - destruct (_ <? _)%nat; [injection Hp as ->; by right|by left].
  - assert (H : Forall (fun l => stops l = false) (reverse (drop_blank taken))).
    { apply Forall_reverse. rewrite Ha in Ht. by apply Forall_app in Ht as [_ ?]. }
    rewrite Hb in H. by apply Forall_app in H as [_ ?].
Qed.

(** ** Names *)
Lemma split_once_dot c n : has_char "." c = false -> split_once "." (c +:+ "." +:+ n) = Some (c, n).
Proof. intros Hc. by rewrite <-(split_once_app "." c n Hc). Qed.

Lemma first_piece_app c p q : has_char c p = false -> first_piece c (p +:+ String c q) = p.
Proof. intros Hp. unfold first_piece. by rewrite split_once_app. Qed.

(** The headings show the name of a declaration: of a member of a contract, and
    of a free function if no parameter has a qualified type. *)
Lemma display_name_entry e :
  has_char "." (ie_contract e) = false -> has_char "(" (ie_name e) = false ->
  (ie_contract e = "" -> has_char "." (symbol_text e) = false) ->
  display_name (symbol_text e) (ie_kind e) = ie_name e.
Proof.
  intros Hc Hn Hfree. unfold display_name, symbol_text in *. destruct (ie_kind e) eqn:Hk; try done.
  - destruct (String.eqb_spec (ie_contract e) "") as [E|_].
    + unfold after_dot. rewrite split_once_none by auto. by apply (first_piece_app "(").
    + unfold after_dot. rewrite !str_app_assoc, split_once_dot by done. by apply (first_piece_app "(").
  - destruct (String.eqb_spec (ie_contract e) "") as [E|_].
    + unfold after_dot. by rewrite split_once_none by auto.
    + unfold after_dot. by rewrite split_once_dot.
Qed.

(** ** Evaluations *)

(** A free function whose parameter has a qualified type. *)
Example free_function_heading : display_name "f(Lib.Point)" Function = "Point)".
Proof. done. Qed.

(** A line of a block comment without a star ends the search: the opening of
    the comment is lost. *)
Example block_comment_cut :
  extract_natspec ("/** Pays." +:+ NL +:+ " and more" +:+ NL +:+ " */" +:+ NL +:+ "function f()") 24 = Ok (" */" +:+ NL).
Proof. done. Qed.

(** One no-break space of indentation is one character and two bytes. *)
Definition nbsp : string := String "194" (String "160" "").
Example dedent_cuts_character : dedent ("x" +:+ NL +:+ nbsp +:+ "y") 1 = Panic BOUNDARY.
Proof. done. Qed.

(** The offsets are those of the text without carriage returns, in which the
    slice is taken; the comment is looked up in the text as it was read. *)
Definition crlf : string := String CARRIAGE_RETURN NL.
Definition spread (nl : string) : string := text_of (replicate 12 nl) +:+ "/// Pays." +:+ nl +:+ "function f() {}".
Example crlf_natspec_missed :
  slice (spread NL) 22 15 = Ok "function f() {}" /\
  extract_natspec (spread NL) 22 = Ok ("/// Pays." +:+ NL) /\ extract_natspec (spread crlf) 22 = Ok "".
Proof. vm_compute. done. Qed.

(** ** A comment is read back

    The text before a declaration: lines, its comment and its indentation. *)
Lemma chars_indent_empty n : chars (indent n "") = replicate n " ".
Proof. rewrite chars_indent by done. apply app_nil_r. Qed.

Lemma take_spaces_all n : take_spaces (replicate n " ") = replicate n " ".
Proof. induction n as [|n IH]; [done|]. cbn [replicate take_spaces]. change (is_space_char " ") with true. cbn. by rewrite IH. Qed.

Lemma drop_spaces_all n cs : drop_spaces (replicate n " " ++ cs) = drop_spaces cs.
Proof. induction n as [|n IH]; [done|]. cbn [replicate app drop_spaces]. by change (is_space_char " ") with true. Qed.

Lemma str_trim_indent n s : starts_char s = true -> str_trim (indent n s) = str_trim s.
Proof. intros Hs. unfold str_trim, trim_chars. by rewrite chars_indent, drop_spaces_all. Qed.

Lemma comment_indent n l : starts_char l = true ->
  is_doc (indent n l) = is_doc l /\ in_block (indent n l) = in_block l /\ opens_block (indent n l) = opens_block l.
Proof. intros Hs. unfold in_block, opens_block, is_doc. by rewrite str_trim_indent. Qed.

Lemma unlines_app a b : unlines (a ++ b) = unlines a +:+ unlines b.
Proof. unfold unlines. by rewrite map_app, text_of_app. Qed.

Lemma last_line_unlines ls t : has_char NEWLINE t = false -> last_line (unlines ls +:+ t) = t.
Proof.
  intros Ht. assert (Hall : str_all (fun a => negb (Ascii.eqb a NEWLINE)) t)
    by (unfold has_char in Ht; apply negb_false_iff in Ht; by rewrite Ht).
  unfold last_line. destruct ls as [|l ls _] using rev_ind.
  - change (unlines [] +:+ t) with t. by rewrite (rsplit_none _ t Hall).
  - rewrite unlines_app, unlines_cons, !str_app_assoc. change (String NEWLINE (unlines []) +:+ t) with (String NEWLINE t).
    by rewrite <-str_app_assoc, rsplit_app.
Qed.

(** The lines of whole lines followed by an indentation. *)
Lemma lines_indented ls n : Forall (fun l => line_ok l = true) ls ->
  exists blanks, lines (unlines ls +:+ indent n "") = ls ++ blanks /\ Forall (fun l => is_blank l = true) blanks.
Proof.
  unfold lines. induction 1 as [|l ls Hl _ (bs & IH & Hb)].
  - exists (if (n =? 0)%nat then [] else [indent n ""]). change (unlines [] +:+ indent n "") with (indent n "").
    rewrite split_on_none by (by rewrite indent_no_char). cbn [line_ends]. destruct n as [|n]; [done|].
    split; [done|]. constructor; [|done]. unfold is_blank. by rewrite str_trim_indent.
  - exists bs. split; [|done]. rewrite unlines_cons, str_app_assoc.
    change (String NEWLINE (unlines ls) +:+ indent n "") with (String NEWLINE (unlines ls +:+ indent n "")).
    apply andb_true_iff in Hl as [[Hn%negb_true_iff Hc%negb_true_iff]%andb_true_iff _]. rewrite split_on_app by done.
    destruct (split_on NEWLINE (unlines ls +:+ indent n "")) as [|p ps] eqn:E.
    + by destruct (unlines ls +:+ indent n "") as [|b u]; cbn in E; repeat case_match.
    + change (strip_cr l :: line_ends (p :: ps) = l :: ls ++ bs). by rewrite IH, strip_cr_none.
Qed.

Lemma comment_of_indent n before doc : Forall (fun l => line_ok l = true) doc ->
  comment_of before doc -> comment_of before (map (indent n) doc).
Proof.
  intros Hok. assert (Hs : Forall (fun l => starts_char l = true) doc).
  { apply (Forall_impl _ _ _ Hok). by intros l [_ ?]%andb_true_iff. }
  assert (Hc : forall ls, Forall (fun l => starts_char l = true) ls -> Forall (fun l => continues l = true) ls ->
    Forall (fun l => continues l = true) (map (indent n) ls)).
  { induction 1 as [|l ls Hl _ IH]; intros Hls; [constructor|]. apply Forall_cons in Hls as [Hd Hls].
    constructor; [|by apply IH]. unfold continues in *. by destruct (comment_indent n l Hl) as (-> & -> & ->). }
  intros [[Hd Hb]|(o & ls & -> & Ho & Hno & Hls)]; [left; auto|right].
  apply Forall_cons in Hs as [Hso Hs]. destruct (comment_indent n o Hso) as (E1 & _ & E3).
  exists (indent n o), (map (indent n) ls). rewrite E1, E3. auto.
Qed.

(** The comment of a declaration, cut from the source and without the
    indentation of the declaration, is the comment as it was written. *)
Theorem natspec_written_read n before doc decl :
  let text := unlines before +:+ unlines (map (indent n) doc) +:+ indent n "" in
  let content := text +:+ decl in
  let offset := String.length text in
  Forall (fun l => line_ok l = true) before -> Forall (fun l => line_ok l = true) doc ->
  starts_char decl = true -> comment_of before doc ->
  extract_natspec content offset = Ok (unlines (map (indent n) doc)) /\
  base_indent content offset = Ok n /\ dedent (unlines (map (indent n) doc)) n = Ok (unlines doc).
Proof.
  intros text content offset Hb Hd Hdecl Hc.
  assert (Hslice : slice_to content offset = Ok text) by (by apply slice_to_app).
  assert (Htext : text = unlines (before ++ map (indent n) doc) +:+ indent n "") by (by rewrite unlines_app, str_app_assoc).
  split_and!.
  - destruct (lines_indented (before ++ map (indent n) doc) n) as (blanks & Hl & Hbl).
    { apply Forall_app. split; [done|]. apply Forall_map. apply (Forall_impl _ _ _ Hd). intros l. apply line_ok_indent. }
    eapply extract_natspec_comment; [|exact Hslice| |by apply comment_of_indent|exact Hbl].
    + unfold content, offset. rewrite str_length_app. lia.
    + by rewrite Htext, Hl, <-app_assoc.
  - unfold base_indent, content, offset. rewrite clamp_app. fold content offset. rewrite Hslice. cbn.
    rewrite Htext, last_line_unlines by (by rewrite indent_no_char). by rewrite chars_indent_empty, take_spaces_all, length_replicate.
  - by apply dedent_indent.
Qed.

Lemma natspec_written_read_witness :
  let doc := ["/// Pays."; "/// @param to who"] in
  let text := unlines ["contract C {"] +:+ unlines (map (indent 4) doc) +:+ indent 4 "" in
  extract_natspec (text +:+ "function pay(address to) {}") (String.length text) = Ok (unlines (map (indent 4) doc)) /\
  dedent (unlines (map (indent 4) doc)) 4 = Ok (unlines doc).
Proof.
  intros doc text.
  destruct (natspec_written_read 4 ["contract C {"] doc "function pay(address to) {}") as (H1 & _ & H3).
  - repeat constructor.
  - repeat constructor.
  - reflexivity.
  - left. split; [repeat constructor|]. intros l [= <-]. reflexivity.
  - exact (conj H1 H3).
Defined.
