(* ===== verification/CompiledTarget.v ===== *)
(** * CompiledTarget: what the inspectors read of a compilation

    Models the result of [inspectors/compile.rs] and its lookup of the target.
    Running the compiler and making paths canonical is I/O that is left out: a
    [CompiledTarget] is what it produced. Maps of the output are lists in their
    order. *)
From S2P Require Import Prelude.
From S2P Require Import Compare.
From S2P Require Import HarnessId.
From S2P Require Import SolcOutput.
From S2P Require Import SolcAst.

(** ** The ABI and the storage layout *)
Inductive AbiParam : Type := mkAbiParam (ty : string) (components : option (list AbiParam)) (internal_type : option string).
Inductive Mutability : Type := MPure | MView | MNonpayable | MPayable.
Record AbiFunction : Type := mkAbiFunction { af_name : string; af_inputs : list AbiParam; af_mutability : Mutability }.
Inductive AbiItem : Type :=
| IFunction (f : AbiFunction) | IReceive | IFallback (mutability : Mutability) | IOther.

Record StorageEntry : Type := mkStorageEntry { se_label : string; se_slot : string; se_offset : Z; se_type : string }.
Record StorageTypeInfo : Type := mkStorageTypeInfo { st_label : string; st_bytes : string }.
Record StorageLayout : Type := mkStorageLayout {
  sl_storage : list StorageEntry; sl_types : option (list (string * StorageTypeInfo)) }.

Record ContractOutput : Type := mkContractOutput {
  co_abi : option (list AbiItem);
  co_methods : option (list (string * string));
  co_layout : option StorageLayout;
}.

Record CompiledTarget : Type := mkCompiled {
  ct_output : Sources;
  ct_contracts : list (string * list (string * ContractOutput));
  ct_sources : list (string * string);
  ct_source_path : string;
}.

(** ** The target contract *)
Definition target_contract (c : CompiledTarget) (target : HarnessId) : Res ContractOutput :=
  names ← context (get_path (ct_source_path c) (ct_contracts c))
            ("contract file `" +:+ ct_source_path c +:+ "` not found in compilation output");
  context (get_name (name target) names)
    ("contract `" +:+ name target +:+ "` not found in `" +:+ ct_source_path c +:+ "`, available contracts: "
     +:+ String.concat ", " (sort_by String.compare names.*1)).

(** [resolve_out_dir] *)
Definition resolve_out_dir (root out : string) : string := Paths.join root out.

Lemma target_contract_Ok c target o : target_contract c target = Ok o <->
  exists names, get_path (ct_source_path c) (ct_contracts c) = Some names /\ get_name (name target) names = Some o.
Proof.
  unfold target_contract. destruct (get_path _ _) as [names|]; cbn; [|by split; [|intros (? & ? & _)]].
  destruct (get_name _ names) as [o'|] eqn:E; cbn.
  - split; [intros [= ->]; by exists names|]. intros (? & [= <-] & Ho). by rewrite Ho in E; injection E as ->.
  - split; [done|]. intros (? & [= <-] & Ho). by rewrite Ho in E.
Qed.
