(* ===== verification/SourceInspector.v ===== *)
(** * SourceInspector: the source of a function with all it refers to

    Models [FunctionSourceInspector] and its report
    ([inspectors/function_source.rs]): the function of a selector in the chain
    of the target, the declarations it reaches, their comments, and the text of
    the report. *)
From stdpp Require Import relations sorting.
From S2P Require Import Prelude.
From S2P Require Import Compare.
From S2P Require Import Paths.
From S2P Require Import SourceMap.
From S2P Require Import HarnessId.
From S2P Require Import SolcOutput.
From S2P Require Import CoverageReport.
From S2P Require Import SolcAst.
From S2P Require Import Parts.
From S2P Require Import SymbolIndex.
From S2P Require Import References.
From S2P Require Import Refers.
From S2P Require Import SourceText.
From S2P Require Import CompiledTarget.

(** ** The root *)
Definition is_hexdigit (a : ascii) : bool :=
  let n := nat_of_ascii a in
  ((48 <=? n) && (n <=? 57) || (65 <=? n) && (n <=? 70) || (97 <=? n) && (n <=? 102))%nat.

Definition strip_0x (s : string) : string :=
  match strip_prefix "0x" s with Some r => r | None => default s (strip_prefix "0X" s) end.
Definition selector_text (selector : string) : Res string :=
  let hex := to_lowercase (strip_0x (str_trim selector)) in
  _ ← ensure ((String.length hex =? 8)%nat && str_all is_hexdigit hex)
        ("selector must be 8 hex characters, got `" +:+ selector +:+ "`");
  mret hex.

Definition find_contract_id (ix : SymbolIndex) (c : CompiledTarget) (target : HarnessId) : Res Z :=
  context (candidates ← SymbolIndex.contracts ix !! name target;
           fst <$> find (fun kv => bool_decide (path_key kv.2 = path_key (ct_source_path c))) candidates)
    ("contract `" +:+ name target +:+ "` not found in the compiled AST of `" +:+ ct_source_path c +:+ "`").

(** The first member of the chain with the selector. *)
Definition has_selector (hex : string) (me : Z * IndexEntry) : bool := bool_decide (ie_selector me.2 = Some hex).
Definition find_selector (ix : SymbolIndex) (c : Z) (hex : string) : option (Z * IndexEntry) :=
  find (has_selector hex) (ancestors ix c ≫= member_entries ix).

Definition pair_cmp (a b : string * string) : comparison :=
  then_with (String.compare a.1 b.1) (String.compare a.2 b.2).
Definition available_selectors (o : ContractOutput) : string :=
  String.concat NL (map (fun kv => "  " +:+ kv.2 +:+ "  " +:+ kv.1) (sort_by pair_cmp (default [] (co_methods o)))).

Definition resolve_root (target : HarnessId) (selector : string) (c : CompiledTarget) (ix : SymbolIndex)
    : Res (ResolvedSymbol * Z) :=
  hex ← selector_text selector;
  o ← target_contract c target;
  id ← find_contract_id ix c target;
  match find_selector ix id hex with
  | Some (m, e) => mret (entry_symbol e, m)
  | None =>
      Err ("selector `" +:+ hex +:+ "` not found in contract `" +:+ name target +:+ "`, available selectors:" +:+ NL
           +:+ available_selectors o)
  end.

(** ** The report *)
Record Rendered : Type := mkRendered { rd_resolved : ResolvedSymbol; rd_natspec : string }.
Record FunctionSourceOutput : Type := mkReport { fo_symbols : list Rendered; fo_sources : list (string * string) }.
Definition symbols (r : FunctionSourceOutput) : list ResolvedSymbol := map rd_resolved (fo_symbols r).

Definition render (ix : SymbolIndex) (sources : list (string * string)) (s : ResolvedSymbol) : Res Rendered :=
  let content := get_path (rs_file s) sources in
  raw ← match content with Some source => extract_natspec source (rs_offset s) | None => Ok "" end;
  natspec ← resolve_inheritdoc ix sources (rs_symbol s) raw;
  natspec ← match content with
            | Some source => base ← base_indent source (rs_offset s); dedent natspec base
            | None => Ok natspec
            end;
  mret (mkRendered s natspec).

Definition normalize_source (content : string) : string := remove_all (String CARRIAGE_RETURN "") content.

(** [inspect], after the compilation. *)
Definition inspect (c : CompiledTarget) (target : HarnessId) (selector : string) : Res FunctionSourceOutput :=
  let ix := build (ct_output c) in
  r ← resolve_root target selector c ix;
  let '(root, root_id) := r in
  rendered ← mapRes (render ix (ct_sources c)) (resolve_recursive root root_id (ct_output c) ix);
  mret (mkReport rendered (map (fun kv => (kv.1, normalize_source kv.2)) (ct_sources c))).

(** ** Its text *)
Definition shown_name (s : ResolvedSymbol) : string := display_name (rs_symbol s) (rs_kind s).

Definition write_section (sources : list (string * string)) (r : Rendered) (root : bool) : Res string :=
  let s := rd_resolved r in
  let head := if root then "" else writeln ("## " +:+ heading (rs_kind s) +:+ ": `" +:+ shown_name s +:+ "`") +:+ writeln "" in
  match get_path (rs_file s) sources with
  | None =>
      mret (head +:+ writeln ("Source path: `" +:+ rs_file s +:+ "`") +:+ writeln "" +:+ writeln "```solidity"
            +:+ writeln "// unable to read" +:+ writeln "```")
  | Some content =>
      line ← line_of content (rs_offset s);
      base ← base_indent content (rs_offset s);
      text ← (if is_contract (rs_kind s) then contract_header content (rs_offset s)
              else slice content (rs_offset s) (rs_length s));
      text ← dedent text base;
      mret (head +:+ writeln ("Source path: `" +:+ rs_file s +:+ ":" +:+ fmt_dec line +:+ "`") +:+ writeln ""
            +:+ writeln "```solidity"
            +:+ (if String.eqb (rd_natspec r) "" then "" else writeln (str_trim_end (rd_natspec r)))
            +:+ writeln (str_trim_end text) +:+ writeln "```")
  end.

Definition section_cmp (a b : Rendered) : comparison :=
  let sa := rd_resolved a in
  let sb := rd_resolved b in
  then_with (String.compare (heading (rs_kind sa)) (heading (rs_kind sb)))
    (then_with (String.compare (to_lowercase (shown_name sa)) (to_lowercase (shown_name sb)))
      (then_with (path_cmp (rs_file sa) (rs_file sb)) (Z.compare (Z.of_nat (rs_offset sa)) (Z.of_nat (rs_offset sb))))).

Definition report_title (root : ResolvedSymbol) : string :=
  writeln ("# " +:+ contract_of (rs_symbol root) +:+ " - " +:+ shown_name root +:+ " Source Code") +:+ writeln "".
Definition separator : string := writeln "" +:+ writeln "---" +:+ writeln "".

Definition display_report (r : FunctionSourceOutput) : Res string :=
  match fo_symbols r with
  | [] => Ok ""
  | root :: rest =>
      first ← write_section (fo_sources r) root true;
      others ← mapRes (fun s => write_section (fo_sources r) s false) (sort_by section_cmp rest);
      mret (report_title (rd_resolved root) +:+ first +:+ text_of (map (fun t => separator +:+ t) others))
  end.

(** ** The root is the nearest member with the selector *)

Lemma find_selector_nearest ix c hex m e : find_selector ix c hex = Some (m, e) ->
  nearest_member ix c (fun e => ie_selector e = Some hex) m /\ entries ix !! m = Some e.
Proof.
  intros Hf. destruct (find_member_nearest ix c (fun e => bool_decide (ie_selector e = Some hex)) m e Hf) as (Hn & He & _).
  split; [|done]. eapply nearest_member_iff; [|exact Hn]. intros x. cbn. by rewrite bool_decide_eq_true.
Qed.

Lemma resolve_root_Ok target selector c ix s m : resolve_root target selector c ix = Ok (s, m) ->
  exists hex id e, selector_text selector = Ok hex /\ find_contract_id ix c target = Ok id /\
    find_selector ix id hex = Some (m, e) /\ s = entry_symbol e /\ symbol ix m = Some s.
Proof.
  unfold resolve_root. intros (hex & Hh & (o & _ & (id & Hid & Hr)%Res_bind_Ok)%Res_bind_Ok)%Res_bind_Ok.
  destruct (find_selector ix id hex) as [[m' e]|] eqn:E; [|done]. injection Hr as <- <-. exists hex, id, e. split_and!; [done..|].
  unfold symbol. by apply find_selector_nearest in E as [_ ->].
Qed.

(** ** The report is complete *)
Lemma render_symbol ix sources s r : render ix sources s = Ok r -> rd_resolved r = s.
Proof.
  unfold render. intros (raw & _ & (n & _ & (n' & _ & [= <-])%Res_bind_Ok)%Res_bind_Ok)%Res_bind_Ok. done.
Qed.

Lemma mapRes_render ix sources ss : forall rs, mapRes (render ix sources) ss = Ok rs -> map rd_resolved rs = ss.
Proof.
  induction ss as [|s ss IH]; intros rs; cbn; [by intros [= <-]|].
  intros (r & Hr%render_symbol & (rs' & Hrs%IH & [= <-])%Res_bind_Ok)%Res_bind_Ok. cbn. by rewrite Hr, Hrs.
Qed.

Lemma inspect_Ok c target selector report : inspect c target selector = Ok report ->
  let ix := build (ct_output c) in
  exists root m, resolve_root target selector c ix = Ok (root, m) /\
    symbols report = resolve_recursive root m (ct_output c) ix.
Proof.
  unfold inspect. intros ([root m] & Hr & (rs & Hrs%mapRes_render & [= <-])%Res_bind_Ok)%Res_bind_Ok. by exists root, m.
Qed.

(** C36: The report on a selector lists the member of the chain that carries it,
    the first by the length of the path of bases and then from the left, and what
    is reached from its declaration by reference, each symbol once and nothing
    else: the names held by the tree of a declaration, in all of its parts but
    three that are left out (what a function without a body declares, the end of
    an index range, the elements of a new array), where an unqualified call
    stands for the nearest override in the chain of the contract that declares
    the function. A listed contract is not entered. When no listed declaration
    has such a part, the list is closed under every name of the trees. The
    declarations of a file do not overlap and hold their bodies, and its path is
    named once ([tidy_output]). *)
Theorem function_source_complete c target selector report :
  inspect c target selector = Ok report -> tidy_output (ct_output c) ->
  let ix := build (ct_output c) in
  exists hex contract root ids,
    selector_text selector = Ok hex /\ find_contract_id ix c target = Ok contract /\
    nearest_member ix contract (fun e => ie_selector e = Some hex) root /\
    symbols report = omap (symbol ix) ids /\ length ids = length (symbols report) /\ NoDup ids /\ ids !! 0%nat = Some root /\
    (forall id, id ∈ ids <-> rtc (refers read_parts (ct_output c) ix root) root id) /\
    ((forall id d p, id ∈ ids -> declares (ct_output c) ix id d -> below read_parts (PDeclaration d) p -> unread_parts p = []) ->
      forall id, id ∈ ids <-> rtc (refers all_parts (ct_output c) ix root) root id).
Proof.
  intros Hi Ht ix. apply inspect_Ok in Hi as (s & root & Hr & Hs).
  apply resolve_root_Ok in Hr as (hex & contract & e & Hhex & Hc & Hf & _ & Hsym). apply find_selector_nearest in Hf as [Hnear _].
  destruct (resolve_recursive_closure (ct_output c) ix root s Hsym) as (ids & E & Hlen & Hn & H0 & Hids).
  assert (Hread : forall id, id ∈ ids <-> rtc (refers read_parts (ct_output c) ix root) root id).
  { intros id. rewrite Hids. split; intros Hx; (eapply rtc_subrel; [|exact Hx]); intros a b; by apply uses_refers. }
  fold ix in Hs. exists hex, contract, root, ids. rewrite Hs. split_and!; [done..|]. intros Hall. by apply refers_all.
Qed.

(** ** A compilation

    [contract Token is IToken, Base] where [Base] implements [IToken]: [run] of
    [Base] calls [hook], which [Token] overrides. *)
Definition loc (a b : nat) : Location := mkLocation a b.
Definition toy_function (id : Z) (n : string) (src : Location) (sel : option string) (body : option Block) : Declaration :=
  DFunction (mkFunctionDef id n src (Some KFunction) false VExternal (bool_decide (is_Some body)) (Some true) false sel [] [] [] body).
Definition toy_call (id : Z) : Statement := SExpression (EFunctionCall (mkFunctionCall (CIdentifier (Some id)) [])).
Definition toy_read (id : Z) : Statement := SExpression (EIdentifier (Some id)).
Definition toy_unit : SourceUnit := [
  UContract (mkContractDef 1 "IToken" (loc 200 30) KInterface None false []
    [toy_function 2 "pay" (loc 210 10) (Some "0c11dedd") None]);
  UContract (mkContractDef 3 "Base" (loc 0 100) KContract None true [("IToken", Some 1)]
    [toy_function 4 "run" (loc 10 15) (Some "c0406226") (Some (mkBlock (loc 15 10) [toy_call 5]));
     toy_function 5 "hook" (loc 30 15) None (Some (mkBlock (loc 35 10) [toy_read 6]));
     DVariable (mkVariable 6 "total" (loc 50 10) (TyElementary (ElUint 256)) (Some "uint256") VInternal None None);
     toy_function 7 "pay" (loc 70 15) (Some "0c11dedd") (Some (mkBlock (loc 75 10) [toy_call 5]))]);
  UContract (mkContractDef 8 "Token" (loc 300 100) KContract None true [("IToken", Some 1); ("Base", Some 3)]
    [toy_function 9 "hook" (loc 310 15) None (Some (mkBlock (loc 315 10) []))])].
Definition toy_compiled : CompiledTarget :=
  mkCompiled [("src/Token.sol", Some toy_unit)]
    [("src/Token.sol", [("Token", mkContractOutput None None None)])]
    [("src/Token.sol", "/// Runs." +:+ NL +:+ "function run() { hook(); }")] "src/Token.sol".
Definition toy_target : HarnessId := mkHarnessId "src/Token.sol" "Token".

Definition toy_report : FunctionSourceOutput :=
  match inspect toy_compiled toy_target "0xC0406226" with Ok r => r | _ => mkReport [] [] end.

Lemma toy_tidy : tidy_output (ct_output toy_compiled).
Proof.
  split; [apply NoDup_singleton|]. intros file ast [= -> ->]%list_elem_of_singleton. split.
  - intros d src Hd%list_elem_of_In He. cbn in Hd. repeat (destruct Hd as [<-|Hd]; [first [discriminate He|injection He as <-; do 2 eexists; split; [reflexivity|cbv; lia]]|]).
    done.
  - assert (Hsix : forall i d, declarations toy_unit !! i = Some d ->
      (i = 0 \/ i = 1 \/ i = 2 \/ i = 3 \/ i = 4 \/ i = 5)%nat).
    { intros i d Hi%lookup_lt_Some. cbn in Hi. lia. }
    intros i j d d' a b Hij Hi Hj. pose proof (Hsix i d Hi) as Ei. pose proof (Hsix j d' Hj) as Ej. clear Hsix.
    repeat (destruct Ei as [->|Ei]); try subst i; repeat (destruct Ej as [->|Ej]); try subst j; try done;
      injection Hi as <-; injection Hj as <-; intros [= <-] [= <-]; cbv; lia.
Qed.

Lemma function_source_complete_witness :
  let ix := build (ct_output toy_compiled) in
  map rs_symbol (symbols toy_report) = ["Base.run()"; "Base.hook()"; "Base.total"] /\
  exists root ids, symbols toy_report = omap (symbol ix) ids /\ ids !! 0%nat = Some root /\
    forall id, id ∈ ids <-> rtc (refers read_parts (ct_output toy_compiled) ix root) root id.
Proof.
  split; [vm_compute; reflexivity|].
  assert (H : inspect toy_compiled toy_target "0xC0406226" = Ok toy_report) by (vm_compute; reflexivity).
  destruct (function_source_complete _ _ _ _ H toy_tidy) as (hex & k & root & ids & _ & _ & _ & Hs & _ & _ & H0 & Hids & _).
  exists root, ids. auto.
Defined.

(** The overrides are those of the contract that declares the function: in the
    report on [Token] above, [run] of [Base] reaches [hook] of [Base], though
    the table of [Token] redirects that call to its own. *)
Example inherited_function_not_redirected :
  redirect (table_build (build (ct_output toy_compiled)) 8) (build (ct_output toy_compiled)) 5 = Some 9 /\
  redirect (overrides_of (build (ct_output toy_compiled)) 4) (build (ct_output toy_compiled)) 5 = None.
Proof. split; vm_compute; reflexivity. Qed.

(** The bases are searched breadth first and from the left: the declaration of
    an interface that is named before the base that implements it is taken for
    the function. *)
Example interface_shadows_implementation :
  (match inspect toy_compiled toy_target "0c11dedd" with Ok r => map rs_symbol (symbols r) | _ => [] end) = ["IToken.pay()"].
Proof. vm_compute. reflexivity. Qed.
