(* ===== verification/Tables.v ===== *)
(** * Tables: the padded tables of the inspectors

    Models [write_table] and [write_row], which
    [inspectors/external_functions.rs] and [inspectors/storage_layout.rs] both
    have. Widths are byte lengths and padding counts characters; a row longer
    than the header is an index out of range. *)
From S2P Require Import Prelude.
From S2P Require Import Paths.
From S2P Require Import SourceMap.
From S2P Require Import SourceText.

Definition char_count (s : string) : nat := length (chars s).
(** [{cell:<width$}] and [{cell:>width$}] *)
Definition pad_right (width : nat) (s : string) : string := s +:+ indent (width - char_count s) "".
Definition pad_left (width : nat) (s : string) : string := indent (width - char_count s) s.

Definition write_cell (widths : list nat) (icell : nat * string) : Res string :=
  width ← vec_index widths icell.1;
  mret (" " +:+ (if (icell.1 =? 0)%nat then pad_left width icell.2 else pad_right width icell.2) +:+ " |").
Definition write_row (cells : list string) (widths : list nat) : Res string :=
  texts ← mapRes (write_cell widths) (enumerate cells);
  mret ("|" +:+ text_of texts +:+ NL).

(** Columns widened by the cells of a row. *)
Fixpoint widen (widths : list nat) (row : list string) : Res (list nat) :=
  match row, widths with
  | [], _ => Ok widths
  | _ :: _, [] => Panic "index out of bounds"
  | cell :: row, w :: widths => rest ← widen widths row; mret ((w `max` String.length cell)%nat :: rest)
  end.
Fixpoint widen_rows (widths : list nat) (rows : list (list string)) : Res (list nat) :=
  match rows with [] => Ok widths | row :: rows => widths ← widen widths row; widen_rows widths rows end.

Fixpoint dashes (n : nat) : string := match n with O => "" | S n => String "-" (dashes n) end.
Definition separator_cell (iwidth : nat * nat) : string :=
  let d := dashes ((iwidth.2 - 1) `max` 2) in
  if (iwidth.1 =? 0)%nat then d +:+ ":" else ":" +:+ d.

Definition write_table (headers : list string) (rows : list (list string)) : Res (list string) :=
  widths ← widen_rows (map String.length headers) rows;
  header ← write_row headers widths;
  sep ← write_row (map separator_cell (enumerate widths)) widths;
  data ← mapRes (fun row => write_row row widths) rows;
  mret (header :: sep :: data).

(** ** Counting characters *)

Lemma char_count_app a b : starts_char b = true -> char_count (a +:+ b) = (char_count a + char_count b)%nat.
Proof. intros Hb. unfold char_count. by rewrite chars_app, length_app. Qed.

Lemma char_count_indent n s : starts_char s = true -> char_count (indent n s) = (n + char_count s)%nat.
Proof. intros Hs. unfold char_count. by rewrite chars_indent, length_app, length_replicate. Qed.

Lemma char_count_length s : (char_count s <= String.length s)%nat.
Proof.
  unfold char_count. induction s as [|a s IH]; [done|]. cbn [chars]. destruct s as [|b s]; [done|].
  destruct (chars (String b s)); cbn in *; [lia|]. destruct (is_continuation b); cbn; lia.
Qed.

(** A cell that fits is padded to the width of its column. *)
Definition fits (cell : string) (w : nat) : Prop := starts_char cell = true /\ (String.length cell <= w)%nat.

Lemma pad_count w s : fits s w -> char_count (pad_left w s) = w /\ char_count (pad_right w s) = w.
Proof.
  intros [Hs Hw]. pose proof (char_count_length s). unfold pad_left, pad_right.
  rewrite char_count_app, !char_count_indent by (done || by apply starts_char_indent). change (char_count "") with 0%nat. lia.
Qed.

Lemma starts_char_app a b : starts_char a = true -> starts_char b = true -> starts_char (a +:+ b) = true.
Proof. by destruct a. Qed.

Lemma write_cell_count widths i cell w : widths !! i = Some w -> fits cell w ->
  exists t, write_cell widths (i, cell) = Ok t /\ char_count t = (w + 3)%nat /\ starts_char t = true.
Proof.
  intros Hw Hf. destruct (pad_count w cell Hf) as [Hl Hr]. destruct Hf as [Hs _]. unfold write_cell, vec_index. cbn [fst snd].
  rewrite Hw. cbn. eexists. split; [done|]. split; [|done].
  set (c := if (i =? 0)%nat then pad_left w cell else pad_right w cell).
  assert (Hc : char_count c = w) by (unfold c; by case_match).
  assert (Hcs : starts_char c = true).
  { unfold c, pad_left, pad_right. case_match; [by apply starts_char_indent|]. apply starts_char_app; [done|by apply starts_char_indent]. }
  change (char_count (" " +:+ (c +:+ " |")) = (w + 3)%nat).
  rewrite char_count_app, char_count_app, Hc by (done || by apply starts_char_app). change (char_count " ") with 1%nat.
  change (char_count " |") with 2%nat. lia.
Qed.

(** ** Rows *)
Definition row_width (widths : list nat) : nat := (2 + sum_list (map (fun w => w + 3) widths))%nat.

Lemma text_of_count ts ns : Forall2 (fun t n => char_count t = n /\ starts_char t = true) ts ns ->
  char_count (text_of ts) = sum_list ns /\ starts_char (text_of ts) = true.
Proof.
  induction 1 as [|t n ts ns [Ht Hs] _ [IH Hss]]; [done|]. rewrite text_of_cons, char_count_app by done.
  cbn. split; [lia|by apply starts_char_app].
Qed.

Lemma write_cells_count cells ws : Forall2 fits cells ws -> forall pre,
  exists ts, mapRes (write_cell (pre ++ ws)) (imap (fun i c => ((length pre + i)%nat, c)) cells) = Ok ts /\
    Forall2 (fun t n => char_count t = n /\ starts_char t = true) ts (map (fun w => w + 3)%nat ws).
Proof.
  induction 1 as [|c w cells ws Hc _ IH]; intros pre; [by exists []|]. cbn [imap mapRes].
  destruct (write_cell_count (pre ++ w :: ws) (length pre + 0) c w) as (t & Ht & Hn & Hs); [|done|].
  { rewrite Nat.add_0_r. by apply list_lookup_middle. }
  rewrite Ht. cbn. destruct (IH (pre ++ [w])) as (ts & Hts & Hall). rewrite <-app_assoc in Hts. cbn [app] in Hts.
  exists (t :: ts). split; [|by constructor].
  rewrite (imap_ext _ (fun i c => ((length (pre ++ [w]) + i)%nat, c))); [by rewrite Hts|].
  intros i x _. cbn. f_equal. rewrite length_app. cbn. lia.
Qed.

Lemma write_row_count cells ws : Forall2 fits cells ws ->
  exists t, write_row cells ws = Ok t /\ char_count t = row_width ws.
Proof.
  intros H. destruct (write_cells_count cells ws H []) as (ts & Hts & Hall). apply text_of_count in Hall as [Hn Hs].
  unfold write_row, enumerate. change (imap pair cells) with (imap (fun i c => ((length (@nil nat) + i)%nat, c)) cells).
  cbn [app] in Hts. rewrite Hts. cbn. eexists. split; [done|].
  change (char_count ("|" +:+ (text_of ts +:+ NL)) = row_width ws).
  rewrite char_count_app, char_count_app, Hn by (done || by apply starts_char_app). change (char_count "|") with 1%nat.
  change (char_count NL) with 1%nat. unfold row_width. lia.
Qed.

(** ** Widths *)
Lemma widen_ok row ws : length row = length ws -> exists ws', widen ws row = Ok ws' /\
  Forall2 le ws ws' /\ Forall2 (fun c w => (String.length c <= w)%nat) row ws'.
Proof.
  revert ws. induction row as [|c row IH]; intros [|w ws] Hlen; try done; cbn.
  - exists []. auto.
  - destruct (IH ws) as (ws' & -> & Hle & Hrow); [by injection Hlen|]. cbn.
    eexists. split; [done|]. split; constructor; auto; lia.
Qed.

Lemma fits_le row ws ws' : Forall2 le ws ws' -> Forall2 (fun c w => (String.length c <= w)%nat) row ws ->
  Forall2 (fun c w => (String.length c <= w)%nat) row ws'.
Proof.
  intros Hle. revert row. induction Hle as [|w w' ws ws' Hw _ IH]; intros row Hr; [done|].
  apply Forall2_cons_inv_r in Hr as (c & row' & Hc & Hr & ->). constructor; [lia|auto].
Qed.

Lemma le_trans_rows a b c : Forall2 le a b -> Forall2 le b c -> Forall2 le a c.
Proof. apply transitivity. Qed.

Lemma widen_rows_ok rows ws : Forall (fun row => length row = length ws) rows ->
  exists ws', widen_rows ws rows = Ok ws' /\ Forall2 le ws ws' /\
    Forall (fun row => Forall2 (fun c w => (String.length c <= w)%nat) row ws') rows.
Proof.
  revert ws. induction rows as [|row rows IH]; intros ws Hrows; cbn.
  - exists ws. split_and!; [done|by apply reflexivity|constructor].
  - apply Forall_cons in Hrows as [Hr Hrows]. destruct (widen_ok row ws Hr) as (w1 & -> & Hle1 & Hfit). cbn.
    pose proof (Forall2_length _ _ _ Hle1) as Hlen.
    destruct (IH w1) as (w2 & -> & Hle2 & Hfits).
    { apply (Forall_impl _ _ _ Hrows). intros r Hr'. by rewrite Hr', Hlen. }
    exists w2. split_and!; [done|by eapply le_trans_rows|]. constructor; [by eapply fits_le|done].
Qed.

Lemma fits_row row ws : Forall (fun c => starts_char c = true) row ->
  Forall2 (fun c w => (String.length c <= w)%nat) row ws -> Forall2 fits row ws.
Proof. intros Hs Hl. revert Hs. induction Hl as [|c w row ws Hc _ IH]; [done|]. intros [Hc' Hs]%Forall_cons. constructor; [done|auto]. Qed.

Lemma headers_fit headers : Forall2 (fun c w => (String.length c <= w)%nat) headers (map String.length headers).
Proof. induction headers; constructor; auto. Qed.

Lemma rows_written rows ws :
  Forall (fun row => Forall (fun c => starts_char c = true) row) rows ->
  Forall (fun row => Forall2 (fun c w => (String.length c <= w)%nat) row ws) rows ->
  exists ts, mapRes (fun row => write_row row ws) rows = Ok ts /\ Forall (fun t => char_count t = row_width ws) ts /\ length ts = length rows.
Proof.
  intros Hs. induction Hs as [|row rows Hr _ IH]; intros Hf; [by exists []|].
  apply Forall_cons in Hf as [Hf Hfs]. destruct (write_row_count row ws) as (t & Ht & Hn); [by apply fits_row|].
  destruct (IH Hfs) as (ts & Hts & Hall & Hlen). exists (t :: ts). cbn. rewrite Ht. cbn. rewrite Hts. cbn.
  split_and!; [done|by constructor|by rewrite Hlen].
Qed.

Lemma dashes_count n : char_count (dashes n) = n /\ starts_char (dashes n) = true /\ String.length (dashes n) = n.
Proof.
  induction n as [|n (IH & Hs & Hl)]; [done|]. cbn [dashes String.length]. split_and!; [|done|by rewrite Hl].
  unfold char_count in *. rewrite chars_cons by done. cbn. by rewrite IH.
Qed.

(** A row that is not too long is written, whatever its cells. *)
Lemma write_row_total cells ws : (length cells <= length ws)%nat -> exists t, write_row cells ws = Ok t.
Proof.
  intros Hlen. unfold write_row, enumerate.
  assert (Hcell : forall i c, (i < length ws)%nat -> exists t, write_cell ws (i, c) = Ok t).
  { intros i c Hi. unfold write_cell, vec_index. cbn [fst snd]. apply lookup_lt_is_Some_2 in Hi as [w ->]. by eexists. }
  assert (H : forall cs k, (k + length cs <= length ws)%nat ->
    exists ts, mapRes (write_cell ws) (imap (fun i c => ((k + i)%nat, c)) cs) = Ok ts).
  { induction cs as [|c cs IH]; intros k Hk; [by exists []|]. cbn [length] in Hk. cbn [imap mapRes].
    destruct (Hcell (k + 0)%nat c) as [t Ht]; [lia|]. rewrite Ht. cbn [mbind Res_bind].
    rewrite (imap_ext _ (fun i c => ((S k + i)%nat, c))) by (intros; cbn; f_equal; lia).
    destruct (IH (S k)) as [ts ->]; [lia|]. by eexists. }
  destruct (H cells 0%nat Hlen) as [ts Hts]. change (imap pair cells) with (imap (fun i c => ((0 + i)%nat, c)) cells).
  rewrite Hts. by eexists.
Qed.

Lemma write_table_aligned headers rows :
  Forall (fun c => starts_char c = true) headers ->
  Forall (fun row => Forall (fun c => starts_char c = true) row) rows ->
  Forall (fun row => length row = length headers) rows ->
  exists header sep data n, write_table headers rows = Ok (header :: sep :: data) /\
    length data = length rows /\ Forall (fun line => char_count line = n) (header :: data).
Proof.
  intros Hh Hr Hlen. destruct (widen_rows_ok rows (map String.length headers)) as (ws & Hw & Hle & Hfits).
  { by rewrite length_map. }
  assert (Hhf : Forall2 fits headers ws) by (apply fits_row; [done|]; eapply fits_le; [exact Hle|apply headers_fit]).
  destruct (write_row_count headers ws Hhf) as (header & Hhd & Hn).
  destruct (write_row_total (map separator_cell (enumerate ws)) ws) as [sep Hsep].
  { unfold enumerate. rewrite length_map, length_imap. done. }
  destruct (rows_written rows ws Hr Hfits) as (data & Hd & Hall & Hdl).
  exists header, sep, data, (row_width ws). unfold write_table. rewrite Hw. cbn. rewrite Hhd. cbn. rewrite Hsep. cbn. rewrite Hd.
  split_and!; [done..|]. by constructor.
Qed.

(** The rows of a table with as many cells as its header are all written, and
    all have the same number of characters. *)
Theorem table_aligned headers rows :
  Forall (fun c => starts_char c = true) headers ->
  Forall (fun row => Forall (fun c => starts_char c = true) row) rows ->
  Forall (fun row => length row = length headers) rows ->
  exists header sep data n, write_table headers rows = Ok (header :: sep :: data) /\
    length data = length rows /\ Forall (fun line => char_count line = n) (header :: data).
Proof. exact (write_table_aligned headers rows). Qed.

Definition toy_rows : list (list string) := [["1"; "`total`"; "`uint256`"]; ["2"; "`é`"; "`address`"]].
Lemma table_aligned_witness : exists n lines, write_table ["#"; "Name"; "Type"] toy_rows = Ok lines /\ length lines = 4%nat /\
  (match lines with header :: _ :: data => Forall (fun line => char_count line = n) (header :: data) | _ => False end).
Proof.
  destruct (table_aligned ["#"; "Name"; "Type"] toy_rows) as (header & sep & data & n & H & Hl & Hall);
    [repeat constructor..|]. exists n, (header :: sep :: data). rewrite H. cbn [length]. rewrite Hl. auto.
Defined.

(** A column narrower than three has a wider row of dashes. *)
Example dashes_wider : write_row ["#"] [1%nat] = Ok ("| # |" +:+ NL) /\
  write_row [separator_cell (0%nat, 1%nat)] [1%nat] = Ok ("| --: |" +:+ NL).
Proof. split; reflexivity. Qed.
