(* ===== verification/ExternalFunctions.v ===== *)
(** * ExternalFunctions: the externally callable functions of a contract

    Models [inspectors/external_functions.rs]: every function of the ABI with
    the declaration that is found for it, in one of four sorted sections. The
    order in which a hash map is walked is a parameter; the name of a base
    contract is its text. *)
From stdpp Require Import relations sorting.
From S2P Require Import Prelude.
From S2P Require Import Compare.
From S2P Require Import Paths.
From S2P Require Import SourceMap.
From S2P Require Import HarnessId.
From S2P Require Import SolcOutput.
From S2P Require Import Graphs.
From S2P Require Import SolcAst.
From S2P Require Import SymbolIndex.
From S2P Require Import SourceText.
From S2P Require Import CompiledTarget.
From S2P Require Import Tables.

(** ** Types and signatures *)
Fixpoint canonical_type (p : AbiParam) : string :=
  match p with
  | mkAbiParam ty None _ => ty
  | mkAbiParam ty (Some cs) _ => "(" +:+ comma (map canonical_type cs) +:+ ")" +:+ default "" (strip_prefix "tuple" ty)
  end.
Definition canonical_signature (f : AbiFunction) : string :=
  af_name f +:+ "(" +:+ comma (map canonical_type (af_inputs f)) +:+ ")".

Definition param_type (p : AbiParam) : string := let '(mkAbiParam ty _ _) := p in ty.
Definition param_internal (p : AbiParam) : option string := let '(mkAbiParam _ _ i) := p in i.
Definition display_param_type (p : AbiParam) : string :=
  match (i ← param_internal p; match strip_prefix "struct " i with Some r => Some r | None => strip_prefix "enum " i end) with
  | Some rest => last_piece "." rest
  | None => param_type p
  end.
Definition display_signature (f : AbiFunction) : string :=
  af_name f +:+ "(" +:+ comma (map display_param_type (af_inputs f)) +:+ ")".
Definition abi_param_key (f : AbiFunction) : string :=
  comma (map (fun p => normalize_text (default (param_type p) (param_internal p))) (af_inputs f)).

Definition is_callback (n : string) : bool :=
  String.eqb n "onERC721Received" || String.eqb n "onERC1155Received" || String.eqb n "onERC1155BatchReceived".
Definition mutability_label (m : Mutability) : string :=
  match m with MPure => "pure" | MView => "view" | MNonpayable => "nonpayable" | MPayable => "payable" end.
Definition is_view (m : Mutability) : bool := match m with MView | MPure => true | _ => false end.

(** ** The index *)
Record FuncInfo : Type := mkFuncInfo {
  fi_file : string; fi_line : Z; fi_visibility : Visibility; fi_modifiers : list string; fi_signature : string }.
Record FunctionIndex : Type := mkFunctionIndex {
  fx_functions : gmap (string * string) (list FuncInfo);
  fx_specials : gmap (string * string) FuncInfo;
  fx_bases : gmap string (list string);
}.
Definition function_index_empty : FunctionIndex := mkFunctionIndex ∅ ∅ ∅.

(** Lines of the bytes before an offset; 0 without the content. *)
Definition source_line (sources : list (string * string)) (file : string) (offset : nat) : Z :=
  match get_path file sources with
  | None => 0
  | Some content => newlines (str_take (clamp content offset) content) + 1
  end.

Definition add_function_info (c n : string) (info : FuncInfo) (fx : FunctionIndex) : FunctionIndex :=
  mkFunctionIndex (push_to (c, n) info (fx_functions fx)) (fx_specials fx) (fx_bases fx).
Definition set_special (c k : string) (info : FuncInfo) (fx : FunctionIndex) : FunctionIndex :=
  mkFunctionIndex (fx_functions fx) (<[(c, k) := info]> (fx_specials fx)) (fx_bases fx).

Definition function_info (f : FunctionDefinition) (file : string) (sources : list (string * string)) : FuncInfo :=
  mkFuncInfo file (source_line sources file (loc_offset (fd_src f))) (fd_visibility f) (map mi_name (fd_modifiers f))
    (ast_param_key (fd_parameters f)).
Definition index_external (c : string) (f : FunctionDefinition) (file : string) (sources : list (string * string))
    (fx : FunctionIndex) : FunctionIndex :=
  let info := function_info f file sources in
  match function_kind f with
  | KReceive => set_special c "Receive" info fx
  | KFallback => set_special c "Fallback" info fx
  | KFunction => add_function_info c (fd_name f) info fx
  | KConstructor | KFreeFunction => fx
  end.

Definition is_external (v : Visibility) : bool := match v with VExternal | VPublic => true | _ => false end.
Definition getter_info (v : VariableDeclaration) (file : string) (sources : list (string * string)) : FuncInfo :=
  mkFuncInfo file (source_line sources file (loc_offset (vd_src v))) (vd_visibility v) [] "".
Definition index_contract_node (c file : string) (sources : list (string * string)) (fx : FunctionIndex) (d : Declaration)
    : FunctionIndex :=
  match d with
  | DFunction f => if is_external (fd_visibility f) then index_external c f file sources fx else fx
  | DVariable v =>
      if bool_decide (vd_visibility v = VPublic) then add_function_info c (vd_name v) (getter_info v file sources) fx else fx
  | _ => fx
  end.
Definition extend_bases (c : ContractDefinition) (fx : FunctionIndex) : FunctionIndex :=
  match cd_bases c with
  | [] => fx
  | bs => mkFunctionIndex (fx_functions fx) (fx_specials fx)
            (<[cd_name c := default [] (fx_bases fx !! cd_name c) ++ bs.*1]> (fx_bases fx))
  end.
Definition index_external_contract (file : string) (sources : list (string * string)) (fx : FunctionIndex) (n : UnitNode)
    : FunctionIndex :=
  match n with
  | UContract c => foldl (index_contract_node (cd_name c) file sources) (extend_bases c fx) (cd_nodes c)
  | UDeclaration _ => fx
  end.
Definition function_index (output : Sources) (sources : list (string * string)) : FunctionIndex :=
  foldl (fun fx s => match s.2 with
                     | Some ast => foldl (index_external_contract s.1 sources) fx ast
                     | None => fx
                     end) function_index_empty output.

(** ** Resolution *)
Definition base_names (fx : FunctionIndex) (c : string) : list string := default [] (fx_bases fx !! c).
Definition all_base_names (fx : FunctionIndex) : list string := (map_to_list (fx_bases fx)).*2 ≫= id.
Definition ancestor_names (fx : FunctionIndex) (c : string) : list string :=
  breadth_first (base_names fx) (S (length (all_base_names fx))) c.

Fixpoint find_in_chain (fx : FunctionIndex) (chain : list string) (n : string) (matches : FuncInfo -> bool) : option FuncInfo :=
  match chain with
  | [] => None
  | a :: rest =>
      match (infos ← fx_functions fx !! (a, n); find matches infos) with
      | Some info => Some info
      | None => find_in_chain fx rest n matches
      end
  end.

Definition candidate_cmp (a b : FuncInfo) : comparison :=
  then_with (Z.compare (fi_line a) (fi_line b)) (String.compare (fi_file a) (fi_file b)).

Record SourceInfo : Type := mkSourceInfo { si_file : string; si_line : Z }.
Definition source_of (i : FuncInfo) : SourceInfo := mkSourceInfo (fi_file i) (fi_line i).

Inductive Section_ : Type := InMutable | InView | InCallback | InSpecial.
#[export] Instance Section_eq_dec : EqDecision Section_.
Proof. solve_decision. Defined.

Section Inspector.
(** The order in which the hash map of functions is walked. *)
Variable walk_order : list ((string * string) * list FuncInfo) -> list ((string * string) * list FuncInfo).

Definition candidates (fx : FunctionIndex) (n : string) : list FuncInfo :=
  (filter (fun kv => kv.1.2 = n) (walk_order (map_to_list (fx_functions fx)))).*2 ≫= id.

Definition resolve (fx : FunctionIndex) (c n abi_key : string) : option FuncInfo :=
  let chain := ancestor_names fx c in
  match find_in_chain fx chain n (fun i => String.eqb (fi_signature i) abi_key) with
  | Some i => Some i
  | None =>
      match find_in_chain fx chain n (fun i => String.eqb (fi_signature i) "") with
      | Some i => Some i
      | None =>
          match find (fun i => String.eqb (fi_signature i) abi_key) (candidates fx n) with
          | Some i => Some i
          | None => head (sort_by candidate_cmp (candidates fx n))
          end
      end
  end.

Definition resolve_special (fx : FunctionIndex) (c k : string) : option SourceInfo :=
  source_of <$> head (omap (fun a => fx_specials fx !! (a, k)) (ancestor_names fx c)).

(** ** The report *)
Record ExternalFunctionInfo : Type := mkInfo {
  xi_name : string; xi_signature : string; xi_selector : option string;
  xi_source : option SourceInfo; xi_visibility : Visibility; xi_mutability : Mutability; xi_modifiers : list string }.
Record ExternalFunctionsOutput : Type := mkOutput {
  xo_contract : string; xo_file : string;
  xo_mutable : list ExternalFunctionInfo; xo_view : list ExternalFunctionInfo;
  xo_callback : list ExternalFunctionInfo; xo_special : list ExternalFunctionInfo }.

Definition external_function (fx : FunctionIndex) (target : string) (selectors : list (string * string)) (f : AbiFunction)
    : ExternalFunctionInfo :=
  let resolved := resolve fx target (af_name f) (abi_param_key f) in
  mkInfo (af_name f) (display_signature f) (get_name (canonical_signature f) selectors)
    (source_of <$> resolved) (default VExternal (fi_visibility <$> resolved)) (af_mutability f)
    (default [] (fi_modifiers <$> resolved)).
Definition special_function (fx : FunctionIndex) (target n k : string) (m : Mutability) : ExternalFunctionInfo :=
  mkInfo n (n +:+ "()") None (resolve_special fx target k) VExternal m [].

Definition section_of (f : AbiFunction) : Section_ :=
  if is_callback (af_name f) then InCallback else if is_view (af_mutability f) then InView else InMutable.
(** What the loop over the ABI adds, and where. *)
Definition classify (fx : FunctionIndex) (target : string) (selectors : list (string * string)) (i : AbiItem)
    : option (Section_ * ExternalFunctionInfo) :=
  match i with
  | IFunction f => Some (section_of f, external_function fx target selectors f)
  | IReceive => Some (InSpecial, special_function fx target "receive" "Receive" MPayable)
  | IFallback m => Some (InSpecial, special_function fx target "fallback" "Fallback" m)
  | IOther => None
  end.

Definition add_item (fx : FunctionIndex) (target : string) (selectors : list (string * string))
    (o : ExternalFunctionsOutput) (i : AbiItem) : ExternalFunctionsOutput :=
  let '(mkOutput c f m v cb sp) := o in
  match classify fx target selectors i with
  | Some (InMutable, x) => mkOutput c f (m ++ [x]) v cb sp
  | Some (InView, x) => mkOutput c f m (v ++ [x]) cb sp
  | Some (InCallback, x) => mkOutput c f m v (cb ++ [x]) sp
  | Some (InSpecial, x) => mkOutput c f m v cb (sp ++ [x])
  | None => o
  end.

Definition signature_cmp (a b : ExternalFunctionInfo) : comparison := String.compare (xi_signature a) (xi_signature b).
Definition sort_sections (o : ExternalFunctionsOutput) : ExternalFunctionsOutput :=
  let '(mkOutput c f m v cb sp) := o in
  mkOutput c f (sort_by signature_cmp m) (sort_by signature_cmp v) (sort_by signature_cmp cb) (sort_by signature_cmp sp).

(** [inspect], after the compilation. *)
Definition inspect_external (c : CompiledTarget) (target : HarnessId) : Res ExternalFunctionsOutput :=
  o ← target_contract c target;
  abi ← context (co_abi o) ("contract `" +:+ name target +:+ "` has no ABI in the compilation output");
  let selectors := default [] (co_methods o) in
  let fx := function_index (ct_output c) (ct_sources c) in
  mret (sort_sections (foldl (add_item fx (name target) selectors) (mkOutput (name target) (ct_source_path c) [] [] [] []) abi)).
End Inspector.

(** ** Its text: the lines of the report *)
Definition quoted (s : string) : string := "`" +:+ s +:+ "`".
Definition modifiers_cell (ms : list string) : string :=
  match ms with [] => quoted "none" | _ => String.concat ", " (map quoted ms) end.
Definition source_cell (s : option SourceInfo) : string :=
  match s with Some s => quoted (si_file s +:+ ":" +:+ fmt_dec (si_line s)) | None => "unknown" end.
Definition function_row (ix : nat * ExternalFunctionInfo) : list string :=
  let '(i, x) := ix in
  [fmt_dec (Z.of_nat i + 1); quoted (xi_name x); default "" (quoted <$> xi_selector x);
   quoted (mutability_label (xi_mutability x)); modifiers_cell (xi_modifiers x); source_cell (xi_source x)].

Definition FUNCTION_COLUMNS : list string := ["#"; "Name"; "Selector"; "Mutability"; "Modifiers"; "Source"].
(** One section: its lines, and whether the next one is still the first. *)
Definition write_external_section (first : bool) (title : string) (xs : list ExternalFunctionInfo) : Res (bool * list string) :=
  match xs with
  | [] => mret (first, [])
  | _ =>
      table ← write_table FUNCTION_COLUMNS (map function_row (enumerate xs));
      mret (false, (if first then [] else [NL]) ++ [writeln ("## " +:+ title); NL] ++ table)
  end.

Definition count_line (xs : list ExternalFunctionInfo) (what : string) : string :=
  writeln ("- " +:+ fmt_dec (Z.of_nat (length xs)) +:+ " " +:+ what +:+ " functions").
Definition report_head (contract file : string) (title : string) : list string :=
  [writeln ("# " +:+ contract +:+ " " +:+ title); NL; writeln ("- Contract: " +:+ quoted contract);
   writeln ("- File: " +:+ quoted file); NL; writeln "## Summary"; NL].
Definition all_functions (o : ExternalFunctionsOutput) : list ExternalFunctionInfo :=
  xo_mutable o ++ xo_view o ++ xo_callback o ++ xo_special o.

Definition display_external (o : ExternalFunctionsOutput) : Res (list string) :=
  a ← write_external_section true "Mutable Functions" (xo_mutable o);
  b ← write_external_section a.1 "View Functions" (xo_view o);
  c ← write_external_section b.1 "Callback Functions" (xo_callback o);
  d ← write_external_section c.1 "Special Functions" (xo_special o);
  mret (report_head (xo_contract o) (xo_file o) "External Functions" ++
        [count_line (all_functions o) "externally callable"; count_line (xo_mutable o) "mutable";
         count_line (xo_view o) "view"; count_line (xo_callback o) "callback"; count_line (xo_special o) "special"; NL]
        ++ a.2 ++ b.2 ++ c.2 ++ d.2).

(** ** The chain *)
Lemma ancestor_names_spec fx c :
  NoDup (ancestor_names fx c) /\ ancestor_names fx c !! 0%nat = Some c /\
  forall a, a ∈ ancestor_names fx c <-> rtc (edge (base_names fx)) c a.
Proof.
  apply (breadth_first_spec (base_names fx) (c :: all_base_names fx)); [left| |done].
  intros x y _ Hy. right. unfold base_names, all_base_names in *. destruct (fx_bases fx !! x) as [bs|] eqn:Hx; [|by apply elem_of_nil in Hy].
  apply list_elem_of_bind. exists bs. split; [done|]. apply list_elem_of_fmap. exists (x, bs). split; [done|]. by apply elem_of_map_to_list.
Qed.

(** [a] has a function [n] that matches. *)
Definition declares (fx : FunctionIndex) (a n : string) (P : FuncInfo -> bool) (i : FuncInfo) : Prop :=
  exists infos, fx_functions fx !! (a, n) = Some infos /\ i ∈ infos /\ P i = true.

Lemma find_in_chain_Some fx chain n P i : find_in_chain fx chain n P = Some i ->
  exists l1 a l2, chain = l1 ++ a :: l2 /\ declares fx a n P i /\ forall b i', b ∈ l1 -> ~ declares fx b n P i'.
Proof.
  assert (Hnone : forall a i', (infos ← fx_functions fx !! (a, n); find P infos) = None -> ~ declares fx a n P i').
  { intros a i' Hn (infos & Hi & Hin & HP). rewrite Hi in Hn. cbn in Hn. apply list_elem_of_In, (find_none _ _ Hn) in Hin. congruence. }
  induction chain as [|a chain IH]; cbn [find_in_chain]; [done|].
  destruct (infos ← fx_functions fx !! (a, n); find P infos) as [x|] eqn:E.
  - intros [= ->]. exists [], a, chain. split_and!; [done| |by intros ? ? ?%elem_of_nil].
    destruct (fx_functions fx !! (a, n)) as [infos|] eqn:Ei; [|done]. cbn in E. apply find_some in E as [Hin%list_elem_of_In HP].
    by exists infos.
  - intros (l1 & b & l2 & -> & Hb & Hl)%IH. exists (a :: l1), b, l2. split_and!; [done..|].
    intros c i' [->|Hc]%elem_of_cons; [by apply Hnone|by apply Hl].
Qed.

Lemma find_in_chain_None fx chain n P a i : find_in_chain fx chain n P = None -> a ∈ chain -> ~ declares fx a n P i.
Proof.
  induction chain as [|b chain IH]; cbn [find_in_chain]; [by intros _ ?%elem_of_nil|].
  destruct (infos ← fx_functions fx !! (b, n); find P infos) as [x|] eqn:E; [done|].
  intros Hn [->|Ha]%elem_of_cons; [|by apply IH]. intros (infos & Hi & Hin & HP). rewrite Hi in E. cbn in E.
  apply list_elem_of_In, (find_none _ _ E) in Hin. congruence.
Qed.

(** An exact declaration of the chain is found, in the nearest contract that has
    one, whatever the order of the maps. *)
Theorem resolve_nearest walk_order fx c n abi_key :
  let exact := fun i => String.eqb (fi_signature i) abi_key in
  (exists a i, rtc (edge (base_names fx)) c a /\ declares fx a n exact i) ->
  exists l1 a l2 i, ancestor_names fx c = l1 ++ a :: l2 /\ resolve walk_order fx c n abi_key = Some i /\
    declares fx a n exact i /\ forall b i', b ∈ l1 -> ~ declares fx b n exact i'.
Proof.
  intros exact (a & i & Ha & Hi). destruct (ancestor_names_spec fx c) as (_ & _ & Hanc). apply Hanc in Ha.
  unfold resolve. fold exact. destruct (find_in_chain fx (ancestor_names fx c) n exact) as [x|] eqn:E.
  - apply find_in_chain_Some in E as (l1 & b & l2 & Hl & Hd & Hno). by exists l1, b, l2, x.
  - destruct (find_in_chain_None fx _ n exact a i E Ha Hi).
Qed.

(** ** The sections *)
Definition listed (o : ExternalFunctionsOutput) (s : Section_) : list ExternalFunctionInfo :=
  match s with InMutable => xo_mutable o | InView => xo_view o | InCallback => xo_callback o | InSpecial => xo_special o end.

Section Report.
Variable walk_order : list ((string * string) * list FuncInfo) -> list ((string * string) * list FuncInfo).
Variables (fx : FunctionIndex) (target : string) (selectors : list (string * string)).

Definition callable (abi : list AbiItem) : list (Section_ * ExternalFunctionInfo) := omap (classify walk_order fx target selectors) abi.
Definition in_section (s : Section_) (l : list (Section_ * ExternalFunctionInfo)) : list ExternalFunctionInfo :=
  (filter (fun p => p.1 = s) l).*2.

Lemma in_section_app s a b : in_section s (a ++ b) = in_section s a ++ in_section s b.
Proof. unfold in_section. by rewrite filter_app, fmap_app. Qed.

Lemma add_item_listed o i s :
  listed (add_item walk_order fx target selectors o i) s = listed o s ++ in_section s (callable [i]).
Proof.
  destruct o as [c f m v cb sp]. unfold callable, in_section, add_item. cbn [omap list_omap].
  destruct (classify walk_order fx target selectors i) as [[[] x]|], s; cbn; by rewrite ?app_nil_r.
Qed.

Lemma add_items_listed abi : forall o s,
  listed (foldl (add_item walk_order fx target selectors) o abi) s = listed o s ++ in_section s (callable abi).
Proof.
  induction abi as [|i abi IH]; intros o s; cbn [foldl]; [by rewrite app_nil_r|].
  rewrite IH, add_item_listed, <-app_assoc, <-in_section_app. do 2 f_equal. unfold callable. cbn. by case_match.
Qed.

Lemma sections_length l : length (in_section InMutable l ++ in_section InView l ++ in_section InCallback l ++ in_section InSpecial l) = length l.
Proof.
  unfold in_section. rewrite !length_app, !length_fmap. induction l as [|[[] x] l IH]; [done|..];
    rewrite !filter_cons; cbn [fst]; repeat case_decide; try done; cbn [length]; lia.
Qed.
End Report.

Lemma sort_sections_listed o s : listed (sort_sections o) s = sort_by signature_cmp (listed o s).
Proof. by destruct o, s. Qed.

Lemma inspect_external_Ok walk_order c target o : inspect_external walk_order c target = Ok o ->
  exists co abi, target_contract c target = Ok co /\ co_abi co = Some abi /\
    forall s, listed o s = sort_by signature_cmp (in_section s
      (callable walk_order (function_index (ct_output c) (ct_sources c)) (name target) (default [] (co_methods co)) abi)).
Proof.
  unfold inspect_external. intros (co & Hco & (abi & Habi & [= <-])%Res_bind_Ok)%Res_bind_Ok.
  exists co, abi. split_and!; [done|by destruct (co_abi co); simplify_eq/=|]. intros s.
  rewrite sort_sections_listed, add_items_listed. by destruct s.
Qed.

(** Every callable item of the ABI is listed once, in its section, and the
    sections are sorted by signature. *)
Theorem sections_complete walk_order c target o : inspect_external walk_order c target = Ok o ->
  exists co abi, target_contract c target = Ok co /\ co_abi co = Some abi /\
    let items := callable walk_order (function_index (ct_output c) (ct_sources c)) (name target) (default [] (co_methods co)) abi in
    (forall s, listed o s ≡ₚ in_section s items /\ StronglySorted (cmp_le signature_cmp) (listed o s)) /\
    length (all_functions o) = length items.
Proof.
  intros (co & abi & Hco & Habi & Hs)%inspect_external_Ok. exists co, abi. split; [done|]. split; [done|]. intros items. split.
  - intros s. rewrite Hs. split; [apply sort_by_perm|]. apply sort_by_sorted, (lawful_on xi_signature), lawful_string.
  - rewrite <-sections_length. unfold all_functions. rewrite !length_app.
    change (xo_mutable o) with (listed o InMutable). change (xo_view o) with (listed o InView).
    change (xo_callback o) with (listed o InCallback). change (xo_special o) with (listed o InSpecial).
    by rewrite !Hs, !(Permutation_length (sort_by_perm _ _)).
Qed.

(** ** A compilation

    [Token is Base] has a function that overrides one of [Base] and inherits
    another; [Vault] of another file imports [Base] under the name [Core]. *)
Definition toy_ext (id : Z) (n : string) (offset : nat) (modifiers : list string) : Declaration :=
  DFunction (mkFunctionDef id n (mkLocation offset 5) (Some KFunction) false VExternal true (Some true) false None [] []
    (map (fun m => mkInvocation m None None None) modifiers) None).
Definition toy_contract (id : Z) (n : string) (bs : list string) (ds : list Declaration) : UnitNode :=
  UContract (mkContractDef id n (mkLocation 0 5) KContract None true (map (fun b => (b, None)) bs) ds).
Definition toy_external : CompiledTarget :=
  mkCompiled
    [("src/Base.sol", Some [toy_contract 1 "Base" [] [toy_ext 2 "pause" 10 ["onlyOwner"]; toy_ext 3 "run" 12 []]]);
     ("src/Other.sol", Some [toy_contract 4 "Other" [] [toy_ext 5 "run" 0 []]]);
     ("src/Token.sol", Some [toy_contract 6 "Token" ["Base"] [toy_ext 7 "run" 3 []]; toy_contract 8 "Vault" ["Core"] []])]
    [("src/Token.sol", [("Token", mkContractOutput (Some [IFunction (mkAbiFunction "run" [] MNonpayable);
        IFunction (mkAbiFunction "pause" [] MNonpayable); IReceive]) (Some [("run()", "c0406226")]) None)])]
    [("src/Base.sol", NL +:+ NL +:+ NL)] "src/Token.sol".
Definition toy_external_target : HarnessId := mkHarnessId "src/Token.sol" "Token".
Definition toy_functions : FunctionIndex := function_index (ct_output toy_external) (ct_sources toy_external).

Lemma resolve_nearest_witness : exists i, resolve id toy_functions "Token" "pause" "" = Some i /\ fi_modifiers i = ["onlyOwner"].
Proof.
  destruct (resolve_nearest id toy_functions "Token" "pause" "") as (l1 & a & l2 & i & _ & Hr & _ & _).
  - exists "Base", (mkFuncInfo "src/Base.sol" 4 VExternal ["onlyOwner"] ""). split.
    + apply rtc_once. unfold edge. replace (base_names toy_functions "Token") with ["Base"] by (vm_compute; reflexivity). left.
    + exists [mkFuncInfo "src/Base.sol" 4 VExternal ["onlyOwner"] ""]. split; [vm_compute; reflexivity|]. split; [left|reflexivity].
  - exists i. split; [exact Hr|]. vm_compute in Hr. injection Hr as <-. reflexivity.
Defined.

Definition toy_external_report : ExternalFunctionsOutput :=
  match inspect_external id toy_external toy_external_target with Ok o => o | _ => mkOutput "" "" [] [] [] [] end.
Lemma sections_complete_witness :
  map xi_signature (xo_mutable toy_external_report) = ["pause()"; "run()"] /\ length (all_functions toy_external_report) = 3%nat.
Proof.
  split; [vm_compute; reflexivity|].
  assert (H : inspect_external id toy_external toy_external_target = Ok toy_external_report) by (vm_compute; reflexivity).
  destruct (sections_complete id toy_external toy_external_target toy_external_report H) as (co & abi & Hco & Habi & _ & Hl).
  etrans; [exact Hl|]. vm_compute in Hco. injection Hco as <-. injection Habi as <-. vm_compute. reflexivity.
Defined.

(** A base that is imported under another name is not found: the functions of
    the whole compilation are searched, in the order of a hash map. *)
Example renamed_base :
  ancestor_names toy_functions "Vault" = ["Vault"; "Core"] /\
  exists order, order ≡ₚ map_to_list (fx_functions toy_functions) /\
    (source_of <$> resolve (fun _ => order) toy_functions "Vault" "run" "") <>
    (source_of <$> resolve (fun _ => reverse order) toy_functions "Vault" "run" "").
Proof.
  split; [vm_compute; reflexivity|]. exists (map_to_list (fx_functions toy_functions)). split; [done|]. vm_compute. discriminate.
Qed.
