(* ===== verification/LayoutInspector.v ===== *)
(** * LayoutInspector: the storage layout of a contract

    Models [inspectors/storage_layout.rs]: the variables of the layout in the
    order of the compiler, with the label and the size of their types. *)
From S2P Require Import Prelude.
From S2P Require Import HarnessId.
From S2P Require Import SolcOutput.
From S2P Require Import SourceText.
From S2P Require Import CompiledTarget.
From S2P Require Import Tables.
From S2P Require Import ExternalFunctions.

Record StorageVariableInfo : Type := mkVariableInfo {
  sv_name : string; sv_type : string; sv_slot : string; sv_offset : string; sv_bytes : string }.
Record StorageLayoutOutput : Type := mkLayoutOutput {
  lo_contract : string; lo_file : string; lo_variables : list StorageVariableInfo }.

Definition storage_variable (types : option (list (string * StorageTypeInfo))) (e : StorageEntry) : StorageVariableInfo :=
  let '(label, bytes) := match (ts ← types; get_name (se_type e) ts) with
                         | Some i => (st_label i, st_bytes i)
                         | None => ("unknown", "unknown")
                         end in
  mkVariableInfo (se_label e) label (se_slot e) (fmt_dec (se_offset e)) bytes.

(** [inspect], after the compilation. *)
Definition inspect_layout (c : CompiledTarget) (target : HarnessId) : Res StorageLayoutOutput :=
  o ← target_contract c target;
  mret (mkLayoutOutput (name target) (ct_source_path c)
    (match co_layout o with Some l => map (storage_variable (sl_types l)) (sl_storage l) | None => [] end)).

Definition variable_row (iv : nat * StorageVariableInfo) : list string :=
  let '(i, v) := iv in
  [fmt_dec (Z.of_nat i + 1); quoted (sv_name v); quoted (sv_type v); sv_slot v; sv_offset v; sv_bytes v].
Definition LAYOUT_COLUMNS : list string := ["#"; "Name"; "Type"; "Slot"; "Offset"; "Bytes"].

Definition display_layout (o : StorageLayoutOutput) : Res (list string) :=
  let head := report_head (lo_contract o) (lo_file o) "Storage Layout" ++
    [writeln ("- " +:+ fmt_dec (Z.of_nat (length (lo_variables o))) +:+ " storage variables"); NL] in
  match lo_variables o with
  | [] => mret head
  | vs => table ← write_table LAYOUT_COLUMNS (map variable_row (enumerate vs)); mret (head ++ table)
  end.

(** ** The reports are written *)
Lemma digit_starts d : is_continuation (digit_char d) = false.
Proof. unfold digit_char. generalize (Z.to_nat d). intros n. do 17 (destruct n as [|n]; [done|]). done. Qed.

Lemma fmt_dec_starts n : starts_char (fmt_dec n) = true.
Proof.
  unfold fmt_dec. assert (H : forall fuel n acc, starts_char acc = true -> starts_char (digits_go 10 fuel n acc) = true).
  { induction fuel as [|fuel IH]; intros m acc Ha; [done|]. cbn [digits_go].
    assert (Hd : starts_char (String (digit_char (m mod 10)) acc) = true) by (apply negb_true_iff, digit_starts).
    case_match; [done|by apply IH]. }
  by apply H.
Qed.

Lemma table_written {A} headers (row : nat * A -> list string) xs :
  Forall (fun c => starts_char c = true) headers ->
  (forall i x, x ∈ xs -> Forall (fun c => starts_char c = true) (row (i, x)) /\ length (row (i, x)) = length headers) ->
  exists lines, write_table headers (map row (enumerate xs)) = Ok lines /\ length lines = (2 + length xs)%nat.
Proof.
  intros Hh Hrow.
  assert (Hall : Forall (fun r => Forall (fun c => starts_char c = true) r /\ length r = length headers) (map row (enumerate xs))).
  { apply Forall_map, Forall_forall. intros [i x] Hx%elem_of_enumerate. apply Hrow. by eapply list_elem_of_lookup_2. }
  destruct (write_table_aligned headers (map row (enumerate xs))) as (h & s & d & n & Ht & Hl & _); [done| | |].
  - by apply (Forall_impl _ _ _ Hall); intros ? [? _].
  - by apply (Forall_impl _ _ _ Hall); intros ? [_ ?].
  - exists (h :: s :: d). split; [done|]. cbn. rewrite Hl, length_map. unfold enumerate. by rewrite length_imap.
Qed.

Lemma function_row_cells i x : Forall (fun c => starts_char c = true) (function_row (i, x)) /\ length (function_row (i, x)) = 6%nat.
Proof.
  split; [|done]. unfold function_row. repeat constructor.
  - apply fmt_dec_starts.
  - by destruct (xi_selector x).
  - unfold modifiers_cell. destruct (xi_modifiers x) as [|m [|m' ms]]; done.
  - by destruct (xi_source x).
Qed.

Lemma section_written first title xs : exists b lines, write_external_section first title xs = Ok (b, lines).
Proof.
  unfold write_external_section. destruct xs as [|x xs]; [by eexists _, _|].
  destruct (table_written FUNCTION_COLUMNS function_row (x :: xs)) as (t & -> & _).
  - repeat constructor.
  - intros. apply function_row_cells.
  - by eexists _, _.
Qed.

(** The report on the functions of a contract is always written. *)
Theorem external_report_written o : exists lines, display_external o = Ok lines.
Proof.
  unfold display_external. destruct (section_written true "Mutable Functions" (xo_mutable o)) as (b1 & l1 & ->). cbn.
  destruct (section_written b1 "View Functions" (xo_view o)) as (b2 & l2 & ->). cbn.
  destruct (section_written b2 "Callback Functions" (xo_callback o)) as (b3 & l3 & ->). cbn.
  destruct (section_written b3 "Special Functions" (xo_special o)) as (b4 & l4 & ->). by eexists.
Qed.

(** Text of the compiler, which begins with a character. *)
Definition valid_layout (l : StorageLayout) : Prop :=
  Forall (fun e => starts_char (se_slot e) = true) (sl_storage l) /\
  forall ts n i, sl_types l = Some ts -> get_name n ts = Some i -> starts_char (st_bytes i) = true.

(** Every variable of the layout has its row, in the order of the compiler. *)
Theorem layout_report_written c target co l : target_contract c target = Ok co -> co_layout co = Some l -> valid_layout l ->
  exists o lines, inspect_layout c target = Ok o /\ display_layout o = Ok lines /\
    map sv_name (lo_variables o) = map se_label (sl_storage l) /\ map sv_slot (lo_variables o) = map se_slot (sl_storage l) /\
    (sl_storage l <> [] -> length lines = (11 + length (sl_storage l))%nat).
Proof.
  intros Hc Hl [Hslots Hbytes]. unfold inspect_layout. rewrite Hc. cbn. rewrite Hl.
  exists (mkLayoutOutput (name target) (ct_source_path c) (map (storage_variable (sl_types l)) (sl_storage l))). cbn [lo_variables].
  assert (Hv : forall e, sv_name (storage_variable (sl_types l) e) = se_label e /\ sv_slot (storage_variable (sl_types l) e) = se_slot e).
  { intros e. unfold storage_variable. by repeat case_match. }
  assert (Hcells : forall i v, v ∈ map (storage_variable (sl_types l)) (sl_storage l) ->
    Forall (fun c => starts_char c = true) (variable_row (i, v)) /\ length (variable_row (i, v)) = length LAYOUT_COLUMNS).
  { intros i v (e & -> & He)%list_elem_of_fmap. split; [|done]. unfold variable_row. repeat constructor.
    - apply fmt_dec_starts.
    - rewrite (proj2 (Hv e)). rewrite Forall_forall in Hslots. by apply Hslots.
    - unfold storage_variable. case_match. apply fmt_dec_starts.
    - unfold storage_variable. destruct (sl_types l) as [ts|] eqn:Et; cbn; [|done].
      destruct (get_name (se_type e) ts) eqn:Ei; cbn; [|done]. by eapply Hbytes. }
  destruct (table_written LAYOUT_COLUMNS variable_row _ ltac:(repeat constructor) Hcells) as (t & Ht & Hlen).
  unfold display_layout. cbn [lo_variables lo_contract lo_file].
  rewrite length_map in Hlen. destruct (sl_storage l) as [|e es]; cbn [map] in *.
  - eexists. split_and!; [done|done|done|done|done].
  - rewrite Ht. cbn [mbind Res_bind mret Res_ret]. eexists. split_and!; [done|done| | |].
    + rewrite (proj1 (Hv e)). f_equal. rewrite map_map. apply map_ext. apply Hv.
    + rewrite (proj2 (Hv e)). f_equal. rewrite map_map. apply map_ext. apply Hv.
    + intros _. rewrite !length_app, Hlen. cbn. lia.
Qed.

Definition toy_layout : StorageLayout :=
  mkStorageLayout [mkStorageEntry "total" "0" 0 "t_uint128"; mkStorageEntry "owner" "1" 0 "t_address"]
    (Some [("t_uint128", mkStorageTypeInfo "uint128" "16")]).
Definition toy_layout_target : CompiledTarget :=
  mkCompiled [] [("src/Token.sol", [("Token", mkContractOutput None None (Some toy_layout))])] [] "src/Token.sol".

Lemma layout_report_written_witness : exists o lines,
  inspect_layout toy_layout_target toy_external_target = Ok o /\ display_layout o = Ok lines /\ length lines = 13%nat.
Proof.
  destruct (layout_report_written toy_layout_target toy_external_target (mkContractOutput None None (Some toy_layout)) toy_layout)
    as (o & lines & Ho & Hl & _ & _ & Hn).
  - reflexivity.
  - reflexivity.
  - split; [repeat constructor|]. intros ts n i [= <-]. unfold get_name. cbn. case_match; [by intros [= <-]|done].
  - exists o, lines. split; [exact Ho|]. split; [exact Hl|]. rewrite Hn by discriminate. reflexivity.
Defined.
