(* ===== verification/Remappings.v ===== *)
(** * Remappings: where an import is looked up

    Models [compilers/solc/remappings.rs] and the remappings of [config.rs]. A
    remapping maps a prefix of an import to a directory; those of the settings
    come first, then those of the dependencies, then those of
    [remappings.txt]. The file system is a parameter. *)
From S2P Require Import Prelude.
From S2P Require Import Paths.
From S2P Require Import SourceMap.
From S2P Require Import SourceText.

(** What the compiler driver asks of the file system. *)
Class ProjectFiles : Type := {
  is_file : string -> bool;
  is_dir : string -> bool;
  read_to_string : string -> Res string;
  canonicalize : string -> option string;
}.

(** ** Remappings *)
Record Remapping : Type := mkRemapping { rm_prefix : string; rm_target : string }.
Record RemappingsResolver : Type := mkResolver { rr_root : string; rr_remappings : list Remapping }.
Definition resolver_default : RemappingsResolver := mkResolver "." [].

Definition with_trailing_slash (value : string) : string := if ends_with_char "/" value then value else value +:+ "/".

Definition parse_line (iline : nat * string) : Res (option Remapping) :=
  let line := str_trim iline.2 in
  let number := fmt_dec (Z.of_nat iline.1 + 1) in
  if String.eqb line "" || starts_with "//" line || starts_with "#" line then Ok None
  else match split_once "=" line with
       | None => Err ("invalid remapping on line " +:+ number +:+ ": expected `prefix=target`, got `" +:+ line +:+ "`")
       | Some (prefix, target) =>
           _ ← ensure (negb (String.eqb (str_trim prefix) "") && negb (String.eqb (str_trim target) ""))
                 ("invalid remapping on line " +:+ number +:+ ": prefix and target must be non-empty");
           mret (Some (mkRemapping (with_trailing_slash (str_trim prefix)) (with_trailing_slash (str_trim target))))
       end.

Definition parse_remappings (content : string) : Res (list Remapping) :=
  parsed ← mapRes parse_line (enumerate (lines content));
  Ok (omap (M := list) (fun r => r) parsed).

(** [with_remappings] *)
Definition prepend_remappings (r : RemappingsResolver) (configured : list string) : Res RemappingsResolver :=
  parsed ← with_context "failed to parse configured remappings" (parse_remappings (String.concat NL configured));
  mret (mkResolver (rr_root r) (parsed ++ rr_remappings r)).

Fixpoint first_match (rs : list Remapping) (import : string) : option string :=
  match rs with
  | [] => None
  | r :: rest =>
      match strip_prefix (rm_prefix r) import with
      | Some tail => Some (rm_target r +:+ tail)
      | None => first_match rest import
      end
  end.
(** [resolve] *)
Definition remap (r : RemappingsResolver) (import : string) : option string :=
  resolved ← first_match (rr_remappings r) import;
  Some (if is_absolute resolved then resolved else join (rr_root r) resolved).

Definition solc_remapping (r : Remapping) : string := rm_prefix r +:+ "=" +:+ rm_target r.
Definition solc_remappings (r : RemappingsResolver) : list string := map solc_remapping (rr_remappings r).

(** ** The settings of [ripfuzz.toml]

    An EVM version is its name; the dependencies are in the order of their
    names. *)
Record Dependency : Type := mkDependency { dep_url : string; dep_hash : string }.
Record SolcConfig : Type := mkSolcConfig {
  sc_version : string;
  sc_out : string;
  sc_evm_version : string;
  sc_optimizer : bool;
  sc_optimizer_runs : nat;
  sc_via_ir : bool;
  sc_show_warning : bool;
  sc_remappings : list string;
}.
Record Config : Type := mkConfig {
  config_solc : SolcConfig;
  dependencies : list (string * Dependency);
  config_root : string;
}.

Definition default_out : string := ".ripfuzz/solc".
Definition default_evm_version : string := "prague".
Definition default_optimizer_runs : nat := 200.
Definition solc_config_new : SolcConfig :=
  mkSolcConfig "" default_out default_evm_version false default_optimizer_runs false false [].
Definition config_new : Config := mkConfig solc_config_new [] ".".
Definition with_root (root : string) (c : Config) : Config := mkConfig (config_solc c) (dependencies c) root.

Section Files.
Context `{ProjectFiles}.

(** [RemappingsResolver::load] *)
Definition load_remappings (root : string) : Res RemappingsResolver :=
  let path := join root "remappings.txt" in
  if negb (is_file path) then mret (mkResolver root [])
  else content ← with_context ("failed to read remappings `" +:+ path +:+ "`") (read_to_string path);
       remappings ← parse_remappings content;
       mret (mkResolver root remappings).

(** ** Settings

    The reader of TOML is a parameter. *)
Definition config_path (c : Config) (path : string) : string :=
  if is_absolute path then path else join (config_root c) path.

Definition load_config (toml : string -> Res Config) (c : Config) (path : string) : Res Config :=
  let path := config_path c path in
  content ← with_context ("failed to read config `" +:+ path +:+ "`") (read_to_string path);
  config ← with_context "failed to parse config" (toml content);
  mret (with_root (config_root c) config).

Definition DEPENDENCIES : string := join ".ripfuzz" "dependencies".
Definition dependency_target (root name : string) : string :=
  let relative := join DEPENDENCIES name in
  if is_dir (join (join root relative) "src") then join relative "src" else relative.
Definition dependency_remapping (root name : string) : string := name +:+ "/=" +:+ dependency_target root name.
Definition dependency_remappings (c : Config) : list string := map (dependency_remapping (config_root c)) (dependencies c).*1.
Definition compile_remappings (c : Config) : list string := sc_remappings (config_solc c) ++ dependency_remappings c.
End Files.

(** ** Resolution is by the first match *)
Lemma first_match_Some rs import p : first_match rs import = Some p <->
  exists l1 r l2 tail, rs = l1 ++ r :: l2 /\ import = rm_prefix r +:+ tail /\ p = rm_target r +:+ tail /\
    forall q, q ∈ l1 -> starts_with (rm_prefix q) import = false.
Proof.
  induction rs as [|r rs IH]; cbn [first_match].
  - split; [done|]. by intros ([|? ?] & ? & ? & ? & ? & _).
  - destruct (strip_prefix (rm_prefix r) import) as [tail|] eqn:E.
    + split.
      * intros [= <-]. apply strip_prefix_Some in E. exists [], r, rs, tail. split_and!; [done..|]. by intros q ?%elem_of_nil.
      * intros ([|q l1] & r' & l2 & tail' & Hl & Hi & -> & Hq); injection Hl as <- ->.
        -- rewrite Hi, strip_prefix_app in E. by injection E as ->.
        -- specialize (Hq r (list_elem_of_here _ _)). unfold starts_with in Hq. by rewrite E in Hq.
    + rewrite IH. split.
      * intros (l1 & r' & l2 & tail & -> & Hi & Hp & Hq). exists (r :: l1), r', l2, tail. split_and!; [done..|].
        intros q [->|Hin]%elem_of_cons; [unfold starts_with; by rewrite E|auto].
      * intros ([|q l1] & r' & l2 & tail & Hl & Hi & Hp & Hq); injection Hl as <- ->.
        -- rewrite Hi, strip_prefix_app in E. done.
        -- exists l1, r', l2, tail. split_and!; [done..|]. intros q' Hin. apply Hq. by right.
Qed.

Lemma first_match_app a b import :
  first_match (a ++ b) import = match first_match a import with Some p => Some p | None => first_match b import end.
Proof. induction a as [|r a IH]; [done|]. cbn. by destruct (strip_prefix _ _). Qed.

Lemma first_match_None rs import : first_match rs import = None <-> forall r, r ∈ rs -> starts_with (rm_prefix r) import = false.
Proof.
  induction rs as [|r rs IH]; cbn [first_match].
  - split; [|done]. by intros _ r ?%elem_of_nil.
  - unfold starts_with. destruct (strip_prefix (rm_prefix r) import) as [tail|] eqn:E.
    + split; [done|]. intros Hr. specialize (Hr r (list_elem_of_here _ _)). by rewrite E in Hr.
    + rewrite IH. split.
      * intros Hr q [->|Hq]%elem_of_cons; [by rewrite E|by apply Hr].
      * intros Hr q Hq. apply Hr. by right.
Qed.

(** ** Remappings are read back

    Over text of visible ASCII characters. *)
Definition visible_char (a : ascii) : bool := let n := nat_of_ascii a in (33 <=? n)%nat && (n <=? 126)%nat.
Definition visible (s : string) : bool := str_all visible_char s.

Lemma visible_not a : visible_char a = true -> is_continuation a = false /\ is_space_char (String a "") = false.
Proof.
  destruct a as [[] [] [] [] [] [] [] []]; vm_compute; by intros ?.
Qed.

Lemma visible_starts s : visible s = true -> starts_char s = true.
Proof. destruct s as [|a s]; [done|]. cbn. intros [Ha _]%andb_true_iff. by apply negb_true_iff, visible_not. Qed.

Lemma visible_chars s : visible s = true -> Forall (fun c => is_space_char c = false) (chars s).
Proof.
  induction s as [|a s IH]; [constructor|]. cbn [visible str_all]. intros [Ha Hs]%andb_true_iff.
  rewrite chars_cons by (by apply visible_starts). constructor; [by destruct (visible_not a Ha)|]. exact (IH Hs).
Qed.

Lemma drop_spaces_none cs : Forall (fun c => is_space_char c = false) cs -> drop_spaces cs = cs.
Proof. destruct 1 as [|c cs Hc _]; [done|]. cbn. by rewrite Hc. Qed.

Lemma visible_trim s : visible s = true -> str_trim s = s.
Proof.
  intros Hs%visible_chars. unfold str_trim, trim_chars. rewrite (drop_spaces_none (chars s)) by done.
  rewrite drop_spaces_none by (by apply Forall_reverse). by rewrite reverse_involutive, chars_text.
Qed.

Lemma visible_no c s : visible_char c = false -> visible s = true -> has_char c s = false.
Proof.
  intros Hc. induction s as [|a s IH]; [done|]. unfold has_char in *. cbn [visible str_all]. intros [Ha Hs]%andb_true_iff.
  specialize (IH Hs). destruct (Ascii.eqb_spec a c) as [->|_]; [congruence|done].
Qed.

(** A line of a remapping: visible, not a comment, no [=] in the prefix. *)
Record remap_entry_ok (p t : string) : Prop := {
  entry_prefix : p <> "" /\ visible p = true;
  entry_target : t <> "" /\ visible t = true;
  entry_equals : has_char "=" p = false;
  entry_comment : starts_with "//" p = false /\ starts_with "#" p = false;
}.

Lemma starts_with_app_false q p t : starts_with q p = false -> (String.length q <= String.length p)%nat -> starts_with q (p +:+ t) = false.
Proof.
  unfold starts_with. revert p. induction q as [|a q IH]; intros p; [done|]. destruct p as [|b p]; cbn; [lia|].
  change (String b p +:+ t) with (String b (p +:+ t)). cbn. destruct (Ascii.eqb a b); [|done]. intros. apply IH; [done|lia].
Qed.

Lemma entry_not_comment p t : remap_entry_ok p t -> starts_with "//" (p +:+ "=" +:+ t) = false /\ starts_with "#" (p +:+ "=" +:+ t) = false.
Proof.
  intros [[Hp _] _ _ [H1 H2]]. destruct p as [|a [|b p]]; [done|..].
  - split; [|by apply starts_with_app_false; [|cbn; lia]]. 
    change (match (if Ascii.eqb "/" a then @None string else None) with Some _ => true | None => false end = false).
    by destruct (Ascii.eqb "/" a).
  - split; (apply starts_with_app_false; [done|cbn; lia]).
Qed.

Lemma parse_entry i p t : remap_entry_ok p t ->
  parse_line (i, p +:+ "=" +:+ t) = Ok (Some (mkRemapping (with_trailing_slash p) (with_trailing_slash t))).
Proof.
  intros Hok. destruct (entry_not_comment p t Hok) as [H1 H2]. destruct Hok as [[Hp Hvp] [Ht Hvt] He _].
  assert (Hv : visible (p +:+ "=" +:+ t) = true) by (unfold visible in *; rewrite !str_all_app; by rewrite Hvp, Hvt).
  unfold parse_line. cbn [fst snd]. rewrite visible_trim, H1, H2 by done.
  assert (Hne : String.eqb (p +:+ "=" +:+ t) "" = false) by (apply String.eqb_neq; by destruct p).
  rewrite Hne. change (p +:+ "=" +:+ t) with (p +:+ String "=" t). rewrite split_once_app by done. cbn [orb].
  rewrite !visible_trim by done.
  by rewrite (proj2 (String.eqb_neq p "")), (proj2 (String.eqb_neq t "")).
Qed.

Lemma visible_ends s : visible s = true -> ends_with_char CARRIAGE_RETURN s = false.
Proof.
  induction s as [|a s IH]; [done|]. cbn [visible str_all]. intros [Ha Hs]%andb_true_iff. cbn [ends_with_char].
  destruct s as [|b s]; [|by apply IH]. apply Ascii.eqb_neq. by intros ->.
Qed.

(** Lines that are visible and not empty are what a text splits into. *)
Lemma lines_visible ls : Forall (fun l => visible l = true /\ l <> "") ls -> lines (String.concat NL ls) = ls.
Proof.
  intros Hls. unfold lines, NL. destruct ls as [|l ls]; [done|]. rewrite split_on_concat.
  - induction Hls as [|x xs [Hx Hne] Hxs IH]; [done|]. destruct xs as [|y ys].
    + cbn. by rewrite (proj2 (String.eqb_neq x "")).
    + change (strip_cr x :: line_ends (y :: ys) = x :: y :: ys). by rewrite IH, strip_cr_none by (by apply visible_ends).
  - done.
  - apply (Forall_impl _ _ _ Hls). intros x [Hx _]. by apply visible_no.
Qed.

Definition entry_text (e : string * string) : string := e.1 +:+ "=" +:+ e.2.
Definition entry_remapping (e : string * string) : Remapping := mkRemapping (with_trailing_slash e.1) (with_trailing_slash e.2).

Lemma parse_entries (es : list (string * string)) : Forall (fun e => remap_entry_ok e.1 e.2) es ->
  parse_remappings (String.concat NL (map entry_text es)) = Ok (map entry_remapping es).
Proof.
  intros Hes. unfold parse_remappings. rewrite lines_visible.
  - assert (Hm : forall k, mapRes parse_line (imap (fun i l => ((k + i)%nat, l)) (map entry_text es)) = Ok (map (fun e => Some (entry_remapping e)) es)).
    { induction Hes as [|[p t] es He _ IH]; intros k; [done|].
      change (imap (fun i l => ((k + i)%nat, l)) (map entry_text ((p, t) :: es)))
        with (((k + 0)%nat, p +:+ "=" +:+ t) :: imap (fun i l => ((k + S i)%nat, l)) (map entry_text es)).
      cbn [mapRes]. rewrite parse_entry by done. cbn [mbind Res_bind].
      rewrite (imap_ext _ (fun i l => ((S k + i)%nat, l))) by (intros; cbn; f_equal; lia). rewrite IH. done. }
    unfold enumerate. change (imap pair (map entry_text es)) with (imap (fun i l => ((0 + i)%nat, l)) (map entry_text es)).
    rewrite Hm. cbn. f_equal. clear. induction es as [|e es IH]; [done|]. cbn in *. by rewrite IH.
  - apply Forall_map, (Forall_impl _ _ _ Hes). intros [p t] [[Hp Hvp] [_ Hvt] _ _]. unfold entry_text. cbn in *. split.
    + unfold visible in *. rewrite !str_all_app. by rewrite Hvp, Hvt.
    + by destruct p.
Qed.

(** ** The order of the remappings *)

(** The settings come before [remappings.txt]. *)
Lemma prepend_remap r configured r' import : prepend_remappings r configured = Ok r' ->
  exists parsed, parse_remappings (String.concat NL configured) = Ok parsed /\
    first_match (rr_remappings r') import =
      match first_match parsed import with Some p => Some p | None => first_match (rr_remappings r) import end.
Proof.
  unfold prepend_remappings, with_context. destruct (parse_remappings _) as [parsed| |]; [|done..]. intros [= <-].
  exists parsed. split; [done|]. apply first_match_app.
Qed.

(** ** What the compiler is given is what the program resolves with *)
Record remapping_ok (r : Remapping) : Prop := {
  remapping_entry : remap_entry_ok (rm_prefix r) (rm_target r);
  remapping_prefix : ends_with_char "/" (rm_prefix r) = true;
  remapping_target : ends_with_char "/" (rm_target r) = true;
}.

Lemma with_trailing_slash_id s : ends_with_char "/" s = true -> with_trailing_slash s = s.
Proof. unfold with_trailing_slash. by intros ->. Qed.

(** the remappings printed for the compiler, read back line by line, are
    the remappings of the resolver: nothing is lost between the text solc sees
    and the prefixes the program matches imports against. *)
Theorem remappings_roundtrip (r : RemappingsResolver) (root : string) :
  Forall remapping_ok (rr_remappings r) ->
  prepend_remappings (mkResolver root []) (solc_remappings r) = Ok (mkResolver root (rr_remappings r)).
Proof.
  intros Hr. unfold prepend_remappings, solc_remappings.
  assert (Hm : map solc_remapping (rr_remappings r) = map entry_text (map (fun q => (rm_prefix q, rm_target q)) (rr_remappings r))).
  { rewrite map_map. by apply map_ext. }
  rewrite Hm, parse_entries.
  - cbn [rr_root rr_remappings mbind Res_bind with_context]. rewrite app_nil_r, map_map. do 2 f_equal. cbn.
    f_equal. rewrite <- (map_id (rr_remappings r)) at 2. apply map_ext_Forall, (Forall_impl _ _ _ Hr).
    intros [p t] [_ Hp Ht]. unfold entry_remapping. cbn in *. by rewrite !with_trailing_slash_id.
  - apply Forall_map, (Forall_impl _ _ _ Hr). by intros q [].
Qed.

(** ** Imports of dependencies *)
Section Dependencies.
Context `{ProjectFiles}.

(** A dependency whose name [install] accepts and whose target can be read. *)
Record dependency_ok (root name : string) : Prop := {
  dependency_entry : remap_entry_ok (name +:+ "/") (dependency_target root name);
  dependency_plain : has_char "/" name = false;
}.

Definition dependency_mapping (root name : string) : Remapping :=
  mkRemapping (name +:+ "/") (with_trailing_slash (dependency_target root name)).

Lemma ends_slash n : ends_with_char "/" (n +:+ "/") = true.
Proof. by rewrite ends_with_char_app. Qed.

Lemma slash_prefix n m rest : has_char "/" n = false -> has_char "/" m = false ->
  strip_prefix (m +:+ "/") (n +:+ "/" +:+ rest) = if decide (m = n) then Some rest else None.
Proof.
  unfold has_char. intros Hn%negb_false_iff Hm%negb_false_iff. revert m Hm.
  induction n as [|a n IH]; intros [|b m] Hm.
  - by destruct (decide _).
  - apply andb_true_iff in Hm as [Hb%negb_true_iff _].
    change (strip_prefix (String b m +:+ "/") ("" +:+ "/" +:+ rest)) with (if Ascii.eqb b "/" then strip_prefix (m +:+ "/") rest else None).
    rewrite Hb. by destruct (decide _).
  - apply andb_true_iff in Hn as [Ha%negb_true_iff _].
    change (strip_prefix ("" +:+ "/") (String a n +:+ "/" +:+ rest)) with (if Ascii.eqb "/" a then Some (n +:+ "/" +:+ rest) else None).
    rewrite Ascii.eqb_sym, Ha. by destruct (decide _).
  - apply andb_true_iff in Hn as [_ Hn]. apply andb_true_iff in Hm as [_ Hm].
    change (strip_prefix (String b m +:+ "/") (String a n +:+ "/" +:+ rest))
      with (if Ascii.eqb b a then strip_prefix (m +:+ "/") (n +:+ "/" +:+ rest) else None).
    destruct (Ascii.eqb_spec b a) as [->|Hne].
    + rewrite IH by done. destruct (decide (m = n)), (decide (String a m = String a n)); congruence.
    + destruct (decide _); [congruence|done].
Qed.

Lemma first_match_dependency root n rest names : Forall (fun m => has_char "/" m = false) names -> n ∈ names ->
  first_match (map (dependency_mapping root) names) (n +:+ "/" +:+ rest) =
    Some (with_trailing_slash (dependency_target root n) +:+ rest).
Proof.
  intros Hall Hin. assert (Hn : has_char "/" n = false) by (by eapply (proj1 (Forall_forall _ _)) in Hall).
  induction Hall as [|m names Hm _ IH]; [by apply elem_of_nil in Hin|].
  cbn [map first_match dependency_mapping rm_prefix rm_target]. rewrite slash_prefix by done.
  destruct (decide (m = n)) as [->|Hne]; [done|]. apply IH. by apply elem_of_cons in Hin as [?|?].
Qed.

Lemma dependency_remapping_text root n : dependency_remapping root n = entry_text (n +:+ "/", dependency_target root n).
Proof. unfold dependency_remapping, entry_text. cbn [fst snd]. by rewrite str_app_assoc. Qed.

(** The remappings of the settings: the explicit ones, then the dependencies. *)
Lemma compile_remappings_parsed c es : sc_remappings (config_solc c) = map entry_text es ->
  Forall (fun e => remap_entry_ok e.1 e.2) es -> Forall (dependency_ok (config_root c)) (dependencies c).*1 ->
  parse_remappings (String.concat NL (compile_remappings c)) =
    Ok (map entry_remapping es ++ map (dependency_mapping (config_root c)) (dependencies c).*1).
Proof.
  intros He Hes Hds. unfold compile_remappings, dependency_remappings. rewrite He.
  assert (Hm : map (dependency_remapping (config_root c)) (dependencies c).*1 =
    map entry_text (map (fun n => (n +:+ "/", dependency_target (config_root c) n)) (dependencies c).*1)).
  { rewrite (map_map _ entry_text). apply map_ext. apply dependency_remapping_text. }
  rewrite Hm, <- map_app, parse_entries.
  - rewrite map_app. do 2 f_equal. rewrite (map_map _ entry_remapping). apply map_ext. intros n. unfold entry_remapping, dependency_mapping.
    cbn [fst snd]. by rewrite (with_trailing_slash_id _ (ends_slash n)).
  - apply Forall_app. split; [done|]. by apply Forall_map, (Forall_impl _ _ _ Hds); intros n [].
Qed.

(** C35: an import [name/rest] of a dependency is looked up in the sources the
    dependency was installed with, under [.ripfuzz/dependencies/name] (its [src]
    when it has one), unless an explicit remapping of the settings matches it;
    whatever [remappings.txt] says. *)
Theorem dependency_import (c : Config) (txt : list Remapping) (es : list (string * string)) (name rest : string) :
  sc_remappings (config_solc c) = map entry_text es ->
  Forall (fun e => remap_entry_ok e.1 e.2) es ->
  Forall (dependency_ok (config_root c)) (dependencies c).*1 ->
  name ∈ (dependencies c).*1 ->
  (forall e, e ∈ es -> starts_with (with_trailing_slash e.1) (name +:+ "/" +:+ rest) = false) ->
  exists r, prepend_remappings (mkResolver (config_root c) txt) (compile_remappings c) = Ok r /\
    remap r (name +:+ "/" +:+ rest) =
      Some (join (config_root c) (with_trailing_slash (dependency_target (config_root c) name) +:+ rest)).
Proof.
  intros He Hes Hds Hin Hno. unfold prepend_remappings. rewrite (compile_remappings_parsed c es) by done.
  cbn [with_context mbind Res_bind]. eexists. split; [done|]. unfold remap. cbn [rr_root rr_remappings].
  rewrite !first_match_app, (proj2 (first_match_None _ _)).
  - rewrite first_match_dependency; [|by apply (Forall_impl _ _ _ Hds); intros n []|done].
    cbn [mbind option_bind]. unfold join. by destruct (is_absolute (_ +:+ rest)).
  - intros r [e [-> He']]%list_elem_of_fmap. by apply Hno.
Qed.
End Dependencies.

(** ** Witnesses *)
Definition toy_files : ProjectFiles := {|
  is_file p := false;
  is_dir p := String.eqb p "/p/.ripfuzz/dependencies/std/src";
  read_to_string p := Err "not found";
  canonicalize p := None;
|}.
Definition toy_config : Config := mkConfig
  (mkSolcConfig "0.8.36" default_out default_evm_version false default_optimizer_runs false false ["@oz/=lib/oz"])
  [("std", mkDependency "https://example.com/std.tar.gz" "0x1220")] "/p".

Lemma remappings_roundtrip_witness :
  prepend_remappings (mkResolver "/p" []) ["@oz/=lib/oz/"; "std/=.ripfuzz/dependencies/std/src/"] =
    Ok (mkResolver "/p" [mkRemapping "@oz/" "lib/oz/"; mkRemapping "std/" ".ripfuzz/dependencies/std/src/"]).
Proof.
  apply (remappings_roundtrip (mkResolver "/p" [mkRemapping "@oz/" "lib/oz/"; mkRemapping "std/" ".ripfuzz/dependencies/std/src/"]) "/p").
  repeat constructor; by vm_compute.
Defined.

Lemma dependency_import_witness : exists r,
  prepend_remappings (mkResolver "/p" [mkRemapping "std/" "lib/old/"]) (@compile_remappings toy_files toy_config) = Ok r /\
  remap r "std/Test.sol" = Some "/p/.ripfuzz/dependencies/std/src/Test.sol".
Proof.
  apply (@dependency_import toy_files toy_config [mkRemapping "std/" "lib/old/"] [("@oz/", "lib/oz")] "std" "Test.sol").
  - reflexivity.
  - repeat constructor; by vm_compute.
  - repeat constructor; by vm_compute.
  - apply list_elem_of_here.
  - intros e ->%list_elem_of_singleton. reflexivity.
Defined.
