(* ===== verification/Imports.v ===== *)
(** * Imports: the imports of a source text

    Models the reading of imports in [compilers/solc/source.rs]: block comments
    are blanked, then the text is read line by line. A source made of import
    directives on lines of their own, block comments and other lines is shown to
    import exactly what its directives name. *)
From S2P Require Import Prelude.
From S2P Require Import Paths.
From S2P Require Import SourceMap.
From S2P Require Import SourceText.

(** ** Imports of a text *)

(** [strip_block_comments], from inside a comment or not. *)
Fixpoint strip_go (in_block : bool) (cs : list string) : list string :=
  match cs with
  | [] => []
  | c :: rest =>
      match rest with
      | d :: rest' =>
          if negb in_block && String.eqb c "/" && String.eqb d "*" then " " :: " " :: strip_go true rest'
          else if in_block && String.eqb c "*" && String.eqb d "/" then " " :: " " :: strip_go false rest'
          else (if in_block && negb (String.eqb c NL) then " " else c) :: strip_go in_block rest
      | [] => [if in_block && negb (String.eqb c NL) then " " else c]
      end
  end.
Definition strip_block_comments (content : string) : string := text_of (strip_go false (chars content)).

Definition str_trim_start (s : string) : string := text_of (drop_spaces (chars s)).

Definition QUOTE : ascii := "034".
Definition APOSTROPHE : ascii := "'".
Definition SEMICOLON : ascii := ";".

(** The quoted texts of a segment: [open] is the quote and the text read so far. *)
Fixpoint quoted (open : option (ascii * string)) (s : string) : list string :=
  match s, open with
  | EmptyString, None => []
  | EmptyString, Some (_, path) => [path]
  | String a s', None => if Ascii.eqb a QUOTE || Ascii.eqb a APOSTROPHE then quoted (Some (a, "")) s' else quoted None s'
  | String a s', Some (quote, path) =>
      if Ascii.eqb a quote then path :: quoted None s' else quoted (Some (quote, path +:+ String a "")) s'
  end.

(** [str::ends_with] *)
Definition ends_with (suffix s : string) : bool :=
  (String.length suffix <=? String.length s)%nat && String.eqb (str_drop (String.length s - String.length suffix) s) suffix.

Definition starts_directive (after : string) : bool :=
  match chars after with
  | [] => true
  | c :: _ => is_space_char c || String.eqb c (String QUOTE "") || String.eqb c "'" || String.eqb c "{" || String.eqb c "*"
  end.

Definition segment_imports (segment : string) : list string :=
  let seg := str_trim_start segment in
  if String.eqb seg "" || starts_with "//" seg then []
  else match strip_prefix "import" seg with
       | None => []
       | Some after => if starts_directive after then base.filter (fun p => Is_true (ends_with ".sol" p)) (quoted None seg) else []
       end.

Definition line_imports (line : string) : list string :=
  let trimmed := str_trim_start line in
  if String.eqb trimmed "" || starts_with "//" trimmed then []
  else split_on SEMICOLON trimmed ≫= segment_imports.

Definition extract_imports (content : string) : list string := lines (strip_block_comments content) ≫= line_imports.

(** ** An import on a line of its own is found *)

(** Whether a text ends inside a block comment. *)
Fixpoint block_after (in_block : bool) (cs : list string) : bool :=
  match cs with
  | [] => in_block
  | c :: rest =>
      match rest with
      | d :: rest' =>
          if negb in_block && String.eqb c "/" && String.eqb d "*" then block_after true rest'
          else if in_block && String.eqb c "*" && String.eqb d "/" then block_after false rest'
          else block_after in_block rest
      | [] => in_block
      end
  end.

Lemma strip_go_line ys n : forall b xs, (length xs <= n)%nat ->
  strip_go b (xs ++ NL :: ys) = strip_go b xs ++ NL :: strip_go (block_after b xs) ys.
Proof.
  assert (Hnl : forall b, strip_go b (NL :: ys) = NL :: strip_go b ys).
  { intros b. destruct ys as [|y ys]; [by destruct b|]. destruct b; reflexivity. }
  induction n as [|n IH]; intros b xs Hn; [destruct xs; [apply Hnl|cbn in Hn; lia]|].
  destruct xs as [|c [|d rest]]; [apply Hnl| |].
  - cbn [app block_after]. change (strip_go b (c :: NL :: ys)) with
      (if negb b && String.eqb c "/" && String.eqb NL "*" then " " :: " " :: strip_go true ys
       else if b && String.eqb c "*" && String.eqb NL "/" then " " :: " " :: strip_go false ys
       else (if b && negb (String.eqb c NL) then " " else c) :: strip_go b (NL :: ys)).
    change (String.eqb NL "*") with false. change (String.eqb NL "/") with false. rewrite !andb_false_r, Hnl. done.
  - cbn [length] in Hn. cbn [app]. cbn [strip_go block_after].
    destruct (negb b && String.eqb c "/" && String.eqb d "*"); [cbn [app]; by rewrite IH by lia|].
    destruct (b && String.eqb c "*" && String.eqb d "/"); [cbn [app]; by rewrite IH by lia|].
    cbn [app]. f_equal. apply (IH b (d :: rest)). cbn. lia.
Qed.

(** Text of one byte characters. *)
Definition printable_char (a : ascii) : bool := let n := nat_of_ascii a in (32 <=? n)%nat && (n <=? 126)%nat.
Definition printable (s : string) : bool := str_all printable_char s.

Lemma printable_byte a : printable_char a = true -> is_continuation a = false /\ Ascii.eqb a NEWLINE = false.
Proof. destruct a as [[] [] [] [] [] [] [] []]; vm_compute; by intros ?. Qed.

Lemma printable_starts s t : printable s = true -> starts_char t = true -> starts_char (s +:+ t) = true.
Proof. destruct s as [|a s]; [done|]. cbn. intros [Ha _]%andb_true_iff _. by apply negb_true_iff, printable_byte. Qed.

Lemma printable_no_newline s : printable s = true -> has_char NEWLINE s = false.
Proof.
  unfold has_char. intros Hs. apply negb_false_iff. revert Hs. induction s as [|a s IH]; [done|]. cbn [printable str_all].
  intros [Ha Hs]%andb_true_iff. rewrite (proj2 (printable_byte a Ha)). by apply IH.
Qed.

Definition singles (s : string) : list string := map (fun a => String a "") (String.list_ascii_of_string s).
Lemma printable_chars s : printable s = true -> chars s = singles s.
Proof.
  induction s as [|a s IH]; [done|]. cbn [printable str_all]. intros [Ha Hs]%andb_true_iff.
  rewrite chars_cons, IH; [done..|]. rewrite <- (str_app_nil s). by apply printable_starts.
Qed.

(** A text without the start of a comment is kept. *)
Lemma strip_go_plain s : contains "/*" s = false -> strip_go false (singles s) = singles s /\ block_after false (singles s) = false.
Proof.
  induction s as [|a s IH]; [done|]. intros Hc.
  assert (Hs : contains "/*" s = false /\ starts_with "/*" (String a s) = false) by (by apply orb_false_iff in Hc as [? ?]).
  destruct Hs as [[H1 H2]%IH Hst]. destruct s as [|b s]; [done|].
  change (singles (String a (String b s))) with (String a "" :: singles (String b s)).
  change (singles (String b s)) with (String b "" :: singles s) in *. cbn [strip_go block_after negb andb] in *.
  replace (String.eqb (String a "") "/" && String.eqb (String b "") "*") with false; [split; [by rewrite H1|exact H2]|].
  symmetry. apply andb_false_iff. destruct (String.eqb_spec (String a "") "/") as [[= ->]|]; [right|by left].
  apply String.eqb_neq. by intros [= ->].
Qed.

Lemma split_on_sep c p q : split_on c (p +:+ String c q) = split_on c p ++ split_on c q.
Proof.
  induction p as [|a p IH].
  - change ("" +:+ String c q) with (String c q). cbn [split_on]. by rewrite Ascii.eqb_refl.
  - change (String a p +:+ String c q) with (String a (p +:+ String c q)). cbn [split_on]. rewrite IH.
    destruct (Ascii.eqb a c); [done|]. destruct (split_on c p) as [|h t] eqn:E; [|done].
    by destruct p; cbn in E; [|destruct (Ascii.eqb _ _); [|destruct (split_on c p)]].
Qed.

Lemma line_ends_in l pieces : l ∈ pieces -> l <> "" -> strip_cr l = l -> l ∈ line_ends pieces.
Proof.
  induction pieces as [|p ps IH]; [by intros ?%elem_of_nil|]. intros [->|Hin]%elem_of_cons Hne Hcr.
  - destruct ps as [|q ps].
    + cbn [line_ends]. rewrite (proj2 (String.eqb_neq p "")) by done. left.
    + change (p ∈ strip_cr p :: line_ends (q :: ps)). rewrite Hcr. left.
  - destruct ps as [|q ps]; [by apply elem_of_nil in Hin|]. change (l ∈ strip_cr p :: line_ends (q :: ps)). right. by apply IH.
Qed.

Lemma quoted_none s rest : has_char QUOTE s = false -> has_char APOSTROPHE s = false -> quoted None (s +:+ rest) = quoted None rest.
Proof.
  unfold has_char. intros H1%negb_false_iff H2%negb_false_iff. induction s as [|a s IH]; [done|]. cbn [str_all] in *.
  apply andb_true_iff in H1 as [Ha1%negb_true_iff H1], H2 as [Ha2%negb_true_iff H2].
  change (String a s +:+ rest) with (String a (s +:+ rest)). cbn [quoted]. rewrite Ha1, Ha2. by apply IH.
Qed.

Lemma quoted_path quote path rest : has_char quote path = false -> forall acc,
  quoted (Some (quote, acc)) (path +:+ String quote rest) = (acc +:+ path) :: quoted None rest.
Proof.
  unfold has_char. intros H%negb_false_iff. induction path as [|a path IH]; intros acc.
  - change ("" +:+ String quote rest) with (String quote rest). cbn [quoted]. by rewrite Ascii.eqb_refl, str_app_nil.
  - cbn [str_all] in H. apply andb_true_iff in H as [Ha%negb_true_iff H].
    change (String a path +:+ String quote rest) with (String a (path +:+ String quote rest)). cbn [quoted]. rewrite Ha, IH by done.
    by rewrite str_app_assoc.
Qed.

(** An import directive: what it names, and the quoted path. *)
Definition directive (names : string) (quote : ascii) (path : string) : string :=
  "import " +:+ names +:+ String quote (path +:+ String quote "").

Record directive_ok (names : string) (quote : ascii) (path : string) : Prop := {
  directive_quote : quote = QUOTE \/ quote = APOSTROPHE;
  directive_names : has_char QUOTE names = false /\ has_char APOSTROPHE names = false;
  directive_path : has_char quote path = false /\ ends_with ".sol" path = true;
  directive_text : printable (directive names quote path) = true;
  directive_end : has_char SEMICOLON (directive names quote path) = false;
  directive_comment : contains "/*" (directive names quote path +:+ ";") = false;
}.

Lemma directive_imports names quote path : directive_ok names quote path ->
  line_imports (directive names quote path +:+ ";") = [path].
Proof.
  intros [Hq [Hn1 Hn2] [Hp He] Ht Hs _].
  assert (Htrim : forall rest, printable (directive names quote path +:+ rest) = true ->
    str_trim_start (directive names quote path +:+ rest) = directive names quote path +:+ rest).
  { intros rest Hr. unfold str_trim_start. rewrite printable_chars by done. unfold directive.
    change (drop_spaces (singles (("import " +:+ ?x) +:+ rest))) with (singles (("import " +:+ x) +:+ rest)).
    rewrite <- printable_chars by done. apply chars_text. }
  unfold line_imports. rewrite Htrim by (unfold printable in *; rewrite str_all_app; by rewrite Ht).
  change (String.eqb (directive names quote path +:+ ";") "") with false. change (starts_with "//" (directive names quote path +:+ ";")) with false.
  cbn [orb]. rewrite split_on_app by done. change (split_on SEMICOLON "") with [""%string]. cbn [mbind list_bind].
  change (segment_imports "") with (@nil string). rewrite !app_nil_r.
  unfold segment_imports. specialize (Htrim ""). rewrite str_app_nil in Htrim. rewrite Htrim by done.
  change (String.eqb (directive names quote path) "") with false. change (starts_with "//" (directive names quote path)) with false.
  cbn [orb]. change (strip_prefix "import" (directive names quote path)) with (Some (" " +:+ names +:+ String quote (path +:+ String quote ""))).
  cbv iota.
  assert (Hd : starts_directive (" " +:+ names +:+ String quote (path +:+ String quote "")) = true).
  { unfold starts_directive. rewrite printable_chars; [done|]. unfold directive in Ht. change (printable ("import" +:+ (" " +:+ names +:+ String quote (path +:+ String quote ""))) = true) in Ht.
    unfold printable in *. rewrite str_all_app in Ht. by apply andb_true_iff in Ht as [_ ?]. }
  rewrite Hd. unfold directive. change (quoted None ("import " +:+ ?x)) with (quoted None x). rewrite quoted_none by done.
  cbn [quoted]. replace (Ascii.eqb quote QUOTE || Ascii.eqb quote APOSTROPHE) with true by (by destruct Hq as [-> | ->]).
  rewrite quoted_path by done. cbn [quoted]. change ("" +:+ path) with path. rewrite list.filter_cons_True by (by rewrite He). done.
Qed.

(** An import directive on a line of its own that is not in a block comment
    is found, whatever the text before and after it, as long as the text
    before leaves no block comment open. *)
Theorem import_found (before names path after : string) (quote : ascii) :
  directive_ok names quote path -> block_after false (chars before) = false -> starts_char after = true ->
  path ∈ extract_imports (before +:+ NL +:+ directive names quote path +:+ ";" +:+ NL +:+ after).
Proof.
  intros Hd Hb Ha. unfold extract_imports. apply list_elem_of_bind. set (line := directive names quote path +:+ ";").
  exists line. split; [unfold line; rewrite directive_imports by done; left|]. destruct Hd as [_ _ _ Ht _ Hc].
  assert (Hp : printable line = true) by (unfold line, printable in *; rewrite str_all_app; by rewrite Ht).
  replace (NL +:+ directive names quote path +:+ ";" +:+ NL +:+ after) with (String NEWLINE (line +:+ String NEWLINE after))
    by (unfold line; by rewrite str_app_assoc).
  unfold strip_block_comments. rewrite chars_app by done. rewrite chars_cons by (by apply printable_starts).
  rewrite chars_app, chars_cons, (printable_chars line) by done. change (String NEWLINE "") with NL.
  rewrite (strip_go_line _ (length (chars before))), Hb by lia. destruct (strip_go_plain line Hc) as [Hl Hbl].
  rewrite (strip_go_line _ (length (singles line))), Hbl, Hl by lia. rewrite text_of_app, text_of_cons, text_of_app, text_of_cons.
  do 2 change (NL +:+ ?x) with (String NEWLINE x). rewrite <- (printable_chars line), chars_text by done.
  unfold lines. rewrite split_on_sep, split_on_app by (by apply printable_no_newline).
  apply line_ends_in; [apply elem_of_app; right; left|done|]. apply strip_cr_none.
  unfold line. by rewrite ends_with_char_app.
Qed.

(** ** The imports of a source

    A source as its items: an import directive on a line of its own, a block
    comment, or any other line, which is a line comment or has no import. *)
Inductive Item : Type :=
| Directive (names : string) (quote : ascii) (path : string)
| BlockComment (text : string)
| OtherLine (line : string).

Definition item_text (i : Item) : string :=
  match i with
  | Directive names quote path => directive names quote path +:+ ";" +:+ NL
  | BlockComment text => "/*" +:+ text +:+ "*/" +:+ NL
  | OtherLine line => line +:+ NL
  end.
Definition item_ok (i : Item) : Prop :=
  match i with
  | Directive names quote path => directive_ok names quote path
  | BlockComment text => contains "*/" text = false /\ starts_char text = true
  | OtherLine line =>
      line_ok line = true /\ contains "/*" line = false /\ (starts_with "//" line = true \/ contains "import" line = false)
  end.
Definition source_text (items : list Item) : string := text_of (map item_text items).

(** The paths that a source imports, in order. *)
Definition imported (items : list Item) : list string :=
  omap (M := list) (fun i => match i with Directive _ _ path => Some path | _ => None end) items.

Lemma source_text_cons i items : source_text (i :: items) = item_text i +:+ source_text items.
Proof. apply text_of_cons. Qed.

Lemma source_text_starts items : Forall item_ok items -> starts_char (source_text items) = true.
Proof.
  intros HF. destruct HF as [|i items Hi _]; [done|]. rewrite source_text_cons. destruct i as [names quote path|text|line]; [done|done|].
  destruct Hi as [Hl _]. apply andb_true_iff in Hl as [_ Hl]. destruct line as [|a line]; [done|exact Hl].
Qed.

Lemma starts_with_mono p s t : starts_with p s = true -> starts_with p (s +:+ t) = true.
Proof.
  unfold starts_with. destruct (strip_prefix p s) as [r|] eqn:E; [|done]. intros _. apply strip_prefix_Some in E as ->.
  by rewrite str_app_assoc, strip_prefix_app.
Qed.

Lemma contains_left p a b : contains p b = true -> contains p (a +:+ b) = true.
Proof.
  intros Hb. induction a as [|x a IH]; [done|]. change (String x a +:+ b) with (String x (a +:+ b)). cbn [contains].
  by rewrite IH, orb_true_r.
Qed.

Lemma contains_right p a b : contains p a = true -> contains p (a +:+ b) = true.
Proof.
  induction a as [|x a IH]; cbn [contains]; intros [Ha|Ha]%orb_true_iff; [by destruct p; [destruct b|]|done| |].
  - change (String x a +:+ b) with (String x (a +:+ b)). cbn [contains]. apply orb_true_iff. left. exact (starts_with_mono p (String x a) b Ha).
  - change (String x a +:+ b) with (String x (a +:+ b)). cbn [contains]. by rewrite IH, orb_true_r.
Qed.

(** *** Lines without an import *)
Lemma trim_start_suffix s : exists a, s = a +:+ str_trim_start s.
Proof.
  unfold str_trim_start. assert (Hd : forall cs, exists ds, cs = ds ++ drop_spaces cs).
  { induction cs as [|c cs [ds IH]]; [by exists []|]. cbn [drop_spaces]. destruct (is_space_char c); [|by exists []].
    exists (c :: ds). cbn [app]. by rewrite <- IH. }
  destruct (Hd (chars s)) as [ds Hs]. exists (text_of ds). by rewrite <- text_of_app, <- Hs, chars_text.
Qed.

Lemma split_on_piece c s piece : piece ∈ split_on c s -> exists a b, s = a +:+ piece +:+ b.
Proof.
  revert piece. induction s as [|x s IH]; intros piece; cbn [split_on].
  - intros ->%list_elem_of_singleton. by exists "", "".
  - destruct (Ascii.eqb x c).
    + intros [->|Hin]%elem_of_cons; [by exists "", (String x s)|]. destruct (IH _ Hin) as (a & b & ->). by exists (String x a), b.
    + destruct (split_on c s) as [|h tl] eqn:E; [intros ->%list_elem_of_singleton; exists "", s; done|].
      intros [->|Hin]%elem_of_cons.
      * assert (Hh : exists b, s = h +:+ b).
        { clear -E. revert h tl E. induction s as [|y s IH]; intros h tl; cbn [split_on]; [intros [= <- <-]; by exists ""|].
          destruct (Ascii.eqb y c); [intros [= <- <-]; by exists (String y s)|].
          destruct (split_on c s) as [|h' tl'] eqn:E; [intros [= <- <-]; by exists s|].
          intros [= <- <-]. destruct (IH _ _ eq_refl) as [b ->]. by exists b. }
        destruct Hh as [b ->]. by exists "", b.
      * destruct (IH piece) as (a & b & ->); [by right|]. by exists (String x a), b.
Qed.

Lemma segment_without_import s : contains "import" s = false -> segment_imports s = [].
Proof.
  intros Hs. unfold segment_imports. destruct (trim_start_suffix s) as [a Ha]. destruct (_ || _); [done|].
  destruct (strip_prefix "import" (str_trim_start s)) as [after|] eqn:E; [|done]. exfalso.
  apply strip_prefix_Some in E. rewrite E in Ha. rewrite Ha in Hs.
  rewrite (contains_left "import" a ("import" +:+ after)) in Hs; [done|]. by apply contains_right.
Qed.

Lemma line_without_import l : contains "import" l = false -> line_imports l = [].
Proof.
  intros Hl. unfold line_imports. destruct (trim_start_suffix l) as [a Ha]. destruct (_ || _); [done|].
  apply elem_of_nil_inv. intros path (seg & Hp & Hseg)%list_elem_of_bind. apply split_on_piece in Hseg as (x & y & Hxy).
  rewrite segment_without_import in Hp; [by apply elem_of_nil in Hp|]. apply not_true_iff_false. intros Hc. rewrite Hxy in Ha. rewrite Ha in Hl.
  by rewrite contains_left in Hl; [|apply contains_left, contains_right].
Qed.

Lemma line_comment_imports l : starts_with "//" l = true -> line_imports l = [].
Proof.
  unfold starts_with. destruct (strip_prefix "//" l) as [r|] eqn:E; [|done]. intros _. apply strip_prefix_Some in E as ->.
  assert (Ht : str_trim_start ("//" +:+ r) = "//" +:+ r).
  { unfold str_trim_start. change ("//" +:+ r) with (String "/" (String "/" r)). rewrite chars_cons by done.
    cbn [drop_spaces]. change (is_space_char (String "/" "")) with false. cbv iota.
    rewrite text_of_cons, chars_text. done. }
  unfold line_imports. rewrite Ht. by rewrite starts_with_app, orb_true_r.
Qed.

Lemma blank_line_imports n : line_imports (indent n "") = [].
Proof.
  unfold line_imports, str_trim_start. rewrite chars_indent_empty, <- (app_nil_r (replicate n " ")), drop_spaces_all. done.
Qed.

(** *** Comments are blanked *)
Lemma strip_go_none cs : contains "/*" (text_of cs) = false -> strip_go false cs = cs /\ block_after false cs = false.
Proof.
  induction cs as [|c cs IH]; [done|]. rewrite text_of_cons. intros Hc.
  assert (Hcs : contains "/*" (text_of cs) = false) by (apply not_true_iff_false; intros Ht; by rewrite contains_left in Hc).
  destruct (IH Hcs) as [H1 H2]. destruct cs as [|d cs]; [done|]. cbn [strip_go block_after negb andb] in *.
  replace (String.eqb c "/" && String.eqb d "*") with false; [by rewrite H1|].
  symmetry. apply andb_false_iff. destruct (String.eqb_spec c "/") as [->|]; [right|by left]. apply String.eqb_neq. intros ->.
  rewrite text_of_cons in Hc. done.
Qed.

Definition blank_char (c : string) : string := if String.eqb c NL then c else " ".

Lemma strip_go_comment ys cs : contains "*/" (text_of cs) = false ->
  strip_go true (cs ++ "*" :: "/" :: ys) = map blank_char cs ++ " " :: " " :: strip_go false ys.
Proof.
  induction cs as [|c cs IH]; [done|]. rewrite text_of_cons. intros Hc.
  assert (Hcs : contains "*/" (text_of cs) = false) by (apply not_true_iff_false; intros Ht; by rewrite contains_left in Hc).
  assert (Hgo : strip_go true (c :: cs ++ "*" :: "/" :: ys) = blank_char c :: strip_go true (cs ++ "*" :: "/" :: ys)).
  { unfold blank_char. destruct cs as [|d cs]; cbn [app strip_go negb andb].
    - change (String.eqb "*" "/") with false. rewrite andb_false_r. by destruct (String.eqb c NL).
    - replace (String.eqb c "*" && String.eqb d "/") with false; [by destruct (String.eqb c NL)|].
      symmetry. apply andb_false_iff. destruct (String.eqb_spec c "*") as [->|]; [right|by left]. apply String.eqb_neq. intros ->.
      rewrite text_of_cons in Hc. done. }
  cbn [app]. by rewrite Hgo, IH.
Qed.

Lemma indent_app n x : indent n "" +:+ x = indent n x.
Proof. induction n as [|n IH]; [done|exact (f_equal (String " ") IH)]. Qed.

(** Blanked text is blank lines. *)
Lemma blanks_lines cs n : exists ns, indent n (text_of (map blank_char cs) +:+ NL) = unlines (map (fun m => indent m "") ns).
Proof.
  revert n. induction cs as [|c cs IH]; intros n.
  - exists [n]. cbn [map]. by rewrite unlines_cons, indent_app.
  - cbn [map]. rewrite text_of_cons, str_app_assoc. unfold blank_char at 1. destruct (String.eqb_spec c NL) as [->|_].
    + destruct (IH 0%nat) as [ns Hns]. exists (n :: ns). cbn [map]. by rewrite unlines_cons, <- Hns, indent_app.
    + destruct (IH (S n)) as [ns Hns]. exists ns. rewrite <- Hns. clear.
      induction n as [|n IH]; [done|exact (f_equal (String " ") IH)].
Qed.

Lemma indent_line_ok n : line_ok (indent n "") = true.
Proof. by apply line_ok_indent. Qed.

(** *** The lines of a source without its comments *)
Lemma stripped_line l rest : line_ok l = true -> contains "/*" l = false -> starts_char rest = true ->
  strip_go false (chars (l +:+ NL +:+ rest)) = chars l ++ NL :: strip_go false (chars rest).
Proof.
  intros Hl Hc Hr. change (NL +:+ rest) with (String NEWLINE rest). rewrite chars_app, chars_cons by done. change (String NEWLINE "") with NL.
  rewrite (strip_go_line _ (length (chars l))) by lia. destruct (strip_go_none (chars l)) as [-> ->]; [by rewrite chars_text|done].
Qed.

Lemma stripped_comment text rest : contains "*/" text = false -> starts_char text = true -> starts_char rest = true ->
  strip_go false (chars ("/*" +:+ text +:+ "*/" +:+ NL +:+ rest)) =
    " " :: " " :: map blank_char (chars text) ++ " " :: " " :: NL :: strip_go false (chars rest).
Proof.
  intros Hc Ht Hr. change ("/*" +:+ text +:+ "*/" +:+ NL +:+ rest) with (String "/" (String "*" (text +:+ String "*" (String "/" (String NEWLINE rest))))).
  rewrite !chars_cons by (done || by destruct text). rewrite chars_app, !chars_cons by done.
  change (strip_go false ("/" :: "*" :: ?cs)) with (" " :: " " :: strip_go true cs).
  rewrite strip_go_comment by (by rewrite chars_text). do 3 f_equal. do 2 f_equal.
  change (String NEWLINE "") with NL. exact (strip_go_line (chars rest) 0 false [] (le_n 0)).
Qed.

Lemma stripped_lines items : Forall item_ok items ->
  exists lss, Forall2 (fun i ls => Forall (fun l => line_ok l = true) ls /\ ls ≫= line_imports = imported [i]) items lss /\
    text_of (strip_go false (chars (source_text items))) = unlines (concat lss).
Proof.
  induction 1 as [|i items Hi HF (lss & Hls & IH)]; [by exists []|]. pose proof (source_text_starts items HF) as Hst.
  assert (Hline : forall l, item_text i = l +:+ NL -> line_ok l = true -> contains "/*" l = false -> line_imports l = imported [i] ->
    exists lss, Forall2 (fun i ls => Forall (fun l => line_ok l = true) ls /\ ls ≫= line_imports = imported [i]) (i :: items) lss /\
      text_of (strip_go false (chars (source_text (i :: items)))) = unlines (concat lss)).
  { intros l Ht Hl Hc Himp. exists ([l] :: lss). split.
    - constructor; [|done]. split; [by constructor|]. cbn [mbind list_bind]. by rewrite app_nil_r.
    - rewrite source_text_cons, Ht, str_app_assoc, stripped_line by done. rewrite text_of_app, text_of_cons, chars_text, IH.
      cbn [concat app]. by rewrite unlines_cons. }
  destruct i as [names quote path|text|line]; cbn [item_ok] in Hi.
  - pose proof Hi as [_ _ _ Hp _ Hcm]. apply (Hline (directive names quote path +:+ ";")).
    + cbn [item_text]. by rewrite str_app_assoc.
    + assert (Hp' : printable (directive names quote path +:+ ";") = true) by (unfold printable in *; rewrite str_all_app; by rewrite Hp).
      unfold line_ok. by rewrite printable_no_newline, ends_with_char_app.
    + done.
    + by rewrite directive_imports.
  - destruct Hi as [Hc Ht]. destruct (blanks_lines (chars text ++ [" "; " "]) 2) as [ns Hns].
    exists (map (fun m => indent m "") ns :: lss). split.
    + constructor; [|done]. split; [apply Forall_map, Forall_forall; intros m _; apply indent_line_ok|]. clear.
      induction ns as [|m ns IH]; [done|]. cbn [map mbind list_bind]. by rewrite blank_line_imports.
    + rewrite source_text_cons. cbn [item_text]. rewrite !str_app_assoc, stripped_comment by done.
      cbn [concat]. rewrite unlines_app, <- Hns, <- IH. rewrite map_app. change (map blank_char [" "; " "]%string) with [" "; " "]%string.
      cbn [indent]. match goal with |- _ = String _ (String _ ?y) +:+ ?x =>
        change (String " " (String " " y) +:+ x) with (" " +:+ (" " +:+ (y +:+ x))) end.
      rewrite !text_of_cons, !text_of_app, !text_of_cons, !str_app_assoc. done.
  - destruct Hi as (Hl & Hc & Himp). apply (Hline line); [done..|]. destruct Himp; [by apply line_comment_imports|by apply line_without_import].
Qed.

(** A source imports exactly what its directives name, in their order,
    whatever its comments and other lines say. *)
Lemma extract_source items : Forall item_ok items -> extract_imports (source_text items) = imported items.
Proof.
  intros HF. destruct (stripped_lines items HF) as (lss & Hls & Ht). unfold extract_imports, strip_block_comments. rewrite Ht.
  assert (Hok : Forall (fun l => line_ok l = true) (concat lss)).
  { clear -Hls. induction Hls as [|i ls items lss [Hl _] _ IH]; [constructor|]. by apply Forall_app. }
  rewrite lines_unlines by done. clear -Hls. induction Hls as [|i ls items lss [_ Hl] _ IH]; [done|].
  cbn [concat]. rewrite bind_app, Hl, IH. unfold imported. cbn [omap list_omap]. by destruct i.
Qed.

(** ** What is not found *)

(** An import spread over lines is missed: its path is on a line that does not
    start with [import]. *)
Definition spread_import : string := "import {" +:+ NL +:+ "  A" +:+ NL +:+ "} from " +:+ String QUOTE ("./A.sol" +:+ String QUOTE ";").
Lemma spread_import_missed : extract_imports spread_import = [].
Proof. reflexivity. Qed.

(** A line comment that holds the two characters that open a block comment hides
    the imports after it. *)
Lemma import_after_glob_missed :
  extract_imports ("// sources: lib/*.sol" +:+ NL +:+ directive "" QUOTE "./A.sol" +:+ ";") = [].
Proof. reflexivity. Qed.

(** ** Witnesses *)
Lemma import_found_witness : "./A.sol" ∈ extract_imports
  ("// SPDX /* */" +:+ NL +:+ directive "{A} from " QUOTE "./A.sol" +:+ ";" +:+ NL +:+ "contract B {}").
Proof.
  apply (import_found "// SPDX /* */" "{A} from " "./A.sol" "contract B {}" QUOTE).
  - split; [by left|by split|by split|by vm_compute..].
  - reflexivity.
  - reflexivity.
Defined.

Lemma extract_source_witness :
  extract_imports (source_text [BlockComment "* A comment"; Directive "{A} from " QUOTE "./A.sol"; OtherLine "contract B {}"]) = ["./A.sol"].
Proof.
  apply (extract_source [BlockComment "* A comment"; Directive "{A} from " QUOTE "./A.sol"; OtherLine "contract B {}"]).
  constructor; [by split|]. constructor; [split; [by left|by split|by split|by vm_compute..]|].
  constructor; [|constructor]. split; [done|]. split; [done|by right].
Defined.
