(* ===== verification/SourceResolver.v ===== *)
(** * SourceResolver: the sources a harness imports

    Models [compilers/solc/source.rs]: the imports read off the text of a
    source, the lookup of an import, and the walk that collects every source
    that the target reaches. The file system is the parameter of [Remappings];
    paths are compared by their components. *)
From stdpp Require Import relations.
From S2P Require Import Prelude.
From S2P Require Import Paths.
From S2P Require Import SourceMap.
From S2P Require Import SolcOutput.
From S2P Require Import Graphs.
From S2P Require Import SourceText.
From S2P Require Import Remappings.
From S2P Require Import Imports.

(** ** Components of paths *)
Inductive Component : Type := RootDir | CurDir | ParentDir | Normal (s : string).
Definition component_of (key : string) : Component :=
  if String.eqb key "/" then RootDir else if String.eqb key "." then CurDir else if String.eqb key ".." then ParentDir else Normal key.
Definition component_text (c : Component) : string :=
  match c with RootDir => "/" | CurDir => "." | ParentDir => ".." | Normal s => s end.

(** [PathBuf::push] of every component *)
Definition path_text (keys : list string) : string := foldl join "" keys.

Definition normalize_step (cs : list Component) (comp : Component) : list Component :=
  match comp with
  | ParentDir =>
      match last cs with
      | Some (Normal _) | Some ParentDir => removelast cs
      | Some RootDir => cs
      | _ => cs ++ [comp]
      end
  | CurDir => cs
  | _ => cs ++ [comp]
  end.
Definition normalize_path (path : string) : string :=
  path_text (map component_text (foldl normalize_step [] (map component_of (path_key path)))).

(** [Path::parent], [Path::strip_prefix] *)
Definition path_parent (path : string) : option string :=
  match last (path_key path) with
  | None => None
  | Some key => if String.eqb key "/" then None else Some (path_text (removelast (path_key path)))
  end.
Fixpoint strip_keys (base ks : list string) : option (list string) :=
  match base, ks with
  | [], _ => Some ks
  | b :: base', k :: ks' => if String.eqb b k then strip_keys base' ks' else None
  | _ :: _, [] => None
  end.
Definition path_strip_prefix (root path : string) : option string := path_text <$> strip_keys (path_key root) (path_key path).

(** ** Components are read back from the text of a path *)
Record plain_key (k : string) : Prop := {
  plain_slash : has_char "/" k = false;
  plain_nonempty : k <> "";
  plain_dot : k <> ".";
}.

Lemma components_plain p k : k ∈ components p -> plain_key k.
Proof. intros [[Hne Hd] Hs]%list_elem_of_filter. split; [by eapply split_on_no_sep|done|done]. Qed.

Lemma components_app base k ks : Forall plain_key (k :: ks) -> (base = "" \/ base = "/") ->
  foldl join base (k :: ks) = base +:+ String.concat "/" (k :: ks).
Proof.
  intros Hk Hbase. assert (Hj : join base k = base +:+ k).
  { inversion Hk as [|? ? [Hs _ _] _]; subst. rewrite join_plain by done. by destruct Hbase as [-> | ->]. }
  cbn [foldl]. rewrite Hj. clear Hj Hbase.
  revert base k Hk. induction ks as [|k' ks IH]; intros base k Hk; [done|].
  inversion Hk as [|? ? [Hs Hne _] Hk']; subst. cbn [foldl].
  assert (Hj : join (base +:+ k) k' = (base +:+ k +:+ "/") +:+ k').
  { inversion Hk' as [|? ? [Hs' _ _] _]; subst. by rewrite join_plain, join_prefix_plain by done. }
  rewrite Hj. change (foldl join (?x +:+ k') ks) with (foldl join (x +:+ k') ks).
  rewrite IH by done. change (String.concat "/" (k :: k' :: ks)) with (k +:+ "/" +:+ String.concat "/" (k' :: ks)).
  by rewrite !str_app_assoc.
Qed.

Lemma concat_components ks : Forall plain_key ks -> components (String.concat "/" ks) = ks.
Proof.
  intros Hk. destruct ks as [|k ks]; [done|]. unfold components, NL. rewrite split_on_concat; [|done|].
  - induction Hk as [|x xs [_ Hne Hd] _ IH]; [done|]. rewrite filter_cons_True by done. by rewrite IH.
  - by apply (Forall_impl _ _ _ Hk); intros ? [].
Qed.

Lemma is_absolute_cons a s : is_absolute (String a s) = Ascii.eqb "/" a.
Proof.
  change (is_absolute (String a s)) with (match (if Ascii.eqb "/" a then Some s else None) with Some _ => true | None => false end).
  by destruct (Ascii.eqb "/" a).
Qed.

Lemma concat_head k ks : plain_key k -> is_absolute (String.concat "/" (k :: ks)) = false /\
  match split_on "/" (String.concat "/" (k :: ks)) with "." :: _ => False | _ => True end.
Proof.
  intros [Hs Hne Hd]. split.
  - destruct k as [|a k]; [done|]. assert (Ha : Ascii.eqb "/" a = false).
    { unfold has_char in Hs. apply negb_false_iff, andb_true_iff in Hs as [Ha _]. rewrite Ascii.eqb_sym. by apply negb_true_iff. }
    destruct ks as [|k' ks]; [exact (eq_trans (is_absolute_cons a k) Ha)|].
    exact (eq_trans (is_absolute_cons a (k +:+ "/" +:+ String.concat "/" (k' :: ks))) Ha).
  - assert (Hh : exists rest, split_on "/" (String.concat "/" (k :: ks)) = k :: rest).
    { destruct ks as [|k' ks]; [exists []; by apply split_on_none|].
      eexists. exact (split_on_app "/" k _ Hs). }
    destruct Hh as [rest ->]. destruct k as [|a k]; [done|]. destruct a as [[] [] [] [] [] [] [] []], k; done.
Qed.

(** A path whose text is that of its components, starting at the root or not. *)
Lemma path_key_text ks : Forall plain_key ks -> path_key (path_text ks) = ks /\ path_key (path_text ("/" :: ks)) = "/" :: ks.
Proof.
  intros Hk. unfold path_text. destruct ks as [|k ks]; [done|]. split.
  - rewrite components_app by auto. change ("" +:+ ?x) with x. inversion Hk as [|? ? Hk1 _]; subst.
    destruct (concat_head k ks Hk1) as [Ha Hs]. unfold path_key. rewrite Ha, concat_components by done.
    destruct (split_on _ _) as [|[|a s] ?]; [done..|]. destruct a as [[] [] [] [] [] [] [] []], s; done.
  - cbn [foldl]. change (join "" "/") with "/". change (foldl join (join "/" k) ks) with (foldl join "/" (k :: ks)).
    rewrite components_app by auto. unfold path_key.
    change (is_absolute ("/" +:+ String.concat "/" (k :: ks))) with true. cbv iota. f_equal.
    rewrite <- (concat_components (k :: ks) Hk) at 2. unfold components.
    change ("/" +:+ ?x) with (String "/" x). cbn [split_on]. change (Ascii.eqb "/" "/") with true. cbv iota.
    by rewrite filter_cons_False by (by intros []).
Qed.

Lemma strip_keys_Some base ks rest : strip_keys base ks = Some rest <-> ks = base ++ rest.
Proof.
  revert ks. induction base as [|b base IH]; intros ks; cbn; [naive_solver|].
  destruct ks as [|k ks]; [done|]. destruct (String.eqb_spec b k) as [->|Hne]; [|naive_solver].
  rewrite IH. split; [by intros ->|by intros [= ->]].
Qed.

(** The text of an absolute path that was resolved by the file system. *)
Record canonical_form (p : string) : Prop := {
  canonical_absolute : is_absolute p = true;
  canonical_text : path_text (path_key p) = p;
}.

Lemma canonical_keys p : canonical_form p -> path_key p = "/" :: components p /\ Forall plain_key (components p).
Proof.
  intros [Ha _]. unfold path_key. rewrite Ha. split; [done|]. apply Forall_forall. intros k. apply components_plain.
Qed.

Lemma stripped_key root p t : canonical_form p -> path_strip_prefix root p = Some t -> path_key p = path_key root ++ path_key t.
Proof.
  intros Hp. unfold path_strip_prefix. destruct (strip_keys _ _) as [rest|] eqn:E; [|done]. intros [= <-].
  apply strip_keys_Some in E. destruct (canonical_keys p Hp) as [Hk Hpl]. rewrite E. f_equal. symmetry.
  destruct (path_key root) as [|b base]; cbn [app] in E.
  - rewrite <- E, Hk. by apply path_key_text.
  - apply path_key_text. rewrite Hk in E. injection E as _ E. rewrite E in Hpl. by apply Forall_app in Hpl as [_ ?].
Qed.

(** Sources at different paths keep different keys. *)
Lemma stripped_inj root p q : canonical_form p -> canonical_form q ->
  default p (path_strip_prefix root p) = default q (path_strip_prefix root q) -> p = q.
Proof.
  intros Hp Hq. assert (Hinj : path_key p = path_key q -> p = q).
  { intros E. by rewrite <- (canonical_text p Hp), <- (canonical_text q Hq), E. }
  assert (Hmix : forall p q, canonical_form p -> canonical_form q -> path_strip_prefix root p = Some q -> path_strip_prefix root q = None -> False).
  { clear. intros p q Hp Hq Ep Eq. pose proof (stripped_key _ _ _ Hp Ep) as Hk.
    destruct (canonical_keys p Hp) as [Hkp Hpl], (canonical_keys q Hq) as [Hkq _]. rewrite Hkp, Hkq in Hk.
    unfold path_strip_prefix in Eq. destruct (path_key root) as [|b base]; [done|]. injection Hk as _ Hk.
    assert (Hin : "/" ∈ components p) by (rewrite Hk, elem_of_app; right; left).
    rewrite Forall_forall in Hpl. by destruct (Hpl _ Hin). }
  destruct (path_strip_prefix root p) as [t|] eqn:Ep, (path_strip_prefix root q) as [u|] eqn:Eq; cbn [default from_option id].
  - intros ->. apply Hinj. by rewrite (stripped_key _ _ _ Hp Ep), (stripped_key _ _ _ Hq Eq).
  - intros ->. by destruct (Hmix p q).
  - intros ->. by destruct (Hmix q u).
  - done.
Qed.

Section Resolver.
Context `{ProjectFiles}.
Record SourceResolver : Type := mkSourceResolver { sr_root : string; sr_remappings : RemappingsResolver }.
Definition source_resolver_new : SourceResolver := mkSourceResolver "." resolver_default.
Definition resolver_with_root (r : SourceResolver) (root : string) : SourceResolver :=
  mkSourceResolver (default root (canonicalize root)) (sr_remappings r).
Definition resolver_with_remappings (r : SourceResolver) (remappings : RemappingsResolver) : SourceResolver :=
  mkSourceResolver (sr_root r) remappings.

Definition canonical (path : string) : string := default (normalize_path path) (canonicalize path).
Definition source_key (r : SourceResolver) (path : string) : string := default path (path_strip_prefix (sr_root r) path).
Definition parent_dir (path : string) : string := default "." (path_parent path).

Definition existing (path : string) : option string := if is_file path then Some path else None.

(** The file an import of a source in [parent] stands for. *)
Definition import_target (r : SourceResolver) (parent import : string) : option string :=
  let import_path := join parent import in
  match existing (normalize_path import_path) with
  | Some p => Some p
  | None =>
      match canonicalize import_path ≫= existing with
      | Some p => Some p
      | None =>
          match remap (sr_remappings r) import ≫= existing with
          | Some p => Some p
          | None => existing import
          end
      end
  end.

Definition read_source (path : string) : Res string :=
  with_context ("failed to read " +:+ path) (read_to_string path).

Definition import_targets (r : SourceResolver) (path content : string) : list string :=
  omap (M := list) (import_target r (parent_dir path)) (extract_imports content).

Fixpoint drop_visited (visited : gset string) (stack : list string) : list string :=
  match stack with
  | path :: rest => if bool_decide (canonical path ∈ visited) then drop_visited visited rest else stack
  | [] => []
  end.

(** The loop of [resolve]; the top of the stack is its head. *)
Fixpoint resolve_go (r : SourceResolver) (fuel : nat) (visited : gset string) (stack : list string)
    (sources : gmap string string) : Res (gmap string string) :=
  match drop_visited visited stack, fuel with
  | path :: rest, S fuel =>
      let path := canonical path in
      content ← read_source path;
      resolve_go r fuel ({[path]} ∪ visited) (reverse (import_targets r path content) ++ rest) (<[source_key r path := content]> sources)
  | _, _ => Ok sources
  end.
Definition resolve (r : SourceResolver) (fuel : nat) (target : string) : Res (gmap string string) :=
  resolve_go r fuel ∅ [target] ∅.

(** ** The sources are what the target reaches *)

(** What a canonical path imports: nothing when it cannot be read. *)
Definition imports_of (r : SourceResolver) (path : string) : list string :=
  match read_source path with Ok content => canonical <$> import_targets r path content | _ => [] end.
Definition reaches (r : SourceResolver) (target path : string) : Prop := rtc (edge (imports_of r)) (canonical target) path.

Definition add_source (r : SourceResolver) (sources : gmap string string) (pc : string * string) : gmap string string :=
  <[source_key r pc.1 := pc.2]> sources.
Definition read_pair (path : string) : Res (string * string) := content ← read_source path; mret (path, content).

Lemma closure_go_out {E K} `{Countable K} (key : E -> K) next fuel : forall seen stack out,
  closure_go key next fuel seen stack out = out ++ closure_go key next fuel seen stack [].
Proof.
  induction fuel as [|fuel IH]; intros seen stack out; cbn [closure_go]; destruct (drop_seen key seen stack); [by rewrite app_nil_r..|].
  rewrite IH, (IH _ _ ([] ++ [_])), app_assoc. done.
Qed.

Lemma drop_visited_seen visited stack : canonical <$> drop_visited visited stack = drop_seen id visited (canonical <$> stack).
Proof. induction stack as [|p stack IH]; [done|]. cbn. by case_bool_decide. Qed.

(** The walk is that of [Graphs], reading each source as it is found. *)
Lemma resolve_go_closure r fuel : forall visited stack sources,
  resolve_go r fuel visited stack sources =
    read ← mapRes read_pair (closure_go id (imports_of r) fuel visited (canonical <$> stack) []);
    Ok (foldl (add_source r) sources read).
Proof.
  induction fuel as [|fuel IH]; intros visited stack sources; cbn [resolve_go closure_go]; rewrite <- drop_visited_seen;
    destruct (drop_visited visited stack) as [|p rest]; [done..|].
  cbn [fmap list_fmap app]. rewrite closure_go_out. cbn [app mapRes id].
  assert (Hi : imports_of r (canonical p) = match read_source (canonical p) with
    Ok content => canonical <$> import_targets r (canonical p) content | _ => [] end) by done.
  assert (Hp : read_pair (canonical p) = content ← read_source (canonical p); mret (canonical p, content)) by done.
  rewrite Hi, Hp. clear Hi Hp. destruct (read_source (canonical p)) as [content|e|e]; [|done..].
  cbn [mbind Res_bind mret Res_ret]. rewrite IH, fmap_app, fmap_reverse.
  by destruct (mapRes read_pair _).
Qed.

Lemma read_source_Ok p content : read_source p = Ok content <-> read_to_string p = Ok content.
Proof. unfold read_source, with_context. by destruct (read_to_string p). Qed.

Lemma read_pair_Ok p pc : read_pair p = Ok pc <-> pc.1 = p /\ read_to_string p = Ok pc.2.
Proof.
  unfold read_pair. rewrite Res_bind_Ok. split.
  - intros (content & Hc%read_source_Ok & [= <-]). done.
  - destruct pc as [q content]. cbn. intros [-> Hc%read_source_Ok]. by exists content.
Qed.

Lemma mapRes_unread ps : (exists read, mapRes read_pair ps = Ok read) \/
  (forall read, mapRes read_pair ps <> Ok read) /\ exists p, p ∈ ps /\ forall content, read_to_string p <> Ok content.
Proof.
  induction ps as [|p ps IH]; [left; by exists []|]. cbn [mapRes].
  destruct (read_pair p) as [pc|e|e] eqn:E.
  - destruct IH as [[read ->]|[Hno (q & Hq & Hr)]]; [left; by eexists|].
    right. split; [|exists q; split; [by right|done]]. intros read (? & _ & (xs & Hxs & _)%Res_bind_Ok)%Res_bind_Ok. by eapply Hno.
  - right. split; [done|]. exists p. split; [left|]. intros content Hc.
    assert (read_pair p = Ok (p, content)) by (by apply read_pair_Ok). congruence.
  - right. split; [done|]. exists p. split; [left|]. intros content Hc.
    assert (read_pair p = Ok (p, content)) by (by apply read_pair_Ok). congruence.
Qed.

(** Sources with different keys are all kept. *)
Lemma add_sources r read key content : NoDup (source_key r ∘ fst <$> read) ->
  foldl (add_source r) ∅ read !! key = Some content <-> exists p, (p, content) ∈ read /\ key = source_key r p.
Proof.
  induction read as [|[q c] read IH] using rev_ind; intros Hn.
  - cbn. rewrite lookup_empty. split; [done|]. by intros (p & ?%elem_of_nil & _).
  - rewrite fmap_app in Hn. apply NoDup_app in Hn as (Hn & Hd & _). rewrite foldl_app. cbn [foldl]. unfold add_source at 1. cbn [fst snd].
    destruct (decide (source_key r q = key)) as [<-|Hne].
    + rewrite lookup_insert. rewrite decide_True by done. split.
      * intros [= ->]. exists q. split; [|done]. apply elem_of_app. right. left.
      * intros (p & [Hp|[= -> ->]%list_elem_of_singleton]%elem_of_app & Hk); [|done]. exfalso.
        apply (Hd (source_key r q)); [|left]. apply list_elem_of_fmap. by exists (p, content).
    + rewrite lookup_insert_ne, IH by done. split.
      * intros (p & Hp & Hk). exists p. split; [|done]. apply elem_of_app. by left.
      * intros (p & [Hp|[= -> ->]%list_elem_of_singleton]%elem_of_app & Hk); [by exists p|by subst].
Qed.

Lemma reaches_closure r target nodes fuel : (forall p, reaches r target p -> p ∈ nodes) -> (length nodes <= fuel)%nat ->
  let out := closure id (imports_of r) fuel (canonical target) in NoDup out /\ forall p, p ∈ out <-> reaches r target p.
Proof.
  intros Hnodes Hfuel.
  destruct (closure_spec id (imports_of r) (reaches r target) nodes) with (root := canonical target) (fuel := fuel) as (Hn & _ & Ho);
    [by intros e e' He Hi; eapply rtc_r| done | done | constructor | done |].
  rewrite list_fmap_id in Hn. done.
Qed.

(** ** The files a source imports, as documented

    An import names a file in the directory of the source or, when there is
    none, through the project's remappings or, when there is none either, in
    the current directory. *)
Definition relative_file (parent import file : string) : Prop :=
  is_file file = true /\
  (file = normalize_path (join parent import) \/
   is_file (normalize_path (join parent import)) = false /\ canonicalize (join parent import) = Some file).
Definition remapped_file (r : SourceResolver) (import file : string) : Prop :=
  remap (sr_remappings r) import = Some file /\ is_file file = true.

Inductive names_file (r : SourceResolver) (parent import : string) : string -> Prop :=
| names_relative file : relative_file parent import file -> names_file r parent import file
| names_remapped file :
    (forall f, ~ relative_file parent import f) -> remapped_file r import file -> names_file r parent import file
| names_current :
    (forall f, ~ relative_file parent import f) -> (forall f, ~ remapped_file r import f) -> is_file import = true ->
    names_file r parent import import.

(** A source [p] has an import directive that names the file [q]. *)
Definition imports_file (r : SourceResolver) (p q : string) : Prop :=
  exists items path file, read_to_string p = Ok (source_text items) /\ Forall item_ok items /\
    path ∈ imported items /\ names_file r (parent_dir p) path file /\ q = canonical file.
Definition needs (r : SourceResolver) (target path : string) : Prop := rtc (imports_file r) (canonical target) path.

Lemma existing_Some path file : existing path = Some file <-> file = path /\ is_file path = true.
Proof. unfold existing. destruct (is_file path); naive_solver. Qed.

Lemma import_target_names r parent import file : import_target r parent import = Some file <-> names_file r parent import file.
Proof.
  unfold import_target.
  assert (Hrel : forall f, relative_file parent import f <->
    existing (normalize_path (join parent import)) = Some f \/
    existing (normalize_path (join parent import)) = None /\ canonicalize (join parent import) ≫= existing = Some f).
  { intros f. unfold relative_file. rewrite bind_Some. setoid_rewrite existing_Some. unfold existing.
    destruct (is_file (normalize_path (join parent import))) eqn:E; naive_solver. }
  assert (Hmap : forall f, remapped_file r import f <-> remap (sr_remappings r) import ≫= existing = Some f).
  { intros f. unfold remapped_file. rewrite bind_Some. setoid_rewrite existing_Some. naive_solver. }
  destruct (existing (normalize_path (join parent import))) as [f1|].
  { split; [intros [= <-]; constructor; apply Hrel; by left|]. intros [f Hf|f Hn _|Hn _ _]; [apply Hrel in Hf; naive_solver|..];
      by destruct (Hn f1); apply Hrel; left. }
  destruct (canonicalize (join parent import) ≫= existing) as [f2|].
  { split; [intros [= <-]; constructor; apply Hrel; by right|]. intros [f Hf|f Hn _|Hn _ _]; [apply Hrel in Hf; naive_solver|..];
      by destruct (Hn f2); apply Hrel; right. }
  assert (Hno : forall f, ~ relative_file parent import f) by (intros f Hf; apply Hrel in Hf; naive_solver).
  destruct (remap (sr_remappings r) import ≫= existing) as [f3|].
  { split; [intros [= <-]; apply names_remapped; [done|by apply Hmap]|].
    intros [f Hf|f _ Hf|_ Hn _]; [by apply Hno in Hf|apply Hmap in Hf; naive_solver|]. by destruct (Hn f3); apply Hmap. }
  rewrite existing_Some. split.
  - intros [-> Hi]. apply names_current; [done| |done]. intros f Hf. by apply Hmap in Hf.
  - intros [f Hf|f _ Hf|_ _ Hi]; [by apply Hno in Hf|by apply Hmap in Hf|done].
Qed.

Lemma imports_file_edge r p q : imports_file r p q -> edge (imports_of r) p q.
Proof.
  intros (items & path & file & Hread & Hok & Hpath & Hfile & ->). unfold edge, imports_of.
  rewrite (proj2 (read_source_Ok p _) Hread). apply list_elem_of_fmap_2. unfold import_targets. apply list_elem_of_omap.
  exists path. split; [by rewrite extract_source|by apply import_target_names].
Qed.

Lemma needs_reaches r target p : needs r target p -> reaches r target p.
Proof.
  revert p. apply (rtc_ind_r (reaches r target)); [constructor|]. intros p q _ He IH. eapply rtc_r; [exact IH|by apply imports_file_edge].
Qed.

(** Every source that is read is made of directives, comments and other lines. *)
Definition plain_sources (r : SourceResolver) (target : string) : Prop :=
  forall p content, needs r target p -> read_to_string p = Ok content ->
    exists items, Forall item_ok items /\ content = source_text items.

Lemma reaches_needs r target p : plain_sources r target -> reaches r target p <-> needs r target p.
Proof.
  intros Hplain. split.
  - revert p. apply (rtc_ind_r (needs r target)); [constructor|]. intros p q _ He IH. eapply rtc_r; [exact IH|].
    unfold edge, imports_of in He. destruct (read_source p) as [content|e|e] eqn:E; [|by apply elem_of_nil in He..].
    apply read_source_Ok in E. destruct (Hplain p content IH E) as (items & Hok & ->).
    apply list_elem_of_fmap in He as (file & -> & (path & Hpath & Hfile)%list_elem_of_omap).
    exists items, path, file. split; [done|]. split; [done|]. split; [by rewrite extract_source in Hpath|]. split; [by apply import_target_names|done].
  - apply needs_reaches.
Qed.

Lemma resolved_sources (r : SourceResolver) (target : string) (nodes : list string) (fuel : nat) :
  (forall p, reaches r target p -> p ∈ nodes /\ canonical_form p) -> (length nodes <= fuel)%nat ->
  match resolve r fuel target with
  | Ok sources =>
      (forall p, reaches r target p -> exists content, read_to_string p = Ok content) /\
      forall key content, sources !! key = Some content <->
        exists p, reaches r target p /\ key = source_key r p /\ read_to_string p = Ok content
  | _ => exists p, reaches r target p /\ forall content, read_to_string p <> Ok content
  end.
Proof.
  intros Hr Hfuel. destruct (reaches_closure r target nodes fuel) as [Hn Ho]; [intros p Hp; by apply Hr|done|].
  unfold resolve. rewrite resolve_go_closure. cbn [fmap list_fmap]. change (closure_go id (imports_of r) fuel ∅ [canonical target] [])
    with (closure id (imports_of r) fuel (canonical target)). set (out := closure _ _ _ _) in *.
  destruct (mapRes_unread out) as [[read Hm]|[Hno (p & Hp & Hx)]].
  - rewrite Hm. cbn [mbind Res_bind]. apply mapRes_Ok in Hm.
    assert (Hread : forall p content, (p, content) ∈ read <-> reaches r target p /\ read_to_string p = Ok content).
    { intros p content. rewrite <- Ho. split.
      - intros [i Hi]%list_elem_of_lookup_1. destruct (Forall2_lookup_r _ _ _ _ _ Hm Hi) as (q & Hq & [Hqp Hc]%read_pair_Ok).
        cbn in Hqp, Hc. subst q. split; [by eapply list_elem_of_lookup_2|done].
      - intros [[i Hi]%list_elem_of_lookup_1 Hc]. destruct (Forall2_lookup_l _ _ _ _ _ Hm Hi) as ([q c] & Hq & [Hqp Hc']%read_pair_Ok).
        cbn in Hqp, Hc'. subst q. rewrite Hc in Hc'. injection Hc' as ->. by eapply list_elem_of_lookup_2. }
    split.
    + intros p [i Hi]%Ho%list_elem_of_lookup_1. destruct (Forall2_lookup_l _ _ _ _ _ Hm Hi) as ([q c] & _ & [_ Hc]%read_pair_Ok). by exists c.
    + intros key content. rewrite add_sources.
      * setoid_rewrite Hread. naive_solver.
      * rewrite list_fmap_compose. replace (fst <$> read) with out.
        -- apply NoDup_fmap_2_strong; [|done]. intros p q Hp%Ho%Hr Hq%Ho%Hr. exact (stripped_inj (sr_root r) p q (proj2 Hp) (proj2 Hq)).
        -- clear -Hm. induction Hm as [|p pc ps read [Hp _]%read_pair_Ok _ IH]; [done|]. cbn. by rewrite <- Hp, IH.
  - destruct (mapRes read_pair out) as [read| |]; [by destruct (Hno read)|..]; exists p; by rewrite <- Ho.
Qed.

End Resolver.

(** ** What is not found *)

(** A second leading parent directory undoes the first. *)
Lemma normalize_drops_parents : normalize_path "../../A.sol" = "A.sol".
Proof. reflexivity. Qed.

(** ** Witnesses *)
Definition toy_imports (import code : string) : list Item := [Directive "" QUOTE import; BlockComment "* A comment"; OtherLine code].
Definition toy_a : string := source_text (toy_imports "./B.sol" "contract A {}").
Definition toy_b : string := source_text (toy_imports "./A.sol" "contract B {}").
Definition toy_project : ProjectFiles := {|
  is_file p := String.eqb p "/p/src/A.sol" || String.eqb p "/p/src/B.sol";
  is_dir p := String.eqb p "/p" || String.eqb p "/p/src";
  read_to_string p := if String.eqb p "/p/src/A.sol" then Ok toy_a else if String.eqb p "/p/src/B.sol" then Ok toy_b else Err "not found";
  canonicalize p := Some p;
|}.
Definition toy_resolver : SourceResolver := mkSourceResolver "/p" resolver_default.

Lemma toy_needs p : @needs toy_project toy_resolver "/p/src/A.sol" p -> p ∈ ["/p/src/A.sol"; "/p/src/B.sol"].
Proof.
  intros Hp%needs_reaches. revert Hp.
  apply (rtc_closed (@imports_of toy_project toy_resolver) (fun p => p ∈ ["/p/src/A.sol"; "/p/src/B.sol"])); [left|].
  intros x y Hx Hxy. unfold edge in Hxy. apply elem_of_cons in Hx as [-> | ->%list_elem_of_singleton]; vm_compute in Hxy;
    apply list_elem_of_singleton in Hxy as ->; [right; left|left].
Qed.

Lemma toy_items : Forall item_ok (toy_imports "./B.sol" "contract A {}") /\ Forall item_ok (toy_imports "./A.sol" "contract B {}").
Proof.
  split; (constructor; [split; [by left|by split|by split|by vm_compute..]|]; constructor; [by split|]; constructor; [|constructor];
    split; [done|]; split; [done|by right]).
Qed.

Lemma toy_plain : @plain_sources toy_project toy_resolver "/p/src/A.sol".
Proof.
  intros p content Hp%toy_needs Hc. destruct toy_items as [Ha Hb].
  apply elem_of_cons in Hp as [-> | ->%list_elem_of_singleton]; injection Hc as <-; eexists; (split; [|reflexivity]); [exact Ha|exact Hb].
Qed.

