(* ===== verification/CompileCache.v ===== *)
(** * CompileCache: running the compiler once per input

    Models [compilers/solc/exec.rs] and [compilers/solc/input.rs]: the standard
    JSON input, the hash of a compilation, the cache of outputs and the run of
    the compiler. The compiler process, the installer, the serializer and the
    digest are parameters; files are a map from paths to their text. *)
From stdpp Require Import relations sorting.
From S2P Require Import Prelude.
From S2P Require Import Compare.
From S2P Require Import Paths.
From S2P Require Import Rpc.
From S2P Require Import Backend.
From S2P Require Import HarnessId.
From S2P Require Import SourceMap.
From S2P Require Import SolcOutput.
From S2P Require Import SourceText.

(** ** Canonical JSON *)
Fixpoint canonicalize_keys (value : Json) : Json :=
  match value with
  | JObject members =>
      let done := map (fun m => (m.1, canonicalize_keys m.2)) members in
      JObject (map (fun key => (key, default JNull (member key done))) (sort_by String.compare members.*1))
  | JArray items => JArray (map canonicalize_keys items)
  | other => other
  end.

(** Values as [serde_json] has them: an object has each key once. *)
Inductive json_ok : Json -> Prop :=
| ok_null : json_ok JNull
| ok_bool b : json_ok (JBool b)
| ok_int n : json_ok (JInt n)
| ok_float t : json_ok (JFloat t)
| ok_string s : json_ok (JString s)
| ok_array items : (forall v, v ∈ items -> json_ok v) -> json_ok (JArray items)
| ok_object members : NoDup members.*1 -> (forall k v, (k, v) ∈ members -> json_ok v) -> json_ok (JObject members).

(** One step of reordering the members of an object, at any depth. *)
Inductive reorder : Json -> Json -> Prop :=
| reorder_members ms ms' : ms ≡ₚ ms' -> reorder (JObject ms) (JObject ms')
| reorder_member ms1 k v v' ms2 : reorder v v' -> reorder (JObject (ms1 ++ (k, v) :: ms2)) (JObject (ms1 ++ (k, v') :: ms2))
| reorder_item vs1 v v' vs2 : reorder v v' -> reorder (JArray (vs1 ++ v :: vs2)) (JArray (vs1 ++ v' :: vs2)).

(** The same value but for the order of members. *)
Definition json_same : Json -> Json -> Prop := rtc reorder.

Lemma json_induction (P : Json -> Prop) :
  P JNull -> (forall b, P (JBool b)) -> (forall n, P (JInt n)) -> (forall t, P (JFloat t)) -> (forall s, P (JString s)) ->
  (forall items, Forall P items -> P (JArray items)) ->
  (forall members, Forall (fun m => P m.2) members -> P (JObject members)) -> forall v, P v.
Proof.
  intros Hn Hb Hi Hf Hs Ha Ho. fix IH 1. intros [| | | | |items|members]; [done|apply Hb|apply Hi|apply Hf|apply Hs| |].
  - apply Ha. induction items as [|v items IHl]; constructor; [apply IH|exact IHl].
  - apply Ho. induction members as [|m members IHl]; constructor; [apply IH|exact IHl].
Qed.

Lemma member_elem key ms v : NoDup ms.*1 -> member key ms = Some v <-> (key, v) ∈ ms.
Proof.
  induction ms as [|[k w] ms IH]; cbn; [intros _; split; [done|by intros ?%elem_of_nil]|].
  intros [Hk Hn]%NoDup_cons. rewrite elem_of_cons. destruct (String.eqb_spec k key) as [->|Hne].
  - split; [intros [= ->]; by left|]. intros [[= ->]|Hin]; [done|]. exfalso. apply Hk, list_elem_of_fmap. by exists (key, v).
  - rewrite IH by done. split; [by right|]. intros [[= -> ->]|Hin]; [done|done].
Qed.

Lemma member_map (f : Json -> Json) key ms : member key (map (fun m => (m.1, f m.2)) ms) = f <$> member key ms.
Proof. induction ms as [|[k w] ms IH]; [done|]. cbn. by destruct (String.eqb k key). Qed.

Lemma member_keys key ms : is_Some (member key ms) <-> key ∈ ms.*1.
Proof.
  induction ms as [|[k w] ms IH]; cbn; [split; [by intros [? ?]|by intros ?%elem_of_nil]|].
  rewrite elem_of_cons. destruct (String.eqb_spec k key) as [->|Hne]; [split; [by left|by eexists]|].
  rewrite IH. split; [by right|]. by intros [->|?].
Qed.

Lemma member_perm key ms ms' : NoDup ms.*1 -> ms ≡ₚ ms' -> member key ms = member key ms'.
Proof.
  intros Hn Hp. assert (Hn' : NoDup ms'.*1) by (by rewrite <- Hp). apply option_eq. intros v.
  by rewrite !member_elem, Hp by done.
Qed.

Lemma sorted_keys_perm (ks ks' : list string) : ks ≡ₚ ks' -> sort_by String.compare ks = sort_by String.compare ks'.
Proof. apply (sort_by_unique _ lawful_string). intros a b _ _. apply string_compare_eq. Qed.

(** The members after sorting are the members, each canonical. *)
Lemma canonical_members ms : NoDup ms.*1 ->
  (fun key => (key, default JNull (member key ms))) <$> sort_by String.compare ms.*1 ≡ₚ ms.
Proof.
  intros Hn. rewrite (sort_by_perm String.compare), <- list_fmap_compose.
  replace ((fun key => (key, default JNull (member key ms))) ∘ fst <$> ms) with ms; [done|].
  rewrite <- (list_fmap_id ms) at 1. apply list_fmap_ext. intros i [k v] Hi. cbn.
  apply list_elem_of_lookup_2, member_elem in Hi; [|done]. by rewrite Hi.
Qed.

Lemma canonical_object ms : canonicalize_keys (JObject ms) =
  JObject (map (fun key => (key, default JNull (canonicalize_keys <$> member key ms))) (sort_by String.compare ms.*1)).
Proof. cbn. f_equal. apply map_ext. intros key. by rewrite member_map. Qed.

Lemma canonical_object_fmap ms : NoDup ms.*1 -> canonicalize_keys (JObject ms) =
  JObject (map (fun m => (m.1, canonicalize_keys m.2)) (map (fun key => (key, default JNull (member key ms))) (sort_by String.compare ms.*1))).
Proof.
  intros Hn. rewrite canonical_object, map_map. f_equal. apply map_ext_in. intros key Hkey%list_elem_of_In. cbn.
  rewrite (sort_by_perm String.compare) in Hkey. apply member_keys in Hkey as [v ->]. done.
Qed.

Lemma canonical_perm ms ms' : NoDup ms.*1 -> ms ≡ₚ ms' -> canonicalize_keys (JObject ms) = canonicalize_keys (JObject ms').
Proof.
  intros Hn Hp. rewrite !canonical_object, (sorted_keys_perm ms.*1 ms'.*1) by (by rewrite Hp). f_equal. apply map_ext.
  intros key. by rewrite (member_perm key ms ms').
Qed.

Lemma member_mid key ms1 k v ms2 : member key (ms1 ++ (k, v) :: ms2) =
  match member key ms1 with Some w => Some w | None => if String.eqb k key then Some v else member key ms2 end.
Proof. induction ms1 as [|[j w] ms1 IH]; [done|]. cbn. by destruct (String.eqb j key). Qed.

Lemma reorder_canonical a b : reorder a b -> json_ok a -> canonicalize_keys a = canonicalize_keys b /\ json_ok b.
Proof.
  induction 1 as [ms ms' Hp|ms1 k v v' ms2 _ IH|vs1 v v' vs2 _ IH]; intros Hok; inversion Hok as [| | | | |? Hi|? Hn Hi]; subst.
  - split; [by apply canonical_perm|]. constructor; [by rewrite <- Hp|]. intros k v. rewrite <- Hp. apply Hi.
  - destruct IH as [IH Hv]; [apply (Hi k), elem_of_app; right; left|]. split.
    + rewrite !canonical_object, !fmap_app. f_equal. apply map_ext. intros key. rewrite !member_mid.
      destruct (member key ms1); [done|]. destruct (String.eqb k key); [by cbn; rewrite IH|done].
    + constructor; [by rewrite fmap_app in *|]. intros j w [Hin|[[= -> ->]|Hin]%elem_of_cons]%elem_of_app; [|done|];
        apply (Hi j), elem_of_app; [by left|by right; right].
  - destruct IH as [IH Hv]; [apply Hi, elem_of_app; right; left|]. split.
    + cbn. rewrite !map_app. cbn. by rewrite IH.
    + constructor. intros w [Hin|[->|Hin]%elem_of_cons]%elem_of_app; [|done|]; apply Hi, elem_of_app; [by left|by right; right].
Qed.

Lemma same_canonical a b : json_same a b -> json_ok a -> canonicalize_keys a = canonicalize_keys b /\ json_ok b.
Proof.
  induction 1 as [a|a b c Hab _ IH]; intros Hok; [done|]. destruct (reorder_canonical a b Hab Hok) as [-> Hb]. by apply IH.
Qed.

Lemma reorder_sym a b : reorder a b -> reorder b a.
Proof. induction 1; by constructor. Qed.
Lemma json_same_sym a b : json_same a b -> json_same b a.
Proof. induction 1 as [a|a b c Hab _ IH]; [constructor|]. eapply rtc_r; [exact IH|by apply reorder_sym]. Qed.

Lemma same_items vs ws : Forall2 json_same vs ws -> json_same (JArray vs) (JArray ws).
Proof.
  intros HF. enough (H : forall pre, json_same (JArray (pre ++ vs)) (JArray (pre ++ ws))) by exact (H []).
  induction HF as [|v w vs ws Hv _ IH]; intros pre; [constructor|].
  trans (JArray (pre ++ w :: vs)).
  - clear IH. induction Hv as [v|v x w Hvx _ IH]; [constructor|]. eapply rtc_l; [by apply reorder_item|exact IH].
  - specialize (IH (pre ++ [w])). by rewrite <- !app_assoc in IH.
Qed.

Lemma same_members (f : Json -> Json) ms : Forall (fun m => json_same m.2 (f m.2)) ms ->
  json_same (JObject ms) (JObject (map (fun m => (m.1, f m.2)) ms)).
Proof.
  intros HF. enough (H : forall pre, json_same (JObject (pre ++ ms)) (JObject (pre ++ map (fun m => (m.1, f m.2)) ms))) by exact (H []).
  induction HF as [|[k v] ms Hv _ IH]; intros pre; [constructor|]. cbn in *.
  trans (JObject (pre ++ (k, f v) :: ms)).
  - clear IH. induction Hv as [v|v x w Hvx _ IH]; [constructor|]. eapply rtc_l; [by apply reorder_member|exact IH].
  - specialize (IH (pre ++ [(k, f v)])). by rewrite <- !app_assoc in IH.
Qed.

Lemma canonical_same_self v : json_ok v -> json_same v (canonicalize_keys v).
Proof.
  induction v as [|b|n|t|s|items IH|ms IH] using json_induction; intros Hok; try constructor.
  - inversion Hok as [| | | | |? Hi|]; subst. cbn. apply same_items. rewrite Forall_forall in IH.
    apply Forall2_fmap_r, Forall_Forall2_diag, Forall_forall. intros w Hw. by apply IH, Hi.
  - inversion Hok as [| | | | | |? Hn Hi]; subst. rewrite canonical_object_fmap by done.
    eapply rtc_l; [apply reorder_members; symmetry; by apply canonical_members|].
    apply (same_members canonicalize_keys). rewrite Forall_forall in IH. apply Forall_forall. intros [k w] Hw.
    change (map ?f ?l) with (f <$> l) in Hw. rewrite canonical_members in Hw by done. cbn. apply (IH (k, w) Hw). by apply (Hi k).
Qed.

(** Canonical forms are equal exactly for values that differ in the order of
    members only. *)
Lemma canonical_iff a b : json_ok a -> json_ok b -> canonicalize_keys a = canonicalize_keys b <-> json_same a b.
Proof.
  intros Ha Hb. split; [|by intros H; apply same_canonical]. intros E.
  trans (canonicalize_keys a); [by apply canonical_same_self|]. rewrite E. by apply json_same_sym, canonical_same_self.
Qed.

(** ** The input *)

(** What the program sets of [solc::Settings]; the rest keeps its default,
    which is part of [settings_value]. *)
Record Settings : Type := mkSettings {
  set_remappings : option (list string);
  set_optimizer : option (bool * nat);
  set_evm_version : option string;
  set_via_ir : option bool;
  set_output_selection : list string * list string;
}.
(** [sources] is in the order in which the hash map is iterated. *)
Record StandardJSONInput : Type := mkInput { language : string; sources : list (string * string); settings : Settings }.

Record StandardJSONInputBuilder : Type := mkBuilder {
  b_sources : list (string * string);
  b_remappings : list string;
  b_evm_version : option string;
  b_optimizer : option (bool * nat);
  b_via_ir : option bool;
}.

Definition CONTRACT_OUTPUTS : list string :=
  ["abi"; "metadata"; "storageLayout"; "evm.bytecode.object"; "evm.bytecode.sourceMap"; "evm.bytecode.linkReferences";
   "evm.deployedBytecode.object"; "evm.deployedBytecode.sourceMap"; "evm.deployedBytecode.linkReferences";
   "evm.deployedBytecode.immutableReferences"; "evm.methodIdentifiers"].
Definition SOURCE_OUTPUTS : list string := ["ast"].

Definition build (b : StandardJSONInputBuilder) : StandardJSONInput :=
  mkInput "Solidity" (b_sources b)
    (mkSettings (match b_remappings b with [] => None | rs => Some rs end) (b_optimizer b) (b_evm_version b) (b_via_ir b)
       (CONTRACT_OUTPUTS, SOURCE_OUTPUTS)).

(** ** The output *)
Record SourceOutput : Type := mkSourceOutput { so_id : Z; so_ast : option Json }.
Section Executor.
Context `{AbiJson}.
Record StandardJSONOutput : Type := mkOutput {
  oj_contracts : Contracts;
  oj_sources : list (string * SourceOutput);
  oj_errors : option (list SolcError);
}.

(** The serializer of [serde] and the digest. *)
Class SolcText : Type := {
  source_value : string -> Json;
  settings_value : Settings -> Json;
  json_bytes : Json -> string;
  sha256_hex : string -> string;
  output_parse : string -> option StandardJSONOutput;
}.

(** How far a write to the cache gets: the directory is not made, the temporary
    file is not written or in part, it is not renamed, or it is. *)
Inductive CacheWrite : Type :=
| NoDirectory
| TemporaryFailed (remains : option string)
| NotRenamed
| Replaced.

Class SolcHost (W : Type) : Type := {
  ensure_installed : string -> M W unit;
  current_dir : W -> Res string;
  run_process : string -> string -> string -> M W (string * string);
  fresh_u64 : W -> Z;
  cache_write : string -> W -> CacheWrite;
}.

Context `{SolcText} {W : Type} `{SolcHost W}.

Record ExecState : Type := mkExecState { es_files : Files; es_world : W }.
Definition on_world {A} (m : M W A) : M ExecState A :=
  fun st => let '(r, w) := m (es_world st) in (r, mkExecState (es_files st) w).

Record SolcExecutor : Type := mkExecutor {
  ex_version : option string;
  ex_root : option string;
  ex_input : option StandardJSONInput;
  ex_cache : option string;
}.
Definition executor_new : SolcExecutor := mkExecutor None None None None.

(** [BTreeMap]: sorted by the text of the path *)
Definition by_path (a b : string * string) : comparison := String.compare a.1 b.1.
Definition hashed_value (version : string) (input : StandardJSONInput) : Json :=
  JObject [("version", JString version); ("language", JString (language input));
           ("sources", JObject (map (fun s => (s.1, source_value s.2)) (sort_by by_path (sources input))));
           ("settings", settings_value (settings input))].
Definition compile_hash (version : string) (input : StandardJSONInput) : string :=
  sha256_hex (json_bytes (canonicalize_keys (hashed_value version input))).

Definition read_cache (files : Files) (path : string) : option StandardJSONOutput :=
  content ← files !! path; output_parse content.

(** [path.with_extension("json.{n}.tmp")] *)
Definition temporary (path : string) (n : Z) : string := with_extension path ("json." +:+ fmt_dec n +:+ ".tmp").

Definition write_cache (path output : string) : M ExecState unit := fun st =>
  let tmp := temporary path (fresh_u64 (es_world st)) in
  match cache_write path (es_world st) with
  | NoDirectory => (Err ("failed to create " +:+ path), st)
  | TemporaryFailed remains =>
      (Err ("failed to write " +:+ tmp),
       mkExecState (match remains with Some partial => <[tmp := partial]> (es_files st) | None => es_files st end) (es_world st))
  | NotRenamed => (Err ("failed to write " +:+ path), mkExecState (<[tmp := output]> (es_files st)) (es_world st))
  | Replaced => (Ok (), mkExecState (<[path := output]> (delete tmp (<[tmp := output]> (es_files st)))) (es_world st))
  end.

(** [settings.remove("viaIr")], [settings.insert("viaIR", ..)] *)
Definition without (key : string) (ms : list (string * Json)) : list (string * Json) :=
  base.filter (fun m => m.1 <> key) ms.
Definition rename_via_ir (settings : Json) : Json :=
  match settings with
  | JObject ms => match member "viaIr" ms with Some v => JObject (without "viaIR" (without "viaIr" ms) ++ [("viaIR", v)]) | None => settings end
  | _ => settings
  end.
Definition process_input (input : StandardJSONInput) : string :=
  json_bytes (JObject [("language", JString (language input));
    ("sources", JObject (map (fun s => (s.1, source_value s.2)) (sources input)));
    ("settings", rename_via_ir (settings_value (settings input)))]).

Definition binary_path (version : string) : string := join ".ripfuzz/bin" ("solc-" +:+ version).
Definition resolve_binary (binary : string) : M W string := fun w =>
  if is_absolute binary then (Ok binary, w)
  else (dir ← with_context "failed to get current dir" (current_dir w); mret (join dir binary), w).

Definition error_messages (output : StandardJSONOutput) : list string :=
  match oj_errors output with
  | None => []
  | Some es => map (fun e => default (err_message e) (formatted_message e)) (base.filter (fun e => severity e = SevError) es)
  end.

Definition is_nil {A} (l : list A) : bool := match l with [] => true | _ => false end.

(** The output of a run, unless the compiler failed. *)
Definition accept_output (stdout stderr : string) : Res StandardJSONOutput :=
  parsed ← context (output_parse stdout) ("failed to parse solc output: " +:+ stdout +:+ " stderr: " +:+ stderr);
  _ ← ensure (is_nil (error_messages parsed)) ("solc compilation failed:" +:+ NL +:+ String.concat NL (error_messages parsed));
  _ ← ensure (negb (is_nil (oj_contracts parsed) && is_nil (oj_sources parsed) && negb (String.eqb (str_trim stderr) "")))
        ("solc compilation failed: " +:+ str_trim stderr);
  mret parsed.

Definition compile_run (version root : string) (input : StandardJSONInput) (cache_path : option string) : M ExecState StandardJSONOutput :=
  _ ← on_world (ensure_installed version);
  binary ← on_world (resolve_binary (binary_path version));
  out ← on_world (run_process binary root (process_input input));
  parsed ← lift (accept_output out.1 out.2);
  _ ← match cache_path with Some path => write_cache path out.1 | None => mret () end;
  mret parsed.

Definition cache_entry (dir version : string) (input : StandardJSONInput) : string :=
  join dir (compile_hash version input +:+ ".json").

Definition exec (e : SolcExecutor) : M ExecState StandardJSONOutput := fun st =>
  match ex_input e, ex_version e with
  | None, _ => (Err "solc input not set, call SolcExecutor::new().with_input(..)", st)
  | Some _, None => (Err "solc version not set, call SolcExecutor::new().with_version(..)", st)
  | Some input, Some version =>
      let root := default "." (ex_root e) in
      let cache_path := (fun dir => cache_entry dir version input) <$> ex_cache e in
      match cache_path ≫= read_cache (es_files st) with
      | Some cached => (Ok cached, st)
      | None => compile_run version root input cache_path st
      end
  end.
End Executor.

(** ** The hash of a compilation *)
Section Hash.
Context `{SolcText}.

(** What is assumed of the serializer: objects have each key once, and the
    value of a source keeps its text. *)
Class SolcTextLaws : Prop := {
  source_value_ok : forall c, json_ok (source_value c);
  source_value_inj : forall c c', json_same (source_value c) (source_value c') -> c = c';
  settings_value_ok : forall s, json_ok (settings_value s);
  json_bytes_inj : forall v v', json_bytes v = json_bytes v' -> v = v';
}.
Context `{SolcTextLaws}.

Definition source_members (ss : list (string * string)) : list (string * Json) := map (fun s => (s.1, source_value s.2)) ss.

Lemma source_keys ss : (source_members ss).*1 = ss.*1.
Proof. induction ss as [|s ss IH]; [done|]. exact (f_equal (cons s.1) IH). Qed.

Lemma source_elem ss p v : (p, v) ∈ source_members ss <-> exists c, v = source_value c /\ (p, c) ∈ ss.
Proof.
  unfold source_members. change (map ?f ?l) with (f <$> l). rewrite list_elem_of_fmap. split.
  - intros ([q c] & [= -> ->] & Hin). by exists c.
  - intros (c & -> & Hin). by exists (p, c).
Qed.

Lemma source_members_ok ss : NoDup ss.*1 -> json_ok (JObject (source_members ss)).
Proof. intros Hn. constructor; [by rewrite source_keys|]. intros k v (c & -> & _)%source_elem. apply source_value_ok. Qed.

Lemma sorted_sources_perm ss : sort_by by_path ss ≡ₚ ss.
Proof. apply sort_by_perm. Qed.

Lemma canonical_entry ms ms' k v : NoDup ms.*1 -> NoDup ms'.*1 -> canonicalize_keys (JObject ms) = canonicalize_keys (JObject ms') ->
  (k, v) ∈ ms -> exists v', (k, v') ∈ ms' /\ canonicalize_keys v = canonicalize_keys v'.
Proof.
  intros Hn Hn' E Hin. rewrite !canonical_object_fmap in E by done. injection E as E.
  assert (Hk : (k, canonicalize_keys v) ∈ map (fun m => (m.1, canonicalize_keys m.2)) (map (fun key => (key, default JNull (member key ms)))
    (sort_by String.compare ms.*1))).
  { change (map ?f (map ?g ?l)) with (f <$> (g <$> l)). rewrite canonical_members by done. apply list_elem_of_fmap. by exists (k, v). }
  rewrite E in Hk. change (map ?f (map ?g ?l)) with (f <$> (g <$> l)) in Hk. rewrite canonical_members in Hk by done.
  apply list_elem_of_fmap in Hk as ([j w] & [= <- Hw] & Hj). by exists w.
Qed.

Lemma canonical_sources ss ss' : NoDup ss.*1 -> NoDup ss'.*1 ->
  canonicalize_keys (JObject (source_members ss)) = canonicalize_keys (JObject (source_members ss')) -> ss ⊆ ss'.
Proof.
  intros Hn Hn' E [p c] Hin. destruct (canonical_entry (source_members ss) (source_members ss') p (source_value c)) as (v & Hv & Hc).
  - by rewrite source_keys.
  - by rewrite source_keys.
  - done.
  - apply source_elem. by exists c.
  - apply source_elem in Hv as (c' & -> & Hin'). apply canonical_iff, source_value_inj in Hc as ->; [done|apply source_value_ok..].
Qed.

Lemma hashed_canonical version input : canonicalize_keys (hashed_value version input) =
  JObject [("language", JString (language input)); ("settings", canonicalize_keys (settings_value (settings input)));
    ("sources", canonicalize_keys (JObject (source_members (sort_by by_path (sources input))))); ("version", JString version)].
Proof. reflexivity. Qed.

Lemma sorted_sources_eq ss ss' : NoDup ss.*1 -> ss ≡ₚ ss' ->
  canonicalize_keys (JObject (source_members (sort_by by_path ss))) = canonicalize_keys (JObject (source_members (sort_by by_path ss'))).
Proof.
  intros Hn Hp. apply canonical_perm.
  - by rewrite source_keys, sorted_sources_perm.
  - unfold source_members. change (map ?f ?l) with (f <$> l). by rewrite !sorted_sources_perm, Hp.
Qed.

(** The compilations that should share an entry. *)
Definition same_compilation (version : string) (input : StandardJSONInput) (version' : string) (input' : StandardJSONInput) : Prop :=
  version = version' /\ language input = language input' /\ sources input ≡ₚ sources input' /\
  json_same (settings_value (settings input)) (settings_value (settings input')).

(** The text that is hashed. *)
Definition hashed_text (version : string) (input : StandardJSONInput) : string :=
  json_bytes (canonicalize_keys (hashed_value version input)).

(** Two different texts with one digest. *)
Definition collide (a b : string) : Prop := a <> b /\ sha256_hex a = sha256_hex b.

Lemma canonical_same_sources ss ss' : NoDup ss.*1 -> NoDup ss'.*1 ->
  canonicalize_keys (JObject (source_members (sort_by by_path ss))) = canonicalize_keys (JObject (source_members (sort_by by_path ss'))) ->
  ss ≡ₚ ss'.
Proof.
  intros Hn Hn' E.
  assert (Hsub : forall ss ss', NoDup ss.*1 -> NoDup ss'.*1 ->
    canonicalize_keys (JObject (source_members (sort_by by_path ss))) = canonicalize_keys (JObject (source_members (sort_by by_path ss'))) -> ss ⊆ ss').
  { intros s s' Hd Hd' Es x Hx. rewrite <- (sorted_sources_perm s'). revert Hx. rewrite <- (sorted_sources_perm s).
    apply canonical_sources; [by rewrite sorted_sources_perm..|done]. }
  apply NoDup_Permutation; [by eapply NoDup_fmap_1..|]. intros x. split; [by apply Hsub|by apply Hsub].
Qed.

Lemma hashed_text_iff version version' input input' :
  NoDup (sources input).*1 -> NoDup (sources input').*1 ->
  hashed_text version input = hashed_text version' input' <-> same_compilation version input version' input'.
Proof.
  intros Hn Hn'. unfold hashed_text, same_compilation.
  rewrite !hashed_canonical, <- (canonical_iff _ _ (settings_value_ok _) (settings_value_ok _)). split.
  - intros [= Hl Hs Hss Hv]%json_bytes_inj. split_and!; [done..| |done].
    apply canonical_same_sources; [done..|]. cbn [canonicalize_keys]. by rewrite Hss.
  - intros (-> & -> & Hp & ->). by rewrite (sorted_sources_eq (sources input) (sources input')).
Qed.

(** C33: the text hashed for two compilations is the same exactly when the
    compiler version, the language and the sources are the same and the settings
    differ at most in the order of the members of objects; the order in which
    the sources come out of their hash map does not matter. So two compilations
    share a cache entry exactly when they are the same or the digests of their
    two different texts collide. *)
Theorem compile_hash_spec (version version' : string) (input input' : StandardJSONInput) :
  NoDup (sources input).*1 -> NoDup (sources input').*1 ->
  (hashed_text version input = hashed_text version' input' <-> same_compilation version input version' input') /\
  (compile_hash version input = compile_hash version' input' <->
    same_compilation version input version' input' \/ collide (hashed_text version input) (hashed_text version' input')).
Proof.
  intros Hn Hn'. pose proof (hashed_text_iff version version' input input' Hn Hn') as Hiff. split; [done|].
  change (sha256_hex (hashed_text version input) = sha256_hex (hashed_text version' input') <->
    same_compilation version input version' input' \/ collide (hashed_text version input) (hashed_text version' input')).
  split; [|intros [Hs|[_ Hc]]; [apply Hiff in Hs; by rewrite Hs|done]].
  intros Hd. destruct (decide (hashed_text version input = hashed_text version' input')) as [Ht|Ht]; [left; by apply Hiff|by right].
Qed.
End Hash.

(** ** The cache *)
Section Cache.
Context `{AbiJson} `{SolcText} {W : Type} `{SolcHost W}.
Implicit Types (st : @ExecState W).

Lemma join_json dir h : exists p, join dir (h +:+ ".json") = p +:+ ".json".
Proof.
  unfold join. destruct (is_absolute _); [by exists h|]. destruct (_ || _).
  - exists (dir +:+ h). by rewrite str_app_assoc.
  - exists (dir +:+ "/" +:+ h). by rewrite !str_app_assoc.
Qed.

Lemma temporary_tmp path n : exists p, temporary path n = p +:+ ".tmp".
Proof.
  unfold temporary, with_extension. destruct (split_file path) as [d f]. cbv zeta.
  set (stem := match rsplit "." f with Some (EmptyString, _) | None => f | Some (st, _) => st end).
  exists (d +:+ stem +:+ "." +:+ "json." +:+ fmt_dec n). by rewrite !str_app_assoc.
Qed.

Lemma entry_not_temporary dir version input path n : cache_entry dir version input <> temporary path n.
Proof.
  intros E. destruct (join_json dir (compile_hash version input)) as [p Hp], (temporary_tmp path n) as [q Hq].
  unfold cache_entry in E. rewrite Hp, Hq in E. apply (f_equal (ends_with_char "p")) in E.
  by rewrite !ends_with_char_app in E by done.
Qed.

(** What a run of the compiler leaves in the files. *)
Definition same_but (path : string) (files files' : Files) : Prop :=
  forall p, p <> path -> (forall n, p <> temporary path n) -> files' !! p = files !! p.

Lemma on_world_files {A} (m : M W A) st : es_files (on_world m st).2 = es_files st.
Proof. unfold on_world. by destruct (m (es_world st)). Qed.

(** A write to the cache succeeds with the whole text or leaves the entry. *)
Lemma write_cache_spec dir version input out st :
  let path := cache_entry dir version input in
  let st' := (write_cache path out st).2 in
  same_but path (es_files st) (es_files st') /\
  match (write_cache path out st).1 with Ok _ => es_files st' !! path = Some out | _ => es_files st' !! path = es_files st !! path end.
Proof.
  intros path. unfold write_cache. set (n := fresh_u64 _).
  assert (Hne : forall m, path <> temporary path m) by (intros m; apply entry_not_temporary).
  assert (Htmp : forall text, same_but path (es_files st) (<[temporary path n := text]> (es_files st)) /\
    <[temporary path n := text]> (es_files st) !! path = es_files st !! path).
  { intros text. split; [intros p _ Hp; by rewrite lookup_insert_ne|by rewrite lookup_insert_ne]. }
  destruct (cache_write path (es_world st)) as [|[partial|]| |]; cbn [fst snd es_files]; [split; [by intros p|done]|apply Htmp|split; [by intros p|done]|apply Htmp|].
  split; [|apply lookup_insert_eq].
  intros p Hp Ht. rewrite lookup_insert_ne, lookup_delete_ne, lookup_insert_ne by done. done.
Qed.

Lemma compile_run_spec dir version root input st :
  let path := cache_entry dir version input in
  let r := compile_run version root input (Some path) st in
  same_but path (es_files st) (es_files r.2) /\
  match r.1 with Ok out => read_cache (es_files r.2) path = Some out | _ => es_files r.2 !! path = es_files st !! path end.
Proof.
  intros path. cbv zeta. assert (Hkeep : forall st', es_files st' = es_files st -> same_but path (es_files st) (es_files st') /\ es_files st' !! path = es_files st !! path).
  { intros st' ->. split; [by intros p|done]. }
  unfold compile_run, mbind, M_bind.
  destruct (on_world (ensure_installed version) st) as [[u|m|m] st1] eqn:E1; pose proof (on_world_files (ensure_installed version) st) as F1;
    rewrite E1 in F1; cbn [fst snd] in *; [|by apply Hkeep..].
  destruct (on_world (resolve_binary (binary_path version)) st1) as [[binary|m|m] st2] eqn:E2;
    pose proof (on_world_files (resolve_binary (binary_path version)) st1) as F2; rewrite E2 in F2; cbn [fst snd] in *; [|by apply Hkeep; congruence..].
  destruct (on_world (run_process binary root (process_input input)) st2) as [[[stdout stderr]|m|m] st3] eqn:E3;
    pose proof (on_world_files (run_process binary root (process_input input)) st2) as F3; rewrite E3 in F3; cbn [fst snd] in *; [|by apply Hkeep; congruence..].
  assert (F : es_files st3 = es_files st) by congruence. unfold lift. cbn [fst snd].
  destruct (accept_output stdout stderr) as [out|m|m] eqn:Eo; cbn [fst snd]; [|by apply Hkeep..].
  destruct (write_cache_spec dir version input stdout st3) as [Hs Hw]. fold path in Hs, Hw. rewrite F in Hs, Hw.
  destruct (write_cache path stdout st3) as [[u'|m|m] st4]; cbn [fst snd] in *; [|by split..]. split; [done|].
  change (read_cache (es_files st4) path = Some out). unfold read_cache. rewrite Hw. cbn [mbind option_bind]. unfold accept_output in Eo. destruct (output_parse stdout) as [parsed|]; [|done].
  cbn [context] in Eo. inv_ok. done.
Qed.

(** C32: a compilation that succeeded is never run again: its output is in the
    cache, and every later call with the same version and input, with whatever
    process, returns it and changes nothing. A compilation that failed leaves
    the entry as it was; a partial output is never an entry. Nothing but the
    entry and its temporary files changes. *)
Theorem compiled_once (e : SolcExecutor) (dir version : string) (input : StandardJSONInput) st :
  ex_cache e = Some dir -> ex_version e = Some version -> ex_input e = Some input ->
  let path := cache_entry dir version input in
  let r := exec e st in
  same_but path (es_files st) (es_files r.2) /\
  match r.1 with
  | Ok out => forall e' input' st2, ex_cache e' = Some dir -> ex_version e' = Some version -> ex_input e' = Some input' ->
      compile_hash version input' = compile_hash version input -> es_files st2 !! path = es_files r.2 !! path -> exec e' st2 = (Ok out, st2)
  | _ => es_files r.2 !! path = es_files st !! path
  end.
Proof.
  intros Hc Hv Hi path r.
  assert (Hr : same_but path (es_files st) (es_files r.2) /\
    match r.1 with Ok out => read_cache (es_files r.2) path = Some out | _ => es_files r.2 !! path = es_files st !! path end).
  { unfold r, exec. rewrite Hc, Hv, Hi. cbn [fmap option_fmap option_map mbind option_bind]. fold path.
    destruct (read_cache (es_files st) path) as [cached|] eqn:E; [split; [by intros p|done]|]. apply compile_run_spec. }
  destruct Hr as [Hs Hr]. split; [done|]. destruct (r.1) as [out|m|m]; [|done..].
  intros e' input' st2 Hc' Hv' Hi' Hh Hf. unfold exec. rewrite Hc', Hv', Hi'. cbn [fmap option_fmap option_map mbind option_bind].
  unfold cache_entry. rewrite Hh. change (join dir (compile_hash version input +:+ ".json")) with path.
  replace (read_cache (es_files st2) path) with (Some out); [done|]. symmetry. unfold read_cache in *. by rewrite Hf.
Qed.
End Cache.

(** ** Witnesses *)
Module ToySolc.
#[export] Instance no_abi : AbiJson := { AbiItems := bool; json := bool; to_value b := Ok b; from_value b := Err "no ABI" }.

Definition empty_output : StandardJSONOutput := mkOutput [] [] None.
Definition settings_json (s : Settings) : Json :=
  JObject [("outputs", JArray (map JString s.(set_output_selection).1)); ("viaIr", JBool (default false (set_via_ir s)))].

(** A digest of 256 bits. *)
Fixpoint digest_from (h : Z) (s : string) : Z :=
  match s with EmptyString => h | String c s => digest_from ((257 * h + Z.of_nat (Ascii.nat_of_ascii c)) mod 2 ^ 256) s end.

(** A serializer that can be read back. *)
#[export] Instance exact_text : SolcText := {
  source_value c := JObject [("content", JString c)];
  settings_value := settings_json;
  json_bytes := ToyRpc.render;
  sha256_hex s := fmt_dec (digest_from 7 s);
  output_parse s := if String.eqb s "{}" then Some empty_output else None;
}.

Lemma single_ok k v : json_ok v -> json_ok (JObject [(k, v)]).
Proof. intros Hv. constructor; [apply NoDup_singleton|]. by intros ? ? [= -> ->]%list_elem_of_singleton. Qed.

#[export] Instance exact_laws : SolcTextLaws.
Proof.
  split.
  - intros c. apply single_ok. constructor.
  - intros c c' Hs. apply canonical_iff in Hs; [by injection Hs|apply single_ok; constructor..].
  - intros s. constructor; [apply (bool_decide_unpack _); by vm_compute|].
    intros k v [[= -> ->]|[= -> ->]%list_elem_of_singleton]%elem_of_cons; [|constructor].
    constructor. intros v (t & -> & _)%list_elem_of_fmap. constructor.
  - intros v v' E. apply (f_equal ToyRpc.read) in E. pose proof (@json_parse_to_string _ ToyRpc.text_laws) as Hr. cbn in Hr.
    rewrite !Hr in E. by injection E.
Qed.

(** Hashes that are one letter, for a cache that can be computed. *)
Definition short_text : SolcText := {|
  source_value c := JString c;
  settings_value s := JNull;
  json_bytes v := "input";
  sha256_hex s := "a";
  output_parse s := if String.eqb s "{}" then Some empty_output else None;
|}.

(** A process that works once: the world counts its runs. *)
Definition one_run : @SolcHost nat := {|
  ensure_installed v w := (Ok (), w);
  current_dir w := Ok "/home";
  run_process binary root input w := match w with O => (Ok ("{}", ""), 1%nat) | _ => (Err "no compiler", w) end;
  fresh_u64 w := 7;
  cache_write path w := Replaced;
|}.

Definition input (order : list (string * string)) : StandardJSONInput := build (mkBuilder order [] None None (Some true)).
Definition executor : SolcExecutor := mkExecutor (Some "0.8.36") None (Some (input [("A.sol", "contract A {}")])) (Some "out").
Definition compiles : @SolcExecutor -> @ExecState nat -> _ := @exec no_abi short_text nat one_run.
End ToySolc.
Import ToySolc.

Lemma compile_hash_spec_witness :
  @compile_hash _ exact_text "0.8.36" (input [("A.sol", "a"); ("B.sol", "b")]) =
  @compile_hash _ exact_text "0.8.36" (input [("B.sol", "b"); ("A.sol", "a")]).
Proof.
  apply (@compile_hash_spec _ exact_text exact_laws "0.8.36" "0.8.36" (input [("A.sol", "a"); ("B.sol", "b")]) (input [("B.sol", "b"); ("A.sol", "a")])).
  - apply (bool_decide_unpack _). by vm_compute.
  - apply (bool_decide_unpack _). by vm_compute.
  - left. split_and!; [reflexivity|reflexivity|apply Permutation_swap|constructor].
Defined.

(** The first call runs the compiler, the second does not: it would fail. *)
Lemma compiled_once_witness :
  let r := compiles executor (mkExecState ∅ 0%nat) in
  r.1 = Ok empty_output /\ es_world r.2 = 1%nat /\ compiles executor r.2 = (Ok empty_output, r.2).
Proof.
  destruct (@compiled_once no_abi short_text nat one_run executor "out" "0.8.36" (input [("A.sol", "contract A {}")]) (mkExecState ∅ 0%nat)
    eq_refl eq_refl eq_refl) as [_ H].
  split; [by vm_compute|]. split; [by vm_compute|].
  assert (E : (@exec no_abi short_text nat one_run executor (mkExecState ∅ 0%nat)).1 = Ok empty_output) by (by vm_compute).
  rewrite E in H. exact (H executor (input [("A.sol", "contract A {}")]) _ eq_refl eq_refl eq_refl eq_refl eq_refl).
Defined.
