(* ===== verification/SolcDriver.v ===== *)
(** * SolcDriver: from a harness file to its compiled contract

    Models [Solc] and [write_output] ([compilers/solc/mod.rs]) and the
    installer's choices ([compilers/solc/installer.rs]): the paths of a
    compilation, the chain from the target to the output, and the artifacts.
    Directories and files that cannot be made are outcomes of the host. *)
From S2P Require Import Prelude.
From S2P Require Import Paths.
From S2P Require Import Rpc.
From S2P Require Import Backend.
From S2P Require Import HarnessId.
From S2P Require Import SourceMap.
From S2P Require Import SolcOutput.
From S2P Require Import SourceText.
From S2P Require Import Remappings.
From S2P Require Import Imports.
From S2P Require Import SourceResolver.
From S2P Require Import CompileCache.

(** ** The builder *)
Record Solc : Type := mkSolc {
  s_version : option string;
  s_target : option string;
  s_name : option string;
  s_out : option string;
  s_root : option string;
  s_evm_version : option string;
  s_optimizer : option (bool * nat);
  s_via_ir : option bool;
  s_remappings : list string;
}.
Definition solc_new : Solc := mkSolc None None None None None None None None [].

Definition solc_resolve (s : Solc) (path : string) : string :=
  if is_absolute path then path else match s_root s with Some root => join root path | None => path end.
Definition out_dir (s : Solc) : string := solc_resolve s (default ".ripfuzz/solc" (s_out s)).

(** [strip_dot_prefix]; every step drops two characters, so the length of the
    path is enough fuel. *)
Fixpoint strip_dot_go (fuel : nat) (display : string) : string :=
  match fuel with
  | O => display
  | S fuel =>
      match strip_prefix "./" display with
      | Some stripped => strip_dot_go fuel stripped
      | None => match strip_prefix ".\" display with Some stripped => strip_dot_go fuel stripped | None => display end
      end
  end.
Definition strip_dot_prefix (path : string) : string := strip_dot_go (String.length path) path.

Lemma strip_prefix_two a b s t : strip_prefix (String a (String b "")) s = Some t -> String.length s = S (S (String.length t)).
Proof. intros ->%strip_prefix_Some. done. Qed.

Lemma strip_dot_fuel fuel : forall display, (String.length display <= fuel)%nat ->
  starts_with "./" (strip_dot_go fuel display) = false /\ starts_with ".\" (strip_dot_go fuel display) = false.
Proof.
  induction fuel as [|fuel IH]; intros d Hd; cbn [strip_dot_go]; [by destruct d; [|cbn in Hd; lia]|].
  destruct (strip_prefix "./" d) as [t|] eqn:E; [apply IH; apply strip_prefix_two in E; lia|].
  destruct (strip_prefix ".\" d) as [t|] eqn:E'; [apply IH; apply strip_prefix_two in E'; lia|].
  unfold starts_with. by rewrite E, E'.
Qed.

(** ** The installer's choice of a build *)
Record SolcBuild : Type := mkSolcBuild { build_path : string; build_version : string; build_sha256 : string }.
Definition detect_platform (os arch : string) : Res string :=
  match os, arch with
  | "linux", "x86_64" => Ok "linux-amd64"
  | "linux", "x86" => Ok "linux-amd64"
  | "linux", "aarch64" => Ok "linux-arm64"
  | "linux", "arm" => Ok "linux-arm64"
  | "macos", "x86_64" => Ok "macosx-amd64"
  | "macos", "aarch64" => Ok "macosx-amd64"
  | _, _ => Err ("unsupported platform " +:+ os +:+ "/" +:+ arch +:+ " for solc download")
  end%string.
Definition list_url (platform : string) : string := "https://binaries.soliditylang.org/" +:+ platform +:+ "/list.json".
Definition find_build (version platform : string) (builds : list SolcBuild) : Res SolcBuild :=
  context (find (fun b => String.eqb (build_version b) version) builds)
    ("solc version " +:+ version +:+ " not found for " +:+ platform).
Definition binary_url (platform : string) (b : SolcBuild) : string :=
  "https://binaries.soliditylang.org/" +:+ platform +:+ "/" +:+ build_path b.

(** [str::to_lowercase] of hexadecimal text *)
Definition lower_ascii (a : ascii) : ascii :=
  let n := nat_of_ascii a in if (65 <=? n)%nat && (n <=? 90)%nat then ascii_of_nat (n + 32) else a.
Fixpoint to_lowercase (s : string) : string :=
  match s with EmptyString => "" | String a s' => String (lower_ascii a) (to_lowercase s') end.
(** [digest] is the hexadecimal SHA-256 of the download. *)
Definition verify_binary (version digest : string) (b : SolcBuild) : Res unit :=
  let expected := to_lowercase (build_sha256 b) in
  let got := to_lowercase ("0x" +:+ digest) in
  ensure (String.eqb got expected) ("sha256 mismatch for solc " +:+ version +:+ ": expected " +:+ expected +:+ ", got " +:+ got).

(** ** Compilation *)
Section Compile.
Context `{ProjectFiles} `{AbiJson} `{SolcText} {W : Type} `{SolcHost W}.

(** Making a directory and writing a file, and the text of what is written. *)
Class ArtifactHost : Type := {
  make_dirs : string -> W -> bool;
  can_write : string -> W -> bool;
  output_pretty : StandardJSONOutput -> string;
  json_pretty : Json -> string;
  contract_members : ContractOutput -> list (string * Json);
}.
Context `{ArtifactHost}.
Implicit Types (st : @ExecState W).

(** [fs::create_dir_all]: not where a file is. *)
Definition create_dir_all (dir msg : string) : M (@ExecState W) unit := fun st =>
  if is_file dir || negb (make_dirs dir (es_world st)) then (Err msg, st) else (Ok (), st).
Definition write_file (path text : string) : M (@ExecState W) unit := fun st =>
  if can_write path (es_world st) then (Ok (), mkExecState (<[path := text]> (es_files st)) (es_world st))
  else (Err ("failed to write " +:+ path), st).

Fixpoint forMM {A} (f : A -> M (@ExecState W) unit) (l : list A) : M (@ExecState W) unit :=
  match l with [] => mret () | a :: l' => _ ← f a; forMM f l' end.

Definition artifact (output : StandardJSONOutput) (source_path : string) (c : ContractOutput) : Json :=
  let source := get_path source_path (oj_sources output) in
  JObject (contract_members c ++
    [("ast", default JNull (s ← source; so_ast s)); ("id", JInt (match source with Some s => so_id s | None => 0 end))]).
Definition artifact_dir (out_dir source_path : string) : string := join out_dir (default "unknown.sol" (file_name source_path)).
Definition artifact_path (out_dir source_path contract_name : string) : string :=
  join (artifact_dir out_dir source_path) (contract_name +:+ ".json").

Definition write_contract (out_dir : string) (output : StandardJSONOutput) (source_path : string) (nc : string * ContractOutput) : M (@ExecState W) unit :=
  write_file (artifact_path out_dir source_path nc.1) (json_pretty (artifact output source_path nc.2)).
Definition write_contracts (out_dir : string) (output : StandardJSONOutput) (pcs : string * list (string * ContractOutput)) : M (@ExecState W) unit :=
  _ ← create_dir_all (artifact_dir out_dir pcs.1) ("failed to create " +:+ artifact_dir out_dir pcs.1);
  forMM (write_contract out_dir output pcs.1) pcs.2.

Definition write_output (out_dir namespace : string) (output : StandardJSONOutput) : M (@ExecState W) unit :=
  let dir := join out_dir namespace in
  _ ← create_dir_all dir "failed to create out dir";
  _ ← write_file (join dir "out.json") (output_pretty output);
  forMM (write_contracts dir output) (oj_contracts output).

(** The input of the target; the sources in the order [map_to_list] gives. *)
Definition solc_input (s : Solc) (resolver : SourceResolver) (sources : gmap string string) : StandardJSONInput :=
  build (mkBuilder (map_to_list sources) (solc_remappings (sr_remappings resolver)) (s_evm_version s) (s_optimizer s) (s_via_ir s)).

Definition solc_root (s : Solc) : string := default "." (s_root s).
Definition prepare (s : Solc) (fuel : nat) (target : string) : Res StandardJSONInput :=
  loaded ← load_remappings (solc_root s);
  remappings ← prepend_remappings loaded (s_remappings s);
  let resolver := resolver_with_remappings (resolver_with_root source_resolver_new (solc_root s)) remappings in
  sources ← resolve resolver fuel target;
  mret (solc_input s resolver sources).

(** The target relative to the root *)
Definition source_path (s : Solc) (target : string) : string :=
  let canonical_target := default target (canonicalize target) in
  let canonical_root := default (solc_root s) (canonicalize (solc_root s)) in
  default canonical_target (path_strip_prefix canonical_root canonical_target).

Definition contract_name (s : Solc) (target : string) : string := default (default "" (file_stem target)) (s_name s).

Definition compile (s : Solc) (fuel : nat) : M (@ExecState W) (HarnessId * StandardJSONOutput) :=
  version ← lift (context (s_version s) "solc version not set, call Solc::new().with_version(..)");
  target ← lift (context (s_target s) "solc target not set, call Solc::new().with_target(..)");
  let target := solc_resolve s target in
  _ ← lift (ensure (is_file target) ("harness file `" +:+ target +:+ "` not found"));
  input ← lift (prepare s fuel target);
  output ← exec (mkExecutor (Some version) (Some (solc_root s)) (Some input) (Some (out_dir s)));
  _ ← write_output (out_dir s) (source_path s target) output;
  id ← lift (try_from (source_path s target +:+ ":" +:+ contract_name s target));
  mret (id, output).

(** ** What compilation gives *)
Lemma lift_Ok {A S} (r : Res A) (s s' : S) a : lift r s = (Ok a, s') <-> r = Ok a /\ s' = s.
Proof. unfold lift. split; [by intros [= -> ->]|by intros [-> ->]]. Qed.

(** A success identifies the target and carries the output of the run, or of
    the cache, for the input of its sources. *)
Lemma compile_Ok s fuel st id output st' : compile s fuel st = (Ok (id, output), st') ->
  exists version target input st1, s_version s = Some version /\ s_target s = Some target /\
    is_file (solc_resolve s target) = true /\ prepare s fuel (solc_resolve s target) = Ok input /\
    exec (mkExecutor (Some version) (Some (solc_root s)) (Some input) (Some (out_dir s))) st = (Ok output, st1) /\
    try_from (source_path s (solc_resolve s target) +:+ ":" +:+ contract_name s (solc_resolve s target)) = Ok id.
Proof.
  unfold compile. intros (version & s1 & [Hv ->]%lift_Ok & Hc)%M_bind_Ok.
  apply M_bind_Ok in Hc as (target & s2 & [Ht ->]%lift_Ok & Hc).
  apply M_bind_Ok in Hc as (u & s3 & [[Hf _]%ensure_Ok ->]%lift_Ok & Hc).
  apply M_bind_Ok in Hc as (input & s4 & [Hp ->]%lift_Ok & Hc).
  apply M_bind_Ok in Hc as (out & s5 & He & Hc). apply M_bind_Ok in Hc as (u' & s6 & _ & Hc).
  apply M_bind_Ok in Hc as (i & s7 & [Hi ->]%lift_Ok & [[= -> ->] _]%M_ret_Ok).
  destruct (s_version s) as [v|] eqn:Ev; [|done]. destruct (s_target s) as [t|] eqn:Et; [|done]. injection Hv as ->. injection Ht as ->.
  by exists version, target, input, s5.
Qed.

(** The artifacts of a target outside the root would be written below the
    target itself, a file: such a target never compiles. *)
Lemma outside_root_fails s fuel target canon st :
  s_target s = Some target -> canonicalize (solc_resolve s target) = Some canon -> is_file canon = true -> is_absolute canon = true ->
  path_strip_prefix (default (solc_root s) (canonicalize (solc_root s))) canon = None ->
  forall hid output st', compile s fuel st <> (Ok (hid, output), st').
Proof.
  intros Ht Hcan Hfile Habs Hout hid output st'. unfold compile. intros (version & s1 & [Hv ->]%lift_Ok & Hc)%M_bind_Ok.
  apply M_bind_Ok in Hc as (t & s2 & [Ht' ->]%lift_Ok & Hc). rewrite Ht in Ht'. injection Ht' as <-.
  apply M_bind_Ok in Hc as (u & s3 & _ & Hc). apply M_bind_Ok in Hc as (input & s4 & _ & Hc).
  apply M_bind_Ok in Hc as (out & s5 & _ & Hc). apply M_bind_Ok in Hc as (u' & s6 & Hw & _).
  unfold source_path in Hw. rewrite Hcan in Hw. cbn [default from_option id] in Hw. rewrite Hout in Hw. cbn [default from_option id] in Hw.
  unfold write_output in Hw. apply M_bind_Ok in Hw as (u'' & s7 & Hd & _). unfold create_dir_all, join in Hd. by rewrite Habs, Hfile in Hd.
Qed.

(** Contracts of one name in two files of one name have one artifact. *)
Lemma artifact_collision dir c : artifact_path dir "src/Token.sol" c = artifact_path dir "lib/Token.sol" c.
Proof. reflexivity. Qed.
End Compile.
