(* ===== verification/Fetch.v ===== *)
(** * Fetch: installing the archive of a dependency

    Models [dependencies/fetch.rs]: the name of a dependency, the paths of an
    archive, and the installation through a staging directory. A file system is
    a map from the components of a path to a directory or a file, and messages
    name the failed operation without its path; the download,
    the decoder of archives and the failures of the system are parameters. A
    system call that fails changes nothing. *)
From S2P Require Import Prelude.
From S2P Require Import Paths.
From S2P Require Import SourceMap.
From S2P Require Import Imports.
From S2P Require Import SourceResolver.

(** ** The file system *)
Inductive Node : Type := Dir | File (bytes : string).
Abbreviation FS := (gmap (list string) Node).
Inductive IoOp : Type := MakeDir | WriteFile | RemoveDir | Rename | ReadDir.

(** The directory the process runs in, and which system calls succeed. *)
Class Disk : Type := {
  cwd : list string;
  io_ok : IoOp -> list string -> bool;
}.

(** What the system makes of a path: [..] leaves a directory. *)
Definition resolve_step (acc : list string) (c : string) : list string := if String.eqb c ".." then removelast acc else acc ++ [c].
Definition resolve_dots (base cs : list string) : list string := foldl resolve_step base cs.

(** ** Archives *)
Inductive EntryKind : Type := EntryDir | EntryFile (bytes : string) | EntryOther.
Record ArchiveEntry : Type := mkArchiveEntry { entry_path : Res string; entry_kind : EntryKind }.

Class Decoder : Type := { archive_entries : string -> Res (list (Res ArchiveEntry)) }.

Definition MAX_ARCHIVE_BYTES : Z := 256 * 1024 * 1024.
Record Download : Type := mkDownload { dl_bytes : string; dl_hash : string }.
(** [digest] gives the hexadecimal SHA-256 of the bytes; the multihash of 32
    bytes starts with its code and length. *)
Definition download (digest : string -> string) (response : Z -> Res string) (name : string) : Res Download :=
  bytes ← with_context ("failed to read archive for dependency `" +:+ name +:+ "`") (response MAX_ARCHIVE_BYTES);
  mret (mkDownload bytes ("0x" +:+ "1220" +:+ digest bytes)).

Record Fetcher : Type := mkFetcher { f_name : string; f_url : string; f_root : string }.
Definition fetcher_new (name url : string) : Fetcher := mkFetcher name url ".".

Definition name_char (a : ascii) : bool :=
  let n := nat_of_ascii a in
  ((48 <=? n)%nat && (n <=? 57)%nat) || ((65 <=? n)%nat && (n <=? 90)%nat) || ((97 <=? n)%nat && (n <=? 122)%nat) ||
  Ascii.eqb a "-" || Ascii.eqb a "_".
Definition valid_name (name : string) : bool :=
  negb (String.eqb name "") && negb (String.eqb name ".") && negb (String.eqb name "..") && str_all name_char name.
Definition ensure_valid_name (f : Fetcher) : Res unit :=
  ensure (valid_name (f_name f)) ("invalid dependency name `" +:+ f_name f +:+ "`: use letters, digits, `-`, or `_`").

Definition ensure_safe_path (path : string) : Res unit :=
  _ ← ensure (negb (is_absolute path)) ("archive contains absolute path `" +:+ path +:+ "`");
  ensure (negb (existsb (String.eqb "..") (components path))) ("archive contains unsafe path `" +:+ path +:+ "`").

Section Install.
Context `{Disk} `{Decoder}.

Definition os_key (path : string) : list string :=
  resolve_dots (if is_absolute path then [] else cwd) (components path).
(** [dest.join(path)] *)
Definition join_key (dest : list string) (path : string) : list string :=
  if is_absolute path then os_key path else resolve_dots dest (components path).

Fixpoint prefixes_from (pre cs : list string) : list (list string) :=
  match cs with [] => [] | c :: cs' => (pre ++ [c]) :: prefixes_from (pre ++ [c]) cs' end.
Definition prefixes (d : list string) : list (list string) := prefixes_from [] d.

Definition is_file_node (n : option Node) : bool := match n with Some (File _) => true | _ => false end.
Definition is_dir_node (n : option Node) : bool := match n with Some Dir => true | _ => false end.

Definition create_dir_all (d : list string) : M FS unit := fun fs =>
  if io_ok MakeDir d && forallb (fun p => negb (is_file_node (fs !! p))) (prefixes d)
  then (Ok (), foldl (fun fs p => <[p := Dir]> fs) fs (prefixes d))
  else (Err "failed to create", fs).
Definition write_node (p : list string) (bytes : string) : M FS unit := fun fs =>
  if io_ok WriteFile p && negb (is_dir_node (fs !! p)) && (bool_decide (removelast p = []) || is_dir_node (fs !! removelast p))
  then (Ok (), <[p := File bytes]> fs) else (Err "failed to extract", fs).
Definition exists_node (p : list string) (fs : FS) : bool := bool_decide (is_Some (fs !! p)).

Definition remove_dir_all (d : list string) : M FS unit := fun fs =>
  if io_ok RemoveDir d && is_dir_node (fs !! d) then (Ok (), base.filter (fun kv => ~ d `prefix_of` kv.1) fs) else (Err "failed to remove", fs).

(** [if d.exists() { remove_dir_all(d)? }] *)
Definition remove_existing (d : list string) : M FS unit := fun fs =>
  if exists_node d fs then remove_dir_all d fs else (Ok (), fs).

(** The tree at [src] moved to [dst], where nothing is. *)
Definition moved (src dst : list string) (fs : FS) : FS :=
  list_to_map ((fun kv => (dst ++ drop (length src) kv.1, kv.2)) <$> map_to_list (base.filter (fun kv => src `prefix_of` kv.1) fs)).
Definition rename (src dst : list string) : M FS unit := fun fs =>
  if io_ok Rename dst && exists_node src fs then (Ok (), moved src dst fs ∪ base.filter (fun kv => ~ src `prefix_of` kv.1) fs)
  else (Err "failed to install", fs).

Definition extract_entry (dest : list string) (e : Res ArchiveEntry) : M FS unit :=
  entry ← lift (with_context "failed to read archive entry" e);
  path ← lift (with_context "failed to read archive entry path" (entry_path entry));
  _ ← lift (ensure_safe_path path);
  let target := join_key dest path in
  match entry_kind entry with
  | EntryDir => create_dir_all target
  | EntryFile bytes => _ ← create_dir_all (removelast target); write_node target bytes
  | EntryOther => mret ()
  end.
Fixpoint extract_entries (dest : list string) (es : list (Res ArchiveEntry)) : M FS unit :=
  match es with [] => mret () | e :: es' => _ ← extract_entry dest e; extract_entries dest es' end.
Definition extract_archive (bytes : string) (dest : list string) : M FS unit :=
  es ← lift (with_context "failed to read archive entries" (archive_entries bytes)); extract_entries dest es.

(** The entries of a directory, in the order of the map. *)
Definition read_dir (d : list string) (fs : FS) : list (list string) :=
  base.filter (fun p => d `prefix_of` p /\ length p = S (length d)) (map_to_list fs).*1.
Definition collapse_root (staging : list string) : M FS (list string) := fun fs =>
  if io_ok ReadDir staging then
    (Ok match read_dir staging fs with [only] => if is_dir_node (fs !! only) then only else staging | _ => staging end, fs)
  else (Err "failed to read", fs).

Definition dir (f : Fetcher) : list string := os_key (join (join (join (f_root f) ".ripfuzz") "dependencies") (f_name f)).
Definition dependencies_dir (f : Fetcher) : list string := removelast (dir f).
Definition staging_name (f : Fetcher) : string := "." +:+ f_name f +:+ "-staging".
Definition staging_dir (f : Fetcher) : list string := dependencies_dir f ++ [staging_name f].

(** Steps 1 to 3: the archive in the staging directory, and where its tree is. *)
Definition stage (f : Fetcher) (d : Download) : M FS (list string) :=
  _ ← lift (ensure_valid_name f);
  let staging := staging_dir f in
  _ ← remove_existing staging;
  _ ← create_dir_all staging;
  _ ← extract_archive (dl_bytes d) staging;
  collapse_root staging.

(** The end of step 5: a staging directory that cannot be removed is only logged. *)
Definition clean_up (d : list string) : M FS unit := fun fs =>
  if exists_node d fs then (Ok (), (remove_dir_all d fs).2) else (Ok (), fs).
(** Steps 4 and 5 *)
Definition replace_installation (f : Fetcher) (source : list string) : M FS unit :=
  _ ← remove_existing (dir f);
  _ ← rename source (dir f);
  clean_up (staging_dir f).

Definition install (f : Fetcher) (d : Download) : M FS unit :=
  source ← stage f d; replace_installation f source.

(** ** What an operation may touch *)

(** Only what is below [s] changes; above it a directory may be made. *)
Definition confined (s : list string) (fs fs' : FS) : Prop :=
  forall p, ~ s `prefix_of` p -> fs' !! p = fs !! p \/ p `prefix_of` s /\ fs' !! p = Some Dir.

Lemma confined_refl s fs : confined s fs fs.
Proof. by left. Qed.

Lemma confined_trans s fs1 fs2 fs3 : confined s fs1 fs2 -> confined s fs2 fs3 -> confined s fs1 fs3.
Proof.
  intros H1 H2 p Hp. destruct (H2 p Hp) as [E|?]; [|by right]. destruct (H1 p Hp) as [E'|[? E']]; [left|right]; [congruence|split; [done|congruence]].
Qed.

Lemma confined_bind {A B : Type} (s : list string) (m : M FS A) (k : A -> M FS B) (fs : FS) :
  confined s fs (m fs).2 -> (forall a fs', (m fs) = (Ok a, fs') -> confined s fs' (k a fs').2) -> confined s fs ((m ≫= k) fs).2.
Proof.
  intros Hm Hk. unfold mbind, M_bind. destruct (m fs) as [[a|e|e] fs'] eqn:E; [|done..].
  eapply confined_trans; [exact Hm|]. by apply Hk.
Qed.

Lemma prefixes_from_elem pre cs p : p ∈ prefixes_from pre cs -> p `prefix_of` pre ++ cs.
Proof.
  revert pre. induction cs as [|c cs IH]; intros pre; cbn; [by intros ?%elem_of_nil|].
  intros [->|Hp]%elem_of_cons; [exists cs; by rewrite <- app_assoc|]. apply IH in Hp. by rewrite <- app_assoc in Hp.
Qed.
Lemma prefixes_elem d p : p ∈ prefixes d -> p `prefix_of` d.
Proof. apply prefixes_from_elem. Qed.

Lemma make_dirs_lookup (ps : list (list string)) (fs : FS) (p : list string) : foldl (fun fs p => <[p := Dir]> fs) fs ps !! p = if decide (p ∈ ps) then Some Dir else fs !! p.
Proof.
  revert fs. induction ps as [|q ps IH]; intros fs; cbn [foldl]; [by rewrite decide_False by apply not_elem_of_nil|].
  rewrite IH. destruct (decide (p ∈ ps)) as [Hin|Hout]; [by rewrite decide_True by (by right)|].
  destruct (decide (p = q)) as [->|Hne]; [by rewrite lookup_insert_eq, decide_True by left|].
  rewrite lookup_insert_ne, decide_False by (done || by intros [?|?]%elem_of_cons). done.
Qed.

Lemma prefix_comparable (p q r : list string) : p `prefix_of` r -> q `prefix_of` r -> p `prefix_of` q \/ q `prefix_of` p.
Proof. apply prefix_weak_total. Qed.

Lemma create_dir_confined s d fs : s `prefix_of` d \/ d `prefix_of` s -> confined s fs (create_dir_all d fs).2.
Proof.
  intros Hsd. unfold create_dir_all. destruct (_ && _); [|apply confined_refl]. intros p Hp. cbn [snd].
  rewrite make_dirs_lookup. destruct (decide (p ∈ prefixes d)) as [Hin%prefixes_elem|]; [|by left]. right. split; [|done].
  destruct Hsd as [Hs|Hs]; [|by trans d]. by destruct (prefix_comparable p s d).
Qed.

Lemma write_node_confined s p bytes fs : s `prefix_of` p -> confined s fs (write_node p bytes fs).2.
Proof.
  intros Hs. unfold write_node. destruct (_ && _); [|apply confined_refl]. intros q Hq. left. cbn [snd].
  apply lookup_insert_ne. by intros ->.
Qed.

Lemma remove_lookup (d : list string) (fs : FS) (p : list string) :
  base.filter (fun kv : list string * Node => ~ d `prefix_of` kv.1) fs !! p = if decide (d `prefix_of` p) then None else fs !! p.
Proof.
  destruct (decide _) as [Hd|Hd].
  - apply map_lookup_filter_None. right. intros n _. cbn. auto.
  - rewrite map_lookup_filter. destruct (fs !! p); [|done]. cbn. by rewrite option_guard_True.
Qed.

Lemma remove_confined d fs : confined d fs (remove_dir_all d fs).2.
Proof.
  unfold remove_dir_all. destruct (_ && _); [|apply confined_refl]. intros p Hp. left. cbn [snd]. by rewrite remove_lookup, decide_False.
Qed.
Lemma remove_existing_confined d fs : confined d fs (remove_existing d fs).2.
Proof. unfold remove_existing. destruct (exists_node d fs); [apply remove_confined|apply confined_refl]. Qed.

(** ** An archive stays in its directory *)
Lemma resolve_plain base cs : existsb (String.eqb "..") cs = false -> resolve_dots base cs = base ++ cs.
Proof.
  revert base. induction cs as [|c cs IH]; intros base; cbn [existsb]; [by rewrite app_nil_r|].
  intros [Hc Hcs]%orb_false_iff. unfold resolve_dots in *. cbn [foldl]. unfold resolve_step at 2. rewrite String.eqb_sym, Hc, IH by done.
  by rewrite <- app_assoc.
Qed.

Lemma safe_target dest path u : ensure_safe_path path = Ok u -> join_key dest path = dest ++ components path.
Proof.
  unfold ensure_safe_path. intros (v & [Ha%negb_true_iff _]%HarnessId.ensure_Ok & [Hd%negb_true_iff _]%HarnessId.ensure_Ok)%Res_bind_Ok.
  unfold join_key. rewrite Ha. by apply resolve_plain.
Qed.

Lemma removelast_prefix (s cs : list string) : s `prefix_of` removelast (s ++ cs) \/ removelast (s ++ cs) `prefix_of` s.
Proof.
  destruct cs as [|c cs].
  - right. rewrite app_nil_r. induction s as [|a s IH] using rev_ind; [by exists []|]. rewrite removelast_last. by exists [a].
  - left. rewrite removelast_app by done. by eexists.
Qed.

Lemma lift_confined {A : Type} (s : list string) (r : Res A) (fs : FS) : confined s fs (lift r fs).2.
Proof. apply confined_refl. Qed.

Lemma extract_entry_confined dest e fs : confined dest fs (extract_entry dest e fs).2.
Proof.
  unfold extract_entry. apply confined_bind; [apply lift_confined|]. intros entry fs1 _.
  apply confined_bind; [apply lift_confined|]. intros path fs2 _.
  apply confined_bind; [apply lift_confined|]. intros u fs3 [Hs _]%pair_equal_spec. cbv zeta. rewrite (safe_target _ _ _ Hs).
  destruct (entry_kind entry) as [|bytes|].
  - apply create_dir_confined. left. by eexists.
  - apply confined_bind; [apply create_dir_confined, removelast_prefix|]. intros u' fs4 _. apply write_node_confined. by eexists.
  - apply confined_refl.
Qed.

Lemma extract_archive_confined bytes dest fs : confined dest fs (extract_archive bytes dest fs).2.
Proof.
  unfold extract_archive. apply confined_bind; [apply lift_confined|]. intros es fs1 _. revert fs1.
  induction es as [|e es IH]; intros fs1; [apply confined_refl|]. cbn [extract_entries].
  apply confined_bind; [apply extract_entry_confined|]. intros u fs2 _. apply IH.
Qed.

Lemma stage_confined f d fs : confined (staging_dir f) fs (stage f d fs).2.
Proof.
  unfold stage. apply confined_bind; [apply lift_confined|]. intros u fs1 _.
  apply confined_bind; [apply remove_existing_confined|]. intros u1 fs2 _.
  apply confined_bind; [apply create_dir_confined; by left|]. intros u2 fs3 _.
  apply confined_bind; [apply extract_archive_confined|]. intros u3 fs4 _.
  unfold collapse_root. destruct (io_ok _ _); apply confined_refl.
Qed.
(** ** Where a dependency is *)
Lemma components_join_plain base x : plain_key x -> components (join base x) = components base ++ [x].
Proof.
  intros [Hs Hne Hd]. rewrite join_plain by done. unfold join_prefix, components.
  assert (Hx : base.filter (fun y => y <> "" /\ y <> ".") [x] = [x]) by (by rewrite filter_cons_True).
  destruct (decide (base = "")) as [->|Hb].
  { rewrite bool_decide_true by done. cbn [orb]. change ("" +:+ x) with x. rewrite split_on_none by done. exact Hx. }
  rewrite bool_decide_false by done. cbn [orb]. destruct (ends_with_char "/" base) eqn:E.
  - assert (Hsplit : exists q, base = q +:+ String "/" "").
    { clear -E. induction base as [|a b IH]; [done|]. destruct b as [|c b].
      - cbn [ends_with_char] in E. apply Ascii.eqb_eq in E as ->. by exists "".
      - destruct IH as [q Hq]; [exact E|]. exists (String a q). by rewrite Hq at 1. }
    destruct Hsplit as [q ->]. rewrite str_app_assoc. change (String "/" "" +:+ x) with (String "/" x). rewrite !split_on_sep, !filter_app.
    rewrite (split_on_none "/" x), Hx by done. by rewrite app_nil_r.
  - rewrite str_app_assoc. change ("/" +:+ x) with (String "/" x). rewrite split_on_sep, filter_app, (split_on_none "/" x), Hx by done. done.
Qed.

Lemma join_absolute base x : plain_key x -> base <> "" -> is_absolute (join base x) = is_absolute base.
Proof.
  intros [Hs _ _] Hb. rewrite join_plain by done. destruct base as [|a base]; [done|].
  unfold join_prefix. destruct (_ || _).
  - change (String a base +:+ x) with (String a (base +:+ x)). by rewrite !is_absolute_cons.
  - change ((String a base +:+ "/") +:+ x) with (String a ((base +:+ "/") +:+ x)). by rewrite !is_absolute_cons.
Qed.

Lemma name_char_plain a : name_char a = true -> Ascii.eqb a "/" = false /\ Ascii.eqb a "." = false.
Proof. destruct a as [[] [] [] [] [] [] [] []]; vm_compute; by intros ?. Qed.

Lemma valid_name_plain name : valid_name name = true -> plain_key name /\ has_char "." name = false /\ name <> "..".
Proof.
  unfold valid_name. intros [[[Hne%negb_true_iff%String.eqb_neq Hd%negb_true_iff%String.eqb_neq]%andb_true_iff
    Hdd%negb_true_iff%String.eqb_neq]%andb_true_iff Hc]%andb_true_iff.
  assert (H2 : has_char "/" name = false /\ has_char "." name = false).
  { clear -Hc. unfold has_char. rewrite !negb_false_iff. induction name as [|a n IH]; [done|]. cbn [str_all] in *.
    apply andb_true_iff in Hc as [[-> ->]%name_char_plain Hn]. by apply IH. }
  destruct H2. done.
Qed.

Lemma dir_of f : valid_name (f_name f) = true -> dir f = dependencies_dir f ++ [f_name f].
Proof.
  intros (Hp & _ & Hdd)%valid_name_plain.
  assert (H1 : exists base, dir f = resolve_dots base [f_name f]).
  { unfold dir, os_key. rewrite components_join_plain by done. unfold resolve_dots. setoid_rewrite foldl_app. by eexists. }
  destruct H1 as [base Hd]. unfold resolve_dots in Hd. cbn [foldl] in Hd. unfold resolve_step in Hd.
  rewrite (proj2 (String.eqb_neq _ _) Hdd) in Hd. unfold dependencies_dir. by rewrite Hd, removelast_last.
Qed.

Lemma staging_other f q : valid_name (f_name f) = true -> ~ staging_dir f `prefix_of` dir f ++ q /\ ~ dir f ++ q `prefix_of` staging_dir f.
Proof.
  intros Hv. destruct (valid_name_plain _ Hv) as (_ & Hdot & _). rewrite (dir_of f Hv). unfold staging_dir.
  assert (Hne : f_name f <> staging_name f).
  { intros E. rewrite E in Hdot. unfold staging_name, has_char in Hdot. done. }
  rewrite <- app_assoc. cbn [app]. split; intros H1%prefix_app_inv; apply prefix_cons_inv_1 in H1; congruence.
Qed.

(** ** Moving a tree *)
Lemma moved_lookup (src dst : list string) (fs : FS) (p : list string) :
  moved src dst fs !! p = if decide (dst `prefix_of` p) then fs !! (src ++ drop (length dst) p) else None.
Proof.
  set (l := map_to_list (base.filter (fun kv : list string * Node => src `prefix_of` kv.1) fs)).
  assert (Hl : forall k n, (k, n) ∈ l <-> src `prefix_of` k /\ fs !! k = Some n).
  { intros k n. unfold l. rewrite elem_of_map_to_list, map_lookup_filter_Some. cbn. tauto. }
  assert (Hn : NoDup ((fun kv : list string * Node => (dst ++ drop (length src) kv.1, kv.2)) <$> l).*1).
  { rewrite <- list_fmap_compose. apply NoDup_fmap_2_strong; [|apply NoDup_map_to_list].
    intros [k n] [k' n'] [[q ->] Hk]%Hl [[q' ->] Hk']%Hl E. cbn in E. rewrite !drop_app_length in E. apply app_inv_head in E as ->. congruence. }
  apply option_eq. intros n. unfold moved. fold l. rewrite <- elem_of_list_to_map by done. rewrite list_elem_of_fmap. split.
  - intros ([k m] & [= -> ->] & [[q ->] Hk]%Hl). cbn. rewrite drop_app_length, decide_True by (by eexists). by rewrite drop_app_length.
  - destruct (decide _) as [[q ->]|]; [|done]. rewrite drop_app_length. intros Hk. exists (src ++ q, n). cbn.
    rewrite drop_app_length. split; [done|]. apply Hl. split; [by eexists|done].
Qed.

Lemma rename_lookup src dst fs u fs' : rename src dst fs = (Ok u, fs') -> (forall q, fs !! (dst ++ q) = None) ->
  (forall q, fs' !! (dst ++ q) = fs !! (src ++ q)) /\
  (forall p, ~ dst `prefix_of` p -> ~ src `prefix_of` p -> fs' !! p = fs !! p).
Proof.
  unfold rename. destruct (_ && _); [|done]. intros [= _ <-] Hd. split.
  - intros q. rewrite lookup_union, moved_lookup, decide_True, drop_app_length, remove_lookup, Hd by (by eexists).
    destruct (decide _), (fs !! (src ++ q)); done.
  - intros p Hp Hs. rewrite lookup_union, moved_lookup, decide_False, remove_lookup, decide_False by done. by destruct (fs !! p).
Qed.
(** ** Installation *)
Lemma stage_valid f d fs source fs1 : stage f d fs = (Ok source, fs1) -> valid_name (f_name f) = true.
Proof.
  unfold stage. intros (u & s1 & [Hv _]%pair_equal_spec & _)%M_bind_Ok. by apply HarnessId.ensure_Ok in Hv as [? _].
Qed.

Lemma stage_source f d fs source fs1 : stage f d fs = (Ok source, fs1) -> staging_dir f `prefix_of` source.
Proof.
  unfold stage. intros (u & s1 & _ & Hs)%M_bind_Ok. apply M_bind_Ok in Hs as (u1 & s2 & _ & Hs).
  apply M_bind_Ok in Hs as (u2 & s3 & _ & Hs). apply M_bind_Ok in Hs as (u3 & s4 & _ & Hs).
  unfold collapse_root in Hs. destruct (io_ok _ _); [|done]. injection Hs as <- <-.
  destruct (read_dir _ _) as [|only [|? ?]] eqn:E; [done| |done]. destruct (is_dir_node _); [|done].
  assert (Hin : only ∈ read_dir (staging_dir f) s4) by (rewrite E; left). by apply list_elem_of_filter in Hin as [[? _] _].
Qed.

Lemma staged_elsewhere f d fs p : ~ staging_dir f `prefix_of` p -> ~ p `prefix_of` staging_dir f -> (stage f d fs).2 !! p = fs !! p.
Proof. intros Hs Hp. by destruct (stage_confined f d fs p Hs) as [?|[? _]]. Qed.

(** After [remove_existing], nothing is there. *)
Lemma remove_existing_Ok d fs u fs' : remove_existing d fs = (Ok u, fs') -> (fs !! d = None -> forall q, fs !! (d ++ q) = None) ->
  (forall q, fs' !! (d ++ q) = None) /\ (forall p, ~ d `prefix_of` p -> fs' !! p = fs !! p).
Proof.
  unfold remove_existing, exists_node. intros Hr Hd. destruct (bool_decide_reflect (is_Some (fs !! d))) as [_|Hn].
  - unfold remove_dir_all in Hr. destruct (_ && _); [|done]. injection Hr as _ <-. split.
    + intros q. by rewrite remove_lookup, decide_True by (by eexists).
    + intros p Hp. by rewrite remove_lookup, decide_False.
  - injection Hr as _ <-. split; [apply Hd; by apply eq_None_not_Some|done].
Qed.

(** An operation that does not change what is at a path. *)
Definition keeps {A} (p : list string) (m : M FS A) : Prop := forall fs, (m fs).2 !! p = fs !! p.

Lemma keeps_bind {A B : Type} (p : list string) (m : M FS A) (k : A -> M FS B) : keeps p m -> (forall a, keeps p (k a)) -> keeps p (m ≫= k).
Proof.
  intros Hm Hk fs. unfold mbind, M_bind. specialize (Hm fs). destruct (m fs) as [[a|e|e] fs']; [|done..].
  by rewrite (Hk a fs').
Qed.

Lemma remove_keeps d p : ~ d `prefix_of` p -> keeps p (remove_dir_all d).
Proof. intros Hp fs. unfold remove_dir_all. destruct (_ && _); [|done]. cbn [snd]. by rewrite remove_lookup, decide_False. Qed.
Lemma remove_existing_keeps d p : ~ d `prefix_of` p -> keeps p (remove_existing d).
Proof. intros Hp fs. unfold remove_existing. destruct (exists_node d fs); [by apply remove_keeps|done]. Qed.
Lemma clean_up_keeps d p : ~ d `prefix_of` p -> keeps p (clean_up d).
Proof. intros Hp fs. unfold clean_up. destruct (exists_node d fs); [by apply remove_keeps|done]. Qed.
Lemma rename_keeps src dst p : ~ dst `prefix_of` p -> ~ src `prefix_of` p -> keeps p (rename src dst).
Proof.
  intros Hp Hs fs. unfold rename. destruct (_ && _); [|done]. cbn [snd].
  rewrite lookup_union, moved_lookup, decide_False, remove_lookup, decide_False by done. by destruct (fs !! p).
Qed.

Lemma replace_elsewhere f source p : staging_dir f `prefix_of` source -> ~ dir f `prefix_of` p -> ~ staging_dir f `prefix_of` p ->
  keeps p (replace_installation f source).
Proof.
  intros Hsrc Hd Hs. unfold replace_installation. apply keeps_bind; [by apply remove_existing_keeps|]. intros _.
  apply keeps_bind; [|intros _; by apply clean_up_keeps]. apply rename_keeps; [done|]. intros ?. apply Hs. by trans source.
Qed.

(** The installed tree is the staged one. *)
Lemma replace_tree f source fs fs' u : valid_name (f_name f) = true -> staging_dir f `prefix_of` source ->
  (fs !! dir f = None -> forall q, fs !! (dir f ++ q) = None) ->
  replace_installation f source fs = (Ok u, fs') -> forall q, fs' !! (dir f ++ q) = fs !! (source ++ q).
Proof.
  intros Hv Hsrc Hwf. unfold replace_installation. intros (u1 & fs1 & H1 & Hr)%M_bind_Ok q.
  apply M_bind_Ok in Hr as (u2 & fs2 & H2 & Hc). destruct (remove_existing_Ok _ _ _ _ H1 Hwf) as [Hnone Helse].
  destruct (rename_lookup _ _ _ _ _ H2 Hnone) as [Hmoved _].
  assert (Hd : ~ staging_dir f `prefix_of` dir f ++ q) by (by apply staging_other).
  pose proof (clean_up_keeps (staging_dir f) (dir f ++ q) Hd fs2) as Hk. rewrite Hc in Hk. cbn [snd] in Hk. rewrite Hk, Hmoved. apply Helse.
  intros Hds. destruct (staging_other f [] Hv) as [H3 H4]. rewrite app_nil_r in H3, H4.
  destruct (prefix_comparable (staging_dir f) (dir f) (source ++ q)) as [?|?]; [by apply prefix_app_r|done|done|done].
Qed.

(** C34: installing a dependency touches nothing outside its own directory and
    its staging directory, but for making the directories above them, whatever
    the archive holds; a success puts the tree of the archive, and nothing of an
    earlier installation, into the directory; an archive that is refused or
    cannot be read leaves the installation as it was. *)
Theorem install_contained (f : Fetcher) (d : Download) (fs : FS) :
  (fs !! dir f = None -> forall q, fs !! (dir f ++ q) = None) ->
  (forall p, ~ dir f `prefix_of` p -> ~ staging_dir f `prefix_of` p ->
     (install f d fs).2 !! p = fs !! p \/ p `prefix_of` staging_dir f /\ (install f d fs).2 !! p = Some Dir) /\
  match stage f d fs with
  | (Ok source, staged) => staging_dir f `prefix_of` source /\
      match install f d fs with (Ok _, fs') => forall q, fs' !! (dir f ++ q) = staged !! (source ++ q) | _ => True end
  | _ => is_ok (install f d fs).1 = false /\
      (valid_name (f_name f) = true -> forall q, (install f d fs).2 !! (dir f ++ q) = fs !! (dir f ++ q))
  end.
Proof.
  intros Hwf. pose proof (stage_confined f d fs) as Hc. unfold install, mbind, M_bind.
  destruct (stage f d fs) as [[source|e|e] fs1] eqn:E.
  - pose proof (stage_valid _ _ _ _ _ E) as Hv. pose proof (stage_source _ _ _ _ _ E) as Hs. split.
    + intros p Hp Hp'. rewrite (replace_elsewhere f source p Hs Hp Hp'). by apply Hc.
    + split; [done|]. destruct (replace_installation f source fs1) as [[u|e|e] fs2] eqn:Er; [|done..].
      apply (replace_tree f source fs1 fs2 u Hv Hs); [|done]. intros Hn q.
      pose proof (fun q => staged_elsewhere f d fs _ (proj1 (staging_other f q Hv)) (proj2 (staging_other f q Hv))) as Hsame.
      rewrite E in Hsame. cbn [snd] in Hsame. rewrite Hsame. apply Hwf. by rewrite <- (app_nil_r (dir f)), <- Hsame, app_nil_r.
  - split; [intros p _ Hp; by apply Hc|]. split; [done|]. intros Hv q.
    pose proof (staged_elsewhere f d fs _ (proj1 (staging_other f q Hv)) (proj2 (staging_other f q Hv))) as Hsame. by rewrite E in Hsame.
  - split; [intros p _ Hp; by apply Hc|]. split; [done|]. intros Hv q.
    pose proof (staged_elsewhere f d fs _ (proj1 (staging_other f q Hv)) (proj2 (staging_other f q Hv))) as Hsame. by rewrite E in Hsame.
Qed.
End Install.

(** ** Witnesses *)

(** An archive as the hosts of repositories make it, and one that would escape. *)
Definition toy_decoder : Decoder := {|
  archive_entries bytes :=
    if String.eqb bytes "good" then
      Ok [Ok (mkArchiveEntry (Ok "std-main/") EntryDir); Ok (mkArchiveEntry (Ok "std-main/src/Test.sol") (EntryFile "library Test {}"))]
    else if String.eqb bytes "evil" then Ok [Ok (mkArchiveEntry (Ok "../std/src/Test.sol") (EntryFile "library Evil {}"))]
    else Err "not an archive";
|}.
Definition toy_disk : Disk := {| cwd := ["p"]; io_ok op p := true |}.
Definition toy_fetcher : Fetcher := fetcher_new "std" "https://example.com/std.tar.gz".
Definition toy_dependencies : list string := ["p"; ".ripfuzz"; "dependencies"].
Definition installed : FS := list_to_map [(["p"], Dir); (["p"; ".ripfuzz"], Dir); (toy_dependencies, Dir);
  (toy_dependencies ++ ["std"], Dir); (toy_dependencies ++ ["std"; "old.sol"], File "old")].
Definition toy_install (bytes : string) : Res unit * FS :=
  @install toy_disk toy_decoder toy_fetcher (mkDownload bytes "0x1220") installed.

(** The escaping archive is refused and the old installation stays; the good one
    replaces it. *)
Lemma install_contained_witness :
  is_ok (toy_install "evil").1 = false /\ (toy_install "evil").2 !! (toy_dependencies ++ ["std"; "old.sol"]) = Some (File "old") /\
  (toy_install "good").2 !! (toy_dependencies ++ ["std"; "src"; "Test.sol"]) = Some (File "library Test {}") /\
  (toy_install "good").2 !! (toy_dependencies ++ ["std"; "old.sol"]) = None.
Proof.
  destruct (@install_contained toy_disk toy_decoder toy_fetcher (mkDownload "evil" "0x1220") installed) as [_ He]; [by vm_compute|].
  assert (Es : is_ok (@stage toy_disk toy_decoder toy_fetcher (mkDownload "evil" "0x1220") installed).1 = false) by (by vm_compute).
  destruct (@stage toy_disk toy_decoder toy_fetcher (mkDownload "evil" "0x1220") installed) as [[source|e|e] fs1]; [done| |];
    destruct He as [He Hk]; (split; [exact He|]); (split; [|split; by vm_compute]);
    exact (eq_trans (Hk eq_refl ["old.sol"]) eq_refl).
Defined.
