(* ===== verification/RunFiles.v ===== *)
(** * RunFiles: what a run leaves on disk

    Models [cli/run_id.rs], [evm/trace/writer.rs], [evm/coverage/writer.rs] and
    the reporter of [tester/broken_invariant.rs]: the names that tie the files
    of one run together, and the traced re-run of a finding. The clock, the
    random ids, the text of a trace and the outcome of a write are parameters. *)
From S2P Require Import Prelude.
From S2P Require Import Env.
From S2P Require Import Paths.
From S2P Require Import Transaction.
From S2P Require Import ChainApi.
From S2P Require Import TestSequence.
From S2P Require Import TestBroken.
From S2P Require Import SourceMap.
From S2P Require Import SolcOutput.
From S2P Require Import Imports.
From S2P Require Import SourceResolver.

(** ** Names *)

(** [uuid.split('-').next()] *)
Definition short_id (uuid : string) : string := match split_once "-" uuid with Some (p, _) => p | None => uuid end.
(** A run is known by its stem. *)
Definition RunId : Type := string.
Definition run_id_new (timestamp : Z) (uuid : string) : RunId := fmt_isize timestamp +:+ "-" +:+ short_id uuid.

(** [standalone] is the time for a writer without a run. *)
Definition trace_file_name (run : option RunId) (standalone : Z) (uuid : string) : string :=
  match run with
  | Some run => run +:+ "-" +:+ short_id uuid +:+ ".log"
  | None => fmt_isize standalone +:+ "-" +:+ short_id uuid +:+ ".log"
  end.
Definition coverage_file_name (run : option RunId) : string :=
  match run with Some run => run +:+ ".info" | None => "lcov.info" end.

Lemma short_id_app p q : has_char "-" p = false -> short_id (p +:+ "-" +:+ q) = p.
Proof. intros Hp. unfold short_id. change ("-" +:+ q) with (String "-" q). by rewrite split_once_app. Qed.

Lemma str_app_inj_r (a b c : string) : a +:+ c = b +:+ c -> a = b.
Proof.
  revert b. induction a as [|x a IH]; intros [|y b] E; [done| | |].
  - apply (f_equal String.length) in E. rewrite !str_length_app in E. cbn in E. lia.
  - apply (f_equal String.length) in E. rewrite !str_length_app in E. cbn in E. lia.
  - change (String x (a +:+ c) = String y (b +:+ c)) in E. injection E as -> E. by rewrite (IH b).
Qed.
Lemma str_app_inj_l (a b c : string) : a +:+ b = a +:+ c -> b = c.
Proof. induction a as [|x a IH]; [done|]. intros E. apply IH. by injection E. Qed.

(** Two traces of one run share a file only when their ids agree. *)
Lemma trace_names_differ run standalone uuid uuid' :
  trace_file_name (Some run) standalone uuid = trace_file_name (Some run) standalone uuid' -> short_id uuid = short_id uuid'.
Proof. unfold trace_file_name. intros E%str_app_inj_l%str_app_inj_l. by apply str_app_inj_r in E. Qed.

(** ** Writers *)
Section Writers.
Context {Trace Context W : Type}.

Class RunHost : Type := {
  now : W -> Z;
  new_uuid : W -> string;
  make_dirs : string -> W -> bool;
  can_write : string -> W -> bool;
  absolute : string -> W -> Res string;
  trace_text : Context -> Trace -> string;
}.
Context `{RunHost}.

(** The files written, by path, and the rest of the world. *)
Record HostState : Type := mkHost { host_files : gmap string string; host_world : W }.

Definition create_dir_all (dir : string) : M HostState unit := fun st =>
  if make_dirs dir (host_world st) then (Ok (), st) else (Err ("failed to create " +:+ dir), st).
Definition write_file (path text : string) : M HostState unit := fun st =>
  if can_write path (host_world st) then (Ok (), mkHost (<[path := text]> (host_files st)) (host_world st))
  else (Err ("failed to write " +:+ path), st).
Definition absolute_path (path : string) : M HostState string := fun st => (absolute path (host_world st), st).

Record ExecutionTraceWriter : Type := mkTraceWriter { tw_root : string; tw_context : Context; tw_run_id : option RunId }.
Definition trace_dir (w : ExecutionTraceWriter) : string := join (join (tw_root w) ".ripfuzz") "traces".
Definition trace_file (w : ExecutionTraceWriter) : M HostState string := fun st =>
  (Ok (join (trace_dir w) (trace_file_name (tw_run_id w) (now (host_world st)) (new_uuid (host_world st)))), st).
Definition write_trace (w : ExecutionTraceWriter) (t : Trace) : M HostState string :=
  _ ← create_dir_all (trace_dir w);
  file ← trace_file w;
  _ ← write_file file (trace_text (tw_context w) t);
  absolute_path file.

Record CoverageWriter : Type := mkCoverageWriter { cw_root : string; cw_run_id : option RunId }.
Definition write_coverage (w : CoverageWriter) (report : string) : M HostState string :=
  let dir := join (join (cw_root w) ".ripfuzz") "coverage" in
  let file := join dir (coverage_file_name (cw_run_id w)) in
  _ ← create_dir_all dir; _ ← write_file file report; absolute_path file.

Lemma write_file_Ok path text st u st' : write_file path text st = (Ok u, st') ->
  st' = mkHost (<[path := text]> (host_files st)) (host_world st).
Proof. unfold write_file. destruct (can_write _ _); [|done]. by intros [= _ <-]. Qed.

Lemma create_dir_same dir st u st' : create_dir_all dir st = (Ok u, st') -> st' = st.
Proof. unfold create_dir_all. destruct (make_dirs _ _); [|done]. by intros [= _ <-]. Qed.

(** A trace is one new file with its text. *)
Lemma write_trace_Ok w t st p st' : write_trace w t st = (Ok p, st') ->
  let file := join (trace_dir w) (trace_file_name (tw_run_id w) (now (host_world st)) (new_uuid (host_world st))) in
  st' = mkHost (<[file := trace_text (tw_context w) t]> (host_files st)) (host_world st) /\ absolute file (host_world st) = Ok p.
Proof.
  unfold write_trace. intros (u & st1 & ->%create_dir_same & Hw)%M_bind_Ok. cbv zeta.
  apply M_bind_Ok in Hw as (file & st2 & [[= <-] <-]%pair_equal_spec & Hw).
  apply M_bind_Ok in Hw as (u' & st2 & ->%write_file_Ok & Ha). unfold absolute_path in Ha. by injection Ha as Ha <-.
Qed.

(** ** The reporter *)
Section Reporter.
Context {Chain : Type} `{ChainOps Chain Trace} `{Abi}.
Variable deployer : Chain -> Address.

Record BrokenInvariantReporter : Type := mkReporter {
  br_root : string;
  br_chain : option Chain;
  br_trace_context : option Context;
  br_address : option Address;
  br_summary : option Function;
  br_run_id : option RunId;
}.
Definition reporter_new (root : string) : BrokenInvariantReporter := mkReporter root None None None None None.

(** The calls of the finding, then the summary. *)
Definition rerun_transactions (r : BrokenInvariantReporter) (chain : Chain) (address : Address) (broken : BrokenInvariant) : list Transaction :=
  transactions (TestBroken.sequence broken) address (deployer chain) ++
  match br_summary r with
  | Some summary => [with_calldata (Transaction_new address) (selector summary)]
  | None => []
  end.

Definition save_trace (r : BrokenInvariantReporter) (ctx : Context) (t : Trace) : M HostState string :=
  file ← write_trace (mkTraceWriter (br_root r) ctx (br_run_id r)) t;
  root ← absolute_path (br_root r);
  mret (default file (path_strip_prefix root file)).

(** The clone is run and dropped; what is returned is the path for the log. *)
Definition report (r : BrokenInvariantReporter) (broken : BrokenInvariant) : M HostState string :=
  chain ← lift (context (br_chain r) "chain not set, call BrokenInvariantReporter::new().with_chain(..)");
  ctx ← lift (context (br_trace_context r) "trace context not set, call BrokenInvariantReporter::new().with_trace_context(..)");
  address ← lift (context (br_address r) "address not set, call BrokenInvariantReporter::new().with_address(..)");
  output ← lift (exec (rerun_transactions r chain address broken) (set_trace true chain)).1;
  t ← lift (context (trace output) "broken invariant re-run trace missing");
  save_trace r ctx t.

(** A report that succeeds ran exactly the finding and the summary on a traced
    clone, and its trace is the one file that was written. *)
Lemma report_Ok r broken st p st' : report r broken st = (Ok p, st') ->
  exists chain ctx address output c' t file, br_chain r = Some chain /\ br_trace_context r = Some ctx /\ br_address r = Some address /\
    exec (rerun_transactions r chain address broken) (set_trace true chain) = (Ok output, c') /\ trace output = Some t /\
    host_files st' = <[join (join (join (br_root r) ".ripfuzz") "traces") file := trace_text ctx t]> (host_files st) /\
    file = trace_file_name (br_run_id r) (now (host_world st)) (new_uuid (host_world st)).
Proof.
  unfold report. intros (chain & s1 & [Hc <-]%pair_equal_spec & Hr)%M_bind_Ok.
  apply M_bind_Ok in Hr as (ctx & s2 & [Hx <-]%pair_equal_spec & Hr). apply M_bind_Ok in Hr as (address & s3 & [Ha <-]%pair_equal_spec & Hr).
  apply M_bind_Ok in Hr as (output & s4 & [Ho <-]%pair_equal_spec & Hr). apply M_bind_Ok in Hr as (t & s5 & [Ht <-]%pair_equal_spec & Hr).
  unfold save_trace in Hr. apply M_bind_Ok in Hr as (file & s6 & [-> _]%write_trace_Ok & Hr).
  apply M_bind_Ok in Hr as (root & s7 & Hroot & [_ <-]%M_ret_Ok). unfold absolute_path in Hroot. injection Hroot as _ <-.
  destruct (br_chain r) as [chain'|]; [|done]. destruct (br_trace_context r) as [ctx'|]; [|done]. destruct (br_address r) as [address'|]; [|done].
  injection Hc as ->. injection Hx as ->. injection Ha as ->.
  destruct (exec _ _) as [res c'] eqn:E. cbn in Ho. subst res. destruct (trace output) as [t'|] eqn:Et; [|done]. injection Ht as ->.
  by exists chain, ctx, address, output, c', t, (trace_file_name (br_run_id r) (now (host_world st)) (new_uuid (host_world st))).
Qed.
End Reporter.
End Writers.
