(* ===== verification/Commands.v ===== *)
(** * Commands: what the commands do around a campaign

    Models steps 7 to 9 of [cli/test.rs] and [cli/max.rs], which deploy a
    harness, set it up and collect the coverage of both, and steps 8 to 12 of
    [cli/exec.rs], which run a script. A call that fails leaves its trace in a
    file and ends the command. Deployment and setup are an interface that
    [Chain] implements. *)
From S2P Require Import Prelude.
From S2P Require Import Env.
From S2P Require Import HarnessId.
From S2P Require Import Transaction.
From S2P Require Import Coverage.
From S2P Require Import ChainApi.
From S2P Require Import Chain.
From S2P Require Import Harness.
From S2P Require Import RunFiles.
From S2P Require Import Literal.
From S2P Require Import Value.
From S2P Require Import TestCommand.
From S2P Require Import MaxCommand.

(** [Chain::deploy] and [Chain::setup] *)
Class DeployOps (C Trace : Type) : Type := {
  deploy_input : DeployInput -> M C (DeployOutput (Trace := Trace));
  setup_input : SetupInput -> M C (SetupOutput (Trace := Trace));
}.

Section Commands.
Context {C Trace Ctx W : Type} `{!ChainOps C Trace} `{!DeployOps C Trace} `{!Abi} `{!RunHost (Trace := Trace) (Context := Ctx) (W := W)}.
#[local] Abbreviation Host := (HostState (W := W)).

(** What a command holds: its chain, the coverage and the files. *)
Record Run : Type := mkRun { run_chain : C; run_coverage : SharedCoverage; run_host : Host }.

Definition on_chain {A} (m : M C A) : M Run A := fun s => let '(r, c) := m (run_chain s) in (r, mkRun c (run_coverage s) (run_host s)).
Definition on_host {A} (m : M Host A) : M Run A := fun s => let '(r, h) := m (run_host s) in (r, mkRun (run_chain s) (run_coverage s) h).
Definition merge_coverage (l : ExecutionCoverage) : M Run unit := fun s =>
  match merge (run_coverage s) l with
  | Ok (cov, _) => (Ok (), mkRun (run_chain s) cov (run_host s))
  | Err m => (Err m, s)
  | Panic p => (Panic p, s)
  end.

Definition ensure_call_success (w : ExecutionTraceWriter (Context := Ctx)) (ok : bool) (t : Trace) (message : string) : M Run unit :=
  if ok then mret () else _ ← on_host (write_trace w t); lift (Err message).

Definition failed (what name step : string) : string := what +:+ " contract `" +:+ name +:+ "` " +:+ step +:+ " failed".

(** Deployment, whose failure is a revert; its address. *)
Definition deploy_step (w : ExecutionTraceWriter (Context := Ctx)) (what name : string) (input : DeployInput)
    : M Run (DeployOutput (Trace := Trace) * Address) :=
  deployment ← on_chain (deploy_input input);
  _ ← ensure_call_success w (success (do_result deployment)) (do_trace deployment) (failed what name "deployment");
  address ← lift (context (do_address deployment) "deployment succeeded but created_address is missing");
  mret (deployment, address).

Definition setup_step (w : ExecutionTraceWriter (Context := Ctx)) (what name : string) (address : Address) (f : Function)
    : M Run (SetupOutput (Trace := Trace)) :=
  output ← on_chain (setup_input (setup_input_new (selector f) address));
  _ ← ensure_call_success w (success (so_result output)) (so_trace output) (failed what name "setup");
  mret output.

(** Steps 7 to 9 of [test] and [max], from an empty coverage. *)
Definition deploy_harness (w : ExecutionTraceWriter (Context := Ctx)) (name : string) (input : DeployInput) (setup : option Function)
    : M Run Address :=
  deployed ← deploy_step w "harness" name input;
  _ ← merge_coverage (do_coverage deployed.1);
  _ ← match setup with
      | Some f => output ← setup_step w "harness" name deployed.2 f; merge_coverage (so_coverage output)
      | None => mret ()
      end;
  mret deployed.2.

(** Steps 8 to 12 of [exec]. *)
Definition exec_step (w : ExecutionTraceWriter (Context := Ctx)) (name : string) (address : Address) (f : Function) : M Run Trace :=
  output ← on_chain (exec [with_calldata (Transaction_new address) (selector f)]);
  result ← lift (context (head (results output)) "exec call result missing");
  t ← lift (context (trace output) "exec call trace missing");
  _ ← ensure_call_success w (success result) t (failed "script" name "exec");
  mret t.

Definition run_script (w : ExecutionTraceWriter (Context := Ctx)) (s : Script) : M Run string :=
  deployed ← deploy_step w "script" (name (sc_id s)) (script_deploy_input s);
  _ ← match sc_setup s with
      | Some f => _ ← setup_step w "script" (name (sc_id s)) deployed.2 f; mret ()
      | None => mret ()
      end;
  t ← exec_step w (name (sc_id s)) deployed.2 (sc_exec s);
  on_host (write_trace w t).

(** ** What a step does to the run *)

(** The trace file of a writer on a host, and a host that writes it. *)
Definition trace_path (w : ExecutionTraceWriter (Context := Ctx)) (h : Host) : string :=
  Paths.join (trace_dir w) (trace_file_name (tw_run_id w) (now (host_world h)) (new_uuid (host_world h))).
Definition writable (w : ExecutionTraceWriter (Context := Ctx)) (h : Host) (p : string) : Prop :=
  make_dirs (trace_dir w) (host_world h) = true /\ can_write (trace_path w h) (host_world h) = true /\
  absolute (trace_path w h) (host_world h) = Ok p.
Definition with_trace (w : ExecutionTraceWriter (Context := Ctx)) (t : Trace) (h : Host) : Host :=
  mkHost (<[trace_path w h := trace_text (tw_context w) t]> (host_files h)) (host_world h).

Lemma write_trace_writable w t h p : writable w h p -> write_trace w t h = (Ok p, with_trace w t h).
Proof.
  intros (Hd & Hw & Ha). unfold write_trace, create_dir_all, trace_file, write_file, absolute_path, mbind, M_bind. rewrite Hd.
  fold (trace_path w h). rewrite Hw. cbn. by rewrite Ha.
Qed.

(** ** Which calls a script makes *)

(** The state after a deployment that succeeds, and after the setup. *)
Definition deployed (input : DeployInput) (c : C) (a : Address) (c1 : C) : Prop :=
  exists o, deploy_input input c = (Ok o, c1) /\ success (do_result o) = true /\ do_address o = Some a.
Definition set_up (f : option Function) (a : Address) (c1 c2 : C) : Prop :=
  match f with
  | None => c2 = c1
  | Some f => exists o, setup_input (setup_input_new (selector f) a) c1 = (Ok o, c2) /\ success (so_result o) = true
  end.

(** The run of a script: whether its last call succeeded, that call's trace,
    and the state. The calls stop at the first that fails. *)
Inductive script_calls (s : Script) (c : C) : bool -> Trace -> C -> Prop :=
| deployment_reverts o c1 :
    deploy_input (script_deploy_input s) c = (Ok o, c1) -> success (do_result o) = false -> script_calls s c false (do_trace o) c1
| setup_reverts a c1 f o c2 :
    deployed (script_deploy_input s) c a c1 -> sc_setup s = Some f ->
    setup_input (setup_input_new (selector f) a) c1 = (Ok o, c2) -> success (so_result o) = false -> script_calls s c false (so_trace o) c2
| script_called a c1 c2 o r t c3 :
    deployed (script_deploy_input s) c a c1 -> set_up (sc_setup s) a c1 c2 ->
    exec [with_calldata (Transaction_new a) (selector (sc_exec s))] c2 = (Ok o, c3) -> head (results o) = Some r ->
    trace o = Some t -> script_calls s c (success r) t c3.

Lemma ensure_ok w t m st : ensure_call_success w true t m st = (Ok (), st).
Proof. done. Qed.

Lemma ensure_failed w t m st p : writable w (run_host st) p ->
  ensure_call_success w false t m st = (Err m, mkRun (run_chain st) (run_coverage st) (with_trace w t (run_host st))).
Proof. intros Hw. unfold ensure_call_success, mbind, M_bind, on_host. by rewrite (write_trace_writable w t _ p). Qed.

Lemma on_chain_run {A} (m : M C A) st r c : m (run_chain st) = (r, c) -> on_chain m st = (r, mkRun c (run_coverage st) (run_host st)).
Proof. unfold on_chain. by intros ->. Qed.

Lemma deploy_step_deployed w what n input st a c1 : deployed input (run_chain st) a c1 ->
  exists o, deploy_step w what n input st = (Ok (o, a), mkRun c1 (run_coverage st) (run_host st)).
Proof.
  intros (o & Hd & Hs & Ha). exists o. unfold deploy_step.
  rewrite (M_bind_run _ _ _ _ _ (on_chain_run _ _ _ _ Hd)). rewrite Hs, (M_bind_run _ _ _ _ _ (ensure_ok _ _ _ _)). by rewrite Ha.
Qed.

Lemma setup_step_set_up w what n a f st o c2 :
  setup_input (setup_input_new (selector f) a) (run_chain st) = (Ok o, c2) -> success (so_result o) = true ->
  setup_step w what n a f st = (Ok o, mkRun c2 (run_coverage st) (run_host st)).
Proof.
  intros Ho Hs. unfold setup_step. rewrite (M_bind_run _ _ _ _ _ (on_chain_run _ _ _ _ Ho)). by rewrite Hs.
Qed.

(** A call that fails ends the step with its trace on disk. *)
Lemma M_bind_stop {S A B} (m : M S A) (f : A -> M S B) s e s' : m s = (Err e, s') -> (m ≫= f) s = (Err e, s').
Proof. intros Hm. unfold mbind, M_bind. by rewrite Hm. Qed.

Lemma setup_phase w n a st (f : option Function) c2 : set_up f a (run_chain st) c2 ->
  match f with Some f => _ ← setup_step w "script" n a f; mret () | None => mret () end st = (Ok (), mkRun c2 (run_coverage st) (run_host st)).
Proof.
  destruct f as [f|]; cbn [set_up].
  - intros (o & Ho & Hs). by rewrite (M_bind_run _ _ _ _ _ (setup_step_set_up _ _ _ _ _ _ _ _ Ho Hs)).
  - intros ->. by destruct st.
Qed.

(** Whatever call of a script comes last, its trace is the one file that the
    command writes, and the command succeeds exactly when that call does. *)
Theorem script_trace_saved w s st ok t c p :
  script_calls s (run_chain st) ok t c -> writable w (run_host st) p ->
  exists r, run_script w s st = (r, mkRun c (run_coverage st) (with_trace w t (run_host st))) /\
    if ok then r = Ok p else exists m, r = Err m.
Proof.
  intros [o c1 Hd Hs|a c1 f o c2 Hd Hf Ho Hs|a c1 c2 o r t' c3 Hd Hset Hx Hh Ht] Hw; unfold run_script.
  - eexists. split; [|by eexists]. apply M_bind_stop. unfold deploy_step.
    rewrite (M_bind_run _ _ _ _ _ (on_chain_run _ _ _ _ Hd)). rewrite Hs. apply M_bind_stop.
    apply (ensure_failed _ _ _ (mkRun c1 (run_coverage st) (run_host st)) p Hw).
  - destruct (deploy_step_deployed w "script" (name (sc_id s)) _ st _ _ Hd) as (d & Hstep).
    rewrite (M_bind_run _ _ _ _ _ Hstep), Hf. eexists. split; [|by eexists]. apply M_bind_stop, M_bind_stop. unfold setup_step. cbn [fst snd].
    rewrite (M_bind_run _ _ _ _ _ (on_chain_run _ (mkRun c1 (run_coverage st) (run_host st)) _ _ Ho)). rewrite Hs. apply M_bind_stop.
    apply (ensure_failed _ _ _ (mkRun c2 (run_coverage st) (run_host st)) p Hw).
  - destruct (deploy_step_deployed w "script" (name (sc_id s)) _ st _ _ Hd) as (d & Hstep).
    rewrite (M_bind_run _ _ _ _ _ Hstep). cbn [fst snd].
    rewrite (M_bind_run _ _ _ _ _ (setup_phase w _ a (mkRun c1 (run_coverage st) (run_host st)) _ _ Hset)). unfold exec_step. cbn [run_coverage run_host].
    destruct (success r) eqn:Hok.
    + exists (Ok p). split; [|done]. rewrite (M_bind_run _ _ _ t' (mkRun c3 (run_coverage st) (run_host st))).
      * unfold on_host. cbn [run_host]. by rewrite (write_trace_writable w t' _ p Hw).
      * rewrite (M_bind_run _ _ _ _ _ (on_chain_run _ (mkRun c2 (run_coverage st) (run_host st)) _ _ Hx)).
        rewrite Hh, Ht. cbn [context]. unfold lift at 1 2, mbind, M_bind. by rewrite Hok.
    + eexists. split; [|by eexists]. apply M_bind_stop.
      rewrite (M_bind_run _ _ _ _ _ (on_chain_run _ (mkRun c2 (run_coverage st) (run_host st)) _ _ Hx)).
      rewrite Hh, Ht. cbn [context]. unfold lift at 1 2. unfold mbind at 1 2, M_bind at 1 2. rewrite Hok. apply M_bind_stop.
      apply (ensure_failed _ _ _ (mkRun c3 (run_coverage st) (run_host st)) p Hw).
Qed.

(** ** The other way: a command that goes on was not failed by a call *)
Lemma on_chain_inv {A} (m : M C A) st r st' : on_chain m st = (r, st') ->
  m (run_chain st) = (r, run_chain st') /\ run_coverage st' = run_coverage st /\ run_host st' = run_host st.
Proof. unfold on_chain. destruct (m (run_chain st)) as [x c]. by intros [= <- <-]. Qed.

Lemma ensure_inv w b t m st u st' : ensure_call_success w b t m st = (Ok u, st') -> b = true /\ st' = st.
Proof.
  destruct b; [by intros [= _ <-]|]. unfold ensure_call_success. intros (p & s1 & _ & Hl)%M_bind_Ok. discriminate Hl.
Qed.

Lemma deploy_step_inv w what n input st x st' : deploy_step w what n input st = (Ok x, st') ->
  deployed input (run_chain st) x.2 (run_chain st') /\ run_host st' = run_host st /\ run_coverage st' = run_coverage st.
Proof.
  unfold deploy_step. intros (o & s1 & (Hd & Hc & Hh)%on_chain_inv & Hr)%M_bind_Ok.
  apply M_bind_Ok in Hr as (u & s2 & [Hs ->]%ensure_inv & Hr).
  apply M_bind_Ok in Hr as (a & s3 & [Ha <-]%pair_equal_spec & Hr). apply context_Ok in Ha. apply M_ret_Ok in Hr as [<- <-].
  split; [by exists o|done].
Qed.

Lemma setup_step_inv w what n a f st o st' : setup_step w what n a f st = (Ok o, st') ->
  set_up (Some f) a (run_chain st) (run_chain st') /\ run_host st' = run_host st.
Proof.
  unfold setup_step. intros (o' & s1 & (Hd & Hc & Hh)%on_chain_inv & Hr)%M_bind_Ok.
  apply M_bind_Ok in Hr as (u & s2 & [Hs ->]%ensure_inv & Hr). apply M_ret_Ok in Hr as [<- <-]. split; [by exists o'|done].
Qed.

Lemma merge_coverage_inv l st u st' : merge_coverage l st = (Ok u, st') -> run_chain st' = run_chain st /\ run_host st' = run_host st.
Proof. unfold merge_coverage. destruct (merge _ l) as [[cov n]|m|m]; [|done..]. by intros [= _ <-]. Qed.

(** A harness that is deployed was set up, and no file was written. *)
Lemma deploy_harness_Ok w n input f st a st' : deploy_harness w n input f st = (Ok a, st') ->
  exists c1, deployed input (run_chain st) a c1 /\ set_up f a c1 (run_chain st') /\ run_host st' = run_host st.
Proof.
  unfold deploy_harness. intros (x & s1 & (Hd & Hh & _)%deploy_step_inv & Hr)%M_bind_Ok.
  apply M_bind_Ok in Hr as (u & s2 & [Hc Hh2]%merge_coverage_inv & Hr). apply M_bind_Ok in Hr as (u' & s3 & Hs & [<- <-]%M_ret_Ok).
  exists (run_chain s1). split; [exact Hd|]. destruct f as [f|].
  - apply M_bind_Ok in Hs as (o & s4 & [Hset Hh3]%setup_step_inv & [Hc4 Hh4]%merge_coverage_inv).
    rewrite Hc in Hset. rewrite Hc4, Hh4, Hh3, Hh2. by split.
  - apply M_ret_Ok in Hs as [_ <-]. by rewrite Hc, Hh2.
Qed.

(** A script that returns made all its calls, and its trace is the last one. *)
Theorem script_succeeds w s st p st' : run_script w s st = (Ok p, st') ->
  exists t, script_calls s (run_chain st) true t (run_chain st') /\ host_files (run_host st') = host_files (with_trace w t (run_host st)).
Proof.
  unfold run_script. intros (x & s1 & (Hd & Hh & _)%deploy_step_inv & Hr)%M_bind_Ok.
  apply M_bind_Ok in Hr as (u & s2 & Hset & Hr).
  assert (Hs : set_up (sc_setup s) x.2 (run_chain s1) (run_chain s2) /\ run_host s2 = run_host s1).
  { destruct (sc_setup s) as [f|].
    - apply M_bind_Ok in Hset as (o & s3 & Hset & [_ <-]%M_ret_Ok). by eapply setup_step_inv.
    - by apply M_ret_Ok in Hset as [_ <-]. }
  destruct Hs as [Hs Hh2]. apply M_bind_Ok in Hr as (t & s3 & Hx & Hw). unfold exec_step in Hx.
  apply M_bind_Ok in Hx as (o & s4 & (Hx & _ & Hh3)%on_chain_inv & Hr). apply M_bind_Ok in Hr as (r & s5 & [Hres <-]%pair_equal_spec & Hr).
  apply M_bind_Ok in Hr as (t' & s6 & [Ht <-]%pair_equal_spec & Hr). apply M_bind_Ok in Hr as (u' & s7 & [Hok ->]%ensure_inv & [-> <-]%M_ret_Ok).
  apply context_Ok in Hres, Ht. unfold on_host in Hw. destruct (write_trace w t (run_host s4)) as [r' h] eqn:Ew. injection Hw as -> <-.
  apply write_trace_Ok in Ew as [-> _]. exists t. rewrite <- Hok. split; [by eapply script_called|].
  cbn [run_host host_files with_trace]. unfold trace_path. by rewrite Hh3, Hh2, Hh.
Qed.
End Commands.
Arguments Run : clear implicits.

(** ** [Chain] deploys and sets up *)
Section Implementation.
Context {Database BlockEnv CfgEnv : Type} `{Revm Database BlockEnv CfgEnv} `{Keccak} `{Text} `{BytesText}.
Context {CheatState CheatInspector Tracker TraceInspector Trace : Type}.
Context (cheat_from_state : CheatState -> CheatInspector) (cheat_state : CheatInspector -> CheatState).
Context (tracker_new : Tracker) (trace_new : TraceInspector) (into_trace : TraceInspector -> Trace).
Context (cheat_trait : RevmInspector CheatInspector) (tracker_trait : RevmInspector Tracker).
Context (trace_trait : RevmInspector TraceInspector) (coverage_trait : RevmInspector CoverageInspector.Inspector).

#[export] Instance chain_deploys : DeployOps (Chain.Chain (Database := Database) (BlockEnv := BlockEnv) (CfgEnv := CfgEnv) (CheatState := CheatState)) Trace := {|
  deploy_input := Chain.deploy cheat_from_state cheat_state tracker_new trace_new into_trace cheat_trait tracker_trait trace_trait coverage_trait;
  setup_input := Chain.setup cheat_from_state cheat_state tracker_new trace_new into_trace cheat_trait tracker_trait trace_trait coverage_trait;
|}.
End Implementation.

(** ** From a compiled harness to a campaign *)
Section Prepare.
Context {C Trace Ctx W : Type} `{!ChainOps C Trace} `{!DeployOps C Trace} `{!Abi} `{!RunHost (Trace := Trace) (Context := Ctx) (W := W)}.
Variable deployer_of : C -> Address.

Definition this_run : M (Run C W) (Run C W) := fun st => (Ok st, st).

(** What a campaign of [test] starts from; [literals] are those of the output. *)
Definition prepare_test (w : ExecutionTraceWriter (Context := Ctx)) (h : TestHarness) (literals : LiteralExtractor) : M (Run C W) (TestCommand.Deployed C) :=
  address ← deploy_harness (Trace := Trace) w (name (th_id h)) (test_deploy_input h) (th_setup h);
  st ← this_run;
  mret (TestCommand.mkDeployed (run_chain st) address (deployer_of (run_chain st)) (th_handlers h) (th_invariants h) literals (run_coverage st)).

Definition prepare_max (w : ExecutionTraceWriter (Context := Ctx)) (h : MaxHarness) : M (Run C W) (MaxDeployed C) :=
  address ← deploy_harness (Trace := Trace) w (name (mh_id h)) (max_deploy_input h) (mh_setup h);
  st ← this_run;
  mret (mkMaxDeployed (run_chain st) address (deployer_of (run_chain st)) (mh_value h) (max_handlers h) (run_coverage st)).

(** The campaign runs on the harness that was deployed and set up, with the
    functions of its ABI and the coverage of both. *)
Lemma prepare_test_Ok w h lits st d st' : prepare_test w h lits st = (Ok d, st') ->
  (exists c1, deployed (Trace := Trace) (test_deploy_input h) (run_chain st) (d_address d) c1 /\ set_up (Trace := Trace) (th_setup h) (d_address d) c1 (d_chain d)) /\
  d_handlers d = th_handlers h /\ d_invariants d = th_invariants h /\ d_coverage d = run_coverage st' /\ run_host st' = run_host st.
Proof.
  unfold prepare_test. intros (a & s1 & (c1 & Hd & Hs & Hh)%deploy_harness_Ok & Hr)%M_bind_Ok.
  apply M_bind_Ok in Hr as (s2 & s3 & [[= ->] <-]%pair_equal_spec & [<- <-]%M_ret_Ok).
  cbn. split; [by exists c1|done].
Qed.

Lemma prepare_max_Ok w h st d st' : prepare_max w h st = (Ok d, st') ->
  (exists c1, deployed (Trace := Trace) (max_deploy_input h) (run_chain st) (md_address d) c1 /\ set_up (Trace := Trace) (mh_setup h) (md_address d) c1 (md_chain d)) /\
  md_handlers d = max_handlers h /\ md_value d = mh_value h /\ md_coverage d = run_coverage st' /\ run_host st' = run_host st.
Proof.
  unfold prepare_max. intros (a & s1 & (c1 & Hd & Hs & Hh)%deploy_harness_Ok & Hr)%M_bind_Ok.
  apply M_bind_Ok in Hr as (s2 & s3 & [[= ->] <-]%pair_equal_spec & [<- <-]%M_ret_Ok).
  cbn. split; [by exists c1|done].
Qed.
End Prepare.
