(* ===== verification/CheatState.v ===== *)
(** * CheatState: outcomes and state of the cheatcodes

    Models outcome.rs, state.rs and config.rs of [evm/cheatcode]: what a
    cheatcode returns to its caller, and what cheatcodes keep between calls.
    The transport override of the tests is left out. *)
From S2P Require Import Prelude.
From S2P Require Import Env.
From S2P Require Import Rpc.
From S2P Require Import ForkDB.

(** [DynSolValue::abi_encode] *)
Class AbiValues : Type := { abi_encode : DynSolValue -> Bytes }.

(** Encoding a single value is decoded back at its type. *)
Class AbiValuesLaws `{Abi} `{AbiValues} : Prop := {
  abi_decode_string : forall s, abi_decode TString (abi_encode (VString s)) = Ok (VString s);
  abi_decode_bytes : forall bs, Forall byte_ok bs -> abi_decode TBytes (abi_encode (VBytes bs)) = Ok (VBytes bs);
}.

(** ** Outcomes *)

(** The results a cheatcode gives. *)
Inductive InstructionResult : Type := Stop | Return | Revert.

#[export] Instance InstructionResult_eq_dec : EqDecision InstructionResult.
Proof. solve_decision. Defined.

(** [gas] is the limit of the outcome's gas, [memory_offset] the range of the
    caller's memory the output is copied to. *)
Record CallOutcome : Type := mkOutcome {
  result : InstructionResult;
  output : Bytes;
  gas : Z;
  memory_offset : Z * Z;
}.

Definition outcome_of (r : InstructionResult) (out : Bytes) : CallOutcome := mkOutcome r out 0 (0, 0).

Definition success : CallOutcome := outcome_of Stop [].
Definition success_u256 (value : U256) : CallOutcome := outcome_of Return (be_bytes 32 value).
Definition success_address (value : Address) : CallOutcome :=
  outcome_of Return (replicate 12 0 ++ be_bytes 20 value).
Definition success_bool (value : bool) : CallOutcome :=
  outcome_of Return (replicate 31 0 ++ [if value then 1 else 0]).
Definition success_bytes (value : Bytes) : CallOutcome := outcome_of Return value.
Definition success_sign (v : Z) (r s : Bytes) : CallOutcome := outcome_of Return (replicate 31 0 ++ [v] ++ r ++ s).
Definition revert `{AbiValues} (reason : string) : CallOutcome :=
  outcome_of Revert ([0x08; 0xc3; 0x79; 0xa0] ++ abi_encode (VString reason)).

(** ** State *)
Record BlockCheatState : Type := mkBlockCheat {
  timestamp : option U256;
  number : option U256;
  basefee : option U256;
  beneficiary : option Address;
  prevrandao : option U256;
  chain_id : option U256;
}.
Definition block_cheat_default : BlockCheatState := mkBlockCheat None None None None None None.

Record PrankState : Type := mkPrank {
  caller : Address;
  origin : option Address;
  single_call : bool;
  set_depth : Z;
  prank_caller : Address;
  used : bool;
}.

Record StartPrankState : Type := mkStart {
  start_caller : Address;
  start_origin : option Address;
  start_set_depth : Z;
  start_prank_caller : Address;
  start_used : bool;
}.

Record PrankCheatState : Type := mkPrankCheat {
  active : option PrankState;
  start : option StartPrankState;
  original_origin : option Address;
}.
Definition prank_cheat_default : PrankCheatState := mkPrankCheat None None None.

(** The registry is shared: the inspector's handle and the state's are the same
    registry. *)
Record ExecutionState : Type := mkState {
  block : BlockCheatState;
  prank : PrankCheatState;
  labels : gmap Address string;
  project_root : string;
  ffi_enabled : bool;
  fork_defaults : ForkDBConfig;
  local_registry : SharedLocalAddressRegistry;
}.

Record CheatcodeConfig : Type := mkCheatcodeConfig {
  ffi : bool;
  config_project_root : string;
  config_fork_defaults : ForkDBConfig;
}.

(** [available_parallelism] is the argument of the fork settings. *)
Definition config_default (parallelism : Z) : CheatcodeConfig :=
  mkCheatcodeConfig false "" (config_new "" parallelism).
Definition config_for_root (root : string) (parallelism : Z) : CheatcodeConfig :=
  mkCheatcodeConfig false root (config_new "" parallelism).
Definition config_with_ffi (enabled : bool) (c : CheatcodeConfig) : CheatcodeConfig :=
  mkCheatcodeConfig enabled (config_project_root c) (config_fork_defaults c).
Definition config_with_project_root (root : string) (c : CheatcodeConfig) : CheatcodeConfig :=
  mkCheatcodeConfig (ffi c) root (config_fork_defaults c).
Definition config_with_fork_defaults (defaults : ForkDBConfig) (c : CheatcodeConfig) : CheatcodeConfig :=
  mkCheatcodeConfig (ffi c) (config_project_root c) defaults.

Definition state_default (parallelism : Z) : ExecutionState :=
  mkState block_cheat_default prank_cheat_default ∅ "" false (config_new "" parallelism) registry_new.
Definition from_config (c : CheatcodeConfig) : ExecutionState :=
  mkState block_cheat_default prank_cheat_default ∅ (config_project_root c) (ffi c) (config_fork_defaults c)
    registry_new.
Definition with_local_registry (r : SharedLocalAddressRegistry) (s : ExecutionState) : ExecutionState :=
  mkState (block s) (prank s) (labels s) (project_root s) (ffi_enabled s) (fork_defaults s) r.

(** Updates of one field. *)
Definition set_block_cheat (b : BlockCheatState) (s : ExecutionState) : ExecutionState :=
  mkState b (prank s) (labels s) (project_root s) (ffi_enabled s) (fork_defaults s) (local_registry s).
Definition set_prank (p : PrankCheatState) (s : ExecutionState) : ExecutionState :=
  mkState (block s) p (labels s) (project_root s) (ffi_enabled s) (fork_defaults s) (local_registry s).
Definition set_labels (l : gmap Address string) (s : ExecutionState) : ExecutionState :=
  mkState (block s) (prank s) l (project_root s) (ffi_enabled s) (fork_defaults s) (local_registry s).

(** What the caller of a cheatcode reads: a word, and a flag. *)
Definition output_word (o : CallOutcome) : Z := be_number (take 32 (output o)).

Lemma success_u256_word u : in_u256 u -> output_word (success_u256 u) = u.
Proof.
  intros Hu. unfold output_word. cbn [output success_u256 outcome_of]. rewrite take_ge by (rewrite be_bytes_length; lia).
  apply be_number_bytes. change (256 ^ Z.of_nat 32) with (2 ^ 256). unfold in_u256, u256_max in Hu. lia.
Qed.

Lemma be_number_zeros n bs : be_number (replicate n 0 ++ bs) = be_number bs.
Proof. induction n as [|n IH]; simpl; [done|]. unfold be_number in *. simpl. exact IH. Qed.

Lemma success_address_word a : 0 <= a <= address_max -> output_word (success_address a) = a.
Proof.
  intros Ha. unfold output_word. cbn [output success_address outcome_of].
  rewrite take_ge by (rewrite length_app, length_replicate, be_bytes_length; lia).
  rewrite be_number_zeros. apply be_number_bytes. change (256 ^ Z.of_nat 20) with (2 ^ 160).
  unfold address_max in Ha. lia.
Qed.

Lemma success_bool_word b : output_word (success_bool b) = if b then 1 else 0.
Proof. by destruct b. Qed.
