(* ===== verification/CheatFork.v ===== *)
(** * CheatFork: the fork cheatcode

    Models [evm/cheatcode/calls/fork.rs] with the part of the execution context
    the cheatcodes see. revm's journal is its accounts, its entries and its
    database; the accounts themselves are a parameter. *)
From S2P Require Import Prelude.
From S2P Require Import Env.
From S2P Require Import Transaction.
From S2P Require Import Rpc.
From S2P Require Import ForkDB.
From S2P Require Import Specs.
From S2P Require Import Database.
From S2P Require Import CheatState.

(** ** The execution context *)
Record BlobExcessGasAndPrice : Type := new_with_spec { excess_blob_gas : Z; blob_spec : SpecId }.

Record BlockEnv : Type := mkBlockEnv {
  blk_number : U256;
  blk_timestamp : U256;
  blk_beneficiary : Address;
  blk_difficulty : U256;
  blk_prevrandao : option U256;
  blk_gas_limit : Z;
  blk_basefee : Z;
  blk_blob : option BlobExcessGasAndPrice;
}.

(** [tx_caller] is [tx.origin]. *)
Record Context (J : Type) : Type := mkContext {
  block_env : BlockEnv;
  tx_caller : Address;
  cfg_chain_id : Z;
  cfg_spec : SpecId;
  journal : J;
}.
Arguments mkContext {J}.
Arguments block_env {J}.
Arguments tx_caller {J}.
Arguments cfg_chain_id {J}.
Arguments cfg_spec {J}.
Arguments journal {J}.

Section Setters.
Context {J : Type}.
Implicit Types (c : Context J).
Definition set_block (b : BlockEnv) c : Context J := mkContext b (tx_caller c) (cfg_chain_id c) (cfg_spec c) (journal c).
Definition set_tx_caller (a : Address) c : Context J := mkContext (block_env c) a (cfg_chain_id c) (cfg_spec c) (journal c).
Definition set_chain_id (i : Z) c : Context J := mkContext (block_env c) (tx_caller c) i (cfg_spec c) (journal c).
Definition set_spec_and_mainnet_gas_params (s : SpecId) c : Context J :=
  mkContext (block_env c) (tx_caller c) (cfg_chain_id c) s (journal c).
Definition set_journal (j : J) c : Context J := mkContext (block_env c) (tx_caller c) (cfg_chain_id c) (cfg_spec c) j.
End Setters.

(** ** What a fork switch needs of the journal *)
Class ForkJournal (J : Type) : Type := {
  is_active_fork : string -> Z -> J -> bool;
  db_fork : string -> Z -> ForkDBConfig -> SharedLocalAddressRegistry -> DbM J ForkEnv;
  commit_remote_before_fork_switch : (Address -> bool) -> J -> J;
}.

(** ** revm's journal *)
Inductive JournalEntry : Type :=
| AccountWarmed (a : Address)
| AccountTouched (a : Address)
| BalanceChange (a : Address)
| NonceChange (a : Address)
| NonceBump (a : Address)
| AccountCreated (a : Address)
| StorageChanged (a : Address)
| StorageWarmed (a : Address)
| TransientStorageChange (a : Address)
| CodeChange (a : Address)
| AccountDestroyed (a target : Address)
| BalanceTransfer (from to : Address).

(** The accounts whose journaled state an entry undoes. *)
Definition entry_touches (e : JournalEntry) : list Address :=
  match e with
  | AccountWarmed a | AccountTouched a | BalanceChange a | NonceChange a | NonceBump a
  | AccountCreated a | StorageChanged a | StorageWarmed a | TransientStorageChange a | CodeChange a => [a]
  | AccountDestroyed a b | BalanceTransfer a b => [a; b]
  end.

Definition journal_entry_is_persistent (e : JournalEntry) (is_persistent : Address -> bool) : bool :=
  match e with
  | AccountWarmed a | AccountTouched a | BalanceChange a | NonceChange a | NonceBump a
  | AccountCreated a | StorageChanged a | StorageWarmed a | TransientStorageChange a | CodeChange a =>
      is_persistent a
  | AccountDestroyed a target => is_persistent a && is_persistent target
  | BalanceTransfer from to => is_persistent from && is_persistent to
  end.

Record Journal (Acc DB : Type) : Type := mkJournal {
  accounts : gmap Address Acc;
  entries : list JournalEntry;
  database : DB;
}.
Arguments mkJournal {Acc DB}.
Arguments accounts {Acc DB}.
Arguments entries {Acc DB}.
Arguments database {Acc DB}.

(** The database under a journal: [commit], and the operations of
    [AsForkDatabase]. *)
Class ForkDatabase (Acc DB : Type) : Type := {
  db_commit : gmap Address Acc -> DB -> DB;
  as_is_active_fork : string -> Z -> DB -> bool;
  as_fork : string -> Z -> ForkDBConfig -> SharedLocalAddressRegistry -> DbM DB ForkEnv;
}.

Section Commit.
Context {Acc DB : Type} `{ForkDatabase Acc DB}.

Definition commit_remote (is_persistent : Address -> bool) (j : Journal Acc DB) : Journal Acc DB :=
  let remote_changes := filter (fun ka => is_persistent ka.1 = false) (accounts j) in
  if decide (remote_changes = ∅) then j
  else
    mkJournal (filter (fun ka => is_persistent ka.1 = true) (accounts j))
      (filter (fun e => journal_entry_is_persistent e is_persistent = true) (entries j))
      (db_commit remote_changes (database j)).

#[export] Instance journal_forks : ForkJournal (Journal Acc DB) := {
  is_active_fork u b j := as_is_active_fork u b (database j);
  db_fork u b cfg reg j :=
    let '(r, d) := as_fork u b cfg reg (database j) in (r, mkJournal (accounts j) (entries j) d);
  commit_remote_before_fork_switch := commit_remote;
}.
End Commit.

(** [AsForkDatabase for Database]: the multi-fork database, with the world its
    backends talk to. *)
#[export] Instance multi_fork {E D Info Bk W : Type} `{CacheDB E Info W} `{CacheDB D Info W} `{Backends Bk W}
    `{NewFork D Info Bk} `{Keccak} `{Hardforks} (Acc : Type)
    (commit_evm : gmap Address Acc -> Database.Database E D Bk * W -> Database.Database E D Bk * W)
    : ForkDatabase Acc (Database.Database E D Bk * W) := {
  db_commit := commit_evm;
  as_is_active_fork u b d := Database.is_active_fork u b d.1;
  as_fork u b cfg reg := Database.fork u b cfg reg;
}.

(** ** The handler *)
Record ForkOptions : Type := mkForkOptions {
  opt_retries : option Z;
  opt_backoff_ms : option Z;
  opt_timeout_ms : option Z;
  opt_rate_limit : option Z;
}.
Definition fork_options_default : ForkOptions := mkForkOptions None None None None.

(** A rate limit of zero turns the limit off. *)
Definition fork_config (defaults : ForkDBConfig) (u : string) (blk : Z) (o : ForkOptions) : ForkDBConfig :=
  mkForkDBConfig u
    (default (retries defaults) (opt_retries o))
    (default (backoff_ms defaults) (opt_backoff_ms o))
    (default (timeout_ms defaults) (opt_timeout_ms o))
    (batch_size defaults) (batch_timeout_ms defaults)
    match opt_rate_limit o with
    | Some r => if r =? 0 then None else Some r
    | None => rate_limit defaults
    end
    (cache_dir defaults) blk.

Section Handler.
Context {J : Type} `{ForkJournal J} `{AbiValues} `{Text}.

(** The block the context and the scratchpad get from the forked header. *)
Definition forked_block (env : ForkEnv) (b : BlockEnv) : BlockEnv :=
  mkBlockEnv (env_block_number env) (env_timestamp env) (env_beneficiary env) (env_difficulty env)
    (env_prevrandao env) u64_max 0 (Some (new_with_spec (default 0 (env_excess_blob_gas env)) (env_spec_id env))).

Definition forked_scratch (env : ForkEnv) (b : BlockCheatState) : BlockCheatState :=
  mkBlockCheat (Some (env_timestamp env)) (Some (env_block_number env)) (basefee b)
    (Some (env_beneficiary env)) (env_prevrandao env) (Some (env_chain_id env)).

Definition persists (registry : SharedLocalAddressRegistry) (addr : Address) : bool :=
  (addr =? DEFAULT_DEPLOYER) || (addr =? VM_ADDRESS) || is_local addr registry.

Definition apply_fork_env (env : ForkEnv) (cs : Context J * ExecutionState) : Context J * ExecutionState :=
  (set_spec_and_mainnet_gas_params (env_spec_id env)
     (set_chain_id (env_chain_id env) (set_block (forked_block env (block_env cs.1)) cs.1)),
   set_block_cheat (forked_scratch env (block cs.2)) cs.2).

Definition fork_with_options (u : string) (blk : U256) (o : ForkOptions)
    : M (Context J * ExecutionState) (option CallOutcome) := fun cs =>
  if bool_decide (u = "") then (Ok (Some (revert "fork: empty RPC URL")), cs)
  else if u64_max <? blk then
    (Ok (Some (revert ("fork: block number " +:+ u256_to_string blk +:+ " does not fit in u64"))), cs)
  else
    let '(c, s) := cs in
    let config := fork_config (fork_defaults s) u blk o in
    let j :=
      if is_active_fork u blk (journal c) then journal c
      else commit_remote_before_fork_switch (persists (local_registry s)) (journal c) in
    match db_fork u blk config (local_registry s) j with
    | (DOk env, j') => (Ok (Some success), apply_fork_env env (set_journal j' c, s))
    | (DErr e, j') => (Ok (Some (revert ("fork failed: " +:+ database_error_display e))), (set_journal j' c, s))
    | (DPanic p, j') => (Panic p, (set_journal j' c, s))
    end.

Definition fork (u : string) (blk : U256) : M (Context J * ExecutionState) (option CallOutcome) :=
  fork_with_options u blk fork_options_default.
End Handler.

(** ** Properties *)
Section Journal_lemmas.
Context {Acc DB : Type} `{ForkDatabase Acc DB}.
Implicit Types (j : Journal Acc DB) (p : Address -> bool).

(** revm undoes an entry by unwrapping the accounts it touches: they must be in
    the journal. *)
Definition journal_wf j : Prop :=
  Forall (fun e => Forall (fun a => is_Some (accounts j !! a)) (entry_touches e)) (entries j).

Lemma entry_persistent_touches e p :
  journal_entry_is_persistent e p = true <-> Forall (fun a => p a = true) (entry_touches e).
Proof. destruct e; simpl; rewrite ?andb_true_iff, ?Forall_cons, ?Forall_nil; tauto. Qed.

Lemma commit_remote_wf p j : journal_wf j -> journal_wf (commit_remote p j).
Proof.
  intros Hw. unfold commit_remote. case_decide; [done|]. unfold journal_wf in *. simpl.
  apply Forall_forall. intros e [He Hin]%list_elem_of_filter.
  pose proof (proj1 (entry_persistent_touches e p) He) as Hp. rewrite Forall_forall in Hw. specialize (Hw e Hin).
  rewrite Forall_forall in Hw, Hp. apply Forall_forall. intros a Ha. destruct (Hw a Ha) as [x Hx]. exists x.
  apply map_lookup_filter_Some. split; [done|]. by apply Hp.
Qed.

Lemma commit_remote_persistent p j a : p a = true -> accounts (commit_remote p j) !! a = accounts j !! a.
Proof.
  intros Ha. unfold commit_remote. case_decide; [done|]. simpl. destruct (accounts j !! a) as [x|] eqn:E.
  - apply map_lookup_filter_Some. by split.
  - apply map_lookup_filter_None. by left.
Qed.

Lemma commit_remote_only p j a x : accounts (commit_remote p j) !! a = Some x -> p a = true.
Proof.
  unfold commit_remote. case_decide as Hr; simpl.
  - intros Hx. destruct (p a) eqn:E; [done|]. exfalso.
    assert (Hin : filter (fun ka => p ka.1 = false) (accounts j) !! a = Some x) by (by apply map_lookup_filter_Some).
    rewrite Hr in Hin. by rewrite lookup_empty in Hin.
  - by intros [_ ?]%map_lookup_filter_Some.
Qed.
End Journal_lemmas.

Section Properties.
Context {Acc DB : Type} `{ForkDatabase Acc DB} `{AbiValues} `{Text}.
Implicit Types (c : Context (Journal Acc DB)) (s : ExecutionState).

(** C16: A [vm.fork] always answers unless the database panics. It keeps the
    journal one that can be undone, and the journaled state of every persistent
    account. When it switches, the journal holds persistent accounts only, the
    others having been committed to the fork that was active. A success gives
    the context the block, the chain and the specification of the fork; a
    failure changes none of them. *)
Theorem fork_call_spec u blk o c s r c' s' :
  journal_wf (journal c) -> fork_with_options u blk o (c, s) = (Ok r, (c', s')) ->
  let reg := local_registry s in
  journal_wf (journal c') /\
  (forall a, persists reg a = true -> accounts (journal c') !! a = accounts (journal c) !! a) /\
  tx_caller c' = tx_caller c /\
  exists out, r = Some out /\
    ((result out = Stop /\
      (exists env d0,
         (d0 = database (journal c) \/ d0 = db_commit (filter (fun ka => persists reg ka.1 = false)
            (accounts (journal c))) (database (journal c))) /\
         as_fork u blk (fork_config (fork_defaults s) u blk o) reg d0 = (DOk env, database (journal c')) /\
         block_env c' = forked_block env (block_env c) /\ cfg_chain_id c' = env_chain_id env /\
         cfg_spec c' = env_spec_id env /\ block s' = forked_scratch env (block s)) /\
      (as_is_active_fork u blk (database (journal c)) = false ->
         forall a x, accounts (journal c') !! a = Some x -> persists reg a = true)) \/
     (result out = Revert /\ block_env c' = block_env c /\ cfg_chain_id c' = cfg_chain_id c /\
      cfg_spec c' = cfg_spec c /\ s' = s)).
Proof.
  intros Hw Hf reg. unfold fork_with_options in Hf.
  case_bool_decide; [injection Hf as <- <- <-; split; [done|]; split; [done|]; split; [done|]; eexists; split; [done|]; by right|].
  destruct (u64_max <? blk).
  { injection Hf as <- <- <-. split; [done|]. split; [done|]. split; [done|]. eexists. split; [done|]. by right. }
  change (is_active_fork u blk (journal c)) with (as_is_active_fork u blk (database (journal c))) in Hf.
  set (j := if as_is_active_fork u blk (database (journal c)) then journal c else _) in Hf.
  assert (Hj : journal_wf j /\ (forall a, persists reg a = true -> accounts j !! a = accounts (journal c) !! a) /\
    (database j = database (journal c) \/ database j = db_commit (filter (fun ka => persists reg ka.1 = false)
       (accounts (journal c))) (database (journal c))) /\
    (as_is_active_fork u blk (database (journal c)) = false ->
       forall a x, accounts j !! a = Some x -> persists reg a = true)).
  { unfold j. destruct (as_is_active_fork _ _ _); [split; [done|split; [done|split; [by left|done]]]|]. cbn [commit_remote_before_fork_switch journal_forks].
    split; [by apply commit_remote_wf|]. split; [intros a; apply commit_remote_persistent|].
    split; [unfold commit_remote; case_decide; auto|]. intros _ a x. apply commit_remote_only. }
  clearbody j. destruct Hj as (Hjw & Hjp & Hjd & Hjr). cbn [db_fork journal_forks] in Hf.
  destruct (as_fork _ _ _ _ (database j)) as [[env|e|p] d'] eqn:Ed; [| |done];
    injection Hf as <- <- <-; (split; [done|]); (split; [done|]); (split; [done|]); eexists; (split; [reflexivity|]).
  - left. split; [done|]. split; [|done]. exists env, (database j). split; [exact Hjd|]. by split.
  - by right.
Qed.
End Properties.

(** ** Witness: a switch away from a remote account *)
Module ToyCheatFork.
Import Toy.
#[export] Instance abi_values : AbiValues := { abi_encode _ := [] }.
Definition env : ForkEnv := mkForkEnv 5 9 100 6 0 None None None CANCUN.
(** The database counts the accounts committed to it. *)
#[export] Instance counting : ForkDatabase Z Z := {
  db_commit changes d := d + Z.of_nat (size changes);
  as_is_active_fork _ _ _ := false;
  as_fork _ _ _ _ d := (DOk env, d);
}.
Definition journal0 : Journal Z Z :=
  mkJournal {[DEFAULT_DEPLOYER := 1; 44 := 2]}
    [AccountWarmed 44; StorageChanged DEFAULT_DEPLOYER; BalanceTransfer DEFAULT_DEPLOYER 44] 0.
Definition context0 : Context (Journal Z Z) := mkContext (mkBlockEnv 1 2 3 4 None 5 6 None) 1000 1 LONDON journal0.
End ToyCheatFork.
Import Toy ToyCheatFork.

Lemma fork_call_spec_witness :
  let r := fork_with_options "u" 9 fork_options_default (context0, state_default 1) in
  journal_wf (journal r.2.1) /\ accounts (journal r.2.1) !! DEFAULT_DEPLOYER = Some 1.
Proof.
  intros r.
  destruct (fork_call_spec "u" 9 fork_options_default context0 (state_default 1) (Some success) r.2.1 r.2.2)
    as (Hw & Hp & _); [|reflexivity|].
  - repeat constructor; eexists; reflexivity.
  - split; [exact Hw|]. rewrite Hp; reflexivity.
Defined.

(** A frame that started after the first entry and reverts after the switch
    undoes nothing: its write to a persistent account has moved before its
    checkpoint, and the transfer it made is forgotten. *)
Example switch_shifts_checkpoints :
  drop 1 (entries journal0) = [StorageChanged DEFAULT_DEPLOYER; BalanceTransfer DEFAULT_DEPLOYER 44] /\
  drop 1 (entries (commit_remote (persists registry_new) journal0)) = [].
Proof. split; vm_compute; reflexivity. Qed.
