(* ===== verification/CheatCalls.v ===== *)
(** * CheatCalls: the cheatcode handlers

    Models the handlers of [evm/cheatcode/calls] and their dispatch: block and
    account overrides, pranks, labels, conversions, keys, host commands and the
    environment. The fork cheatcode is in its own file. revm's journaled
    accounts, the curve, the host and the texts of addresses and signed
    integers are parameters. *)
From S2P Require Import Prelude.
From S2P Require Import Env.
From S2P Require Import Paths.
From S2P Require Import ForkDB.
From S2P Require Import CheatState.
From S2P Require Import CheatFork.

(** ** Parameters *)

(** The accounts of the journal: loading can fail, and what it loads is kept.
    [load_account] gives the nonce. *)
Class JournalAccounts (J : Type) : Type := {
  precompile_addresses : J -> gset Address;
  load_account : Address -> J -> option Z * J;
  set_balance : Address -> U256 -> J -> J;
  set_nonce : Address -> Z -> J -> J;
  bytecode_new_raw_checked : Bytes -> option Bytes;
  set_code : Address -> Bytes -> J -> J;
  sload : Address -> U256 -> J -> option U256 * J;
  sstore : Address -> U256 -> U256 -> J -> bool * J;
  insert_account_storage : Address -> U256 -> U256 -> J -> J;
}.

(** [format!("{addr}")], [Address::from_str], and those of [I256]. *)
Class CheatText : Type := {
  address_to_string : Address -> string;
  address_parse : string -> option Address;
  i256_to_string : Z -> string;
  i256_parse : string -> option Z;
}.

(** The k256 crate: the order, the uncompressed public key of a secret key, and
    a recoverable signature as the parity of y with r and s. *)
Class Secp256k1 : Type := {
  curve_order : Z;
  public_key : Z -> option Bytes;
  sign_prehash_recoverable : Z -> Bytes -> option (bool * Bytes * Bytes);
  keccak256_bytes : Bytes -> Bytes;
}.

Inductive EnvVar : Type := EnvFound (value : string) | EnvNotPresent | EnvNotUnicode.

(** [std::env::var], and a finished command: its success, stdout and stderr. *)
Class Host : Type := {
  env_var : string -> EnvVar;
  run_command : list string -> string -> (bool * string * string) + string;
}.

Section Calls.
Context {J : Type} `{JournalAccounts J} `{ForkJournal J}.
Context `{AbiValues} `{Text} `{CheatText} `{Secp256k1} `{Host}.

#[local] Abbreviation Call := (M (Context J * ExecutionState) (option CallOutcome)).

(** A handler that succeeds with an update, and one that only answers. *)
Definition succeed (f : Context J -> Context J) (g : ExecutionState -> ExecutionState) : Call :=
  fun '(c, s) => (Ok (Some success), (f c, g s)).
Definition answer (o : option CallOutcome) : Call := fun cs => (Ok o, cs).

(** ** Block *)
Definition map_block (f : BlockEnv -> BlockEnv) (c : Context J) : Context J := set_block (f (block_env c)) c.
Definition map_scratch (f : BlockCheatState -> BlockCheatState) (s : ExecutionState) : ExecutionState :=
  set_block_cheat (f (block s)) s.

Definition warp (value : U256) : Call :=
  succeed
    (map_block (fun b => mkBlockEnv (blk_number b) value (blk_beneficiary b) (blk_difficulty b)
       (blk_prevrandao b) (blk_gas_limit b) (blk_basefee b) (blk_blob b)))
    (map_scratch (fun b => mkBlockCheat (Some value) (number b) (basefee b) (beneficiary b) (prevrandao b) (chain_id b))).

Definition roll (value : U256) : Call :=
  succeed
    (map_block (fun b => mkBlockEnv value (blk_timestamp b) (blk_beneficiary b) (blk_difficulty b)
       (blk_prevrandao b) (blk_gas_limit b) (blk_basefee b) (blk_blob b)))
    (map_scratch (fun b => mkBlockCheat (timestamp b) (Some value) (basefee b) (beneficiary b) (prevrandao b) (chain_id b))).

(** A base fee past 64 bits becomes zero. *)
Definition fee (value : U256) : Call :=
  succeed
    (map_block (fun b => mkBlockEnv (blk_number b) (blk_timestamp b) (blk_beneficiary b) (blk_difficulty b)
       (blk_prevrandao b) (blk_gas_limit b) (if value <=? u64_max then value else 0) (blk_blob b)))
    (map_scratch (fun b => mkBlockCheat (timestamp b) (number b) (Some value) (beneficiary b) (prevrandao b) (chain_id b))).

Definition coinbase (a : Address) : Call :=
  succeed
    (map_block (fun b => mkBlockEnv (blk_number b) (blk_timestamp b) a (blk_difficulty b)
       (blk_prevrandao b) (blk_gas_limit b) (blk_basefee b) (blk_blob b)))
    (map_scratch (fun b => mkBlockCheat (timestamp b) (number b) (basefee b) (Some a) (prevrandao b) (chain_id b))).

Definition prevrandao_call (word : U256) : Call :=
  succeed
    (map_block (fun b => mkBlockEnv (blk_number b) (blk_timestamp b) (blk_beneficiary b) (blk_difficulty b)
       (Some word) (blk_gas_limit b) (blk_basefee b) (blk_blob b)))
    (map_scratch (fun b => mkBlockCheat (timestamp b) (number b) (basefee b) (beneficiary b) (Some word) (chain_id b))).

(** A chain id past 64 bits saturates. *)
Definition chainId (value : U256) : Call :=
  succeed (set_chain_id (Z.min value u64_max))
    (map_scratch (fun b => mkBlockCheat (timestamp b) (number b) (basefee b) (beneficiary b) (prevrandao b) (Some value))).

(** ** Accounts *)

(** [.ok()?] on a load: the handler gives no outcome. *)
Definition with_account (a : Address) (f : Z -> J -> option CallOutcome * J) : Call := fun '(c, s) =>
  let '(nonce, j) := load_account a (journal c) in
  match nonce with
  | None => (Ok None, (set_journal j c, s))
  | Some n => let '(o, j') := f n j in (Ok o, (set_journal j' c, s))
  end.

Definition deal (a : Address) (value : U256) : Call :=
  with_account a (fun _ j => (Some success, set_balance a value j)).

Definition etch (a : Address) (code : Bytes) : Call := fun '(c, s) =>
  if bool_decide (a ∈ precompile_addresses (journal c)) then
    (Ok (Some (revert "cannot etch precompile address")), (c, s))
  else
    with_account a (fun _ j =>
      match bytecode_new_raw_checked code with
      | None => (None, j)
      | Some b => (Some success, set_code a b j)
      end) (c, s).

(** A failed load counts as nonce 0 in the check, and then gives no outcome. *)
Definition setNonce (a : Address) (nonce : Z) : Call := fun '(c, s) =>
  let '(loaded, j) := load_account a (journal c) in
  let current := default 0 loaded in
  if nonce <? current then
    (Ok (Some (revert ("new nonce (" +:+ u256_to_string nonce +:+ ") must be >= current nonce ("
       +:+ u256_to_string current +:+ ")"))), (set_journal j c, s))
  else with_account a (fun _ j => (Some success, set_nonce a nonce j)) (set_journal j c, s).

Definition getNonce (a : Address) : Call := fun '(c, s) =>
  let '(loaded, j) := load_account a (journal c) in
  (Ok (Some (success_u256 (default 0 loaded))), (set_journal j c, s)).

(** A store first writes zero to the slot in the database cache, so that the
    write of the journal does not fetch the slot. *)
Definition store (a : Address) (slot value : U256) : Call := fun '(c, s) =>
  if bool_decide (a ∈ precompile_addresses (journal c)) then
    (Ok (Some (revert "store: cannot write to precompile")), (c, s))
  else
    with_account a (fun _ j =>
      let '(stored, j') := sstore a slot value (insert_account_storage a slot 0 j) in
      ((if stored then Some success else None), j')) (c, s).

(** A slot that cannot be read is zero. *)
Definition load (a : Address) (slot : U256) : Call := fun '(c, s) =>
  if bool_decide (a ∈ precompile_addresses (journal c)) then
    (Ok (Some (revert "load: cannot read from precompile")), (c, s))
  else
    let '(loaded, j) := load_account a (journal c) in
    match loaded with
    | None => (Ok (Some (success_bytes (be_bytes 32 0))), (set_journal j c, s))
    | Some _ =>
        let '(value, j') := sload a slot j in
        (Ok (Some (success_bytes (be_bytes 32 (default 0 value)))), (set_journal j' c, s))
    end.

(** ** Pranks *)
Definition active_unused (p : PrankCheatState) : bool :=
  match active p with Some a => negb (used a) | None => false end.
Definition start_unused (p : PrankCheatState) : bool :=
  match start p with Some a => negb (start_used a) | None => false end.

Definition prank_with (a : Address) (origin : option Address) (s : ExecutionState) : CallOutcome * ExecutionState :=
  let p := prank s in
  if active_unused p then (revert "prank(address) cannot be called when a prank is already active", s)
  else if bool_decide (is_Some (start p)) then
    (revert "prank(address) cannot be called when a startPrank is already active", s)
  else (success, set_prank (mkPrankCheat (Some (mkPrank a origin true 0 0 false)) (start p) (original_origin p)) s).

Definition start_prank_with (a : Address) (origin : option Address) (s : ExecutionState)
    : CallOutcome * ExecutionState :=
  let p := prank s in
  if active_unused p then (revert "startPrank(address) cannot be called when a prank is already active", s)
  else if start_unused p then
    (revert "startPrank(address) cannot be called when a startPrank is already active", s)
  else (success, set_prank (mkPrankCheat (active p) (Some (mkStart a origin 0 0 false)) (original_origin p)) s).

Definition stop_prank (s : ExecutionState) : CallOutcome * ExecutionState :=
  (success, set_prank (mkPrankCheat None None (original_origin (prank s))) s).

Definition on_state (f : ExecutionState -> CallOutcome * ExecutionState) : Call :=
  fun '(c, s) => let '(o, s') := f s in (Ok (Some o), (c, s')).

(** ** Labels *)
Definition label (a : Address) (name : string) (s : ExecutionState) : CallOutcome * ExecutionState :=
  (success, set_labels (<[a := name]> (labels s)) s).
Definition string_outcome (s : string) : CallOutcome := success_bytes (abi_encode (VString s)).
Definition get_label (a : Address) (s : ExecutionState) : CallOutcome * ExecutionState :=
  (string_outcome (default "" (labels s !! a)), s).

(** ** Conversions *)
Definition to_string_address (a : Address) : option CallOutcome := Some (string_outcome (address_to_string a)).
Definition to_string_bool (b : bool) : option CallOutcome :=
  Some (string_outcome (if b then "true" else "false")).
Definition to_string_uint (v : U256) : option CallOutcome := Some (string_outcome (u256_to_string v)).
Definition to_string_int (v : Z) : option CallOutcome := Some (string_outcome (i256_to_string v)).
Definition to_string_bytes (bs : Bytes) : option CallOutcome :=
  Some (string_outcome ("0x" +:+ hex_encode bs)).

Definition parse_uint (s : string) : option CallOutcome := u ← ok (u256_parse s); Some (success_u256 u).
Definition parse_int (s : string) : option CallOutcome :=
  v ← i256_parse s; Some (success_u256 (wrap 256 v)).

(** [eq_ignore_ascii_case] *)
Definition lower_char (a : ascii) : ascii :=
  let n := Z.of_nat (nat_of_ascii a) in
  if (65 <=? n) && (n <=? 90) then ascii_of_nat (Z.to_nat (n + 32)) else a.
Fixpoint lower (s : string) : string :=
  match s with EmptyString => "" | String a s' => String (lower_char a) (lower s') end.

Definition parse_bool (s : string) : option CallOutcome :=
  let t := trim s in
  if String.eqb t "1" then Some (success_bool true)
  else if String.eqb t "0" then Some (success_bool false)
  else if String.eqb (lower t) "true" then Some (success_bool true)
  else if String.eqb (lower t) "false" then Some (success_bool false)
  else Some (revert "parseBool: invalid bool string").

Definition parse_address (s : string) : option CallOutcome := a ← address_parse s; Some (success_address a).

Definition strip_0x (s : string) : string := default s (strip_prefix "0x" s).
Definition parse_bytes (s : string) : option CallOutcome :=
  bs ← ok (hex_decode (strip_0x s)); Some (success_bytes (abi_encode (VBytes bs))).
Definition parse_bytes32 (s : string) : option CallOutcome :=
  bs ← ok (hex_decode (strip_0x s));
  Some (if (length bs =? 32)%nat then success_bytes bs else revert "parseBytes32: invalid length").

(** ** Keys, commands and the environment *)
Definition check_key (sk : U256) : option CallOutcome :=
  if sk =? 0 then Some (revert "private key cannot be 0")
  else if curve_order <=? sk then
    Some (revert ("private key must be less than the secp256k1 curve order (" +:+ u256_to_string curve_order +:+ ")"))
  else None.

Definition addr (sk : U256) : option CallOutcome :=
  match check_key sk with
  | Some o => Some o
  | None =>
      pk ← public_key sk;
      if (length pk =? 65)%nat then
        Some (success_address (be_number (drop 12 (keccak256_bytes (drop 1 pk)))))
      else Some (revert "invalid public key length")
  end.

Definition sign (sk : U256) (digest : Bytes) : option CallOutcome :=
  match check_key sk with
  | Some o => Some o
  | None =>
      '(odd, r, s) ← sign_prehash_recoverable sk digest;
      if (length r =? 32)%nat && (length s =? 32)%nat
      then Some (success_sign (if odd : bool then 28 else 27) r s) else None
  end.

Definition run_ffi (args : list string) (root : string) : Bytes + string :=
  match run_command args root with
  | inr e => inr ("ffi failed: " +:+ e)
  | inl (ok, stdout, stderr) =>
      if ok : bool then
        match hex_decode (strip_0x (trim stdout)) with
        | Ok bs => inl bs
        | Err e | Panic e => inr ("ffi output is not valid hex: " +:+ e)
        end
      else inr ("ffi command failed: " +:+ stderr)
  end.

Definition ffi_call (args : list string) (s : ExecutionState) : option CallOutcome :=
  Some (if negb (ffi_enabled s) then revert "ffi disabled: use --ffi to enable"
        else if bool_decide (args = []) then revert "ffi: empty command"
        else match run_ffi args (project_root s) with
             | inl bs => success_bytes (abi_encode (VBytes bs))
             | inr e => revert e
             end).

Definition env_error (key reason : string) : CallOutcome :=
  revert ("Failed to get environment variable " +:+ key +:+ " as type string: environment variable " +:+ reason).

Definition get_env (key : string) : option CallOutcome :=
  Some match env_var key with
       | EnvFound v => string_outcome v
       | EnvNotPresent => env_error key "not found"
       | EnvNotUnicode => env_error key "was not valid unicode"
       end.

Definition get_env_or_default (key default_value : string) : option CallOutcome :=
  Some match env_var key with
       | EnvFound v => string_outcome v
       | EnvNotPresent => string_outcome default_value
       | EnvNotUnicode => env_error key "was not valid unicode"
       end.
End Calls.

(** ** The interface and its dispatch *)
Inductive VmCalls : Type :=
| Vm_warp (newTimestamp : U256)
| Vm_roll (newNumber : U256)
| Vm_fee (newBasefee : U256)
| Vm_coinbase (newCoinbase : Address)
| Vm_prevrandao (newPrevrandao : U256)
| Vm_chainId (newChainId : U256)
| Vm_deal (account : Address) (value : U256)
| Vm_etch (account : Address) (code : Bytes)
| Vm_setNonce (account : Address) (nonce : Z)
| Vm_getNonce (account : Address)
| Vm_store (account : Address) (slot value : U256)
| Vm_load (account : Address) (slot : U256)
| Vm_prank_0 (a : Address)
| Vm_prank_1 (a origin : Address)
| Vm_startPrank_0 (a : Address)
| Vm_startPrank_1 (a origin : Address)
| Vm_stopPrank
| Vm_label (account : Address) (name : string)
| Vm_getLabel (account : Address)
| Vm_toString_0 (a : Address)
| Vm_toString_1 (b : bool)
| Vm_toString_2 (v : U256)
| Vm_toString_3 (v : Z)
| Vm_toString_4 (b : Bytes)
| Vm_toString_5 (b : Bytes)
| Vm_parseUint (s : string)
| Vm_parseInt (s : string)
| Vm_parseBool (s : string)
| Vm_parseAddress (s : string)
| Vm_parseBytes (s : string)
| Vm_parseBytes32 (s : string)
| Vm_addr (sk : U256)
| Vm_sign (sk : U256) (digest : Bytes)
| Vm_ffi (args : list string)
| Vm_getEnv_0 (key : string)
| Vm_getEnv_1 (key defaultValue : string)
| Vm_fork_0 (url : string) (blockNumber : U256)
| Vm_fork_1 (url : string) (blockNumber : U256) (retries backoffMs timeoutMs rateLimit : Z).

Section Dispatch.
Context {J : Type} `{JournalAccounts J} `{ForkJournal J}.
Context `{AbiValues} `{Text} `{CheatText} `{Secp256k1} `{Host}.

Definition dispatch (call : VmCalls) : M (Context J * ExecutionState) (option CallOutcome) :=
  match call with
  | Vm_warp v => warp v
  | Vm_roll v => roll v
  | Vm_fee v => fee v
  | Vm_coinbase a => coinbase a
  | Vm_prevrandao w => prevrandao_call w
  | Vm_chainId v => chainId v
  | Vm_deal a v => deal a v
  | Vm_etch a code => etch a code
  | Vm_setNonce a n => setNonce a n
  | Vm_getNonce a => getNonce a
  | Vm_store a k v => store a k v
  | Vm_load a k => load a k
  | Vm_prank_0 a => on_state (prank_with a None)
  | Vm_prank_1 a o => on_state (prank_with a (Some o))
  | Vm_startPrank_0 a => on_state (start_prank_with a None)
  | Vm_startPrank_1 a o => on_state (start_prank_with a (Some o))
  | Vm_stopPrank => on_state stop_prank
  | Vm_label a n => on_state (label a n)
  | Vm_getLabel a => on_state (get_label a)
  | Vm_toString_0 a => answer (to_string_address a)
  | Vm_toString_1 b => answer (to_string_bool b)
  | Vm_toString_2 v => answer (to_string_uint v)
  | Vm_toString_3 v => answer (to_string_int v)
  | Vm_toString_4 b => answer (to_string_bytes b)
  | Vm_toString_5 b => answer (to_string_bytes b)
  | Vm_parseUint s => answer (parse_uint s)
  | Vm_parseInt s => answer (parse_int s)
  | Vm_parseBool s => answer (parse_bool s)
  | Vm_parseAddress s => answer (parse_address s)
  | Vm_parseBytes s => answer (parse_bytes s)
  | Vm_parseBytes32 s => answer (parse_bytes32 s)
  | Vm_addr sk => answer (addr sk)
  | Vm_sign sk d => answer (sign sk d)
  | Vm_ffi args => fun cs => answer (ffi_call args cs.2) cs
  | Vm_getEnv_0 k => answer (get_env k)
  | Vm_getEnv_1 k d => answer (get_env_or_default k d)
  | Vm_fork_0 u b => fork u b
  | Vm_fork_1 u b r bo t rl => fork_with_options u b (mkForkOptions (Some r) (Some bo) (Some t) (Some rl))
  end.
End Dispatch.

(** ** Laws of the parameters *)

(** The journal by what can be read of it: [account_of] and [slot_of] are the
    current accounts and slots of what is loaded, [db_slot] the slots of the
    database below. *)
Record AccountView : Type := mkView { av_balance : U256; av_nonce : Z; av_code : Bytes }.
Definition with_balance (v : U256) (x : AccountView) : AccountView := mkView v (av_nonce x) (av_code x).
Definition with_nonce (n : Z) (x : AccountView) : AccountView := mkView (av_balance x) n (av_code x).
Definition with_code (b : Bytes) (x : AccountView) : AccountView := mkView (av_balance x) (av_nonce x) b.

Class JournalView (J : Type) : Type := {
  account_of : J -> Address -> option AccountView;
  slot_of : J -> Address -> U256 -> option U256;
  db_slot : J -> Address -> U256 -> U256;
}.

Section View.
Context {J : Type} `{JournalView J}.

Definition same_accounts (j j' : J) : Prop := forall b, account_of j' b = account_of j b.
Definition same_slots (j j' : J) : Prop := forall b k, slot_of j' b k = slot_of j b k.

(** An account is changed and nothing else. *)
Definition updates (a : Address) (f : AccountView -> AccountView) (j j' : J) : Prop :=
  account_of j' a = f <$> account_of j a /\ (forall b, b <> a -> account_of j' b = account_of j b) /\ same_slots j j'.

(** What is loaded stays as it is, and more may be. *)
Definition grows (j j' : J) : Prop :=
  (forall b x, account_of j b = Some x -> account_of j' b = Some x) /\
  (forall b k v, slot_of j b k = Some v -> slot_of j' b k = Some v).
End View.

Class JournalAccountsLaws (J : Type) `{JournalAccounts J} `{JournalView J} : Prop := {
  load_account_reads : forall a j n j', load_account a j = (Some n, j') -> av_nonce <$> account_of j' a = Some n;
  load_account_again : forall a j x, account_of j a = Some x -> load_account a j = (Some (av_nonce x), j);
  load_account_grows : forall a j, grows j (load_account a j).2;
  load_precompiles : forall a j, precompile_addresses (load_account a j).2 = precompile_addresses j;
  set_balance_updates : forall a v j, updates a (with_balance v) j (set_balance a v j);
  set_nonce_updates : forall a n j, updates a (with_nonce n) j (set_nonce a n j);
  set_code_updates : forall a b j, updates a (with_code b) j (set_code a b j);
  sstore_stores : forall a k v w j, is_Some (account_of j a) -> (sstore a k v (insert_account_storage a k w j)).1 = true;
  sstore_reads : forall a k v j j', sstore a k v j = (true, j') ->
    slot_of j' a k = Some v /\ (forall b l, (b, l) <> (a, k) -> slot_of j' b l = slot_of j b l) /\ same_accounts j j' /\
    precompile_addresses j' = precompile_addresses j /\ forall b l, db_slot j' b l = db_slot j b l;
  sload_reads : forall a k v j, slot_of j a k = Some v -> (sload a k j).1 = Some v;
  insert_reads : forall a k v j, let j' := insert_account_storage a k v j in
    db_slot j' a k = v /\ same_accounts j j' /\ same_slots j j' /\ precompile_addresses j' = precompile_addresses j;
}.

Class CheatTextLaws `{CheatText} : Type := {
  address_parse_to_string : forall a, 0 <= a <= address_max -> address_parse (address_to_string a) = Some a;
  i256_parse_to_string : forall v, - 2 ^ 255 <= v < 2 ^ 255 -> i256_parse (i256_to_string v) = Some v;
}.

(** ** Properties *)
Section Properties.
Context {J : Type} `{!JournalAccounts J} `{ForkJournal J} `{!JournalView J} `{!JournalAccountsLaws J}.
Context `{!AbiValues} `{!Text} `{!CheatText} `{!Secp256k1} `{!Host}.
Implicit Types (c : Context J) (s : ExecutionState).

(** From [c] to [c'] the account [a], as it was loaded, is changed by [f]; every
    other account and slot that was loaded is kept, and nothing else of the
    context is touched. *)
Definition account_changed (a : Address) (f : AccountView -> AccountView) (c c' : Context J) : Prop :=
  c' = set_journal (journal c') c /\
  (exists x, account_of (load_account a (journal c)).2 a = Some x /\ account_of (journal c') a = Some (f x)) /\
  (forall x, account_of (journal c) a = Some x -> account_of (journal c') a = Some (f x)) /\
  (forall b y, b <> a -> account_of (journal c) b = Some y -> account_of (journal c') b = Some y) /\
  (forall b k v, slot_of (journal c) b k = Some v -> slot_of (journal c') b k = Some v).

(** From [c] to [c'] the slot has the value [v]; every account and every other
    slot that was loaded is kept, and nothing else of the context is touched. *)
Definition slot_changed (a : Address) (k v : U256) (c c' : Context J) : Prop :=
  c' = set_journal (journal c') c /\ slot_of (journal c') a k = Some v /\
  (forall b y, account_of (journal c) b = Some y -> account_of (journal c') b = Some y) /\
  (forall b l w, (b, l) <> (a, k) -> slot_of (journal c) b l = Some w -> slot_of (journal c') b l = Some w).

Lemma load_loaded a n c j :
  load_account a (journal c) = (Some n, j) -> exists x, account_of j a = Some x /\ av_nonce x = n /\ load_account a j = (Some n, j).
Proof.
  intros Hl. pose proof (load_account_reads _ _ _ _ Hl) as Hx. destruct (account_of j a) as [x|] eqn:Ex; [|done].
  injection Hx as <-. exists x. split; [done|]. split; [done|]. by apply load_account_again.
Qed.

Lemma updates_changed a f n c j j' :
  load_account a (journal c) = (Some n, j) -> updates a f j j' -> account_changed a f c (set_journal j' c).
Proof.
  intros Hl (Ha & Hb & Hs). destruct (load_loaded a n c j Hl) as (x & Hx & _ & _).
  destruct (load_account_grows a (journal c)) as [Hga Hgs]. rewrite Hl in Hga, Hgs. cbn [snd] in Hga, Hgs.
  unfold account_changed. rewrite Hl. cbn [journal set_journal snd]. split; [by destruct c|].
  split; [exists x; by rewrite Ha, Hx|]. split; [intros y Hy; by rewrite Ha, (Hga a y Hy)|].
  split; [intros b y Hne Hy; rewrite Hb by done; by apply Hga|intros b k v Hv; rewrite Hs; by apply Hgs].
Qed.

Lemma nonce_after a n j j' :
  updates a (with_nonce n) j j' -> is_Some (account_of j a) -> load_account a j' = (Some n, j').
Proof. intros (Ha & _ & _) [x Hx]. rewrite Hx in Ha. exact (load_account_again a j' _ Ha). Qed.

(** What storing to a loaded account leaves. *)
Lemma store_stored a k v n c j :
  load_account a (journal c) = (Some n, j) ->
  exists j', sstore a k v (insert_account_storage a k 0 j) = (true, j') /\ slot_changed a k v c (set_journal j' c) /\
    db_slot j' a k = 0 /\ precompile_addresses j' = precompile_addresses (journal c) /\ load_account a j' = (Some n, j').
Proof.
  intros Hl. destruct (load_loaded a n c j Hl) as (x & Hx & <- & _).
  pose proof (sstore_stores a k v 0 j ltac:(by eexists)) as Hst.
  destruct (sstore a k v (insert_account_storage a k 0 j)) as [stored j'] eqn:Es. cbn [fst] in Hst. subst stored.
  exists j'. split; [done|]. destruct (sstore_reads _ _ _ _ _ Es) as (Hslot & Hothers & Hacc & Hpre & Hdb).
  destruct (insert_reads a k 0 j) as (Hi & Hia & His & Hip).
  destruct (load_account_grows a (journal c)) as [Hga Hgs]. rewrite Hl in Hga, Hgs. cbn [snd] in Hga, Hgs.
  pose proof (load_precompiles a (journal c)) as Hlp. rewrite Hl in Hlp. cbn [snd] in Hlp.
  split; [|split; [by rewrite Hdb|split; [by rewrite Hpre, Hip, Hlp|]]].
  - split; [by destruct c|]. cbn [journal set_journal]. split; [done|]. split.
    + intros b y Hy. rewrite Hacc, Hia. by apply Hga.
    + intros b l w Hne Hw. rewrite Hothers, His by done. by apply Hgs.
  - apply load_account_again. by rewrite Hacc, Hia.
Qed.

Definition is_precompile (a : Address) (c : Context J) : bool := bool_decide (a ∈ precompile_addresses (journal c)).

(** C17: On an account that can be loaded, [vm.deal] and [vm.etch] set exactly
    its balance and its code; [vm.setNonce] sets exactly its nonce, which
    [vm.getNonce] then reads, unless the new nonce is below the current one,
    and then it reverts and changes nothing; [vm.store] sets exactly the slot,
    which [vm.load] then reads, while until the journal is committed the
    database below holds zero for the slot, whatever it held before, which is
    what a frame that reverts leaves; [vm.load] gives the current value of a
    loaded slot. [vm.etch], [vm.store] and [vm.load] on a precompile revert and
    change nothing. *)
Theorem account_cheats_read_back a v code b n k w c s :
  is_Some (load_account a (journal c)).1 -> bytecode_new_raw_checked code = Some b ->
  let current := default 0 (load_account a (journal c)).1 in
  (exists c', dispatch (Vm_deal a v) (c, s) = (Ok (Some success), (c', s)) /\ account_changed a (with_balance v) c c') /\
  (if is_precompile a c then exists r, dispatch (Vm_etch a code) (c, s) = (Ok (Some r), (c, s)) /\ result r = Revert
   else exists c', dispatch (Vm_etch a code) (c, s) = (Ok (Some success), (c', s)) /\ account_changed a (with_code b) c c') /\
  (if n <? current then
     exists r, dispatch (Vm_setNonce a n) (c, s) = (Ok (Some r), (set_journal (load_account a (journal c)).2 c, s)) /\ result r = Revert
   else exists c', dispatch (Vm_setNonce a n) (c, s) = (Ok (Some success), (c', s)) /\ account_changed a (with_nonce n) c c' /\
     dispatch (Vm_getNonce a) (c', s) = (Ok (Some (success_u256 n)), (c', s))) /\
  (if is_precompile a c then exists r, dispatch (Vm_store a k w) (c, s) = (Ok (Some r), (c, s)) /\ result r = Revert
   else exists c' cs2, dispatch (Vm_store a k w) (c, s) = (Ok (Some success), (c', s)) /\ slot_changed a k w c c' /\
     db_slot (journal c') a k = 0 /\ dispatch (Vm_load a k) (c', s) = (Ok (Some (success_bytes (be_bytes 32 w))), cs2)) /\
  (if is_precompile a c then exists r, dispatch (Vm_load a k) (c, s) = (Ok (Some r), (c, s)) /\ result r = Revert
   else forall x, slot_of (journal c) a k = Some x ->
     exists cs2, dispatch (Vm_load a k) (c, s) = (Ok (Some (success_bytes (be_bytes 32 x))), cs2)).
Proof.
  intros [m Hm] Hcode. destruct (load_account a (journal c)) as [n0 j] eqn:El. cbn [fst] in Hm. subst n0.
  destruct (load_loaded a m c j El) as (x & Hx & Hxm & Hagain). cbn [fst snd]. unfold is_precompile.
  cbn [dispatch]. split_and!.
  - exists (set_journal (set_balance a v j) c). split; [unfold deal, with_account; by rewrite El|].
    apply (updates_changed a _ m c j); [done|apply set_balance_updates].
  - unfold etch. case_bool_decide; [by eexists|]. exists (set_journal (set_code a b j) c).
    split; [unfold with_account; by rewrite El, Hcode|]. apply (updates_changed a _ m c j); [done|apply set_code_updates].
  - unfold setNonce, getNonce. rewrite El. change (default 0 (Some m)) with m. destruct (n <? m); [by eexists|].
    exists (set_journal (set_nonce a n j) c). unfold with_account. cbn [journal set_journal].
    pose proof (set_nonce_updates a n j) as Hu. rewrite Hagain, (nonce_after a n j) by (done || by eexists).
    split; [by destruct c|]. split; [by apply (updates_changed a _ m c j)|done].
  - unfold store, load. case_bool_decide as Hp; [by eexists|]. destruct (store_stored a k w m c j El) as (j' & Hst & Hch & Hdb & Hpre & Hl).
    exists (set_journal j' c). unfold with_account. rewrite El, Hst. cbn [journal set_journal].
    rewrite Hpre, bool_decide_false, Hl by done. pose proof (sload_reads a k w j' (proj1 (proj2 Hch))) as Hsl.
    destruct (sload a k j') as [y j2]. cbn [fst] in Hsl. subst y. by eexists.
  - unfold load. case_bool_decide; [by eexists|]. intros y Hy. rewrite El.
    destruct (load_account_grows a (journal c)) as [_ Hgs]. rewrite El in Hgs. pose proof (sload_reads a k y j (Hgs a k y Hy)) as Hsl.
    destruct (sload a k j) as [z j2]. cbn [fst] in Hsl. subst z. by eexists.
Qed.

(** A text that is not a number is no revert: the handler gives no outcome, and
    the call goes on to the code of the cheatcode address. *)
Lemma unparsed_falls_through t e cs : u256_parse t = Err e -> dispatch (Vm_parseUint t) cs = (Ok None, cs).
Proof. intros He. cbn. unfold answer, parse_uint. by rewrite He. Qed.
End Properties.

Section Conversions.
Context `{AbiValuesLaws} `{TextLaws} `{CheatTextLaws}.

Lemma parse_bytes_prefixed bs : Forall byte_ok bs -> ok (hex_decode (strip_0x ("0x" +:+ hex_encode bs))) = Some bs.
Proof. intros Hb. unfold strip_0x. rewrite strip_prefix_app. simpl. by rewrite hex_decode_encode. Qed.

(** What a Solidity caller reads back from the text a conversion returned. *)
Definition text_of (o : option CallOutcome) (t : string) : Prop :=
  exists out, o = Some out /\ result out = Return /\ abi_decode TString (output out) = Ok (VString t).
Definition word_of (o : option CallOutcome) (w : Z) : Prop :=
  exists out, o = Some out /\ result out = Return /\ output_word out = w.

Lemma string_outcome_text t : text_of (Some (string_outcome t)) t.
Proof. eexists. split; [done|]. split; [done|]. apply abi_decode_string. Qed.

(** Parsing undoes printing: for every unsigned and signed integer, flag,
    address, word and byte string, the [parse] cheatcode applied to the text
    that [toString] returned gives the value back, a signed integer as its
    two's complement word. *)
Theorem conversions_roundtrip u i b a w bs :
  in_u256 u -> - 2 ^ 255 <= i < 2 ^ 255 -> 0 <= a <= address_max ->
  Forall byte_ok w -> length w = 32%nat -> Forall byte_ok bs ->
  (exists t, text_of (to_string_uint u) t /\ word_of (parse_uint t) u) /\
  (exists t, text_of (to_string_int i) t /\ word_of (parse_int t) (wrap 256 i)) /\
  (exists t, text_of (to_string_bool b) t /\ word_of (parse_bool t) (if b then 1 else 0)) /\
  (exists t, text_of (to_string_address a) t /\ word_of (parse_address t) a) /\
  (exists t, text_of (to_string_bytes w) t /\ word_of (parse_bytes32 t) (be_number w)) /\
  (exists t, text_of (to_string_bytes bs) t /\
     exists out, parse_bytes t = Some out /\ abi_decode TBytes (output out) = Ok (VBytes bs)).
Proof.
  intros Hu Hi Ha Hw Hlw Hbs. repeat split; eexists; (split; [apply string_outcome_text|]).
  - unfold parse_uint. rewrite u256_parse_to_string by done. eexists. split; [done|]. split; [done|].
    by apply success_u256_word.
  - unfold parse_int. rewrite i256_parse_to_string by done. eexists. split; [done|]. split; [done|].
    apply success_u256_word. pose proof (wrap_range 256 i). unfold in_u256, u256_max. lia.
  - destruct b; eexists; (split; [reflexivity|]); (split; [done|]); apply success_bool_word.
  - unfold parse_address. rewrite address_parse_to_string by done. eexists. split; [done|]. split; [done|].
    by apply success_address_word.
  - unfold parse_bytes32. rewrite parse_bytes_prefixed by done. cbn [mbind option_bind]. rewrite Hlw. cbn [Nat.eqb].
    eexists. split; [done|]. split; [done|]. unfold output_word. cbn [output success_bytes outcome_of].
    by rewrite take_ge by lia.
  - unfold parse_bytes. rewrite parse_bytes_prefixed by done. eexists. split; [done|]. by apply abi_decode_bytes.
Qed.
End Conversions.

(** ** Witnesses: a journal that holds one account and one slot *)
Module ToyAccounts.
Import Toy.

(** Texts as the encoding of their values. *)
#[export] Instance abi_lists : Abi := {
  signature f := fn_name f; selector _ := [1; 2; 3; 4]; resolve _ := Ok (TUint 256);
  abi_encode_params _ := []; abi_decode_input _ _ := Ok [];
  abi_decode t bs :=
    match t with
    | TString => Ok (VString (String.string_of_list_ascii (map (fun b => ascii_of_nat (Z.to_nat b)) bs)))
    | _ => Ok (VBytes bs)
    end;
}.
#[export] Instance abi_value_lists : AbiValues := { abi_encode v :=
  match v with
  | VString s => map (fun a => Z.of_nat (nat_of_ascii a)) (String.list_ascii_of_string s)
  | VBytes bs => bs
  | _ => []
  end }.
#[export] Instance abi_value_laws : AbiValuesLaws.
Proof.
  split; [|done]. intros s. cbn. do 2 f_equal. rewrite map_map.
  rewrite (map_ext _ (fun a => a)) by (intros x; rewrite Nat2Z.id; apply ascii_nat_embedding).
  rewrite map_id. apply String.string_of_list_ascii_of_string.
Defined.

#[export] Instance cheat_text : CheatText := {
  address_to_string a := u256_to_string a; address_parse s := ok (u256_parse s);
  i256_to_string v := u256_to_string (v + 2 ^ 255); i256_parse s := v ← ok (u256_parse s); Some (v - 2 ^ 255) }.
#[export] Instance cheat_text_laws : CheatTextLaws.
Proof.
  split.
  - intros a Ha. unfold address_parse, address_to_string, cheat_text. rewrite u256_parse_to_string; [done|].
    unfold in_u256, u256_max. unfold address_max in Ha. lia.
  - intros v Hv. unfold i256_parse, i256_to_string, cheat_text. rewrite u256_parse_to_string.
    + simpl. f_equal. lia.
    + unfold in_u256, u256_max. lia.
Defined.

(** The accounts and slots loaded, and the slots of the database. *)
Definition J : Type := gmap Address AccountView * gmap (Address * U256) U256 * gmap (Address * U256) U256.
Definition no_account : AccountView := mkView 0 0 [].
#[export] Instance maps : JournalAccounts J := {
  precompile_addresses _ := {[1]};
  load_account a j := let x := default no_account (j.1.1 !! a) in (Some (av_nonce x), (<[a := x]> j.1.1, j.1.2, j.2));
  set_balance a v j := (alter (with_balance v) a j.1.1, j.1.2, j.2);
  set_nonce a n j := (alter (with_nonce n) a j.1.1, j.1.2, j.2);
  bytecode_new_raw_checked b := Some b;
  set_code a b j := (alter (with_code b) a j.1.1, j.1.2, j.2);
  sload a k j := (Some (default (default 0 (j.2 !! (a, k))) (j.1.2 !! (a, k))), j);
  sstore a k v j := (bool_decide (is_Some (j.1.1 !! a)), (j.1.1, <[(a, k) := v]> j.1.2, j.2));
  insert_account_storage a k v j := (j.1.1, j.1.2, <[(a, k) := v]> j.2);
}.
#[export] Instance maps_view : JournalView J := {
  account_of j a := j.1.1 !! a; slot_of j a k := j.1.2 !! (a, k); db_slot j a k := default 0 (j.2 !! (a, k)) }.

Lemma alter_updates a f (j : J) : updates a f j (alter f a j.1.1, j.1.2, j.2).
Proof. split; [apply lookup_alter_eq|]. split; [intros b Hb; by apply lookup_alter_ne|done]. Qed.

#[export] Instance maps_laws : JournalAccountsLaws J.
Proof.
  split.
  - intros a j n j' [= <- <-]. simpl. by rewrite lookup_insert_eq.
  - intros a [[n s] d] x Hx. simpl in *. rewrite Hx. simpl. by rewrite insert_id.
  - intros a j. split; [|done]. intros b x Hx. simpl in *. destruct (decide (b = a)) as [->|Hne].
    + by rewrite lookup_insert_eq, Hx.
    + by rewrite lookup_insert_ne.
  - done.
  - intros a v j. apply alter_updates.
  - intros a n j. apply alter_updates.
  - intros a b j. apply alter_updates.
  - intros a k v w j Hj. by apply bool_decide_eq_true.
  - intros a k v j j' [= _ <-]. simpl. rewrite lookup_insert_eq. split_and!; [done| |done..].
    intros b l Hne. by rewrite lookup_insert_ne.
  - intros a k v j Hs. exact (f_equal (fun o => Some (default (default 0 (j.2 !! (a, k))) o)) Hs).
  - intros a k v j. simpl. by rewrite lookup_insert_eq.
Defined.

#[export] Instance no_fork : ForkJournal J := {
  is_active_fork _ _ _ := true;
  db_fork _ _ _ _ j := (Database.DErr (Database.ForkSelect "none"), j);
  commit_remote_before_fork_switch _ j := j;
}.

#[export] Instance no_curve : Secp256k1 := {
  curve_order := 7; public_key _ := None; sign_prehash_recoverable _ _ := None; keccak256_bytes b := b }.
#[export] Instance no_host : Host := { env_var _ := EnvNotPresent; run_command _ _ := inr "none" }.

(** The database holds 5 in slot 2 of the account 44. *)
Definition context0 : Context J :=
  mkContext (mkBlockEnv 1 2 3 4 None 5 6 None) 1000 1 Specs.LONDON ({[44 := mkView 10 7 []]}, ∅, {[(44, 2) := 5]}).
End ToyAccounts.
Import Toy ToyAccounts.

Lemma account_cheats_read_back_witness :
  let s := state_default 1 in
  db_slot (journal context0) 44 2 = 5 /\
  (exists c', dispatch (Vm_deal 44 20) (context0, s) = (Ok (Some success), (c', s)) /\
    account_changed 44 (with_balance 20) context0 c') /\
  (exists c' cs2, dispatch (Vm_store 44 2 9) (context0, s) = (Ok (Some success), (c', s)) /\ slot_changed 44 2 9 context0 c' /\
    db_slot (journal c') 44 2 = 0 /\ dispatch (Vm_load 44 2) (c', s) = (Ok (Some (success_bytes (be_bytes 32 9))), cs2)).
Proof.
  intros s. split; [reflexivity|].
  destruct (account_cheats_read_back 44 20 [1] [1] 9 2 9 context0 s) as (Hdeal & _ & _ & Hstore & _).
  - by eexists.
  - reflexivity.
  - split; [exact Hdeal|exact Hstore].
Defined.

Lemma conversions_roundtrip_witness :
  exists t, text_of (to_string_uint 5) t /\ word_of (parse_uint t) 5.
Proof.
  destruct (conversions_roundtrip 5 (-3) true 44 (replicate 32 1) [1; 2]) as [Hu _];
    [unfold in_u256, u256_max; lia|lia|unfold address_max; lia|apply Forall_replicate; unfold byte_ok; lia|reflexivity
    |repeat constructor; unfold byte_ok; lia|].
  exact Hu.
Defined.
