(* ===== verification/CheatInspector.v ===== *)
(** * CheatInspector: the inspector that intercepts cheatcodes

    Models [evm/cheatcode/inspector.rs]: the hooks of the interpreter around
    every frame, which count the depth, apply pranks to frames, dispatch calls
    to the cheatcode address and end pranks. The ABI decoding of a call is a
    parameter. The hooks of a transaction follow its tree of frames. *)
From S2P Require Import Prelude.
From S2P Require Import Env.
From S2P Require Import ForkDB.
From S2P Require Import Database.
From S2P Require Import CheatState.
From S2P Require Import CheatFork.
From S2P Require Import CheatCalls.

(** [Vm::VmCalls::abi_decode] *)
Class VmAbi : Type := { vm_abi_decode : Bytes -> option VmCalls }.

(** What the hooks read and change of the inputs of a frame. *)
Record CallInputs : Type := mkCallInputs {
  input : Bytes;
  target_address : Address;
  call_caller : Address;
  return_memory_offset : Z * Z;
  gas_limit : Z;
}.
Definition set_call_caller (a : Address) (i : CallInputs) : CallInputs :=
  mkCallInputs (input i) (target_address i) a (return_memory_offset i) (gas_limit i).

(** [shared_labels] is the shared map, when there is one; [has_registry]
    whether the inspector holds the registry of its state. *)
Record Inspector : Type := mkInspector {
  state : ExecutionState;
  shared_labels : option (gmap Address string);
  depth : Z;
  has_registry : bool;
}.

Definition inspector_new (config : CheatcodeConfig) : Inspector := mkInspector (from_config config) None 0 false.
Definition from_state (s : ExecutionState) : Inspector := mkInspector s None 0 true.
Definition inspector_with_registry (r : SharedLocalAddressRegistry) (i : Inspector) : Inspector :=
  mkInspector (with_local_registry r (state i)) (shared_labels i) (depth i) true.

Definition set_state (s : ExecutionState) (i : Inspector) : Inspector :=
  mkInspector s (shared_labels i) (depth i) (has_registry i).
Definition set_depth_to (d : Z) (i : Inspector) : Inspector :=
  mkInspector (state i) (shared_labels i) d (has_registry i).

(** Updates of the prank state. *)
Definition set_pranks (p : PrankCheatState) (i : Inspector) : Inspector := set_state (set_prank p (state i)) i.
Definition pranks (i : Inspector) : PrankCheatState := prank (state i).

Definition mark_active (p : PrankState) : PrankState :=
  mkPrank (caller p) (origin p) (single_call p) (set_depth p) (prank_caller p) true.
Definition mark_start (p : StartPrankState) : StartPrankState :=
  mkStart (start_caller p) (start_origin p) (start_set_depth p) (start_prank_caller p) true.

(** The first cheatcode call after a prank was set fills in who set it and at
    which depth. *)
Definition fill_active (who : Address) (d : Z) (p : PrankState) : PrankState :=
  mkPrank (caller p) (origin p) (single_call p) (if set_depth p =? 0 then d else set_depth p)
    (if prank_caller p =? 0 then who else prank_caller p) (used p).
Definition fill_start (who : Address) (d : Z) (p : StartPrankState) : StartPrankState :=
  mkStart (start_caller p) (start_origin p) (if start_set_depth p =? 0 then d else start_set_depth p)
    (if start_prank_caller p =? 0 then who else start_prank_caller p) (start_used p).

Section Hooks.
Context {J : Type} `{JournalAccounts J} `{ForkJournal J}.
Context `{AbiValues} `{Text} `{CheatText} `{Secp256k1} `{Host} `{VmAbi}.

#[local] Abbreviation St := (Context J * Inspector)%type.

(** ** [tx.origin] *)
Definition patch_origin (new_origin : Address) (st : St) : St :=
  let '(c, i) := st in
  let p := pranks i in
  (set_tx_caller new_origin c,
   match original_origin p with
   | None => set_pranks (mkPrankCheat (active p) (start p) (Some (tx_caller c))) i
   | Some _ => i
   end).

Definition maybe_restore_origin (st : St) : St :=
  let '(c, i) := st in
  let p := pranks i in
  if bool_decide (is_Some (start p)) || bool_decide (is_Some (active p)) then st
  else
    match original_origin p with
    | Some orig => (set_tx_caller orig c, set_pranks (mkPrankCheat (active p) (start p) None) i)
    | None => st
    end.

(** Errors of the load are ignored. *)
Definition load_pranked_caller (a : Address) (c : Context J) : Context J :=
  set_journal (load_account a (journal c)).2 c.

(** ** Pranks on frames *)

(** The start prank and the prank that apply to a frame of a caller; [vm] is
    whether the frame calls the cheatcode address. *)
Definition start_info (who : Address) (vm : bool) (i : Inspector) : option (Address * option Address) :=
  s ← start (pranks i);
  if (who =? start_prank_caller s) && (start_set_depth s <? depth i) && negb vm
  then Some (start_caller s, start_origin s) else None.

Definition prank_info (who : Address) (vm : bool) (i : Inspector) : option (Address * option Address) :=
  p ← active (pranks i);
  if (who =? prank_caller p) && (set_depth p <? depth i) && negb vm && negb (used p)
  then Some (caller p, origin p) else None.

(** The caller of the frame and [tx.origin] after one info. *)
Definition apply_info (info : option (Address * option Address)) (who : Address) (st : St) : Address * St :=
  match info with
  | None => (who, st)
  | Some (a, o) =>
      let st := (load_pranked_caller a st.1, st.2) in
      (a, match o with Some o => patch_origin o st | None => st end)
  end.

Definition mark_used (s p : option (Address * option Address)) (i : Inspector) : Inspector :=
  let k := pranks i in
  let start' := if bool_decide (is_Some s) then mark_start <$> start k else start k in
  let active' := if bool_decide (is_Some p) then mark_active <$> active k else active k in
  set_pranks (mkPrankCheat active' start' (original_origin k)) i.

(** [apply_prank] and [apply_create_prank]: the caller the frame gets. *)
Definition apply_prank (who : Address) (vm : bool) (st : St) : Address * St :=
  let k := pranks st.2 in
  if negb (bool_decide (is_Some (start k))) && negb (bool_decide (is_Some (active k))) then (who, st)
  else
    let s := start_info who vm st.2 in
    let p := prank_info who vm st.2 in
    let '(who1, st1) := apply_info s who st in
    let '(who2, st2) := apply_info p who1 st1 in
    (who2, (st2.1, mark_used s p st2.2)).

Definition enter (st : St) : St := (st.1, set_depth_to (depth st.2 + 1) st.2).

Definition frame_start_call (i : CallInputs) (st : St) : CallInputs * St :=
  let '(who, st') := apply_prank (call_caller i) (target_address i =? VM_ADDRESS) (enter st) in
  (set_call_caller who i, st').
Definition frame_start_create (who : Address) (st : St) : Address * St := apply_prank who false (enter st).

(** ** Cheatcode calls *)
Definition is_addr (v : VmCalls) : bool := match v with Vm_addr _ => true | _ => false end.
Definition is_stop_prank (v : VmCalls) : bool := match v with Vm_stopPrank => true | _ => false end.

(** [vm.addr] marks the address it derived as local. *)
Definition mark_derived (v : VmCalls) (o : option CallOutcome) (i : Inspector) : Inspector :=
  match o with
  | Some o =>
      if is_addr v && bool_decide (result o = Return) && (32 <=? length (output o))%nat && has_registry i
      then set_state (with_local_registry (mark_local (be_number (take 20 (drop 12 (output o)))) (CheatState.local_registry (state i)))
             (state i)) i
      else i
  | None => i
  end.

Definition fill_pranks (who : Address) (i : Inspector) : Inspector :=
  let k := pranks i in
  let d := sat_sub (depth i) 1 in
  set_pranks (mkPrankCheat (fill_active who d <$> active k) (fill_start who d <$> start k) (original_origin k)) i.

Definition sync_labels (i : Inspector) : Inspector :=
  mkInspector (state i) (match shared_labels i with Some _ => Some (labels (state i)) | None => None end)
    (depth i) (has_registry i).

(** The outcome, when the call is intercepted. *)
Definition call (i : CallInputs) : M St (option CallOutcome) := fun st =>
  if negb (target_address i =? VM_ADDRESS) || (length (input i) <? 4)%nat then (Ok None, st)
  else
    match vm_abi_decode (input i) with
    | None => (Ok None, st)
    | Some v =>
        let '(c, insp) := st in
        match dispatch v (c, state insp) with
        | (Panic p, (c', s')) => (Panic p, (c', set_state s' insp))
        | (Err m, (c', s')) => (Err m, (c', set_state s' insp))
        | (Ok o, (c', s')) =>
            let o' := (fun o => mkOutcome (result o) (output o) (gas_limit i) (return_memory_offset i)) <$> o in
            let st1 := (c', fill_pranks (call_caller i) (mark_derived v o' (set_state s' insp))) in
            let st2 :=
              if is_stop_prank v && bool_decide (result <$> o' = Some Stop) then maybe_restore_origin st1 else st1 in
            (Ok o', (st2.1, sync_labels st2.2))
        end
    end.

(** [call_end] and [create_end]: a prank ends with the frame that set it. *)
Definition initiator_exited (i : Inspector) : bool :=
  match active (pranks i) with Some p => single_call p && (depth i =? set_depth p) | None => false end.
Definition end_prank (i : Inspector) : Inspector :=
  set_pranks (mkPrankCheat None (start (pranks i)) (original_origin (pranks i))) i.
Definition leave (i : Inspector) : Inspector := set_depth_to (sat_sub (depth i) 1) i.

Definition frame_end (st : St) : St :=
  if initiator_exited st.2 then maybe_restore_origin (st.1, leave (end_prank st.2))
  else (st.1, leave st.2).

(** ** The frames of a transaction

    A frame makes the calls and creations of its body in order; those to the
    cheatcode address that are intercepted have no body. What a frame of the
    program runs with - its caller and [tx.origin] - is recorded in order. *)
Inductive Frame : Type :=
| FCall (i : CallInputs) (body : list Frame)
| FCreate (who : Address) (body : list Frame).

Definition Seen : Type := list (Address * Address).

Fixpoint run_frame (f : Frame) : M St Seen := fun st =>
  let run_body := fix go (fs : list Frame) : M St Seen :=
    match fs with
    | [] => mret []
    | f :: fs' => seen ← run_frame f; rest ← go fs'; mret (seen ++ rest)
    end in
  match f with
  | FCall i body =>
      let '(i', st1) := frame_start_call i st in
      match call i' st1 with
      | (Ok (Some _), st2) => (Ok [], frame_end st2)
      | (Ok None, st2) =>
          match run_body body st2 with
          | (Ok seen, st3) => (Ok ((call_caller i', tx_caller st2.1) :: seen), frame_end st3)
          | (Err m, st3) => (Err m, st3)
          | (Panic p, st3) => (Panic p, st3)
          end
      | (Err m, st2) => (Err m, st2)
      | (Panic p, st2) => (Panic p, st2)
      end
  | FCreate who body =>
      let '(who', st1) := frame_start_create who st in
      match run_body body st1 with
      | (Ok seen, st3) => (Ok ((who', tx_caller st1.1) :: seen), frame_end st3)
      | (Err m, st3) => (Err m, st3)
      | (Panic p, st3) => (Panic p, st3)
      end
  end.

Fixpoint run_frames (fs : list Frame) : M St Seen :=
  match fs with
  | [] => mret []
  | f :: fs' => seen ← run_frame f; rest ← run_frames fs'; mret (seen ++ rest)
  end.
End Hooks.

(** ** What a cheatcode can change *)
Section Dispatch_facts.
Context {J : Type} `{JournalAccounts J} `{ForkJournal J}.
Context `{AbiValues} `{Text} `{CheatText} `{Secp256k1} `{Host}.
Implicit Types (c : Context J) (s : ExecutionState).

(** A cheatcode keeps [tx.origin], and all pranks unless it is about pranks. *)
Definition keeps (cs cs' : Context J * ExecutionState) : Prop :=
  tx_caller cs'.1 = tx_caller cs.1 /\ prank cs'.2 = prank cs.2.

Lemma with_account_keeps a f cs r cs' : with_account a f cs = (r, cs') -> keeps cs cs'.
Proof.
  destruct cs as [c s]. unfold with_account. destruct (load_account _ _) as [[n|] j]; [|by intros [= _ <-]].
  destruct (f n j) as [o j']. by intros [= _ <-].
Qed.

Lemma fork_keeps u b o cs r cs' : fork_with_options (J := J) u b o cs = (r, cs') -> keeps cs cs'.
Proof.
  unfold fork_with_options. case_bool_decide; [by intros [= _ <-]|]. destruct (_ <? _); [by intros [= _ <-]|].
  destruct cs as [c s]. destruct (db_fork _ _ _ _ _) as [[env|e|p] j']; by intros [= _ <-].
Qed.

Definition about_pranks (v : VmCalls) : bool :=
  match v with
  | Vm_prank_0 _ | Vm_prank_1 _ _ | Vm_startPrank_0 _ | Vm_startPrank_1 _ _ | Vm_stopPrank => true
  | _ => false
  end.

Lemma dispatch_keeps v cs r cs' :
  about_pranks v = false -> dispatch v cs = (r, cs') -> keeps cs cs'.
Proof.
  destruct cs as [c s]. destruct v; intros Hv Hd; try discriminate Hv; unfold dispatch in Hd;
    try (injection Hd as _ <-; done); try (by eapply with_account_keeps); try (by eapply fork_keeps).
  - unfold etch in Hd. case_bool_decide; [by injection Hd as _ <-|by eapply with_account_keeps].
  - unfold setNonce in Hd. destruct (load_account _ _) as [n j]. destruct (_ <? _); [by injection Hd as _ <-|].
    apply with_account_keeps in Hd. exact Hd.
  - unfold getNonce in Hd. destruct (load_account _ _) as [n j]. by injection Hd as _ <-.
  - unfold store in Hd. case_bool_decide; [by injection Hd as _ <-|by eapply with_account_keeps].
  - unfold load in Hd. case_bool_decide; [by injection Hd as _ <-|].
    destruct (load_account _ _) as [[n|] j]; [|by injection Hd as _ <-].
    destruct (sload _ _ _) as [v j']. by injection Hd as _ <-.
Qed.

(** A prank cheatcode keeps the context and the saved origin. It reverts and
    changes nothing, or registers what it says. *)
Lemma dispatch_pranks v c s r c' s' :
  about_pranks v = true -> dispatch v (c, s) = (r, (c', s')) ->
  c' = c /\ original_origin (prank s') = original_origin (prank s) /\
  exists o, r = Ok (Some o) /\
    ((result o = Revert /\ s' = s /\ is_stop_prank v = false) \/
     (result o = Stop /\ s' = set_prank (prank s') s /\
      if is_stop_prank v then active (prank s') = None /\ start (prank s') = None
      else is_Some (active (prank s')) \/ is_Some (start (prank s')))).
Proof.
  destruct v; try done; intros _; unfold dispatch, on_state, prank_with, start_prank_with, stop_prank;
    repeat case_match; intros Hd; simplify_eq; (split; [done|split; [done|]]); eexists; (split; [reflexivity|]);
    first [by left|right; split; [done|split; [done|]]; simpl; eauto].
Qed.
End Dispatch_facts.

(** ** Induction on frames *)
Section Frame_induction.
Context (P : Frame -> Prop).
Hypothesis HCall : forall i body, Forall P body -> P (FCall i body).
Hypothesis HCreate : forall who body, Forall P body -> P (FCreate who body).

Definition Frame_ind' : forall f, P f :=
  fix go f :=
    let all := fix all (l : list Frame) : Forall P l :=
      match l with [] => Forall_nil_2 P | f :: l' => Forall_cons_2 P f l' (go f) (all l') end in
    match f with
    | FCall i body => HCall i body (all body)
    | FCreate who body => HCreate who body (all body)
    end.
End Frame_induction.

Section Run_lemmas.
Context {J : Type} `{JournalAccounts J} `{ForkJournal J}.
Context `{AbiValues} `{Text} `{CheatText} `{Secp256k1} `{Host} `{VmAbi}.

#[local] Abbreviation St := (Context J * Inspector)%type.

Lemma run_frame_call_eq i body (st : St) :
  run_frame (FCall i body) st =
    let '(i', st1) := frame_start_call i st in
    match call i' st1 with
    | (Ok (Some _), st2) => (Ok [], frame_end st2)
    | (Ok None, st2) =>
        match run_frames body st2 with
        | (Ok seen, st3) => (Ok ((call_caller i', tx_caller st2.1) :: seen), frame_end st3)
        | (Err m, st3) => (Err m, st3)
        | (Panic p, st3) => (Panic p, st3)
        end
    | (Err m, st2) => (Err m, st2)
    | (Panic p, st2) => (Panic p, st2)
    end.
Proof. reflexivity. Qed.

Lemma run_frame_create_eq who body (st : St) :
  run_frame (FCreate who body) st =
    let '(who', st1) := frame_start_create who st in
    match run_frames body st1 with
    | (Ok seen, st3) => (Ok ((who', tx_caller st1.1) :: seen), frame_end st3)
    | (Err m, st3) => (Err m, st3)
    | (Panic p, st3) => (Panic p, st3)
    end.
Proof. reflexivity. Qed.

Lemma run_frames_app l1 l2 (s0 s1 s2 : St) x y :
  run_frames l1 s0 = (Ok x, s1) -> run_frames l2 s1 = (Ok y, s2) -> run_frames (l1 ++ l2) s0 = (Ok (x ++ y), s2).
Proof.
  revert s0 x. induction l1 as [|f l1 IH]; intros s0 x Hx Hy; cbn [run_frames app] in *; [by injection Hx as <- <-|].
  apply M_bind_Ok in Hx as (u & s' & Hu & Hx). apply M_bind_Ok in Hx as (w & s'' & Hw & Hx).
  injection Hx as <- ->. unfold mbind, M_bind. rewrite Hu. rewrite (IH _ _ Hw Hy). cbn. by rewrite app_assoc.
Qed.

(** A property of states that every hook keeps is kept by a run, whatever its
    result. *)
Section Invariants.
Variable I : St -> Prop.
Hypothesis Hstart : forall who vm st, I st -> I (apply_prank who vm (enter st)).2.
Hypothesis Hcall : forall i st, I st -> I (call i st).2.
Hypothesis Hend : forall st, I st -> I (frame_end st).

Lemma run_frames_invariant_of fs :
  Forall (fun f => forall st, I st -> I (run_frame f st).2) fs -> forall st, I st -> I (run_frames fs st).2.
Proof.
  induction 1 as [|f fs Hf _ IH]; intros st Hst; [done|]. cbn [run_frames]. unfold mbind, M_bind.
  specialize (Hf st Hst). destruct (run_frame f st) as [[seen|m|p] st1]; [|done..]. cbn in Hf.
  specialize (IH st1 Hf). destruct (run_frames fs st1) as [[rest|m|p] st2]; done.
Qed.

Lemma run_frame_invariant f : forall st, I st -> I (run_frame f st).2.
Proof.
  induction f as [i body IH|who body IH] using Frame_ind'; intros st Hst.
  - rewrite run_frame_call_eq. unfold frame_start_call.
    specialize (Hstart (call_caller i) (target_address i =? VM_ADDRESS) st Hst).
    destruct (apply_prank _ _ _) as [who st1]. cbn in Hstart.
    pose proof (Hcall (set_call_caller who i) st1 Hstart) as Hc.
    destruct (call _ st1) as [[[o|]|m|p] st2]; cbn in Hc |- *; [by apply Hend| |done..].
    pose proof (run_frames_invariant_of body IH st2 Hc) as Hb.
    destruct (run_frames body st2) as [[seen|m|p] st3]; [by apply Hend|done..].
  - rewrite run_frame_create_eq. unfold frame_start_create.
    specialize (Hstart who false st Hst). destruct (apply_prank _ _ _) as [who' st1]. cbn in Hstart.
    pose proof (run_frames_invariant_of body IH st1 Hstart) as Hb.
    destruct (run_frames body st1) as [[seen|m|p] st3]; [by apply Hend|done..].
Qed.

Lemma run_frames_invariant fs st : I st -> I (run_frames fs st).2.
Proof. apply run_frames_invariant_of, Forall_forall. intros f _. apply run_frame_invariant. Qed.
End Invariants.

(** ** [tx.origin] *)

(** [real] is the origin of the transaction. While an origin is saved it is the
    real one and some prank is registered; otherwise [tx.origin] is real. *)
Definition origin_ok (real : Address) (st : St) : Prop :=
  match original_origin (pranks st.2) with
  | None => tx_caller st.1 = real
  | Some o => o = real /\ (is_Some (start (pranks st.2)) \/ is_Some (active (pranks st.2)))
  end.

(** What a restore needs. *)
Definition origin_saved (real : Address) (st : St) : Prop :=
  match original_origin (pranks st.2) with None => tx_caller st.1 = real | Some o => o = real end.

Lemma origin_ok_saved real st : origin_ok real st -> origin_saved real st.
Proof. unfold origin_ok, origin_saved. destruct (original_origin _); naive_solver. Qed.

Lemma maybe_restore_ok real st : origin_saved real st -> origin_ok real (maybe_restore_origin st).
Proof.
  destruct st as [c i]. unfold maybe_restore_origin, origin_saved, origin_ok. simpl. intros Hs.
  destruct (bool_decide (is_Some (start _))) eqn:E1; simpl.
  { apply bool_decide_eq_true in E1. destruct (original_origin _); auto. }
  destruct (bool_decide (is_Some (active _))) eqn:E2; simpl.
  { apply bool_decide_eq_true in E2. destruct (original_origin _); auto. }
  destruct (original_origin (pranks i)) eqn:E; simpl; [done|]. by rewrite E.
Qed.

Definition pranked (i : Inspector) : Prop := is_Some (start (pranks i)) \/ is_Some (active (pranks i)).

Lemma patch_origin_ok real o st :
  origin_ok real st -> pranked st.2 -> origin_ok real (patch_origin o st).
Proof.
  destruct st as [c i]. unfold origin_ok, patch_origin, pranked. simpl. intros Ho Hp.
  destruct (original_origin (pranks i)) eqn:E; simpl; [by rewrite E|]. by split.
Qed.

Lemma patch_origin_pranked o (st : St) : pranked st.2 -> pranked (patch_origin o st).2.
Proof. destruct st as [c i]. unfold patch_origin, pranked. simpl. by destruct (original_origin _). Qed.

Lemma apply_info_ok real info who st :
  origin_ok real st -> pranked st.2 ->
  origin_ok real (apply_info info who st).2 /\ pranked (apply_info info who st).2.2.
Proof.
  intros Ho Hp. unfold apply_info. destruct info as [[a [o|]]|]; cbn [snd]; [|done..].
  split; [by apply patch_origin_ok|by apply patch_origin_pranked].
Qed.

Lemma mark_used_origin s p i :
  original_origin (pranks (mark_used s p i)) = original_origin (pranks i) /\
  (is_Some (start (pranks (mark_used s p i))) <-> is_Some (start (pranks i))) /\
  (is_Some (active (pranks (mark_used s p i))) <-> is_Some (active (pranks i))).
Proof. unfold mark_used. simpl. split; [done|]. split; case_bool_decide; rewrite ?fmap_is_Some; done. Qed.

Lemma apply_prank_origin real who vm st : origin_ok real st -> origin_ok real (apply_prank who vm (enter st)).2.
Proof.
  intros Ho. unfold apply_prank. destruct (_ && _) eqn:E; [done|].
  assert (Hp : pranked (enter st).2).
  { unfold pranked. apply andb_false_iff in E as [E|E]; apply negb_false_iff, bool_decide_eq_true in E; auto. }
  set (s := start_info who vm (enter st).2). set (p := prank_info who vm (enter st).2).
  assert (Ho1 : origin_ok real (enter st)) by done.
  destruct (apply_info_ok real s who _ Ho1 Hp) as [Ho2 Hp2].
  destruct (apply_info s who (enter st)) as [who1 st1]. simpl in *.
  destruct (apply_info_ok real p who1 _ Ho2 Hp2) as [Ho3 _].
  destruct (apply_info p who1 st1) as [who2 [c2 i2]]. simpl in *.
  destruct (mark_used_origin s p i2) as (Hm1 & Hm2 & Hm3). unfold origin_ok in *. cbn [fst snd] in *.
  rewrite Hm1. destruct (original_origin (pranks i2)); [|done]. by rewrite Hm2, Hm3.
Qed.

Lemma frame_end_origin real st : origin_ok real st -> origin_ok real (frame_end st).
Proof.
  destruct st as [c i]. intros Ho. unfold frame_end. cbn [fst snd].
  destruct (initiator_exited i); [|done].
  apply maybe_restore_ok. apply origin_ok_saved in Ho. exact Ho.
Qed.

(** A dispatched call saves the origin; unless it stops pranks the invariant
    stays, and if it does it succeeds. *)
Lemma dispatch_origin real v c insp r c' s' :
  origin_ok real (c, insp) -> dispatch v (c, state insp) = (r, (c', s')) ->
  origin_saved real (c', set_state s' insp) /\
  (is_stop_prank v = false -> origin_ok real (c', set_state s' insp)) /\
  (is_stop_prank v = true -> exists o, r = Ok (Some o) /\ result o = Stop).
Proof.
  intros Ho Hd. apply origin_ok_saved in Ho as Hs. unfold origin_saved, origin_ok, pranks in *. simpl in *.
  destruct (about_pranks v) eqn:Ev.
  - destruct (dispatch_pranks _ _ _ _ _ _ Ev Hd) as (-> & Hor & o & -> & Hcase). rewrite Hor.
    split; [done|]. split.
    + intros Hns. destruct (original_origin (prank (state insp))); [|done]. split; [naive_solver|].
      destruct Hcase as [(_ & -> & _)|(_ & _ & Hc)]; [naive_solver|]. rewrite Hns in Hc. tauto.
    + intros Hst. exists o. split; [done|]. destruct Hcase as [(_ & _ & Hf)|(Hr & _)]; [congruence|done].
  - destruct (dispatch_keeps _ _ _ _ Ev Hd) as [Ht Hk]. simpl in *. rewrite Hk, Ht.
    split; [done|]. split; [done|]. by destruct v.
Qed.

Lemma mark_derived_pranks v o i : pranks (mark_derived v o i) = pranks i.
Proof. destruct o as [o|]; simpl; [|done]. by destruct (_ && _). Qed.

Lemma mark_derived_depth v o i : depth (mark_derived v o i) = depth i.
Proof. destruct o as [o|]; simpl; [|done]. by destruct (_ && _). Qed.

Lemma fill_pranks_original who i : original_origin (pranks (fill_pranks who i)) = original_origin (pranks i).
Proof. done. Qed.

Lemma fill_pranks_pranked who i : pranked (fill_pranks who i) <-> pranked i.
Proof. unfold pranked, fill_pranks, set_pranks, pranks. cbn [start active state set_state set_prank prank]. rewrite !fmap_is_Some. reflexivity. Qed.

(** The hook of a call keeps the invariant. *)
Lemma call_origin real i st : origin_ok real st -> origin_ok real (call i st).2.
Proof.
  destruct st as [c insp]. intros Ho. unfold call. destruct (_ || _); [done|].
  destruct (vm_abi_decode _) as [v|]; [|done].
  destruct (dispatch v (c, state insp)) as [r [c' s']] eqn:Hd.
  destruct (dispatch_origin real v c insp r c' s' Ho Hd) as (Hsaved & Hok & Hstop).
  assert (Hsv : forall o who, origin_saved real (c', fill_pranks who (mark_derived v o (set_state s' insp)))).
  { intros o who. unfold origin_saved. cbn [fst snd]. by rewrite fill_pranks_original, mark_derived_pranks. }
  assert (Hk : is_stop_prank v = false -> forall o who,
    origin_ok real (c', fill_pranks who (mark_derived v o (set_state s' insp)))).
  { intros Hns o who. specialize (Hok Hns). unfold origin_ok in *. cbn [fst snd] in *.
    rewrite fill_pranks_original, mark_derived_pranks.
    destruct (original_origin (pranks (set_state s' insp))); [|done].
    split; [naive_solver|]. apply fill_pranks_pranked. unfold pranked. rewrite mark_derived_pranks. naive_solver. }
  destruct (is_stop_prank v) eqn:Es.
  - destruct (Hstop eq_refl) as (o & -> & Hres). cbn [fmap option_fmap option_map result]. rewrite Hres.
    rewrite bool_decide_true by done. cbn [andb snd].
    pose proof (maybe_restore_ok real _ (Hsv (Some (mkOutcome Stop (output o) (gas_limit i) (return_memory_offset i))) (call_caller i))) as Hr.
    destruct (maybe_restore_origin _) as [c2 i2]. exact Hr.
  - destruct r as [o|m|p]; cbn [andb snd]; [by apply (Hk eq_refl)|by apply Hok..].
Qed.

(** ** The life of a prank *)

(** The depth counts the open frames, and a prank was set by one of them. *)
Definition prank_open (d : Z) (p : PrankState) : Prop := single_call p = true /\ 0 < set_depth p <= d.
Definition bracketed (st : St) : Prop :=
  0 <= depth st.2 /\ forall p, active (pranks st.2) = Some p -> prank_open (depth st.2) p.

(** A frame that does not call the cheatcode address. *)
Definition plain (f : Frame) : Prop :=
  match f with FCall i _ => target_address i <> VM_ADDRESS | FCreate _ _ => True end.

Lemma dispatch_active v c s r c' s' :
  dispatch v (c, s) = (r, (c', s')) ->
  active (prank s') = active (prank s) \/ active (prank s') = None \/
  exists p, active (prank s') = Some p /\ single_call p = true /\ set_depth p = 0.
Proof.
  intros Hd. destruct (about_pranks v) eqn:Ev.
  - destruct v; try done; revert Hd; unfold dispatch, on_state, prank_with, start_prank_with, stop_prank;
      repeat case_match; intros Hd; simplify_eq; simpl; eauto 10.
  - destruct (dispatch_keeps _ _ _ _ Ev Hd) as [_ Hk]. simpl in Hk. left. by rewrite Hk.
Qed.

Lemma apply_info_pranks info who (st : St) :
  active (pranks (apply_info info who st).2.2) = active (pranks st.2) /\
  start (pranks (apply_info info who st).2.2) = start (pranks st.2) /\
  depth (apply_info info who st).2.2 = depth st.2.
Proof.
  destruct info as [[a [o|]]|]; [|done..]. cbn [apply_info]. unfold patch_origin. cbn [fst snd].
  by destruct (original_origin _).
Qed.

(** Applying pranks to a frame keeps the depth and marks pranks at most. *)
Lemma apply_prank_depth who vm (st : St) :
  depth (apply_prank who vm st).2.2 = depth st.2 /\
  (active (pranks (apply_prank who vm st).2.2) = active (pranks st.2) \/
   active (pranks (apply_prank who vm st).2.2) = mark_active <$> active (pranks st.2)).
Proof.
  unfold apply_prank. destruct (_ && _); [by auto|].
  set (s := start_info who vm st.2). set (p := prank_info who vm st.2).
  destruct (apply_info_pranks s who st) as (Ha1 & _ & Hd1).
  destruct (apply_info s who st) as [who1 st1]. simpl in *.
  destruct (apply_info_pranks p who1 st1) as (Ha2 & _ & Hd2).
  destruct (apply_info p who1 st1) as [who2 st2]. simpl in *. unfold mark_used. simpl.
  split; [congruence|]. rewrite Ha2, Ha1. case_bool_decide; auto.
Qed.

Lemma enter_bracketed who vm (st : St) :
  bracketed st -> bracketed (apply_prank who vm (enter st)).2 /\
    depth (apply_prank who vm (enter st)).2.2 = depth st.2 + 1.
Proof.
  intros [Hd Ha]. destruct (apply_prank_depth who vm (enter st)) as [Hdep Hact]. simpl in Hdep. split; [|done].
  unfold bracketed. rewrite Hdep. split; [lia|]. intros p Hp.
  change (active (pranks (enter st).2)) with (active (pranks st.2)) in Hact.
  assert (Hex : exists q, active (pranks st.2) = Some q /\ single_call p = single_call q /\ set_depth p = set_depth q).
  { destruct Hact as [Hact|Hact]; rewrite Hp in Hact; [by exists p|].
    destruct (active (pranks st.2)) as [q|]; simpl in Hact; [|done]. injection Hact as ->. by exists q. }
  destruct Hex as (q & Hq & Hs1 & Hs2). destruct (Ha q Hq). unfold prank_open. rewrite Hs1, Hs2. split; [done|lia].
Qed.

(** The hook of a call keeps the brackets below the first frame. *)
Lemma call_bracketed i (st st' : St) o :
  call i st = (Ok o, st') -> bracketed st -> 1 < depth st.2 \/ target_address i <> VM_ADDRESS ->
  bracketed st' /\ depth st'.2 = depth st.2.
Proof.
  destruct st as [c insp]. unfold call. intros Hc Hb Hvm.
  destruct (Z.eqb_spec (target_address i) VM_ADDRESS) as [Ht|]; [|by injection Hc as <- <-].
  destruct Hvm as [Hdepth|]; [|done]. simpl in Hdepth. cbn [negb orb] in Hc.
  destruct (_ <? _)%nat; [by injection Hc as <- <-|].
  destruct (vm_abi_decode _) as [v|]; [|by injection Hc as <- <-].
  destruct (dispatch v (c, state insp)) as [[o1|m|p] [c' s']] eqn:Hd; [|done..].
  apply dispatch_active in Hd. destruct Hb as [Hb0 Hb]. cbn [fst snd] in *. cbv zeta in Hc.
  set (o' := (fun o => mkOutcome (result o) (output o) (gas_limit i) (return_memory_offset i)) <$> o1) in Hc.
  set (insp1 := fill_pranks (call_caller i) (mark_derived v o' (set_state s' insp))) in Hc.
  assert (Hdep : depth insp1 = depth insp).
  { apply (mark_derived_depth v o' (set_state s' insp)). }
  assert (Hact : forall p, active (pranks insp1) = Some p -> prank_open (depth insp) p).
  { intros p. unfold insp1, fill_pranks. cbn [pranks set_pranks state set_state set_prank prank active].
    change (prank (state (mark_derived v o' (set_state s' insp)))) with (pranks (mark_derived v o' (set_state s' insp))).
    rewrite mark_derived_pranks. change (pranks (set_state s' insp)) with (prank s').
    assert (Hmd : depth (mark_derived v o' (set_state s' insp)) = depth insp) by exact Hdep. rewrite Hmd.
    destruct (active (prank s')) as [q|] eqn:Eq; [|done]. simpl. intros [= <-]. unfold prank_open, fill_active. simpl.
    unfold sat_sub. destruct Hd as [Hd|[Hd|(q' & [= <-] & Hs & Hz)]]; [|done|].
    - destruct (Hb q) as [Hsc Hsd]; [done|]. destruct (Z.eqb_spec (set_depth q) 0); [lia|]. split; [done|lia].
    - rewrite Hz. simpl. split; [done|lia]. }
  assert (Hr : forall j, (j = (c', insp1) \/ j = maybe_restore_origin (c', insp1)) ->
    depth j.2 = depth insp /\ active (pranks j.2) = active (pranks insp1)).
  { intros j [->| ->]; [done|]. unfold maybe_restore_origin. destruct (_ || _); [done|].
    by destruct (original_origin (pranks insp1)). }
  match type of Hc with (Ok _, (?j.1, _)) = _ => set (st2 := j) in Hc; assert (Hj : st2 = (c', insp1) \/
    st2 = maybe_restore_origin (c', insp1)) by (unfold st2; destruct (_ && _); auto); clearbody st2 end.
  destruct (Hr st2 Hj) as [Hr1 Hr2]. injection Hc as _ <-. unfold bracketed. cbn [fst snd].
  change (pranks (sync_labels st2.2)) with (pranks st2.2). change (depth (sync_labels st2.2)) with (depth st2.2).
  rewrite Hr1, Hr2. by split.
Qed.

Lemma maybe_restore_keeps (st : St) :
  active (pranks (maybe_restore_origin st).2) = active (pranks st.2) /\
  depth (maybe_restore_origin st).2 = depth st.2.
Proof.
  destruct st as [c i]. unfold maybe_restore_origin. destruct (_ || _); [done|].
  by destruct (original_origin (pranks i)).
Qed.

Lemma frame_end_bracketed (st : St) :
  bracketed st -> 0 < depth st.2 -> bracketed (frame_end st) /\ depth (frame_end st).2 = depth st.2 - 1.
Proof.
  intros [Hd Ha] Hpos. unfold frame_end. destruct (initiator_exited st.2) eqn:E.
  - destruct (maybe_restore_keeps (st.1, leave (end_prank st.2))) as [Hn Hdep]. unfold bracketed.
    rewrite Hn, Hdep. cbn [snd leave end_prank set_depth_to set_pranks set_state depth]. unfold sat_sub.
    split; [|lia]. split; [lia|done].
  - unfold bracketed. cbn [snd leave set_depth_to depth]. unfold sat_sub. split; [|lia]. split; [lia|].
    intros p Hp. change (pranks (leave st.2)) with (pranks st.2) in Hp.
    destruct (Ha p Hp) as [Hs Hr]. unfold initiator_exited in E. rewrite Hp, Hs in E. simpl in E.
    apply Z.eqb_neq in E. split; [done|]. lia.
Qed.

(** A run of frames returns to its depth, and leaves no prank that its own
    frames set. *)
Definition balanced (f : Frame) : Prop := forall st seen st',
  run_frame f st = (Ok seen, st') -> bracketed st -> 0 < depth st.2 \/ plain f ->
  bracketed st' /\ depth st'.2 = depth st.2.

Lemma run_frames_balanced_of fs : Forall balanced fs ->
  forall st seen st', run_frames fs st = (Ok seen, st') -> bracketed st -> 0 < depth st.2 \/ Forall plain fs ->
  bracketed st' /\ depth st'.2 = depth st.2.
Proof.
  induction 1 as [|f fs Hf _ IH]; intros st seen st' Hr Hb Hp; cbn [run_frames] in Hr; [by injection Hr as _ <-|].
  apply M_bind_Ok in Hr as (s1 & st1 & Hr1 & Hr). apply M_bind_Ok in Hr as (s2 & st2 & Hr2 & Hr).
  injection Hr as _ <-. destruct (Hf _ _ _ Hr1 Hb) as [Hb1 Hd1].
  { destruct Hp as [?|Hp]; [by left|right]. by apply Forall_cons in Hp as [? _]. }
  rewrite <- Hd1. apply (IH _ _ _ Hr2 Hb1). rewrite Hd1.
  destruct Hp as [?|Hp]; [by left|right]. by apply Forall_cons in Hp as [_ ?].
Qed.

Lemma run_frame_balanced f : balanced f.
Proof.
  induction f as [i body IH|who body IH] using Frame_ind'; intros st seen st' Hr Hb Hp.
  - rewrite run_frame_call_eq in Hr. unfold frame_start_call in Hr.
    destruct (enter_bracketed (call_caller i) (target_address i =? VM_ADDRESS) st Hb) as [Hb1 Hd1].
    destruct (apply_prank _ _ _) as [who st1]. cbn [snd] in *.
    destruct (call _ st1) as [[o|m|p] st2] eqn:Hc; [|done..].
    destruct (call_bracketed _ _ _ _ Hc Hb1) as [Hb2 Hd2]; [rewrite Hd1; destruct Hp; [left; lia|by right]|].
    assert (Hpos : 0 < depth st2.2) by (destruct Hb; lia).
    destruct o as [o|].
    + injection Hr as _ <-. destruct (frame_end_bracketed st2 Hb2 Hpos). split; [done|lia].
    + destruct (run_frames body st2) as [[s3|m|p] st3] eqn:Hr3; [|done..]. injection Hr as _ <-.
      destruct (run_frames_balanced_of body IH _ _ _ Hr3 Hb2) as [Hb3 Hd3]; [by left|].
      destruct (frame_end_bracketed st3 Hb3); [lia|]. split; [done|lia].
  - rewrite run_frame_create_eq in Hr. unfold frame_start_create in Hr.
    destruct (enter_bracketed who false st Hb) as [Hb1 Hd1].
    destruct (apply_prank _ _ _) as [who' st1]. cbn [snd] in *.
    assert (Hpos : 0 < depth st1.2) by (destruct Hb; lia).
    destruct (run_frames body st1) as [[s3|m|p] st3] eqn:Hr3; [|done..]. injection Hr as _ <-.
    destruct (run_frames_balanced_of body IH _ _ _ Hr3 Hb1) as [Hb3 Hd3]; [by left|].
    destruct (frame_end_bracketed st3 Hb3); [lia|]. split; [done|lia].
Qed.

Lemma run_frames_balanced fs st seen st' :
  run_frames fs st = (Ok seen, st') -> bracketed st -> 0 < depth st.2 \/ Forall plain fs ->
  bracketed st' /\ depth st'.2 = depth st.2.
Proof. apply run_frames_balanced_of, Forall_forall. intros f _. apply run_frame_balanced. Qed.
End Run_lemmas.

(** ** What the frames of a run see *)
Fixpoint cheat_free (f : Frame) : bool :=
  match f with
  | FCall i body => negb (target_address i =? VM_ADDRESS) && forallb cheat_free body
  | FCreate _ body => forallb cheat_free body
  end.

Definition frame_who (f : Frame) : Address :=
  match f with FCall i _ => call_caller i | FCreate who _ => who end.
Definition frame_body (f : Frame) : list Frame :=
  match f with FCall _ body => body | FCreate _ body => body end.

(** Every frame, outermost first, with its caller renamed and one origin. *)
Fixpoint seen_by (rename : Address -> Address) (org : Address) (f : Frame) : Seen :=
  match f with
  | FCall i body => (rename (call_caller i), org) :: flat_map (seen_by rename org) body
  | FCreate who body => (rename who, org) :: flat_map (seen_by rename org) body
  end.

Definition subst_caller (who a : Address) : Address -> Address := fun x => if x =? who then a else x.

Section Steady.
Context {J : Type} `{JournalAccounts J} `{ForkJournal J}.
Context `{AbiValues} `{Text} `{CheatText} `{Secp256k1} `{Host} `{VmAbi}.

#[local] Abbreviation St := (Context J * Inspector)%type.

(** No prank is waiting above depth [d], and the start prank, if any, does not
    change the origin any more. *)
Record steady (rename : Address -> Address) (org : Address) (d : Z) (st : St) : Prop := {
  st_origin : tx_caller st.1 = org;
  st_depth : d <= depth st.2;
  st_base : 0 <= d;
  st_active : match active (pranks st.2) with Some p => used p = true /\ set_depth p <= d | None => True end;
  st_start : match start (pranks st.2) with
    | Some s => start_set_depth s <= d /\ (start_origin s = None \/ start_origin s = Some org) /\
        rename = subst_caller (start_prank_caller s) (start_caller s)
    | None => rename = id
    end;
}.

Lemma mark_used_none i : mark_used None None i = i.
Proof. by destruct i as [[b [a s o] l r e f g] sl d hr]. Qed.

(** The guard of [apply_prank] skips nothing. *)
Lemma apply_prank_eq who vm (st : St) :
  apply_prank who vm st =
    let s := start_info who vm st.2 in
    let p := prank_info who vm st.2 in
    let '(who1, st1) := apply_info s who st in
    let '(who2, st2) := apply_info p who1 st1 in
    (who2, (st2.1, mark_used s p st2.2)).
Proof.
  unfold apply_prank. destruct (_ && _) eqn:E; [|done].
  apply andb_true_iff in E as [E1 E2]. apply negb_true_iff, bool_decide_eq_false, eq_None_not_Some in E1, E2.
  unfold start_info, prank_info. rewrite E1, E2. simpl. rewrite mark_used_none. by destruct st.
Qed.

Lemma prank_info_used who vm i :
  match active (pranks i) with Some p => used p = true | None => True end -> prank_info who vm i = None.
Proof. unfold prank_info. destruct (active _) as [p|]; [|done]. simpl. intros ->. by rewrite andb_false_r. Qed.

(** A start prank alone: the frames of the account that set it. *)
Lemma apply_start_only who (st : St) :
  prank_info who false st.2 = None ->
  apply_prank who false st =
    match start_info who false st.2 with
    | None => (who, st)
    | Some (a, o) =>
        let st1 := (load_pranked_caller a st.1, st.2) in
        let st2 := match o with Some o => patch_origin o st1 | None => st1 end in
        (a, (st2.1, mark_used (Some (a, o)) None st2.2))
    end.
Proof.
  intros Hp. rewrite apply_prank_eq, Hp. cbv zeta. destruct (start_info _ _ _) as [[a o]|]; [done|].
  cbn [apply_info]. rewrite mark_used_none. by destruct st.
Qed.

Lemma apply_steady rename org d who (st : St) :
  steady rename org d st -> d < depth st.2 ->
  (apply_prank who false st).1 = rename who /\
  steady rename org d (apply_prank who false st).2 /\ depth (apply_prank who false st).2.2 = depth st.2 /\
  (start (pranks st.2) = None -> pranks (apply_prank who false st).2.2 = pranks st.2).
Proof.
  intros Hst Hlt. destruct (Hst) as [Ho Hd H0d Ha Hs].
  rewrite apply_start_only by (apply prank_info_used; destruct (active _); naive_solver).
  unfold start_info. destruct (start (pranks st.2)) as [s|] eqn:Es; simpl; [|by subst rename].
  destruct Hs as (Hsd & Hso & ->). rewrite (proj2 (Z.ltb_lt _ _)) by lia. rewrite !andb_true_r.
  unfold subst_caller at 1. destruct (Z.eqb_spec who (start_prank_caller s)) as [Hw|Hw]; simpl; [|done].
  split; [done|]. destruct st as [c i]. cbn [fst snd] in *.
  assert (Hor : forall j, active (pranks j) = active (pranks i) -> start (pranks j) = start (pranks i) ->
    depth j = depth i -> forall c', tx_caller c' = org -> forall info,
    steady (subst_caller (start_prank_caller s) (start_caller s)) org d (c', mark_used (Some info) None j) /\
    depth (mark_used (Some info) None j) = depth i /\
    (Some s = None -> pranks (mark_used (Some info) None j) = pranks i)).
  { intros j Hja Hjs Hdj c' Hc info. split; [|done]. split; cbn [fst snd]; [done|cbn; lia|done| |].
    - change (active (pranks (mark_used (Some info) None j))) with (active (pranks j)). by rewrite Hja.
    - change (start (pranks (mark_used (Some info) None j))) with (mark_start <$> start (pranks j)).
      rewrite Hjs, Es. simpl. auto. }
  destruct Hso as [Hso|Hso]; rewrite Hso; cbn [patch_origin fst snd].
  - by apply (Hor i).
  - destruct (original_origin (pranks i)) eqn:Eo; by apply Hor.
Qed.

Lemma steady_moved rename org d (st st' : St) :
  steady rename org d st -> tx_caller st'.1 = tx_caller st.1 -> pranks st'.2 = pranks st.2 ->
  d <= depth st'.2 -> steady rename org d st'.
Proof. intros [Ho Hd H0d Ha Hs] Htx Hp Hle. split; rewrite ?Htx, ?Hp; done. Qed.

(** Closing a frame above the base ends no prank. *)
Lemma frame_end_steady rename org d (st : St) :
  steady rename org d st -> d < depth st.2 ->
  steady rename org d (frame_end st) /\ depth (frame_end st).2 = depth st.2 - 1 /\
  pranks (frame_end st).2 = pranks st.2.
Proof.
  intros Hst Hlt. destruct (Hst) as [_ _ H0d Ha _].
  assert (He : initiator_exited st.2 = false).
  { unfold initiator_exited. destruct (active _) as [p|]; [|done]. destruct Ha as [_ Hp].
    apply andb_false_iff. right. apply Z.eqb_neq. lia. }
  unfold frame_end. rewrite He. cbn [fst snd leave set_depth_to depth]. unfold sat_sub.
  split; [|split; [lia|done]]. eapply steady_moved; [done..|].
  cbn [snd leave set_depth_to depth]. unfold sat_sub. lia.
Qed.

(** A frame without cheatcodes runs its body with the renamed caller. *)
Definition runs_steady (f : Frame) : Prop := forall rename org d (st : St),
  cheat_free f = true -> steady rename org d st ->
  exists st', run_frame f st = (Ok (seen_by rename org f), st') /\ steady rename org d st' /\
    depth st'.2 = depth st.2 /\ (start (pranks st.2) = None -> pranks st'.2 = pranks st.2).

Lemma run_frames_steady_of fs : Forall runs_steady fs -> forall rename org d (st : St),
  forallb cheat_free fs = true -> steady rename org d st ->
  exists st', run_frames fs st = (Ok (flat_map (seen_by rename org) fs), st') /\ steady rename org d st' /\
    depth st'.2 = depth st.2 /\ (start (pranks st.2) = None -> pranks st'.2 = pranks st.2).
Proof.
  induction 1 as [|f fs Hf _ IH]; intros rename org d st Hc Hst; [by exists st|].
  apply andb_true_iff in Hc as [Hcf Hcs].
  destruct (Hf rename org d st Hcf Hst) as (st1 & Hr1 & Hst1 & Hd1 & Hq1).
  destruct (IH rename org d st1 Hcs Hst1) as (st2 & Hr2 & Hst2 & Hd2 & Hq2).
  exists st2. split; [|split; [done|split; [congruence|]]].
  2: { intros Hn. rewrite Hq2; [by apply Hq1|]. by rewrite Hq1. }
  cbn [run_frames flat_map]. unfold mbind, M_bind.
  rewrite Hr1. cbn. by rewrite Hr2.
Qed.

Lemma call_plain i (st : St) : target_address i <> VM_ADDRESS -> call i st = (Ok None, st).
Proof. intros Hne. unfold call. by rewrite (proj2 (Z.eqb_neq _ _) Hne). Qed.

Lemma run_frame_steady f : runs_steady f.
Proof.
  induction f as [i body IH|who body IH] using Frame_ind'; intros rename org d st Hc Hst; cbn [cheat_free] in Hc.
  - apply andb_true_iff in Hc as [Hvm Hc]. apply negb_true_iff in Hvm.
    rewrite run_frame_call_eq. unfold frame_start_call. rewrite Hvm.
    destruct (apply_steady rename org d (call_caller i) (enter st)) as (Hw & Hst1 & Hd1 & Hq1);
      [eapply steady_moved; [done..|destruct Hst; cbn; lia]|destruct Hst; cbn; lia|].
    destruct (apply_prank _ _ _) as [who st1]. cbn [fst snd] in *. subst who.
    rewrite call_plain by (cbn; by apply Z.eqb_neq).
    destruct (run_frames_steady_of body IH rename org d st1 Hc Hst1) as (st2 & -> & Hst2 & Hd2 & Hq2).
    cbn in Hd1. destruct (frame_end_steady rename org d st2 Hst2) as (Hst3 & Hd3 & Hq3); [destruct Hst; lia|].
    exists (frame_end st2). split; [|split; [done|split; [lia|]]].
    2: { intros Hn. rewrite Hq3, Hq2; [by apply Hq1|]. by rewrite Hq1. }
    cbn. by rewrite (st_origin _ _ _ _ Hst1).
  - rewrite run_frame_create_eq. unfold frame_start_create.
    destruct (apply_steady rename org d who (enter st)) as (Hw & Hst1 & Hd1 & Hq1);
      [eapply steady_moved; [done..|destruct Hst; cbn; lia]|destruct Hst; cbn; lia|].
    destruct (apply_prank _ _ _) as [who' st1]. cbn [fst snd] in *. subst who'.
    destruct (run_frames_steady_of body IH rename org d st1 Hc Hst1) as (st2 & -> & Hst2 & Hd2 & Hq2).
    cbn in Hd1. destruct (frame_end_steady rename org d st2 Hst2) as (Hst3 & Hd3 & Hq3); [destruct Hst; lia|].
    exists (frame_end st2). split; [|split; [done|split; [lia|]]].
    2: { intros Hn. rewrite Hq3, Hq2; [by apply Hq1|]. by rewrite Hq1. }
    cbn. by rewrite (st_origin _ _ _ _ Hst1).
Qed.

Lemma run_frames_steady rename org d fs (st : St) :
  forallb cheat_free fs = true -> steady rename org d st ->
  exists st', run_frames fs st = (Ok (flat_map (seen_by rename org) fs), st') /\ steady rename org d st' /\
    depth st'.2 = depth st.2 /\ (start (pranks st.2) = None -> pranks st'.2 = pranks st.2).
Proof. apply run_frames_steady_of, Forall_forall. intros f _. apply run_frame_steady. Qed.
End Steady.

(** ** Pranks *)
Section Pranks.
#[local] Arguments sat_sub : simpl never.
#[local] Arguments Z.add : simpl never.
Context {J : Type} `{JournalAccounts J} `{ForkJournal J}.
Context `{AbiValues} `{Text} `{CheatText} `{Secp256k1} `{Host} `{VmAbi}.

#[local] Abbreviation St := (Context J * Inspector)%type.

(** A call that decodes to a cheatcode. *)
Definition vm_call (i : CallInputs) (v : VmCalls) : Prop :=
  target_address i = VM_ADDRESS /\ (4 <= length (input i))%nat /\ vm_abi_decode (input i) = Some v.

Definition prank_call (a : Address) (o : option Address) : VmCalls :=
  match o with None => Vm_prank_0 a | Some o => Vm_prank_1 a o end.

Lemma apply_prank_vm who (st : St) : apply_prank who true st = (who, st).
Proof.
  rewrite apply_prank_eq.
  assert (Hs : start_info who true st.2 = None).
  { unfold start_info. destruct (start _); simpl; [|done]. by rewrite andb_false_r. }
  assert (Hp : prank_info who true st.2 = None).
  { unfold prank_info. destruct (active _); simpl; [|done]. by rewrite andb_false_r. }
  rewrite Hs, Hp. cbn. rewrite mark_used_none. by destruct st.
Qed.

(** The state an intercepted cheatcode that is not [stopPrank] or [addr] leaves. *)
Lemma run_vm_call i body v (st : St) o s' :
  vm_call i v -> dispatch v (st.1, state st.2) = (Ok (Some o), (st.1, s')) ->
  is_stop_prank v = false -> is_addr v = false -> 0 <= depth st.2 ->
  run_frame (FCall i body) st =
    (Ok [], frame_end (st.1, sync_labels (fill_pranks (call_caller i) (set_state s' (enter st).2)))).
Proof.
  intros (Ht & Hl & Hv) Hd Hns Hna Hdep. rewrite run_frame_call_eq. unfold frame_start_call.
  rewrite (proj2 (Z.eqb_eq _ _) Ht), apply_prank_vm. unfold call.
  assert (Hin : target_address (set_call_caller (call_caller i) i) = VM_ADDRESS) by done.
  rewrite (proj2 (Z.eqb_eq _ _) Hin). change (input (set_call_caller (call_caller i) i)) with (input i).
  rewrite (proj2 (Nat.ltb_ge _ _) Hl), Hv. cbn [negb orb enter].
  change (state (set_depth_to (depth st.2 + 1) st.2)) with (state st.2). rewrite Hd.
  cbn [fmap option_fmap option_map mark_derived]. rewrite Hna, Hns. reflexivity.
Qed.

(** [prank] registers the prank for the frame that calls it. *)
Lemma run_prank_call i body a o (st : St) :
  vm_call i (prank_call a o) -> pranks st.2 = prank_cheat_default -> 0 < depth st.2 ->
  exists st', run_frame (FCall i body) st = (Ok [], st') /\ st'.1 = st.1 /\ depth st'.2 = depth st.2 /\
    pranks st'.2 = mkPrankCheat (Some (mkPrank a o true (depth st.2) (call_caller i) false)) None None.
Proof.
  intros Hv Hp Hd. unfold pranks in Hp.
  assert (Hdisp : dispatch (prank_call a o) (st.1, state st.2) = (Ok (Some success),
    (st.1, set_prank (mkPrankCheat (Some (mkPrank a o true 0 0 false)) None None) (state st.2)))).
  { destruct o; cbn [prank_call dispatch on_state]; unfold prank_with; rewrite Hp; reflexivity. }
  eexists. split; [eapply run_vm_call; [done|exact Hdisp|by destruct o|by destruct o|lia]|].
  set (i1 := sync_labels _).
  assert (Hi : pranks i1 = mkPrankCheat (Some (mkPrank a o true (depth st.2) (call_caller i) false)) None None /\
    depth i1 = depth st.2 + 1).
  { unfold i1, fill_pranks, fill_active, pranks. cbn. replace (sat_sub (depth st.2 + 1) 1) with (depth st.2)
      by (unfold sat_sub; lia). done. }
  destruct Hi as [Hpr Hdep]. unfold frame_end, initiator_exited. cbn [snd fst]. rewrite Hpr, Hdep. cbn [active single_call set_depth andb].
  rewrite (proj2 (Z.eqb_neq _ _)) by lia. cbn [fst snd leave set_depth_to depth]. rewrite Hdep.
  split; [done|]. split; [unfold sat_sub; lia|exact Hpr].
Qed.

(** The first frame of the account that set a prank takes it. *)
Lemma apply_prank_taken p (st : St) :
  pranks st.2 = mkPrankCheat (Some p) None None -> used p = false -> set_depth p < depth st.2 ->
  exists st', apply_prank (prank_caller p) false st = (caller p, st') /\
    tx_caller st'.1 = default (tx_caller st.1) (origin p) /\ depth st'.2 = depth st.2 /\
    pranks st'.2 = mkPrankCheat (Some (mark_active p)) None
      (match origin p with Some _ => Some (tx_caller st.1) | None => None end).
Proof.
  intros Hp Hu Hd. rewrite apply_prank_eq. unfold start_info, prank_info. rewrite Hp. cbn [start active mbind option_bind].
  rewrite Z.eqb_refl, (proj2 (Z.ltb_lt _ _) Hd), Hu. cbn [andb negb apply_info]. destruct st as [c i]. cbn [fst snd] in *.
  eexists. split; [reflexivity|]. destruct (origin p) as [o|]; unfold patch_origin; cbn [fst snd]; rewrite ?Hp; cbn;
    unfold pranks in *; rewrite ?Hp; done.
Qed.

(** What runs after the prank was taken. *)
Lemma taken_steady p (st : St) who :
  pranks st.2 = mkPrankCheat (Some (mark_active p)) None who -> 0 <= set_depth p <= depth st.2 ->
  steady id (tx_caller st.1) (set_depth p) st.
Proof. intros Hp Hd. split; rewrite ?Hp; simpl; [done|lia|lia|split; [done|lia]|done]. Qed.

Lemma run_taken p f (st : St) :
  pranks st.2 = mkPrankCheat (Some p) None None -> used p = false -> 0 <= set_depth p <= depth st.2 ->
  frame_who f = prank_caller p -> cheat_free f = true ->
  let org := default (tx_caller st.1) (origin p) in
  exists st', run_frame f st = (Ok ((caller p, org) :: flat_map (seen_by id org) (frame_body f)), st') /\
    steady id org (set_depth p) st' /\ depth st'.2 = depth st.2 /\
    pranks st'.2 = mkPrankCheat (Some (mark_active p)) None
      (match origin p with Some _ => Some (tx_caller st.1) | None => None end).
Proof.
  intros Hp Hu Hd Hw Hc org.
  destruct (apply_prank_taken p (enter st) Hp Hu) as (st1 & Happ & Htx & Hdep & Hp1); [cbn; lia|].
  assert (Hst1 : steady id org (set_depth p) st1).
  { change org with (default (tx_caller (enter st).1) (origin p)). rewrite <- Htx.
    eapply taken_steady; [exact Hp1|]. rewrite Hdep. cbn. lia. }
  change (depth (enter st).2) with (depth st.2 + 1) in Hdep.
  assert (Hbody : forall body, forallb cheat_free body = true ->
    exists st2, run_frames body st1 = (Ok (flat_map (seen_by id org) body), st2) /\
      steady id org (set_depth p) (frame_end st2) /\ depth (frame_end st2).2 = depth st.2 /\
      pranks (frame_end st2).2 = pranks st1.2).
  { intros body Hb.
    destruct (run_frames_steady id org (set_depth p) body st1 Hb Hst1) as (st2 & Hr & Hst2 & Hd2 & Hq2).
    destruct (frame_end_steady _ _ _ st2 Hst2) as (Hst3 & Hd3 & Hq3); [lia|]. exists st2.
    split; [done|]. split; [done|]. split; [lia|]. rewrite Hq3. apply Hq2. by rewrite Hp1. }
  destruct f as [i body|who body]; cbn [frame_who cheat_free frame_body] in *; subst.
  - apply andb_true_iff in Hc as [Hvm Hc]. apply negb_true_iff in Hvm.
    destruct (Hbody body Hc) as (st2 & Hr & Hst3 & Hd3 & Hq3). exists (frame_end st2).
    rewrite run_frame_call_eq. unfold frame_start_call. rewrite Hvm, Hw, Happ.
    rewrite call_plain by (cbn; by apply Z.eqb_neq). rewrite Hr. cbn [call_caller set_call_caller].
    rewrite Htx. split; [done|]. split; [done|]. split; [done|]. by rewrite Hq3.
  - destruct (Hbody body Hc) as (st2 & Hr & Hst3 & Hd3 & Hq3). exists (frame_end st2).
    rewrite run_frame_create_eq. unfold frame_start_create. rewrite Happ, Hr, Htx.
    split; [done|]. split; [done|]. split; [done|]. by rewrite Hq3.
Qed.

(** The frame that set the last prank ends it and restores the origin. *)
Lemma frame_end_exits p orig (st : St) :
  pranks st.2 = mkPrankCheat (Some p) None orig -> single_call p = true -> depth st.2 = set_depth p ->
  tx_caller (frame_end st).1 = default (tx_caller st.1) orig /\ pranks (frame_end st).2 = prank_cheat_default.
Proof.
  intros Hp Hs Hd. unfold frame_end, initiator_exited. rewrite Hp. cbn [active]. rewrite Hs, Hd, Z.eqb_refl. cbn [andb].
  destruct st as [c i]. cbn [fst snd] in *. unfold maybe_restore_origin, end_prank, pranks in *.
  rewrite Hp. by destruct orig.
Qed.

(** [startPrank] registers a prank for the frame that calls it. *)
Lemma run_start_call i body a (st : St) :
  vm_call i (Vm_startPrank_0 a) -> pranks st.2 = prank_cheat_default -> 0 < depth st.2 ->
  exists st', run_frame (FCall i body) st = (Ok [], st') /\ st'.1 = st.1 /\ depth st'.2 = depth st.2 /\
    pranks st'.2 = mkPrankCheat None (Some (mkStart a None (depth st.2) (call_caller i) false)) None.
Proof.
  intros Hv Hp Hd. unfold pranks in Hp.
  assert (Hdisp : dispatch (Vm_startPrank_0 a) (st.1, state st.2) = (Ok (Some success),
    (st.1, set_prank (mkPrankCheat None (Some (mkStart a None 0 0 false)) None) (state st.2)))).
  { cbn [dispatch on_state]. unfold start_prank_with. rewrite Hp. reflexivity. }
  eexists. split; [eapply run_vm_call; [done|exact Hdisp|done|done|lia]|].
  unfold frame_end, initiator_exited, fill_pranks, fill_start, pranks. cbn.
  replace (sat_sub (depth st.2 + 1) 1) with (depth st.2) by (unfold sat_sub; lia). done.
Qed.

(** [stopPrank] ends all pranks and restores the origin. *)
Lemma run_stop_call i body (st : St) :
  vm_call i Vm_stopPrank -> 0 <= depth st.2 ->
  exists st', run_frame (FCall i body) st = (Ok [], st') /\ depth st'.2 = depth st.2 /\
    tx_caller st'.1 = default (tx_caller st.1) (original_origin (pranks st.2)) /\
    pranks st'.2 = prank_cheat_default.
Proof.
  intros (Ht & Hl & Hv) Hdep. rewrite run_frame_call_eq. unfold frame_start_call.
  rewrite (proj2 (Z.eqb_eq _ _) Ht), apply_prank_vm. unfold call.
  assert (Hin : target_address (set_call_caller (call_caller i) i) = VM_ADDRESS) by done.
  rewrite (proj2 (Z.eqb_eq _ _) Hin). change (input (set_call_caller (call_caller i) i)) with (input i).
  rewrite (proj2 (Nat.ltb_ge _ _) Hl), Hv. cbn [negb orb enter dispatch on_state stop_prank].
  destruct st as [c [s sl d hr]]. unfold pranks. cbn [fst snd state set_depth_to depth] in *.
  rewrite bool_decide_true by done.
  destruct (original_origin (prank s)) as [o|] eqn:Eo; eexists; (split; [reflexivity|]);
    unfold frame_end, initiator_exited, maybe_restore_origin, pranks; cbn; rewrite ?Eo; cbn; rewrite ?Eo;
    (split; [unfold sat_sub; lia|]); done.
Qed.
End Pranks.

(** ** Properties *)
Section Properties.
Context {J : Type} `{JournalAccounts J} `{ForkJournal J}.
Context `{AbiValues} `{Text} `{CheatText} `{Secp256k1} `{Host} `{VmAbi}.
Implicit Types (st : (Context J * Inspector)%type).

(** C14: [vm.prank] spoofs the caller of exactly the next call or creation of
    the frame that calls it, and of nothing inside it or after it. With an
    origin, however, [tx.origin] stays spoofed for everything that frame still
    runs, until it ends. *)
Theorem prank_next_call_only i0 body0 a o f rest st :
  vm_call i0 (prank_call a o) -> pranks st.2 = prank_cheat_default -> 0 < depth st.2 ->
  frame_who f = call_caller i0 -> forallb cheat_free (f :: rest) = true ->
  let org := default (tx_caller st.1) o in
  exists st',
    run_frames (FCall i0 body0 :: f :: rest) st =
      (Ok ((a, org) :: flat_map (seen_by id org) (frame_body f) ++ flat_map (seen_by id org) rest), st') /\
    tx_caller st'.1 = org /\ depth st'.2 = depth st.2 /\
    tx_caller (frame_end st').1 = tx_caller st.1 /\ pranks (frame_end st').2 = prank_cheat_default.
Proof.
  intros Hv Hp Hd Hw Hc org. apply andb_true_iff in Hc as [Hcf Hcr].
  destruct (run_prank_call i0 body0 a o st Hv Hp Hd) as (st1 & Hr1 & Hc1 & Hd1 & Hp1).
  destruct (run_taken _ f st1 Hp1 eq_refl) as (st2 & Hr2 & Hst2 & Hd2 & Hp2);
    [cbn [set_depth]; lia|exact Hw|exact Hcf|].
  cbn [CheatState.caller CheatState.origin set_depth] in Hr2, Hst2. rewrite Hc1 in Hr2, Hst2, Hp2.
  destruct (run_frames_steady _ _ _ rest st2 Hcr Hst2) as (st3 & Hr3 & Hst3 & Hd3 & Hq3).
  exists st3. split.
  { cbn [run_frames]. unfold mbind, M_bind. rewrite Hr1. cbn. rewrite Hr2. cbn. rewrite Hr3. reflexivity. }
  split; [by destruct Hst3|]. split; [lia|].
  assert (Hp3 : pranks st3.2 = pranks st2.2) by (apply Hq3; by rewrite Hp2). rewrite Hp2 in Hp3.
  assert (Hd3' : depth st3.2 = depth st.2) by lia.
  destruct (frame_end_exits _ _ _ Hp3 eq_refl Hd3') as [Ht Hpr]. split; [|done]. rewrite Ht.
  destruct o; [done|]. by destruct Hst3.
Qed.

(** [vm.startPrank] spoofs the caller of every call and creation of the
    account that called it, at any depth below its frame, and of no other
    account, until [vm.stopPrank], after which nothing is spoofed. *)
Theorem start_prank_covers i0 body0 a fs i1 body1 gs st :
  vm_call i0 (Vm_startPrank_0 a) -> vm_call i1 Vm_stopPrank ->
  pranks st.2 = prank_cheat_default -> 0 < depth st.2 ->
  forallb cheat_free fs = true -> forallb cheat_free gs = true ->
  let org := tx_caller st.1 in
  exists st',
    run_frames (FCall i0 body0 :: fs ++ FCall i1 body1 :: gs) st =
      (Ok (flat_map (seen_by (subst_caller (call_caller i0) a) org) fs ++ flat_map (seen_by id org) gs), st') /\
    tx_caller st'.1 = org /\ depth st'.2 = depth st.2 /\ pranks st'.2 = prank_cheat_default.
Proof.
  intros Hv0 Hv1 Hp Hd Hfs Hgs org.
  destruct (run_start_call i0 body0 a st Hv0 Hp Hd) as (st1 & Hr1 & Hc1 & Hd1 & Hp1).
  assert (Hst1 : steady (subst_caller (call_caller i0) a) org (depth st.2) st1).
  { split; rewrite ?Hp1, ?Hc1, ?Hd1; simpl; [done|lia|lia|done|]. split; [lia|]. by split; [left|]. }
  destruct (run_frames_steady _ _ _ fs st1 Hfs Hst1) as (st2 & Hr2 & Hst2 & Hd2 & _).
  destruct (run_stop_call i1 body1 st2 Hv1) as (st3 & Hr3 & Hd3 & Ht3 & Hp3); [lia|].
  assert (Horg : origin_ok org st2).
  { assert (Ho1 : origin_ok org st1) by (unfold origin_ok; rewrite Hp1, Hc1; done).
    pose proof (run_frames_invariant (origin_ok org) (apply_prank_origin org) (call_origin org)
      (frame_end_origin org) fs st1 Ho1) as Ho2. by rewrite Hr2 in Ho2. }
  assert (Ht : tx_caller st3.1 = org).
  { rewrite Ht3. apply origin_ok_saved in Horg. unfold origin_saved in Horg.
    by destruct (original_origin (pranks st2.2)). }
  assert (Hst3 : steady id org (depth st.2) st3).
  { split; rewrite ?Hp3; simpl; [done|lia|lia|done|done]. }
  destruct (run_frames_steady _ _ _ gs st3 Hgs Hst3) as (st4 & Hr4 & Hst4 & Hd4 & Hq4).
  exists st4. split; [|split; [by destruct Hst4|split; [lia|]]].
  - cbn [run_frames]. unfold mbind, M_bind. rewrite Hr1.
    rewrite (run_frames_app fs (FCall i1 body1 :: gs) st1 st2 st4 _ (flat_map (seen_by id org) gs) Hr2); [done|].
    cbn [run_frames]. unfold mbind, M_bind. by rewrite Hr3, Hr4.
  - rewrite Hq4; [done|]. by rewrite Hp3.
Qed.

(** C15: However frames nest, call, create, prank and stop, and whether or not
    the run fails on the way, [tx.origin] differs from the real one only while
    a prank is registered, and the real one is then saved; and a transaction
    that ends leaves the depth where it was and no [prank], so that without a
    [startPrank] left its [tx.origin] is the real one again. *)
Theorem pranks_are_scoped fs st r st' :
  run_frames fs st = (r, st') -> original_origin (pranks st.2) = None ->
  let real := tx_caller st.1 in
  (tx_caller st'.1 <> real ->
     original_origin (pranks st'.2) = Some real /\
     (is_Some (start (pranks st'.2)) \/ is_Some (active (pranks st'.2)))) /\
  (is_ok r = true -> depth st.2 = 0 -> active (pranks st.2) = None -> Forall plain fs ->
     depth st'.2 = 0 /\ active (pranks st'.2) = None /\
     (start (pranks st'.2) = None -> tx_caller st'.1 = real)).
Proof.
  intros Hr Ho real.
  assert (Ho' : origin_ok real st').
  { assert (Ho1 : origin_ok real st) by (unfold origin_ok; by rewrite Ho).
    pose proof (run_frames_invariant (origin_ok real) (apply_prank_origin real) (call_origin real)
      (frame_end_origin real) fs st Ho1) as Ho2. by rewrite Hr in Ho2. }
  unfold origin_ok in Ho'. split.
  - intros Hne. destruct (original_origin (pranks st'.2)) as [o|]; [|done]. by destruct Ho' as [-> ?].
  - intros Hok Hd Ha Hp. destruct r as [seen|m|p]; [|done..].
    destruct (run_frames_balanced fs st seen st' Hr) as [[_ Hb] Hd']; [|by right|].
    { split; [lia|]. by rewrite Ha. }
    rewrite Hd in Hd'. assert (Hn : active (pranks st'.2) = None).
    { destruct (active (pranks st'.2)) as [p|] eqn:E; [|done]. destruct (Hb p eq_refl) as [_ Hs]. lia. }
    split; [done|]. split; [done|]. intros Hs. rewrite Hs, Hn in Ho'.
    destruct (original_origin (pranks st'.2)); [|done]. destruct Ho' as [_ [[? ?]|[? ?]]]; done.
Qed.
End Properties.

(** ** Witnesses: four-byte inputs that name a cheatcode *)
Module ToyCheats.
Import Toy.

#[export] Instance accounts : JournalAccounts unit := {
  precompile_addresses _ := ∅;
  load_account _ _ := (Some 0, tt);
  set_balance _ _ _ := tt;
  set_nonce _ _ _ := tt;
  bytecode_new_raw_checked b := Some b;
  set_code _ _ _ := tt;
  sload _ _ _ := (Some 0, tt);
  sstore _ _ _ _ := (true, tt);
  insert_account_storage _ _ _ _ := tt;
}.
#[export] Instance forks : ForkJournal unit := {
  is_active_fork _ _ _ := true;
  db_fork _ _ _ _ j := (DErr (ForkSelect "none"), j);
  commit_remote_before_fork_switch _ j := j;
}.
#[export] Instance abi_values : AbiValues := { abi_encode _ := [] }.
#[export] Instance cheat_text : CheatText := {
  address_to_string _ := ""; address_parse _ := None; i256_to_string _ := ""; i256_parse _ := None }.
#[export] Instance curve : Secp256k1 := {
  curve_order := 7; public_key _ := None; sign_prehash_recoverable _ _ := None; keccak256_bytes b := b }.
#[export] Instance host : Host := { env_var _ := EnvNotPresent; run_command _ _ := inr ""%string }.
#[export] Instance vm_abi : VmAbi := { vm_abi_decode bs :=
  match bs with
  | 1 :: _ => Some (Vm_prank_0 77)
  | 2 :: _ => Some (Vm_prank_1 77 88)
  | 3 :: _ => Some (Vm_startPrank_0 77)
  | 4 :: _ => Some Vm_stopPrank
  | _ => None
  end }.

Definition vm (code who : Z) : Frame := FCall (mkCallInputs [code; 0; 0; 0] VM_ADDRESS who (0, 0) 9) [].
Definition to (target who : Z) (body : list Frame) : Frame := FCall (mkCallInputs [] target who (0, 0) 9) body.

Definition context : Context unit :=
  mkContext (mkBlockEnv 1 2 3 4 None 5 6 None) 1000 1 Specs.CANCUN tt.
(** The frame of the account 10 is open. *)
Definition open : (Context unit * Inspector)%type :=
  (context, mkInspector (state_default 1) None 1 true).
Definition closed : (Context unit * Inspector)%type :=
  (context, mkInspector (state_default 1) None 0 true).
End ToyCheats.
Import Toy ToyCheats.

Lemma vm_call_toy code who v : vm_abi_decode [code; 0; 0; 0] = Some v ->
  vm_call (mkCallInputs [code; 0; 0; 0] VM_ADDRESS who (0, 0) 9) v.
Proof. intros Hv. split; [done|]. split; [simpl; lia|done]. Qed.

Lemma prank_next_call_only_witness :
  exists st', run_frames [vm 2 10; to 11 10 [to 12 11 []]; to 13 10 []] open =
    (Ok [(77, 88); (11, 88); (10, 88)], st') /\ tx_caller (frame_end st').1 = 1000.
Proof.
  destruct (prank_next_call_only (mkCallInputs [2; 0; 0; 0] VM_ADDRESS 10 (0, 0) 9) [] 77 (Some 88)
    (to 11 10 [to 12 11 []]) [to 13 10 []] open) as (st' & Hr & _ & _ & Ht & _);
    [by apply vm_call_toy|reflexivity|reflexivity|reflexivity|reflexivity|].
  exists st'. split; [exact Hr|exact Ht].
Defined.

Lemma start_prank_covers_witness :
  exists st', run_frames [vm 3 10; to 11 10 [to 12 11 []]; to 13 10 []; vm 4 10; to 14 10 []] open =
    (Ok [(77, 1000); (11, 1000); (77, 1000); (10, 1000)], st').
Proof.
  destruct (start_prank_covers (mkCallInputs [3; 0; 0; 0] VM_ADDRESS 10 (0, 0) 9) [] 77
    [to 11 10 [to 12 11 []]; to 13 10 []] (mkCallInputs [4; 0; 0; 0] VM_ADDRESS 10 (0, 0) 9) [] [to 14 10 []] open)
    as (st' & Hr & _); [by apply vm_call_toy|by apply vm_call_toy|reflexivity|reflexivity|reflexivity|reflexivity|].
  exists st'. exact Hr.
Defined.

Lemma pranks_are_scoped_witness :
  let r := run_frames [to 10 1000 [vm 2 10; to 11 10 []]] closed in
  active (pranks r.2.2) = None /\ tx_caller r.2.1 = 1000.
Proof.
  intros r. destruct (pranks_are_scoped [to 10 1000 [vm 2 10; to 11 10 []]] closed r.1 r.2) as [_ Hs];
    [reflexivity|reflexivity|].
  destruct Hs as (_ & Ha & Ht); [reflexivity|reflexivity|reflexivity|constructor; [discriminate|constructor]|].
  split; [exact Ha|]. apply Ht. reflexivity.
Defined.
